(* ===== verification/_CoqProject ===== *)
-Q . S2P
Prelude.v
Endian.v
Sys.v
CLib.v
Odb.v
Delta.v
Sha1.v
Lock.v
Index.v
IndexEdit.v
IndexFile.v
Hash.v
PackIdx.v
Zlib.v
PackObj.v
PackCache.v
PackRead.v
Loose.v
ObjStore.v
PackFd.v
PackStream.v
Proto.v
Ignore.v
Config.v
XLines.v
Sweep.v
Myers.v
XAlt.v
XCompact.v
Xdiff.v
XHunks.v
MergeText.v
Commit.v
Marks.v
MergeBase.v
Tree.v
MergeTrees.v
