(* ===== verification/Prelude.v ===== *)
(** * A verification of bash-os's git implementation

    bash-os builds its userland as bash builtins.  The part of it that carries
    most logic of its own is the git implementation under loadables/_git: a
    library of C files (object database, deltas, packs, index, locks, trees,
    ignore rules, protocol, diff, merge, ...) that the git builtins share.  This
    library models that code in Rocq, function by function, and proves what
    makes each part correct.

    ** Parts and files

    Shared by all parts:
    - [Prelude]: outcomes, machine integers, byte strings, tactics, [qsort].
    - [Endian]: the big-endian fields of index.c and pack.c.
    - [Sys]: what the sources ask of the kernel (paths, inodes, descriptors,
      [errno]); every call takes its next answer from a script.
    - [CLib]: the C library's [strtoul], [strtol], [strtok_r], [sscanf] words
      and character classes, as far as the sources use them.

    Objects and where they are kept:
    - [Odb] (odb.c): object types, hexadecimal ids, object headers.
    - [Hash] (odb.c): hashing buffers, and open files in one pass that also
      checks the ranges read earlier.
    - [Delta] (pack.c): the delta encoder with its block index and rolling
      hash, and the decoder.
    - [Zlib] (pack.c): the loop around zlib's [inflate].
    - [PackIdx] (pack.c): the pack index: writer, search, structural and CRC
      checks.
    - [PackObj] (pack.c): slurping, the loose object reader and writer, the
      header of a packed object, the checksum snapshot.
    - [PackCache] (pack.c): the cache of objects built from deltas.
    - [PackRead], [PackFd] (pack.c): reading packed objects from a mapping and
      through a descriptor.
    - [Loose] (odb.c): compressing, writing and reading an object's own file.
    - [ObjStore] (store.c): one lookup over loose objects, alternates and packs.
    - [PackStream] (pack.c): receiving a pack of unknown length.

    The staging index and its locks:
    - [Sha1] (index.c): the rolling-window SHA-1 and FIPS 180-4.
    - [Lock] (lock.c): lock files with the chain of locks a process holds.
    - [Index], [IndexEdit], [IndexFile] (index.c): reader, writer and checksum
      snapshot; sorting, removal and text lines; slurping, replacing the file
      and its extensions.

    The network and the working tree:
    - [Proto] (proto.c): packet lines, capabilities, listing and fetching.
    - [Ignore] (ignore.c): exclude patterns and rules.

    Comparing and merging texts:
    - [XLines], [Sweep], [Myers], [XAlt], [XCompact], [Xdiff], [XHunks]
      (xdiff.c): lines and their hashes; why Myers' two searches meet in their
      box; the search for a split; the three algorithms on top of it; sliding
      runs of change; the whole comparison and its runs; hunks.
    - [MergeText] (merge.c): merging three versions of one text.

    History and trees:
    - [Commit] (revision.c, merge.c): the headers of commits and tags, peeling.
    - [Marks] (merge.c): the open-addressed table of a walk's flags.
    - [MergeBase] (merge.c): the walk that paints history down, ancestors,
      merge bases, octopus bases, independent commits.
    - [Tree] (tree.c): writing trees from the index and reading them back.
    - [MergeTrees] (merge.c): merging two trees over their base.

    How they meet: objects named by ids ([Odb], [Hash]) are stored alone or in
    packs ([Loose], [PackObj], [PackRead], [PackFd]), packs are indexed
    ([PackIdx]) and made of deltas ([Delta]) and zlib streams ([Zlib]), and
    arrive over the protocol ([PackStream], [Proto]); one store looks for an
    object in all of them ([ObjStore]).  The index ([Index]) maps paths to ids and
    is replaced on disk through a lock ([Lock]) or a temporary file
    ([IndexFile]); its entries become trees and come back from them ([Tree]).
    Trees of three commits, found through their history ([Commit],
    [MergeBase]), are merged path by path ([MergeTrees]), and the lines of a
    path both sides changed ([MergeText]) by comparing them ([Xdiff]).

    ** How the code is modelled

    - A byte is an integer in 0..255, a buffer the list of its bytes, a C
      string the list of the bytes before its terminator.  Machine integers
      are [Z] with their wrap-around ([u8] .. [u64]) written where the code can
      wrap; offsets within a live buffer cannot, and are not wrapped.
    - A function returns an [outcome]: a value, its failure code with the
      format of the message it reports, or [Fault], a load outside the object
      it was given.  Safety theorems say [Fault] does not happen.
    - Functions that call the kernel run in the monad [io] over a [world].  A
      theorem about every world covers every failure, interruption and short
      count; [w_log] keeps every state of the file system another process
      could have seen, so atomicity is a statement about the log.
    - The functions above the object store ([Commit], [MergeBase], [Tree],
      [MergeTrees]) see it through the classes [Objects] (reading) and [Store]
      with [StoreLaws] (writing: what is written can be read, and nothing that
      could be read is lost).
    - Allocation succeeds: [malloc] failures are not modelled.
    - Code that is not the repository's own is a type class with the laws its
      documentation states: [qsort] ([Qsort]), SHA-1 with collision detection
      ([Sha1dc]), zlib's [crc32] ([Crc32]), [inflate] ([Zlib]) and [deflate]
      ([Deflate]), the bytes of fresh memory ([Malloc]), the order of [readdir]
      ([Readdir]) and the addresses of mappings ([Mmap]); each has an instance,
      so every law can hold.

    ** Fuel

    Loops that are not structural take fuel.  Running out of it is [Fault]
    (or, where a loop cannot fault, the state so far), so a theorem that
    excludes [Fault] or gives the result shows the fuel is enough:
    - over buffers and kernel answers: their lengths, one unit per byte or
      answer consumed; [Zlib]: 1033 per input byte and one;
    - [PackRead], [PackFd], [ObjStore]: 52, the delta depth limit and one past
      it, to read an object; one more than the names of a listing to search it;
    - [Loose]: a file's bytes and two to slurp it;
    - comparing: 2*(N+M)+2 calls for a box of N lines by M, N+M rounds of the
      search for a split, the square of the length for compaction, one more
      than the runs for hunks, N+M plus the lines for each scan;
    - merging texts: one more than the runs of both sides for regions;
    - the history walk: 6 per commit and one per starting point and two, since
      a commit is queued once per flag it can still gain;
    - the table of marks: two, as a table grown once has room;
    - trees: entries times the length of a path buffer to write, and 2049
      levels to read, as each level adds two bytes to a path of 4096;
    - merging trees: the entries of the three trees and one.

    ** What is shown

    - [Delta]: a delta the encoder returns rebuilds its target; the decoder is
      safe on any bytes; the encoder always ends.
    - [Odb]: ids and headers survive printing and parsing.
    - [Hash]: a pass over a file gives the SHA-1 of its first bytes and reports
      a change exactly when a recorded range changed.
    - [Sha1]: the optimised SHA-1 computes the function of the standard.
    - [Zlib], [PackObj], [PackRead], [PackFd]: inflating gives exactly the
      stream; loose objects are written at once and read back; the two pack
      readers end, are safe on any bytes and answer only what the relation
      [resolves] says the pack holds, and the mapped one finds every object
      within the depth limit, with the cache invisible ([PackCache]: its
      accounting is exact and bounded in every reachable state).
    - [Loose]: an object written is there whole or not at all under the digest
      of its text, and reads back, for sizes zlib's 32-bit counts hold
      ([writable]).
    - [ObjStore]: when the kernel refuses nothing, and every pack's index is as
      the writer lays it out ([disk], [packed_index]), resolving, reading and
      listing answer for exactly what the files hold, at any point of a command
      ([ready], [cache_ok]); nothing they do changes a file.
    - [PackIdx]: a written pack index is accepted and finds exactly its
      objects; the readers are safe; the CRC check is exact.
    - [PackStream], [Proto]: exactly one pack is taken off a connection; packet
      lines, listings and fetches give back what the far end sent.
    - [Lock]: mutual exclusion over any interleaving, atomic commit.
    - [Index], [IndexFile], [IndexEdit]: what is written is read back; readers
      are safe on any bytes; the file is replaced at once or left alone; the
      sort is canonical; text lines are parsed exactly.
    - [Ignore]: the matcher accepts the language of its pattern; a path is
      ignored exactly when the rules say so.
    - [Myers] .. [XHunks]: a comparison ends, stays in its arrays, marks only
      lines the two files do not share in order, and its runs and hunks turn
      one file into the other.  The texts are within the sizes the 64-bit
      counters hold ([text_ok]) and the context is not negative ([context_ok]).
    - [MergeText]: a merge is a three-way merge, for texts of whole lines
      ([mergeable]); an unchanged side takes no part.
    - [Marks], [MergeBase]: the table is a map; ancestors, bases, octopus bases
      and independent commits are those of the ancestor relation, on any finite
      history without cycles whose commits can be read, whatever their dates.
    - [Commit]: a commit as git writes it is read back.
    - [Tree], [MergeTrees]: trees are read back as the entries they were
      written from, in git's one order; a merge of trees settles every path of
      the three once, by the rules of a three-way merge.

    Where the code does not do what it means to, a lemma shows it on a concrete
    input (for example [twice_ambiguous] of [ObjStore], [commit_tree_overread] of
    [Commit], [merge_joins_lines] of [MergeText], [mode_conflict_unseen] of
    [MergeTrees]).

    ** Not modelled

    - Allocation failure, file modes, signals, and the wording of messages
      beyond their formats.
    - Of _git: config.c, repo.c and refs.c (the file formats around the object
      store), the rest of revision.c (the grammar of revisions),
      checkout.c, worktree.c, diff.c, rename.c and patch.c (the porcelain over
      the parts above), transport.c and sshsig.c (running ssh, signatures).
    - The builtin front ends (git.c and the other loadables) and the vendored
      libraries; they are listed in the manifest with the reason. *)

From Stdlib Require Export ZArith Lia Bool Ascii String.
From stdpp Require Export prelude sorting.

#[global] Open Scope Z_scope.
#[global] Set Default Goal Selector "!".

(* ------------------------------------------------------------------ *)
(** * Outcomes: values, reported failures, and memory faults *)

(** What a C function of the repository does: it returns a value, it returns
    its failure code after reporting [msg] (the empty message for the silent
    functions), or it performs a load outside the object it was given.  The
    third case never happens in correct code; having it in the type is what
    lets the memory-safety theorems be stated. *)
Inductive outcome (A : Type) : Type :=
| Ret (a : A)
| Fail (msg : string)
| Fault.
Arguments Ret {A} _.
Arguments Fail {A} _.
Arguments Fault {A}.

Definition obind {A B} (x : outcome A) (k : A -> outcome B) : outcome B :=
  match x with
  | Ret a => k a
  | Fail m => Fail m
  | Fault => Fault
  end.

Declare Scope c_scope.
Delimit Scope c_scope with c.
Notation "'let*' x := c1 'in' c2" := (obind c1 (fun x => c2))
  (at level 10, x pattern, c1 at level 100, c2 at level 200,
   format "'[v' 'let*'  x  :=  c1  'in' '/' c2 ']'") : c_scope.
#[global] Open Scope c_scope.

(** The silent failure, [return -1]. *)
Abbreviation failed := (Fail EmptyString).

Definition faults {A} (x : outcome A) : bool :=
  match x with Fault => true | _ => false end.

(** No load outside an object. *)
Definition safe {A} (x : outcome A) : Prop := x <> Fault.

(* ------------------------------------------------------------------ *)
(** * Machine integers *)

Definition u8 (z : Z) : Z := z mod 2 ^ 8.
Definition u16 (z : Z) : Z := z mod 2 ^ 16.
Definition u32 (z : Z) : Z := z mod 2 ^ 32.
Definition u64 (z : Z) : Z := z mod 2 ^ 64.
Definition UINT32_MAX : Z := 2 ^ 32 - 1.
Definition UINT_MAX : Z := 2 ^ 32 - 1.
Definition UINT64_MAX : Z := 2 ^ 64 - 1.
(** [size_t] is 64 bits wide on the hosts the repository builds for. *)
Definition SIZE_MAX : Z := 2 ^ 64 - 1.
Definition LONG_MAX : Z := 2 ^ 63 - 1.
Definition LONG_MIN : Z := - 2 ^ 63.

(* ------------------------------------------------------------------ *)
(** * Bytes, buffers and C strings

    A byte is an integer between 0 and 255; a buffer is the list of its
    bytes; a C string is the list of the bytes before its terminator. *)

Definition is_byte (b : Z) : Prop := 0 <= b < 256.
Definition bytes (l : list Z) : Prop := Forall is_byte l.
(** Bytes a C string can hold. *)
Definition is_char (b : Z) : Prop := 0 < b < 256.
Definition cstring (l : list Z) : Prop := Forall is_char l.

(** The length of a buffer, as a [size_t]. *)
Definition len {A} (l : list A) : Z := Z.of_nat (length l).

Fixpoint str (s : string) : list Z :=
  match s with
  | EmptyString => []
  | String c s' => Z.of_N (N_of_ascii c) :: str s'
  end.

(** [b[i]]. *)
Definition rd (b : list Z) (i : Z) : outcome Z :=
  if (0 <=? i) && (i <? len b)
  then Ret (nth (Z.to_nat i) b 0) else Fault.

(** The [n] bytes at [b + off], as [memcpy] and [memcmp] read them. *)
Definition rdn (b : list Z) (off n : Z) : outcome (list Z) :=
  if (0 <=? off) && (0 <=? n) && (off + n <=? len b)
  then Ret (take (Z.to_nat n) (drop (Z.to_nat off) b)) else Fault.

(** [memchr] and [strchr]: how many bytes come before the first [c]. *)
Fixpoint find_byte (c : Z) (l : list Z) : option nat :=
  match l with
  | [] => None
  | x :: l' => if x =? c then Some O
               else match find_byte c l' with
                    | Some n => Some (S n)
                    | None => None
                    end
  end.

(** [strcmp] on C strings, and [memcmp] on buffers of one length: the sign of
    the first difference, a string being before its proper extensions. *)
Fixpoint bcmp (a b : list Z) : Z :=
  match a, b with
  | [], [] => 0
  | [], _ :: _ => -1
  | _ :: _, [] => 1
  | x :: a', y :: b' => if x <? y then -1 else if y <? x then 1 else bcmp a' b'
  end.

Definition beq (a b : list Z) : bool := bool_decide (a = b).

Definition is_digit (c : Z) : bool := (48 <=? c) && (c <=? 57).
Definition is_lower_hex (c : Z) : bool := (97 <=? c) && (c <=? 102).
Definition is_upper_hex (c : Z) : bool := (65 <=? c) && (c <=? 70).
Definition isxdigit (c : Z) : bool := is_digit c || is_lower_hex c || is_upper_hex c.

(* ------------------------------------------------------------------ *)
(** * Tactics and hint databases *)

Create HintDb cbytes.
Create Rewrite HintDb cbytes.
Create HintDb cwidth.

(** Case analysis on the test of the next [if] or [match], turning boolean
    comparisons into facts [lia] can use. *)
Ltac simpl_bool :=
  repeat match goal with
  | H : _ && _ = true |- _ => apply andb_true_iff in H as [? ?]
  | H : _ || _ = false |- _ => apply orb_false_iff in H as [? ?]
  | H : negb _ = true |- _ => apply negb_true_iff in H
  | H : negb _ = false |- _ => apply negb_false_iff in H
  | H : (_ =? _) = true |- _ => apply Z.eqb_eq in H
  | H : (_ =? _) = false |- _ => apply Z.eqb_neq in H
  | H : (_ <? _) = true |- _ => apply Z.ltb_lt in H
  | H : (_ <? _) = false |- _ => apply Z.ltb_ge in H
  | H : (_ <=? _) = true |- _ => apply Z.leb_le in H
  | H : (_ <=? _) = false |- _ => apply Z.leb_gt in H
  | H : (_ >? _) = true |- _ => rewrite Z.gtb_ltb in H
  | H : (_ >? _) = false |- _ => rewrite Z.gtb_ltb in H
  | H : (_ >=? _) = true |- _ => rewrite Z.geb_leb in H
  | H : (_ >=? _) = false |- _ => rewrite Z.geb_leb in H
  | H : bool_decide _ = true |- _ => apply bool_decide_eq_true in H
  | H : bool_decide _ = false |- _ => apply bool_decide_eq_false in H
  | H : beq _ _ = true |- _ => apply bool_decide_eq_true in H
  | H : beq _ _ = false |- _ => apply bool_decide_eq_false in H
  end.

Ltac case_if :=
  match goal with
  | |- context [if ?b then _ else _] =>
      lazymatch b with context [if _ then _ else _] => fail | _ => destruct b eqn:? end
  end; simpl_bool.

Ltac case_if_in H :=
  match type of H with
  | context [if ?b then _ else _] => destruct b eqn:?
  end; simpl_bool.

(** Linear arithmetic, with division and remainder by constants when the plain
    procedure is not enough. *)
Ltac dlia := Z.div_mod_to_equations; lia.
Ltac ar := first [lia | dlia].

(** Decide a boolean test with [ar]. *)
Ltac solve_true :=
  repeat match goal with |- _ && _ = true => apply andb_true_iff; split end;
  first [reflexivity | apply Z.eqb_eq; ar | apply Z.leb_le; ar | apply Z.ltb_lt; ar
        | rewrite Z.gtb_ltb; apply Z.ltb_lt; ar | rewrite Z.geb_leb; apply Z.leb_le; ar
        | apply negb_true_iff, Z.eqb_neq; ar
        | apply orb_true_iff; left; solve_true | apply orb_true_iff; right; solve_true].

Ltac solve_false :=
  repeat match goal with |- _ || _ = false => apply orb_false_iff; split end;
  first [reflexivity | apply Z.eqb_neq; ar | apply Z.leb_gt; ar | apply Z.ltb_ge; ar
        | rewrite Z.gtb_ltb; apply Z.ltb_ge; ar | rewrite Z.geb_leb; apply Z.leb_gt; ar
        | apply negb_false_iff, Z.eqb_eq; ar
        | apply andb_false_iff; left; solve_false | apply andb_false_iff; right; solve_false].

(** Replace an undecided [if] by the branch [lia] can show is taken. *)
Ltac if_true :=
  match goal with
  | |- context [if ?b then _ else _] => replace b with true by (symmetry; solve_true)
  end.

Ltac if_false :=
  match goal with
  | |- context [if ?b then _ else _] => replace b with false by (symmetry; solve_false)
  end.

(** A bounds test that is known to pass. *)
Ltac geb_false a b := replace (a >=? b) with false by (symmetry; solve_false).

(* ------------------------------------------------------------------ *)
(** * Shared lemmas *)

(** ** Outcomes *)

Lemma obind_ret {A B} (a : A) (k : A -> outcome B) : obind (Ret a) k = k a.
Proof. reflexivity. Qed.

(** [injection] without its simplification of the value. *)
Lemma Ret_inj {A} (a b : A) : Ret a = Ret b -> a = b.
Proof. by intros [= ->]. Qed.

Lemma obind_Ret_inv {A B} (x : outcome A) (k : A -> outcome B) b :
  obind x k = Ret b -> exists a, x = Ret a /\ k a = Ret b.
Proof. destruct x; simpl; try discriminate. eauto. Qed.

(** [x] performs no load outside an object, and any value it returns
    satisfies [P]. *)
Definition yields {A} (P : A -> Prop) (x : outcome A) : Prop :=
  match x with Ret a => P a | Fail _ => True | Fault => False end.

Lemma yields_bind {A B} (P : A -> Prop) (Q : B -> Prop) x (k : A -> outcome B) :
  yields P x -> (forall a, P a -> yields Q (k a)) -> yields Q (obind x k).
Proof. destruct x; simpl; auto. Qed.

Lemma yields_impl {A} (P Q : A -> Prop) x :
  yields P x -> (forall a, P a -> Q a) -> yields Q x.
Proof. destruct x; simpl; auto. Qed.

Lemma yields_safe {A} (P : A -> Prop) x : yields P x -> safe x.
Proof. by destruct x. Qed.

Lemma yields_ret {A} (P : A -> Prop) x a : yields P x -> x = Ret a -> P a.
Proof. by intros H ->. Qed.

#[export] Hint Resolve yields_safe : cbytes.

(** Step through a monadic hypothesis that is known to return. *)
Ltac inv_bind H :=
  match type of H with
  | obind _ _ = Ret _ =>
      let a := fresh "v" in let Ha := fresh "Hv" in
      apply obind_Ret_inv in H as (a & Ha & H)
  end.

(** ** Lengths and reads *)

Lemma len_nonneg {A} (l : list A) : 0 <= len l.
Proof. unfold len. lia. Qed.

Lemma len_nil {A} : len (@nil A) = 0.
Proof. reflexivity. Qed.

Lemma len_cons {A} (x : A) l : len (x :: l) = 1 + len l.
Proof. unfold len. simpl. lia. Qed.

Lemma len_app {A} (a b : list A) : len (a ++ b) = len a + len b.
Proof. unfold len. rewrite length_app. lia. Qed.

Lemma len_take {A} (n : nat) (l : list A) : len (take n l) = Z.min (Z.of_nat n) (len l).
Proof. unfold len. rewrite length_take. lia. Qed.

Lemma len_drop {A} (n : nat) (l : list A) : len (drop n l) = Z.max 0 (len l - Z.of_nat n).
Proof. unfold len. rewrite length_drop. lia. Qed.

Lemma len_replicate {A} (n : nat) (x : A) : len (replicate n x) = Z.of_nat n.
Proof. unfold len. by rewrite length_replicate. Qed.

#[export] Hint Rewrite @len_nil @len_cons @len_app @len_take @len_drop @len_replicate : cbytes.

(** Lengths of concatenations, pushed to the leaves. *)
Ltac lens := autorewrite with cbytes.
Ltac lens_in H := autorewrite with cbytes in H.
Ltac len_lia := lens; repeat match goal with
  | |- context [@len ?A ?l] =>
      lazymatch goal with H : 0 <= len l |- _ => fail | _ => pose proof (@len_nonneg A l) end
  end; lia.

Lemma take_min_length {A} (m : nat) (l : list A) : take (Nat.min m (length l)) l = take m l.
Proof.
  destruct (Nat.le_gt_cases m (length l)); [by rewrite Nat.min_l|].
  rewrite Nat.min_r by lia. by rewrite !take_ge by lia.
Qed.

Lemma drop_app_S {A} (a : list A) x b : drop (S (length a)) (a ++ x :: b) = b.
Proof. induction a; simpl; [done|]. done. Qed.

Lemma rd_app_hd pre x post : rd (pre ++ x :: post) (len pre) = Ret x.
Proof.
  unfold rd. pose proof (len_nonneg pre). pose proof (len_nonneg post).
  rewrite len_app, len_cons. if_true.
  unfold len. rewrite Nat2Z.id, app_nth2, Nat.sub_diag by lia. done.
Qed.

Lemma rd_ok b i : 0 <= i < len b -> rd b i = Ret (nth (Z.to_nat i) b 0).
Proof. intros. unfold rd. by if_true. Qed.

Lemma rd_safe b i : 0 <= i < len b -> safe (rd b i).
Proof. intros. by rewrite rd_ok. Qed.

Lemma rd_inv b i x : rd b i = Ret x -> 0 <= i < len b /\ x = nth (Z.to_nat i) b 0.
Proof. unfold rd. case_if; [|done]. intros [= <-]. by split. Qed.

Lemma nth_Forall {A} (P : A -> Prop) l n d : Forall P l -> P d -> P (nth n l d).
Proof.
  intros Hl Hd. destruct (decide (n < length l)%nat) as [Hn|Hn].
  - rewrite Forall_forall in Hl. apply Hl, list_elem_of_In, nth_In, Hn.
  - rewrite nth_overflow by lia. done.
Qed.

Lemma rd_byte b i x : bytes b -> rd b i = Ret x -> is_byte x.
Proof.
  intros Hb [_ ->]%rd_inv. apply nth_Forall; [done|]. unfold is_byte; lia.
Qed.

Lemma rd_app_skip pre b i : 0 <= i -> rd (pre ++ b) (len pre + i) = rd b i.
Proof.
  intros Hi. unfold rd. rewrite len_app. pose proof (len_nonneg pre).
  destruct (i <? len b) eqn:E; simpl_bool.
  - do 2 if_true. f_equal. unfold len in *.
    rewrite app_nth2 by lia. f_equal. lia.
  - replace (len pre + i <? len pre + len b) with false by (symmetry; apply Z.ltb_ge; lia).
    by rewrite !andb_false_r.
Qed.

Lemma rdn_ok b off n : 0 <= off -> 0 <= n -> off + n <= len b ->
  rdn b off n = Ret (take (Z.to_nat n) (drop (Z.to_nat off) b)).
Proof. intros. unfold rdn. by if_true. Qed.

Lemma rdn_inv b off n x : rdn b off n = Ret x ->
  0 <= off /\ 0 <= n /\ off + n <= len b /\
  x = take (Z.to_nat n) (drop (Z.to_nat off) b).
Proof. unfold rdn. case_if; [|done]. by intros [= <-]. Qed.

Lemma rdn_len b off n x : rdn b off n = Ret x -> len x = n.
Proof. intros (?&?&?&->)%rdn_inv. rewrite len_take, len_drop. lia. Qed.

(** [slice data off n]: the [n] bytes of [data] from [off], as far as there are
    that many. *)
Definition slice (data : list Z) (off n : Z) : list Z := take (Z.to_nat n) (drop (Z.to_nat off) data).

Lemma len_slice data off n : 0 <= off -> 0 <= n -> off + n <= len data -> len (slice data off n) = n.
Proof. intros. unfold slice. rewrite len_take, len_drop. lia. Qed.

Lemma slice_app data off n m : 0 <= off -> 0 <= n -> 0 <= m ->
  slice data off n ++ slice data (off + n) m = slice data off (n + m).
Proof.
  intros. unfold slice. replace (Z.to_nat (off + n)) with (Z.to_nat off + Z.to_nat n)%nat by lia.
  rewrite <- drop_drop, take_take_drop. f_equal. lia.
Qed.

Lemma slice_slice data off n a m : 0 <= off -> 0 <= a -> 0 <= m -> a + m <= n ->
  slice (slice data off n) a m = slice data (off + a) m.
Proof.
  intros. unfold slice. rewrite skipn_firstn_comm, take_take, drop_drop. f_equal; [lia|]. f_equal. lia.
Qed.

Lemma slice_take data off n : 0 <= off -> 0 <= n -> slice data off n = slice (take (Z.to_nat (off + n)) data) off n.
Proof.
  intros. unfold slice. rewrite skipn_firstn_comm, take_take. f_equal. lia.
Qed.

Lemma slice_full data n : len data <= n -> slice data 0 n = data.
Proof. intros. unfold slice. rewrite drop_0. apply take_ge. unfold len in *. lia. Qed.

Lemma slice_nil data off n : n <= 0 -> slice data off n = [].
Proof. intros. unfold slice. by replace (Z.to_nat n) with O by lia. Qed.

Lemma slice_split data off n k : 0 <= off -> 0 <= k <= n -> slice data off n = slice data off k ++ slice data (off + k) (n - k).
Proof. intros. rewrite slice_app by lia. f_equal. lia. Qed.

Lemma take_slice data off n k : 0 <= k <= n -> take (Z.to_nat k) (slice data off n) = slice data off k.
Proof. intros. unfold slice. rewrite take_take. f_equal. lia. Qed.

Lemma drop_slice data off n k : 0 <= off -> 0 <= k <= n -> drop (Z.to_nat k) (slice data off n) = slice data (off + k) (n - k).
Proof. intros. unfold slice. rewrite skipn_firstn_comm, drop_drop. f_equal; [lia|]. f_equal. lia. Qed.

Lemma rdn_slice b off n : 0 <= off -> 0 <= n -> off + n <= len b -> rdn b off n = Ret (slice b off n).
Proof. apply rdn_ok. Qed.

(** What a read of at most [k] bytes from [off] gives. *)
Lemma slice_short data off k : 0 <= off -> let c := take k (drop (Z.to_nat off) data) in
  len c = Z.max 0 (Z.min (Z.of_nat k) (len data - off)) /\ c = slice data off (len c).
Proof.
  intros Ho c. assert (Hl : len c = Z.max 0 (Z.min (Z.of_nat k) (len data - off))) by (unfold c; rewrite len_take, len_drop; lia).
  split; [done|]. rewrite Hl. unfold c, slice. destruct (Z.le_ge_cases (Z.of_nat k) (len data - off)).
  - f_equal. lia.
  - rewrite !take_ge; [done|rewrite length_drop; unfold len in *; lia..].
Qed.

Lemma bytes_slice data off n : bytes data -> bytes (slice data off n).
Proof. intros. by apply Forall_take, Forall_drop. Qed.

Lemma rdn_app pre mid post : rdn (pre ++ mid ++ post) (len pre) (len mid) = Ret mid.
Proof.
  rewrite rdn_ok; [|pose proof (len_nonneg pre); pose proof (len_nonneg mid);
    pose proof (len_nonneg post); rewrite ?len_app; lia..].
  unfold len. rewrite !Nat2Z.id, drop_app_length, take_app_length. done.
Qed.

Lemma rdn_app' pre mid post off n : off = len pre -> n = len mid ->
  rdn (pre ++ mid ++ post) off n = Ret mid.
Proof. intros -> ->. apply rdn_app. Qed.

Lemma rd_app_hd' pre x post off : off = len pre -> rd (pre ++ x :: post) off = Ret x.
Proof. intros ->. apply rd_app_hd. Qed.

Lemma yields_rd b i (P : Z -> Prop) : bytes b -> 0 <= i < len b ->
  (forall x, is_byte x -> P x) -> yields P (rd b i).
Proof.
  intros Hb Hi HP. rewrite rd_ok by done. simpl. apply HP, nth_Forall; [done|].
  unfold is_byte; lia.
Qed.

Lemma yields_rdn b off n (P : list Z -> Prop) : 0 <= off -> 0 <= n -> off + n <= len b ->
  (forall x, len x = n -> P x) -> yields P (rdn b off n).
Proof.
  intros ??? HP. rewrite rdn_ok by done. simpl. apply HP. rewrite len_take, len_drop. lia.
Qed.

Lemma rdn_bytes b off n x : bytes b -> rdn b off n = Ret x -> bytes x.
Proof. intros Hb (?&?&?&->)%rdn_inv. by apply Forall_take, Forall_drop. Qed.

(** Concrete buffers and strings, checked by evaluation. *)
Lemma bytes_check l : forallb (fun b => (0 <=? b) && (b <? 256)) l = true -> bytes l.
Proof.
  intros H. apply Forall_forall. intros x Hx. rewrite forallb_forall in H.
  specialize (H x (proj1 (list_elem_of_In _ _) Hx)). simpl_bool. unfold is_byte. lia.
Qed.

Lemma cstring_check l : forallb (fun b => (0 <? b) && (b <? 256)) l = true -> cstring l.
Proof.
  intros H. apply Forall_forall. intros x Hx. rewrite forallb_forall in H.
  specialize (H x (proj1 (list_elem_of_In _ _) Hx)). simpl_bool. unfold is_char. lia.
Qed.

Lemma cstring_bytes l : cstring l -> bytes l.
Proof. intros H. eapply Forall_impl; [exact H|]. unfold is_char, is_byte. lia. Qed.

#[export] Hint Resolve cstring_bytes : cbytes.

Ltac solve_bytes :=
  first [apply bytes_check; vm_compute; reflexivity | apply cstring_check; vm_compute; reflexivity].

(** ** Searching a buffer *)

Lemma find_byte_Some c l n :
  find_byte c l = Some n <->
  exists a b, l = a ++ c :: b /\ length a = n /\ Forall (fun x => x <> c) a.
Proof.
  revert n. induction l as [|x l IH]; intros n; simpl.
  - split; [done|]. intros (a & b & H & _). by destruct a.
  - destruct (x =? c) eqn:E; simpl_bool.
    + split.
      * intros [= <-]. exists [], l. subst. by repeat constructor.
      * intros (a & b & H & Hn & Ha). destruct a as [|y a]; simpl in *; [by f_equal|].
        inversion Ha; simplify_eq.
    + destruct (find_byte c l) as [m|]; split.
      * intros [= <-]. destruct (proj1 (IH m) eq_refl) as (a & b & -> & <- & Ha).
        exists (x :: a), b. repeat split; [by constructor].
      * intros (a & b & H & Hn & Ha). destruct a as [|y a]; simplify_eq/=.
        inversion Ha; subst. assert (Hm : Some m = Some (length a)).
        { apply IH. eauto. } congruence.
      * done.
      * intros (a & b & H & Hn & Ha). destruct a as [|y a]; simplify_eq/=.
        inversion Ha; subst. assert (Hm : None = Some (length a)).
        { apply IH. eauto. } done.
Qed.

Lemma find_byte_None c l : find_byte c l = None <-> Forall (fun x => x <> c) l.
Proof.
  induction l as [|x l IH]; simpl; [split; auto|].
  rewrite Forall_cons, <- IH. destruct (x =? c) eqn:E; simpl_bool.
  - split; [done|]. by intros [? _].
  - destruct (find_byte c l); naive_solver.
Qed.

Lemma find_byte_app c a b : Forall (fun x => x <> c) a ->
  find_byte c (a ++ c :: b) = Some (length a).
Proof. intros. apply find_byte_Some. eauto. Qed.

(** ** The byte order *)

Lemma bcmp_refl a : bcmp a a = 0.
Proof. induction a; simpl; [done|]. by rewrite Z.ltb_irrefl. Qed.

Lemma bcmp_eq a b : bcmp a b = 0 <-> a = b.
Proof.
  split; [|intros ->; apply bcmp_refl].
  revert b. induction a as [|x a IH]; intros [|y b]; simpl; try done.
  repeat case_if; try done. intros ?%IH. f_equal; [lia|done].
Qed.

Lemma bcmp_antisym a b : bcmp b a = - bcmp a b.
Proof.
  revert b. induction a as [|x a IH]; intros [|y b]; simpl; try done.
  repeat case_if; try lia. apply IH.
Qed.

Lemma bcmp_range a b : bcmp a b = -1 \/ bcmp a b = 0 \/ bcmp a b = 1.
Proof.
  revert b. induction a as [|x a IH]; intros [|y b]; simpl; auto.
  repeat case_if; auto.
Qed.

Lemma bcmp_lt_trans a b c : bcmp a b < 0 -> bcmp b c < 0 -> bcmp a c < 0.
Proof.
  revert b c. induction a as [|x a IH]; intros [|y b] [|z c]; simpl; try lia.
  repeat case_if; try lia. apply IH.
Qed.

Lemma bcmp_le_trans a b c : bcmp a b <= 0 -> bcmp b c <= 0 -> bcmp a c <= 0.
Proof.
  intros H1 H2.
  destruct (Z.eq_dec (bcmp a b) 0) as [->%bcmp_eq|]; [done|].
  destruct (Z.eq_dec (bcmp b c) 0) as [<-%bcmp_eq|]; [done|].
  pose proof (bcmp_lt_trans a b c). lia.
Qed.

Lemma bcmp_app_l p a b : bcmp (p ++ a) (p ++ b) = bcmp a b.
Proof. induction p; simpl; [done|]. by rewrite Z.ltb_irrefl. Qed.

(** ** Machine integers *)

Lemma u8_range z : 0 <= u8 z < 256.
Proof. apply Z.mod_pos_bound. done. Qed.

Lemma u8_id z : 0 <= z < 256 -> u8 z = z.
Proof. apply Z.mod_small. Qed.

Lemma u16_id z : 0 <= z < 2 ^ 16 -> u16 z = z.
Proof. apply Z.mod_small. Qed.

Lemma u32_id z : 0 <= z < 2 ^ 32 -> u32 z = z.
Proof. apply Z.mod_small. Qed.

Lemma u64_id z : 0 <= z < 2 ^ 64 -> u64 z = z.
Proof. apply Z.mod_small. Qed.

Lemma u32_range z : 0 <= u32 z < 2 ^ 32.
Proof. apply Z.mod_pos_bound. done. Qed.

Lemma u16_range z : 0 <= u16 z < 2 ^ 16.
Proof. apply Z.mod_pos_bound. done. Qed.

Lemma u64_range z : 0 <= u64 z < 2 ^ 64.
Proof. apply Z.mod_pos_bound. done. Qed.

(** A fact about a small range checked value by value. *)
Lemma range_forallb (n : nat) (P : Z -> bool) :
  forallb (fun k => P (Z.of_nat k)) (seq 0 n) = true ->
  forall x, 0 <= x < Z.of_nat n -> P x = true.
Proof.
  intros H x Hx. rewrite forallb_forall in H. specialize (H (Z.to_nat x)).
  rewrite Z2Nat.id in H by lia. apply H, in_seq. lia.
Qed.

Lemma land_le_r a b : 0 <= b -> 0 <= Z.land a b <= b.
Proof.
  intros Hb. split; [apply Z.land_nonneg; lia|].
  apply Z.ldiff_le; [done|]. apply Z.bits_inj'. intros i Hi.
  rewrite Z.ldiff_spec, Z.land_spec, Z.bits_0.
  by destruct (Z.testbit a i), (Z.testbit b i).
Qed.

(** Testing one flag bit. *)
Lemma land_bit a i : 0 <= i -> (Z.land a (Z.shiftl 1 i) =? 0) = negb (Z.testbit a i).
Proof.
  intros Hi. rewrite Z.shiftl_1_l. destruct (Z.testbit a i) eqn:E; simpl.
  - apply Z.eqb_neq. intros H. apply (f_equal (fun z => Z.testbit z i)) in H.
    rewrite Z.land_spec, Z.pow2_bits_true, E, Z.bits_0 in H by done. done.
  - apply Z.eqb_eq, Z.bits_inj'. intros j Hj.
    rewrite Z.land_spec, Z.pow2_bits_eqb, Z.bits_0 by done.
    destruct (Z.eqb_spec i j); [subst; by rewrite E|by rewrite andb_false_r].
Qed.

(** The low seven bits of a byte and its high bit, as variable-length
    integers use them. *)
Lemma seven_bits x : 0 <= x < 128 ->
  Z.land x 127 = x /\ Z.land x 128 = 0 /\
  Z.land (Z.lor x 128) 127 = x /\ Z.land (Z.lor x 128) 128 = 128 /\
  Z.lor x 128 = x + 128.
Proof.
  intros Hx.
  pose proof (range_forallb 128 (fun x => (Z.land x 127 =? x) && (Z.land x 128 =? 0) &&
    (Z.land (Z.lor x 128) 127 =? x) && (Z.land (Z.lor x 128) 128 =? 128) &&
    (Z.lor x 128 =? x + 128)) ltac:(vm_compute; reflexivity) x Hx) as H.
  simpl in H. simpl_bool. auto.
Qed.

(** Disjoint bit fields: [or] is [+]. *)
Lemma lor_add_shift a b n : 0 <= n -> 0 <= a < 2 ^ n -> Z.lor a (Z.shiftl b n) = a + b * 2 ^ n.
Proof.
  intros Hn Ha. rewrite <- Z.shiftl_mul_pow2 by done.
  assert (Hd : Z.land a (Z.shiftl b n) = 0).
  { apply Z.bits_inj'. intros i Hi. rewrite Z.land_spec, Z.bits_0.
    destruct (Z.lt_ge_cases i n).
    - rewrite (Z.shiftl_spec_low b n i) by done. apply andb_false_r.
    - rewrite <- (Z.mod_small a (2 ^ n)) by done.
      rewrite Z.mod_pow2_bits_high by lia. done. }
  by rewrite Z.add_nocarry_lxor, Z.lxor_lor.
Qed.

Lemma lor_lt_pow2 a b n : 0 <= n -> 0 <= a < 2 ^ n -> 0 <= b < 2 ^ n -> 0 <= Z.lor a b < 2 ^ n.
Proof.
  intros Hn Ha Hb. split; [apply Z.lor_nonneg; lia|].
  destruct (Z.eq_dec a 0) as [->|]; [rewrite Z.lor_0_l; lia|].
  destruct (Z.eq_dec b 0) as [->|]; [rewrite Z.lor_0_r; lia|].
  destruct (Z.eq_dec n 0) as [->|]; [lia|].
  apply Z.log2_lt_cancel. rewrite Z.log2_lor, Z.log2_pow2 by lia.
  apply Z.max_lub_lt; apply Z.log2_lt_pow2; lia.
Qed.

Lemma land_ones_mod a n : 0 <= n -> Z.land a (2 ^ n - 1) = a mod 2 ^ n.
Proof.
  intros. rewrite <- Z.land_ones by done. f_equal. rewrite Z.ones_equiv. lia.
Qed.

#[export] Hint Resolve u8_range u16_range u32_range u64_range : cwidth.

(* ------------------------------------------------------------------ *)
(** * The C library's [qsort]

    The sources sort with [qsort], whose contract fixes only that the result
    is a permutation of the input in ascending order; entries that compare
    equal may come out in any order.  Clients are proved against that
    contract; [insertion_qsort] shows it can be met. *)

Record total_preorder {A} (cmp : A -> A -> Z) : Prop := {
  cmp_total : forall a b, cmp a b <= 0 \/ cmp b a <= 0;
  cmp_trans : forall a b c, cmp a b <= 0 -> cmp b c <= 0 -> cmp a c <= 0 }.

(** The comparison has to be one only on what is sorted. *)
Record preorder_on {A} (P : A -> Prop) (cmp : A -> A -> Z) : Prop := {
  on_total : forall a b, P a -> P b -> cmp a b <= 0 \/ cmp b a <= 0;
  on_trans : forall a b c, P a -> P b -> P c -> cmp a b <= 0 -> cmp b c <= 0 -> cmp a c <= 0 }.

Class Qsort := {
  qsort : forall {A : Type}, (A -> A -> Z) -> list A -> list A;
  qsort_perm : forall A (cmp : A -> A -> Z) l, Permutation (qsort cmp l) l;
  qsort_sorted_on : forall A (P : A -> Prop) (cmp : A -> A -> Z) l, preorder_on P cmp -> Forall P l ->
    StronglySorted (fun a b => cmp a b <= 0) (qsort cmp l) }.

Lemma qsort_sorted `{Qsort} A (cmp : A -> A -> Z) l : total_preorder cmp -> StronglySorted (fun a b => cmp a b <= 0) (qsort cmp l).
Proof.
  intros [Ht Hr]. apply (qsort_sorted_on _ (fun _ => True)); [|by apply Forall_true].
  split; [intros a b _ _; apply Ht|intros a b c _ _ _; apply Hr].
Qed.

Fixpoint insert_by {A} (cmp : A -> A -> Z) (x : A) (l : list A) : list A :=
  match l with
  | [] => [x]
  | y :: l' => if cmp x y <=? 0 then x :: l else y :: insert_by cmp x l'
  end.

Fixpoint isort {A} (cmp : A -> A -> Z) (l : list A) : list A :=
  match l with
  | [] => []
  | x :: l' => insert_by cmp x (isort cmp l')
  end.

Lemma insert_by_perm {A} cmp (x : A) l : Permutation (insert_by cmp x l) (x :: l).
Proof.
  induction l as [|y l IH]; simpl; [done|]. case_if; [done|].
  rewrite IH. constructor.
Qed.

Lemma isort_perm {A} cmp (l : list A) : Permutation (isort cmp l) l.
Proof. induction l; simpl; [done|]. rewrite insert_by_perm. by f_equiv. Qed.

Lemma insert_by_sorted {A} (P : A -> Prop) cmp (x : A) l : preorder_on P cmp -> P x -> Forall P l ->
  StronglySorted (fun a b => cmp a b <= 0) l ->
  StronglySorted (fun a b => cmp a b <= 0) (insert_by cmp x l).
Proof.
  intros Hc Hx Hl. induction 1 as [|y l Hs IH Hy]; simpl; [by repeat constructor|].
  apply Forall_cons in Hl as [Py Hl]. case_if.
  - constructor; [by constructor|]. constructor; [done|].
    rewrite Forall_forall in Hl, Hy |- *. intros z Hz. by eapply (on_trans P cmp Hc x y z); auto.
  - constructor; [by apply IH|]. rewrite insert_by_perm. constructor; [|done].
    destruct (on_total P cmp Hc x y Hx Py); [lia|done].
Qed.

Lemma isort_sorted {A} (P : A -> Prop) cmp (l : list A) : preorder_on P cmp -> Forall P l ->
  StronglySorted (fun a b => cmp a b <= 0) (isort cmp l).
Proof.
  intros Hc. induction 1 as [|x l Hx Hl IH]; simpl; [constructor|]. apply (insert_by_sorted P); try done. by rewrite isort_perm.
Qed.

#[export] Instance insertion_qsort : Qsort := {|
  qsort := @isort;
  qsort_perm := @isort_perm;
  qsort_sorted_on := @isort_sorted |}.

Lemma StronglySorted_weaken {A} (R S : A -> A -> Prop) l : (forall a b, R a b -> S a b) ->
  StronglySorted R l -> StronglySorted S l.
Proof.
  intros HRS. induction 1 as [|x l _ IH Hx]; constructor; [done|].
  eapply Forall_impl; [exact Hx|]. auto.
Qed.

(** When no two entries compare equal the sorted order is unique, whatever
    [qsort] the C library has. *)
Lemma sorted_unique {A} (cmp : A -> A -> Z) l1 l2 :
  (forall a b, cmp a b <= 0 -> cmp b a <= 0 -> a ∈ l1 -> b ∈ l1 -> a = b) ->
  StronglySorted (fun a b => cmp a b <= 0) l1 ->
  StronglySorted (fun a b => cmp a b <= 0) l2 ->
  Permutation l1 l2 -> l1 = l2.
Proof.
  intros Hanti H1. revert l2. induction H1 as [|x l1 Hl IH Hx]; intros l2 H2 Hp.
  - by apply Permutation_nil in Hp.
  - destruct H2 as [|y l2 Hl2 Hy].
    { by apply Permutation_sym, Permutation_nil in Hp. }
    assert (x = y) as ->.
    { assert (Hxin : x ∈ y :: l2) by (rewrite <- Hp; left).
      assert (Hyin : y ∈ x :: l1) by (rewrite Hp; left).
      apply elem_of_cons in Hxin as [|Hxin]; [done|].
      apply elem_of_cons in Hyin as [|Hyin]; [done|].
      rewrite Forall_forall in Hx, Hy.
      apply Hanti; [by apply Hx|by apply Hy|left|by right]. }
    apply Permutation_cons_inv in Hp. f_equal. apply IH; [|done..].
    intros a b ????. apply Hanti; try done; by right.
Qed.
