(* ===== verification/Endian.v ===== *)
(** * Big-endian fields (loadables/_git/index.c and pack.c)

    The fixed-width integers the index, the pack and the pack index are made
    of: readers and writers of 16, 32 and 64 bits, and the lemmas that they are
    inverse to each other wherever the field sits in a buffer. *)

From S2P Require Import Prelude.
#[local] Open Scope Z_scope.

(* ------------------------------------------------------------------ *)
(** ** Readers and writers *)

Definition bgit_be32 (buf : list Z) (off : Z) : outcome Z :=
  let* b0 := rd buf off in
  let* b1 := rd buf (off + 1) in
  let* b2 := rd buf (off + 2) in
  let* b3 := rd buf (off + 3) in
  Ret (Z.lor (Z.lor (Z.lor (u32 (Z.shiftl b0 24)) (u32 (Z.shiftl b1 16)))
                    (u32 (Z.shiftl b2 8))) b3).

Definition bgit_be16 (buf : list Z) (off : Z) : outcome Z :=
  let* b0 := rd buf off in
  let* b1 := rd buf (off + 1) in
  Ret (u16 (Z.lor (Z.shiftl b0 8) b1)).

(** [((uint64_t) be32 (buf, off) << 32) | be32 (buf, off + 4)]. *)
Definition bgit_be64 (buf : list Z) (off : Z) : outcome Z :=
  let* hi := bgit_be32 buf off in
  let* lo := bgit_be32 buf (off + 4) in
  Ret (Z.lor (u64 (Z.shiftl hi 32)) lo).

Definition bgit_put_be32 (v : Z) : list Z :=
  [u8 (Z.shiftr v 24); u8 (Z.shiftr v 16); u8 (Z.shiftr v 8); u8 v].

Definition bgit_put_be16 (v : Z) : list Z := [u8 (Z.shiftr v 8); u8 v].

(* ------------------------------------------------------------------ *)
(** ** What the fields hold *)

(** The number four bytes spell. *)
Definition word (b0 b1 b2 b3 : Z) : Z := b0 * 2 ^ 24 + b1 * 2 ^ 16 + b2 * 2 ^ 8 + b3.

Lemma lor_bytes hi lo n : 0 <= n -> 0 <= lo < 2 ^ n -> Z.lor (hi * 2 ^ n) lo = hi * 2 ^ n + lo.
Proof.
  intros. rewrite Z.lor_comm, <- Z.shiftl_mul_pow2 by done. rewrite lor_add_shift by done.
  rewrite Z.shiftl_mul_pow2 by done. lia.
Qed.

Lemma word_lor b0 b1 b2 b3 : is_byte b0 -> is_byte b1 -> is_byte b2 -> is_byte b3 ->
  Z.lor (Z.lor (Z.lor (u32 (Z.shiftl b0 24)) (u32 (Z.shiftl b1 16)))
               (u32 (Z.shiftl b2 8))) b3 = word b0 b1 b2 b3.
Proof.
  unfold is_byte, word. intros H0 H1 H2 H3.
  rewrite !Z.shiftl_mul_pow2 by done. rewrite !u32_id by lia.
  rewrite (lor_bytes b0 (b1 * 2 ^ 16) 24) by lia.
  replace (b0 * 2 ^ 24 + b1 * 2 ^ 16) with ((b0 * 2 ^ 8 + b1) * 2 ^ 16) by lia.
  rewrite (lor_bytes _ (b2 * 2 ^ 8) 16) by lia.
  replace ((b0 * 2 ^ 8 + b1) * 2 ^ 16 + b2 * 2 ^ 8)
    with ((b0 * 2 ^ 16 + b1 * 2 ^ 8 + b2) * 2 ^ 8) by lia.
  rewrite (lor_bytes _ b3 8) by lia. lia.
Qed.

Lemma word_range b0 b1 b2 b3 : is_byte b0 -> is_byte b1 -> is_byte b2 -> is_byte b3 ->
  0 <= word b0 b1 b2 b3 < 2 ^ 32.
Proof. unfold is_byte, word. lia. Qed.

Lemma put_be32_word v : 0 <= v < 2 ^ 32 ->
  exists b0 b1 b2 b3, bgit_put_be32 v = [b0; b1; b2; b3] /\
    is_byte b0 /\ is_byte b1 /\ is_byte b2 /\ is_byte b3 /\ word b0 b1 b2 b3 = v.
Proof.
  intros Hv. unfold bgit_put_be32. do 4 eexists. split; [reflexivity|].
  pose proof (u8_range (Z.shiftr v 24)). pose proof (u8_range (Z.shiftr v 16)).
  pose proof (u8_range (Z.shiftr v 8)). pose proof (u8_range v).
  split; [done|]. split; [done|]. split; [done|]. split; [done|].
  unfold word, u8. rewrite !Z.shiftr_div_pow2 by done. dlia.
Qed.

Lemma len_put_be32 v : len (bgit_put_be32 v) = 4.
Proof. done. Qed.

Lemma len_put_be16 v : len (bgit_put_be16 v) = 2.
Proof. done. Qed.

Lemma put_be32_bytes v : bytes (bgit_put_be32 v).
Proof. repeat constructor; apply u8_range. Qed.

Lemma put_be16_bytes v : bytes (bgit_put_be16 v).
Proof. repeat constructor; apply u8_range. Qed.

#[export] Hint Rewrite len_put_be32 len_put_be16 : cbytes.
#[export] Hint Resolve put_be32_bytes put_be16_bytes : cbytes.

Lemma rd_app_at pre l post off i : off = len pre + i -> 0 <= i < len l ->
  rd (pre ++ l ++ post) off = rd l i.
Proof.
  intros -> Hi. rewrite rd_app_skip by lia.
  pose proof (len_nonneg post).
  rewrite !rd_ok by (rewrite ?len_app; lia). f_equal.
  unfold len in *. apply app_nth1. lia.
Qed.

Lemma be32_put pre v post off : off = len pre -> 0 <= v < 2 ^ 32 ->
  bgit_be32 (pre ++ bgit_put_be32 v ++ post) off = Ret v.
Proof.
  intros Hoff Hv. destruct (put_be32_word v Hv) as (b0&b1&b2&b3&->&H0&H1&H2&H3&<-).
  unfold bgit_be32.
  rewrite (rd_app_at _ _ _ off 0), (rd_app_at _ _ _ (off + 1) 1),
    (rd_app_at _ _ _ (off + 2) 2), (rd_app_at _ _ _ (off + 3) 3) by first [lia | cbv; intuition congruence].
  unfold rd; simpl. by rewrite word_lor.
Qed.

Lemma be16_put pre v post off : off = len pre -> 0 <= v < 2 ^ 16 ->
  bgit_be16 (pre ++ bgit_put_be16 v ++ post) off = Ret v.
Proof.
  intros Hoff Hv. unfold bgit_be16, bgit_put_be16.
  rewrite (rd_app_at _ _ _ off 0), (rd_app_at _ _ _ (off + 1) 1) by first [lia | cbv; intuition congruence].
  unfold rd; simpl.
  rewrite Z.shiftl_mul_pow2 by done. rewrite lor_bytes by (pose proof (u8_range v); lia).
  rewrite Z.shiftr_div_pow2 by done.
  assert (E : u8 (v / 2 ^ 8) * 2 ^ 8 + u8 v = v) by (unfold u8; dlia).
  by rewrite E, u16_id.
Qed.

Lemma be64_put pre hi lo post off : off = len pre -> 0 <= hi < 2 ^ 32 -> 0 <= lo < 2 ^ 32 ->
  bgit_be64 (pre ++ bgit_put_be32 hi ++ bgit_put_be32 lo ++ post) off = Ret (hi * 2 ^ 32 + lo).
Proof.
  intros Hoff Hhi Hlo. unfold bgit_be64. rewrite be32_put by done. rewrite obind_ret.
  rewrite (app_assoc pre), be32_put by (rewrite ?len_app, ?len_put_be32; lia).
  rewrite obind_ret, Z.shiftl_mul_pow2 by done. rewrite u64_id by lia.
  by rewrite lor_bytes.
Qed.

(** ** Reads inside the buffer succeed *)

Lemma yields_be32 buf off : bytes buf -> 0 <= off -> off + 4 <= len buf ->
  exists v, bgit_be32 buf off = Ret v /\ 0 <= v < 2 ^ 32.
Proof.
  intros Hb Ho Hl. unfold bgit_be32. rewrite !rd_ok by lia. simpl obind.
  eexists. split; [reflexivity|].
  rewrite word_lor; [apply word_range|..]; apply nth_Forall; try done; unfold is_byte; lia.
Qed.

Lemma yields_be16 buf off : bytes buf -> 0 <= off -> off + 2 <= len buf ->
  exists v, bgit_be16 buf off = Ret v /\ 0 <= v < 2 ^ 16.
Proof.
  intros Hb Ho Hl. unfold bgit_be16. rewrite !rd_ok by lia. simpl obind.
  eexists. split; [reflexivity|]. apply u16_range.
Qed.

Lemma yields_be64 buf off : bytes buf -> 0 <= off -> off + 8 <= len buf ->
  exists v, bgit_be64 buf off = Ret v /\ 0 <= v < 2 ^ 64.
Proof.
  intros Hb Ho Hl. unfold bgit_be64.
  destruct (yields_be32 buf off) as (hi & -> & Hhi); [done|lia..|].
  destruct (yields_be32 buf (off + 4)) as (lo & -> & Hlo); [done|lia..|].
  simpl obind. eexists. split; [reflexivity|].
  apply lor_lt_pow2; [lia|apply u64_range|lia].
Qed.
