(* ===== verification/Sys.v ===== *)
(** * The system interface

    What the sources ask of the kernel, as far as they ask it: a name space of
    paths, inodes with their bytes, open descriptors with their offsets, and
    [errno].  Every call first takes the next answer of a script, so that a
    theorem about all scripts covers every failure, interruption and short
    count the kernel may return; when the script is exhausted calls succeed in
    full.  [w_log] keeps every state of the file system a call has left behind:
    what another process, or the machine after a crash between two calls, can
    see. *)

From stdpp Require Export gmap.
From S2P Require Import Prelude.
#[local] Open Scope Z_scope.

(* ------------------------------------------------------------------ *)
(** ** State *)

Notation path := (list Z) (only parsing).

Record inode := { i_dir : bool; i_data : list Z; i_mtime : Z * Z }.

Record fs := { names : gmap path N; inodes : gmap N inode }.

Inductive answer :=
| Proceed            (* the call does what it is asked *)
| Short (n : Z)      (* a read or write transfers at most [n] bytes *)
| Errno (e : Z).     (* the call fails with this error and has no effect *)

Record world := {
  w_fs : fs;
  w_fds : gmap N (N * Z);        (* descriptor -> inode and offset *)
  w_errno : Z;
  w_answers : list answer;
  w_temps : list (list Z);       (* the suffixes [mkstemp] will try *)
  w_now : Z * Z;                 (* the clock, for modification times *)
  w_log : list fs;               (* states left behind, newest first *)
  w_reports : list string        (* formats of the messages reported, newest first *)
}.

Definition EINTR : Z := 4.
Definition EBADF : Z := 9.
Definition ENOENT : Z := 2.
Definition EEXIST : Z := 17.
Definition EISDIR : Z := 21.
Definition EINVAL : Z := 22.
Definition EIO : Z := 5.
Definition EOVERFLOW : Z := 75.

(* ------------------------------------------------------------------ *)
(** ** Computations with effects *)

Definition io (A : Type) : Type := world -> outcome A * world.

Definition iret {A} (a : A) : io A := fun w => (Ret a, w).
Definition ifail {A} (msg : string) : io A := fun w => (Fail msg, w).
Definition lift {A} (x : outcome A) : io A := fun w => (x, w).

Definition ibind {A B} (c : io A) (k : A -> io B) : io B := fun w =>
  match c w with
  | (Ret a, w') => k a w'
  | (Fail m, w') => (Fail m, w')
  | (Fault, w') => (Fault, w')
  end.

Notation "'let!' x := c1 'in' c2" := (ibind c1 (fun x => c2))
  (at level 10, x pattern, c1 at level 100, c2 at level 200,
   format "'[v' 'let!'  x  :=  c1  'in' '/' c2 ']'") : c_scope.

Definition get_world : io world := fun w => (Ret w, w).
Definition get_errno : io Z := fun w => (Ret (w_errno w), w).

Definition set_errno (e : Z) : io unit := fun w =>
  (Ret tt, {| w_fs := w_fs w; w_fds := w_fds w; w_errno := e; w_answers := w_answers w;
              w_temps := w_temps w; w_now := w_now w; w_log := w_log w;
              w_reports := w_reports w |}).

Definition set_fds (m : gmap N (N * Z)) : io unit := fun w =>
  (Ret tt, {| w_fs := w_fs w; w_fds := m; w_errno := w_errno w; w_answers := w_answers w;
              w_temps := w_temps w; w_now := w_now w; w_log := w_log w;
              w_reports := w_reports w |}).

(** A change of the file system, visible to everyone from here on. *)
Definition set_fs (f : fs) : io unit := fun w =>
  (Ret tt, {| w_fs := f; w_fds := w_fds w; w_errno := w_errno w; w_answers := w_answers w;
              w_temps := w_temps w; w_now := w_now w; w_log := f :: w_log w;
              w_reports := w_reports w |}).

(** [builtin_error (format, ...)]. *)
Definition builtin_error (format : string) : io unit := fun w =>
  (Ret tt, {| w_fs := w_fs w; w_fds := w_fds w; w_errno := w_errno w; w_answers := w_answers w;
              w_temps := w_temps w; w_now := w_now w; w_log := w_log w;
              w_reports := format :: w_reports w |}).

Definition next_answer : io answer := fun w =>
  match w_answers w with
  | [] => (Ret Proceed, w)
  | a :: rest =>
      (Ret a, {| w_fs := w_fs w; w_fds := w_fds w; w_errno := w_errno w; w_answers := rest;
                 w_temps := w_temps w; w_now := w_now w; w_log := w_log w;
              w_reports := w_reports w |})
  end.

Definition fail_with (e : Z) : io Z := let! _ := set_errno e in iret (-1).

(** Run [c] unless the kernel refuses. *)
Definition answered (c : io Z) : io Z :=
  let! a := next_answer in
  match a with Errno e => fail_with e | _ => c end.

(* ------------------------------------------------------------------ *)
(** ** Calls *)

Definition lookup_inode (f : fs) (p : path) : option inode :=
  names f !! p ≫= fun i => inodes f !! i.

(** The bytes of the regular file at a path. *)
Definition content (f : fs) (p : path) : option (list Z) :=
  match lookup_inode f p with
  | Some n => if i_dir n then None else Some (i_data n)
  | None => None
  end.

Definition new_fd (i : N) : io Z :=
  let! w := get_world in
  let fd := fresh (dom (w_fds w)) in
  let! _ := set_fds (<[fd := (i, 0)]> (w_fds w)) in
  iret (Z.of_N fd).

(** A new empty file under a name that is free. *)
Definition create (p : path) : io Z :=
  let! w := get_world in
  let f := w_fs w in
  let i := fresh (dom (inodes f)) in
  let! _ := set_fs {| names := <[p := i]> (names f);
                      inodes := <[i := {| i_dir := false; i_data := [];
                                          i_mtime := w_now w |}]> (inodes f) |} in
  new_fd i.

(** [open (p, O_WRONLY | O_CREAT | O_EXCL)]. *)
Definition open_excl (p : path) : io Z := answered (
  let! w := get_world in
  match names (w_fs w) !! p with
  | Some _ => fail_with EEXIST
  | None => create p
  end).

(** [open (p, O_RDONLY)]. *)
Definition open_rdonly (p : path) : io Z := answered (
  let! w := get_world in
  match names (w_fs w) !! p with
  | Some i => new_fd i
  | None => fail_with ENOENT
  end).

(** [mkstemp]: the first suffix of the script that is free. *)
Definition mkstemp (prefix : path) : io (Z * path) :=
  let! a := next_answer in
  match a with
  | Errno e => let! r := fail_with e in iret (r, prefix)
  | _ =>
      let! w := get_world in
      match list_find (fun s => names (w_fs w) !! (prefix ++ s) = None) (w_temps w) with
      | Some (_, s) => let! fd := create (prefix ++ s) in iret (fd, prefix ++ s)
      | None => let! r := fail_with EEXIST in iret (r, prefix)
      end
  end.

Definition with_fd (fd : Z) (k : N -> Z -> io Z) : io Z :=
  let! w := get_world in
  if fd <? 0 then fail_with EBADF
  else match w_fds w !! Z.to_N fd with
       | Some (i, pos) => k i pos
       | None => fail_with EBADF
       end.

(** Transfer count of a read or write of [n] bytes. *)
Definition transfer (a : answer) (n : Z) : Z :=
  match a with Short k => Z.max 0 (Z.min k n) | _ => n end.

(** Bytes [data] at offset [pos] of a file that is at least [pos] long. *)
Definition overlay (old : list Z) (pos : Z) (data : list Z) : list Z :=
  take (Z.to_nat pos) old ++ data ++ drop (Z.to_nat pos + length data) old.

Definition sys_write (fd : Z) (data : list Z) : io Z :=
  let! a := next_answer in
  match a with
  | Errno e => fail_with e
  | _ => with_fd fd (fun i pos =>
      let! w := get_world in
      let f := w_fs w in
      match inodes f !! i with
      | Some n =>
          let k := transfer a (len data) in
          let chunk := take (Z.to_nat k) data in
          let! _ := set_fs {| names := names f;
            inodes := <[i := {| i_dir := i_dir n; i_data := overlay (i_data n) pos chunk;
                                i_mtime := w_now w |}]> (inodes f) |} in
          let! _ := set_fds (<[Z.to_N fd := (i, pos + k)]> (w_fds w)) in
          iret k
      | None => fail_with EBADF
      end)
  end.

(** A read that returns 0 means the end of the file, so a short read gives at
    least one byte. *)
Definition read_count (a : answer) (n : Z) : Z :=
  match a with Short k => Z.min n (Z.max 1 k) | _ => n end.

(** [read]: the bytes, when the count is not negative. *)
Definition sys_read (fd : Z) (n : Z) : io (Z * list Z) :=
  let! a := next_answer in
  match a with
  | Errno e => let! r := fail_with e in iret (r, [])
  | _ =>
      let! w := get_world in
      match (if fd <? 0 then None else w_fds w !! Z.to_N fd) with
      | Some (i, pos) =>
          match inodes (w_fs w) !! i with
          | Some nd =>
              if i_dir nd then let! r := fail_with EISDIR in iret (r, [])
              else
                let chunk := take (Z.to_nat (read_count a n)) (drop (Z.to_nat pos) (i_data nd)) in
                let! _ := set_fds (<[Z.to_N fd := (i, pos + len chunk)]> (w_fds w)) in
                iret (len chunk, chunk)
          | None => let! r := fail_with EBADF in iret (r, [])
          end
      | None => let! r := fail_with EBADF in iret (r, [])
      end
  end.

(** [pread]: the same from an offset of the caller's. *)
Definition sys_pread (fd n off : Z) : io (Z * list Z) :=
  let! a := next_answer in
  match a with
  | Errno e => let! r := fail_with e in iret (r, [])
  | _ =>
      let! w := get_world in
      match (if fd <? 0 then None else w_fds w !! Z.to_N fd) with
      | Some (i, _) =>
          match inodes (w_fs w) !! i with
          | Some nd =>
              if i_dir nd then let! r := fail_with EISDIR in iret (r, [])
              else
                let chunk := take (Z.to_nat (read_count a n)) (drop (Z.to_nat off) (i_data nd)) in
                iret (len chunk, chunk)
          | None => let! r := fail_with EBADF in iret (r, [])
          end
      | None => let! r := fail_with EBADF in iret (r, [])
      end
  end.

Definition sys_close (fd : Z) : io Z :=
  let! a := next_answer in
  with_fd fd (fun _ _ =>
    let! w := get_world in
    let! _ := set_fds (delete (Z.to_N fd) (w_fds w)) in
    match a with Errno e => fail_with e | _ => iret 0 end).

(** [fsync], [fdatasync] and [fchmod]: nothing a reader can see. *)
Definition sys_sync (fd : Z) : io Z := answered (with_fd fd (fun _ _ => iret 0)).

Definition sys_fstat (fd : Z) : io (option inode) :=
  let! a := next_answer in
  match a with
  | Errno e => let! _ := set_errno e in iret None
  | _ =>
      let! w := get_world in
      match (if fd <? 0 then None else w_fds w !! Z.to_N fd) with
      | Some (i, _) => iret (inodes (w_fs w) !! i)
      | None => let! _ := set_errno EBADF in iret None
      end
  end.

Definition sys_stat (p : path) : io (option inode) :=
  let! a := next_answer in
  match a with
  | Errno e => let! _ := set_errno e in iret None
  | _ =>
      let! w := get_world in
      match lookup_inode (w_fs w) p with
      | Some n => iret (Some n)
      | None => let! _ := set_errno ENOENT in iret None
      end
  end.

Definition sys_mkdir (p : path) : io Z := answered (
  let! w := get_world in
  let f := w_fs w in
  match names f !! p with
  | Some _ => fail_with EEXIST
  | None =>
      let i := fresh (dom (inodes f)) in
      let! _ := set_fs {| names := <[p := i]> (names f);
                          inodes := <[i := {| i_dir := true; i_data := [];
                                              i_mtime := w_now w |}]> (inodes f) |} in
      iret 0
  end).

Definition sys_unlink (p : path) : io Z := answered (
  let! w := get_world in
  let f := w_fs w in
  match names f !! p with
  | Some _ => let! _ := set_fs {| names := delete p (names f); inodes := inodes f |} in iret 0
  | None => fail_with ENOENT
  end).

Definition sys_rename (from to : path) : io Z := answered (
  let! w := get_world in
  let f := w_fs w in
  match names f !! from with
  | Some i =>
      let! _ := set_fs {| names := <[to := i]> (delete from (names f)); inodes := inodes f |} in
      iret 0
  | None => fail_with ENOENT
  end).

(* ------------------------------------------------------------------ *)
(** ** What the calls do

    Each call as a list of cases: the frame first (what it leaves alone), then
    either a failure with no effect or the effect. *)

Lemma ibind_cases {A B} (c : io A) (k : A -> io B) w r w' : ibind c k w = (r, w') ->
  (exists a w1, c w = (Ret a, w1) /\ k a w1 = (r, w')) \/
  (exists m, c w = (Fail m, w') /\ r = Fail m) \/ (c w = (Fault, w') /\ r = Fault).
Proof. unfold ibind. destruct (c w) as [[a|m|] w1]; naive_solver. Qed.

(** Case analysis on a run of a computation until nothing is left to run. *)
Ltac step_io H :=
  unfold answered, with_fd, create, new_fd, fail_with in H;
  unfold ibind, iret, ifail, lift, get_world, get_errno, set_errno, set_fds, set_fs,
    builtin_error, next_answer in H;
  repeat (match type of H with
    | context [match w_answers ?w with _ => _ end] =>
        destruct (w_answers w) as [|[] ?] eqn:?
    | context [match ?x with _ => _ end] =>
        lazymatch x with
        | context [match _ with _ => _ end] => fail
        | _ => destruct x eqn:?
        end
    end; cbn [w_fs w_fds w_errno w_answers w_temps w_now w_log w_reports] in H; simplify_eq);
  simplify_eq.

(** A call that failed and changed nothing but [errno]. *)
Definition refused (w w' : world) : Prop :=
  w_fs w' = w_fs w /\ w_log w' = w_log w /\ w_fds w' = w_fds w.

Definition with_names (f : fs) (m : gmap path N) : fs := {| names := m; inodes := inodes f |}.

Lemma unlink_cases p w r w' : sys_unlink p w = (r, w') ->
  w_fds w' = w_fds w /\
  ((r = Ret (-1) /\ refused w w') \/
   (r = Ret 0 /\ is_Some (names (w_fs w) !! p) /\
    w_fs w' = with_names (w_fs w) (delete p (names (w_fs w))) /\
    w_log w' = w_fs w' :: w_log w)).
Proof. unfold sys_unlink, refused, with_names. intros H. step_io H; simpl; eauto 10. Qed.

Lemma rename_cases a b w r w' : sys_rename a b w = (r, w') ->
  w_fds w' = w_fds w /\
  ((r = Ret (-1) /\ refused w w') \/
   (exists i, r = Ret 0 /\ names (w_fs w) !! a = Some i /\
    w_fs w' = with_names (w_fs w) (<[b := i]> (delete a (names (w_fs w)))) /\
    w_log w' = w_fs w' :: w_log w)).
Proof. unfold sys_rename, refused, with_names. intros H. step_io H; simpl; eauto 10. Qed.

Lemma sync_cases fd w r w' : sys_sync fd w = (r, w') ->
  exists z, r = Ret z /\ (z = 0 \/ z = -1) /\ refused w w'.
Proof. unfold sys_sync, refused. intros H. step_io H; simpl; eauto 10. Qed.

Lemma close_cases fd w r w' : sys_close fd w = (r, w') ->
  exists z, r = Ret z /\ (z = 0 \/ z = -1) /\ w_fs w' = w_fs w /\ w_log w' = w_log w /\
    (w_fds w' = w_fds w \/ w_fds w' = delete (Z.to_N fd) (w_fds w)).
Proof. unfold sys_close. intros H. step_io H; simpl; eauto 12. Qed.

Lemma mkdir_cases p w r w' : sys_mkdir p w = (r, w') ->
  w_fds w' = w_fds w /\
  ((r = Ret (-1) /\ refused w w') \/
   (exists i n, r = Ret 0 /\ names (w_fs w) !! p = None /\ inodes (w_fs w) !! i = None /\
    i_dir n = true /\
    w_fs w' = {| names := <[p := i]> (names (w_fs w)); inodes := <[i := n]> (inodes (w_fs w)) |} /\
    w_log w' = w_fs w' :: w_log w)).
Proof.
  unfold sys_mkdir, refused. intros H. pose proof (is_fresh (dom (inodes (w_fs w)))) as Hf.
  apply not_elem_of_dom in Hf.
  step_io H; simpl; (split; [done|]); try (left; done); right;
    exists (fresh (dom (inodes (w_fs w)))), {| i_dir := true; i_data := []; i_mtime := w_now w |};
    split_and!; done.
Qed.

(** The state after an empty file [i] has been created under the name [p]. *)
Definition created (f : fs) (p : path) (i : N) (t : Z * Z) : fs :=
  {| names := <[p := i]> (names f);
     inodes := <[i := {| i_dir := false; i_data := []; i_mtime := t |}]> (inodes f) |}.

(** What a successful creation does: a fresh inode under a free name, and a
    fresh descriptor at its start. *)
Definition creates (p : path) (z : Z) (w w' : world) : Prop :=
  exists i fd, z = Z.of_N fd /\ names (w_fs w) !! p = None /\ inodes (w_fs w) !! i = None /\
    w_fds w !! fd = None /\ w_fds w' = <[fd := (i, 0)]> (w_fds w) /\
    w_fs w' = created (w_fs w) p i (w_now w) /\ w_log w' = w_fs w' :: w_log w.

Lemma create_cases p w r w' : create p w = (r, w') -> names (w_fs w) !! p = None ->
  exists z, r = Ret z /\ creates p z w w'.
Proof.
  intros H Hp. step_io H. eexists. split; [done|].
  exists (fresh (dom (inodes (w_fs w)))), (fresh (dom (w_fds w))).
  split_and!; try done; apply not_elem_of_dom, is_fresh.
Qed.

Lemma open_excl_cases p w r w' : open_excl p w = (r, w') ->
  (r = Ret (-1) /\ refused w w') \/ (exists z, r = Ret z /\ creates p z w w').
Proof.
  unfold open_excl, answered, ibind, get_world, next_answer, refused. intros H.
  destruct (w_answers w) as [|[] rest];
    cbn [w_fs] in H; destruct (names (w_fs w) !! p) eqn:E;
    try (left; step_io H; done); right;
    (apply create_cases in H as (z & -> & i & fd & H); [|done]); exists z; (split; [done|]);
    exists i, fd; exact H.
Qed.

Lemma mkstemp_cases prefix w r w' : mkstemp prefix w = (r, w') ->
  exists z tmp, r = Ret (z, tmp) /\
    ((z = -1 /\ refused w w') \/
     (exists s, tmp = prefix ++ s /\ s ∈ w_temps w /\ creates tmp z w w')).
Proof.
  unfold mkstemp, ibind, get_world, next_answer, refused. intros H.
  destruct (w_answers w) as [|[] rest]; cbn [w_fs w_temps] in H.
  1-3: destruct (list_find _ (w_temps w)) as [[k s]|] eqn:E;
    [apply list_find_Some in E as (Hk & Hs & _);
     match type of H with context [create ?p ?w0] =>
       destruct (create p w0) as [r1 w1] eqn:Hc end;
     apply create_cases in Hc as (z & -> & i & fd & Hc); [|done];
     cbn [iret] in H; unfold iret in H; simplify_eq/=;
     exists z, (prefix ++ s); split; [done|]; right; exists s; split; [done|];
     split; [by eapply list_elem_of_lookup_2|]; exists i, fd; exact Hc
    |step_io H; exists (-1), prefix; split; [done|by left]].
  step_io H. exists (-1), prefix. split; [done|by left].
Qed.

Lemma write_cases fd data w r w' : sys_write fd data w = (r, w') ->
  (r = Ret (-1) /\ refused w w') \/
  (exists k i pos n, r = Ret k /\ 0 <= k <= len data /\ 0 <= fd /\
    w_fds w !! Z.to_N fd = Some (i, pos) /\ inodes (w_fs w) !! i = Some n /\
    w_fds w' = <[Z.to_N fd := (i, pos + k)]> (w_fds w) /\
    w_fs w' = {| names := names (w_fs w);
      inodes := <[i := {| i_dir := i_dir n;
                          i_data := overlay (i_data n) pos (take (Z.to_nat k) data);
                          i_mtime := w_now w |}]> (inodes (w_fs w)) |} /\
    w_log w' = w_fs w' :: w_log w).
Proof.
  unfold sys_write, refused. intros H. pose proof (len_nonneg data).
  step_io H; simpl; simpl_bool; auto; right; unfold transfer;
    do 4 eexists; (split; [done|]); split_and!; try done; lia.
Qed.

Lemma write_script fd data w r w' : sys_write fd data w = (r, w') ->
  w_answers w' = tail (w_answers w) /\ w_reports w' = w_reports w /\
  (w_answers w = [] -> forall i pos n, 0 <= fd -> w_fds w !! Z.to_N fd = Some (i, pos) ->
     inodes (w_fs w) !! i = Some n -> r = Ret (len data)).
Proof.
  unfold sys_write. intros H. step_io H; simpl; simpl_bool; split_and!; try done; intros; simplify_eq;
    try lia; congruence.
Qed.

Lemma overlay_end d chunk : overlay d (len d) chunk = d ++ chunk.
Proof.
  unfold overlay, len. rewrite Nat2Z.id, take_ge, drop_ge by lia. by rewrite app_nil_r.
Qed.

(** ** Writing a file *)

(** A state of the file system that differs at most in the inode [i]. *)
Definition but_inode (i : N) (f f' : fs) : Prop :=
  names f' = names f /\ exists n, inodes f' = <[i := n]> (inodes f).

(** What a write leaves: the first [k] bytes of [data] after [d] in the inode
    [i], the descriptor after them, and everything else as it was. *)
Definition appended (fd : Z) (i : N) (d data : list Z) (k : nat) (w w' : world) : Prop :=
  names (w_fs w') = names (w_fs w) /\
  w_fds w' = <[Z.to_N fd := (i, len (d ++ take k data))]> (w_fds w) /\
  (exists n, inodes (w_fs w') = <[i := n]> (inodes (w_fs w)) /\ i_dir n = false /\
     i_data n = d ++ take k data) /\
  (exists new, w_log w' = new ++ w_log w /\ Forall (but_inode i (w_fs w)) new).

Lemma appended_none fd i d data n w w1 : w_fds w !! Z.to_N fd = Some (i, len d) ->
  inodes (w_fs w) !! i = Some n -> i_dir n = false -> i_data n = d ->
  w_fs w1 = w_fs w -> w_fds w1 = w_fds w -> w_log w1 = w_log w -> appended fd i d data 0 w w1.
Proof.
  intros Hfd Hi Hdir Hd E1 E2 E3. unfold appended. rewrite E1, E2, E3, take_0, app_nil_r.
  rewrite insert_id by done. split; [done|]. split; [done|]. split; [|by exists []].
  exists n. by rewrite insert_id.
Qed.

Lemma appended_trans fd i d data k k2 w w1 w2 : appended fd i d data k w w1 ->
  appended fd i (d ++ take k data) (drop k data) k2 w1 w2 -> appended fd i d data (k + k2) w w2.
Proof.
  intros (N1 & F1 & (n1 & I1 & _ & _) & new1 & L1 & A1) (N2 & F2 & (n2 & I2 & Dir2 & D2) & new2 & L2 & A2).
  assert (Ed : (d ++ take k data) ++ take k2 (drop k data) = d ++ take (k + k2) data).
  { rewrite <- app_assoc. f_equal. apply take_take_drop. }
  unfold appended. rewrite <- Ed. split; [congruence|]. split.
  - by rewrite F2, F1, insert_insert_eq.
  - split; [exists n2; by rewrite I2, I1, insert_insert_eq|].
    exists (new2 ++ new1). rewrite L2, L1, app_assoc. split; [done|]. apply Forall_app; split; [|done].
    eapply Forall_impl; [exact A2|]. intros f [Hn [n Hi]]. split; [congruence|].
    exists n. by rewrite Hi, I1, insert_insert_eq.
Qed.

(** One [write] call. *)
Lemma write_appended fd data d i n w r w1 : 0 <= fd ->
  w_fds w !! Z.to_N fd = Some (i, len d) -> inodes (w_fs w) !! i = Some n ->
  i_dir n = false -> i_data n = d -> sys_write fd data w = (r, w1) ->
  exists k, appended fd i d data k w w1 /\ (k <= length data)%nat /\
    ((r = Ret (-1) /\ k = O) \/ r = Ret (Z.of_nat k)) /\
    (w_answers w = [] -> r = Ret (len data)).
Proof.
  intros Hfd0 Hfd Hi Hdir Hd Hw. pose proof (write_script _ _ _ _ _ Hw) as (_ & _ & Hfull).
  apply write_cases in Hw as [(-> & Efs & Elog & Efd)|(k & i' & pos & n' & -> & Hk & _ & E1 & E2 & E3 & E4 & E5)].
  - exists O. split; [by eapply appended_none|]. split; [lia|]. split; [auto|]. intros. by eapply Hfull.
  - rewrite Hfd in E1. injection E1 as <- <-. rewrite Hi in E2. injection E2 as <-.
    exists (Z.to_nat k). rewrite Z2Nat.id by lia. split.
    + unfold appended. rewrite E5, E3, E4. subst d. rewrite overlay_end. split; [done|].
      split; [do 3 f_equal; rewrite len_app, len_take; lia|]. split; [eexists; split; done|].
      eexists [_]. split; [done|]. constructor; [|done]. split; [done|]. eexists. done.
    + split; [unfold len in *; lia|]. split; [by right|]. intros. by eapply Hfull.
Qed.

Lemma appended_ready fd i d data k w w1 : appended fd i d data k w w1 ->
  w_fds w1 !! Z.to_N fd = Some (i, len (d ++ take k data)) /\
  exists n, inodes (w_fs w1) !! i = Some n /\ i_dir n = false /\ i_data n = d ++ take k data.
Proof.
  intros (_ & F & (n & I & Dir & D) & _). rewrite F, lookup_insert_eq. split; [done|].
  exists n. by rewrite I, lookup_insert_eq.
Qed.


(** ** Reading a file *)

Lemma read_cases fd n w r w' i pos nd : sys_read fd n w = (r, w') -> 0 <= n -> 0 <= fd ->
  w_fds w !! Z.to_N fd = Some (i, pos) -> inodes (w_fs w) !! i = Some nd -> i_dir nd = false ->
  w_fs w' = w_fs w /\ w_log w' = w_log w /\ w_answers w' = tail (w_answers w) /\
  ((r = Ret (-1, []) /\ w_answers w <> [] /\ w_fds w' = w_fds w) \/
   (exists k, r = Ret (len (take k (drop (Z.to_nat pos) (i_data nd))),
                       take k (drop (Z.to_nat pos) (i_data nd))) /\
      Z.of_nat k <= n /\ (0 < n -> (0 < k)%nat) /\ (w_answers w = [] -> Z.of_nat k = n) /\
      w_fds w' = <[Z.to_N fd := (i, pos + len (take k (drop (Z.to_nat pos) (i_data nd))))]> (w_fds w))).
Proof.
  intros H Hn Hfd Hf Hi Hd. unfold sys_read in H.
  step_io H; simpl in *; simpl_bool; simplify_eq; try lia; try congruence;
    (split; [done|]); (split; [done|]); (split; [done|]); auto; right;
    eexists; (split; [reflexivity|]); unfold read_count; split_and!; try done; lia.
Qed.

Lemma tail_shorter {A} (l : list A) : l <> [] -> (length (tail l) < length l)%nat.
Proof. destruct l; [done|cbn; lia]. Qed.

Lemma tail_le {A} (l : list A) : (length (tail l) <= length l)%nat.
Proof. destruct l; cbn; lia. Qed.

(** A computation that leaves the file system alone. *)
Definition reads_only (w w' : world) : Prop := w_fs w' = w_fs w /\ w_log w' = w_log w.

Lemma reads_only_refl w : reads_only w w.
Proof. by split. Qed.

Lemma reads_only_trans w1 w2 w3 : reads_only w1 w2 -> reads_only w2 w3 -> reads_only w1 w3.
Proof. intros [E1 L1] [E2 L2]. split; congruence. Qed.

(** And the descriptors. *)
Definition looks_only (w w' : world) : Prop := reads_only w w' /\ w_fds w' = w_fds w.

Lemma looks_only_refl w : looks_only w w.
Proof. by repeat split. Qed.

Lemma looks_only_trans w1 w2 w3 : looks_only w1 w2 -> looks_only w2 w3 -> looks_only w1 w3.
Proof. intros [R1 E1] [R2 E2]. split; [by eapply reads_only_trans|congruence]. Qed.

(** [fd] is open on a regular file that holds [data]. *)
Definition open_on (fd : Z) (data : list Z) (w : world) : Prop :=
  0 <= fd /\ exists i pos nd, w_fds w !! Z.to_N fd = Some (i, pos) /\
    inodes (w_fs w) !! i = Some nd /\ i_dir nd = false /\ i_data nd = data.

Lemma open_on_looks fd data w w' : open_on fd data w -> looks_only w w' -> open_on fd data w'.
Proof. intros (Hfd & i & pos & nd & Hi) [[E1 _] E2]. split; [done|]. exists i, pos, nd. by rewrite E1, E2. Qed.

Lemma pread_cases fd n off data w r w' : sys_pread fd n off w = (r, w') -> 0 <= n -> open_on fd data w ->
  looks_only w w' /\ w_answers w' = tail (w_answers w) /\
  ((r = Ret (-1, []) /\ w_answers w <> []) \/
   (exists k, let chunk := take k (drop (Z.to_nat off) data) in
      r = Ret (len chunk, chunk) /\ Z.of_nat k <= n /\ (0 < n -> (0 < k)%nat) /\
      (w_answers w = [] -> Z.of_nat k = n))).
Proof.
  intros H Hn (Hfd & i & pos & nd & Hf & Hi & Hd & Hdata). unfold sys_pread in H.
  step_io H; simpl in *; simpl_bool; simplify_eq; try lia; try congruence;
    (split; [by repeat split|]); (split; [done|]); auto; right;
    eexists; (split; [reflexivity|]); unfold read_count; split_and!; try done; lia.
Qed.

Lemma open_rdonly_cases p w r w' : open_rdonly p w = (r, w') ->
  w_fs w' = w_fs w /\ w_log w' = w_log w /\
  ((r = Ret (-1) /\ w_fds w' = w_fds w /\ (w_answers w = [] -> names (w_fs w) !! p = None)) \/
   (exists i fd, r = Ret (Z.of_N fd) /\ names (w_fs w) !! p = Some i /\ w_fds w !! fd = None /\
      w_fds w' = <[fd := (i, 0)]> (w_fds w) /\ w_answers w' = tail (w_answers w))).
Proof.
  unfold open_rdonly. intros H. pose proof (is_fresh (dom (w_fds w))) as Hf.
  apply not_elem_of_dom in Hf.
  step_io H; simpl in *; (split; [done|]); (split; [done|]); try (by left); right; eauto 10.
Qed.

Lemma fstat_cases fd w r w' i pos nd : sys_fstat fd w = (r, w') -> 0 <= fd ->
  w_fds w !! Z.to_N fd = Some (i, pos) -> inodes (w_fs w) !! i = Some nd ->
  w_fs w' = w_fs w /\ w_log w' = w_log w /\ w_fds w' = w_fds w /\
  w_answers w' = tail (w_answers w) /\
  ((r = Ret None /\ w_answers w <> []) \/ r = Ret (Some nd)).
Proof.
  unfold sys_fstat. intros H Hfd Hf Hi.
  step_io H; simpl in *; simpl_bool; simplify_eq; try lia; split_and!; try done;
    solve [by left|right; congruence].
Qed.

(** Names that lead to inodes that exist. *)
Definition fs_ok (f : fs) : Prop := forall p i, names f !! p = Some i -> is_Some (inodes f !! i).

(** A file not yet named cannot be seen at any path. *)
Lemma content_but_inode i f f' p : but_inode i f f' -> names f !! p <> Some i ->
  content f' p = content f p.
Proof.
  intros [Hn [n Hi]] Hp. unfold content, lookup_inode. rewrite Hn.
  destruct (names f !! p) as [j|] eqn:E; [|done]. simpl. rewrite Hi, lookup_insert_ne; [done|congruence].
Qed.

(* ------------------------------------------------------------------ *)
(** ** Computations that only look

    They change no file, and when the kernel refuses nothing it still refuses
    nothing after them. *)

Class Harmless {A} (c : io A) : Prop :=
  harmless : forall w r w', c w = (r, w') -> reads_only w w' /\ (w_answers w = [] -> w_answers w' = []).

#[export] Hint Mode Harmless + ! : typeclass_instances.

Ltac harmless_call := intros ? ? ? H; unfold reads_only; step_io H; simpl in *; try (split; [by split|]); first [done | congruence | by intros [=]].

#[export] Instance harmless_iret {A} (a : A) : Harmless (iret a).
Proof. harmless_call. Qed.
#[export] Instance harmless_lift {A} (x : outcome A) : Harmless (lift x).
Proof. harmless_call. Qed.
#[export] Instance harmless_get_world : Harmless get_world.
Proof. harmless_call. Qed.
#[export] Instance harmless_get_errno : Harmless get_errno.
Proof. harmless_call. Qed.
#[export] Instance harmless_set_errno e : Harmless (set_errno e).
Proof. harmless_call. Qed.
#[export] Instance harmless_set_fds m : Harmless (set_fds m).
Proof. harmless_call. Qed.
#[export] Instance harmless_builtin_error m : Harmless (builtin_error m).
Proof. harmless_call. Qed.
#[export] Instance harmless_next_answer : Harmless next_answer.
Proof. intros w r w' H. unfold reads_only. step_io H; simpl in *; (split; [by split|]); congruence. Qed.

#[export] Instance harmless_ibind {A B} (c : io A) (k : A -> io B) :
  Harmless c -> (forall a, Harmless (k a)) -> Harmless (ibind c k).
Proof.
  intros Hc Hk w r w' H. apply ibind_cases in H as [(a & w1 & E1 & E2)|[(m & E1 & ->)|[E1 ->]]];
    [|by eapply Hc..].
  apply Hc in E1 as [R1 A1]. apply Hk in E2 as [R2 A2]. split; [by eapply reads_only_trans|auto].
Qed.

(** Case analysis on what a computation depends on. *)
Ltac solve_harmless :=
  repeat lazymatch goal with
  | |- Harmless (ibind _ _) => apply harmless_ibind; [|intros ?]
  | |- Harmless (match ?x with _ => _ end) => destruct x
  | |- Harmless _ => first [apply _ | progress cbv zeta | fail 1]
  end.

#[export] Instance harmless_fail_with e : Harmless (fail_with e).
Proof. unfold fail_with. solve_harmless. Qed.
#[export] Instance harmless_answered c : Harmless c -> Harmless (answered c).
Proof. intros. unfold answered. solve_harmless. Qed.
#[export] Instance harmless_new_fd i : Harmless (new_fd i).
Proof. unfold new_fd. solve_harmless. Qed.
#[export] Instance harmless_with_fd fd k : (forall i pos, Harmless (k i pos)) -> Harmless (with_fd fd k).
Proof. intros. unfold with_fd. solve_harmless. Qed.
#[export] Instance harmless_open_rdonly p : Harmless (open_rdonly p).
Proof. unfold open_rdonly, answered. solve_harmless. Qed.
#[export] Instance harmless_read fd n : Harmless (sys_read fd n).
Proof. unfold sys_read. solve_harmless. Qed.
#[export] Instance harmless_pread fd n off : Harmless (sys_pread fd n off).
Proof. unfold sys_pread. solve_harmless. Qed.
#[export] Instance harmless_close fd : Harmless (sys_close fd).
Proof. unfold sys_close, with_fd. solve_harmless. Qed.
#[export] Instance harmless_fstat fd : Harmless (sys_fstat fd).
Proof. unfold sys_fstat. solve_harmless. Qed.
#[export] Instance harmless_stat p : Harmless (sys_stat p).
Proof. unfold sys_stat. solve_harmless. Qed.

(** What a computation that only looks gives when the kernel refuses nothing. *)
Definition gives {A} (c : io A) (f : fs) (a : A) : Prop :=
  forall w, w_fs w = f -> w_answers w = [] -> exists w', c w = (Ret a, w').

Lemma gives_ret {A} (a : A) f : gives (iret a) f a.
Proof. intros w _ _. by exists w. Qed.

Lemma gives_lift {A} (a : A) f : gives (lift (Ret a)) f a.
Proof. intros w _ _. by exists w. Qed.

Lemma gives_bind {A B} (c : io A) (k : A -> io B) `{!Harmless c} f a b :
  gives c f a -> gives (k a) f b -> gives (ibind c k) f b.
Proof.
  intros Hc Hk w Hf Ha. destruct (Hc w Hf Ha) as [w1 E]. destruct (harmless _ _ _ E) as [[F1 _] A1].
  destruct (Hk w1) as [w2 E2]; [congruence|auto|]. exists w2. unfold ibind. by rewrite E.
Qed.

Lemma gives_error m f : gives (builtin_error m) f tt.
Proof. intros w _ _. eexists. reflexivity. Qed.

Lemma gives_stat p f : gives (sys_stat p) f (lookup_inode f p).
Proof.
  intros w Hf Ha. unfold sys_stat, next_answer, get_world, ibind. rewrite Ha. rewrite Hf.
  destruct (lookup_inode f p); eexists; reflexivity.
Qed.

(** What it gives is the only result. *)
Lemma gives_only {A} (c : io A) f a w r w' : gives c f a -> w_fs w = f -> w_answers w = [] -> c w = (r, w') -> r = Ret a.
Proof. intros Hg Hf Ha E. destruct (Hg w Hf Ha) as [w1 E1]. congruence. Qed.

(** What holds of the result when the kernel refuses nothing. *)
Definition quietly {A} (c : io A) (f : fs) (P : A -> Prop) : Prop :=
  forall w, w_fs w = f -> w_answers w = [] -> exists a w', c w = (Ret a, w') /\ P a.

Lemma quietly_ret {A} (a : A) f (P : A -> Prop) : P a -> quietly (iret a) f P.
Proof. intros Ha w _ _. by exists a, w. Qed.

Lemma quietly_bind {A B} (c : io A) (k : A -> io B) `{!Harmless c} f (P : A -> Prop) (Q : B -> Prop) :
  quietly c f P -> (forall a, P a -> quietly (k a) f Q) -> quietly (ibind c k) f Q.
Proof.
  intros Hc Hk w Hf Ha. destruct (Hc w Hf Ha) as (a & w1 & E & Hp). destruct (harmless _ _ _ E) as [[F1 _] A1].
  destruct (Hk a Hp w1) as (b & w2 & E2 & Hb); [congruence|auto|]. exists b, w2. unfold ibind. by rewrite E.
Qed.

Lemma quietly_gives {A B} (c : io A) (k : A -> io B) `{!Harmless c} f a (Q : B -> Prop) :
  gives c f a -> quietly (k a) f Q -> quietly (ibind c k) f Q.
Proof.
  intros Hc Hk. apply (quietly_bind c k f (eq a)); [|by intros _ <-].
  intros w Hf Ha. destruct (Hc w Hf Ha) as [w' E]. by exists a, w'.
Qed.
