(* ===== verification/CLib.v ===== *)
(** * String functions of the C library

    [strtoul], [strtol], [strtok_r], the [%Ns] conversion of [sscanf],
    [strncasecmp] and [strdup]'s view of a buffer, in the C locale, on the
    representation of Prelude: a C string is the list of the bytes before its
    terminator. *)

From S2P Require Import Prelude.
#[local] Open Scope Z_scope.

Definition isspace (c : Z) : bool := (c =? 32) || ((9 <=? c) && (c <=? 13)).

Definition tolower (c : Z) : Z := if (65 <=? c) && (c <=? 90) then c + 32 else c.

Fixpoint skip_spaces (s : list Z) : list Z :=
  match s with
  | c :: s' => if isspace c then skip_spaces s' else s
  | [] => []
  end.

(** The digits of base [base] (at most 10) at the front of a string: their
    value, what follows them, and whether there was one. *)
Fixpoint scan_digits (base : Z) (s : list Z) (acc : Z) (any : bool) : Z * list Z * bool :=
  match s with
  | c :: s' => if (48 <=? c) && (c <? 48 + base)
               then scan_digits base s' (acc * base + (c - 48)) true
               else (acc, s, any)
  | [] => (acc, [], any)
  end.

(** White space, a sign and digits: negative?, magnitude, rest, any digit? *)
Definition scan_number (base : Z) (s : list Z) : bool * Z * list Z * bool :=
  let s := skip_spaces s in
  let '(neg, s) := match s with
                   | c :: s' => if c =? 45 then (true, s')
                                else if c =? 43 then (false, s') else (false, s)
                   | [] => (false, [])
                   end in
  let '(v, rest, any) := scan_digits base s 0 false in
  (neg, v, rest, any).

(** Value, where it stopped, and whether [errno] was set to [ERANGE]. *)
Definition strtoul (base : Z) (s : list Z) : Z * list Z * bool :=
  let '(neg, v, rest, any) := scan_number base s in
  if negb any then (0, s, false)
  else if v >? UINT64_MAX then (UINT64_MAX, rest, true)
  else ((if neg then u64 (- v) else v), rest, false).

Definition strtol (base : Z) (s : list Z) : Z * list Z * bool :=
  let '(neg, v, rest, any) := scan_number base s in
  if negb any then (0, s, false)
  else let v := if neg : bool then - v else v in
       if v >? LONG_MAX then (LONG_MAX, rest, true)
       else if v <? LONG_MIN then (LONG_MIN, rest, true)
       else (v, rest, false).

(** One call of [strtok_r (…, " ", …)]: the next token and what is left. *)
Fixpoint token (s : list Z) : list Z * list Z :=
  match s with
  | [] => ([], [])
  | c :: s' => if c =? 32 then ([], s')
               else let '(t, rest) := token s' in (c :: t, rest)
  end.

Fixpoint skip_blanks (s : list Z) : list Z :=
  match s with
  | c :: s' => if c =? 32 then skip_blanks s' else s
  | [] => []
  end.

Definition strtok (s : list Z) : option (list Z * list Z) :=
  match skip_blanks s with
  | [] => None
  | s' => Some (token s')
  end.

(** At most [width] bytes that are not white space. *)
Fixpoint scan_word_body (width : nat) (s : list Z) : list Z * list Z :=
  match width, s with
  | S width', c :: s' => if isspace c then ([], s)
                         else let '(t, rest) := scan_word_body width' s' in (c :: t, rest)
  | _, _ => ([], s)
  end.

(** The [%Ns] conversion. *)
Definition scan_word (width : nat) (s : list Z) : option (list Z * list Z) :=
  match scan_word_body width (skip_spaces s) with
  | ([], _) => None
  | r => Some r
  end.

(** The C string at an offset of a buffer: it must end inside it. *)
Definition c_str (buf : list Z) (off : Z) : outcome (list Z) :=
  if (off <? 0) || (len buf <? off) then Fault
  else let window := drop (Z.to_nat off) buf in
       match find_byte 0 window with
       | Some n => Ret (take n window)
       | None => Fault
       end.

(** [path[pl-1] == '\n' || path[pl-1] == '\r'], trimmed while it holds. *)
Definition trim_eol (s : list Z) : list Z :=
  rev (let fix drop_eol (l : list Z) := match l with
       | c :: l' => if (c =? 10) || (c =? 13) then drop_eol l' else l
       | [] => [] end in drop_eol (rev s)).

(** A line as the string functions see it. *)
Definition c_text (line : list Z) : list Z :=
  match find_byte 0 line with Some n => take n line | None => line end.

(** [*p == c], for a byte that is no terminator. *)
Definition next_is (c : Z) (p : list Z) : bool := match p with d :: _ => d =? c | [] => false end.

(** [fgets (line, n, f)]: a line with its end, or as much of it as fits. *)
Definition fgets (n : nat) (data : list Z) : list Z * list Z :=
  let here := take (n - 1) data in
  let k := match find_byte 10 here with Some k => S k | None => length here end in
  (take k data, drop k data).

Definition isalnum (c : Z) : bool :=
  ((48 <=? c) && (c <=? 57)) || ((65 <=? c) && (c <=? 90)) || ((97 <=? c) && (c <=? 122)).

(** [strcasecmp (a, b) == 0] and [strncasecmp (s, prefix, strlen (prefix)) == 0]. *)
Definition same_case (a b : list Z) : bool := beq (map tolower a) (map tolower b).

Definition starts_case (prefix s : list Z) : bool := same_case (take (length prefix) s) prefix.

(** [strncmp (s, prefix, strlen (prefix)) == 0]. *)
Definition starts (prefix s : list Z) : bool := beq (take (length prefix) s) prefix.

Lemma trim_eol_line l : Forall (fun c => c <> 10 /\ c <> 13) l -> trim_eol (l ++ [10]) = l.
Proof.
  intros Hl. unfold trim_eol. rewrite rev_app_distr. cbn [rev app Z.eqb Pos.eqb orb].
  apply Forall_rev in Hl. rewrite <- (rev_involutive l) at 2. f_equal.
  destruct (rev l) as [|c l']; [done|]. inversion Hl as [|? ? (H1 & H2) _]; subst.
  by rewrite !(proj2 (Z.eqb_neq c _)).
Qed.

Lemma c_text_plain l : Forall (fun c => c <> 0) l -> c_text l = l.
Proof. intros Hl. unfold c_text. by rewrite (proj2 (find_byte_None 0 l) Hl). Qed.

Lemma starts_app prefix s : starts prefix (prefix ++ s) = true.
Proof. unfold starts, beq. rewrite take_app_length. by apply bool_decide_true. Qed.

Lemma fgets_line n l rest : Forall (fun c => c <> 10) l -> (length l + 2 <= n)%nat -> fgets n (l ++ 10 :: rest) = (l ++ [10], rest).
Proof.
  intros Hl Hn. unfold fgets.
  replace (take (n - 1) (l ++ 10 :: rest)) with (l ++ 10 :: take (n - 2 - length l) rest).
  2:{ rewrite take_app_ge by lia. f_equal. replace (n - 1 - length l)%nat with (S (n - 2 - length l)) by lia. done. }
  rewrite find_byte_app by done. replace (S (length l)) with (length (l ++ [10])) by (rewrite length_app; cbn; lia).
  replace (l ++ 10 :: rest) with ((l ++ [10]) ++ rest) by (by rewrite <- app_assoc). by rewrite take_app_length, drop_app_length.
Qed.
