(* ===== verification/Odb.v ===== *)
(** * Object names and headers (loadables/_git/odb.c)

    The pure half of the object database: the four object types and their
    names, the hexadecimal form of an object id, and the header
    ["<type> <size>\0"] that precedes every stored object.  The theorems show
    that ids survive printing and parsing in both directions, and that the
    header parser accepts exactly the headers the writer produces. *)

From S2P Require Import Prelude.
#[local] Open Scope Z_scope.

(* ------------------------------------------------------------------ *)
(** ** Object types *)

Inductive bgit_type : Type :=
| BGIT_BLOB | BGIT_TREE | BGIT_COMMIT | BGIT_TAG | BGIT_UNKNOWN.

#[export] Instance bgit_type_eq_dec : EqDecision bgit_type.
Proof. solve_decision. Defined.

Definition bgit_type_name (t : bgit_type) : list Z :=
  match t with
  | BGIT_BLOB => str "blob"
  | BGIT_TREE => str "tree"
  | BGIT_COMMIT => str "commit"
  | BGIT_TAG => str "tag"
  | BGIT_UNKNOWN => str "unknown"
  end.

Definition bgit_type_valid_name (name : list Z) : bool :=
  beq name (str "blob") || beq name (str "tree")
  || beq name (str "commit") || beq name (str "tag").

(** A C string that may be a null pointer is an option. *)
Definition bgit_type_printable (name : option (list Z)) : bool :=
  match name with
  | None | Some [] => false
  | Some l => forallb (fun c => negb ((c <=? 32) || (c =? 127))) l
  end.

Definition bgit_all_hex (s : option (list Z)) : bool :=
  match s with
  | None | Some [] => false
  | Some l => forallb isxdigit l
  end.

(* ------------------------------------------------------------------ *)
(** ** Object ids and their hexadecimal form *)

(** The lookup table of [bgit_sha_to_hex]. *)
Definition pairs : list Z := Eval vm_compute in (str (
  "000102030405060708090a0b0c0d0e0f101112131415161718191a1b1c1d1e1f" ++
  "202122232425262728292a2b2c2d2e2f303132333435363738393a3b3c3d3e3f" ++
  "404142434445464748494a4b4c4d4e4f505152535455565758595a5b5c5d5e5f" ++
  "606162636465666768696a6b6c6d6e6f707172737475767778797a7b7c7d7e7f" ++
  "808182838485868788898a8b8c8d8e8f909192939495969798999a9b9c9d9e9f" ++
  "a0a1a2a3a4a5a6a7a8a9aaabacadaeafb0b1b2b3b4b5b6b7b8b9babbbcbdbebf" ++
  "c0c1c2c3c4c5c6c7c8c9cacbcccdcecfd0d1d2d3d4d5d6d7d8d9dadbdcdddedf" ++
  "e0e1e2e3e4e5e6e7e8e9eaebecedeeeff0f1f2f3f4f5f6f7f8f9fafbfcfdfeff"))%string.

(** [memcpy (out + 2*i, pairs + 2*sha[i], 2)] for each byte of a 20-byte id;
    the terminator is the end of the C string. *)
Definition bgit_sha_to_hex (sha : list Z) : list Z :=
  flat_map (fun b => take 2 (drop (Z.to_nat (2 * b)) pairs)) sha.

Definition hex_digit (c : Z) : Z :=
  if is_digit c then c - 48
  else if is_lower_hex c then c - 97 + 10
  else if is_upper_hex c then c - 65 + 10 else -1.

Fixpoint hex_loop (hex : list Z) : outcome (list Z) :=
  match hex with
  | h :: l :: hex' =>
      let hi := hex_digit h in
      let lo := hex_digit l in
      if (hi <? 0) || (lo <? 0) then failed
      else let* sha := hex_loop hex' in
           Ret (u8 (Z.lor (Z.shiftl hi 4) lo) :: sha)
  | _ => Ret []
  end.

Definition bgit_hex_to_sha (hex : list Z) : outcome (list Z) :=
  if negb (len hex =? 40) then failed else hex_loop hex.

(* ------------------------------------------------------------------ *)
(** ** The object header *)

(** The size field, from its first digit at offset [j]: decimal digits up to
    a NUL that must lie inside the buffer, with the overflow guard. *)
Fixpoint parse_size (l : list Z) (sz j : Z) : outcome (Z * Z) :=
  match l with
  | [] => failed
  | c :: l' =>
      if c =? 0 then Ret (sz, j)
      else if (c <? 48) || (c >? 57) then failed
      else let digit := c - 48 in
           if sz >? (SIZE_MAX - digit) / 10 then failed
           else parse_size l' (sz * 10 + digit) (j + 1)
  end.

Definition header_type (word : list Z) : outcome bgit_type :=
  if beq word (str "blob") then Ret BGIT_BLOB
  else if beq word (str "tree") then Ret BGIT_TREE
  else if beq word (str "commit") then Ret BGIT_COMMIT
  else if beq word (str "tag") then Ret BGIT_TAG
  else failed.

(** Type, payload size and payload offset of the object in [data]. *)
Definition bgit_parse_header (data : list Z) : outcome (bgit_type * Z * Z) :=
  match find_byte 32 data with
  | None => failed
  | Some i =>
      let* type := header_type (take i data) in
      let digits := drop (S i) data in
      match digits with
      | [] => failed
      | c :: rest =>
          if negb (is_digit c) then failed
          else if (c =? 48) && match rest with [] => false | d :: _ => negb (d =? 0) end
          then failed
          else let* r := parse_size digits 0 (Z.of_nat i + 1) in
               let '(sz, j) := r in
               if j >=? LONG_MAX then failed
               else Ret (type, sz, j + 1)
      end
  end.

(** [snprintf]'s ["%zu"]. *)
Fixpoint dec_loop (fuel : nat) (n : Z) (acc : list Z) : list Z :=
  match fuel with
  | O => acc
  | S fuel' =>
      let acc' := (48 + n mod 10) :: acc in
      if n <? 10 then acc' else dec_loop fuel' (n / 10) acc'
  end.

Definition print_dec (n : Z) : list Z := dec_loop (S (Z.to_nat (Z.log2 n))) n [].

(** The header [bgit_write_object] builds: ["%s %zu"] and the NUL after it. *)
Definition object_header (type : list Z) (n : Z) : list Z :=
  type ++ 32 :: print_dec n ++ [0].

(* ------------------------------------------------------------------ *)
(** ** Lemmas on ids *)

Definition oid (sha : list Z) : Prop := len sha = 20 /\ bytes sha.

Lemma pairs_digits : forallb (fun k =>
    let b := Z.of_nat k in
    match take 2 (drop (Z.to_nat (2 * b)) pairs) with
    | [h; l] => (Z.eqb (hex_digit h) (b / 16)) && (hex_digit l =? b mod 16)
                && (is_digit h || is_lower_hex h) && (is_digit l || is_lower_hex l)
    | _ => false
    end) (seq 0 256) = true.
Proof. vm_compute. reflexivity. Qed.

Lemma pairs_at b : is_byte b ->
  exists h l, take 2 (drop (Z.to_nat (2 * b)) pairs) = [h; l] /\
    hex_digit h = b / 16 /\ hex_digit l = b mod 16 /\
    (is_digit h || is_lower_hex h) = true /\ (is_digit l || is_lower_hex l) = true.
Proof.
  intros Hb. unfold is_byte in Hb.
  pose proof (proj1 (forallb_forall _ _) pairs_digits (Z.to_nat b)) as H.
  rewrite in_seq in H. specialize (H ltac:(lia)). cbv zeta in H.
  rewrite Z2Nat.id in H by lia.
  destruct (take 2 _) as [|h [|l [|]]]; try discriminate.
  simpl_bool. exists h, l. auto.
Qed.

Lemma hex_loop_sha_to_hex sha : bytes sha -> hex_loop (bgit_sha_to_hex sha) = Ret sha.
Proof.
  induction 1 as [|b sha Hb Hsha IH]; [done|].
  unfold bgit_sha_to_hex. simpl flat_map. fold (bgit_sha_to_hex sha).
  destruct (pairs_at b Hb) as (h & l & -> & Hh & Hl & _ & _).
  simpl. rewrite Hh, Hl. unfold is_byte in Hb.
  pose proof (Z.mod_pos_bound b 16). if_false. rewrite IH. simpl. do 2 f_equal.
  rewrite Z.lor_comm, lor_add_shift by lia. rewrite u8_id; ar.
Qed.

Lemma sha_to_hex_len sha : bytes sha -> len (bgit_sha_to_hex sha) = 2 * len sha.
Proof.
  induction 1 as [|b sha Hb Hsha IH]; [done|].
  unfold bgit_sha_to_hex. simpl flat_map. fold (bgit_sha_to_hex sha).
  destruct (pairs_at b Hb) as (h & l & -> & _).
  rewrite len_app, IH, !len_cons, len_nil. lia.
Qed.

(** Lower-case hexadecimal digits, the only ones ids are printed with. *)
Definition lower_hex (l : list Z) : Prop :=
  Forall (fun c => (is_digit c || is_lower_hex c) = true) l.

Lemma sha_to_hex_lower sha : bytes sha -> lower_hex (bgit_sha_to_hex sha).
Proof.
  induction 1 as [|b sha Hb Hsha IH]; [constructor|].
  unfold bgit_sha_to_hex. simpl flat_map. fold (bgit_sha_to_hex sha).
  destruct (pairs_at b Hb) as (h & l & -> & _ & _ & Hh & Hl).
  by repeat constructor.
Qed.

Lemma sha_to_hex_inj a b : bytes a -> bytes b ->
  bgit_sha_to_hex a = bgit_sha_to_hex b -> a = b.
Proof.
  intros Ha Hb E. apply hex_loop_sha_to_hex in Ha, Hb. congruence.
Qed.

Lemma lower_hex_digit c : (is_digit c || is_lower_hex c) = true ->
  0 <= hex_digit c < 16.
Proof.
  unfold hex_digit, is_digit, is_lower_hex. intros [H|H]%orb_true_iff; simpl_bool.
  - do 1 if_true. lia.
  - if_false. if_true. lia.
Qed.

Lemma lower_hex_inj c d : (is_digit c || is_lower_hex c) = true ->
  (is_digit d || is_lower_hex d) = true -> hex_digit c = hex_digit d -> c = d.
Proof.
  unfold hex_digit, is_digit, is_lower_hex.
  intros [H|H]%orb_true_iff [H'|H']%orb_true_iff; simpl_bool;
    repeat first [if_true | if_false]; lia.
Qed.

(** A hex digit pair is parsed back to the same pair. *)
Lemma pair_of_digits h l :
  (is_digit h || is_lower_hex h) = true -> (is_digit l || is_lower_hex l) = true ->
  take 2 (drop (Z.to_nat (2 * (hex_digit h * 16 + hex_digit l))) pairs) = [h; l].
Proof.
  intros Hh Hl. pose proof (lower_hex_digit h Hh). pose proof (lower_hex_digit l Hl).
  destruct (pairs_at (hex_digit h * 16 + hex_digit l)) as (h' & l' & -> & E1 & E2 & L1 & L2).
  { unfold is_byte; lia. }
  rewrite Z.div_add_l, (Z.div_small (hex_digit l)), Z.add_0_r in E1 by lia.
  rewrite Z.add_comm, Z.mod_add, Z.mod_small in E2 by lia.
  f_equal; [by apply lower_hex_inj|]. f_equal. by apply lower_hex_inj.
Qed.

Lemma hex_loop_back n hex : length hex = (2 * n)%nat -> lower_hex hex ->
  exists sha, hex_loop hex = Ret sha /\ bgit_sha_to_hex sha = hex /\
    length sha = n /\ bytes sha.
Proof.
  revert hex. induction n as [|n IH]; intros hex Hn Hhex.
  - destruct hex; [|done]. exists []. by repeat constructor.
  - destruct hex as [|h [|l hex]]; try (simpl in Hn; lia).
    inversion Hhex as [|? ? Hh Hr]; subst. inversion Hr as [|? ? Hl Hr']; subst.
    destruct (IH hex) as (sha & E & Hs & Hlen & Hb); [simpl in Hn; lia|done|].
    pose proof (lower_hex_digit h Hh). pose proof (lower_hex_digit l Hl).
    simpl. if_false. rewrite E. simpl. eexists. split; [reflexivity|].
    rewrite (Z.lor_comm (Z.shiftl _ _)), lor_add_shift by lia.
    change (2 ^ 4) with 16. rewrite u8_id by lia.
    rewrite (Z.add_comm (hex_digit l)).
    repeat split.
    + unfold bgit_sha_to_hex. simpl flat_map. fold (bgit_sha_to_hex sha).
      rewrite pair_of_digits by done. by rewrite Hs.
    + simpl. lia.
    + constructor; [unfold is_byte; lia|done].
Qed.

(* ------------------------------------------------------------------ *)
(** ** Lemmas on headers *)

Lemma dec_loop_app fuel n acc : dec_loop fuel n acc = dec_loop fuel n [] ++ acc.
Proof.
  revert n acc. induction fuel as [|fuel IH]; intros n acc; simpl; [done|].
  case_if; [done|]. rewrite IH, (IH _ [_]), <- app_assoc. done.
Qed.

Lemma dec_loop_fuel f g n acc : (0 < f)%nat -> (0 < g)%nat ->
  0 <= n < 10 ^ Z.of_nat f -> n < 10 ^ Z.of_nat g -> dec_loop f n acc = dec_loop g n acc.
Proof.
  revert g n acc. induction f as [|f IH]; intros [|g] n acc Hf Hg Hn Hn'; try lia.
  simpl. case_if; [done|]. rewrite Nat2Z.inj_succ, Z.pow_succ_r in Hn, Hn' by lia.
  apply IH.
  - destruct f; [simpl in *; lia|lia].
  - destruct g; [simpl in *; lia|lia].
  - split; [ar|apply Z.div_lt_upper_bound; lia].
  - apply Z.div_lt_upper_bound; lia.
Qed.

Lemma log2_pow10 n : 0 <= n -> n < 10 ^ Z.of_nat (S (Z.to_nat (Z.log2 n))).
Proof.
  intros Hn. destruct (Z.eq_dec n 0) as [->|]; [simpl; lia|].
  pose proof (Z.log2_spec n ltac:(lia)) as [_ H]. pose proof (Z.log2_nonneg n).
  rewrite Nat2Z.inj_succ, Z2Nat.id by done. eapply Z.lt_le_trans; [exact H|].
  apply Z.pow_le_mono_l. lia.
Qed.

Lemma print_dec_small n : 0 <= n < 10 -> print_dec n = [48 + n].
Proof.
  intros. unfold print_dec. simpl. if_true. by rewrite Z.mod_small.
Qed.

Lemma print_dec_step n : 10 <= n -> print_dec n = print_dec (n / 10) ++ [48 + n mod 10].
Proof.
  intros Hn. unfold print_dec at 1. simpl. if_false. rewrite dec_loop_app. f_equal.
  assert (Hlog : 1 <= Z.log2 n) by (apply (Z.log2_le_mono 2 n); lia).
  unfold print_dec. apply dec_loop_fuel; try lia.
  - split; [ar|]. rewrite Z2Nat.id by lia.
    apply Z.div_lt_upper_bound; [lia|]. eapply Z.lt_le_trans; [apply Z.log2_spec; lia|].
    rewrite Z.pow_succ_r by lia. apply Z.mul_le_mono_nonneg; try lia.
    apply Z.pow_le_mono_l. lia.
  - apply log2_pow10. ar.
Qed.

(** The value a run of decimal digits adds to [acc]. *)
Definition dec_val (l : list Z) (acc : Z) : Z := foldl (fun a c => a * 10 + (c - 48)) acc l.

Lemma dec_val_app a b acc : dec_val (a ++ b) acc = dec_val b (dec_val a acc).
Proof. apply foldl_app. Qed.

Lemma dec_val_ge l acc : Forall (fun c => is_digit c = true) l -> 0 <= acc ->
  acc <= dec_val l acc.
Proof.
  intros Hl. revert acc. induction Hl as [|c l Hc Hl IH]; intros acc Hacc; simpl; [lia|].
  unfold is_digit in Hc; simpl_bool. etrans; [|apply IH; lia]. lia.
Qed.

(** What [print_dec] writes: digits that denote [n], without a leading zero. *)
Definition dec_form (l : list Z) (n : Z) : Prop :=
  Forall (fun c => is_digit c = true) l /\ dec_val l 0 = n /\ l <> [] /\
  (hd 0 l = 48 -> length l = 1%nat).

Lemma is_digit_spec d : 0 <= d < 10 -> is_digit (48 + d) = true.
Proof. intros. unfold is_digit. solve_true. Qed.

Lemma print_dec_form n : 0 <= n -> dec_form (print_dec n) n.
Proof.
  induction n as [n IH] using (well_founded_ind (Z.lt_wf 0)); intros Hn.
  destruct (Z.lt_ge_cases n 10).
  - rewrite print_dec_small by lia. unfold dec_form. simpl. repeat split.
    + repeat constructor. apply is_digit_spec. lia.
    + unfold dec_val. simpl. lia.
    + done.
  - rewrite print_dec_step by lia.
    destruct (IH (n / 10)) as (H1 & H2 & H3 & H4); [ar|ar|].
    repeat split.
    + apply Forall_app. split; [done|]. repeat constructor. apply is_digit_spec. ar.
    + rewrite dec_val_app, H2. unfold dec_val. simpl. ar.
    + by destruct (print_dec (n / 10)).
    + destruct (print_dec (n / 10)) as [|c l] eqn:E; [done|]. simpl in *.
      intros Hc. specialize (H4 Hc). destruct l; [|done].
      exfalso. unfold dec_val in H2. simpl in H2. ar.
Qed.

Lemma dec_form_print l n : dec_form l n -> l = print_dec n.
Proof.
  revert n. induction l as [|d l IH] using rev_ind; intros n (H1 & H2 & H3 & H4); [done|].
  apply Forall_app in H1 as [Hl Hd]. inversion Hd as [|? ? Hd' _]; subst.
  unfold is_digit in Hd'; simpl_bool.
  rewrite dec_val_app. change (dec_val [d] (dec_val l 0)) with (dec_val l 0 * 10 + (d - 48)).
  destruct (decide (l = [])) as [->|Hne].
  - unfold dec_val; simpl. rewrite print_dec_small by lia. f_equal. lia.
  - assert (Hhd : hd 0 l <> 48).
    { intros E. destruct l as [|c l]; [done|]. simpl in *. specialize (H4 E).
      rewrite length_app in H4. simpl in H4. lia. }
    assert (Hf : dec_form l (dec_val l 0)) by (repeat split; [done..|congruence]).
    rewrite (IH _ Hf) at 1. assert (0 < dec_val l 0).
    { destruct l as [|c l]; [done|]. simpl in *. inversion Hl as [|? ? Hc Hl']; subst.
      unfold is_digit in Hc; simpl_bool. 
      eapply Z.lt_le_trans; [|apply dec_val_ge; [done|lia]]. lia. }
    rewrite (print_dec_step (_ * 10 + _)) by lia.
    replace ((dec_val l 0 * 10 + (d - 48)) / 10) with (dec_val l 0) by ar.
    do 2 f_equal. ar.
Qed.

Lemma parse_size_digits l rest acc j : Forall (fun c => is_digit c = true) l ->
  0 <= acc -> dec_val l acc <= SIZE_MAX ->
  parse_size (l ++ 0 :: rest) acc j = Ret (dec_val l acc, j + len l).
Proof.
  intros Hl. revert acc j. induction Hl as [|c l Hc Hl IH]; intros acc j Hacc Hmax; simpl.
  - do 2 f_equal. rewrite len_nil. lia.
  - unfold is_digit in Hc; simpl_bool.
    pose proof (dec_val_ge l (acc * 10 + (c - 48)) Hl ltac:(lia)).
    simpl in Hmax. unfold SIZE_MAX in *. do 3 if_false. rewrite IH by (simpl in *; lia).
    rewrite len_cons. do 2 f_equal. lia.
Qed.

Lemma parse_size_inv l acc j sz j' : 0 <= acc <= SIZE_MAX ->
  parse_size l acc j = Ret (sz, j') ->
  exists ds rest, l = ds ++ 0 :: rest /\ Forall (fun c => is_digit c = true) ds /\
    sz = dec_val ds acc /\ j' = j + len ds /\ 0 <= sz <= SIZE_MAX.
Proof.
  revert acc j. induction l as [|c l IH]; intros acc j Hacc; simpl; [done|].
  case_if. { intros [= <- <-]. subst. exists [], l. repeat split; try done; unfold len; simpl; lia. }
  repeat (case_if; [done|]). intros Hp. apply IH in Hp as (ds & rest & -> & Hd & -> & -> & Hsz).
  - exists (c :: ds), rest. repeat split; try done; try lia.
    + constructor; [unfold is_digit; solve_true|done].
    + rewrite len_cons. lia.
  - unfold SIZE_MAX in *. ar.
Qed.

Lemma header_type_inv w t : header_type w = Ret t -> t <> BGIT_UNKNOWN /\ w = bgit_type_name t.
Proof.
  unfold header_type. repeat (case_if; [by intros [= <-]|]). done.
Qed.

Lemma header_type_name t : t <> BGIT_UNKNOWN -> header_type (bgit_type_name t) = Ret t.
Proof. by destruct t. Qed.

Lemma type_name_no_space t : Forall (fun c => c <> 32) (bgit_type_name t).
Proof. destruct t; repeat constructor; done. Qed.

Lemma type_name_len t : len (bgit_type_name t) <= 7.
Proof. destruct t; vm_compute; done. Qed.

Lemma hex_loop_bad n hex c : length hex = (2 * n)%nat -> c ∈ hex ->
  isxdigit c = false -> hex_loop hex = failed.
Proof.
  revert hex. induction n as [|n IH]; intros hex Hn Hin Hc.
  - destruct hex; [by apply not_elem_of_nil in Hin|done].
  - destruct hex as [|h [|l hex]]; try (simpl in Hn; lia). simpl.
    assert (Hbad : hex_digit c = -1).
    { unfold isxdigit in Hc. unfold hex_digit. simpl_bool.
      by destruct (is_digit c), (is_lower_hex c), (is_upper_hex c). }
    case_if; [done|]. rewrite !elem_of_cons in Hin.
    destruct Hin as [->|[->|Hin]]; [lia..|].
    rewrite IH; [done|simpl in Hn; lia|done..].
Qed.

Lemma object_header_parse t n payload : t <> BGIT_UNKNOWN -> 0 <= n <= SIZE_MAX ->
  len (object_header (bgit_type_name t) n) <= LONG_MAX ->
  bgit_parse_header (object_header (bgit_type_name t) n ++ payload) =
  Ret (t, n, len (object_header (bgit_type_name t) n)).
Proof.
  intros Ht Hn Hl. unfold bgit_parse_header, object_header in *.
  destruct (print_dec_form n) as (Hd & Hv & Hne & Hz); [lia|].
  rewrite <- app_assoc, <- app_comm_cons, <- app_assoc.
  rewrite find_byte_app by apply type_name_no_space.
  rewrite take_app_length, header_type_name by done. cbn [obind].
  rewrite drop_app_S. cbn [app].
  rewrite !len_app, len_cons, len_app, len_cons, len_nil in *.
  change (Z.of_nat (length (bgit_type_name t))) with (len (bgit_type_name t)).
  destruct (print_dec n) as [|c l] eqn:E; [done|]. cbn [app].
  assert (Hc : is_digit c = true) by (by inversion Hd). rewrite Hc. cbn [negb].
  replace (_ && _) with false; cycle 1.
  { symmetry. destruct (c =? 48) eqn:Ec; simpl_bool; [|done]. subst.
    destruct l; [done|]. specialize (Hz eq_refl). done. }
  change (c :: l ++ 0 :: payload) with ((c :: l) ++ 0 :: payload).
  rewrite parse_size_digits by (try done; lia). cbn [obind].
  rewrite Hv. if_false. rewrite len_nil. do 2 f_equal. lia.
Qed.

Lemma parse_header_inv data t n off : bgit_parse_header data = Ret (t, n, off) ->
  exists payload, data = object_header (bgit_type_name t) n ++ payload /\
    off = len (object_header (bgit_type_name t) n) /\
    t <> BGIT_UNKNOWN /\ 0 <= n <= SIZE_MAX /\ off <= LONG_MAX.
Proof.
  unfold bgit_parse_header. destruct (find_byte 32 data) as [i|] eqn:Hf; [|done].
  apply find_byte_Some in Hf as (w & digits & -> & <- & Hw).
  rewrite take_app_length. intros Hp. inv_bind Hp.
  apply header_type_inv in Hv as [Ht ->].
  replace (drop (S _) _) with digits in Hp
    by (by rewrite drop_app_S).
  destruct digits as [|c rest]; [done|]. case_if_in Hp; [done|].
  destruct (_ && _) eqn:Hz in Hp; [done|]. inv_bind Hp.
  destruct v0 as [sz j]. case_if_in Hp; [done|]. inversion Hp; subst; clear Hp.
  apply parse_size_inv in Hv as (ds & payload & E & Hd & -> & -> & Hsz);
    [|unfold SIZE_MAX; lia].
  assert (Hds : ds <> []).
  { destruct ds; [|done]. by simplify_eq/=. }
  assert (Hform : dec_form ds (dec_val ds 0)).
  { repeat split; try done. intros H48. destruct ds as [|d [|d' ds]]; try done.
    simplify_eq/=. simpl_bool. subst. inversion Hd as [|? ? _ Hd']. inversion Hd' as [|? ? Hd0 _]. done. }
  exists payload. unfold object_header.
  rewrite <- (dec_form_print _ _ Hform), !len_app, len_cons, len_app, len_cons, (@len_nil Z).
  split; [rewrite E, <- !app_assoc; simpl; by rewrite <- app_assoc|].
  unfold len in *. repeat split; try done; try lia.
Qed.

Lemma parse_size_no_fault l acc j : parse_size l acc j <> Fault.
Proof. revert acc j. induction l as [|c l IH]; intros acc j; cbn; [done|]. repeat (case_if; [done|]). apply IH. Qed.

(** The parser reads a list of bytes from the front: it cannot fault. *)
Lemma parse_header_no_fault data : bgit_parse_header data <> Fault.
Proof.
  unfold bgit_parse_header, header_type. destruct (find_byte 32 data) as [i|]; [|done].
  repeat case_if; cbn [obind]; try done;
    (destruct (drop (S i) data) as [|c rest] eqn:E; [done|]; repeat (case_if; [done|]);
     match goal with |- context [parse_size ?l ?a ?j] => pose proof (parse_size_no_fault l a j);
       destruct (parse_size l a j) as [[]| |] end; cbn [obind]; try done; by case_if).
Qed.

(** Decimal lengths: a number below a power of ten has at most that many digits. *)
Lemma print_dec_len k n : 0 <= n < 10 ^ Z.of_nat (S k) -> len (print_dec n) <= Z.of_nat (S k).
Proof.
  revert n. induction k as [|k IH]; intros n Hn.
  - rewrite print_dec_small by (change (10 ^ Z.of_nat 1) with 10 in Hn; lia). done.
  - destruct (Z.lt_ge_cases n 10); [rewrite print_dec_small by lia; change (len [48 + n]) with 1; lia|].
    rewrite print_dec_step by lia. rewrite len_app. change (len [48 + n mod 10]) with 1.
    replace (Z.of_nat (S (S k))) with (1 + Z.of_nat (S k)) in * by lia. rewrite Z.pow_add_r in Hn by lia.
    specialize (IH (n / 10) ltac:(split; [apply Z.div_pos; lia|apply Z.div_lt_upper_bound; lia])). lia.
Qed.

Lemma object_header_short t n : 0 <= n <= SIZE_MAX -> len (object_header (bgit_type_name t) n) <= 64.
Proof.
  intros Hn. unfold object_header. rewrite len_app, len_cons, len_app. change (len [0]) with 1.
  pose proof (type_name_len t). pose proof (print_dec_len 19 n) as Hd. change (Z.of_nat 20) with 20 in Hd.
  unfold SIZE_MAX in *. specialize (Hd ltac:(lia)). lia.
Qed.

(* ------------------------------------------------------------------ *)
(** ** Properties *)

(**  A 20-byte object id printed by [bgit_sha_to_hex] is 40 lower-case
    hexadecimal digits, and [bgit_hex_to_sha] reads the same id back. *)
Theorem sha_hex_roundtrip (sha : list Z) : oid sha ->
  len (bgit_sha_to_hex sha) = 40 /\ lower_hex (bgit_sha_to_hex sha) /\
  bgit_hex_to_sha (bgit_sha_to_hex sha) = Ret sha.
Proof.
  intros [Hn Hb]. rewrite sha_to_hex_len by done. split; [lia|].
  split; [by apply sha_to_hex_lower|]. unfold bgit_hex_to_sha.
  rewrite sha_to_hex_len, Hn by done. by apply hex_loop_sha_to_hex.
Qed.

(**  [bgit_hex_to_sha] on any C string: 40 lower-case hexadecimal digits
    give a 20-byte id that prints as the same digits, and a string of another
    length, or with a character that is not a hexadecimal digit, is refused. *)
Theorem hex_to_sha_total (hex : list Z) :
  (len hex = 40 /\ lower_hex hex ->
     exists sha, bgit_hex_to_sha hex = Ret sha /\ oid sha /\ bgit_sha_to_hex sha = hex) /\
  (len hex <> 40 \/ (exists c, c ∈ hex /\ isxdigit c = false) ->
     bgit_hex_to_sha hex = failed).
Proof.
  unfold bgit_hex_to_sha. split.
  - intros [Hn Hl]. rewrite Hn. simpl. unfold len in Hn.
    destruct (hex_loop_back 20 hex) as (sha & E & Hs & Hlen & Hb); [lia|done|].
    exists sha. repeat split; try done. unfold len. lia.
  - intros H. destruct (len hex =? 40) eqn:E; [|done]. simpl_bool.
    destruct H as [H|(c & Hin & Hc)]; [done|]. simpl.
    eapply (hex_loop_bad 20); [unfold len in E; lia|done..].
Qed.

(**  The header parser accepts exactly what the object writer produces:
    it returns type [t], size [n] and payload offset [off] precisely when the
    buffer starts with the header [object_header (bgit_type_name t) n], whose
    length is [off], for one of the four object types and a size that fits a
    [size_t]. *)
Theorem parse_header_exact (data : list Z) t n off : len data <= LONG_MAX ->
  bgit_parse_header data = Ret (t, n, off) <->
  exists payload, data = object_header (bgit_type_name t) n ++ payload /\
    off = len (object_header (bgit_type_name t) n) /\
    t <> BGIT_UNKNOWN /\ 0 <= n <= SIZE_MAX.
Proof.
  intros Hlen. split.
  - intros (p & H1 & H2 & H3 & H4 & _)%parse_header_inv. eauto.
  - intros (p & -> & -> & Ht & Hn). apply object_header_parse; try done.
    rewrite len_app in Hlen. pose proof (len_nonneg p). lia.
Qed.

(* ------------------------------------------------------------------ *)
(** ** Witnesses *)

Definition demo_oid : list Z := map Z.of_nat (seq 170 20).

Lemma demo_oid_ok : oid demo_oid.
Proof. split; [reflexivity|]. repeat constructor; vm_compute; congruence. Defined.

Lemma sha_hex_roundtrip_witness :
  len (bgit_sha_to_hex demo_oid) = 40 /\ lower_hex (bgit_sha_to_hex demo_oid) /\
  bgit_hex_to_sha (bgit_sha_to_hex demo_oid) = Ret demo_oid.
Proof. apply (sha_hex_roundtrip demo_oid), demo_oid_ok. Defined.

Lemma hex_to_sha_total_witness : bgit_hex_to_sha (str "0g") = failed.
Proof. apply (hex_to_sha_total (str "0g")). left. vm_compute. discriminate. Defined.

Lemma parse_header_exact_witness :
  bgit_parse_header (str "blob 3" ++ 0 :: str "abc") = Ret (BGIT_BLOB, 3, 7).
Proof.
  apply (parse_header_exact (str "blob 3" ++ 0 :: str "abc") BGIT_BLOB 3 7).
  - vm_compute. discriminate.
  - exists (str "abc"). repeat split; vm_compute; congruence.
Defined.
