(* ===== verification/Delta.v ===== *)
(** * Deltas (loadables/_git/pack.c, lines 349-677)

    A delta rewrites a base object into a target: it copies runs of the base
    and inserts literal bytes.  This file models the encoder
    ([bgit_delta_index_create], [bgit_delta_create] and what they call) with
    its block index, its rolling hash and its size limit, and the decoder
    ([bgit_pack_apply_delta]).  Every array access of both goes through
    [rd]/[rdn], so an access outside an array shows as [Fault]. *)

From S2P Require Import Prelude.
#[local] Open Scope Z_scope.

(* ------------------------------------------------------------------ *)
(** ** Sizes *)

(** The loop of [bgit_pack_read_varint]: [shift] runs over 0, 7, ..., 63, so
    ten rounds are all there can be. *)
Fixpoint varint_loop (k : nat) (p : list Z) (off v shift : Z) : outcome (Z * Z) :=
  match k with
  | O => failed
  | S k' =>
      if (off <? len p) && (shift <? 64) then
        let* b := rd p off in
        if Z.land b 127 >? Z.shiftr UINT64_MAX shift then failed
        else let v' := Z.lor v (u64 (Z.shiftl (Z.land b 127) shift)) in
             if Z.land b 128 =? 0 then Ret (v', off + 1)
             else varint_loop k' p (off + 1) v' (shift + 7)
      else failed
  end.

(** The value and the offset after it. *)
Definition bgit_pack_read_varint (p : list Z) (off : Z) : outcome (Z * Z) :=
  varint_loop 11 p off 0 0.

(** The [do ... while] of [bgit_delta_size]; the array holds 16 bytes. *)
Fixpoint delta_size_loop (k : nat) (size : Z) : list Z :=
  match k with
  | O => []
  | S k' =>
      let byte := Z.land size 127 in
      let size' := Z.shiftr size 7 in
      if size' =? 0 then [byte]
      else Z.lor byte 128 :: delta_size_loop k' size'
  end.

Definition bgit_delta_size (size : Z) : list Z := delta_size_loop 16 size.

(* ------------------------------------------------------------------ *)
(** ** The block index of a base *)

Definition BGIT_DELTA_BLOCK : Z := 16.
Definition BGIT_DELTA_POW : Z := 0x0c3525e1.

Record bgit_delta_index := {
  di_base : list Z;
  di_mask : Z;          (* one less than the table size *)
  di_heads : list Z;    (* slot -> block number plus one, 0 when empty *)
  di_nexts : list Z;    (* block number -> the next in its slot, plus one *)
  di_offs : list Z      (* block number -> where it starts in the base *)
}.

(** [hash = hash * 33 + p[i]] over the sixteen bytes of a block. *)
Definition bgit_delta_hash (p : list Z) : Z :=
  foldl (fun hash b => u32 (hash * 33 + b)) 0 p.

Definition bgit_delta_slot (hash mask : Z) : Z :=
  Z.land (Z.lxor hash (Z.shiftr hash 15)) mask.

(** [while (table < n_blocks * 2) table <<= 1]; 64 doublings pass any
    [size_t]. *)
Fixpoint table_loop (k : nat) (table want : Z) : Z :=
  match k with
  | O => table
  | S k' => if table <? want then table_loop k' (table * 2) want else table
  end.

(** One round of the loop that fills the index, for block [b]. *)
Definition index_block (base : list Z) (mask : Z) (b : Z)
    (st : list Z * list Z * list Z) : outcome (list Z * list Z * list Z) :=
  let '(heads, nexts, offs) := st in
  let off := b * BGIT_DELTA_BLOCK in
  let* block := rdn base off BGIT_DELTA_BLOCK in
  let slot := bgit_delta_slot (bgit_delta_hash block) mask in
  let* head := rd heads slot in
  Ret (<[Z.to_nat slot := u32 (u32 b + 1)]> heads,
       <[Z.to_nat b := head]> nexts,
       <[Z.to_nat b := u32 off]> offs).

(** [for (b = n_blocks; b-- > 0; )]. *)
Fixpoint index_loop (base : list Z) (mask : Z) (b : nat)
    (st : list Z * list Z * list Z) : outcome (list Z * list Z * list Z) :=
  match b with
  | O => Ret st
  | S b' => let* st' := index_block base mask (Z.of_nat b') st in
            index_loop base mask b' st'
  end.

(** [None] is the null pointer a base shorter than one block gives. *)
Definition bgit_delta_index_create (base : list Z) : outcome (option bgit_delta_index) :=
  if len base <? BGIT_DELTA_BLOCK then Ret None
  else
    let n_blocks := len base / BGIT_DELTA_BLOCK in
    let table := Z.min (table_loop 64 1 (n_blocks * 2)) (2 ^ 24) in
    let mask := u32 (table - 1) in
    let* st := index_loop base mask (Z.to_nat n_blocks)
                 (replicate (Z.to_nat table) 0, replicate (Z.to_nat n_blocks) 0,
                  replicate (Z.to_nat n_blocks) 0) in
    let '(heads, nexts, offs) := st in
    Ret (Some {| di_base := base; di_mask := mask; di_heads := heads;
                 di_nexts := nexts; di_offs := offs |}).

(* ------------------------------------------------------------------ *)
(** ** The encoder *)

(** Literal runs of at most 127 bytes, each after its length. *)
Fixpoint literals_loop (fuel : nat) (from : list Z) : list Z :=
  match fuel with
  | O => []
  | S fuel' =>
      if len from =? 0 then []
      else let run := if len from >? 127 then 127 else len from in
           run :: take (Z.to_nat run) from
               ++ literals_loop fuel' (drop (Z.to_nat run) from)
  end.

Definition bgit_delta_literals (from : list Z) : list Z :=
  literals_loop (length from) from.

(** The bytes of [v] at the given (flag bit, shift) positions that are not
    zero, and the command byte with their flags set. *)
Fixpoint copy_fields (l : list (Z * Z)) (v cmd : Z) : Z * list Z :=
  match l with
  | [] => (cmd, [])
  | (bit, shift) :: l' =>
      let byte := Z.land (Z.shiftr v shift) 255 in
      if byte =? 0 then copy_fields l' v cmd
      else let '(cmd', rest) := copy_fields l' v (Z.lor cmd (Z.shiftl 1 bit)) in
           (cmd', byte :: rest)
  end.

Definition off_fields : list (Z * Z) := [(0, 0); (1, 8); (2, 16); (3, 24)].
Definition size_fields : list (Z * Z) := [(4, 0); (5, 8); (6, 16)].

Definition bgit_delta_copy (off size : Z) : list Z :=
  let '(cmd, offs) := copy_fields off_fields off 128 in
  let '(cmd, sizes) :=
    if size =? 0x10000 then (cmd, []) else copy_fields size_fields size cmd in
  cmd :: offs ++ sizes.

(** How far a match of one block extends. *)
Fixpoint extend_loop (fuel : nat) (base target : list Z) (off at_ run : Z) : outcome Z :=
  match fuel with
  | O => Ret run
  | S fuel' =>
      if (off + run <? len base) && (at_ + run <? len target) && (run <? 0x10000) then
        let* x := rd base (off + run) in
        let* y := rd target (at_ + run) in
        if x =? y then extend_loop fuel' base target off at_ (run + 1) else Ret run
      else Ret run
  end.

(** The walk along a slot's chain, at most 64 blocks of it: the best match
    so far is [best_off], [best_len]. *)
Fixpoint chain_loop (looked : nat) (index : bgit_delta_index) (target : list Z)
    (at_ b best_off best_len : Z) : outcome (Z * Z) :=
  match looked with
  | O => Ret (best_off, best_len)
  | S looked' =>
      if b =? 0 then Ret (best_off, best_len)
      else
        let* off := rd (di_offs index) (b - 1) in
        let* next := rd (di_nexts index) (b - 1) in
        let* x := rdn (di_base index) off BGIT_DELTA_BLOCK in
        let* y := rdn target at_ BGIT_DELTA_BLOCK in
        if negb (beq x y) then chain_loop looked' index target at_ next best_off best_len
        else
          let* run := extend_loop (length target) (di_base index) target off at_
                        BGIT_DELTA_BLOCK in
          if run >? best_len then
            if run >=? 0x10000 then Ret (off, run)
            else chain_loop looked' index target at_ next off run
          else chain_loop looked' index target at_ next best_off best_len
  end.

(** One byte off the front of the window, one on its end. *)
Definition delta_roll (hash out inn : Z) : Z :=
  u32 (u32 (hash - u32 (out * BGIT_DELTA_POW)) * 33 + inn).

(** What the encoder carries from one round to the next. *)
Record delta_state := {
  ds_delta : list Z;   (* what has been written *)
  ds_at : Z;
  ds_pending : Z;      (* bytes before [ds_at] not written yet *)
  ds_hash : Z;
  ds_rolling : bool
}.

(** One round of the encoder's loop. *)
Definition delta_step (index : bgit_delta_index) (target : list Z) (max : Z)
    (st : delta_state) : outcome delta_state :=
  let at_ := ds_at st in
  let* found :=
    if at_ + BGIT_DELTA_BLOCK <=? len target then
      let* hash := if ds_rolling st then Ret (ds_hash st)
                   else let* block := rdn target at_ BGIT_DELTA_BLOCK in
                        Ret (bgit_delta_hash block) in
      let* head := rd (di_heads index) (bgit_delta_slot hash (di_mask index)) in
      let* best := chain_loop 64 index target at_ head 0 0 in
      Ret (hash, true, best)
    else Ret (ds_hash st, ds_rolling st, (0, 0)) in
  let '(hash, rolling, (best_off, best_len)) := found in
  if best_len <? BGIT_DELTA_BLOCK then
    let pending := ds_pending st + 1 in
    let* rolled :=
      if at_ + BGIT_DELTA_BLOCK <? len target then
        let* out := rd target at_ in
        let* inn := rd target (at_ + BGIT_DELTA_BLOCK) in
        Ret (delta_roll hash out inn, rolling)
      else Ret (hash, false) in
    let '(hash', rolling') := rolled in
    if len (ds_delta st) + pending >? max then failed
    else Ret {| ds_delta := ds_delta st; ds_at := at_ + 1; ds_pending := pending;
                ds_hash := hash'; ds_rolling := rolling' |}
  else
    let* lits := rdn target (at_ - ds_pending st) (ds_pending st) in
    let delta := ds_delta st ++ bgit_delta_literals lits
                             ++ bgit_delta_copy best_off best_len in
    if len delta >? max then failed
    else Ret {| ds_delta := delta; ds_at := at_ + best_len; ds_pending := 0;
                ds_hash := hash; ds_rolling := false |}.

(** Each round moves [ds_at] forward, so the length of the target is enough
    rounds. *)
Fixpoint delta_loop (fuel : nat) (index : bgit_delta_index) (target : list Z) (max : Z)
    (st : delta_state) : outcome delta_state :=
  match fuel with
  | O => Ret st
  | S fuel' =>
      if ds_at st <? len target
      then let* st' := delta_step index target max st in
           delta_loop fuel' index target max st'
      else Ret st
  end.

Definition bgit_delta_create (index : option bgit_delta_index) (target : list Z) (max : Z)
    : outcome (list Z) :=
  match index with
  | None => failed
  | Some index =>
      let* st := delta_loop (length target) index target max
        {| ds_delta := bgit_delta_size (len (di_base index)) ++ bgit_delta_size (len target);
           ds_at := 0; ds_pending := 0; ds_hash := 0; ds_rolling := false |} in
      let* lits := rdn target (ds_at st - ds_pending st) (ds_pending st) in
      let delta := ds_delta st ++ bgit_delta_literals lits in
      if len delta >? max then failed else Ret delta
  end.

(* ------------------------------------------------------------------ *)
(** ** The decoder *)

(** The offset or size bytes an op announces in its flag bits. *)
Fixpoint read_fields (l : list (Z * Z)) (delta : list Z) (op off acc : Z) : outcome (Z * Z) :=
  match l with
  | [] => Ret (acc, off)
  | (bit, shift) :: l' =>
      if Z.land op (Z.shiftl 1 bit) =? 0 then read_fields l' delta op off acc
      else if off >=? len delta then failed
      else let* b := rd delta off in
           read_fields l' delta op (off + 1) (Z.lor acc (Z.shiftl b shift))
  end.

(** One op of the delta at [off], with [buf] written so far. *)
Definition apply_op (base delta : list Z) (tgt_size : Z) (off : Z) (buf : list Z)
    : outcome (Z * list Z) :=
  let* op := rd delta off in
  let off := off + 1 in
  if negb (Z.land op 128 =? 0) then
    let* r := read_fields off_fields delta op off 0 in
    let '(copy_off, off) := r in
    let* r := read_fields size_fields delta op off 0 in
    let '(copy_size, off) := r in
    let copy_size := if copy_size =? 0 then 0x10000 else copy_size in
    if (copy_size >? len base) || (copy_off >? len base - copy_size) then failed
    else if (copy_size >? tgt_size) || (len buf >? tgt_size - copy_size) then failed
    else let* run := rdn base copy_off copy_size in
         Ret (off, buf ++ run)
  else if op >? 0 then
    if op >? len delta - off then failed
    else if op >? u64 (tgt_size - len buf) then failed
    else let* run := rdn delta off op in
         Ret (off + op, buf ++ run)
  else failed.

(** Each op takes at least its own byte, so the length of the delta is
    enough rounds. *)
Fixpoint apply_loop (fuel : nat) (base delta : list Z) (tgt_size off : Z) (buf : list Z)
    : outcome (list Z) :=
  match fuel with
  | O => Ret buf
  | S fuel' =>
      if off <? len delta then
        let* r := apply_op base delta tgt_size off buf in
        let '(off, buf) := r in
        apply_loop fuel' base delta tgt_size off buf
      else Ret buf
  end.

(** The most one byte of delta can contribute. *)
Definition delta_max_copy (base : list Z) : Z :=
  let max_copy := if len base <? 0xffffff then len base else 0xffffff in
  if max_copy <? 1 then 1 else max_copy.

Definition bgit_pack_apply_delta (base delta : list Z) : outcome (list Z) :=
  let* r := bgit_pack_read_varint delta 0 in
  let '(src_size, off) := r in
  let* r := bgit_pack_read_varint delta off in
  let '(tgt_size, off) := r in
  if negb (src_size =? len base) then failed
  else if tgt_size >? SIZE_MAX then failed
  else
    let max_copy := delta_max_copy base in
    let ceiling := if len delta >? SIZE_MAX / max_copy then SIZE_MAX
                   else len delta * max_copy in
    if tgt_size >? ceiling then failed
    else
      let* buf := apply_loop (length delta) base delta tgt_size off [] in
      if negb (len buf =? tgt_size) then failed else Ret buf.

Example delta_demo :
  let base := str "The quick brown fox jumps over the lazy dog, twice over." in
  let target := str "A quick brown fox jumps over the lazy cat, and the lazy dog, twice over." in
  (let* i := bgit_delta_index_create base in
   let* d := bgit_delta_create i target 100 in
   bgit_pack_apply_delta base d) = Ret target.
Proof. vm_compute. reflexivity. Qed.

(* ------------------------------------------------------------------ *)
(** ** Lemmas: sizes *)

Lemma land127 x : Z.land x 127 = x mod 128.
Proof. apply (land_ones_mod x 7). lia. Qed.

(** What the variable-length decoder does with one more byte. *)
Lemma varint_step k pre b post v shift : is_byte b -> 0 <= shift < 64 -> 0 <= v < 2 ^ shift ->
  (b mod 128) * 2 ^ shift < 2 ^ 64 ->
  varint_loop (S k) (pre ++ b :: post) (len pre) v shift =
  if Z.land b 128 =? 0 then Ret (v + (b mod 128) * 2 ^ shift, len pre + 1)
  else varint_loop k (pre ++ b :: post) (len pre + 1) (v + (b mod 128) * 2 ^ shift) (shift + 7).
Proof.
  intros Hb Hsh Hv Hmax. cbn [varint_loop]. rewrite rd_app_hd.
  pose proof (len_nonneg post). rewrite len_app, len_cons. if_true. cbn [obind]. rewrite land127.
  pose proof (Z.pow_pos_nonneg 2 shift ltac:(lia) ltac:(lia)).
  pose proof (Z.mod_pos_bound b 128 ltac:(lia)).
  rewrite Z.shiftr_div_pow2 by lia.
  assert (Hle : b mod 128 <= UINT64_MAX / 2 ^ shift).
  { apply Z.div_le_lower_bound; [lia|]. unfold UINT64_MAX. lia. }
  if_false. rewrite Z.shiftl_mul_pow2 by lia. rewrite u64_id by nia.
  rewrite <- (lor_add_shift v), Z.shiftl_mul_pow2 by lia. done.
Qed.

Lemma delta_size_loop_read j : forall pre k s v shift post, (0 < j)%nat ->
  0 <= s < 2 ^ (7 * Z.of_nat j) -> 0 <= shift -> 7 * Z.of_nat k + shift = 77 ->
  s * 2 ^ shift < 2 ^ 64 -> (s = 0 -> shift = 0) -> 0 <= v < 2 ^ shift ->
  varint_loop k (pre ++ delta_size_loop j s ++ post) (len pre) v shift =
  Ret (v + s * 2 ^ shift, len pre + len (delta_size_loop j s)).
Proof.
  induction j as [|j IH]; intros pre k s v shift post Hj Hs Hsh Hk Hmax Hz Hv; [lia|].
  assert (Hsh' : shift < 64).
  { destruct (Z.eq_dec s 0) as [E|]; [specialize (Hz E); lia|].
    apply (Z.pow_lt_mono_r_iff 2); nia. }
  destruct k as [|k]; [lia|]. cbn [delta_size_loop]. rewrite land127.
  pose proof (Z.mod_pos_bound s 128 ltac:(lia)) as Hm.
  destruct (seven_bits (s mod 128) Hm) as (H1 & H2 & H3 & H4 & H5).
  assert (Hd : s = 128 * (s / 128) + s mod 128) by (apply Z.div_mod; lia).
  rewrite Z.shiftr_div_pow2 by lia. change (2 ^ 7) with 128.
  pose proof (Z.pow_pos_nonneg 2 shift ltac:(lia) ltac:(lia)).
  case_if.
  - cbn [app]. rewrite varint_step; [|unfold is_byte; lia|lia|done|rewrite Z.mod_small by lia; nia].
    rewrite H2. cbn [Z.eqb]. rewrite (Z.mod_small (s mod 128)) by lia.
    apply (f_equal Ret), (f_equal2 pair); [nia|unfold len; simpl; lia].
  - cbn [app]. rewrite H5.
    assert (Hmod : (s mod 128 + 128) mod 128 = s mod 128) by ar.
    rewrite varint_step; [|unfold is_byte; lia|lia|done|rewrite Hmod; nia].
    rewrite <- H5, H4, H5, Hmod. cbn [Z.eqb].
    rewrite cons_middle, app_assoc.
    replace (len pre + 1) with (len (pre ++ [s mod 128 + 128])) by (rewrite len_app; unfold len; simpl; lia).
    assert (0 < s / 128) by ar.
    assert (Hpow : 2 ^ (shift + 7) = 128 * 2 ^ shift) by (rewrite Z.pow_add_r by lia; lia).
    rewrite IH; try lia.
    + rewrite len_app, len_cons, !len_cons, (@len_nil Z). apply (f_equal Ret), (f_equal2 pair); [|lia].
      rewrite Hpow. nia.
    + destruct j; [|lia]. simpl in Hs. lia.
    + split; [lia|]. apply Z.div_lt_upper_bound; [lia|].
      replace (7 * Z.of_nat (S j)) with (7 * Z.of_nat j + 7) in Hs by lia.
      rewrite Z.pow_add_r in Hs by lia. lia.
    + rewrite Hpow. nia.
Qed.

Lemma delta_size_read pre s post : 0 <= s < 2 ^ 64 ->
  bgit_pack_read_varint (pre ++ bgit_delta_size s ++ post) (len pre) =
  Ret (s, len pre + len (bgit_delta_size s)).
Proof.
  intros Hs. unfold bgit_pack_read_varint, bgit_delta_size.
  rewrite (delta_size_loop_read 16) by lia. do 2 f_equal. lia.
Qed.

Lemma delta_size_loop_bytes j s : 0 <= s -> bytes (delta_size_loop j s).
Proof.
  revert s. induction j as [|j IH]; intros s Hs; simpl; [constructor|].
  rewrite land127. pose proof (Z.mod_pos_bound s 128 ltac:(lia)) as Hm.
  destruct (seven_bits (s mod 128) Hm) as (_ & _ & _ & _ & ->).
  case_if; constructor; try (unfold is_byte; lia); [constructor|].
  apply IH, Z.shiftr_nonneg. done.
Qed.

Lemma delta_size_loop_len j n s : 0 <= s < 2 ^ (7 * Z.of_nat n) -> (0 < n)%nat ->
  len (delta_size_loop j s) <= Z.of_nat n.
Proof.
  revert n s. induction j as [|j IH]; intros n s Hs Hn; cbn [delta_size_loop].
  { unfold len; simpl; lia. }
  case_if; [unfold len; simpl; lia|]. rewrite len_cons.
  rewrite Z.shiftr_div_pow2 in * by lia. change (2 ^ 7) with 128 in *.
  destruct n as [|n]; [lia|]. destruct n as [|n].
  { exfalso. simpl in Hs. ar. }
  assert (len (delta_size_loop j (s / 128)) <= Z.of_nat (S n)); [|lia].
  apply IH; [|lia]. replace (7 * Z.of_nat (S (S n))) with (7 * Z.of_nat (S n) + 7) in Hs by lia.
  rewrite Z.pow_add_r in Hs by lia. split; [ar|]. apply Z.div_lt_upper_bound; lia.
Qed.

(* ------------------------------------------------------------------ *)
(** ** Lemmas: the decoder's rounds *)

(** Rounds of the decoder, without fuel. *)
Inductive apply_runs (base delta : list Z) (tgt : Z) : Z -> list Z -> Z -> list Z -> Prop :=
| runs_done off buf : apply_runs base delta tgt off buf off buf
| runs_step off buf off1 buf1 off2 buf2 :
    off < len delta -> off < off1 ->
    apply_op base delta tgt off buf = Ret (off1, buf1) ->
    apply_runs base delta tgt off1 buf1 off2 buf2 ->
    apply_runs base delta tgt off buf off2 buf2.
#[export] Hint Constructors apply_runs : cbytes.

Lemma apply_runs_trans base delta tgt o1 b1 o2 b2 o3 b3 :
  apply_runs base delta tgt o1 b1 o2 b2 -> apply_runs base delta tgt o2 b2 o3 b3 ->
  apply_runs base delta tgt o1 b1 o3 b3.
Proof. induction 1; eauto with cbytes. Qed.

Lemma apply_runs_loop base delta tgt off buf buf' fuel :
  apply_runs base delta tgt off buf (len delta) buf' -> len delta - off <= Z.of_nat fuel ->
  apply_loop fuel base delta tgt off buf = Ret buf'.
Proof.
  intros Hr. remember (len delta) as e eqn:He. revert fuel.
  induction Hr as [off buf|off buf off1 buf1 off2 buf2 Hlt Hlt' Hop Hr IH]; intros fuel Hf.
  - destruct fuel; simpl; [done|]. by if_false.
  - destruct fuel as [|fuel]; [lia|]. simpl. if_true. rewrite Hop. simpl. apply IH; lia.
Qed.

(** A literal run of the encoder is copied through. *)
Lemma apply_literals base tgt fuel l : forall pre post buf,
  (length l <= fuel)%nat -> len buf + len l <= tgt -> tgt < 2 ^ 64 ->
  apply_runs base (pre ++ literals_loop fuel l ++ post) tgt (len pre) buf
    (len pre + len (literals_loop fuel l)) (buf ++ l).
Proof.
  revert l. induction fuel as [|fuel IH]; intros l pre post buf Hf Htgt Hmax.
  { destruct l; [|simpl in Hf; lia]. simpl. rewrite app_nil_r, len_nil, Z.add_0_r. constructor. }
  cbn [literals_loop]. case_if.
  { destruct l; [|rewrite len_cons in *; pose proof (len_nonneg l); lia].
    rewrite app_nil_r, (@len_nil Z), Z.add_0_r. constructor. }
  set (run := if len l >? 127 then 127 else len l).
  assert (Hrun : 0 < run <= 127 /\ run <= len l).
  { subst run. pose proof (len_nonneg l). case_if; lia. }
  assert (Hrest : (length (drop (Z.to_nat run) l) <= fuel)%nat).
  { rewrite length_drop. lia. }
  set (head := take (Z.to_nat run) l). set (tl := drop (Z.to_nat run) l) in *.
  assert (Hl : l = head ++ tl) by (symmetry; apply take_drop).
  assert (Hhead : len head = run) by (subst head; rewrite len_take; lia).
  set (lits := literals_loop fuel tl).
  assert (Hsplit : (run :: head ++ lits) ++ post = run :: head ++ lits ++ post)
    by (simpl; by rewrite <- app_assoc).
  rewrite Hsplit. pose proof (len_nonneg pre). pose proof (len_nonneg buf).
  pose proof (len_nonneg lits). pose proof (len_nonneg post). pose proof (len_nonneg tl).
  rewrite Hl, len_app, Hhead in Htgt.
  apply runs_step with (off1 := len pre + 1 + run) (buf1 := buf ++ head); [|lia| |].
  - rewrite len_app, len_cons, !len_app. lia.
  - unfold apply_op. rewrite rd_app_hd. cbn [obind].
    destruct (seven_bits run ltac:(lia)) as (_ & -> & _). cbn [Z.eqb negb].
    if_true. rewrite u64_id by lia.
    rewrite len_app, len_cons, !len_app. do 2 if_false.
    rewrite cons_middle, app_assoc.
    rewrite rdn_app' by len_lia. done.
  - rewrite cons_middle, (app_assoc pre), (app_assoc _ head).
    replace (len pre + 1 + run) with (len ((pre ++ [run]) ++ head))
by len_lia.
    replace (len pre + len (run :: head ++ lits)) with (len ((pre ++ [run]) ++ head) + len lits)
by len_lia.
    rewrite Hl. rewrite (app_assoc buf). apply IH; [done|rewrite len_app; lia|done].
Qed.

(** ** Lemmas: copy ops *)

(** The bytes of [v] that a field list covers. *)
Fixpoint fields_val (l : list (Z * Z)) (v acc : Z) : Z :=
  match l with
  | [] => acc
  | (_, shift) :: l' =>
      fields_val l' v (Z.lor acc (Z.shiftl (Z.land (Z.shiftr v shift) 255) shift))
  end.

(** Reading back the fields the encoder wrote, from an op byte that has
    exactly their flags. *)
Lemma read_fields_copy l v op : forall pre post cmd acc,
  Forall (fun f => 0 <= f.1 /\ Z.testbit op f.1 =
    negb (Z.land (Z.shiftr v f.2) 255 =? 0)) l ->
  read_fields l (pre ++ (copy_fields l v cmd).2 ++ post) op (len pre) acc =
  Ret (fields_val l v acc, len pre + len (copy_fields l v cmd).2).
Proof.
  induction l as [|[bit shift] l IH]; intros pre post cmd acc Hop; simpl.
  { do 2 f_equal. len_lia. }
  inversion Hop as [|? ? [Hbit Ht] Hop']; subst. simpl in Hbit, Ht.
  rewrite land_bit, Ht, negb_involutive by done.
  destruct (Z.land (Z.shiftr v shift) 255 =? 0) eqn:E.
  - simpl_bool. rewrite E, Z.shiftl_0_l, Z.lor_0_r. by apply IH.
  - destruct (copy_fields l v (Z.lor cmd (Z.shiftl 1 bit))) as [cmd' rest] eqn:Ec. simpl.
    pose proof (len_nonneg pre). pose proof (len_nonneg (rest ++ post)).
    rewrite len_app, len_cons. if_false. rewrite rd_app_hd. simpl.
    rewrite cons_middle, app_assoc.
    specialize (IH (pre ++ [Z.land (Z.shiftr v shift) 255]) post
      (Z.lor cmd (Z.shiftl 1 bit)) (Z.lor acc (Z.shiftl (Z.land (Z.shiftr v shift) 255) shift)) Hop').
    rewrite Ec in IH. simpl in IH.
    replace (len pre + 1) with (len (pre ++ [Z.land (Z.shiftr v shift) 255])) by len_lia.
    rewrite IH. do 2 f_equal. len_lia.
Qed.

(** The flags [copy_fields] sets. *)
Lemma copy_fields_cmd l v : forall cmd i, 0 <= i -> Forall (fun f => 0 <= f.1) l ->
  Z.testbit (copy_fields l v cmd).1 i =
  Z.testbit cmd i ||
  existsb (fun f => (f.1 =? i) && negb (Z.land (Z.shiftr v f.2) 255 =? 0)) l.
Proof.
  induction l as [|[bit shift] l IH]; intros cmd i Hi Hl; simpl; [by rewrite orb_false_r|].
  inversion Hl as [|? ? Hb Hl']; subst. simpl in Hb.
  destruct (Z.land (Z.shiftr v shift) 255 =? 0) eqn:E.
  - rewrite IH by done. by rewrite andb_false_r.
  - destruct (copy_fields l v _) as [cmd' rest] eqn:Ec. simpl.
    change cmd' with (cmd', rest).1. rewrite <- Ec, IH by done.
    rewrite Z.lor_spec, Z.shiftl_1_l, Z.pow2_bits_eqb, andb_true_r by done.
    by rewrite orb_assoc.
Qed.

Lemma land255 x : Z.land x 255 = x mod 256.
Proof. apply (land_ones_mod x 8). lia. Qed.

Lemma lor_byte a v n : 0 <= n -> 0 <= v -> a = v mod 2 ^ n ->
  Z.lor a (Z.shiftl (Z.land (Z.shiftr v n) 255) n) = v mod 2 ^ (n + 8).
Proof.
  intros Hn Hv ->. pose proof (Z.pow_pos_nonneg 2 n ltac:(lia) Hn).
  rewrite lor_add_shift by (try done; apply Z.mod_pos_bound; lia).
  rewrite land255, Z.shiftr_div_pow2, Z.pow_add_r by lia. change (2 ^ 8) with 256.
  rewrite Z.rem_mul_r by lia. lia.
Qed.

Lemma off_fields_val v : 0 <= v < 2 ^ 32 -> fields_val off_fields v 0 = v.
Proof.
  intros Hv. unfold off_fields. cbn [fields_val].
  rewrite (lor_byte 0), (lor_byte _ v 8), (lor_byte _ v 16), (lor_byte _ v 24);
    try lia; try reflexivity; [|by rewrite Z.mod_1_r]. apply Z.mod_small. lia.
Qed.

Lemma size_fields_val v : 0 <= v < 2 ^ 24 -> fields_val size_fields v 0 = v.
Proof.
  intros Hv. unfold size_fields. cbn [fields_val].
  rewrite (lor_byte 0), (lor_byte _ v 8), (lor_byte _ v 16);
    try lia; try reflexivity; [|by rewrite Z.mod_1_r]. apply Z.mod_small. lia.
Qed.

Lemma fields_nonneg : Forall (fun f : Z * Z => 0 <= f.1) off_fields /\
  Forall (fun f : Z * Z => 0 <= f.1) size_fields.
Proof. split; repeat constructor; simpl; lia. Qed.

(** A size of 0x10000 is written as no size at all, that is, as zero. *)
Definition copy_sizev (size : Z) : Z := if size =? 0x10000 then 0 else size.

Lemma bgit_delta_copy_eq off size :
  bgit_delta_copy off size =
  (copy_fields size_fields (copy_sizev size) (copy_fields off_fields off 128).1).1
  :: (copy_fields off_fields off 128).2
  ++ (copy_fields size_fields (copy_sizev size) (copy_fields off_fields off 128).1).2.
Proof.
  unfold bgit_delta_copy, copy_sizev. destruct (copy_fields off_fields off 128) as [cmd offs].
  cbn [fst snd]. case_if; [done|]. by destruct (copy_fields size_fields size cmd).
Qed.

Lemma copy_op_flags off sizev :
  let op := (copy_fields size_fields sizev (copy_fields off_fields off 128).1).1 in
  Z.testbit op 7 = true /\
  Forall (fun f => 0 <= f.1 /\ Z.testbit op f.1 =
    negb (Z.land (Z.shiftr off f.2) 255 =? 0)) off_fields /\
  Forall (fun f => 0 <= f.1 /\ Z.testbit op f.1 =
    negb (Z.land (Z.shiftr sizev f.2) 255 =? 0)) size_fields.
Proof.
  destruct fields_nonneg as [Hf1 Hf2].
  repeat split; repeat constructor; cbn [fst snd]; try lia;
    rewrite !copy_fields_cmd by (try done; lia); cbn; rewrite ?orb_false_r; done.
Qed.

Lemma copy_fields_bytes l v cmd : bytes (copy_fields l v cmd).2 /\
  len (copy_fields l v cmd).2 <= len l.
Proof.
  revert cmd. induction l as [|[bit shift] l IH]; intros cmd; simpl; [by repeat constructor|].
  rewrite len_cons. case_if.
  - destruct (IH cmd). split; [done|lia].
  - specialize (IH (Z.lor cmd (Z.shiftl 1 bit))). destruct (copy_fields l v _). simpl in *.
    destruct IH as [IH1 IH2]. split; [|rewrite len_cons; lia]. constructor; [|done].
    rewrite land255. apply Z.mod_pos_bound. lia.
Qed.

Lemma bgit_delta_copy_len off size : 1 <= len (bgit_delta_copy off size) <= 8.
Proof.
  rewrite bgit_delta_copy_eq.
  pose proof (proj2 (copy_fields_bytes off_fields off 128)) as H1.
  pose proof (proj2 (copy_fields_bytes size_fields (copy_sizev size)
    (copy_fields off_fields off 128).1)) as H2.
  change (len off_fields) with 4 in H1. change (len size_fields) with 3 in H2. len_lia.
Qed.

Lemma apply_copy base tgt pre post buf off size :
  0 <= off < 2 ^ 32 -> 0 < size <= 0x10000 -> off + size <= len base ->
  len buf + size <= tgt ->
  apply_op base (pre ++ bgit_delta_copy off size ++ post) tgt (len pre) buf =
  Ret (len pre + len (bgit_delta_copy off size),
       buf ++ take (Z.to_nat size) (drop (Z.to_nat off) base)).
Proof.
  intros Hoff Hsize Hbase Htgt. rewrite bgit_delta_copy_eq. set (sizev := copy_sizev size).
  destruct (copy_op_flags off sizev) as (H7 & Ho & Hs).
  set (op := (copy_fields size_fields sizev _).1) in *.
  set (sizes := (copy_fields size_fields sizev _).2).
  set (offs := (copy_fields off_fields off 128).2).
  unfold apply_op. rewrite <- app_comm_cons, rd_app_hd. cbn [obind].
  change 128 with (Z.shiftl 1 7). rewrite land_bit, H7 by lia. cbn [negb].
  rewrite <- (app_assoc offs), cons_middle, app_assoc.
  replace (len pre + 1) with (len (pre ++ [op])) by len_lia.
  unfold offs at 1. rewrite (read_fields_copy off_fields off op) by done. cbn [obind].
  fold offs. rewrite (app_assoc _ offs), <- len_app.
  unfold sizes at 1. rewrite (read_fields_copy size_fields sizev op) by done. cbn [obind].
  fold sizes. rewrite off_fields_val by lia.
  rewrite size_fields_val by (subst sizev; unfold copy_sizev; case_if; lia).
  replace (if sizev =? 0 then 0x10000 else sizev) with size
    by (subst sizev; unfold copy_sizev; destruct (size =? 0x10000) eqn:E16; simpl_bool;
        [done|case_if; lia]).
  pose proof (len_nonneg buf). do 2 if_false. rewrite rdn_ok by lia. cbn [obind].
  do 2 f_equal. len_lia.
Qed.

(* ------------------------------------------------------------------ *)
(** ** Lemmas: the block index *)

(** What the encoder relies on: every entry of the tables stays inside them,
    and every indexed block lies inside the base. *)
Record index_wf (i : bgit_delta_index) : Prop := {
  wf_mask : 0 <= di_mask i < len (di_heads i);
  wf_heads : Forall (fun h => 0 <= h <= len (di_offs i)) (di_heads i);
  wf_nexts_len : len (di_nexts i) = len (di_offs i);
  wf_nexts : Forall (fun h => 0 <= h <= len (di_offs i)) (di_nexts i);
  wf_offs : Forall (fun o => 0 <= o < 2 ^ 32 /\ o + 16 <= len (di_base i)) (di_offs i)
}.

Lemma rd_Forall (P : Z -> Prop) b i x : Forall P b -> rd b i = Ret x -> P x.
Proof.
  intros Hb [[Hi Hi'] ->]%rd_inv. rewrite Forall_forall in Hb.
  apply Hb, list_elem_of_In, nth_In. unfold len in Hi'. lia.
Qed.

Lemma Forall_insert_nat {A} (P : A -> Prop) l i x : Forall P l -> P x -> Forall P (<[i:=x]> l).
Proof. intros. by apply Forall_insert. Qed.

Lemma len_insert {A} (l : list A) i x : len (<[i:=x]> l) = len l.
Proof. unfold len. by rewrite length_insert. Qed.

Lemma table_loop_ge k t w : 0 < t -> t <= table_loop k t w.
Proof.
  revert t. induction k as [|k IH]; intros t Ht; simpl; [lia|].
  case_if; [|lia]. pose proof (IH (t * 2) ltac:(lia)). lia.
Qed.

(** The loop that fills the index keeps every table entry in range. *)
Lemma index_loop_wf base mask n b : forall heads nexts offs,
  0 <= mask < len heads -> 16 * n <= len base -> Z.of_nat b <= n ->
  len nexts = n -> len offs = n ->
  Forall (fun h => 0 <= h <= n) heads -> Forall (fun h => 0 <= h <= n) nexts ->
  Forall (fun o => 0 <= o < 2 ^ 32 /\ o + 16 <= len base) offs ->
  exists heads' nexts' offs',
    index_loop base mask b (heads, nexts, offs) = Ret (heads', nexts', offs') /\
    len heads' = len heads /\ len nexts' = n /\ len offs' = n /\
    Forall (fun h => 0 <= h <= n) heads' /\ Forall (fun h => 0 <= h <= n) nexts' /\
    Forall (fun o => 0 <= o < 2 ^ 32 /\ o + 16 <= len base) offs'.
Proof.
  induction b as [|b IH]; intros heads nexts offs Hm Hbase Hb Hn Ho Hh Hx Hoffs.
  { exists heads, nexts, offs. auto 8. }
  cbn [index_loop]. unfold index_block. unfold BGIT_DELTA_BLOCK.
  rewrite rdn_ok by lia. cbn [obind].
  set (slot := bgit_delta_slot _ mask).
  assert (Hslot : 0 <= slot < len heads).
  { pose proof (land_le_r (Z.lxor (bgit_delta_hash (take (Z.to_nat 16) (drop (Z.to_nat (Z.of_nat b * 16)) base)))
      (Z.shiftr (bgit_delta_hash (take (Z.to_nat 16) (drop (Z.to_nat (Z.of_nat b * 16)) base))) 15)) mask).
    subst slot. unfold bgit_delta_slot. lia. }
  destruct (rd heads slot) as [head| |] eqn:Er; try (rewrite rd_ok in Er by lia; done).
  cbn [obind]. pose proof (rd_Forall _ _ _ _ Hh Er) as Hhead. simpl in Hhead.
  assert (Hu : forall z, 0 <= z -> 0 <= u32 z <= z).
  { intros z Hz. unfold u32. split; [apply Z.mod_pos_bound; lia|apply Z.mod_le; lia]. }
  destruct (IH (<[Z.to_nat slot := u32 (u32 (Z.of_nat b) + 1)]> heads)
    (<[Z.to_nat (Z.of_nat b) := head]> nexts)
    (<[Z.to_nat (Z.of_nat b) := u32 (Z.of_nat b * 16)]> offs))
    as (h' & n' & o' & E & H1 & H2 & H3 & H4 & H5 & H6);
    rewrite ?len_insert in *; try done; try lia; [..|exists h', n', o'; auto 8].
  - apply Forall_insert_nat; [done|]. pose proof (Hu (Z.of_nat b)). pose proof (Hu (u32 (Z.of_nat b) + 1)). lia.
  - by apply Forall_insert_nat.
  - apply Forall_insert_nat; [done|]. pose proof (Hu (Z.of_nat b * 16)).
    pose proof (u32_range (Z.of_nat b * 16)). lia.
Qed.

Lemma index_create_wf base : 16 <= len base ->
  exists i, bgit_delta_index_create base = Ret (Some i) /\ index_wf i /\ di_base i = base.
Proof.
  intros Hb. unfold bgit_delta_index_create, BGIT_DELTA_BLOCK. if_false.
  set (n := len base / 16). set (table := Z.min _ _).
  assert (Ht : 1 <= table <= 2 ^ 24).
  { subst table. pose proof (table_loop_ge 64 1 (n * 2) ltac:(lia)). lia. }
  assert (Hn : 1 <= n /\ 16 * n <= len base) by (subst n; ar).
  rewrite u32_id by lia.
  destruct (index_loop_wf base (table - 1) n (Z.to_nat n) (replicate (Z.to_nat table) 0)
    (replicate (Z.to_nat n) 0) (replicate (Z.to_nat n) 0)) as
    (h & x & o & E & H1 & H2 & H3 & H4 & H5 & H6);
    try (rewrite len_replicate; lia); try lia; try (apply Forall_replicate; lia).
  rewrite E. cbn [obind]. eexists. split; [done|]. split; [|done].
  rewrite len_replicate in H1. constructor; simpl; try rewrite H3; try done; lia.
Qed.

(* ------------------------------------------------------------------ *)
(** ** Lemmas: the encoder *)

(** The run of length [l] at [o] in the base is the one at [at_] in the target. *)
Definition match_ok (base target : list Z) (at_ o l : Z) : Prop :=
  16 <= l <= 0x10000 /\ 0 <= o < 2 ^ 32 /\ o + l <= len base /\ at_ + l <= len target /\
  take (Z.to_nat l) (drop (Z.to_nat o) base) = take (Z.to_nat l) (drop (Z.to_nat at_) target).

Lemma rd_lookup b i x : rd b i = Ret x -> 0 <= i /\ b !! Z.to_nat i = Some x.
Proof.
  intros [Hi ->]%rd_inv. split; [lia|].
  rewrite (nth_lookup b (Z.to_nat i) 0).
  destruct (lookup_lt_is_Some_2 b (Z.to_nat i)) as [x Hx]; [unfold len in Hi; lia|].
  by rewrite Hx.
Qed.

Lemma extend_ok fuel base target off at_ : forall run, 0 <= at_ ->
  match_ok base target at_ off run ->
  exists run', extend_loop fuel base target off at_ run = Ret run' /\
    match_ok base target at_ off run'.
Proof.
  induction fuel as [|fuel IH]; intros run Ha Hm; cbn [extend_loop]; [eauto|].
  case_if; [|eauto]. pose proof Hm as (Hr & Ho & Hb & Ht & E).
  destruct (rd base (off + run)) as [x| |] eqn:Ex; try (rewrite rd_ok in Ex by lia; done).
  destruct (rd target (at_ + run)) as [y| |] eqn:Ey; try (rewrite rd_ok in Ey by lia; done).
  cbn [obind]. case_if; [|eauto].
  subst y. apply rd_lookup in Ex as [_ Ex], Ey as [_ Ey]. apply IH; [done|].
  repeat split; try lia. replace (Z.to_nat (run + 1)) with (S (Z.to_nat run)) by lia.
  rewrite !(take_S_r _ _ x), E; [done|rewrite lookup_drop..].
  - rewrite <- Ey. f_equal. lia.
  - rewrite <- Ex. f_equal. lia.
Qed.

Lemma chain_ok looked i target at_ : index_wf i -> 0 <= at_ -> at_ + 16 <= len target ->
  forall b bo bl, 0 <= b <= len (di_offs i) ->
  (bl = 0 \/ match_ok (di_base i) target at_ bo bl) ->
  exists o l, chain_loop looked i target at_ b bo bl = Ret (o, l) /\
    (l = 0 \/ match_ok (di_base i) target at_ o l).
Proof.
  intros Hwf Ha Ht. induction looked as [|looked IH]; intros b bo bl Hb Hbest;
    cbn [chain_loop]; [eauto|].
  case_if; [eauto|].
  destruct (rd (di_offs i) (b - 1)) as [off| |] eqn:Eo; try (rewrite rd_ok in Eo by lia; done).
  pose proof (rd_Forall _ _ _ _ (wf_offs i Hwf) Eo) as [Ho1 Ho2].
  pose proof (wf_nexts_len i Hwf).
  destruct (rd (di_nexts i) (b - 1)) as [next| |] eqn:En; try (rewrite rd_ok in En by lia; done).
  pose proof (rd_Forall _ _ _ _ (wf_nexts i Hwf) En) as Hn. simpl in Hn.
  cbn [obind]. unfold BGIT_DELTA_BLOCK. rewrite !rdn_ok by lia. cbn [obind].
  destruct (beq _ _) eqn:Eb; simpl_bool; cbn [negb]; [|by apply IH].
  destruct (extend_ok (length target) (di_base i) target off at_ 16) as (run & -> & Hrun);
    [done|by repeat split; try lia|].
  cbn [obind]. case_if; [|by apply IH].
  case_if; [eauto|]. apply IH; auto.
Qed.

Lemma literals_loop_len fuel l : (length l <= fuel)%nat ->
  len l <= len (literals_loop fuel l) <= 2 * len l.
Proof.
  revert l. induction fuel as [|fuel IH]; intros l Hf; cbn [literals_loop].
  { destruct l; [|simpl in Hf; lia]. unfold len; simpl; lia. }
  case_if; [unfold len in *; simpl; lia|].
  set (run := if len l >? 127 then 127 else len l).
  assert (0 < run <= len l) by (subst run; pose proof (len_nonneg l); case_if; lia).
  specialize (IH (drop (Z.to_nat run) l)). rewrite length_drop, len_drop in IH.
  rewrite len_cons, len_app, len_take. unfold len in *. lia.
Qed.

(** What holds between rounds: the delta so far, read by the decoder, gives
    the part of the target before the pending bytes. *)
Record enc_inv (base target hdr : list Z) (st : delta_state) : Prop := {
  inv_at : 0 <= ds_at st <= len target;
  inv_pending : 0 <= ds_pending st <= ds_at st;
  inv_len : len (ds_delta st) + 2 * ds_pending st <= len hdr + 2 * ds_at st;
  inv_hdr : hdr `prefix_of` ds_delta st;
  inv_ceiling : ds_at st - ds_pending st <= len (ds_delta st) * delta_max_copy base;
  inv_runs : forall post,
    apply_runs base (ds_delta st ++ post) (len target) (len hdr) [] (len (ds_delta st))
      (take (Z.to_nat (ds_at st - ds_pending st)) target)
}.

Lemma delta_max_copy_ge base n : 1 <= n <= 0xffffff -> n <= len base ->
  n <= delta_max_copy base.
Proof. intros. unfold delta_max_copy. repeat case_if; lia. Qed.

Lemma delta_max_copy_pos base : 1 <= delta_max_copy base.
Proof. unfold delta_max_copy. repeat case_if; lia. Qed.

(** Writing out the pending bytes. *)
Lemma enc_flush base target hdr st : len target < 2 ^ 64 -> enc_inv base target hdr st ->
  exists lits,
    rdn target (ds_at st - ds_pending st) (ds_pending st) = Ret lits /\
    ds_pending st <= len (bgit_delta_literals lits) <= 2 * ds_pending st /\
    forall post,
      apply_runs base ((ds_delta st ++ bgit_delta_literals lits) ++ post) (len target)
        (len hdr) [] (len (ds_delta st ++ bgit_delta_literals lits))
        (take (Z.to_nat (ds_at st)) target).
Proof.
  intros Hmax [Hat Hpend Hlen Hhdr Hceil Hruns].
  set (a := ds_at st - ds_pending st). set (p := ds_pending st) in *.
  rewrite rdn_ok by lia. eexists. split; [done|].
  set (lits := take (Z.to_nat p) (drop (Z.to_nat a) target)).
  assert (Hl : len lits = p) by (subst lits; rewrite len_take, len_drop; lia).
  split; [pose proof (literals_loop_len (length lits) lits (le_n _));
    unfold bgit_delta_literals in *; lia|].
  intros post. rewrite len_app, <- app_assoc.
  eapply apply_runs_trans; [apply Hruns|]. fold a.
  replace (take (Z.to_nat (ds_at st)) target) with (take (Z.to_nat a) target ++ lits);
    [|subst lits; rewrite take_take_drop; f_equal; lia].
  apply apply_literals; [lia| |done]. rewrite Hl, len_take. lia.
Qed.

Lemma delta_step_ok i target max hdr st :
  index_wf i -> len target < 2 ^ 64 -> enc_inv (di_base i) target hdr st ->
  ds_at st < len target ->
  (delta_step i target max st = failed /\ max < len hdr + 2 * len target) \/
  (exists st', delta_step i target max st = Ret st' /\
     enc_inv (di_base i) target hdr st' /\ ds_at st < ds_at st').
Proof.
  intros Hwf Hmax Hinv Hlt. pose proof Hinv as [Hat Hpend Hlen Hhdr Hceil Hruns].
  unfold delta_step. unfold BGIT_DELTA_BLOCK.
  set (found := if _ <=? len target then _ else _).
  assert (Hfound : exists hash rolling o l, found = Ret (hash, rolling, (o, l)) /\
    (l = 0 \/ match_ok (di_base i) target (ds_at st) o l)).
  { subst found. case_if; [|eauto 8].
    set (h := if ds_rolling st then _ else _).
    assert (exists hash, h = Ret hash) as [hash ->].
    { subst h. destruct (ds_rolling st); [eauto|]. rewrite rdn_ok by lia. eauto. }
    cbn [obind]. destruct (wf_mask i Hwf).
    assert (Hs : 0 <= bgit_delta_slot hash (di_mask i) < len (di_heads i)).
    { unfold bgit_delta_slot. pose proof (land_le_r (Z.lxor hash (Z.shiftr hash 15)) (di_mask i)). lia. }
    destruct (rd _ _) as [head| |] eqn:Eh; try (rewrite rd_ok in Eh by lia; done).
    pose proof (rd_Forall _ _ _ _ (wf_heads i Hwf) Eh) as Hh. simpl in Hh. cbn [obind].
    destruct (chain_ok 64 i target (ds_at st) Hwf ltac:(lia) ltac:(lia) head 0 0 Hh)
      as (o & l & -> & Hm); [by left|]. cbn [obind]. eauto 8. }
  destruct Hfound as (hash & rolling & o & l & -> & Hm). cbn [obind].
  destruct (l <? 16) eqn:El; simpl_bool.
  - set (rolled := if _ <? len target then _ else _).
    assert (exists h r, rolled = Ret (h, r)) as (h & r & ->).
    { subst rolled. case_if; [|eauto]. rewrite !rd_ok by lia. cbn [obind]. eauto. }
    cbn [obind]. case_if; [left; split; [done|lia]|].
    right. eexists. split; [done|]. split; [|simpl; lia]. constructor; simpl; try lia; [done|].
    intros post. replace (_ + 1 - (_ + 1)) with (ds_at st - ds_pending st) by lia. apply Hruns.
  - destruct Hm as [->|(Hl & Ho & Hb & Ht & E)]; [lia|].
    destruct (enc_flush _ _ _ _ Hmax Hinv) as (lits & -> & Hll & Hrl). cbn [obind].
    pose proof (bgit_delta_copy_len o l). rewrite app_assoc.
    case_if; [left; split; [done|]; rewrite !len_app in *; lia|].
    right. eexists. split; [done|]. split; [|simpl; lia]. constructor; simpl; try lia.
    { rewrite !len_app in *. lia. }
    { by do 2 apply prefix_app_r. }
    { pose proof (delta_max_copy_pos (di_base i)).
      pose proof (delta_max_copy_ge (di_base i) l). rewrite !len_app. nia. }
    intros post. rewrite <- (app_assoc _ _ post).
    eapply apply_runs_trans; [apply Hrl|]. rewrite (len_app _ (bgit_delta_copy o l)).
    eapply runs_step; [..|apply apply_copy|].
    + rewrite !len_app. pose proof (len_nonneg post). lia.
    + lia.
    + lia.
    + lia.
    + lia.
    + rewrite len_take. lia.
    + rewrite E, take_take_drop. replace (Z.to_nat (ds_at st) + Z.to_nat l)%nat
        with (Z.to_nat (ds_at st + l - 0)) by lia. constructor.
Qed.

Lemma delta_loop_ok fuel i target max hdr : index_wf i -> len target < 2 ^ 64 ->
  forall st, enc_inv (di_base i) target hdr st -> len target - ds_at st <= Z.of_nat fuel ->
  (delta_loop fuel i target max st = failed /\ max < len hdr + 2 * len target) \/
  (exists st', delta_loop fuel i target max st = Ret st' /\
     enc_inv (di_base i) target hdr st' /\ ds_at st' = len target).
Proof.
  intros Hwf Hmax. induction fuel as [|fuel IH]; intros st Hinv Hf; cbn [delta_loop];
    pose proof (inv_at _ _ _ _ Hinv).
  { right. exists st. split; [done|]. split; [done|lia]. }
  case_if; [|right; exists st; split; [done|]; split; [done|lia]].
  destruct (delta_step_ok i target max hdr st) as [[-> ?]|(st' & -> & Hinv' & Hlt)];
    try done; [by left|]. cbn [obind]. apply IH; [done|lia].
Qed.

(** The decoder on a header, then rounds that reach the end of the delta. *)
Lemma apply_delta_runs base target d body :
  d = bgit_delta_size (len base) ++ bgit_delta_size (len target) ++ body ->
  len base < 2 ^ 64 -> len target < 2 ^ 64 ->
  len target <= len d * delta_max_copy base ->
  apply_runs base d (len target)
    (len (bgit_delta_size (len base) ++ bgit_delta_size (len target))) [] (len d) target ->
  bgit_pack_apply_delta base d = Ret target.
Proof.
  intros Hd Hb Ht Hc Hr. unfold bgit_pack_apply_delta.
  pose proof (len_nonneg base). pose proof (len_nonneg target).
  pose proof (delta_size_read [] (len base) (bgit_delta_size (len target) ++ body)) as E1.
  change (len []) with 0 in E1. cbn [app] in E1. rewrite <- Hd in E1.
  rewrite E1 by lia. cbn [obind]. rewrite Z.add_0_l.
  pose proof (delta_size_read (bgit_delta_size (len base)) (len target) body) as E2.
  rewrite <- Hd, <- len_app in E2. rewrite E2 by lia. cbn [obind].
  rewrite Z.eqb_refl. cbn [negb]. unfold SIZE_MAX in *. if_false.
  replace (_ >? _) with false.
  2: { symmetry. rewrite Z.gtb_ltb. apply Z.ltb_ge. case_if; lia. }
  rewrite (apply_runs_loop _ _ _ _ _ target) by (try done; unfold len; lia).
  cbn [obind]. by rewrite Z.eqb_refl.
Qed.

Lemma delta_create_ok i target max : index_wf i ->
  len (di_base i) < 2 ^ 64 -> len target < 2 ^ 64 ->
  (bgit_delta_create (Some i) target max = failed /\ max < 20 + 2 * len target) \/
  (exists d, bgit_delta_create (Some i) target max = Ret d /\ len d <= max /\
     bgit_pack_apply_delta (di_base i) d = Ret target).
Proof.
  intros Hwf Hb Ht. unfold bgit_delta_create.
  set (hdr := bgit_delta_size _ ++ bgit_delta_size _).
  assert (Hhdr : len hdr <= 20).
  { subst hdr. rewrite len_app. unfold bgit_delta_size.
    pose proof (delta_size_loop_len 16 10 (len (di_base i))).
    pose proof (delta_size_loop_len 16 10 (len target)).
    pose proof (len_nonneg (di_base i)). pose proof (len_nonneg target). lia. }
  destruct (delta_loop_ok (length target) i target max hdr Hwf Ht
    {| ds_delta := hdr; ds_at := 0; ds_pending := 0; ds_hash := 0; ds_rolling := false |})
    as [[-> Hlim]|(st & -> & Hinv & Hat)].
  - pose proof (len_nonneg target). pose proof (len_nonneg hdr).
    pose proof (delta_max_copy_pos (di_base i)).
    constructor; simpl; [lia..|done|nia|]. intros post. rewrite take_0. constructor.
  - unfold len. simpl. lia.
  - left. split; [done|lia].
  - cbn [obind].
    destruct (enc_flush _ _ _ _ Ht Hinv) as (lits & -> & Hl & Hr). cbn [obind].
    pose proof Hinv as [_ Hpend Hlen [body Hpre] Hceil _].
    case_if; [left; split; [done|rewrite len_app in *; lia]|].
    right. eexists. split; [done|]. split; [done|].
    eapply (apply_delta_runs _ _ _ (body ++ bgit_delta_literals lits)); [|lia..| |].
    + rewrite Hpre. subst hdr. by rewrite <- !app_assoc.
    + pose proof (delta_max_copy_pos (di_base i)). rewrite len_app. nia.
    + specialize (Hr []). rewrite app_nil_r, Hat, take_ge in Hr by (unfold len; lia). done.
Qed.

(* ------------------------------------------------------------------ *)
(** ** Lemmas: the decoder on any input *)

Lemma varint_yields k p : forall off v shift, bytes p -> 0 <= off -> 0 <= v < 2 ^ 64 ->
  yields (fun r => off < r.2 <= len p /\ 0 <= r.1 < 2 ^ 64) (varint_loop k p off v shift).
Proof.
  induction k as [|k IH]; intros off v shift Hp Ho Hv; cbn [varint_loop]; [done|].
  case_if; [|done]. eapply yields_bind; [apply yields_rd; [done|lia|intros x Hx; exact Hx]|].
  intros b Hb. cbv beta in Hb. case_if; [done|].
  pose proof (lor_lt_pow2 v _ 64 ltac:(lia) Hv (u64_range (Z.shiftl (Z.land b 127) shift))).
  case_if; [simpl; lia|]. eapply yields_impl; [apply IH; try done; lia|]. simpl. lia.
Qed.

Lemma read_fields_yields l delta op : forall off acc, bytes delta -> 0 <= off <= len delta ->
  0 <= acc -> Forall (fun f => 0 <= f.2) l ->
  yields (fun r => 0 <= r.1 /\ off <= r.2 <= len delta) (read_fields l delta op off acc).
Proof.
  induction l as [|[bit shift] l IH]; intros off acc Hd Ho Ha Hl; cbn [read_fields]; [simpl; lia|].
  inversion Hl as [|? ? Hs Hl']; subst. simpl in Hs.
  case_if; [by apply IH|]. case_if; [done|].
  eapply yields_bind; [apply yields_rd; [done|lia|intros x Hx; exact Hx]|].
  intros b [Hb _]. eapply yields_impl; [apply IH; try done; try lia|simpl; lia].
  apply Z.lor_nonneg. split; [done|]. by apply Z.shiftl_nonneg.
Qed.

Lemma apply_op_yields base delta tgt off buf : bytes delta -> 0 <= off < len delta ->
  0 <= tgt < 2 ^ 64 -> len buf <= tgt ->
  yields (fun r => off < r.1 <= len delta /\ len r.2 <= tgt) (apply_op base delta tgt off buf).
Proof.
  intros Hd Ho Ht Hb. unfold apply_op. pose proof (len_nonneg buf).
  assert (Hf1 : Forall (fun f : Z * Z => 0 <= f.2) off_fields) by (repeat constructor; simpl; lia).
  assert (Hf2 : Forall (fun f : Z * Z => 0 <= f.2) size_fields) by (repeat constructor; simpl; lia).
  eapply yields_bind; [apply yields_rd; [done|lia|intros x Hx; exact Hx]|].
  intros op Hop. unfold is_byte in Hop. case_if.
  - eapply yields_bind; [apply read_fields_yields; try done; lia|].
    intros [co o1] (Hco & Ho1). simpl in Hco, Ho1.
    eapply yields_bind; [apply read_fields_yields; try done; lia|].
    intros [cs o2] (Hcs & Ho2). simpl in Hcs, Ho2.
    set (size := if cs =? 0 then 0x10000 else cs).
    assert (0 < size) by (subst size; case_if; lia).
    do 2 (case_if; [done|]).
    eapply yields_bind; [apply yields_rdn; [lia..|intros x Hx; exact Hx]|].
    intros run Hrun. simpl in Hrun |- *. rewrite len_app. lia.
  - case_if; [|done]. do 2 (case_if; [done|]). rewrite u64_id in * by lia.
    eapply yields_bind; [apply yields_rdn; [lia..|intros x Hx; exact Hx]|].
    intros run Hrun. simpl in Hrun |- *. rewrite len_app. lia.
Qed.

Lemma apply_loop_yields fuel base delta tgt : bytes delta -> 0 <= tgt < 2 ^ 64 ->
  forall off buf, 0 <= off -> len buf <= tgt ->
  yields (fun out => len out <= tgt) (apply_loop fuel base delta tgt off buf).
Proof.
  intros Hd Ht. induction fuel as [|fuel IH]; intros off buf Ho Hb; cbn [apply_loop]; [done|].
  case_if; [|done]. eapply yields_bind; [apply apply_op_yields; try done; lia|].
  intros [o b] [H1 H2]. simpl in H1, H2. apply IH; lia.
Qed.

Lemma apply_delta_yields base delta : bytes delta ->
  yields (fun out => len out <= len delta * delta_max_copy base)
    (bgit_pack_apply_delta base delta).
Proof.
  intros Hd. unfold bgit_pack_apply_delta, bgit_pack_read_varint.
  eapply yields_bind; [apply varint_yields; try done; lia|]. intros [src o1] [H1 H2].
  simpl in H1, H2. eapply yields_bind; [apply varint_yields; try done; lia|].
  intros [tgt o2] [H3 H4]. simpl in H3, H4. do 2 (case_if; [done|]).
  destruct (tgt >? _) eqn:Ec; [done|]. simpl_bool.
  eapply yields_bind; [apply apply_loop_yields; try done; unfold len; simpl; lia|].
  intros out Hout. case_if; [done|]. simpl.
  pose proof (delta_max_copy_pos base). unfold SIZE_MAX in *.
  case_if_in Ec; [|lia].
  assert (2 ^ 64 - 1 < len delta * delta_max_copy base); [|lia].
  pose proof (Z.mul_succ_div_gt (2 ^ 64 - 1) (delta_max_copy base) ltac:(lia)). nia.
Qed.

(** ** Lemmas: the rolling hash *)

(** The hash as a polynomial in 33. *)
Fixpoint poly33 (acc : Z) (l : list Z) : Z :=
  match l with [] => acc | b :: l' => poly33 (acc * 33 + b) l' end.

Lemma u32_poly acc b : u32 (u32 acc * 33 + b) = u32 (acc * 33 + b).
Proof. unfold u32. rewrite <- Zplus_mod_idemp_l, Zmult_mod_idemp_l, Zplus_mod_idemp_l. done. Qed.

Lemma delta_hash_poly l acc : foldl (fun hash b => u32 (hash * 33 + b)) (u32 acc) l = u32 (poly33 acc l).
Proof.
  revert acc. induction l as [|b l IH]; intros acc; simpl; [done|].
  by rewrite u32_poly, IH.
Qed.

Lemma poly33_split acc l : poly33 acc l = acc * 33 ^ len l + poly33 0 l.
Proof.
  revert acc. induction l as [|b l IH]; intros acc; simpl; [rewrite (@len_nil Z); lia|].
  rewrite IH, (IH (0 * 33 + b)), len_cons.
  pose proof (len_nonneg l). rewrite Z.pow_add_r by lia. ring.
Qed.

Lemma poly33_snoc acc l b : poly33 acc (l ++ [b]) = poly33 acc l * 33 + b.
Proof. revert acc. induction l as [|x l IH]; intros acc; simpl; [done|]. apply IH. Qed.

(** Dropping the oldest byte of a sixteen-byte window. *)
Lemma poly33_drop out l inn : len l = 15 ->
  u32 (u32 (u32 (poly33 0 (out :: l)) - u32 (out * BGIT_DELTA_POW)) * 33 + inn) =
  u32 (poly33 0 (l ++ [inn])).
Proof.
  intros Hl. rewrite u32_poly, poly33_snoc. cbn [poly33].
  rewrite poly33_split, Hl.
  assert (Hp : BGIT_DELTA_POW = 33 ^ 15 mod 2 ^ 32) by (vm_compute; reflexivity).
  rewrite Hp. unfold u32.
  rewrite <- (Zplus_mod_idemp_l (_ * 33)), <- Zmult_mod_idemp_l.
  rewrite <- Zminus_mod, Zminus_mod, Zmult_mod_idemp_r, <- Zminus_mod.
  replace ((0 * 33 + out) * 33 ^ 15 + poly33 0 l - out * 33 ^ 15) with (poly33 0 l) by ring.
  by rewrite Zmult_mod_idemp_l, Zplus_mod_idemp_l.
Qed.

(* ------------------------------------------------------------------ *)
(** ** Properties *)

(** [C1]  Whatever the encoder returns, the decoder turns back into the target:
    for a base of at least one block, the index is built, and a delta made
    from it is no longer than the limit it was given and applies to the base
    to give exactly the target. *)
Theorem delta_roundtrip (base target : list Z) max index d :
  len base < 2 ^ 64 -> len target < 2 ^ 64 ->
  bgit_delta_index_create base = Ret index ->
  bgit_delta_create index target max = Ret d ->
  len d <= max /\ bgit_pack_apply_delta base d = Ret target.
Proof.
  intros Hb Ht Hi Hd.
  destruct (Z.lt_ge_cases (len base) 16) as [Hs|Hs].
  { unfold bgit_delta_index_create, BGIT_DELTA_BLOCK in Hi. revert Hi. if_true.
    intros [= <-]. done. }
  destruct (index_create_wf base Hs) as (i & Hi' & Hwf & <-).
  rewrite Hi' in Hi. injection Hi as <-.
  destruct (delta_create_ok i target max Hwf Hb Ht) as [[E _]|(d' & E & Hl & Ha)];
    rewrite E in Hd; simplify_eq. done.
Qed.

(**  The encoder does not give up without cause: with a base of at least
    one block and a limit of twice the target plus twenty bytes it always
    produces a delta, after no access outside its tables. *)
Theorem delta_create_succeeds (base target : list Z) max :
  16 <= len base < 2 ^ 64 -> len target < 2 ^ 64 -> 20 + 2 * len target <= max ->
  exists index d, bgit_delta_index_create base = Ret (Some index) /\
    bgit_delta_create (Some index) target max = Ret d.
Proof.
  intros Hb Ht Hm. destruct (index_create_wf base) as (i & Hi & Hwf & <-); [lia|].
  exists i. destruct (delta_create_ok i target max Hwf) as [[_ ?]|(d & E & _)]; [lia..|].
  eauto.
Qed.

(** [C2]  A hostile delta cannot make the decoder read outside the base or the
    delta, nor return more than a bounded multiple of the delta's length. *)
Theorem apply_delta_safe (base delta : list Z) : bytes delta ->
  safe (bgit_pack_apply_delta base delta) /\
  forall out, bgit_pack_apply_delta base delta = Ret out ->
    len out <= len delta * delta_max_copy base.
Proof.
  intros Hd. pose proof (apply_delta_yields base delta Hd) as H. split.
  - by eapply yields_safe.
  - intros out E. by rewrite E in H.
Qed.

(**  Rolling the hash forward by one byte gives the hash of the next
    sixteen-byte window, so the encoder looks in the same slot it would look
    in if it hashed every window afresh. *)
Theorem delta_roll_correct (out inn : Z) (window : list Z) : len window = 15 ->
  delta_roll (bgit_delta_hash (out :: window)) out inn = bgit_delta_hash (window ++ [inn]).
Proof.
  intros Hl. unfold delta_roll, bgit_delta_hash. change 0 with (u32 0) at 1 2.
  rewrite !delta_hash_poly. by apply poly33_drop.
Qed.

(* ------------------------------------------------------------------ *)
(** ** Witnesses *)

Definition demo_base : list Z := str "The quick brown fox jumps over the lazy dog.".
Definition demo_target : list Z := str "My quick brown fox jumps over the lazy cat!".

Definition demo_index : bgit_delta_index :=
  match bgit_delta_index_create demo_base with
  | Ret (Some i) => i
  | _ => {| di_base := []; di_mask := 0; di_heads := []; di_nexts := []; di_offs := [] |}
  end.
Definition demo_delta : list Z :=
  match bgit_delta_create (Some demo_index) demo_target 40 with Ret d => d | _ => [] end.

Lemma delta_roundtrip_witness :
  len demo_delta <= 40 /\ bgit_pack_apply_delta demo_base demo_delta = Ret demo_target.
Proof.
  apply (delta_roundtrip demo_base demo_target 40 (Some demo_index) demo_delta);
    vm_compute; reflexivity.
Defined.

Lemma delta_create_succeeds_witness :
  exists index d, bgit_delta_index_create demo_base = Ret (Some index) /\
    bgit_delta_create (Some index) demo_target 200 = Ret d.
Proof.
  apply (delta_create_succeeds demo_base demo_target 200);
    [split; vm_compute; [discriminate|reflexivity]|vm_compute; reflexivity|vm_compute; discriminate].
Defined.

Lemma apply_delta_safe_witness :
  safe (bgit_pack_apply_delta demo_base [44; 10; 0x91; 40; 200]) /\
  forall out, bgit_pack_apply_delta demo_base [44; 10; 0x91; 40; 200] = Ret out ->
    len out <= len [44; 10; 0x91; 40; 200] * delta_max_copy demo_base.
Proof.
  apply (apply_delta_safe demo_base [44; 10; 0x91; 40; 200]).
  repeat constructor; vm_compute; try discriminate; reflexivity.
Defined.

Lemma delta_roll_witness :
  delta_roll (bgit_delta_hash (7 :: replicate 15 9)) 7 5 = bgit_delta_hash (replicate 15 9 ++ [5]).
Proof. apply (delta_roll_correct 7 5 (replicate 15 9)). reflexivity. Defined.
