(* ===== verification/Sha1.v ===== *)
(** * The index's own SHA-1 (loadables/_git/index.c, lines 140-208)

    The trailer of an index is computed by a plain SHA-1 whose message
    schedule lives in a rolling window of sixteen words and whose rounds rotate
    the names of the five working variables instead of moving their values.
    Both are modelled as written; the theorem at the end shows that they
    compute the function FIPS 180-4 defines with eighty schedule words and
    moving values. *)

From S2P Require Import Prelude Endian.
#[local] Open Scope Z_scope.

(* ------------------------------------------------------------------ *)
(** ** The code *)

Definition BGIT_ROL32 (x n : Z) : Z := u32 (Z.lor (Z.shiftl x n) (Z.shiftr x (32 - n))).

(** [w[i]] for an index the code masks with 15 or keeps below 16. *)
Definition word_at (w : list Z) (i : Z) : Z := nth (Z.to_nat i) w 0.

(** [BGIT_SHA1_W (t)]: the new word, and the window that holds it. *)
Definition BGIT_SHA1_W (w : list Z) (t : Z) : Z * list Z :=
  let x := BGIT_ROL32
    (Z.lxor (Z.lxor (Z.lxor (word_at w (Z.land (t + 13) 15)) (word_at w (Z.land (t + 8) 15)))
                    (word_at w (Z.land (t + 2) 15)))
            (word_at w (Z.land t 15))) 1 in
  (x, <[Z.to_nat (Z.land t 15) := x]> w).

Definition BGIT_SHA1_F1 (b c d : Z) : Z := Z.lxor d (Z.land b (Z.lxor c d)).
Definition BGIT_SHA1_F2 (b c d : Z) : Z := Z.lxor (Z.lxor b c) d.
Definition BGIT_SHA1_F3 (b c d : Z) : Z := Z.lor (Z.land b c) (Z.land d (Z.lor b c)).

(** What one round leaves in the five variables it is given: [e] is added to
    and [b] rotated, in place. *)
Definition BGIT_SHA1_STEP (a b c d e f k x : Z) : Z * Z * Z * Z * Z :=
  (a, BGIT_ROL32 b 30, c, d, u32 (e + u32 (u32 (u32 (BGIT_ROL32 a 5 + f) + k) + x))).

(** A round macro: the five variables in the order of its arguments, the
    window, and the round number. *)
Definition round_macro : Type :=
  Z -> Z -> Z -> Z -> Z -> list Z -> Z -> Z * Z * Z * Z * Z * list Z.

Definition BGIT_SHA1_R0 : round_macro := fun a b c d e w t =>
  (BGIT_SHA1_STEP a b c d e (BGIT_SHA1_F1 b c d) 0x5A827999 (word_at w t), w).

Definition BGIT_SHA1_R1 : round_macro := fun a b c d e w t =>
  let '(x, w) := BGIT_SHA1_W w t in
  (BGIT_SHA1_STEP a b c d e (BGIT_SHA1_F1 b c d) 0x5A827999 x, w).

Definition BGIT_SHA1_R2 : round_macro := fun a b c d e w t =>
  let '(x, w) := BGIT_SHA1_W w t in
  (BGIT_SHA1_STEP a b c d e (BGIT_SHA1_F2 b c d) 0x6ED9EBA1 x, w).

Definition BGIT_SHA1_R3 : round_macro := fun a b c d e w t =>
  let '(x, w) := BGIT_SHA1_W w t in
  (BGIT_SHA1_STEP a b c d e (BGIT_SHA1_F3 b c d) 0x8F1BBCDC x, w).

Definition BGIT_SHA1_R4 : round_macro := fun a b c d e w t =>
  let '(x, w) := BGIT_SHA1_W w t in
  (BGIT_SHA1_STEP a b c d e (BGIT_SHA1_F2 b c d) 0xCA62C1D6 x, w).

(** The variables of the block loop. *)
Definition vars : Type := Z * Z * Z * Z * Z * list Z.

(** Five rounds, after which the names are back in their places. *)
Definition BGIT_SHA1_FIVE (R : round_macro) (t : Z) (s : vars) : vars :=
  let '(a, b, c, d, e, w) := s in
  let '(a, b, c, d, e, w) := R a b c d e w t in
  let '(e, a, b, c, d, w) := R e a b c d w (t + 1) in
  let '(d, e, a, b, c, w) := R d e a b c w (t + 2) in
  let '(c, d, e, a, b, w) := R c d e a b w (t + 3) in
  let '(b, c, d, e, a, w) := R b c d e a w (t + 4) in
  (a, b, c, d, e, w).

(** Rounds 15 to 19, where the window starts to be rewritten. *)
Definition rounds_15_19 (s : vars) : vars :=
  let '(a, b, c, d, e, w) := s in
  let '(a, b, c, d, e, w) := BGIT_SHA1_R0 a b c d e w 15 in
  let '(e, a, b, c, d, w) := BGIT_SHA1_R1 e a b c d w 16 in
  let '(d, e, a, b, c, w) := BGIT_SHA1_R1 d e a b c w 17 in
  let '(c, d, e, a, b, w) := BGIT_SHA1_R1 c d e a b w 18 in
  let '(b, c, d, e, a, w) := BGIT_SHA1_R1 b c d e a w 19 in
  (a, b, c, d, e, w).

(** The eighty rounds of one block. *)
Definition block_rounds (s : vars) : vars :=
  let s := BGIT_SHA1_FIVE BGIT_SHA1_R0 0 s in
  let s := BGIT_SHA1_FIVE BGIT_SHA1_R0 5 s in
  let s := BGIT_SHA1_FIVE BGIT_SHA1_R0 10 s in
  let s := rounds_15_19 s in
  let s := BGIT_SHA1_FIVE BGIT_SHA1_R2 20 s in
  let s := BGIT_SHA1_FIVE BGIT_SHA1_R2 25 s in
  let s := BGIT_SHA1_FIVE BGIT_SHA1_R2 30 s in
  let s := BGIT_SHA1_FIVE BGIT_SHA1_R2 35 s in
  let s := BGIT_SHA1_FIVE BGIT_SHA1_R3 40 s in
  let s := BGIT_SHA1_FIVE BGIT_SHA1_R3 45 s in
  let s := BGIT_SHA1_FIVE BGIT_SHA1_R3 50 s in
  let s := BGIT_SHA1_FIVE BGIT_SHA1_R3 55 s in
  let s := BGIT_SHA1_FIVE BGIT_SHA1_R4 60 s in
  let s := BGIT_SHA1_FIVE BGIT_SHA1_R4 65 s in
  let s := BGIT_SHA1_FIVE BGIT_SHA1_R4 70 s in
  BGIT_SHA1_FIVE BGIT_SHA1_R4 75 s.

(** The chaining value [h[0..4]]. *)
Definition chain : Type := Z * Z * Z * Z * Z.

(** [w[i] = bgit_be32 (p, i * 4)] for the [k] words from the [i]th. *)
Fixpoint load_words (k : nat) (p : list Z) (i : Z) : outcome (list Z) :=
  match k with
  | O => Ret []
  | S k' => let* x := bgit_be32 p (i * 4) in
            let* w := load_words k' p (i + 1) in
            Ret (x :: w)
  end.

(** The loop over [blocks] blocks of 64 bytes starting at [off]. *)
Fixpoint bgit_index_sha1_blocks (blocks : nat) (h : chain) (p : list Z) (off : Z)
    : outcome chain :=
  match blocks with
  | O => Ret h
  | S blocks' =>
      let* block := rdn p off 64 in
      let* w := load_words 16 block 0 in
      let '(h0, h1, h2, h3, h4) := h in
      let '(a, b, c, d, e, _) := block_rounds (h0, h1, h2, h3, h4, w) in
      bgit_index_sha1_blocks blocks'
        (u32 (h0 + a), u32 (h1 + b), u32 (h2 + c), u32 (h3 + d), u32 (h4 + e)) p (off + 64)
  end.

Definition sha1_init : chain :=
  (0x67452301, 0xEFCDAB89, 0x98BADCFE, 0x10325476, 0xC3D2E1F0).

(** [tail[tail_len - 1 - i] = bits >> (8 * i)] for [i] from 0 to 7: the eight
    bytes at the end of the tail. *)
Definition length_field (bits : Z) : list Z :=
  map (fun i => u8 (Z.shiftr bits (8 * i))) [7; 6; 5; 4; 3; 2; 1; 0].

(** The last one or two blocks: what is left of the data, a 1 bit, zeros and
    the length in bits. *)
Definition sha1_tail (rest_bytes : list Z) (n : Z) : list Z :=
  let rest := len rest_bytes in
  let tail_len := if rest <? 56 then 64 else 128 in
  let zeroed := rest_bytes ++ [0x80] ++ replicate (Z.to_nat (tail_len - rest - 1)) 0 in
  take (Z.to_nat (tail_len - 8)) zeroed ++ length_field (u64 (n * 8)).

Definition bgit_index_sha1 (data : list Z) : outcome (list Z) :=
  let whole := len data / 64 in
  let* h := bgit_index_sha1_blocks (Z.to_nat whole) sha1_init data 0 in
  let* rest_bytes := rdn data (whole * 64) (len data - whole * 64) in
  let tail := sha1_tail rest_bytes (len data) in
  let* h := bgit_index_sha1_blocks (Z.to_nat (len tail / 64)) h tail 0 in
  let '(h0, h1, h2, h3, h4) := h in
  Ret (bgit_put_be32 h0 ++ bgit_put_be32 h1 ++ bgit_put_be32 h2
       ++ bgit_put_be32 h3 ++ bgit_put_be32 h4).

(* ------------------------------------------------------------------ *)
(** ** The standard

    FIPS 180-4, sections 4.1.1, 4.2.1, 5.1.1, 5.3.1 and 6.1.2. *)

Definition ROTL (n x : Z) : Z := u32 (Z.lor (Z.shiftl x n) (Z.shiftr x (32 - n))).
Definition Ch (x y z : Z) : Z := Z.lxor (Z.land x y) (Z.land (Z.lnot x) z).
Definition Parity (x y z : Z) : Z := Z.lxor (Z.lxor x y) z.
Definition Maj (x y z : Z) : Z := Z.lxor (Z.lxor (Z.land x y) (Z.land x z)) (Z.land y z).

Definition f_t (t : nat) : Z -> Z -> Z -> Z :=
  if (t <? 20)%nat then Ch else if (t <? 40)%nat then Parity
  else if (t <? 60)%nat then Maj else Parity.

Definition K_t (t : nat) : Z :=
  if (t <? 20)%nat then 0x5A827999 else if (t <? 40)%nat then 0x6ED9EBA1
  else if (t <? 60)%nat then 0x8F1BBCDC else 0xCA62C1D6.

(** [W_t = ROTL^1 (W_(t-3) xor W_(t-8) xor W_(t-14) xor W_(t-16))]. *)
Definition next_word (ws : list Z) : Z :=
  let t := length ws in
  ROTL 1 (Z.lxor (Z.lxor (Z.lxor (nth (t - 3) ws 0) (nth (t - 8) ws 0)) (nth (t - 14) ws 0))
                 (nth (t - 16) ws 0)).

Fixpoint schedule (n : nat) (m : list Z) : list Z :=
  match n with
  | O => m
  | S n' => schedule n' (m ++ [next_word m])
  end.

Definition spec_round (W : list Z) (s : chain) (t : nat) : chain :=
  let '(a, b, c, d, e) := s in
  (u32 (ROTL 5 a + f_t t b c d + e + K_t t + nth t W 0), a, ROTL 30 b, c, d).

Definition add_chain (h s : chain) : chain :=
  let '(h0, h1, h2, h3, h4) := h in
  let '(a, b, c, d, e) := s in
  (u32 (a + h0), u32 (b + h1), u32 (c + h2), u32 (d + h3), u32 (e + h4)).

Definition compress (h : chain) (m : list Z) : chain :=
  add_chain h (foldl (spec_round (schedule 64 m)) h (seq 0 80)).

(** The words of a list of bytes. *)
Fixpoint words (l : list Z) : list Z :=
  match l with
  | b0 :: b1 :: b2 :: b3 :: l' => word b0 b1 b2 b3 :: words l'
  | _ => []
  end.

Fixpoint chunks (n : nat) (l : list Z) : list (list Z) :=
  match n with
  | O => []
  | S n' => take 64 l :: chunks n' (drop 64 l)
  end.

(** Padding: a 1 bit, the least number of zeros that leaves room for the
    length in the last block, the length in bits. *)
Definition pad (m : list Z) : list Z :=
  m ++ 0x80 :: replicate (Z.to_nat ((55 - len m) mod 64)) 0 ++ length_field (8 * len m).

Definition sha1 (m : list Z) : list Z :=
  let '(h0, h1, h2, h3, h4) :=
    foldl compress sha1_init (map words (chunks (Z.to_nat (len (pad m) / 64)) (pad m))) in
  bgit_put_be32 h0 ++ bgit_put_be32 h1 ++ bgit_put_be32 h2
  ++ bgit_put_be32 h3 ++ bgit_put_be32 h4.

(* ------------------------------------------------------------------ *)
(** ** The boolean functions and the additions *)

Ltac bitwise :=
  apply Z.bits_inj'; intros i Hi;
  rewrite ?Z.lxor_spec, ?Z.land_spec, ?Z.lor_spec, ?Z.lxor_spec, ?Z.lnot_spec, ?Z.land_spec,
    ?Z.lor_spec, ?Z.lxor_spec by done.

Lemma F1_Ch b c d : BGIT_SHA1_F1 b c d = Ch b c d.
Proof.
  unfold BGIT_SHA1_F1, Ch. bitwise.
  by destruct (Z.testbit b i), (Z.testbit c i), (Z.testbit d i).
Qed.

Lemma F3_Maj b c d : BGIT_SHA1_F3 b c d = Maj b c d.
Proof.
  unfold BGIT_SHA1_F3, Maj. bitwise.
  by destruct (Z.testbit b i), (Z.testbit c i), (Z.testbit d i).
Qed.

Lemma u32_add_l a b : u32 (u32 a + b) = u32 (a + b).
Proof. unfold u32. by rewrite Z.add_mod_idemp_l. Qed.

Lemma u32_add_r a b : u32 (a + u32 b) = u32 (a + b).
Proof. unfold u32. by rewrite Z.add_mod_idemp_r. Qed.

Lemma u32_sum r f e k x : u32 (e + u32 (u32 (u32 (r + f) + k) + x)) = u32 (r + f + e + k + x).
Proof.
  rewrite u32_add_r, Z.add_assoc, <- (u32_add_l (e + _)), u32_add_r, u32_add_l.
  replace (e + (u32 (r + f) + k) + x) with (u32 (r + f) + (e + k + x)) by lia.
  rewrite u32_add_l. f_equal. lia.
Qed.

(* ------------------------------------------------------------------ *)
(** ** The schedule *)

Lemma schedule_length n m : length (schedule n m) = (length m + n)%nat.
Proof.
  revert m. induction n as [|n IH]; intros m; simpl; [lia|].
  rewrite IH, length_app. simpl. lia.
Qed.

Lemma schedule_prefix n m j : (j < length m)%nat -> nth j (schedule n m) 0 = nth j m 0.
Proof.
  revert m. induction n as [|n IH]; intros m Hj; simpl; [done|].
  rewrite IH by (rewrite length_app; lia). by apply app_nth1.
Qed.

Lemma next_word_prefix n m t : t = length m -> (16 <= t)%nat ->
  next_word m = let W := schedule n m in
    ROTL 1 (Z.lxor (Z.lxor (Z.lxor (nth (t - 3) W 0) (nth (t - 8) W 0)) (nth (t - 14) W 0))
                   (nth (t - 16) W 0)).
Proof.
  intros -> Ht. cbn zeta. unfold next_word. rewrite !schedule_prefix by lia. done.
Qed.

Lemma schedule_step n m t : (16 <= length m <= t)%nat -> (t < length m + n)%nat ->
  let W := schedule n m in
  nth t W 0 =
    ROTL 1 (Z.lxor (Z.lxor (Z.lxor (nth (t - 3) W 0) (nth (t - 8) W 0)) (nth (t - 14) W 0))
                   (nth (t - 16) W 0)).
Proof.
  revert m. induction n as [|n IH]; intros m Hm Ht; [lia|]. cbn [schedule]. cbn zeta.
  destruct (decide (t = length m)) as [->|Hne].
  - rewrite schedule_prefix by (rewrite length_app; simpl; lia).
    rewrite app_nth2, Nat.sub_diag by lia. cbn [nth].
    exact (next_word_prefix (S n) m _ eq_refl ltac:(lia)).
  - apply IH; rewrite length_app; simpl; lia.
Qed.

(* ------------------------------------------------------------------ *)
(** ** Rotating names is moving values *)

Definition macro (t : nat) : round_macro :=
  if (t <? 16)%nat then BGIT_SHA1_R0 else if (t <? 20)%nat then BGIT_SHA1_R1
  else if (t <? 40)%nat then BGIT_SHA1_R2 else if (t <? 60)%nat then BGIT_SHA1_R3
  else BGIT_SHA1_R4.

(** One round, the result in the order the next round takes its arguments. *)
Definition canon (s : chain * list Z) (Rt : round_macro * Z) : chain * list Z :=
  let '((a, b, c, d, e), w) := s in
  let '(a, b, c, d, e, w) := Rt.1 a b c d e w Rt.2 in
  ((e, a, b, c, d), w).

Definition five_rounds (R : round_macro) (t : Z) : list (round_macro * Z) :=
  [(R, t); (R, t + 1); (R, t + 2); (R, t + 3); (R, t + 4)].

Ltac name_rounds :=
  repeat match goal with
  | |- context [?R ?a ?b ?c ?d ?e ?w ?t] =>
      match type of R with round_macro => destruct (R a b c d e w t) as [[[[[? ?] ?] ?] ?] ?] end
  end.

Lemma five_canon R t (s : vars) : BGIT_SHA1_FIVE R t s = foldl canon s (five_rounds R t).
Proof.
  destruct s as [[[[[a b] c] d] e] w]. unfold BGIT_SHA1_FIVE, five_rounds, foldl, canon, fst, snd.
  name_rounds. done.
Qed.

Lemma rounds_15_19_canon (s : vars) : rounds_15_19 s =
  foldl canon s [(BGIT_SHA1_R0, 15); (BGIT_SHA1_R1, 16); (BGIT_SHA1_R1, 17);
                      (BGIT_SHA1_R1, 18); (BGIT_SHA1_R1, 19)].
Proof.
  destruct s as [[[[[a b] c] d] e] w]. unfold rounds_15_19, foldl, canon, fst, snd.
  name_rounds. done.
Qed.

Lemma block_rounds_canon (s : vars) : block_rounds s =
  foldl canon s (map (fun t => (macro t, Z.of_nat t)) (seq 0 80)).
Proof.
  unfold block_rounds. cbn zeta. rewrite !five_canon, rounds_15_19_canon, ?five_canon.
  rewrite <- !foldl_app. reflexivity.
Qed.

(* ------------------------------------------------------------------ *)
(** ** The rolling window is the schedule *)

(** Before round [t] the window holds the last sixteen words, each at its
    number modulo sixteen; before round 16 it holds the block. *)
Definition window (W : list Z) (t : nat) (w : list Z) : Prop :=
  length w = 16%nat /\
  forall j, (t - 16 <= j < Nat.max t 16)%nat -> nth (j mod 16) w 0 = nth j W 0.

Lemma land15 (t : nat) : Z.to_nat (Z.land (Z.of_nat t) 15) = (t mod 16)%nat.
Proof.
  change 15 with (2 ^ 4 - 1). rewrite land_ones_mod by done.
  change (2 ^ 4) with (Z.of_nat 16). rewrite <- Nat2Z.inj_mod, Nat2Z.id. done.
Qed.

Lemma land15_back (t k : nat) : (k <= 16 <= t)%nat ->
  Z.to_nat (Z.land (Z.of_nat t + Z.of_nat (16 - k)) 15) = ((t - k) mod 16)%nat.
Proof.
  intros Hk. rewrite <- Nat2Z.inj_add, land15.
  replace (t + (16 - k))%nat with ((t - k) + 1 * 16)%nat by lia. apply Nat.Div0.mod_add.
Qed.

Lemma W_word m t w : length m = 16%nat -> (16 <= t < 80)%nat ->
  window (schedule 64 m) t w ->
  BGIT_SHA1_W w (Z.of_nat t) =
    (nth t (schedule 64 m) 0, <[(t mod 16)%nat := nth t (schedule 64 m) 0]> w).
Proof.
  intros Hm Ht [Hl Hw]. unfold BGIT_SHA1_W. cbn zeta.
  assert (E : BGIT_ROL32
    (Z.lxor (Z.lxor (Z.lxor (word_at w (Z.land (Z.of_nat t + 13) 15))
                            (word_at w (Z.land (Z.of_nat t + 8) 15)))
                    (word_at w (Z.land (Z.of_nat t + 2) 15)))
            (word_at w (Z.land (Z.of_nat t) 15))) 1 = nth t (schedule 64 m) 0).
  { rewrite (schedule_step 64 m t) by lia. change BGIT_ROL32 with (fun x n => ROTL n x).
    cbn beta. f_equal. unfold word_at.
    pose proof (land15_back t 3 ltac:(lia)) as E3. pose proof (land15_back t 8 ltac:(lia)) as E8.
    pose proof (land15_back t 14 ltac:(lia)) as E14.
    change (Z.of_nat (16 - 3)) with 13 in E3. change (Z.of_nat (16 - 8)) with 8 in E8.
    change (Z.of_nat (16 - 14)) with 2 in E14. rewrite E3, E8, E14, land15.
    assert (E16 : (t mod 16 = (t - 16) mod 16)%nat).
    { replace t with ((t - 16) + 1 * 16)%nat at 1 by lia. apply Nat.Div0.mod_add. }
    rewrite E16, !Hw by lia. done. }
  rewrite E, land15. done.
Qed.

Lemma window_next W t w : (16 <= t)%nat -> window W t w ->
  window W (S t) (<[(t mod 16)%nat := nth t W 0]> w).
Proof.
  intros Ht [Hl Hw]. split; [by rewrite length_insert|].
  intros j Hj. rewrite !nth_lookup.
  destruct (decide (j = t)) as [->|Hne].
  - rewrite list_lookup_insert_eq by (rewrite Hl; apply Nat.mod_upper_bound; lia).
    done.
  - rewrite list_lookup_insert_ne.
    + rewrite <- nth_lookup, Hw by lia. by rewrite nth_lookup.
    + intros E. pose proof (Nat.div_mod_eq j 16). pose proof (Nat.div_mod_eq t 16). lia.
Qed.

Lemma window_low m t w : (t < 16)%nat ->
  window (schedule 64 m) t w -> window (schedule 64 m) (S t) w.
Proof. intros Ht [Hl Hw]. split; [done|]. intros j Hj. apply Hw. lia. Qed.

Lemma canon_round m t s w : length m = 16%nat -> (t < 80)%nat ->
  window (schedule 64 m) t w ->
  exists w', canon (s, w) (macro t, Z.of_nat t) = (spec_round (schedule 64 m) s t, w') /\
    window (schedule 64 m) (S t) w'.
Proof.
  intros Hm Ht Hw. destruct s as [[[[a b] c] d] e].
  unfold canon, spec_round, macro, f_t, K_t, fst, snd.
  destruct (t <? 16)%nat eqn:E16; [apply Nat.ltb_lt in E16|apply Nat.ltb_ge in E16].
  - exists w. split; [|by apply window_low].
    rewrite (proj2 (Nat.ltb_lt t 20)) by lia.
    unfold BGIT_SHA1_R0, BGIT_SHA1_STEP, word_at.
    rewrite Nat2Z.id, u32_sum, F1_Ch, <- (proj2 Hw t), Nat.mod_small by lia. done.
  - exists (<[(t mod 16)%nat := nth t (schedule 64 m) 0]> w).
    split; [|apply window_next; [lia|done]].
    destruct (t <? 20)%nat, (t <? 40)%nat, (t <? 60)%nat;
      unfold BGIT_SHA1_R1, BGIT_SHA1_R2, BGIT_SHA1_R3, BGIT_SHA1_R4;
      rewrite (W_word m) by done; cbv beta iota; unfold BGIT_SHA1_STEP;
      rewrite u32_sum, ?F1_Ch, ?F3_Maj; done.
Qed.

Lemma rounds_agree m n : forall t s w, length m = 16%nat -> (t + n <= 80)%nat ->
  window (schedule 64 m) t w ->
  exists w', foldl canon (s, w) (map (fun t => (macro t, Z.of_nat t)) (seq t n)) =
    (foldl (spec_round (schedule 64 m)) s (seq t n), w').
Proof.
  induction n as [|n IH]; intros t s w Hm Ht Hw; cbn [seq map foldl]; [eauto|].
  destruct (canon_round m t s w) as (w' & -> & Hw'); [done|lia|done|].
  apply IH; [done|lia|done].
Qed.

Lemma block_rounds_spec h m : length m = 16%nat ->
  exists w', block_rounds (h, m) = (foldl (spec_round (schedule 64 m)) h (seq 0 80), w').
Proof.
  intros Hm. rewrite block_rounds_canon. apply rounds_agree; [done|lia|].
  split; [done|]. intros j Hj. rewrite schedule_prefix, Nat.mod_small by lia. done.
Qed.

(* ------------------------------------------------------------------ *)
(** ** Blocks and padding *)

Lemma words_length n l : length l = (4 * n)%nat -> length (words l) = n.
Proof.
  revert l. induction n as [|n IH]; intros l Hl; [by destruct l|].
  destruct l as [|b0 [|b1 [|b2 [|b3 l]]]]; simpl in Hl; try lia.
  simpl. f_equal. apply IH. lia.
Qed.

Lemma load_words_spec n : forall l pre, bytes l -> length l = (4 * n)%nat ->
  (4 | len pre) -> load_words n (pre ++ l) (len pre / 4) = Ret (words l).
Proof.
  induction n as [|n IH]; intros l pre Hb Hl Hd; [by destruct l|].
  destruct l as [|b0 [|b1 [|b2 [|b3 l]]]]; simpl in Hl; try lia.
  destruct Hd as [q Hq]. cbn [load_words words].
  rewrite Hq, Z.div_mul, <- Hq by done.
  inversion Hb as [|? ? H0 Hb0]; subst. inversion Hb0 as [|? ? H1 Hb1]; subst.
  inversion Hb1 as [|? ? H2 Hb2]; subst. inversion Hb2 as [|? ? H3 Hb3]; subst.
  unfold bgit_be32.
  assert (R : forall i, 0 <= i < 4 ->
    rd (pre ++ b0 :: b1 :: b2 :: b3 :: l) (len pre + i) = rd [b0; b1; b2; b3] i).
  { intros i Hi. rewrite rd_app_skip by lia. pose proof (len_nonneg l).
    rewrite !rd_ok by (unfold len in *; simpl; lia). f_equal.
    assert (i = 0 \/ i = 1 \/ i = 2 \/ i = 3) as [-> | [-> | [-> | ->]]] by lia; done. }
  replace (len pre) with (len pre + 0) at 1 by lia. rewrite !R by lia.
  unfold rd; simpl obind. rewrite word_lor by done.
  replace (q + 1) with (len (pre ++ [b0; b1; b2; b3]) / 4)
    by (rewrite len_app, Hq; change (len [b0; b1; b2; b3]) with 4; dlia).
  replace (pre ++ b0 :: b1 :: b2 :: b3 :: l) with ((pre ++ [b0; b1; b2; b3]) ++ l)
    by (by rewrite <- app_assoc).
  rewrite IH; [done|done|lia|]. exists (q + 1). rewrite len_app, Hq.
  change (len [b0; b1; b2; b3]) with 4. lia.
Qed.

Lemma add_chain_comm h0 h1 h2 h3 h4 a b c d e :
  (u32 (h0 + a), u32 (h1 + b), u32 (h2 + c), u32 (h3 + d), u32 (h4 + e)) =
  add_chain (h0, h1, h2, h3, h4) (a, b, c, d, e).
Proof. unfold add_chain. by rewrite !(Z.add_comm h0), (Z.add_comm h1), (Z.add_comm h2),
  (Z.add_comm h3), (Z.add_comm h4). Qed.

Lemma sha1_blocks_spec n : forall h p off post, bytes (drop (Z.to_nat off) p) ->
  0 <= off -> off + 64 * Z.of_nat n <= len p ->
  drop (Z.to_nat off) p = post ->
  bgit_index_sha1_blocks n h p off = Ret (foldl compress h (map words (chunks n post))).
Proof.
  induction n as [|n IH]; intros h p off post Hb Ho Hl <-; [done|].
  cbn [bgit_index_sha1_blocks chunks map foldl].
  rewrite rdn_ok by lia. rewrite obind_ret.
  assert (Hlen : length (take (Z.to_nat 64) (drop (Z.to_nat off) p)) = (4 * 16)%nat).
  { rewrite length_take, length_drop. unfold len in Hl. lia. }
  change (Z.to_nat 64) with 64%nat in *.
  set (blk := take 64 (drop (Z.to_nat off) p)) in *.
  assert (Hload : load_words 16 blk 0 = Ret (words blk)).
  { apply (load_words_spec 16 blk []); [by apply Forall_take|done|by exists 0]. }
  rewrite Hload, obind_ret. destruct h as [[[[h0 h1] h2] h3] h4].
  destruct (block_rounds_spec (h0, h1, h2, h3, h4) (words blk) (words_length 16 blk Hlen))
    as [w' Hr].
  rewrite Hr. unfold compress at 2.
  destruct (foldl (spec_round (schedule 64 (words blk))) (h0, h1, h2, h3, h4) (seq 0 80))
    as [[[[a b] c] d] e].
  rewrite add_chain_comm. apply IH; [|lia..|].
  - replace (Z.to_nat (off + 64)) with (Z.to_nat off + 64)%nat by lia.
    rewrite <- drop_drop. by apply Forall_drop.
  - rewrite drop_drop. f_equal. lia.
Qed.

Lemma chunks_app a b l : chunks (a + b) l = chunks a l ++ chunks b (drop (64 * a) l).
Proof.
  revert l. induction a as [|a IH]; intros l; [done|].
  cbn [chunks plus app]. rewrite IH, drop_drop. do 4 f_equal. lia.
Qed.

Lemma chunks_prefix n a b : (64 * n <= length a)%nat -> chunks n (a ++ b) = chunks n a.
Proof.
  revert a. induction n as [|n IH]; intros a Ha; cbn [chunks]; [done|].
  rewrite take_app_le, drop_app_le, IH by (rewrite ?length_drop; lia). done.
Qed.

Lemma length_field_bytes n : bytes (length_field n).
Proof. repeat constructor; apply u8_range. Qed.

(** The tail the code builds is the end of the padded message. *)
Lemma tail_pad data : 8 * len data < 2 ^ 64 ->
  let whole := len data / 64 in
  let rest := drop (Z.to_nat (whole * 64)) data in
  sha1_tail rest (len data) = drop (Z.to_nat (whole * 64)) (pad data) /\
  (64 | len (sha1_tail rest (len data))).
Proof.
  intros Hn whole rest. pose proof (len_nonneg data).
  assert (Hw : whole * 64 <= len data < whole * 64 + 64) by (unfold whole; dlia).
  assert (Hr : len rest = len data - whole * 64) by (unfold rest; rewrite len_drop; lia).
  unfold sha1_tail. cbn zeta. set (tl := if len rest <? 56 then 64 else 128).
  set (k := (55 - len data) mod 64).
  assert (Htl : tl - 8 = len rest + 1 + k /\ 0 <= k < 64 /\ (tl = 64 \/ tl = 128)).
  { assert (k = (55 - len rest) mod 64).
    { unfold k. replace (55 - len data) with (55 - len rest + (- whole) * 64) by lia.
      by rewrite Z.mod_add. }
    unfold tl. case_if; dlia. }
  destruct Htl as (Htl & Hk & Htl'). rewrite u64_id by lia. rewrite (Z.mul_comm (len data) 8).
  assert (E : take (Z.to_nat (tl - 8)) (rest ++ [0x80] ++
      replicate (Z.to_nat (tl - len rest - 1)) 0) = rest ++ [0x80] ++ replicate (Z.to_nat k) 0).
  { replace (Z.to_nat (tl - len rest - 1)) with (Z.to_nat k + 8)%nat by lia.
    rewrite replicate_add, !app_assoc. apply take_app_length'.
    rewrite !length_app, length_replicate. unfold len in *. simpl. lia. }
  rewrite E. split.
  - unfold pad. fold k. rewrite drop_app_le by (unfold len in *; lia).
    fold rest. by rewrite <- !app_assoc.
  - rewrite !len_app, len_replicate. change (len (length_field _)) with 8.
    change (len [0x80]) with 1. exists (tl / 64). destruct Htl' as [-> | ->]; dlia.
Qed.

Lemma sha1_is_fips data : bytes data -> 8 * len data < 2 ^ 64 ->
  bgit_index_sha1 data = Ret (sha1 data).
Proof.
  intros Hb Hn. unfold bgit_index_sha1. cbn zeta. pose proof (len_nonneg data).
  assert (Hw : len data / 64 * 64 <= len data < len data / 64 * 64 + 64) by dlia.
  rewrite (sha1_blocks_spec _ _ _ _ data) by (try done; lia). rewrite obind_ret.
  rewrite rdn_ok, obind_ret by lia.
  rewrite take_ge by (rewrite length_drop; unfold len in *; lia).
  destruct (tail_pad data Hn) as [Ht Hd]. cbn zeta in Ht, Hd.
  set (tail := sha1_tail _ _) in *. set (whole := len data / 64) in *.
  assert (Hbp : bytes (pad data)).
  { unfold pad. apply Forall_app; split; [done|]. constructor; [unfold is_byte; lia|].
    apply Forall_app; split; [|apply length_field_bytes].
    apply Forall_replicate. unfold is_byte; lia. }
  rewrite (sha1_blocks_spec _ _ _ _ tail); [|rewrite drop_0, Ht; by apply Forall_drop|lia| |done].
  2:{ destruct Hd as [q Hq]. rewrite Hq, Z.div_mul by done. pose proof (len_nonneg tail). lia. }
  rewrite obind_ret. unfold sha1.
  assert (E : chunks (Z.to_nat (len (pad data) / 64)) (pad data) =
    chunks (Z.to_nat whole) data ++ chunks (Z.to_nat (len tail / 64)) tail).
  { assert (Hlen : len (pad data) = whole * 64 + len tail).
    { rewrite Ht, len_drop. assert (len data <= len (pad data)); [|lia].
      unfold pad. rewrite len_app. match goal with |- _ <= _ + len ?l =>
        pose proof (len_nonneg l) end. lia. }
    destruct Hd as [q Hq].
    replace (Z.to_nat (len (pad data) / 64)) with (Z.to_nat whole + Z.to_nat (len tail / 64))%nat
      by (pose proof (len_nonneg tail); dlia).
    rewrite chunks_app. f_equal.
    - unfold pad. apply chunks_prefix. unfold len in *. lia.
    - rewrite Ht. do 2 f_equal. lia. }
  rewrite E, map_app, foldl_app.
  by destruct (foldl compress _ (map words (chunks _ tail))) as [[[[? ?] ?] ?] ?].
Qed.

(** [C9] The index's SHA-1, with its rolling sixteen-word window and rotated
    variable names, computes the function of FIPS 180-4 on every input whose
    bit length fits the standard's 64-bit length field. *)
Theorem sha1_fips data : bytes data -> 8 * len data < 2 ^ 64 ->
  bgit_index_sha1 data = Ret (sha1 data).
Proof. apply sha1_is_fips. Qed.

(** Two of the standard's examples: one block, and a message whose
    padding needs a second block. *)
Lemma sha1_fips_witness :
  bgit_index_sha1 (str "abc") =
    Ret [0xa9; 0x99; 0x3e; 0x36; 0x47; 0x06; 0x81; 0x6a; 0xba; 0x3e; 0x25; 0x71; 0x78; 0x50;
         0xc2; 0x6c; 0x9c; 0xd0; 0xd8; 0x9d] /\
  bgit_index_sha1 (str "abcdbcdecdefdefgefghfghighijhijkijkljklmklmnlmnomnopnopq") =
    Ret [0x84; 0x98; 0x3e; 0x44; 0x1c; 0x3b; 0xd2; 0x6e; 0xba; 0xae; 0x4a; 0xa1; 0xf9; 0x51;
         0x29; 0xe5; 0xe5; 0x46; 0x70; 0xf1].
Proof.
  split.
  - rewrite (sha1_fips (str "abc")); [by vm_compute|solve_bytes|vm_compute; reflexivity].
  - by vm_compute.
Defined.
