(* ===== verification/Lock.v ===== *)
(** * Lock files (loadables/_git/lock.c)

    A file is replaced by creating [<file>.lock] exclusively, writing the new
    bytes into it and renaming it over the file.  The locks a process holds are
    chained through their [next] fields from [bgit_locks_held], so that a fatal
    path can remove them all; the chain is modelled as the code has it, with
    the structures in a store addressed by their identity.  The theorems show
    that the chain stays well formed, that no two holders, in one process or
    in several, hold the same file at once, and that a commit replaces the file
    at once or leaves it as it was. *)

From S2P Require Import Prelude Sys.
#[local] Open Scope Z_scope.

(* ------------------------------------------------------------------ *)
(** ** State *)

Record bgit_lock := {
  l_path : option path;        (* the file being replaced *)
  l_lock_path : option path;   (* path + ".lock" *)
  l_fd : Z;                    (* -1 once committed or rolled back *)
  l_next : option N            (* the next lock of the registry *)
}.

(** The lock structures of a process, by address, and [bgit_locks_held]. *)
Record locks := { store : gmap N bgit_lock; bgit_locks_held : option N }.

(** [memset (lock, 0, sizeof *lock); lock->fd = -1]. *)
Definition empty_lock : bgit_lock :=
  {| l_path := None; l_lock_path := None; l_fd := -1; l_next := None |}.

Definition set_lock (s : locks) (id : N) (r : bgit_lock) : locks :=
  {| store := <[id := r]> (store s); bgit_locks_held := bgit_locks_held s |}.

Definition load_lock (s : locks) (id : N) : io bgit_lock :=
  lift (match store s !! id with Some r => Ret r | None => Fault end).

Definition dot_lock : list Z := str ".lock".
#[global] Arguments dot_lock : simpl never.

(* ------------------------------------------------------------------ *)
(** ** Operations *)

(** [strrchr]: how many bytes come before the last [c]. *)
Fixpoint find_last (c : Z) (l : list Z) : option nat :=
  match l with
  | [] => None
  | x :: l' => match find_last c l' with
               | Some n => Some (S n)
               | None => if x =? c then Some O else None
               end
  end.

(** [mkdir (dir) < 0 && errno != EEXIST]. *)
Definition mkdir_fails (dir : path) : io bool :=
  let! rc := sys_mkdir dir in
  if rc <? 0 then let! e := get_errno in iret (negb (e =? EEXIST)) else iret false.

(** The loop over [buf + 1]: every proper prefix that ends before a slash. *)
Fixpoint mkdir_loop (dir : path) (k : nat) (i : nat) : io Z :=
  match k with
  | O => iret 0
  | S k' =>
      if (nth i dir 0 =? 47) then
        let! bad := mkdir_fails (take i dir) in
        if bad : bool then iret (-1) else mkdir_loop dir k' (S i)
      else mkdir_loop dir k' (S i)
  end.

Definition bgit_lock_mkdir_parents (p : path) : io Z :=
  if 4096 <=? len p then iret (-1)
  else match find_last 47 p with
       | None | Some O => iret 0
       | Some slash =>
           let dir := take slash p in
           let! rc := mkdir_loop dir (slash - 1) 1 in
           if rc <? 0 then iret (-1)
           else let! bad := mkdir_fails dir in
                if bad : bool then iret (-1) else iret 0
       end.

Definition bgit_lock_abandon (id : N) (s : locks) : locks := set_lock s id empty_lock.

Definition bgit_lock_acquire (id : N) (p : path) (s : locks) : io (Z * locks) :=
  let lock_path := p ++ dot_lock in
  let! rc := bgit_lock_mkdir_parents lock_path in
  if rc <? 0 then
    let! _ := builtin_error "cannot create directory for '%s': %s" in
    iret (-1, bgit_lock_abandon id s)
  else
    let! fd := open_excl lock_path in
    if fd <? 0 then
      let! e := get_errno in
      let! _ := builtin_error (if e =? EEXIST then "Unable to create '%s': File exists."
                               else "cannot create '%s': %s") in
      iret (-1, bgit_lock_abandon id s)
    else
      iret (0, {| store := <[id := {| l_path := Some p; l_lock_path := Some lock_path;
                                      l_fd := fd; l_next := bgit_locks_held s |}]> (store s);
                  bgit_locks_held := Some id |}).

(** The write loop.  Every round but the last uses up an answer of the script,
    so as many rounds as there are answers, and one more, are enough. *)
Fixpoint write_loop (fuel : nat) (fd : Z) (data : list Z) : io Z :=
  match fuel with
  | O => iret (-1)
  | S fuel' =>
      if len data =? 0 then iret 0
      else
        let! w := sys_write fd data in
        if w <? 0 then
          let! e := get_errno in
          if e =? EINTR then write_loop fuel' fd data
          else let! _ := builtin_error "write '%s': %s" in iret (-1)
        else write_loop fuel' fd (drop (Z.to_nat w) data)
  end.

Definition bgit_lock_write (id : N) (data : list Z) (s : locks) : io Z :=
  let! r := load_lock s id in
  if l_fd r <? 0 then iret (-1)
  else let! w := get_world in
       write_loop (2 + length (w_answers w)) (l_fd r) data.

(** [*link], where [link] is [&bgit_locks_held] or [&k->next]. *)
Definition deref (s : locks) (link : option N) : option N :=
  match link with
  | None => bgit_locks_held s
  | Some k => store s !! k ≫= l_next
  end.

Definition set_next (r : bgit_lock) (n : option N) : bgit_lock :=
  {| l_path := l_path r; l_lock_path := l_lock_path r; l_fd := l_fd r; l_next := n |}.

(** [*link = n]. *)
Definition assign (s : locks) (link : option N) (n : option N) : locks :=
  match link with
  | None => {| store := store s; bgit_locks_held := n |}
  | Some k => {| store := alter (fun r => set_next r n) k (store s);
                 bgit_locks_held := bgit_locks_held s |}
  end.

Fixpoint forget_loop (fuel : nat) (id : N) (link : option N) (s : locks) : locks :=
  match fuel with
  | O => s
  | S fuel' =>
      match deref s link with
      | None => s
      | Some k => if decide (k = id) then assign s link (store s !! id ≫= l_next)
                  else forget_loop fuel' id (Some k) s
      end
  end.

(** A chain visits each structure once: as many rounds as there are
    structures, and one for the end. *)
Definition bgit_lock_forget (id : N) (s : locks) : locks :=
  let s' := forget_loop (S (size (store s))) id None s in
  {| store := alter (fun r => set_next r None) id (store s');
     bgit_locks_held := bgit_locks_held s' |}.

(** [if (lock->fd >= 0) close (lock->fd)]. *)
Definition close_if (fd : Z) : io unit :=
  if 0 <=? fd then let! _ := sys_close fd in iret tt else iret tt.

(** [if (lock->lock_path) unlink (lock->lock_path)]. *)
Definition unlink_if (lp : option path) : io unit :=
  match lp with
  | Some lp => let! _ := sys_unlink lp in iret tt
  | None => iret tt
  end.

Definition bgit_lock_rollback (id : N) (s : locks) : io locks :=
  let! r := load_lock s id in
  let! _ := close_if (l_fd r) in
  let! _ := unlink_if (l_lock_path r) in
  let s' := bgit_lock_forget id s in
  iret (set_lock s' id empty_lock).

Definition close_fd (r : bgit_lock) : bgit_lock :=
  {| l_path := l_path r; l_lock_path := l_lock_path r; l_fd := -1; l_next := l_next r |}.

Definition bgit_lock_commit (id : N) (s : locks) : io (Z * locks) :=
  let! r := load_lock s id in
  if l_fd r <? 0 then iret (-1, s)
  else match l_path r, l_lock_path r with
  | Some p, Some lp =>
      let! sync := sys_sync (l_fd r) in
      let! e := get_errno in
      if (sync <? 0) && negb (e =? EINVAL) then
        let! _ := builtin_error "fsync '%s': %s" in
        let! s' := bgit_lock_rollback id s in iret (-1, s')
      else
        let! closed := sys_close (l_fd r) in
        let s := set_lock s id (close_fd r) in
        if closed <? 0 then
          let! _ := builtin_error "close '%s': %s" in
          let! s' := bgit_lock_rollback id s in iret (-1, s')
        else
          let! renamed := sys_rename lp p in
          if renamed <? 0 then
            let! _ := builtin_error "rename '%s' to '%s': %s" in
            let! s' := bgit_lock_rollback id s in iret (-1, s')
          else
            let s' := bgit_lock_forget id s in
            iret (0, set_lock s' id empty_lock)
  | _, _ => lift Fault
  end.

Fixpoint release_loop (fuel : nat) (s : locks) : io locks :=
  match fuel with
  | O => iret s
  | S fuel' =>
      match bgit_locks_held s with
      | None => iret s
      | Some id => let! s' := bgit_lock_rollback id s in release_loop fuel' s'
      end
  end.

Definition bgit_lock_release_all (s : locks) : io locks :=
  release_loop (S (size (store s))) s.

(* ------------------------------------------------------------------ *)
(** ** The registry is a chain *)

(** From the pointer [o], the [next] fields lead through [l] to [o']. *)
Fixpoint seg (st : gmap N bgit_lock) (o : option N) (l : list N) (o' : option N) : Prop :=
  match l with
  | [] => o = o'
  | x :: l' => o = Some x /\ exists r, st !! x = Some r /\ seg st (l_next r) l' o'
  end.

Definition registry (s : locks) (l : list N) : Prop :=
  seg (store s) (bgit_locks_held s) l None /\ NoDup l.

Lemma seg_app st o a b o' :
  seg st o (a ++ b) o' <-> exists m, seg st o a m /\ seg st m b o'.
Proof.
  revert o. induction a as [|x a IH]; intros o; simpl.
  - naive_solver.
  - setoid_rewrite IH. naive_solver.
Qed.

Lemma seg_frame st st' o l o' : (forall x, x ∈ l -> option_map l_next (st' !! x) = option_map l_next (st !! x)) ->
  seg st o l o' -> seg st' o l o'.
Proof.
  revert o. induction l as [|x l IH]; intros o Hf; simpl; [done|].
  intros (-> & r & Hr & Hs). split; [done|]. pose proof (Hf x ltac:(left)) as E.
  rewrite Hr in E. destruct (st' !! x) as [r'|] eqn:E'; [|done]. injection E as E.
  exists r'. split; [done|]. rewrite E. apply IH; [|done]. intros y Hy. apply Hf. by right.
Qed.

Lemma seg_stored st o l o' x : seg st o l o' -> x ∈ l -> is_Some (st !! x).
Proof.
  revert o. induction l as [|y l IH]; intros o; simpl; [by intros _ ?%elem_of_nil|].
  intros (-> & r & Hr & Hs) [->|Hx]%elem_of_cons; eauto.
Qed.

(** Where the link that points after [l1] sits. *)
Definition link_after (link : option N) (l1 : list N) : option N :=
  match last l1 with Some k => Some k | None => link end.

Lemma link_after_cons link k l1 : link_after (Some k) l1 = link_after link (k :: l1).
Proof.
  unfold link_after. destruct l1 as [|x l1]; [done|]. rewrite last_cons_cons.
  destruct (last (x :: l1)) eqn:E; [done|]. by apply last_None in E.
Qed.

Lemma forget_loop_found id s l2 o' : forall l1 fuel link, (length l1 < fuel)%nat ->
  seg (store s) (deref s link) (l1 ++ id :: l2) o' -> id ∉ l1 ->
  forget_loop fuel id link s = assign s (link_after link l1) (store s !! id ≫= l_next).
Proof.
  induction l1 as [|k l1 IH]; intros fuel link Hf Hs Hid;
    (destruct fuel as [|fuel]; [simpl in Hf; lia|]); simpl in Hs |- *.
  - destruct Hs as [-> _]. by rewrite decide_True.
  - destruct Hs as (E & r & Hr & Hs). rewrite E.
    rewrite decide_False by set_solver. simpl in Hf.
    rewrite <- (link_after_cons link).
    apply IH; [lia| |set_solver]. simpl. by rewrite Hr.
Qed.

Lemma forget_loop_absent id s l : forall fuel link, (length l < fuel)%nat ->
  seg (store s) (deref s link) l None -> id ∉ l -> forget_loop fuel id link s = s.
Proof.
  induction l as [|k l IH]; intros fuel link Hf Hs Hid;
    (destruct fuel as [|fuel]; [simpl in Hf; lia|]); simpl in Hs |- *.
  - by rewrite Hs.
  - destruct Hs as (E & r & Hr & Hs). rewrite E. rewrite decide_False by set_solver.
    simpl in Hf. apply IH; [lia| |set_solver]. simpl. by rewrite Hr.
Qed.

Lemma registry_length s l : registry s l -> (length l <= size (store s))%nat.
Proof.
  intros [Hs Hn]. rewrite <- (size_dom (D := gset N)).
  rewrite <- (size_list_to_set (C := gset N) l) by done.
  apply subseteq_size. intros x Hx%elem_of_list_to_set. apply elem_of_dom.
  by eapply seg_stored.
Qed.

(** What an operation on the registry keeps of a structure: all but [next]. *)
Definition same_but_next (r r' : bgit_lock) : Prop := set_next r None = set_next r' None.

Lemma assign_seg s id l1 l2 : registry s (l1 ++ id :: l2) ->
  registry (assign s (link_after None l1) (store s !! id ≫= l_next)) (l1 ++ l2).
Proof.
  intros [Hs Hn]. apply NoDup_app in Hn as (Hn1 & Hd & Hn2).
  apply NoDup_cons in Hn2 as [Hid Hn2].
  split; [|apply NoDup_app; split_and!; [done| |done]; set_solver].
  apply seg_app in Hs as (m & Hs1 & Hs2). simpl in Hs2.
  destruct Hs2 as (-> & r & Hr & Hs2). rewrite Hr. cbn [mbind option_bind].
  destruct l1 as [|k l1 _] using rev_ind; [simpl in Hs1 |- *; done|].
  unfold link_after. rewrite last_snoc. cbn [assign store bgit_locks_held].
  apply NoDup_app in Hn1 as (Hn1 & Hd1 & _).
  apply seg_app. exists (l_next r). split.
  - apply seg_app in Hs1 as (m1 & Hs1 & Hk). simpl in Hk. destruct Hk as (-> & rk & Hrk & Hk).
    apply seg_app. exists (Some k). split.
    + eapply seg_frame; [|exact Hs1]. intros x Hx.
      rewrite lookup_alter_ne; [done|]. intros ->. apply (Hd1 x Hx). by left.
    + simpl. split; [done|]. eexists. rewrite lookup_alter_eq, Hrk. split; [done|done].
  - eapply seg_frame; [|exact Hs2]. intros x Hx.
    rewrite lookup_alter_ne; [done|]. intros ->. apply (Hd x); [set_solver|by right].
Qed.

Lemma assign_same s link n k : match store (assign s link n) !! k, store s !! k with
  | Some r', Some r => same_but_next r r' | None, None => True | _, _ => False end.
Proof.
  destruct link as [j|]; simpl.
  - destruct (decide (j = k)) as [->|]; [rewrite lookup_alter_eq|rewrite lookup_alter_ne by done];
      by destruct (store s !! k).
  - by destruct (store s !! k).
Qed.

Lemma forget_registry s l id : registry s l ->
  exists l', registry (bgit_lock_forget id s) l' /\ (forall x, x ∈ l' <-> x ∈ l /\ x <> id).
Proof.
  intros Hr. pose proof (registry_length s l Hr) as Hlen.
  destruct (decide (id ∈ l)) as [Hin|Hin].
  - apply list_elem_of_split in Hin as (l1 & l2 & ->).
    assert (Hd : id ∉ l1 /\ id ∉ l2).
    { destruct Hr as [_ Hn]. apply NoDup_app in Hn as (_ & Hd & Hn2).
      apply NoDup_cons in Hn2 as [? _]. split; [|done]. intros Hi. apply (Hd id Hi). by left. }
    exists (l1 ++ l2). unfold bgit_lock_forget. split; [|set_solver].
    rewrite (forget_loop_found id s l2 None l1) by
      (rewrite ?length_app in Hlen; simpl in *; try lia; try apply Hr; apply Hd).
    destruct (assign_seg s id l1 l2 Hr) as [Hs Hn]. split; [|done]. simpl.
    eapply seg_frame; [|exact Hs]. intros x Hx.
    rewrite lookup_alter_ne; [done|]. intros <-. set_solver.
  - exists l. unfold bgit_lock_forget. split; [|set_solver].
    rewrite (forget_loop_absent id s l) by (try lia; try apply Hr; done).
    destruct Hr as [Hs Hn]. split; [|done]. simpl. eapply seg_frame; [|exact Hs].
    intros x Hx. rewrite lookup_alter_ne; [done|]. by intros ->.
Qed.

Lemma forget_same s id k : match store (bgit_lock_forget id s) !! k, store s !! k with
  | Some r', Some r => same_but_next r r' | None, None => True | _, _ => False end.
Proof.
  assert (H : forall fuel link, match store (forget_loop fuel id link s) !! k, store s !! k with
    | Some r', Some r => same_but_next r r' | None, None => True | _, _ => False end).
  { induction fuel as [|fuel IH]; intros link; simpl; [by destruct (store s !! k)|].
    destruct (deref s link) as [j|]; [|by destruct (store s !! k)].
    case_decide; [|apply IH]. apply assign_same. }
  unfold bgit_lock_forget. specialize (H (S (size (store s))) None). cbn [store].
  destruct (decide (k = id)) as [->|]; [rewrite lookup_alter_eq|by rewrite lookup_alter_ne].
  destruct (store (forget_loop _ id None s) !! id), (store s !! id); simpl in *; done.
Qed.

Lemma forget_lookup s id k r' : store (bgit_lock_forget id s) !! k = Some r' ->
  exists r, store s !! k = Some r /\ same_but_next r r'.
Proof. intros E. pose proof (forget_same s id k) as H. rewrite E in H.
  destruct (store s !! k) as [r|]; [|done]. eauto. Qed.

(* ------------------------------------------------------------------ *)
(** ** Files being replaced *)

Definition lock_name (p : path) : Prop := exists q, p = q ++ dot_lock.

Lemma dot_lock_inj p q : p ++ dot_lock = q ++ dot_lock -> p = q.
Proof. apply app_inv_tail. Qed.

(** The lock [r] is held on the file [p]: its lock file is the inode [i], open
    at the end of the bytes [d] written so far. *)
Definition holding (f : fs) (fds : gmap N (N * Z)) (r : bgit_lock) (p : path) (i : N)
    (d : list Z) : Prop :=
  l_path r = Some p /\ l_lock_path r = Some (p ++ dot_lock) /\ 0 <= l_fd r /\
  names f !! (p ++ dot_lock) = Some i /\
  exists n, fds !! Z.to_N (l_fd r) = Some (i, len d) /\ inodes f !! i = Some n /\
    i_dir n = false /\ i_data n = d.

(** The locks of one process, but for those [X] singles out: those on the
    registry are held, each on an inode of its own, and the others are empty. *)
Record proc_inv (X : N -> Prop) (f : fs) (fds : gmap N (N * Z)) (s : locks) (l : list N) : Prop := {
  pi_reg : registry s l;
  pi_held : forall id r, store s !! id = Some r -> id ∈ l -> ~ X id ->
    exists p i d, ~ lock_name p /\ holding f fds r p i d;
  pi_idle : forall id r, store s !! id = Some r -> id ∉ l -> ~ X id -> set_next r None = empty_lock;
  pi_distinct : forall id1 id2 r1 r2 p1 p2 i d1 d2, id1 ∈ l -> id2 ∈ l -> ~ X id1 -> ~ X id2 ->
    store s !! id1 = Some r1 -> store s !! id2 = Some r2 ->
    holding f fds r1 p1 i d1 -> holding f fds r2 p2 i d2 -> id1 = id2 }.

Definition nobody : N -> Prop := fun _ => False.
Definition only (x : N) : N -> Prop := fun y => y = x.

Lemma holding_same_but_next f fds r r' p i d : same_but_next r r' ->
  holding f fds r p i d <-> holding f fds r' p i d.
Proof.
  unfold same_but_next, set_next, holding. intros [= -> -> ->]. done.
Qed.

(** Two locks held on one file, or through one descriptor, are one lock. *)
Lemma held_apart X f fds s l id1 id2 r1 r2 p1 p2 i1 i2 d1 d2 : proc_inv X f fds s l ->
  id1 ∈ l -> id2 ∈ l -> ~ X id1 -> ~ X id2 ->
  store s !! id1 = Some r1 -> store s !! id2 = Some r2 ->
  holding f fds r1 p1 i1 d1 -> holding f fds r2 p2 i2 d2 -> id1 <> id2 ->
  i1 <> i2 /\ p1 <> p2 /\ l_fd r1 <> l_fd r2.
Proof.
  intros HI H1 H2 X1 X2 E1 E2 Hh1 Hh2 Hne.
  assert (Hi : i1 <> i2).
  { intros ->. apply Hne. by eapply (pi_distinct _ _ _ _ _ HI id1 id2). }
  destruct Hh1 as (_ & _ & _ & N1 & n1 & F1 & _), Hh2 as (_ & _ & _ & N2 & n2 & F2 & _).
  split; [done|]. split; intros E; rewrite E in *; congruence.
Qed.

(* ------------------------------------------------------------------ *)
(** ** Making directories only adds names *)

Definition grows (f f' : fs) : Prop := names f ⊆ names f' /\ inodes f ⊆ inodes f'.

Lemma grows_refl f : grows f f.
Proof. by split. Qed.

Lemma grows_trans f g h : grows f g -> grows g h -> grows f h.
Proof. intros [? ?] [? ?]. split; by etrans. Qed.

Lemma grows_insert f p i n : names f !! p = None -> inodes f !! i = None ->
  grows f {| names := <[p := i]> (names f); inodes := <[i := n]> (inodes f) |}.
Proof. intros. split; simpl; by apply insert_subseteq. Qed.

(** A computation that returns, opens nothing and only adds names. *)
Definition only_grows {A} (c : io A) : Prop := forall w r w', c w = (r, w') ->
  (exists a, r = Ret a) /\ w_fds w' = w_fds w /\ grows (w_fs w) (w_fs w') /\
  (exists new, w_log w' = new ++ w_log w /\ Forall (grows (w_fs w)) new).

Lemma only_grows_bind {A B} (c : io A) (k : A -> io B) :
  only_grows c -> (forall a, only_grows (k a)) -> only_grows (ibind c k).
Proof.
  intros Hc Hk w r w' H. apply ibind_cases in H as [(a & w1 & H1 & H2)|[(m & H1 & _)|[H1 _]]].
  - apply Hc in H1 as (_ & E1 & G1 & n1 & L1 & F1).
    apply Hk in H2 as (? & E2 & G2 & n2 & L2 & F2).
    split; [done|]. split; [congruence|]. split; [by eapply grows_trans|].
    exists (n2 ++ n1). rewrite L2, L1, app_assoc. split; [done|]. apply Forall_app; split; [|done].
    eapply Forall_impl; [exact F2|]. intros. by eapply grows_trans.
  - by apply Hc in H1 as ([? ?] & _).
  - by apply Hc in H1 as ([? ?] & _).
Qed.

Lemma only_grows_ret {A} (a : A) : only_grows (iret a).
Proof.
  intros w r w' [= <- <-]. split; [eauto|]. split; [done|]. split; [apply grows_refl|].
  by exists [].
Qed.

Lemma only_grows_errno : only_grows get_errno.
Proof.
  intros w r w' [= <- <-]. split; [eauto|]. split; [done|]. split; [apply grows_refl|].
  by exists [].
Qed.

Lemma only_grows_mkdir p : only_grows (sys_mkdir p).
Proof.
  intros w r w' H. apply mkdir_cases in H as (Hfd & [(-> & E & L & _)|(i & n & -> & Hp & Hi & _ & E & L)]).
  - rewrite E. split; [eauto|]. split; [done|]. split; [apply grows_refl|]. by exists [].
  - pose proof (grows_insert _ p i n Hp Hi) as G. rewrite <- E in G.
    split; [eauto|]. split; [done|]. split; [done|]. exists [w_fs w']. split; [done|].
    by constructor.
Qed.

#[local] Hint Resolve only_grows_bind only_grows_ret only_grows_errno only_grows_mkdir : cbytes.

Lemma only_grows_mkdir_fails p : only_grows (mkdir_fails p).
Proof.
  unfold mkdir_fails. apply only_grows_bind; [auto with cbytes|]. intros rc. case_if; auto with cbytes.
Qed.

Lemma only_grows_mkdir_loop dir k : forall i, only_grows (mkdir_loop dir k i).
Proof.
  induction k as [|k IH]; intros i; cbn [mkdir_loop]; [auto with cbytes|]. case_if; [|apply IH].
  apply only_grows_bind; [apply only_grows_mkdir_fails|]. intros []; [auto with cbytes|apply IH].
Qed.

#[local] Hint Resolve only_grows_mkdir_fails only_grows_mkdir_loop : cbytes.

Lemma only_grows_mkdir_parents p : only_grows (bgit_lock_mkdir_parents p).
Proof.
  unfold bgit_lock_mkdir_parents. case_if; [auto with cbytes|].
  destruct (find_last 47 p) as [[|n]|]; try auto with cbytes.
  apply only_grows_bind; [auto with cbytes|]. intros rc. case_if; [auto with cbytes|].
  apply only_grows_bind; [auto with cbytes|]. intros []; auto with cbytes.
Qed.

(* ------------------------------------------------------------------ *)
(** ** What the operations do to a process and to the others *)

Lemma holding_fun f fds r p i d p' i' d' :
  holding f fds r p i d -> holding f fds r p' i' d' -> p = p' /\ i = i' /\ d = d'.
Proof.
  intros (H1 & _ & _ & _ & n & H2 & H3 & _ & H4) (G1 & _ & _ & _ & n' & G2 & G3 & _ & G4).
  assert (i = i') by congruence. subst i'. assert (n = n') by congruence. subst n'.
  split_and!; congruence.
Qed.

(** A change under which every lock held before is held as before. *)
Lemma proc_inv_frame X f fds f' fds' s l : proc_inv X f fds s l ->
  (forall id r p i d, id ∈ l -> ~ X id -> store s !! id = Some r -> holding f fds r p i d ->
    exists d', holding f' fds' r p i d') ->
  proc_inv X f' fds' s l.
Proof.
  intros HI Hf. split; [apply HI| |apply HI|].
  - intros id r E Hl Hx. destruct (pi_held _ _ _ _ _ HI id r E Hl Hx) as (p & i & d & Hp & Hh).
    destruct (Hf id r p i d) as [d' Hh']; eauto 10.
  - intros id1 id2 r1 r2 p1 p2 i d1 d2 L1 L2 X1 X2 E1 E2 G1 G2.
    destruct (pi_held _ _ _ _ _ HI id1 r1 E1 L1 X1) as (q1 & j1 & e1 & _ & H1).
    destruct (pi_held _ _ _ _ _ HI id2 r2 E2 L2 X2) as (q2 & j2 & e2 & _ & H2).
    destruct (Hf id1 r1 q1 j1 e1) as [d1' F1]; [done..|].
    destruct (Hf id2 r2 q2 j2 e2) as [d2' F2]; [done..|].
    destruct (holding_fun _ _ _ _ _ _ _ _ _ G1 F1) as (-> & -> & _).
    destruct (holding_fun _ _ _ _ _ _ _ _ _ G2 F2) as (-> & -> & _).
    by eapply (pi_distinct _ _ _ _ _ HI).
Qed.

Lemma holding_grows f f' fds r p i d : grows f f' -> holding f fds r p i d -> holding f' fds r p i d.
Proof.
  intros [Hn Hi] (H1 & H2 & H3 & H4 & n & H5 & H6 & H7). split_and!; try done.
  - by eapply lookup_weaken.
  - exists n. split_and!; try done; [by eapply lookup_weaken|apply H7..].
Qed.

(** The inodes a process holds. *)
Definition owns (f : fs) (fds : gmap N (N * Z)) (s : locks) (l : list N) (j : N) : Prop :=
  exists id r p d, id ∈ l /\ store s !! id = Some r /\ holding f fds r p j d.

(** What a process promises the others: lock files that are not its own stay,
    with their bytes, and inodes are never reused. *)
Definition keeps (own : N -> Prop) (f f' : fs) : Prop :=
  (forall q j n, lock_name q -> names f !! q = Some j -> ~ own j -> inodes f !! j = Some n ->
     names f' !! q = Some j /\ inodes f' !! j = Some n) /\
  (forall j, is_Some (inodes f !! j) -> is_Some (inodes f' !! j)).

(** An operation keeps its process in order, keeps its promise, and holds at
    the end only inodes it held before or that did not exist. *)
Definition op_ok (f : fs) (fds : gmap N (N * Z)) (s : locks) (l : list N)
    (f' : fs) (fds' : gmap N (N * Z)) (s' : locks) (l' : list N) : Prop :=
  proc_inv nobody f' fds' s' l' /\ keeps (owns f fds s l) f f' /\
  (forall j, owns f' fds' s' l' j -> owns f fds s l j \/ inodes f !! j = None).

Lemma keeps_grows own f f' : grows f f' -> keeps own f f'.
Proof.
  intros [Hn Hi]. split.
  - intros q j n _ Hq _ Hj. split; by eapply lookup_weaken.
  - intros j [n Hj]. exists n. by eapply lookup_weaken.
Qed.

Lemma idle_insert X f fds s l id : proc_inv X f fds s l -> id ∉ l ->
  proc_inv X f fds (set_lock s id empty_lock) l.
Proof.
  intros HI Hid. destruct (pi_reg _ _ _ _ _ HI) as [Hs Hn].
  assert (Hne : forall x, x ∈ l -> x <> id) by (intros x Hx ->; done).
  split; simpl.
  - split; [|done]. eapply seg_frame; [|exact Hs]. intros x Hx. simpl.
    by rewrite lookup_insert_ne by (symmetry; auto).
  - intros k r E Hk. rewrite lookup_insert_ne in E by (symmetry; auto). by apply HI.
  - intros k r E Hk Hx. destruct (decide (k = id)) as [->|].
    + rewrite lookup_insert_eq in E. by simplify_eq.
    + rewrite lookup_insert_ne in E by done. by eapply HI.
  - intros k1 k2 r1 r2 p1 p2 i d1 d2 L1 L2 X1 X2 E1 E2.
    rewrite lookup_insert_ne in E1, E2 by (symmetry; auto). by apply (pi_distinct _ _ _ _ _ HI).
Qed.

Lemma owns_idle f fds s l id j : id ∉ l -> owns f fds (set_lock s id empty_lock) l j ->
  owns f fds s l j.
Proof.
  intros Hid (k & r & p & d & Hk & E & Hh). exists k, r, p, d. split; [done|].
  simpl in E. rewrite lookup_insert_ne in E by (by intros ->). done.
Qed.

Lemma owns_frame f fds f' fds' s l j : proc_inv nobody f fds s l ->
  (forall id r p i d, id ∈ l -> store s !! id = Some r -> holding f fds r p i d ->
    exists d', holding f' fds' r p i d') ->
  owns f' fds' s l j -> owns f fds s l j.
Proof.
  intros HI Hf (k & r & p & d & Hk & E & Hh).
  destruct (pi_held _ _ _ _ _ HI k r E Hk) as (p0 & i0 & d0 & _ & H0); [by intros []|].
  destruct (Hf k r p0 i0 d0 Hk E H0) as [d' H1].
  destruct (holding_fun _ _ _ _ _ _ _ _ _ Hh H1) as (-> & -> & ->). by exists k, r, p0, d0.
Qed.

(** A lock newly held on an inode the process does not hold yet. *)
Lemma proc_inv_cons f fds s l id r p i d : proc_inv nobody f fds s l -> id ∉ l ->
  ~ lock_name p -> holding f fds r p i d -> l_next r = bgit_locks_held s -> ~ owns f fds s l i ->
  proc_inv nobody f fds {| store := <[id := r]> (store s); bgit_locks_held := Some id |} (id :: l).
Proof.
  intros HI Hid Hp Hh Hnext Hown. destruct (pi_reg _ _ _ _ _ HI) as [Hs Hn].
  assert (Hne : forall x, x ∈ l -> x <> id) by (intros x Hx ->; done).
  split; simpl.
  - split; [cbn [seg store bgit_locks_held]|by constructor]. split; [done|]. exists r. rewrite lookup_insert_eq. split; [done|].
    rewrite Hnext. eapply seg_frame; [|exact Hs]. intros x Hx.
    by rewrite lookup_insert_ne by (symmetry; auto).
  - intros x r' Er Hx _. apply elem_of_cons in Hx as [->|Hx].
    + rewrite lookup_insert_eq in Er. simplify_eq. eauto 10.
    + rewrite lookup_insert_ne in Er by (symmetry; auto). apply HI with (id := x); auto.
  - intros x r' Er Hx HX. rewrite lookup_insert_ne in Er by set_solver.
    eapply HI; [done|set_solver|done].
  - intros x1 x2 r1 r2 p1 p2 j d1 d2 L1 L2 _ _ E1 E2 H1 H2.
    apply elem_of_cons in L1 as [->|L1], L2 as [->|L2]; [done|..].
    + rewrite lookup_insert_eq in E1. rewrite lookup_insert_ne in E2 by (symmetry; auto).
      simplify_eq. destruct (holding_fun _ _ _ _ _ _ _ _ _ H1 Hh) as (-> & -> & ->).
      destruct Hown. by exists x2, r2, p2, d2.
    + rewrite lookup_insert_eq in E2. rewrite lookup_insert_ne in E1 by (symmetry; auto).
      simplify_eq. destruct (holding_fun _ _ _ _ _ _ _ _ _ H2 Hh) as (-> & -> & ->).
      destruct Hown. by exists x1, r1, p1, d1.
    + rewrite lookup_insert_ne in E1, E2 by (symmetry; auto).
      apply (pi_distinct _ _ _ _ _ HI x1 x2 r1 r2 p1 p2 j d1 d2); solve [done|by intros []].
Qed.

(** ** Acquiring *)

(** The lock structure after a successful acquisition. *)
Definition acquired (s : locks) (id : N) (p : path) (fd : Z) : locks :=
  {| store := <[id := {| l_path := Some p; l_lock_path := Some (p ++ dot_lock);
                         l_fd := fd; l_next := bgit_locks_held s |}]> (store s);
     bgit_locks_held := Some id |}.

Lemma acquire_cases id p s w r w' : bgit_lock_acquire id p s w = (r, w') ->
  (r = Ret (-1, set_lock s id empty_lock) /\ grows (w_fs w) (w_fs w') /\ w_fds w' = w_fds w /\
     w_reports w' <> []) \/
  (exists w1 fd, r = Ret (0, acquired s id p fd) /\ grows (w_fs w) (w_fs w1) /\
     w_fds w1 = w_fds w /\ creates (p ++ dot_lock) fd w1 w').
Proof.
  unfold bgit_lock_acquire. intros H.
  apply ibind_cases in H as [(rc & w1 & H1 & H2)|[(m & H1 & _)|[H1 _]]].
  2,3: apply only_grows_mkdir_parents in H1 as ([? ?] & _); done.
  apply only_grows_mkdir_parents in H1 as (_ & Hfd & G & _).
  destruct (rc <? 0); [unfold builtin_error, ibind, iret in H2; simplify_eq; by left|].
  unfold ibind at 1 in H2. destruct (open_excl (p ++ dot_lock) w1) as [r2 w2] eqn:H3.
  apply open_excl_cases in H3 as [(-> & E & _ & F)|(z & -> & Hc)].
  - left. cbn in H2. unfold iret in H2. injection H2 as <- <-. cbn. rewrite E, F.
    split_and!; done.
  - right. pose proof Hc as (i & fd & -> & _). rewrite (proj2 (Z.ltb_ge _ _)) in H2 by lia.
    unfold iret in H2. simplify_eq. eauto 10.
Qed.

Lemma created_holding s f p i k t fds : names f !! (p ++ dot_lock) = None ->
  holding (created f (p ++ dot_lock) i t) (<[k := (i, 0)]> fds)
    {| l_path := Some p; l_lock_path := Some (p ++ dot_lock); l_fd := Z.of_N k;
       l_next := bgit_locks_held s |} p i [].
Proof.
  intros Hname. unfold created. split_and!; simpl; try done; [lia|by rewrite lookup_insert_eq|].
  eexists. rewrite N2Z.id, !lookup_insert_eq. done.
Qed.

Lemma acquire_ok id p s l w rc s' w' : bgit_lock_acquire id p s w = (Ret (rc, s'), w') ->
  proc_inv nobody (w_fs w) (w_fds w) s l -> id ∉ l -> ~ lock_name p ->
  exists l', op_ok (w_fs w) (w_fds w) s l (w_fs w') (w_fds w') s' l'.
Proof.
  intros H HI Hid Hp. apply acquire_cases in H as [([= -> ->] & G & F & _)|(w1 & fd & [= -> ->] & G & F & Hc)].
  - exists l. rewrite F. split; [|split].
    + apply idle_insert; [|done]. eapply proc_inv_frame; [exact HI|]. intros.
      eexists. by eapply holding_grows.
    + by apply keeps_grows.
    + intros j Hj%owns_idle; [|done]. left. eapply owns_frame; [done| |done]. intros.
      eexists. by eapply holding_grows.
  - destruct Hc as (i & k & -> & Hname & Hino & Hfd & F' & E & _). rewrite F in Hfd, F'.
    assert (G2 : grows (w_fs w) (w_fs w')).
    { eapply grows_trans; [exact G|]. rewrite E. by apply grows_insert. }
    assert (Hi : inodes (w_fs w) !! i = None).
    { destruct (inodes (w_fs w) !! i) as [n|] eqn:E2; [|done].
      apply (lookup_weaken _ (inodes (w_fs w1))) in E2; [congruence|apply G]. }
    assert (Hold : forall x r q j d, x ∈ l -> store s !! x = Some r ->
      holding (w_fs w) (w_fds w) r q j d -> exists d', holding (w_fs w') (w_fds w') r q j d').
    { intros x r q j d _ _ Hh. exists d. apply (holding_grows _ (w_fs w')) in Hh; [|done].
      destruct Hh as (? & ? & ? & ? & n' & Hf' & ?). split_and!; try done.
      exists n'. split; [|done]. rewrite F', lookup_insert_ne; [done|]. intros ->. congruence. }
    pose proof (created_holding s _ _ i k (w_now w1) (w_fds w) Hname) as Hnew.
    rewrite <- E, <- F' in Hnew.
    exists (id :: l). split; [|split].
    + eapply proc_inv_cons; [|done|exact Hp|exact Hnew|done|].
      * eapply proc_inv_frame; [exact HI|]. eauto.
      * intros Ho. eapply owns_frame in Ho; [|exact HI|exact Hold].
        destruct Ho as (x & r & q & d & _ & _ & Hh). destruct Hh as (_ & _ & _ & _ & n & _ & Hj & _).
        congruence.
    + by apply keeps_grows.
    + intros j (x & r & q & d & Hx & Er & Hh). simpl in Er.
      destruct (decide (x = id)) as [->|Hne].
      * rewrite lookup_insert_eq in Er. simplify_eq.
        destruct (holding_fun _ _ _ _ _ _ _ _ _ Hh Hnew) as (_ & -> & _). by right.
      * rewrite lookup_insert_ne in Er by done. apply elem_of_cons in Hx as [->|Hx]; [done|].
        left. eapply owns_frame; [exact HI|exact Hold|]. by exists x, r, q, d.
Qed.

(** ** Writing *)

(** The loop writes everything, or reports a failure: there is always fuel
    left for the script. *)
Lemma write_loop_spec fuel fd : forall data d i n w r w', (length (w_answers w) + 2 <= fuel)%nat ->
  0 <= fd -> w_fds w !! Z.to_N fd = Some (i, len d) ->
  inodes (w_fs w) !! i = Some n -> i_dir n = false -> i_data n = d ->
  write_loop fuel fd data w = (r, w') ->
  exists k, appended fd i d data k w w' /\
    ((r = Ret 0 /\ (length data <= k)%nat /\ w_reports w' = w_reports w) \/
     (r = Ret (-1) /\ w_reports w' = "write '%s': %s"%string :: w_reports w)).
Proof.
  induction fuel as [|fuel IH]; intros data d i n w r w' Hf Hfd0 Hfd Hi Hdir Hd H; [lia|].
  cbn [write_loop] in H. case_if_in H.
  { injection H as <- <-. exists O. split; [by eapply appended_none|]. left.
    unfold len in *. split_and!; [done|lia|done]. }
  unfold ibind at 1 in H. destruct (sys_write fd data w) as [r1 w1] eqn:Hw.
  pose proof (write_script _ _ _ _ _ Hw) as (Ha & Hrep & _).
  eapply write_appended in Hw as (k & Hap & Hk & Hr1 & Hfull); [|done..].
  destruct (appended_ready _ _ _ _ _ _ _ Hap) as (Hfd1 & n1 & Hi1 & Hdir1 & Hd1).
  assert (Hgo : forall r w', write_loop fuel fd (drop k data) w1 = (r, w') ->
    (length (w_answers w1) + 2 <= fuel)%nat ->
    exists k, appended fd i d data k w w' /\
    ((r = Ret 0 /\ (length data <= k)%nat /\ w_reports w' = w_reports w) \/
     (r = Ret (-1) /\ w_reports w' = "write '%s': %s"%string :: w_reports w))).
  { intros r2 w2 H2 Hf2. eapply IH in H2 as (k2 & Hap2 & Hr2); [|done..].
    exists (k + k2)%nat. split; [by eapply appended_trans|]. rewrite Hrep, length_drop in Hr2.
    destruct Hr2 as [(? & ? & ?)|?]; [left; split_and!; [done|lia|done]|by right]. }
  assert (Hcons : w_answers w <> [] -> (length (w_answers w1) + 2 <= fuel)%nat).
  { intros Hne. rewrite Ha. destruct (w_answers w); [done|]. simpl in *. lia. }
  destruct Hr1 as [[-> ->] | ->].
  - cbn -[write_loop] in H. destruct (w_errno w1 =? EINTR).
    + apply (Hgo r w'); [exact H|]. apply Hcons. intros E. specialize (Hfull E).
      injection Hfull as Hfull. pose proof (len_nonneg data). lia.
    + injection H as <- <-. exists O. split; [exact Hap|]. right. cbn. by rewrite Hrep.
  - rewrite (proj2 (Z.ltb_ge (Z.of_nat k) 0)), Nat2Z.id in H by lia.
    destruct (decide (w_answers w = [])) as [Hnil|Hne]; [|by apply Hgo; auto].
    specialize (Hfull Hnil). injection Hfull as Hfull. unfold len in Hfull.
    destruct fuel as [|fuel']; [lia|]. rewrite drop_ge in H by lia. injection H as <- <-.
    exists k. split; [exact Hap|]. left. split_and!; [done|lia|done].
Qed.

Lemma not_nobody x : ~ nobody x.
Proof. by intros []. Qed.
#[local] Hint Resolve not_nobody : cbytes.

Lemma op_ok_refl f fds s l : proc_inv nobody f fds s l -> op_ok f fds s l f fds s l.
Proof. intros. split; [done|]. split; [apply keeps_grows, grows_refl|auto]. Qed.

(** A structure with a descriptor is on the registry and held. *)
Lemma open_held f fds s l id r : proc_inv nobody f fds s l -> store s !! id = Some r ->
  0 <= l_fd r -> id ∈ l /\ exists p i d, ~ lock_name p /\ holding f fds r p i d.
Proof.
  intros HI Hr Hfd. destruct (decide (id ∈ l)) as [Hl|Hl].
  - split; [done|]. by apply (pi_held _ _ _ _ _ HI id r); auto with cbytes.
  - pose proof (pi_idle _ _ _ _ _ HI id r Hr Hl (not_nobody id)) as E.
    unfold set_next, empty_lock in E. injection E as _ _ E. lia.
Qed.

Lemma appended_holding s l id r p i d data k w w1 : proc_inv nobody (w_fs w) (w_fds w) s l ->
  id ∈ l -> store s !! id = Some r -> holding (w_fs w) (w_fds w) r p i d ->
  appended (l_fd r) i d data k w w1 ->
  holding (w_fs w1) (w_fds w1) r p i (d ++ take k data) /\
  (forall x r' q j e, x ∈ l -> store s !! x = Some r' -> x <> id ->
     holding (w_fs w) (w_fds w) r' q j e -> holding (w_fs w1) (w_fds w1) r' q j e).
Proof.
  intros HI Hl Hr Hh (N1 & F1 & (n1 & I1 & Dir1 & D1) & _). split.
  - destruct Hh as (? & ? & ? & ? & n & _). unfold holding. rewrite N1, F1, I1.
    split_and!; try done. exists n1. by rewrite !lookup_insert_eq.
  - intros x r' q j e Hx Er Hne Hh'.
    destruct (held_apart nobody (w_fs w) (w_fds w) s l x id r' r q p j i e d) as (Hj & _ & Hfd);
      auto with cbytes.
    destruct Hh' as (? & ? & ? & ? & n & ? & ? & ?), Hh as (_ & _ & ? & _).
    unfold holding. rewrite N1, F1, I1. split_and!; try done. exists n.
    rewrite !lookup_insert_ne by (try done; lia). done.
Qed.

Lemma write_ok id data s l w rc w' : bgit_lock_write id data s w = (Ret rc, w') ->
  proc_inv nobody (w_fs w) (w_fds w) s l ->
  op_ok (w_fs w) (w_fds w) s l (w_fs w') (w_fds w') s l.
Proof.
  intros H HI. unfold bgit_lock_write, load_lock, ibind, lift in H.
  destruct (store s !! id) as [r|] eqn:Hr; [|done].
  case_if_in H; [injection H as _ <-; by apply op_ok_refl|].
  destruct (open_held _ _ _ _ _ _ HI Hr) as (Hl & p & i & d & Hp & Hh); [done|].
  pose proof Hh as (_ & _ & _ & Hn & n & Hfd & Hi & Hdir & Hd).
  unfold get_world in H. eapply write_loop_spec in H as (k & Hap & _); [|lia|done..].
  destruct (appended_holding _ _ _ _ _ _ _ _ _ _ _ HI Hl Hr Hh Hap) as [Hself Hother].
  assert (Hall : forall x r' q j e, x ∈ l -> store s !! x = Some r' ->
    holding (w_fs w) (w_fds w) r' q j e -> exists e', holding (w_fs w') (w_fds w') r' q j e').
  { intros x r' q j e Hx Er He. destruct (decide (x = id)) as [->|Hne]; [|eauto].
    rewrite Hr in Er. simplify_eq.
    destruct (holding_fun _ _ _ _ _ _ _ _ _ He Hh) as (-> & -> & ->). eauto. }
  destruct Hap as (N1 & F1 & (n1 & I1 & _) & _). split; [|split].
  - eapply proc_inv_frame; [exact HI|]. eauto.
  - assert (Ho : owns (w_fs w) (w_fds w) s l i) by (by exists id, r, p, d). split.
    + intros q j m _ Hq Hown Hj. rewrite N1, I1. split; [done|].
      rewrite lookup_insert_ne; [done|]. by intros ->.
    + intros j [m Hj]. rewrite I1. destruct (decide (i = j)) as [->|].
      * rewrite lookup_insert_eq. eauto.
      * rewrite lookup_insert_ne by done. eauto.
  - intros j Hj. left. by eapply owns_frame.
Qed.

(** ** Letting go *)

Lemma store_set_lock s id r : store (set_lock s id r) = <[id := r]> (store s).
Proof. done. Qed.

Lemma forget_inv f fds s l id : proc_inv (only id) f fds s l ->
  exists l', proc_inv nobody f fds (set_lock (bgit_lock_forget id s) id empty_lock) l' /\
    (forall x, x ∈ l' <-> x ∈ l /\ x <> id) /\
    (forall j, owns f fds (set_lock (bgit_lock_forget id s) id empty_lock) l' j ->
       exists x r p d, x ∈ l /\ x <> id /\ store s !! x = Some r /\ holding f fds r p j d).
Proof.
  intros HI. destruct (forget_registry s l id (pi_reg _ _ _ _ _ HI)) as (l' & Hreg & Hl').
  exists l'. assert (Hid : id ∉ l') by (rewrite Hl'; naive_solver).
  assert (Hlook : forall x r, x <> id -> store (set_lock (bgit_lock_forget id s) id empty_lock) !! x = Some r ->
    exists r0, store s !! x = Some r0 /\ same_but_next r0 r).
  { intros x r Hne E. rewrite store_set_lock, lookup_insert_ne in E by done.
    by eapply forget_lookup. }
  assert (Hback : forall x r p i d, x <> id ->
    store (set_lock (bgit_lock_forget id s) id empty_lock) !! x = Some r ->
    holding f fds r p i d -> exists r0, store s !! x = Some r0 /\ holding f fds r0 p i d).
  { intros x r p i d Hne E Hh. destruct (Hlook x r Hne E) as (r0 & E0 & Hs).
    exists r0. split; [done|]. by eapply holding_same_but_next. }
  split; [|split; [done|]].
  - split.
    + destruct Hreg as [Hs Hn]. split; [|done].
      eapply (seg_frame (store (bgit_lock_forget id s))); [|exact Hs].
      intros x Hx. rewrite store_set_lock, lookup_insert_ne; [done|]. by intros ->.
    + intros x r E [Hx Hne]%Hl' _. destruct (Hlook x r Hne E) as (r0 & E0 & Hs).
      destruct (pi_held _ _ _ _ _ HI x r0 E0 Hx Hne) as (p & i & d & Hp & Hh).
      exists p, i, d. split; [done|]. by apply (holding_same_but_next _ _ r0).
    + intros x r E Hx _. destruct (decide (x = id)) as [->|Hne].
      * rewrite store_set_lock, lookup_insert_eq in E. by simplify_eq.
      * destruct (Hlook x r Hne E) as (r0 & E0 & Hs). unfold same_but_next in Hs. rewrite <- Hs.
        apply (pi_idle _ _ _ _ _ HI x r0 E0); [|done]. intros Hxl. apply Hx, Hl'. done.
    + intros x1 x2 r1 r2 p1 p2 i d1 d2 [L1 N1]%Hl' [L2 N2]%Hl' _ _ E1 E2 H1 H2.
      destruct (Hback x1 r1 p1 i d1 N1 E1 H1) as (r1' & E1' & H1').
      destruct (Hback x2 r2 p2 i d2 N2 E2 H2) as (r2' & E2' & H2').
      by apply (pi_distinct _ _ _ _ _ HI x1 x2 r1' r2' p1 p2 i d1 d2).
  - intros j (x & r & p & d & [Hx Hne]%Hl' & E & Hh).
    destruct (Hback x r p j d Hne E Hh) as (r0 & E0 & H0). by exists x, r0, p, d.
Qed.

Lemma proc_inv_only f fds s l id : proc_inv nobody f fds s l -> proc_inv (only id) f fds s l.
Proof.
  intros HI. split; [apply HI|..]; intros; [|eapply HI; eauto with cbytes..].
  by apply (pi_held _ _ _ _ _ HI id0); auto with cbytes.
Qed.

Lemma close_if_cases fd w o w1 : close_if fd w = (o, w1) ->
  o = Ret tt /\ w_fs w1 = w_fs w /\ w_log w1 = w_log w /\
  (forall k, Z.of_N k <> fd -> w_fds w1 !! k = w_fds w !! k).
Proof.
  unfold close_if. intros H. case_if_in H; [|by injection H as <- <-].
  unfold ibind in H. destruct (sys_close fd w) as [z w2] eqn:Hc.
  apply close_cases in Hc as (z' & -> & _ & E1 & E2 & E3). injection H as <- <-.
  split_and!; [done..|]. intros k Hk. destruct E3 as [-> | ->]; [done|].
  rewrite lookup_delete_ne by lia. done.
Qed.

(** A state of the file system in which at most the name [lp] has gone. *)
Definition but_name (lp : option path) (f f' : fs) : Prop :=
  inodes f' = inodes f /\ forall q, lp <> Some q -> names f' !! q = names f !! q.

Lemma unlink_if_cases lp w o w1 : unlink_if lp w = (o, w1) ->
  o = Ret tt /\ w_fds w1 = w_fds w /\ but_name lp (w_fs w) (w_fs w1) /\
  exists new, w_log w1 = new ++ w_log w /\ Forall (but_name lp (w_fs w)) new.
Proof.
  unfold unlink_if. intros H. destruct lp as [lp|];
    [|injection H as <- <-; split_and!; try done; by exists []].
  unfold ibind in H. destruct (sys_unlink lp w) as [z w2] eqn:Hu.
  apply unlink_cases in Hu as (F2 & [(-> & E2 & L2 & _)|(-> & _ & E2 & L2)]); injection H as <- <-.
  - rewrite E2, L2. split_and!; try done. by exists [].
  - assert (Hb : but_name (Some lp) (w_fs w) (w_fs w2)).
    { rewrite E2. split; [done|]. intros q Hq. simpl. rewrite lookup_delete_ne; [done|]. congruence. }
    split_and!; try done. exists [w_fs w2]. split; [by rewrite L2|]. by constructor.
Qed.

(** Nobody but [id] holds a lock through the name [lp] or the descriptor [fd]. *)
Definition unshared (f : fs) (fds : gmap N (N * Z)) (s : locks) (l : list N) (id : N)
    (lp : option path) (fd : Z) : Prop :=
  forall x r q j d, x ∈ l -> x <> id -> store s !! x = Some r -> holding f fds r q j d ->
    lp <> Some (q ++ dot_lock) /\ l_fd r <> fd.

Lemma unshared_frame f fds s l id lp fd f' fds' : unshared f fds s l id lp fd ->
  but_name lp f f' -> (forall k, Z.of_N k <> fd -> fds' !! k = fds !! k) ->
  forall x r q j d, x ∈ l -> x <> id -> store s !! x = Some r -> holding f fds r q j d ->
    holding f' fds' r q j d.
Proof.
  intros Hu [I N] F x r q j d Hx Hne Er Hh. destruct (Hu x r q j d Hx Hne Er Hh) as [Hlp Hfd].
  destruct Hh as (? & ? & ? & ? & n & ? & ?). split_and!; try done; [by rewrite N|].
  exists n. rewrite I, F by lia. done.
Qed.

(** After changes that touch nobody else's lock, the structure [id] is
    forgotten and emptied. *)
Lemma forget_after f fds s l id f' fds' : proc_inv (only id) f fds s l ->
  (forall x r q j d, x ∈ l -> x <> id -> store s !! x = Some r -> holding f fds r q j d ->
    holding f' fds' r q j d) ->
  exists l', proc_inv nobody f' fds' (set_lock (bgit_lock_forget id s) id empty_lock) l' /\
    (forall x, x ∈ l' <-> x ∈ l /\ x <> id) /\
    (forall j, owns f' fds' (set_lock (bgit_lock_forget id s) id empty_lock) l' j ->
       exists x r p d, x ∈ l /\ x <> id /\ store s !! x = Some r /\ holding f fds r p j d).
Proof.
  intros HI Hk. destruct (forget_inv f' fds' s l id) as (l' & HI' & Hl' & Ho).
  { eapply proc_inv_frame; [exact HI|]. eauto. }
  exists l'. split; [done|]. split; [done|].
  intros j (x & r & p & d & Hx & Hne & Er & Hh)%Ho. exists x, r, p.
  destruct (pi_held _ _ _ _ _ HI x r Er Hx Hne) as (p0 & j0 & d0 & _ & H0).
  pose proof (Hk x r p0 j0 d0 Hx Hne Er H0) as Hh'.
  destruct (holding_fun _ _ _ _ _ _ _ _ _ Hh Hh') as (-> & -> & ->). by exists d0.
Qed.

(** Rolling back the structure [id], whose own files nobody else uses. *)
Lemma rollback_cases id s l r w o w' : store s !! id = Some r ->
  proc_inv (only id) (w_fs w) (w_fds w) s l ->
  unshared (w_fs w) (w_fds w) s l id (l_lock_path r) (l_fd r) ->
  bgit_lock_rollback id s w = (o, w') ->
  exists s' l', o = Ret s' /\ proc_inv nobody (w_fs w') (w_fds w') s' l' /\
    (forall x, x ∈ l' <-> x ∈ l /\ x <> id) /\
    dom (store s') = dom (store s) /\
    but_name (l_lock_path r) (w_fs w) (w_fs w') /\
    (exists new, w_log w' = new ++ w_log w /\ Forall (but_name (l_lock_path r) (w_fs w)) new) /\
    (forall j, owns (w_fs w') (w_fds w') s' l' j ->
       exists x r' p d, x ∈ l /\ x <> id /\ store s !! x = Some r' /\ holding (w_fs w) (w_fds w) r' p j d).
Proof.
  intros Hr HI Hu H. unfold bgit_lock_rollback, load_lock in H.
  unfold ibind at 1, lift in H. rewrite Hr in H.
  unfold ibind at 1 in H. destruct (close_if (l_fd r) w) as [o1 w1] eqn:Hc.
  apply close_if_cases in Hc as (-> & Efs & Elog & Efd).
  unfold ibind at 1 in H. destruct (unlink_if (l_lock_path r) w1) as [o2 w2] eqn:Hx.
  apply unlink_if_cases in Hx as (-> & Ffd & Hb & Hlog). injection H as <- <-.
  rewrite Efs in *. rewrite Elog in *.
  destruct (forget_after _ _ s l id (w_fs w2) (w_fds w2) HI) as (l' & HI' & Hl' & Ho).
  { eapply unshared_frame; [exact Hu|done|]. intros k Hk. by rewrite Ffd, Efd. }
  do 2 eexists. split; [done|]. split; [exact HI'|]. split; [done|]. split; [|done].
  rewrite store_set_lock, dom_insert_L. apply set_eq. intros k. rewrite elem_of_union, !elem_of_dom.
  pose proof (forget_same s id k) as Hs. rewrite elem_of_singleton.
  destruct (store (bgit_lock_forget id s) !! k), (store s !! k) eqn:Ek; try done; split; try by eauto.
  intros [->|[? ?]]; [congruence|done].
Qed.

(** Holding a lock, its name and descriptor are its own. *)
Lemma held_unshared f fds s l id r p i d : proc_inv nobody f fds s l -> id ∈ l ->
  store s !! id = Some r -> holding f fds r p i d ->
  unshared f fds s l id (l_lock_path r) (l_fd r).
Proof.
  intros HI Hl Hr Hh x r' q j e Hx Hne Er Hh'.
  destruct (held_apart nobody f fds s l x id r' r q p j i e d) as (_ & Hp & Hfd); auto with cbytes.
  split; [|done]. destruct Hh as (_ & -> & _). intros [= E%dot_lock_inj]. done.
Qed.

(** Giving up or completing the lock [id] keeps the promise to the others. *)
Lemma let_go_ok f fds s l id r p i d f' fds' s' l' : proc_inv nobody f fds s l -> id ∈ l ->
  store s !! id = Some r -> holding f fds r p i d ->
  proc_inv nobody f' fds' s' l' -> inodes f' = inodes f ->
  (forall q, lock_name q -> q <> p ++ dot_lock -> names f' !! q = names f !! q) ->
  (forall j, owns f' fds' s' l' j -> owns f fds s l j) ->
  op_ok f fds s l f' fds' s' l'.
Proof.
  intros HI Hl Hr Hh HI' I' N' O'. split; [done|]. split; [|auto]. split.
  - intros q j n Hq Hn Ho Hj. rewrite I'. split; [|done]. rewrite N'; [done..|].
    intros ->. pose proof Hh as (_ & _ & _ & Hi & _). assert (i = j) as -> by congruence.
    apply Ho. by exists id, r, p, d.
  - intros j Hj. by rewrite I'.
Qed.

Lemma rollback_ok id s l w s' w' : bgit_lock_rollback id s w = (Ret s', w') ->
  proc_inv nobody (w_fs w) (w_fds w) s l ->
  exists l', op_ok (w_fs w) (w_fds w) s l (w_fs w') (w_fds w') s' l' /\
    (forall x, x ∈ l' <-> x ∈ l /\ x <> id) /\ dom (store s') = dom (store s).
Proof.
  intros H HI. destruct (store s !! id) as [r|] eqn:Hr;
    [|by unfold bgit_lock_rollback, load_lock, ibind, lift in H; rewrite Hr in H].
  destruct (decide (id ∈ l)) as [Hl|Hl].
  - destruct (pi_held _ _ _ _ _ HI id r Hr Hl (not_nobody id)) as (p & i & d & Hp & Hh).
    eapply rollback_cases in H as (s1 & l' & E & HI' & Hl' & Hdom & [I' N'] & _ & Ho);
      [|exact Hr|by apply proc_inv_only|by eapply held_unshared].
    injection E as ->. exists l'. split; [|done].
    eapply (let_go_ok _ _ _ _ id r p i d); try done.
    + intros q _ Hq. apply N'. destruct Hh as (_ & -> & _). congruence.
    + intros j (x & r' & q & e & ? & _ & ? & ?)%Ho. by exists x, r', q, e.
  - pose proof (pi_idle _ _ _ _ _ HI id r Hr Hl (not_nobody id)) as Eidle.
    unfold set_next, empty_lock in Eidle. injection Eidle as _ Elp Efd.
    eapply rollback_cases in H as (s1 & l' & E & HI' & Hl' & Hdom & [I' N'] & _ & Ho);
      [|exact Hr|by apply proc_inv_only|].
    2:{ intros x r' q j e _ _ _ (_ & _ & ? & _). rewrite Elp, Efd. split; [done|lia]. }
    injection E as ->. exists l'. split; [|done]. split; [done|]. split.
    + split; [|intros j Hj; by rewrite I']. intros q j n _ Hn _ Hj. rewrite I', N'; [done|].
      by rewrite Elp.
    + intros j (x & r' & q & e & ? & _ & ? & ?)%Ho. left. by exists x, r', q, e.
Qed.

(** ** Committing *)

Lemma content_but_name lp f f' p : but_name lp f f' -> lp <> Some p -> content f' p = content f p.
Proof. intros [I N] Hp. unfold content, lookup_inode. by rewrite I, N. Qed.

(** After the descriptor is closed the structure is still on the registry. *)
Lemma closed_inv f fds fds' s l id r : proc_inv nobody f fds s l -> id ∈ l ->
  store s !! id = Some r -> unshared f fds s l id (l_lock_path r) (l_fd r) ->
  (forall k, Z.of_N k <> l_fd r -> fds' !! k = fds !! k) ->
  proc_inv (only id) f fds' (set_lock s id (close_fd r)) l /\
  unshared f fds' (set_lock s id (close_fd r)) l id (l_lock_path r) (-1) /\
  (forall x r' q j d, x <> id -> x ∈ l -> store s !! x = Some r' ->
     holding f fds' r' q j d -> exists d', holding f fds r' q j d').
Proof.
  intros HI Hl Hr Hu F.
  assert (Hk : forall x r' q j d, x ∈ l -> x <> id -> store s !! x = Some r' ->
    holding f fds r' q j d -> holding f fds' r' q j d).
  { eapply unshared_frame; [exact Hu|done|done]. }
  assert (Hb : forall x r' q j d, x <> id -> x ∈ l -> store s !! x = Some r' ->
     holding f fds' r' q j d -> exists d', holding f fds r' q j d').
  { intros x r' q j d Hne Hx Er Hh.
    destruct (pi_held _ _ _ _ _ HI x r' Er Hx (not_nobody x)) as (q0 & j0 & d0 & _ & H0).
    pose proof (Hk x r' q0 j0 d0 Hx Hne Er H0) as H1.
    destruct (holding_fun _ _ _ _ _ _ _ _ _ Hh H1) as (-> & -> & ->). eauto. }
  split; [|split; [|done]].
  - destruct (pi_reg _ _ _ _ _ HI) as [Hs Hn]. split.
    + split; [|done]. simpl. eapply seg_frame; [|exact Hs]. intros x Hx.
      destruct (decide (x = id)) as [->|Hne]; [|by rewrite lookup_insert_ne].
      by rewrite lookup_insert_eq, Hr.
    + intros x r' Er Hx Hne. simpl in Er. rewrite lookup_insert_ne in Er by (intros ->; by apply Hne).
      destruct (pi_held _ _ _ _ _ HI x r' Er Hx (not_nobody x)) as (q & j & d & Hq & Hh). eauto 10.
    + intros x r' Er Hx Hne. simpl in Er. rewrite lookup_insert_ne in Er by (intros ->; by apply Hne).
      by apply (pi_idle _ _ _ _ _ HI x); auto with cbytes.
    + intros x1 x2 r1 r2 p1 p2 j d1 d2 L1 L2 X1 X2 E1 E2 H1 H2. simpl in E1, E2.
      rewrite lookup_insert_ne in E1, E2 by (intros ->; by (apply X1 || apply X2)).
      destruct (Hb x1 r1 p1 j d1 X1 L1 E1 H1) as [e1 G1].
      destruct (Hb x2 r2 p2 j d2 X2 L2 E2 H2) as [e2 G2].
      by apply (pi_distinct _ _ _ _ _ HI x1 x2 r1 r2 p1 p2 j e1 e2); auto with cbytes.
  - intros x r' q j d Hx Hne Er Hh. simpl in Er. rewrite lookup_insert_ne in Er by done.
    destruct (Hb x r' q j d Hne Hx Er Hh) as [d' Hh'].
    destruct (Hu x r' q j d' Hx Hne Er Hh') as [Hlp _]. split; [done|].
    destruct Hh as (_ & _ & ? & _). lia.
Qed.

(** What a commit of the bytes [d] over the file [p] leaves behind. *)
Definition committed (p : path) (d : list Z) (rc : Z) (w w' : world) : Prop :=
  ((rc = 0 /\ content (w_fs w') p = Some d /\ names (w_fs w') !! (p ++ dot_lock) = None) \/
   (rc = -1 /\ content (w_fs w') p = content (w_fs w) p)) /\
  exists new, w_log w' = new ++ w_log w /\
    Forall (fun f => content f p = content (w_fs w) p \/ content f p = Some d) new.

Lemma rollback_committed id s l r p d w w1 s' w' : store s !! id = Some r ->
  l_lock_path r = Some (p ++ dot_lock) -> ~ lock_name p ->
  w_fs w1 = w_fs w -> w_log w1 = w_log w ->
  proc_inv (only id) (w_fs w1) (w_fds w1) s l ->
  unshared (w_fs w1) (w_fds w1) s l id (l_lock_path r) (l_fd r) ->
  bgit_lock_rollback id s w1 = (Ret s', w') -> committed p d (-1) w w'.
Proof.
  intros Hr Hlp Hp Efs Elog HI Hu H.
  eapply rollback_cases in H as (s1 & l' & _ & _ & _ & _ & Hb & (new & Hnew & Hall) & _); [|done..].
  rewrite Hlp, Efs in *. rewrite Elog in *.
  assert (Hne : Some (p ++ dot_lock) <> Some p).
  { intros [= E]. apply Hp. exists p. done. }
  split; [right; split; [done|by eapply content_but_name]|]. exists new. split; [done|].
  eapply Forall_impl; [exact Hall|]. intros f Hf. left. by eapply content_but_name.
Qed.

(** The result of a commit: the process is in order, [id] is off the
    registry, and the file is as [committed] says. *)
Definition commit_result (id : N) (s : locks) (l : list N) (p : path) (d : list Z)
    (w : world) (o : outcome (Z * locks)) (w' : world) : Prop :=
  exists rc s' l', o = Ret (rc, s') /\
    op_ok (w_fs w) (w_fds w) s l (w_fs w') (w_fds w') s' l' /\
    (forall x, x ∈ l' <-> x ∈ l /\ x <> id) /\ committed p d rc w w'.

Section commit.
Context (id : N) (s : locks) (l : list N) (r : bgit_lock) (p : path) (i : N) (d : list Z) (w : world).
Hypothesis HI : proc_inv nobody (w_fs w) (w_fds w) s l.
Hypothesis Hl : id ∈ l.
Hypothesis Hr : store s !! id = Some r.
Hypothesis Hh : holding (w_fs w) (w_fds w) r p i d.
Hypothesis Hp : ~ lock_name p.

(** A failed commit: rolled back from a state in which at most the
    descriptor is closed. *)
Lemma commit_rollback s1 r1 w1 o w' : store s1 !! id = Some r1 -> l_lock_path r1 = l_lock_path r ->
  w_fs w1 = w_fs w -> w_log w1 = w_log w ->
  proc_inv (only id) (w_fs w1) (w_fds w1) s1 l ->
  unshared (w_fs w1) (w_fds w1) s1 l id (l_lock_path r1) (l_fd r1) ->
  (forall x r' q j e, x ∈ l -> x <> id -> store s1 !! x = Some r' ->
     holding (w_fs w1) (w_fds w1) r' q j e -> owns (w_fs w) (w_fds w) s l j) ->
  (let! s' := bgit_lock_rollback id s1 in iret (-1, s')) w1 = (o, w') ->
  commit_result id s l p d w o w'.
Proof.
  intros Hr1 Elp Efs Elog HI1 Hu1 Hown H. pose proof Hh as (_ & Hlp & _).
  unfold ibind in H. destruct (bgit_lock_rollback id s1 w1) as [o1 w2] eqn:Hb.
  pose proof Hb as Hb'.
  eapply rollback_cases in Hb as (s' & l' & -> & HI' & Hl' & _ & [I' N'] & _ & Ho); [|done..].
  injection H as <- <-. exists (-1), s', l'. split; [done|]. split; [|split; [done|]].
  - eapply (let_go_ok _ _ _ _ id r p i d); try done; [by rewrite I', Efs|..].
    + intros q _ Hq. rewrite N', Efs; [done|]. rewrite Elp, Hlp. congruence.
    + intros j (x & r' & q & e & ? & ? & ? & ?)%Ho. by eapply Hown.
  - eapply rollback_committed; [exact Hr1|by rewrite Elp|done..|exact Hb'].
Qed.

Lemma rename_committed f' : names f' !! p = Some i -> inodes f' = inodes (w_fs w) ->
  content f' p = Some d.
Proof.
  intros N I. destruct Hh as (_ & _ & _ & _ & n & _ & Hi & Hdir & Hd).
  unfold content, lookup_inode. rewrite N. simpl. rewrite I, Hi, Hdir, Hd. done.
Qed.

(** A commit that came through: the descriptor closed, the name moved. *)
Lemma commit_renamed s2 w2 w3 : proc_inv (only id) (w_fs w) (w_fds w2) s2 l ->
  unshared (w_fs w) (w_fds w2) s2 l id (l_lock_path r) (-1) ->
  (forall x r' q j e, x ∈ l -> x <> id -> store s2 !! x = Some r' ->
     holding (w_fs w) (w_fds w2) r' q j e -> owns (w_fs w) (w_fds w) s l j) ->
  w_fs w3 = with_names (w_fs w) (<[p := i]> (delete (p ++ dot_lock) (names (w_fs w)))) ->
  w_log w3 = w_fs w3 :: w_log w -> w_fds w3 = w_fds w2 ->
  commit_result id s l p d w (Ret (0, set_lock (bgit_lock_forget id s2) id empty_lock)) w3.
Proof.
  intros HI2 Hu2 Hown E3 L3 F3. pose proof Hh as (_ & Elp & _).
  assert (Hne : p <> p ++ dot_lock) by (intros E; apply Hp; by exists p).
  assert (Hcp : content (w_fs w3) p = Some d).
  { apply rename_committed; rewrite E3; [|done]. cbn. by rewrite lookup_insert_eq. }
  destruct (forget_after _ _ s2 l id (w_fs w3) (w_fds w3) HI2) as (l' & HI' & Hl' & Ho).
  { intros x r' q j e Hx Hx' Er Hhx. destruct (Hu2 x r' q j e Hx Hx' Er Hhx) as [Hq _].
    destruct Hhx as (Eq & ? & ? & ? & m & ? & ?). split_and!; try done; rewrite E3; cbn.
    - rewrite lookup_insert_ne by (intros ->; apply Hp; by exists q).
      rewrite lookup_delete_ne; [done|]. intros E. apply Hq. by rewrite Elp, E.
    - exists m. by rewrite F3. }
  exists 0, (set_lock (bgit_lock_forget id s2) id empty_lock), l'. split; [done|]. split; [|split; [done|]].
  - eapply (let_go_ok _ _ _ _ id r p i d); try done; [by rewrite E3|..].
    + intros q Hq Hq'. rewrite E3. cbn.
      rewrite lookup_insert_ne by (intros ->; done). by rewrite lookup_delete_ne.
    + intros j (x & r' & q & e & ? & ? & ? & ?)%Ho. by eapply Hown.
  - split.
    + left. split_and!; [done..|]. rewrite E3. cbn.
      rewrite lookup_insert_ne by done. apply lookup_delete_eq.
    + exists [w_fs w3]. rewrite L3. split; [done|]. constructor; [by right|done].
Qed.

Lemma commit_spec o w' : bgit_lock_commit id s w = (o, w') -> commit_result id s l p d w o w'.
Proof.
  intros H. pose proof Hh as (Ep & Elp & Hfd0 & Hname & n & Hfd & Hi & _).
  pose proof (held_unshared _ _ _ _ _ _ _ _ _ HI Hl Hr Hh) as Hu.
  unfold bgit_lock_commit, load_lock in H. unfold ibind at 1, lift in H. rewrite Hr, Ep, Elp in H.
  rewrite (proj2 (Z.ltb_ge _ _) Hfd0) in H.
  unfold ibind at 1 in H. destruct (sys_sync (l_fd r) w) as [o1 w1] eqn:Hs.
  apply sync_cases in Hs as (z1 & -> & _ & E1 & L1 & F1).
  unfold ibind at 1, get_errno in H.
  destruct ((z1 <? 0) && negb (w_errno w1 =? EINVAL)).
  { unfold ibind at 1, builtin_error in H. eapply (commit_rollback s r); [done..| | | | | |exact H];
      cbn; rewrite ?E1, ?L1, ?F1; try done; [by apply proc_inv_only|].
    intros x r' q j e ????. by exists x, r', q, e. }
  unfold ibind at 1 in H. destruct (sys_close (l_fd r) w1) as [o2 w2] eqn:Hc.
  apply close_cases in Hc as (z2 & -> & _ & E2 & L2 & F2). rewrite E1 in E2. rewrite L1 in L2.
  assert (F : forall k, Z.of_N k <> l_fd r -> w_fds w2 !! k = w_fds w !! k).
  { intros k Hk. rewrite <- F1. destruct F2 as [-> | ->]; [done|]. rewrite lookup_delete_ne by lia. done. }
  destruct (closed_inv _ _ _ _ _ _ _ HI Hl Hr Hu F) as (HI2 & Hu2 & Hb2).
  set (s2 := set_lock s id (close_fd r)) in *.
  assert (Hown : forall x r' q j e, x ∈ l -> x <> id -> store s2 !! x = Some r' ->
     holding (w_fs w) (w_fds w2) r' q j e -> owns (w_fs w) (w_fds w) s l j).
  { intros x r' q j e Hx Hne Er Hh'. unfold s2 in Er. rewrite store_set_lock, lookup_insert_ne in Er by done.
    destruct (Hb2 x r' q j e Hne Hx Er Hh') as [e' Hh'']. by exists x, r', q, e'. }
  assert (Hr2 : store s2 !! id = Some (close_fd r)) by (apply lookup_insert_eq).
  destruct (z2 <? 0).
  { unfold ibind at 1, builtin_error in H. eapply (commit_rollback s2 (close_fd r)); [done..| | | | | |exact H];
      cbn; rewrite ?E2, ?L2; done. }
  unfold ibind at 1 in H. destruct (sys_rename (p ++ dot_lock) p w2) as [o3 w3] eqn:Hren.
  apply rename_cases in Hren as (F3 & [(-> & E3 & L3 & _)|(i3 & -> & Hn3 & E3 & L3)]).
  { unfold ibind at 1, builtin_error in H. eapply (commit_rollback s2 (close_fd r)); [done..| | | | | |exact H];
      cbn; rewrite ?E3, ?L3, ?F3, ?E2, ?L2; done. }
  rewrite E2 in Hn3, E3. assert (i3 = i) as -> by congruence.
  cbn [Z.ltb Z.compare] in H. injection H as <- <-.
  eapply commit_renamed; try done. by rewrite L3, L2.
Qed.
End commit.

Lemma commit_ok id s l w rc s' w' : bgit_lock_commit id s w = (Ret (rc, s'), w') ->
  proc_inv nobody (w_fs w) (w_fds w) s l ->
  exists l', op_ok (w_fs w) (w_fds w) s l (w_fs w') (w_fds w') s' l'.
Proof.
  intros H HI. destruct (store s !! id) as [r|] eqn:Hr;
    [|by unfold bgit_lock_commit, load_lock, ibind, lift in H; rewrite Hr in H].
  destruct (Z.lt_ge_cases (l_fd r) 0) as [Hfd|Hfd].
  - unfold bgit_lock_commit, load_lock, ibind, lift in H. rewrite Hr in H.
    rewrite (proj2 (Z.ltb_lt _ _) Hfd) in H. injection H as <- <- <-.
    exists l. by apply op_ok_refl.
  - destruct (open_held _ _ _ _ _ _ HI Hr Hfd) as (Hl & p & i & d & Hp & Hh).
    eapply commit_spec in H as (rc' & s1 & l' & E & Hok & _); [|done..].
    injection E as -> ->. eauto.
Qed.

(** ** Releasing everything *)

Lemma op_ok_trans f fds s l f1 fds1 s1 l1 f2 fds2 s2 l2 : op_ok f fds s l f1 fds1 s1 l1 ->
  op_ok f1 fds1 s1 l1 f2 fds2 s2 l2 -> op_ok f fds s l f2 fds2 s2 l2.
Proof.
  intros (_ & [K1 D1] & O1) (HI2 & [K2 D2] & O2).
  assert (Hin : forall j, inodes f1 !! j = None -> inodes f !! j = None).
  { intros j Hj. destruct (inodes f !! j) eqn:E; [|done].
    destruct (D1 j) as [n Hn]; [by eauto|congruence]. }
  split; [done|]. split; [split|].
  - intros q j n Hq Hn Ho Hj. destruct (K1 q j n Hq Hn Ho Hj) as [Hn1 Hj1].
    apply K2; try done. intros Ho1. destruct (O1 j Ho1) as [?|E]; [done|congruence].
  - intros j Hj. by apply D2, D1.
  - intros j [Hj|Hj]%O2; [by apply O1|right; by apply Hin].
Qed.

Lemma shorter (l l' : list N) id : NoDup l' -> id ∈ l -> (forall x, x ∈ l' <-> x ∈ l /\ x <> id) ->
  (length l' < length l)%nat.
Proof.
  intros Hn Hid Hl'. assert (Hs : id :: l' ⊆+ l).
  { apply NoDup_submseteq; [constructor; [by intros [_ ?]%Hl'|done]|].
    intros x [->|Hx]%elem_of_cons; [done|]. by apply Hl' in Hx as []. }
  apply submseteq_length in Hs. simpl in Hs. lia.
Qed.

Lemma release_loop_ok fuel : forall s l w, (length l < fuel)%nat ->
  proc_inv nobody (w_fs w) (w_fds w) s l ->
  exists s' w', release_loop fuel s w = (Ret s', w') /\
    op_ok (w_fs w) (w_fds w) s l (w_fs w') (w_fds w') s' [] /\ bgit_locks_held s' = None.
Proof.
  induction fuel as [|fuel IH]; intros s l w Hf HI; [lia|]. cbn [release_loop].
  destruct (pi_reg _ _ _ _ _ HI) as [Hs Hn]. destruct l as [|id l].
  - simpl in Hs. rewrite Hs. exists s, w. split; [done|]. split; [by apply op_ok_refl|done].
  - simpl in Hs. destruct Hs as (E & r & Hr & Hs). rewrite E.
    unfold ibind. destruct (bgit_lock_rollback id s w) as [o w1] eqn:Hb. pose proof Hb as Hb'.
    destruct (pi_held _ _ _ _ _ HI id r Hr ltac:(left) (not_nobody id)) as (p & i & d & _ & Hh).
    eapply rollback_cases in Hb as (s1 & l1 & -> & _); [|exact Hr|by apply proc_inv_only|
      eapply held_unshared; [done|by left|done..]].
    apply (rollback_ok _ _ _ _ _ _ Hb') in HI as (l' & Hok & Hl' & _).
    pose proof (proj1 Hok) as HI1. destruct (pi_reg _ _ _ _ _ HI1) as [_ Hn1].
    destruct (IH s1 l' w1) as (s' & w' & -> & Hok2 & Hnone); [|done|].
    + pose proof (shorter (id :: l) l' id Hn1 ltac:(left) Hl'). lia.
    + exists s', w'. split; [done|]. split; [by eapply op_ok_trans|done].
Qed.

Lemma release_all_ok s l w : proc_inv nobody (w_fs w) (w_fds w) s l ->
  exists s' w', bgit_lock_release_all s w = (Ret s', w') /\
    op_ok (w_fs w) (w_fds w) s l (w_fs w') (w_fds w') s' [] /\ bgit_locks_held s' = None.
Proof.
  intros HI. apply (release_loop_ok _ s l w); [|done].
  pose proof (registry_length s l (pi_reg _ _ _ _ _ HI)). lia.
Qed.

(* ------------------------------------------------------------------ *)
(** ** Several processes *)

Record proc := { p_fds : gmap N (N * Z); p_locks : locks }.
Record system := { s_fs : fs; s_procs : gmap N proc }.

Definition update (S0 : system) (pid : N) (w : world) (s : locks) : system :=
  {| s_fs := w_fs w; s_procs := <[pid := {| p_fds := w_fds w; p_locks := s |}]> (s_procs S0) |}.

(** The world a process of the system runs an operation in: the shared file
    system, its own descriptors, and any script. *)
Definition runs_in (S0 : system) (pr : proc) (w : world) : Prop :=
  w_fs w = s_fs S0 /\ w_fds w = p_fds pr.

Inductive sys_step (S0 : system) : system -> Prop :=
| step_start pid : s_procs S0 !! pid = None ->
    sys_step S0 {| s_fs := s_fs S0;
      s_procs := <[pid := {| p_fds := ∅; p_locks := {| store := ∅; bgit_locks_held := None |} |}]>
                   (s_procs S0) |}
| step_exit pid : sys_step S0 {| s_fs := s_fs S0; s_procs := delete pid (s_procs S0) |}
| step_acquire pid pr id p w rc s' w' : s_procs S0 !! pid = Some pr -> runs_in S0 pr w ->
    ~ lock_name p ->
    (forall r, store (p_locks pr) !! id = Some r -> l_fd r < 0) ->
    bgit_lock_acquire id p (p_locks pr) w = (Ret (rc, s'), w') ->
    sys_step S0 (update S0 pid w' s')
| step_write pid pr id data w rc w' : s_procs S0 !! pid = Some pr -> runs_in S0 pr w ->
    bgit_lock_write id data (p_locks pr) w = (Ret rc, w') ->
    sys_step S0 (update S0 pid w' (p_locks pr))
| step_commit pid pr id w rc s' w' : s_procs S0 !! pid = Some pr -> runs_in S0 pr w ->
    bgit_lock_commit id (p_locks pr) w = (Ret (rc, s'), w') ->
    sys_step S0 (update S0 pid w' s')
| step_rollback pid pr id w s' w' : s_procs S0 !! pid = Some pr -> runs_in S0 pr w ->
    bgit_lock_rollback id (p_locks pr) w = (Ret s', w') ->
    sys_step S0 (update S0 pid w' s')
| step_release pid pr w s' w' : s_procs S0 !! pid = Some pr -> runs_in S0 pr w ->
    bgit_lock_release_all (p_locks pr) w = (Ret s', w') ->
    sys_step S0 (update S0 pid w' s')
(** Programs that do not take locks: they leave lock files alone. *)
| step_other f' : keeps (fun _ => False) (s_fs S0) f' ->
    sys_step S0 {| s_fs := f'; s_procs := s_procs S0 |}.

Definition sys_inv (S0 : system) : Prop := exists L : N -> list N,
  (forall pid pr, s_procs S0 !! pid = Some pr ->
     proc_inv nobody (s_fs S0) (p_fds pr) (p_locks pr) (L pid)) /\
  (forall pid1 pid2 pr1 pr2 j, pid1 <> pid2 ->
     s_procs S0 !! pid1 = Some pr1 -> s_procs S0 !! pid2 = Some pr2 ->
     owns (s_fs S0) (p_fds pr1) (p_locks pr1) (L pid1) j ->
     owns (s_fs S0) (p_fds pr2) (p_locks pr2) (L pid2) j -> False).

(** What the others hold survives an operation that keeps its promise. *)
Lemma keeps_holding own f f' fds r p i d : keeps own f f' -> ~ own i ->
  holding f fds r p i d -> holding f' fds r p i d.
Proof.
  intros [K _] Ho (H1 & H2 & H3 & H4 & n & H5 & H6 & H7).
  destruct (K (p ++ dot_lock) i n) as [K1 K2]; [by exists p|done..|].
  split_and!; try done. by exists n.
Qed.

Lemma owns_back own f f' fds s l j : proc_inv nobody f fds s l -> keeps own f f' ->
  (forall j, owns f fds s l j -> ~ own j) -> owns f' fds s l j -> owns f fds s l j.
Proof.
  intros HI K Hd. apply owns_frame; [done|]. intros id r p i d Hid Er Hh. exists d.
  eapply keeps_holding; [done| |done]. apply Hd. by exists id, r, p, d.
Qed.

Lemma proc_inv_keeps own f f' fds s l : proc_inv nobody f fds s l -> keeps own f f' ->
  (forall j, owns f fds s l j -> ~ own j) -> proc_inv nobody f' fds s l.
Proof.
  intros HI K Hd. eapply proc_inv_frame; [exact HI|]. intros id r p i d Hid _ Er Hh. exists d.
  eapply keeps_holding; [done| |done]. apply Hd. by exists id, r, p, d.
Qed.

Lemma op_preserves S0 pid pr w s' w' : sys_inv S0 -> s_procs S0 !! pid = Some pr ->
  runs_in S0 pr w ->
  (forall l, proc_inv nobody (w_fs w) (w_fds w) (p_locks pr) l ->
     exists l', op_ok (w_fs w) (w_fds w) (p_locks pr) l (w_fs w') (w_fds w') s' l') ->
  sys_inv (update S0 pid w' s').
Proof.
  intros (L & HL & HX) Hpid [Ef Efd] Hop. pose proof (HL pid pr Hpid) as HI.
  rewrite <- Ef, <- Efd in HI. destruct (Hop _ HI) as (l' & HI' & K & O).
  rewrite Ef, Efd in K, O.
  assert (Hd : forall pid2 pr2, pid2 <> pid -> s_procs S0 !! pid2 = Some pr2 ->
    forall j, owns (s_fs S0) (p_fds pr2) (p_locks pr2) (L pid2) j ->
      ~ owns (s_fs S0) (p_fds pr) (p_locks pr) (L pid) j).
  { intros pid2 pr2 Hne E2 j H2 H1. by eapply (HX pid2 pid). }
  exists (fun k => if decide (k = pid) then l' else L k). split.
  - intros pid2 pr2 E. simpl in E. destruct (decide (pid2 = pid)) as [->|Hne].
    + rewrite lookup_insert_eq in E. by simplify_eq.
    + rewrite lookup_insert_ne in E by done. simpl. eapply proc_inv_keeps; [by apply HL|exact K|].
      by apply Hd.
  - assert (Hsame : forall pid2 pr2 j, pid2 <> pid -> s_procs S0 !! pid2 = Some pr2 ->
      owns (w_fs w') (p_fds pr2) (p_locks pr2) (L pid2) j ->
      owns (w_fs w') (w_fds w') s' l' j -> False).
    { intros pid2 pr2 j Hne E2 H2 H1.
      eapply owns_back in H2; [|by apply HL|exact K|by apply Hd].
      destruct (O j H1) as [H|H]; [by eapply Hd|].
      destruct H2 as (x & r & q & e & _ & _ & (_ & _ & _ & _ & n & _ & Hj & _)). congruence. }
    intros pid1 pid2 pr1 pr2 j Hne E1 E2. simpl in *.
    destruct (decide (pid1 = pid)) as [->|N1], (decide (pid2 = pid)) as [->|N2]; [done|..];
      rewrite ?lookup_insert_eq in E1; rewrite ?lookup_insert_eq in E2;
      rewrite ?lookup_insert_ne in E1 by done; rewrite ?lookup_insert_ne in E2 by done;
      simplify_eq; simpl; intros H1 H2.
    + by eapply (Hsame pid2).
    + by eapply (Hsame pid1).
    + eapply (HX pid1 pid2 pr1 pr2 j); [done..| |]; (eapply owns_back; [|exact K|..|eassumption]);
        [by apply HL|by apply Hd|by apply HL|by apply Hd].
Qed.

Lemma empty_proc_inv f : proc_inv nobody f ∅ {| store := ∅; bgit_locks_held := None |} [].
Proof.
  split; simpl; [by split; [|constructor]|..]; intros; by rewrite lookup_empty in *.
Qed.

Lemma step_preserves S0 S1 : sys_inv S0 -> sys_step S0 S1 -> sys_inv S1.
Proof.
  intros HS Hstep. destruct Hstep as [pid Hnew|pid|pid pr id p w rc s' w' Hpid Hrun Hp Hfree H
    |pid pr id data w rc w' Hpid Hrun H|pid pr id w rc s' w' Hpid Hrun H
    |pid pr id w s' w' Hpid Hrun H|pid pr w s' w' Hpid Hrun H|f' K].
  - destruct HS as (L & HL & HX). exists (fun k => if decide (k = pid) then [] else L k).
    split; simpl.
    + intros k pr E. case_decide as Hk; subst.
      * rewrite lookup_insert_eq in E. injection E as <-. apply empty_proc_inv.
      * rewrite lookup_insert_ne in E by done. by apply HL.
    + intros k1 k2 pr1 pr2 j Hne E1 E2. case_decide; case_decide; subst;
        try (by intros (x & ? & ? & ? & ?%elem_of_nil & _));
        try (by intros _ (x & ? & ? & ? & ?%elem_of_nil & _)).
      rewrite lookup_insert_ne in E1, E2 by done. by apply (HX k1 k2).
  - destruct HS as (L & HL & HX). exists L. split; simpl.
    + intros k pr [_ E]%lookup_delete_Some. by apply HL.
    + intros k1 k2 pr1 pr2 j Hne [_ E1]%lookup_delete_Some [_ E2]%lookup_delete_Some.
      by apply (HX k1 k2).
  - eapply op_preserves; [done..|]. intros l HI. eapply acquire_ok; [done..| |done].
    intros Hl. destruct (seg_stored _ _ _ _ id (proj1 (pi_reg _ _ _ _ _ HI)) Hl) as [r Hr].
    destruct (pi_held _ _ _ _ _ HI id r Hr Hl (not_nobody id)) as (q & j & d & _ & _ & _ & ? & _).
    specialize (Hfree r Hr). lia.
  - eapply op_preserves; [done..|]. intros l HI. exists l. by eapply write_ok.
  - eapply op_preserves; [done..|]. intros l HI. by eapply commit_ok.
  - eapply op_preserves; [done..|]. intros l HI.
    eapply rollback_ok in H as (l' & Hok & _); [|done]. eauto.
  - eapply op_preserves; [done..|]. intros l HI.
    destruct (release_all_ok _ l w HI) as (s1 & w1 & E & Hok & _). rewrite E in H.
    injection H as <- <-. eauto.
  - destruct HS as (L & HL & HX). exists L. split; simpl.
    + intros k pr E. eapply proc_inv_keeps; [by apply HL|exact K|tauto].
    + intros k1 k2 pr1 pr2 j Hne E1 E2 H1 H2.
      eapply owns_back in H1; [|by apply HL|exact K|tauto].
      eapply owns_back in H2; [|by apply HL|exact K|tauto]. by eapply (HX k1 k2).
Qed.

Lemma reachable_inv S0 S1 : s_procs S0 = ∅ -> rtc sys_step S0 S1 -> sys_inv S1.
Proof.
  intros Hempty H. assert (HS : sys_inv S0).
  { exists (fun _ => []). rewrite Hempty. split; intros *; by rewrite lookup_empty. }
  clear Hempty. induction H; eauto using step_preserves.
Qed.

(* ------------------------------------------------------------------ *)
(** ** Theorems *)


(** [C8] Atomic replacement.  Committing a lock held on [p] with the bytes [d]
    written either returns 0, with [p] holding exactly [d] and the lock file
    gone, or returns -1 with [p] as it was; in every state another process can
    see meanwhile [p] holds its old bytes or all of [d]; and either way the
    structure is off the registry and every other lock is still held. *)
Theorem lock_commit_atomic id s l r p i d w o w' :
  proc_inv nobody (w_fs w) (w_fds w) s l -> store s !! id = Some r ->
  holding (w_fs w) (w_fds w) r p i d -> ~ lock_name p ->
  bgit_lock_commit id s w = (o, w') ->
  exists rc s' l', o = Ret (rc, s') /\
    proc_inv nobody (w_fs w') (w_fds w') s' l' /\ (forall x, x ∈ l' <-> x ∈ l /\ x <> id) /\
    ((rc = 0 /\ content (w_fs w') p = Some d /\ names (w_fs w') !! (p ++ dot_lock) = None) \/
     (rc = -1 /\ content (w_fs w') p = content (w_fs w) p)) /\
    exists new, w_log w' = new ++ w_log w /\
      Forall (fun f => content f p = content (w_fs w) p \/ content f p = Some d) new.
Proof.
  intros HI Hr Hh Hp H. pose proof Hh as (_ & _ & Hfd & _).
  destruct (open_held _ _ _ _ _ _ HI Hr Hfd) as (Hl & _).
  eapply commit_spec in H as (rc & s' & l' & -> & (HI' & _) & Hl' & Hc & Hlog); [|done..].
  by exists rc, s', l'.
Qed.

(** Acquiring.  When the lock file exists the call fails with a report
    and leaves every existing name and file as it was; when it succeeds the
    lock file did not exist, it is now an empty file held by this structure,
    which heads the registry, and every other lock is still held. *)
Theorem lock_acquire_exclusive id p s l w o w' :
  proc_inv nobody (w_fs w) (w_fds w) s l -> id ∉ l -> ~ lock_name p ->
  bgit_lock_acquire id p s w = (o, w') ->
  exists rc s', o = Ret (rc, s') /\ grows (w_fs w) (w_fs w') /\
    (is_Some (names (w_fs w) !! (p ++ dot_lock)) -> rc = -1) /\
    (rc = -1 -> store s' !! id = Some empty_lock /\ w_reports w' <> []) /\
    (rc <> -1 -> rc = 0 /\ names (w_fs w) !! (p ++ dot_lock) = None /\ bgit_locks_held s' = Some id /\
      exists r i, store s' !! id = Some r /\ holding (w_fs w') (w_fds w') r p i []) /\
    (exists l', proc_inv nobody (w_fs w') (w_fds w') s' l' /\ forall x, x ∈ l -> x ∈ l').
Proof.
  intros HI Hid Hp H. pose proof H as Hc.
  apply acquire_cases in Hc as [(-> & G & F & Hrep)|(w1 & fd & -> & G & F & Hc)].
  - do 2 eexists. split; [done|]. split; [done|]. split; [done|]. split; [|split; [done|]].
    + intros _. split; [by rewrite store_set_lock, lookup_insert_eq|done].
    + exists l. split; [|done]. rewrite F. apply idle_insert; [|done].
      eapply proc_inv_frame; [exact HI|]. intros. eexists. by eapply holding_grows.
  - destruct (acquire_ok _ _ _ _ _ _ _ _ H HI Hid Hp) as (l' & HI' & _).
    pose proof Hc as (i & k & -> & Hname & Hino & Hfd & F' & E & _).
    assert (G' : grows (w_fs w) (w_fs w')).
    { eapply grows_trans; [exact G|]. rewrite E. by apply grows_insert. }
    assert (Hnone : names (w_fs w) !! (p ++ dot_lock) = None).
    { destruct (names (w_fs w) !! _) eqn:E2; [|done].
      apply (lookup_weaken _ (names (w_fs w1))) in E2; [congruence|apply G]. }
    do 2 eexists. split; [done|]. split; [done|]. split; [by rewrite Hnone; intros [? ?]|].
    split; [done|]. split.
    + intros _. split_and!; try done. do 2 eexists. cbn [acquired store].
      rewrite lookup_insert_eq. split; [done|]. rewrite E, F'. by apply created_holding.
    + exists l'. split; [done|]. intros x Hx. destruct (decide (x ∈ l')) as [|Hn]; [done|].
      destruct (seg_stored _ _ _ _ x (proj1 (pi_reg _ _ _ _ _ HI)) Hx) as [r Hr].
      destruct (pi_held _ _ _ _ _ HI x r Hr Hx (not_nobody x)) as (q & j & d & _ & (Hq & _)).
      assert (Hr' : store (acquired s id p (Z.of_N k)) !! x = Some r).
      { cbn [acquired store]. rewrite lookup_insert_ne; [done|]. by intros ->. }
      pose proof (pi_idle _ _ _ _ _ HI' x r Hr' Hn (not_nobody x)) as Ei.
      unfold set_next, empty_lock in Ei. injection Ei as ? _ _. congruence.
Qed.

(** Writing into a held lock puts every byte after those already written
    and returns 0, or returns -1 with a report after writing some prefix of
    them: interruptions and short counts never lose or repeat a byte, and the
    loop always ends. *)
Theorem lock_write_complete id data s l r p i d w o w' :
  proc_inv nobody (w_fs w) (w_fds w) s l -> store s !! id = Some r ->
  holding (w_fs w) (w_fds w) r p i d ->
  bgit_lock_write id data s w = (o, w') ->
  exists k, proc_inv nobody (w_fs w') (w_fds w') s l /\
    holding (w_fs w') (w_fds w') r p i (d ++ take k data) /\
    names (w_fs w') = names (w_fs w) /\
    ((o = Ret 0 /\ (length data <= k)%nat /\ w_reports w' = w_reports w) \/
     (o = Ret (-1) /\ w_reports w' = "write '%s': %s"%string :: w_reports w)).
Proof.
  intros HI Hr Hh H. pose proof Hh as (_ & _ & Hfd0 & Hn & n & Hfd & Hi & Hdir & Hd).
  destruct (open_held _ _ _ _ _ _ HI Hr Hfd0) as (Hl & _).
  pose proof H as H'. unfold bgit_lock_write, load_lock, ibind, lift, get_world in H.
  rewrite Hr, (proj2 (Z.ltb_ge _ _) Hfd0) in H.
  eapply write_loop_spec in H as (k & Hap & Hres); [|lia|done..].
  exists k. destruct (appended_holding _ _ _ _ _ _ _ _ _ _ _ HI Hl Hr Hh Hap) as [Hself _].
  split; [|split; [done|split; [apply Hap|done]]].
  destruct Hres as [(-> & _)|(-> & _)]; by apply (write_ok _ _ _ _ _ _ _ H').
Qed.

(** Releasing everything always ends, with the registry empty and every
    structure emptied, and leaves the lock files of other processes alone. *)
Theorem lock_release_all_complete s l w :
  proc_inv nobody (w_fs w) (w_fds w) s l ->
  exists s' w', bgit_lock_release_all s w = (Ret s', w') /\
    bgit_locks_held s' = None /\
    (forall id r, store s' !! id = Some r -> set_next r None = empty_lock) /\
    keeps (owns (w_fs w) (w_fds w) s l) (w_fs w) (w_fs w').
Proof.
  intros HI. destruct (release_all_ok s l w HI) as (s' & w' & E & (HI' & K & _) & Hnone).
  exists s', w'. split_and!; try done. intros id r Hr.
  apply (pi_idle _ _ _ _ _ HI' id r Hr); [by intros ?%elem_of_nil|by intros []].
Qed.

(* ------------------------------------------------------------------ *)
(** ** Concrete runs *)

Definition demo_fs : fs := {| names := ∅; inodes := ∅ |}.

(** A world whose kernel interrupts the first write and cuts the second. *)
Definition demo_world : world :=
  {| w_fs := demo_fs; w_fds := ∅; w_errno := 0;
     w_answers := [Proceed; Proceed; Errno EINTR; Short 2]; w_temps := []; w_now := (0, 0);
     w_log := []; w_reports := [] |}.

Definition demo_path : path := str "r/main".
Definition demo_locks : locks := {| store := ∅; bgit_locks_held := None |}.

Definition demo_acquired : locks * world :=
  match bgit_lock_acquire 7 demo_path demo_locks demo_world with
  | (Ret (_, s), w) => (s, w)
  | (_, w) => (demo_locks, w)
  end.

Lemma demo_not_lock : ~ lock_name demo_path.
Proof. intros [q E]. apply (f_equal (@last Z)) in E. rewrite last_app in E. by vm_compute in E. Qed.

Lemma demo_acquire : bgit_lock_acquire 7 demo_path demo_locks demo_world =
  (Ret (0, demo_acquired.1), demo_acquired.2).
Proof. by vm_compute. Qed.

Lemma demo_holding : exists r i, store demo_acquired.1 !! 7%N = Some r /\
  holding (w_fs demo_acquired.2) (w_fds demo_acquired.2) r demo_path i [].
Proof.
  do 2 eexists. split; [by vm_compute|]. unfold holding. split; [by vm_compute|].
  split; [by vm_compute|]. split; [by vm_compute|]. split; [by vm_compute|].
  eexists. split; [by vm_compute|]. split; [by vm_compute|]. split; by vm_compute.
Qed.

Lemma lock_acquire_exclusive_witness :
  content (w_fs demo_acquired.2) (demo_path ++ dot_lock) = Some [] /\
  grows (w_fs demo_world) (w_fs demo_acquired.2).
Proof.
  split; [by vm_compute|].
  destruct (lock_acquire_exclusive 7 demo_path demo_locks [] demo_world _ _
    (empty_proc_inv _) ltac:(by intros ?%elem_of_nil) demo_not_lock demo_acquire)
    as (rc & s' & _ & G & _). exact G.
Defined.

Lemma demo_inv : exists l,
  proc_inv nobody (w_fs demo_acquired.2) (w_fds demo_acquired.2) demo_acquired.1 l.
Proof.
  destruct (acquire_ok 7 demo_path demo_locks [] demo_world _ _ _ demo_acquire) as (l & HI & _);
    [apply empty_proc_inv|by intros ?%elem_of_nil|apply demo_not_lock|]. eauto.
Qed.

Definition demo_written : world := (bgit_lock_write 7 (str "new") demo_acquired.1 demo_acquired.2).2.

Lemma lock_write_complete_witness : exists k,
  content (w_fs demo_written) (demo_path ++ dot_lock) = Some (take k (str "new")) /\
  (length (str "new") <= k)%nat.
Proof.
  destruct demo_inv as [l HI]. destruct demo_holding as (r & i & Hr & Hh).
  destruct (lock_write_complete 7 (str "new") _ l r _ i [] _ _ demo_written HI Hr Hh
    ltac:(apply surjective_pairing)) as (k & _ & Hh' & _ & Hres).
  exists k. split.
  - destruct Hh' as (_ & _ & _ & Hn & n & _ & Hi & Hdir & Hd).
    unfold content, lookup_inode. rewrite Hn. simpl. by rewrite Hi, Hdir, Hd.
  - destruct Hres as [(_ & Hk & _)|(E & _)]; [done|]. by vm_compute in E.
Defined.

Lemma demo_written_ok : (exists l,
    proc_inv nobody (w_fs demo_written) (w_fds demo_written) demo_acquired.1 l) /\
  exists r i, store demo_acquired.1 !! 7%N = Some r /\
    holding (w_fs demo_written) (w_fds demo_written) r demo_path i (str "new").
Proof.
  split.
  - destruct demo_inv as [l HI]. exists l.
    apply (write_ok 7 (str "new") demo_acquired.1 l demo_acquired.2 0); [|done]. by vm_compute.
  - do 2 eexists. split; [by vm_compute|]. unfold holding. split; [by vm_compute|].
    split; [by vm_compute|]. split; [by vm_compute|]. split; [by vm_compute|].
    eexists. split; [by vm_compute|]. split; [by vm_compute|]. split; by vm_compute.
Qed.

Lemma lock_commit_atomic_witness :
  content (w_fs (bgit_lock_commit 7 demo_acquired.1 demo_written).2) demo_path = Some (str "new").
Proof.
  destruct demo_written_ok as [[l HI] (r & i & Hr & Hh)].
  destruct (lock_commit_atomic 7 _ l r _ i (str "new") _ _ _ HI Hr Hh demo_not_lock
    ltac:(apply surjective_pairing)) as (rc & s' & l' & E & _ & _ & [(_ & Hc & _)|(-> & _)] & _).
  - exact Hc.
  - by vm_compute in E.
Defined.

Lemma lock_release_all_complete_witness : exists s',
  (bgit_lock_release_all demo_acquired.1 demo_acquired.2).1 = Ret s' /\ bgit_locks_held s' = None.
Proof.
  destruct demo_inv as [l HI].
  destruct (lock_release_all_complete _ l _ HI) as (s' & w' & E & Hnone & _).
  exists s'. by rewrite E.
Defined.

Definition demo_system : system := {| s_fs := demo_fs; s_procs := ∅ |}.
Definition demo_proc : proc := {| p_fds := ∅; p_locks := demo_locks |}.
Definition demo_started : system := {| s_fs := demo_fs; s_procs := <[3%N := demo_proc]> ∅ |}.

