(* ===== verification/Index.v ===== *)
(** * The index file (loadables/_git/index.c)

    Reading and writing [.git/index]: the strict reader with every check and
    message, the decoder, the writer with the racy-entry rule and version
    choice, the snapshot of checksum-verified bytes kept between calls, and the
    two readers of extensions.  The central theorem is the round trip: what the
    writer lays out, the reader accepts and decodes to the same entries. *)

From S2P Require Import Prelude Endian Sha1 CLib Odb Sys.
#[local] Open Scope Z_scope.

(* ------------------------------------------------------------------ *)
(** ** Data *)

Record bgit_index_entry := {
  ctime_sec : Z; ctime_nsec : Z; mtime_sec : Z; mtime_nsec : Z;
  dev : Z; ino : Z; mode : Z; uid : Z; gid : Z; size : Z;   (* uint32_t *)
  sha : list Z;                                             (* 20 bytes *)
  flags : Z; flags2 : Z;                                    (* uint16_t *)
  e_path : list Z }.

(** Both fields point into the buffer the reader returns. *)
Record bgit_index_view := { v_disk : Z; v_path : Z }.

(** What [stat] gives of a file. *)
Record stat := {
  st_ctim_sec : Z; st_ctim_nsec : Z; st_mtim_sec : Z; st_mtim_nsec : Z;
  st_dev : Z; st_ino : Z; st_mode : Z; st_uid : Z; st_gid : Z; st_size : Z }.

(** The file's static variables: the timestamp of the last index read, and
    the snapshot of verified bytes. *)
Record index_statics := {
  bgit_index_stamp_sec : Z; bgit_index_stamp_nsec : Z; bgit_index_stamped : bool;
  bgit_index_verified_bytes : option (list Z) }.

(* ------------------------------------------------------------------ *)
(** ** Paths, modes and stages *)

Definition bgit_index_parse_mode (s : list Z) : outcome Z :=
  match s with
  | [] => failed
  | _ => let '(v, rest, erange) := strtoul 8 s in
         if erange || negb (beq rest []) || (v >? UINT32_MAX) then failed
         else Ret (u32 v)
  end.

Definition bgit_index_parse_stage (s : list Z) : outcome Z :=
  match s with
  | [] => failed
  | _ => let '(v, rest, erange) := strtol 10 s in
         if erange || negb (beq rest []) || (v <? 0) || (v >? 3) then failed
         else Ret v
  end.

(** The test on one component of a path. *)
Definition bad_component (part : list Z) : bool :=
  (len part =? 0)
  || ((len part =? 1) && beq part (str "."))
  || ((len part =? 2) && beq part (str ".."))
  || ((len part =? 4) && beq (map tolower part) (str ".git")).

(** The loop over components; each round drops at least the slash. *)
Fixpoint path_valid_loop (fuel : nat) (part : list Z) : bool :=
  match fuel with
  | O => false
  | S fuel' =>
      match find_byte 47 part with
      | Some n => if bad_component (take n part) then false
                  else path_valid_loop fuel' (drop (S n) part)
      | None => negb (bad_component part)
      end
  end.

Definition bgit_index_path_valid (path : list Z) : bool :=
  match path with
  | [] => false
  | _ => path_valid_loop (S (length path)) path
  end.

Definition bgit_index_entry_set_stat (e : bgit_index_entry) (st : stat) : bgit_index_entry :=
  {| ctime_sec := u32 (st_ctim_sec st); ctime_nsec := u32 (st_ctim_nsec st);
     mtime_sec := u32 (st_mtim_sec st); mtime_nsec := u32 (st_mtim_nsec st);
     dev := u32 (st_dev st); ino := u32 (st_ino st); mode := u32 (st_mode st);
     uid := u32 (st_uid st); gid := u32 (st_gid st); size := u32 (st_size st);
     sha := sha e; flags := flags e; flags2 := flags2 e; e_path := e_path e |}.

(* ------------------------------------------------------------------ *)
(** ** Verified bytes *)

Definition BGIT_INDEX_CHECKSUM_CACHE_LIMIT : Z := 8 * 1024 * 1024.

Definition bgit_index_checksum_cached (st : index_statics) (buf : list Z) : bool :=
  match bgit_index_verified_bytes st with
  | Some v => (len buf =? len v) && beq buf v
  | None => false
  end.

Definition set_verified (st : index_statics) (v : option (list Z)) : index_statics :=
  {| bgit_index_stamp_sec := bgit_index_stamp_sec st;
     bgit_index_stamp_nsec := bgit_index_stamp_nsec st;
     bgit_index_stamped := bgit_index_stamped st; bgit_index_verified_bytes := v |}.

Definition bgit_index_remember_verified (st : index_statics) (buf : list Z) : index_statics :=
  if len buf >? BGIT_INDEX_CHECKSUM_CACHE_LIMIT then st else set_verified st (Some buf).

Definition bgit_index_cache_release (st : index_statics) : index_statics := set_verified st None.

(** The trailer test: the last 20 bytes are the SHA-1 of those before. *)
Definition trailer_matches (buf : list Z) : outcome bool :=
  let* body := rdn buf 0 (len buf - 20) in
  let* computed := bgit_index_sha1 body in
  let* trailer := rdn buf (len buf - 20) 20 in
  Ret (beq computed trailer).

(** Both users of the snapshot: verify unless the bytes are known. *)
Definition verify_trailer (st : index_statics) (buf : list Z) (msg : string)
    : outcome index_statics :=
  if bgit_index_checksum_cached st buf then Ret st
  else let* ok := trailer_matches buf in
       if ok : bool then Ret (bgit_index_remember_verified st buf) else Fail msg.

Definition bgit_index_verify_checksum (st : index_statics) (buf : list Z) : outcome index_statics :=
  if len buf <? 32 then failed else verify_trailer st buf "".

(* ------------------------------------------------------------------ *)
(** ** Reading *)

(** The padding after an entry whose length so far is [entry_len]. *)
Definition entry_pad (entry_len : Z) : Z :=
  let pad := 8 - entry_len mod 8 in if pad =? 0 then 8 else pad.

(** [for (j = 0; j < pad; j++) if (buf[off + j] != 0)]. *)
Fixpoint check_padding (k : nat) (buf : list Z) (off : Z) : outcome unit :=
  match k with
  | O => Ret tt
  | S k' => let* b := rd buf off in
            if negb (b =? 0) then Fail "invalid index padding"
            else check_padding k' buf (off + 1)
  end.

(** One entry at [off]: its view and the offset of the next. *)
Definition read_view (buf : list Z) (ver off : Z) : outcome (bgit_index_view * Z) :=
  let flen := len buf in
  if off + 62 >? flen - 20 then Fail "truncated index"
  else
    let disk := off in
    let* flags := bgit_be16 buf (off + 60) in
    let off := off + 62 in
    let extended := (ver >=? 3) && negb (Z.land flags 0x4000 =? 0) in
    if extended && (off + 2 >? flen - 20) then Fail "truncated index (extended flags)"
    else
      let extended_len := if extended then 2 else 0 in
      let off := off + extended_len in
      let* window := rdn buf off (flen - 20 - off) in
      match find_byte 0 window with
      | None => Fail "truncated index (path)"
      | Some nul =>
          let path_len := Z.land flags 0xFFF in
          let path_len := if path_len =? 0xFFF then Z.of_nat nul else path_len in
          if negb (Z.of_nat nul =? path_len) then Fail "truncated index (path)"
          else
            let path := off in
            if negb (bgit_index_path_valid (take nul window)) then Fail "invalid index path '%s'"
            else
              let off := off + path_len in
              let pad := entry_pad (62 + extended_len + path_len) in
              if pad >? flen - 20 - off then Fail "truncated index (padding)"
              else
                let* _ := check_padding (Z.to_nat pad) buf off in
                Ret ({| v_disk := disk; v_path := path |}, off + pad)
      end.

Fixpoint read_views_loop (n : nat) (buf : list Z) (ver off : Z)
    : outcome (list bgit_index_view * Z) :=
  match n with
  | O => Ret ([], off)
  | S n' => let* r := read_view buf ver off in
            let '(v, off) := r in
            let* rest := read_views_loop n' buf ver off in
            let '(vs, off) := rest in
            Ret (v :: vs, off)
  end.

(** The reader on the bytes of the file. *)
Definition parse_views (st : index_statics) (buf : list Z)
    : outcome (list bgit_index_view * index_statics) :=
  let flen := len buf in
  if flen <? 32 then Fail "index too short (%zu bytes)"
  else
    let* magic := rdn buf 0 4 in
    if negb (beq magic (str "DIRC")) then Fail "bad magic (not 'DIRC')"
    else
      let* ver := bgit_be32 buf 4 in
      if negb (ver =? 2) && negb (ver =? 3) then Fail "unsupported index version %u (only 2,3)"
      else
        let* n_entries := bgit_be32 buf 8 in
        if n_entries >? (flen - 32) / 64 then Fail "truncated index (entry count)"
        else
          let* r := read_views_loop (Z.to_nat n_entries) buf ver 12 in
          let* st := verify_trailer st buf "index checksum mismatch" in
          Ret (fst r, st).

(** One view, decoded. *)
Definition decode_view (backing : list Z) (v : bgit_index_view) : outcome bgit_index_entry :=
  let disk := v_disk v in
  let* f0 := bgit_be32 backing disk in
  let* f1 := bgit_be32 backing (disk + 4) in
  let* f2 := bgit_be32 backing (disk + 8) in
  let* f3 := bgit_be32 backing (disk + 12) in
  let* f4 := bgit_be32 backing (disk + 16) in
  let* f5 := bgit_be32 backing (disk + 20) in
  let* f6 := bgit_be32 backing (disk + 24) in
  let* f7 := bgit_be32 backing (disk + 28) in
  let* f8 := bgit_be32 backing (disk + 32) in
  let* f9 := bgit_be32 backing (disk + 36) in
  let* s := rdn backing (disk + 40) 20 in
  let* fl := bgit_be16 backing (disk + 60) in
  let* ver := bgit_be32 backing 4 in
  let* fl2 := (if (ver >=? 3) && negb (Z.land fl 0x4000 =? 0)
               then bgit_be16 backing (disk + 62) else Ret 0) in
  let* p := c_str backing (v_path v) in
  Ret {| ctime_sec := f0; ctime_nsec := f1; mtime_sec := f2; mtime_nsec := f3;
         dev := f4; ino := f5; mode := f6; uid := f7; gid := f8; size := f9;
         sha := s; flags := fl; flags2 := fl2; e_path := p |}.

Fixpoint decode_loop (backing : list Z) (views : list bgit_index_view)
    : outcome (list bgit_index_entry) :=
  match views with
  | [] => Ret []
  | v :: views' => let* e := decode_view backing v in
                   let* es := decode_loop backing views' in
                   Ret (e :: es)
  end.

(** [bgit_index_stamp]: [None] when [stat] fails. *)
Definition bgit_index_stamp (st : index_statics) (mtime : option (Z * Z)) : index_statics :=
  match mtime with
  | None => st
  | Some (sec, nsec) =>
      {| bgit_index_stamp_sec := u32 sec; bgit_index_stamp_nsec := u32 nsec;
         bgit_index_stamped := true;
         bgit_index_verified_bytes := bgit_index_verified_bytes st |}
  end.

Definition bgit_index_unstamp (st : index_statics) : index_statics :=
  {| bgit_index_stamp_sec := 0; bgit_index_stamp_nsec := 0; bgit_index_stamped := false;
     bgit_index_verified_bytes := bgit_index_verified_bytes st |}.

Definition bgit_index_racy (st : index_statics) (e : bgit_index_entry) : bool :=
  if negb (bgit_index_stamped st) || (bgit_index_stamp_sec st =? 0) then false
  else mtime_sec e >=? bgit_index_stamp_sec st.

Definition bgit_index_decode_views (st : index_statics) (mtime : option (Z * Z))
    (views : list bgit_index_view) (backing : list Z)
    : outcome (list bgit_index_entry * index_statics) :=
  let st := bgit_index_stamp st mtime in
  let* es := decode_loop backing views in
  Ret (es, st).

(** The whole read of a file whose bytes are [buf] and whose time is [mtime]. *)
Definition bgit_index_read (st : index_statics) (buf : list Z) (mtime : option (Z * Z))
    : outcome (list bgit_index_entry * index_statics) :=
  let* r := parse_views st buf in
  let '(views, st) := r in
  bgit_index_decode_views st mtime views buf.

(* ------------------------------------------------------------------ *)
(** ** Writing *)

(** The version loop: 3 as soon as one entry has extended flags. *)
Fixpoint index_version (entries : list bgit_index_entry) (version : Z) : outcome Z :=
  match entries with
  | [] => Ret version
  | e :: rest =>
      if negb (Z.land (flags2 e) (Z.lnot 0x6000) =? 0) then Fail "unknown extended index flags"
      else index_version rest (if flags2 e =? 0 then version else 3)
  end.

Definition ext_len (e : bgit_index_entry) : Z := if flags2 e =? 0 then 0 else 2.

(** The flags word on disk. *)
Definition disk_flags (e : bgit_index_entry) : Z :=
  let path_len := len (e_path e) in
  let fl := u16 (Z.lor (Z.land (flags e) 0xB000) (if path_len >? 0xFFF then 0xFFF else path_len)) in
  if flags2 e =? 0 then fl else Z.lor fl 0x4000.

(** The bytes of one entry. *)
Definition entry_bytes (st : index_statics) (e : bgit_index_entry) : list Z :=
  bgit_put_be32 (ctime_sec e) ++ bgit_put_be32 (ctime_nsec e) ++
  bgit_put_be32 (mtime_sec e) ++ bgit_put_be32 (mtime_nsec e) ++
  bgit_put_be32 (dev e) ++ bgit_put_be32 (ino e) ++ bgit_put_be32 (mode e) ++
  bgit_put_be32 (uid e) ++ bgit_put_be32 (gid e) ++
  bgit_put_be32 (if bgit_index_racy st e then 0 else size e) ++
  sha e ++ bgit_put_be16 (disk_flags e) ++
  (if flags2 e =? 0 then [] else bgit_put_be16 (flags2 e)) ++
  e_path e ++ replicate (Z.to_nat (entry_pad (62 + ext_len e + len (e_path e)))) 0.

Fixpoint entries_loop (st : index_statics) (entries : list bgit_index_entry) (at_ : Z)
    : outcome (list Z) :=
  match entries with
  | [] => Ret []
  | e :: rest =>
      if negb (bgit_index_path_valid (e_path e)) then Fail "invalid index path '%s'"
      else if len (e_path e) >? SIZE_MAX - 72 then failed
      else
        let entry_len := 62 + ext_len e + len (e_path e) in
        let need := entry_len + entry_pad entry_len in
        if need >? SIZE_MAX - at_ - 20 then failed
        else let* bs := entries_loop st rest (at_ + need) in
             Ret (entry_bytes st e ++ bs)
  end.

(** The buffer the writer lays out before it touches the disk. *)
Definition index_bytes (st : index_statics) (entries : list bgit_index_entry) (ext : list Z)
    : outcome (list Z) :=
  if len entries >? UINT32_MAX then Fail "too many index entries"
  else
    let* version := index_version entries 2 in
    let head := str "DIRC" ++ bgit_put_be32 version ++ bgit_put_be32 (u32 (len entries)) in
    let* body := entries_loop st entries 12 in
    let laid := head ++ body in
    if len ext >? SIZE_MAX - len laid - 20 then failed
    else
      let laid := laid ++ ext in
      let* digest := bgit_index_sha1 laid in
      Ret (laid ++ digest).

(* ------------------------------------------------------------------ *)
(** ** Lemmas on the layout *)

Lemma entry_pad_range n : 1 <= entry_pad n <= 8.
Proof.
  unfold entry_pad. pose proof (Z.mod_pos_bound n 8). cbn zeta. case_if; lia.
Qed.

(** The entries the format can hold: fields of their widths, an object id, a
    path of C characters. *)
Record wf_entry (e : bgit_index_entry) : Prop := {
  wf_words : Forall (fun v => 0 <= v < 2 ^ 32)
    [ctime_sec e; ctime_nsec e; mtime_sec e; mtime_nsec e; dev e; ino e; mode e; uid e; gid e; size e];
  wf_sha : oid (sha e);
  wf_flags : 0 <= flags e < 2 ^ 16;
  wf_flags2 : 0 <= flags2 e < 2 ^ 16;
  wf_path : cstring (e_path e) }.

(** What reading back what was written gives: the racy rule clears the size,
    and the flags word is rebuilt from the path and the extended flags. *)
Definition as_written (st : index_statics) (e : bgit_index_entry) : bgit_index_entry :=
  {| ctime_sec := ctime_sec e; ctime_nsec := ctime_nsec e; mtime_sec := mtime_sec e;
     mtime_nsec := mtime_nsec e; dev := dev e; ino := ino e; mode := mode e; uid := uid e;
     gid := gid e; size := if bgit_index_racy st e then 0 else size e;
     sha := sha e; flags := disk_flags e; flags2 := flags2 e; e_path := e_path e |}.

Definition disk_words (st : index_statics) (e : bgit_index_entry) : list Z :=
  [ctime_sec e; ctime_nsec e; mtime_sec e; mtime_nsec e; dev e; ino e; mode e; uid e; gid e;
   if bgit_index_racy st e then 0 else size e].

Definition ext_bytes (e : bgit_index_entry) : list Z :=
  if flags2 e =? 0 then [] else bgit_put_be16 (flags2 e).

Definition pad_bytes (e : bgit_index_entry) : list Z :=
  replicate (Z.to_nat (entry_pad (62 + ext_len e + len (e_path e)))) 0.

Lemma entry_bytes_eq st e : entry_bytes st e =
  flat_map bgit_put_be32 (disk_words st e) ++ sha e ++ bgit_put_be16 (disk_flags e) ++
  ext_bytes e ++ e_path e ++ pad_bytes e.
Proof. unfold entry_bytes, disk_words. cbn [flat_map]. by rewrite <- !app_assoc. Qed.

Lemma len_words ws : len (flat_map bgit_put_be32 ws) = 4 * len ws.
Proof.
  induction ws as [|w ws IH]; [done|]. cbn [flat_map]. rewrite len_app, IH, len_put_be32, len_cons. lia.
Qed.

Lemma len_ext_bytes e : len (ext_bytes e) = ext_len e.
Proof. unfold ext_bytes, ext_len. by case_if. Qed.

Lemma ext_len_range e : 0 <= ext_len e <= 2.
Proof. unfold ext_len. case_if; lia. Qed.

Lemma len_pad_bytes e : len (pad_bytes e) = entry_pad (62 + ext_len e + len (e_path e)).
Proof.
  unfold pad_bytes. rewrite len_replicate. pose proof (entry_pad_range (62 + ext_len e + len (e_path e))).
  lia.
Qed.

Lemma len_entry_bytes st e : wf_entry e ->
  len (entry_bytes st e) = 62 + ext_len e + len (e_path e) +
    entry_pad (62 + ext_len e + len (e_path e)).
Proof.
  intros Hwf. destruct (wf_sha e Hwf) as [Hs _].
  rewrite entry_bytes_eq, !len_app, len_words, len_put_be16, len_ext_bytes, len_pad_bytes, Hs.
  change (len (disk_words st e)) with 10. lia.
Qed.

Lemma be32_words ws : forall pre post i off, Forall (fun v => 0 <= v < 2 ^ 32) ws ->
  0 <= i < len ws -> off = len pre + 4 * i ->
  bgit_be32 (pre ++ flat_map bgit_put_be32 ws ++ post) off = Ret (nth (Z.to_nat i) ws 0).
Proof.
  induction ws as [|w ws IH]; intros pre post i off Hws Hi Hoff.
  - change (len (@nil Z)) with 0 in Hi. lia.
  - inversion Hws as [|? ? Hw Hws']; subst. cbn [flat_map]. rewrite <- app_assoc. rewrite len_cons in Hi.
    destruct (Z.eq_dec i 0) as [->|Hne].
    + rewrite be32_put by (try done; lia). done.
    + rewrite app_assoc, (IH _ post (i - 1)); [|done|lia|rewrite len_app, len_put_be32; lia].
      replace (Z.to_nat i) with (S (Z.to_nat (i - 1))) by lia. done.
Qed.

Lemma c_str_app pre s post off : cstring s -> off = len pre ->
  c_str (pre ++ s ++ 0 :: post) off = Ret s.
Proof.
  intros Hs ->. unfold c_str. pose proof (len_nonneg pre).
  rewrite !len_app, len_cons. pose proof (len_nonneg s). pose proof (len_nonneg post).
  if_false. unfold len. rewrite Nat2Z.id, drop_app_length, find_byte_app.
  - by rewrite take_app_length.
  - eapply Forall_impl; [exact Hs|]. unfold is_char. lia.
Qed.

Lemma check_padding_zeros k : forall pre post off, off = len pre ->
  check_padding k (pre ++ replicate k 0 ++ post) off = Ret tt.
Proof.
  induction k as [|k IH]; intros pre post off Hoff; [done|]. cbn [check_padding replicate app].
  rewrite rd_app_hd' by done. cbn [obind]. cbn [Z.eqb negb].
  replace (pre ++ 0 :: replicate k 0 ++ post) with ((pre ++ [0]) ++ replicate k 0 ++ post)
    by (by rewrite <- app_assoc).
  apply IH. rewrite len_app, len_cons. change (len (@nil Z)) with 0. lia.
Qed.

(** The flags word says how long the path is and whether extended flags
    follow. *)
Lemma disk_flags_spec e : wf_entry e ->
  0 <= disk_flags e < 2 ^ 16 /\
  Z.land (disk_flags e) 0xFFF = Z.min (len (e_path e)) 0xFFF /\
  (Z.land (disk_flags e) 0x4000 =? 0) = (flags2 e =? 0).
Proof.
  intros Hwf. unfold disk_flags. pose proof (len_nonneg (e_path e)) as Hp.
  set (n := if len (e_path e) >? 0xFFF then 0xFFF else len (e_path e)).
  assert (Hn : 0 <= n < 2 ^ 12 /\ n = Z.min (len (e_path e)) 0xFFF).
  { unfold n. case_if; lia. }
  destruct Hn as [Hn En]. clearbody n. rewrite <- En.
  assert (Hhi : forall i, 12 <= i -> Z.testbit n i = false).
  { intros i Hi. rewrite <- (Z.mod_small n (2 ^ 12)) by done. apply Z.mod_pow2_bits_high. lia. }
  assert (Hf : 0 <= Z.lor (Z.land (flags e) 0xB000) n < 2 ^ 16).
  { apply lor_lt_pow2; [lia| |lia]. pose proof (land_le_r (flags e) 0xB000). lia. }
  rewrite u16_id by done.
  assert (H12 : Z.land (Z.lor (Z.land (flags e) 0xB000) n) 0xFFF = n).
  { rewrite Z.land_lor_distr_l, <- Z.land_assoc. change (Z.land 0xB000 0xFFF) with 0.
    rewrite Z.land_0_r, Z.lor_0_l. change 0xFFF with (2 ^ 12 - 1). rewrite land_ones_mod by lia.
    by apply Z.mod_small. }
  assert (H14 : Z.land (Z.lor (Z.land (flags e) 0xB000) n) 0x4000 = 0).
  { rewrite Z.land_lor_distr_l, <- Z.land_assoc. change (Z.land 0xB000 0x4000) with 0.
    rewrite Z.land_0_r, Z.lor_0_l. apply Z.bits_inj'. intros i Hi. rewrite Z.land_spec, Z.bits_0.
    change 0x4000 with (2 ^ 14). rewrite Z.pow2_bits_eqb by lia.
    destruct (Z.eqb_spec 14 i) as [<-|]; [by rewrite Hhi|apply andb_false_r]. }
  case_if.
  - split; [done|]. split; [done|]. by rewrite H14.
  - split; [apply lor_lt_pow2; lia|]. 
    rewrite !(Z.land_lor_distr_l (Z.lor (Z.land (flags e) 0xB000) n)), H12, H14. split.
    + change (Z.land 0x4000 0xFFF) with 0. apply Z.lor_0_r.
    + change (Z.land 0x4000 0x4000) with 0x4000. rewrite Z.lor_0_l. done.
Qed.

(* ------------------------------------------------------------------ *)
(** ** The reader on what the writer laid out *)

(** Where an entry sits: [buf] is [pre], the entry, [post] and a trailer. *)
Section entry.
Context (st : index_statics) (e : bgit_index_entry) (pre post trailer : list Z) (ver : Z).
Hypothesis Hwf : wf_entry e.
Hypothesis Htr : len trailer = 20.
Hypothesis Hvalid : bgit_index_path_valid (e_path e) = true.
Hypothesis Hver : flags2 e <> 0 -> 3 <= ver.

Let buf := pre ++ entry_bytes st e ++ post ++ trailer.
Let fixed := flat_map bgit_put_be32 (disk_words st e) ++ sha e.
Let npad := entry_pad (62 + ext_len e + len (e_path e)).

Lemma len_fixed : len fixed = 60.
Proof.
  unfold fixed. rewrite len_app, len_words. destruct (wf_sha e Hwf) as [-> _]. done.
Qed.

Lemma buf_flags : buf = (pre ++ fixed) ++ bgit_put_be16 (disk_flags e) ++
  (ext_bytes e ++ e_path e ++ pad_bytes e ++ post ++ trailer).
Proof. unfold buf, fixed. rewrite entry_bytes_eq. by rewrite <- !app_assoc. Qed.

Lemma buf_path : buf = (pre ++ fixed ++ bgit_put_be16 (disk_flags e) ++ ext_bytes e) ++
  (e_path e ++ pad_bytes e ++ post) ++ trailer.
Proof. unfold buf, fixed. rewrite entry_bytes_eq. by rewrite <- !app_assoc. Qed.

Lemma buf_pad : buf = (pre ++ fixed ++ bgit_put_be16 (disk_flags e) ++ ext_bytes e ++ e_path e) ++
  replicate (Z.to_nat npad) 0 ++ (post ++ trailer).
Proof. unfold buf, fixed. rewrite entry_bytes_eq. unfold pad_bytes. by rewrite <- !app_assoc. Qed.

Lemma pad_cons : exists z, pad_bytes e = 0 :: z.
Proof.
  unfold pad_bytes. fold npad. pose proof (entry_pad_range (62 + ext_len e + len (e_path e))).
  exists (replicate (Z.to_nat npad - 1) 0).
  replace (Z.to_nat npad) with (S (Z.to_nat npad - 1)) at 1 by (unfold npad; lia). done.
Qed.

Lemma len_buf : len buf = len pre + 62 + ext_len e + len (e_path e) + npad + len post + 20.
Proof. unfold buf. rewrite !len_app, len_entry_bytes, Htr by done. fold npad. lia. Qed.

Lemma extended_iff : (ver >=? 3) && negb (Z.land (disk_flags e) 0x4000 =? 0) = negb (flags2 e =? 0).
Proof.
  destruct (disk_flags_spec e Hwf) as (_ & _ & ->). destruct (flags2 e =? 0) eqn:E; simpl.
  - apply andb_false_r.
  - apply Z.eqb_neq in E. rewrite andb_true_r, Z.geb_leb. apply Z.leb_le. auto.
Qed.

Lemma path_nonzero : Forall (fun x => x <> 0) (e_path e).
Proof. eapply Forall_impl; [apply wf_path, Hwf|]. unfold is_char. lia. Qed.

Lemma read_view_written : read_view buf ver (len pre) =
  Ret ({| v_disk := len pre; v_path := len pre + 62 + ext_len e |},
       len pre + len (entry_bytes st e)).
Proof.
  pose proof len_buf as Hlen. pose proof (len_nonneg pre). pose proof (len_nonneg post).
  pose proof (len_nonneg (e_path e)). pose proof (ext_len_range e). pose proof len_fixed as Hfix.
  pose proof (entry_pad_range (62 + ext_len e + len (e_path e))) as Hpad. fold npad in Hpad.
  destruct (disk_flags_spec e Hwf) as (Hfl & Hfl12 & Hfl14).
  unfold read_view. if_false. rewrite buf_flags at 1.
  rewrite be16_put by (rewrite ?len_app; lia). cbn [obind]. rewrite extended_iff.
  assert (Hext : (if negb (flags2 e =? 0) then 2 else 0) = ext_len e).
  { unfold ext_len. by destruct (flags2 e =? 0). }
  replace (negb (flags2 e =? 0) && (len pre + 62 + 2 >? len buf - 20)) with false.
  2:{ symmetry. destruct (flags2 e =? 0); [done|]. simpl in *. solve_false. }
  rewrite Hext. rewrite buf_path at 1.
  rewrite rdn_app'; [|rewrite !len_app, len_put_be16, len_ext_bytes; lia
    |rewrite !len_app, len_pad_bytes; fold npad; lia].
  cbn [obind]. destruct pad_cons as [z Hz].
  assert (Hfind : find_byte 0 (e_path e ++ pad_bytes e ++ post) = Some (length (e_path e))).
  { rewrite Hz. apply find_byte_app, path_nonzero. }
  rewrite Hfind, take_app_length, Hfl12. fold (len (e_path e)).
  replace (if Z.min (len (e_path e)) 4095 =? 4095 then len (e_path e)
           else Z.min (len (e_path e)) 4095) with (len (e_path e)) by (case_if; lia).
  rewrite Z.eqb_refl, Hvalid. cbn [negb]. fold npad.
  if_false. rewrite buf_pad.
  rewrite check_padding_zeros by (rewrite !len_app, len_put_be16, len_ext_bytes; lia).
  cbn [obind]. rewrite len_entry_bytes by done. fold npad. do 2 f_equal. lia.
Qed.

Lemma decode_view_written : bgit_be32 buf 4 = Ret ver ->
  decode_view buf {| v_disk := len pre; v_path := len pre + 62 + ext_len e |} =
  Ret (as_written st e).
Proof.
  intros Hv4. pose proof len_fixed as Hfix. destruct (wf_sha e Hwf) as [Hsl _].
  destruct (disk_flags_spec e Hwf) as (Hfl & _ & _).
  assert (Hws : Forall (fun v => 0 <= v < 2 ^ 32) (disk_words st e)).
  { pose proof (wf_words e Hwf) as H. unfold disk_words.
    repeat (inversion H as [|? ? ? H']; subst; clear H; rename H' into H; constructor; [done|]).
    inversion H; subst. constructor; [|done]. destruct (bgit_index_racy st e); [lia|done]. }
  assert (Hword : forall i off, off = len pre + 4 * i -> 0 <= i < 10 ->
    bgit_be32 buf off = Ret (nth (Z.to_nat i) (disk_words st e) 0)).
  { intros i off Hoff Hi. unfold buf. rewrite entry_bytes_eq, <- app_assoc.
    apply be32_words; [done|by change (len (disk_words st e)) with 10|done]. }
  unfold decode_view. cbn [v_disk v_path].
  rewrite (Hword 0), (Hword 1), (Hword 2), (Hword 3), (Hword 4), (Hword 5), (Hword 6), (Hword 7),
    (Hword 8), (Hword 9) by lia. cbn [obind].
  assert (Hsha : rdn buf (len pre + 40) 20 = Ret (sha e)).
  { unfold buf. rewrite entry_bytes_eq, <- !app_assoc, (app_assoc pre).
    apply rdn_app'; [rewrite len_app, len_words; change (len (disk_words st e)) with 10; lia|lia]. }
  rewrite Hsha. cbn [obind].
  assert (Hflags : bgit_be16 buf (len pre + 60) = Ret (disk_flags e)).
  { rewrite buf_flags. apply be16_put; [rewrite len_app; lia|done]. }
  rewrite Hflags, Hv4. cbn [obind]. rewrite extended_iff.
  assert (Hf2 : (if negb (flags2 e =? 0) then bgit_be16 buf (len pre + 62) else Ret 0) =
    Ret (flags2 e)).
  { destruct (flags2 e =? 0) eqn:E; simpl; [apply Z.eqb_eq in E; by rewrite E|].
    rewrite buf_flags. unfold ext_bytes. rewrite E, app_assoc.
    apply be16_put; [rewrite !len_app, len_put_be16; lia|apply wf_flags2, Hwf]. }
  rewrite Hf2. cbn [obind].
  destruct pad_cons as [z Hz].
  assert (Hpath : c_str buf (len pre + 62 + ext_len e) = Ret (e_path e)).
  { rewrite buf_path, Hz, <- !app_assoc, !(app_assoc pre), !(app_assoc (pre ++ _)),
      !(app_assoc ((pre ++ _) ++ _)).
    apply c_str_app; [apply wf_path, Hwf|].
    rewrite !len_app, len_put_be16, len_ext_bytes. lia. }
  rewrite Hpath. reflexivity.
Qed.
End entry.

Lemma entries_loop_inv st es : forall at_ bs, entries_loop st es at_ = Ret bs ->
  bs = flat_map (entry_bytes st) es /\
  Forall (fun e => bgit_index_path_valid (e_path e) = true) es.
Proof.
  induction es as [|e es IH]; intros at_ bs H; cbn [entries_loop] in H; [by injection H as <-|].
  case_if_in H; [done|]. case_if_in H; [done|]. case_if_in H; [done|]. inv_bind H.
  injection H as <-. apply IH in Hv as [-> Hval]. split; [done|]. by constructor.
Qed.

Lemma index_version_inv es : forall v0 v, index_version es v0 = Ret v ->
  Forall (fun e => flags2 e <> 0 -> v = 3) es /\ (v = v0 \/ v = 3).
Proof.
  induction es as [|e es IH]; intros v0 v H; cbn [index_version] in H.
  - injection H as <-. auto.
  - case_if_in H; [done|]. destruct (IH _ _ H) as [Hall Hv].
    case_if_in Hv; split; try (constructor; [|done]); auto; intros; lia.
Qed.

Lemma sha1_len data d : bgit_index_sha1 data = Ret d -> len d = 20 /\ bytes d.
Proof.
  unfold bgit_index_sha1. intros H. inv_bind H. inv_bind H. inv_bind H.
  destruct v1 as [[[[h0 h1] h2] h3] h4]. injection H as <-. split; [done|].
  unfold bytes, bgit_put_be32. repeat (constructor; [apply u8_range|]). constructor.
Qed.

Lemma read_decode_written st es : forall pre post trailer ver buf,
  buf = pre ++ flat_map (entry_bytes st) es ++ post ++ trailer -> len trailer = 20 ->
  Forall wf_entry es -> Forall (fun e => bgit_index_path_valid (e_path e) = true) es ->
  Forall (fun e => flags2 e <> 0 -> 3 <= ver) es -> bgit_be32 buf 4 = Ret ver ->
  exists views, read_views_loop (length es) buf ver (len pre) =
      Ret (views, len pre + len (flat_map (entry_bytes st) es)) /\
    decode_loop buf views = Ret (map (as_written st) es).
Proof.
  induction es as [|e es IH]; intros pre post trailer ver buf Hbuf Htr Hwf Hval Hver H4.
  - exists []. split; [|done]. cbn. change (len (@nil Z)) with 0. by rewrite Z.add_0_r.
  - inversion Hwf as [|? ? We Wes]; inversion Hval as [|? ? Ve Ves]; inversion Hver as [|? ? Re Res]; subst.
    cbn [flat_map] in *.
    set (buf := pre ++ (entry_bytes st e ++ flat_map (entry_bytes st) es) ++ post ++ trailer) in *.
    assert (Eb : buf = pre ++ entry_bytes st e ++ (flat_map (entry_bytes st) es ++ post) ++ trailer).
    { unfold buf. by rewrite <- !app_assoc. }
    destruct (IH (pre ++ entry_bytes st e) post trailer ver buf) as (views & Hr & Hd); try done.
    { unfold buf. by rewrite <- !app_assoc. }
    eexists. cbn [length read_views_loop].
    rewrite Eb at 1. rewrite read_view_written by done. cbn [obind]. rewrite len_app in Hr.
    rewrite Hr. cbn [obind]. split; [do 2 f_equal; rewrite len_app; lia|].
    cbn [decode_loop map]. rewrite Eb at 1.
    rewrite (decode_view_written st e pre _ trailer ver) by (try done; by rewrite <- Eb).
    cbn [obind]. by rewrite Hd.
Qed.

Lemma len_entries st es : Forall wf_entry es ->
  Forall (fun e => bgit_index_path_valid (e_path e) = true) es ->
  64 * len es <= len (flat_map (entry_bytes st) es).
Proof.
  induction es as [|e es IH]; intros Hwf Hval; [done|].
  inversion Hwf as [|? ? We Wes]; inversion Hval as [|? ? Ve Ves]; subst.
  cbn [flat_map]. rewrite len_app, len_cons, len_entry_bytes by done.
  specialize (IH Wes Ves). pose proof (ext_len_range e).
  pose proof (entry_pad_range (62 + ext_len e + len (e_path e))).
  assert (1 <= len (e_path e)).
  { destruct (e_path e); [done|]. rewrite len_cons. pose proof (len_nonneg l). lia. }
  lia.
Qed.

(** The parts of what the writer lays out, as the readers find them. *)
Lemma written_layout st es ext buf : index_bytes st es ext = Ret buf -> Forall wf_entry es ->
  exists hd digest version views,
    buf = hd ++ flat_map (entry_bytes st) es ++ ext ++ digest /\ len hd = 12 /\ len digest = 20 /\
    bgit_index_sha1 (hd ++ flat_map (entry_bytes st) es ++ ext) = Ret digest /\
    rdn buf 0 4 = Ret (str "DIRC") /\ bgit_be32 buf 4 = Ret version /\ (version = 2 \/ version = 3) /\
    bgit_be32 buf 8 = Ret (len es) /\ 64 * len es <= len (flat_map (entry_bytes st) es) /\
    read_views_loop (length es) buf version 12 =
      Ret (views, 12 + len (flat_map (entry_bytes st) es)) /\
    decode_loop buf views = Ret (map (as_written st) es).
Proof.
  intros H Hwf. unfold index_bytes in H. case_if_in H; [done|].
  inv_bind H. rename v into version, Hv into Hver. inv_bind H. rename v into body, Hv into Hbody.
  cbn zeta in H. case_if_in H; [done|]. inv_bind H. rename v into digest, Hv into Hsha.
  apply Ret_inj in H. subst buf. destruct (index_version_inv _ _ _ Hver) as [Hv3 Hv].
  apply entries_loop_inv in Hbody as [-> Hval]. destruct (sha1_len _ _ Hsha) as [Hd _].
  pose proof (len_entries st es Hwf Hval) as Hmin. pose proof (len_nonneg es) as Hn.
  set (hd := str "DIRC" ++ bgit_put_be32 version ++ bgit_put_be32 (u32 (len es))) in *.
  assert (Hlh : len hd = 12) by (unfold hd; rewrite !len_app, !len_put_be32; done).
  rewrite <- (app_assoc hd) in Hsha |- *.
  rewrite <- !app_assoc. set (buf := hd ++ flat_map (entry_bytes st) es ++ ext ++ digest).
  unfold UINT32_MAX in *. assert (Hu : u32 (len es) = len es) by (apply u32_id; lia).
  assert (H4 : bgit_be32 buf 4 = Ret version).
  { unfold buf, hd. rewrite <- !app_assoc. apply be32_put; [done|lia]. }
  destruct (read_decode_written st es hd ext digest version buf) as (views & Hr & Hdec); try done.
  { eapply Forall_impl; [exact Hv3|]. simpl. intros e Hi Hne. rewrite Hi by done. lia. }
  rewrite Hlh in Hr. exists hd, digest, version, views. split_and!; try done.
  - unfold buf, hd. rewrite <- !app_assoc. by apply (rdn_app' []).
  - unfold buf, hd. rewrite <- !app_assoc, (app_assoc (str "DIRC")), Hu. apply be32_put; [done|lia].
Qed.

Lemma parse_written st es ext buf : index_bytes st es ext = Ret buf -> Forall wf_entry es ->
  forall st0, exists views st1, parse_views st0 buf = Ret (views, st1) /\
    decode_loop buf views = Ret (map (as_written st) es) /\
    (st1 = st0 \/ st1 = bgit_index_remember_verified st0 buf).
Proof.
  intros H Hwf st0.
  destruct (written_layout _ _ _ _ H Hwf) as (hd & digest & version & views & Eb & Hlh & Hd & Hsha &
    H0 & H4 & Hv & H8 & Hmin & Hr & Hdec).
  pose proof (len_nonneg es). pose proof (len_nonneg ext).
  set (laid := hd ++ flat_map (entry_bytes st) es ++ ext) in *.
  assert (Eb' : buf = laid ++ digest) by (rewrite Eb; unfold laid; by rewrite <- !app_assoc).
  assert (Hlb : len buf = len laid + 20) by (rewrite Eb', len_app; lia).
  assert (Hll : len laid = 12 + len (flat_map (entry_bytes st) es) + len ext).
  { unfold laid. rewrite !len_app, Hlh. lia. }
  unfold parse_views. rewrite H0, H4, H8. cbn [obind].
  if_false. replace (beq (str "DIRC") (str "DIRC")) with true by (by vm_compute). cbn [negb].
  replace (negb (version =? 2) && negb (version =? 3)) with false by (destruct Hv as [-> | ->]; done).
  if_false. replace (Z.to_nat (len es)) with (length es) by (unfold len; lia).
  rewrite Hr. cbn [obind fst]. exists views. unfold verify_trailer.
  destruct (bgit_index_checksum_cached st0 buf); [eauto|].
  assert (Ht : trailer_matches buf = Ret true).
  { unfold trailer_matches.
    replace (rdn buf 0 (len buf - 20)) with (Ret laid).
    2:{ symmetry. rewrite Eb'. apply (rdn_app' []); [done|rewrite len_app; lia]. }
    cbn [obind]. rewrite Hsha. cbn [obind].
    replace (rdn buf (len buf - 20) 20) with (Ret digest).
    2:{ symmetry. rewrite Hlb, Eb', <- (app_nil_r digest) at 1. apply rdn_app'; lia. }
    cbn [obind]. unfold beq. by rewrite (bool_decide_eq_true_2 _ eq_refl). }
  rewrite Ht. cbn [obind]. eauto.
Qed.

(* ------------------------------------------------------------------ *)
(** ** Safety of the reader on any bytes *)

(** A view the decoder can follow: the fixed part inside the buffer, with its
    extended flags, and a path that ends inside it. *)
Definition view_ok (buf : list Z) (v : bgit_index_view) : Prop :=
  0 <= v_disk v /\ v_disk v + 64 <= len buf /\ 0 <= v_path v <= len buf /\
  exists n, find_byte 0 (drop (Z.to_nat (v_path v)) buf) = Some n.

Lemma find_byte_take c n l k : find_byte c (take n l) = Some k -> find_byte c l = Some k.
Proof.
  rewrite !find_byte_Some. intros (a & b & H & Ha & Hc). exists a, (b ++ drop n l).
  split; [|done]. rewrite <- (take_drop n l), H at 1. by rewrite <- app_assoc.
Qed.

Lemma check_padding_yields k buf : bytes buf -> forall off, 0 <= off -> off + Z.of_nat k <= len buf ->
  yields (fun _ => True) (check_padding k buf off).
Proof.
  intros Hb. induction k as [|k IH]; intros off Ho Hl; cbn [check_padding]; [done|].
  apply yields_bind with (P := fun _ => True); [apply yields_rd; [done|lia|done]|].
  intros b _. case_if; [done|]. apply IH; lia.
Qed.

Lemma read_view_yields buf ver off : bytes buf -> 12 <= off ->
  yields (fun r => view_ok buf r.1 /\ off < r.2 <= len buf - 20) (read_view buf ver off).
Proof.
  intros Hb Hoff. unfold read_view. cbn zeta. case_if; [done|].
  destruct (yields_be16 buf (off + 60) Hb) as (fl & -> & Hfl); [lia..|]. cbn [obind].
  set (ext := (ver >=? 3) && negb (Z.land fl 0x4000 =? 0)).
  destruct (ext && (off + 62 + 2 >? len buf - 20)) eqn:Eext; [done|].
  set (xl := if ext then 2 else 0).
  assert (Hxl : 0 <= xl <= 2 /\ off + 62 + xl <= len buf - 20).
  { unfold xl. destruct ext; simpl in Eext; simpl_bool; lia. }
  rewrite rdn_ok by lia. cbn [obind].
  set (window := take _ _). destruct (find_byte 0 window) as [nul|] eqn:Hnul; [|done].
  assert (Hn : (nul < length window)%nat).
  { apply find_byte_Some in Hnul as (a & b & -> & <- & _). rewrite length_app. simpl. lia. }
  assert (Hw : Z.of_nat (length window) = len buf - 20 - (off + 62 + xl)).
  { unfold window. rewrite length_take, length_drop. unfold len in *. lia. }
  set (pl := if Z.land fl 0xFFF =? 0xFFF then Z.of_nat nul else Z.land fl 0xFFF).
  case_if; [done|]. case_if; [done|].
  pose proof (entry_pad_range (62 + xl + pl)) as Hpad. case_if; [done|].
  eapply yields_bind; [apply check_padding_yields; [done|lia..]|].
  intros _ _. simpl. split; [|lia]. split_and!; simpl; try lia.
  exists nul. eapply find_byte_take. exact Hnul.
Qed.

Lemma read_views_yields n buf ver : bytes buf -> forall off, 12 <= off ->
  yields (fun r => Forall (view_ok buf) r.1) (read_views_loop n buf ver off).
Proof.
  intros Hb. induction n as [|n IH]; intros off Hoff; cbn [read_views_loop]; [by simpl|].
  eapply yields_bind; [by apply read_view_yields|]. intros [v off'] [Hv Ho]. simpl in Hv, Ho.
  eapply yields_bind; [apply IH; lia|]. intros [vs off''] Hvs. simpl in *. by constructor.
Qed.

Lemma decode_loop_yields buf vs : bytes buf -> 12 <= len buf -> Forall (view_ok buf) vs ->
  yields (fun es => length es = length vs) (decode_loop buf vs).
Proof.
  intros Hb Hl. induction 1 as [|v vs Hv _ IH]; cbn [decode_loop]; [done|].
  eapply yields_bind with (P := fun _ => True).
  - destruct Hv as (H1 & H2 & H3 & n & Hn). unfold decode_view. cbn zeta.
    repeat match goal with
    | |- context [bgit_be32 buf ?o] =>
        destruct (yields_be32 buf o Hb) as (? & -> & _); [lia..|]; cbn [obind]
    end.
    rewrite rdn_ok by lia. cbn [obind].
    destruct (yields_be16 buf (v_disk v + 60) Hb) as (fl & -> & _); [lia..|]. cbn [obind].
    destruct ((_ >=? 3) && negb (Z.land fl 0x4000 =? 0));
      [destruct (yields_be16 buf (v_disk v + 62) Hb) as (fl2 & -> & _); [lia..|]|];
      cbn [obind]; unfold c_str; if_false; by rewrite Hn.
  - intros e _. eapply yields_bind; [exact IH|]. intros es Hes. simpl. by rewrite Hes.
Qed.

Lemma trailer_total buf : bytes buf -> 32 <= len buf -> 8 * len buf < 2 ^ 64 ->
  exists b, trailer_matches buf = Ret b.
Proof.
  intros Hb Hl Hn. unfold trailer_matches. rewrite !rdn_ok by lia. cbn [obind].
  rewrite sha1_is_fips; [cbn [obind]; eauto|by apply Forall_take, Forall_drop|].
  rewrite len_take, len_drop. lia.
Qed.

Lemma verify_yields st buf msg : bytes buf -> 32 <= len buf -> 8 * len buf < 2 ^ 64 ->
  yields (fun _ => True) (verify_trailer st buf msg).
Proof.
  intros Hb Hl Hn. unfold verify_trailer. case_if; [done|].
  destruct (trailer_total buf Hb Hl Hn) as [b ->]. cbn [obind]. by destruct b.
Qed.

Lemma index_read_yields st buf mtime : bytes buf -> 8 * len buf < 2 ^ 64 ->
  yields (fun _ => True) (bgit_index_read st buf mtime).
Proof.
  intros Hb Hn. unfold bgit_index_read.
  apply yields_bind with (P := fun r => Forall (view_ok buf) r.1 /\ 32 <= len buf).
  - unfold parse_views. cbn zeta. case_if; [done|]. rewrite rdn_ok by lia. cbn [obind].
    case_if; [done|]. destruct (yields_be32 buf 4 Hb) as (ver & -> & _); [lia..|]. cbn [obind].
    case_if; [done|]. destruct (yields_be32 buf 8 Hb) as (n & -> & _); [lia..|]. cbn [obind].
    case_if; [done|]. eapply yields_bind; [apply read_views_yields; [done|lia]|].
    intros [vs off] Hvs. eapply yields_bind; [by apply verify_yields|]. intros st' _. done.
  - intros [vs st'] [Hvs Hl]. unfold bgit_index_decode_views.
    eapply yields_bind; [apply decode_loop_yields; [done|lia|exact Hvs]|]. done.
Qed.

(* ------------------------------------------------------------------ *)
(** ** The snapshot of verified bytes *)

(** The snapshot only ever holds bytes whose trailer was checked. *)
Definition snapshot_ok (st : index_statics) : Prop :=
  match bgit_index_verified_bytes st with
  | Some v => trailer_matches v = Ret true
  | None => True
  end.

Lemma verify_trailer_spec st buf msg st' : snapshot_ok st ->
  verify_trailer st buf msg = Ret st' -> trailer_matches buf = Ret true /\ snapshot_ok st'.
Proof.
  intros Hs. unfold verify_trailer, bgit_index_checksum_cached, snapshot_ok in *. intros H.
  destruct (bgit_index_verified_bytes st) as [v|] eqn:Ev.
  - destruct ((len buf =? len v) && beq buf v) eqn:Ec; simpl_bool.
    + injection H as <-. subst v. rewrite Ev. done.
    + inv_bind H. destruct v0; [|done]. injection H as <-. split; [done|].
      unfold bgit_index_remember_verified. case_if; [by rewrite Ev|done].
  - inv_bind H. destruct v; [|done]. injection H as <-. split; [done|].
    unfold bgit_index_remember_verified. case_if; [by rewrite Ev|done].
Qed.

Lemma verify_trailer_accepts st buf msg : trailer_matches buf = Ret true ->
  exists st', verify_trailer st buf msg = Ret st'.
Proof.
  intros H. unfold verify_trailer. case_if; [eauto|]. rewrite H. cbn [obind]. eauto.
Qed.

(* ------------------------------------------------------------------ *)
(** ** Valid paths *)

(** Components joined by slashes. *)
Fixpoint join (comps : list (list Z)) : list Z :=
  match comps with
  | [] => []
  | [c] => c
  | c :: rest => c ++ 47 :: join rest
  end.

(** A component the index may hold. *)
Definition good_component (c : list Z) : Prop :=
  Forall (fun b => b <> 47) c /\ c <> [] /\ c <> str "." /\ c <> str ".." /\
  map tolower c <> str ".git".

Lemma len_eqb {A} (l : list A) n : (len l =? Z.of_nat n) = true <-> length l = n.
Proof. unfold len. rewrite Z.eqb_eq. lia. Qed.

Lemma bad_component_false c : bad_component c = false <->
  c <> [] /\ c <> str "." /\ c <> str ".." /\ map tolower c <> str ".git".
Proof.
  unfold bad_component. rewrite !orb_false_iff, !andb_false_iff. unfold beq.
  rewrite !bool_decide_eq_false, !Z.eqb_neq. unfold len. split.
  - intros (((H0 & H1) & H2) & H4). split_and!; intros E; subst; simpl in *.
    + lia.
    + destruct H1; done.
    + destruct H2; done.
    + destruct H4 as [H4|H4]; [|done]. apply (f_equal length) in E.
      rewrite length_map in E. simpl in E. lia.
  - intros (H0 & H1 & H2 & H4). split_and!; [|by right..].
    destruct c; [done|]. simpl. lia.
Qed.

Lemma first_component (a b c d : list Z) : Forall (fun x => x <> 47) a -> Forall (fun x => x <> 47) c ->
  a ++ 47 :: b = c ++ 47 :: d -> a = c /\ b = d.
Proof.
  intros Ha Hc H. pose proof (find_byte_app 47 a b Ha) as F1. rewrite H in F1.
  rewrite find_byte_app in F1 by done. injection F1 as F1.
  apply app_inj_1 in H as [-> H]; [|done]. by injection H as ->.
Qed.

Lemma path_valid_loop_spec fuel : forall p, (length p < fuel)%nat ->
  path_valid_loop fuel p = true <->
  exists comps, comps <> [] /\ p = join comps /\ Forall good_component comps.
Proof.
  induction fuel as [|fuel IH]; intros p Hf; [lia|]. cbn [path_valid_loop].
  destruct (find_byte 47 p) as [n|] eqn:E.
  - apply find_byte_Some in E as (a & b & -> & <- & Ha). rewrite take_app_length.
    rewrite drop_app_S. rewrite length_app in Hf. simpl in Hf.
    destruct (bad_component a) eqn:Eb.
    + split; [done|]. intros (comps & Hne & Hj & Hall). exfalso.
      destruct comps as [|c [|c2 rest]]; [done|..]; inversion Hall as [|? ? [Hc Hg] _]; subst;
        simpl in Hj.
      * subst c. apply Forall_app in Hc as [_ Hc]. inversion Hc; subst. done.
      * apply first_component in Hj as [-> _]; [|done..]. apply bad_component_false in Hg. congruence.
    + rewrite IH by lia. apply bad_component_false in Eb. split.
      * intros (comps & Hne & -> & Hall). exists (a :: comps). split; [done|]. split.
        { destruct comps; done. }
        constructor; [|done]. by split.
      * intros (comps & Hne & Hj & Hall).
        destruct comps as [|c [|c2 rest]]; [done|..]; inversion Hall as [|? ? [Hc Hg] Hrest]; subst;
          simpl in Hj.
        { subst c. apply Forall_app in Hc as [_ Hc]. inversion Hc; subst. done. }
        apply first_component in Hj as [-> ->]; [|done..]. by exists (c2 :: rest).
  - apply find_byte_None in E. rewrite negb_true_iff, bad_component_false. split.
    + intros Hg. exists [p]. split; [done|]. split; [done|]. constructor; [by split|constructor].
    + intros (comps & Hne & Hj & Hall).
      destruct comps as [|c [|c2 rest]]; [done|..]; inversion Hall as [|? ? [Hc Hg] _]; subst; [done|].
      simpl in E. apply Forall_app in E as [_ E]. inversion E; subst. done.
Qed.

(* ------------------------------------------------------------------ *)
(** ** Theorems *)

(** [C3] Round trip.  What the writer lays out for any entries the format can
    hold, with any extension bytes after them, the strict reader accepts,
    whatever its statics, and decodes to the same entries in the same order,
    but for what the writer means to change: the size of a racy entry is zero
    and the flags word carries the path length and the extended bit. *)
Theorem index_roundtrip st es ext buf st0 mtime :
  index_bytes st es ext = Ret buf -> Forall wf_entry es ->
  exists st1, bgit_index_read st0 buf mtime = Ret (map (as_written st) es, st1).
Proof.
  intros H Hwf. destruct (parse_written st es ext buf H Hwf st0) as (vs & st1 & Hp & Hd & _).
  unfold bgit_index_read, bgit_index_decode_views. rewrite Hp. cbn [obind]. rewrite Hd.
  cbn [obind]. eauto.
Qed.

Definition demo_statics : index_statics :=
  {| bgit_index_stamp_sec := 100; bgit_index_stamp_nsec := 0; bgit_index_stamped := true;
     bgit_index_verified_bytes := None |}.

(** An intent-to-add entry at stage 2, racy against the index's timestamp. *)
Definition demo_entry : bgit_index_entry :=
  {| ctime_sec := 1; ctime_nsec := 2; mtime_sec := 100; mtime_nsec := 4; dev := 5; ino := 6;
     mode := 0x81a4; uid := 8; gid := 9; size := 10; sha := replicate 20 171; flags := 0x2003;
     flags2 := 0x2000; e_path := str "d/f" |}.

Lemma demo_entry_wf : wf_entry demo_entry.
Proof.
  split; simpl; try lia; [repeat (constructor; [lia|]); constructor| |solve_bytes].
  split; [done|solve_bytes].
Qed.

Lemma index_roundtrip_witness : exists buf st1,
  index_bytes demo_statics [demo_entry] (str "TREE") = Ret buf /\
  bgit_index_read demo_statics buf None = Ret ([as_written demo_statics demo_entry], st1) /\
  size (as_written demo_statics demo_entry) = 0.
Proof.
  destruct (index_bytes demo_statics [demo_entry] (str "TREE")) as [buf| |] eqn:E;
    [|by vm_compute in E..].
  destruct (index_roundtrip demo_statics [demo_entry] (str "TREE") buf demo_statics None E
    (Forall_cons_2 _ _ _ demo_entry_wf (Forall_nil_2 _))) as [st1 Hr].
  exists buf, st1. split; [done|]. split; [exact Hr|reflexivity].
Defined.

(** [C6] The strict reader never loads outside the file's bytes, however
    corrupt they are: entry counts, flags, path lengths, extended words and
    padding are all checked before use, and so is every offset the decoder
    follows afterwards. *)
Theorem index_read_safe st buf mtime :
  bytes buf -> 8 * len buf < 2 ^ 64 -> safe (bgit_index_read st buf mtime).
Proof. intros. eapply yields_safe. by apply index_read_yields. Qed.

Lemma index_read_safe_witness : safe (bgit_index_read demo_statics
  (str "DIRC" ++ [0; 0; 0; 3; 0; 0; 0; 1] ++ replicate 84 255) None).
Proof. apply index_read_safe; [solve_bytes|vm_compute; reflexivity]. Defined.

(** Reusing the snapshot never accepts bytes whose trailer is wrong: the
    reader accepts only files whose last 20 bytes are the SHA-1 of the rest,
    keeps the snapshot in that state, and gives the same entries whatever the
    snapshot held. *)
Theorem index_snapshot_sound st1 st2 buf vs st1' :
  snapshot_ok st1 -> parse_views st1 buf = Ret (vs, st1') ->
  trailer_matches buf = Ret true /\ snapshot_ok st1' /\
  exists st2', parse_views st2 buf = Ret (vs, st2').
Proof.
  intros Hs H. unfold parse_views in H |- *. cbn zeta in H |- *. case_if_in H; [done|].
  inv_bind H. rewrite Hv. cbn [obind]. case_if_in H; [done|].
  inv_bind H. rewrite Hv0. cbn [obind]. case_if_in H; [done|].
  inv_bind H. rewrite Hv1. cbn [obind]. case_if_in H; [done|].
  inv_bind H. rewrite Hv2. cbn [obind]. inv_bind H. injection H as <- <-.
  apply verify_trailer_spec in Hv3 as [Ht Hok]; [|done]. split; [done|]. split; [done|].
  destruct (verify_trailer_accepts st2 buf "index checksum mismatch" Ht) as [st2' ->].
  cbn [obind]. eauto.
Qed.

Lemma index_snapshot_sound_witness : exists buf vs st',
  parse_views demo_statics buf = Ret (vs, st') /\ trailer_matches buf = Ret true.
Proof.
  destruct (index_bytes demo_statics [demo_entry] []) as [buf| |] eqn:E; [|by vm_compute in E..].
  destruct (parse_views demo_statics buf) as [[vs st']| |] eqn:Ep.
  - exists buf, vs, st'. split; [done|].
    by destruct (index_snapshot_sound demo_statics demo_statics buf vs st' I Ep).
  - exfalso. vm_compute in E. injection E as <-. by vm_compute in Ep.
  - exfalso. vm_compute in E. injection E as <-. by vm_compute in Ep.
Defined.

(** A path is valid exactly when it is a sequence of components joined by
    single slashes, none of them empty, ["."], [".."] or [".git"] in any mix
    of cases: no path the index accepts can leave the work tree or reach into
    the repository. *)
Theorem path_valid_exact p : bgit_index_path_valid p = true <->
  exists comps, comps <> [] /\ p = join comps /\ Forall good_component comps.
Proof.
  unfold bgit_index_path_valid. destruct p as [|b p].
  - split; [done|]. intros (comps & Hne & Hj & Hall).
    destruct comps as [|c [|c2 rest]]; [done|..]; inversion Hall as [|? ? [_ Hg] _]; subst; simpl in Hj.
    + by destruct Hg as [[] _].
    + by destruct c.
  - apply path_valid_loop_spec. lia.
Qed.
