(* ===== verification/IndexEdit.v ===== *)
(** * Editing entries (loadables/_git/index.c, lines 1195-1333)

    The order of entries, the in-place removal of a path, and the two text
    formats entries are given in: ["<mode> <sha> <stage> <path>"] lines and the
    lines of [update-index --index-info]. *)

From S2P Require Import Prelude CLib Odb Index.
#[local] Open Scope Z_scope.

(* ------------------------------------------------------------------ *)
(** ** Operations *)

(** [(flags >> 12) & 3]. *)
Definition stage_of (e : bgit_index_entry) : Z := Z.land (Z.shiftr (flags e) 12) 3.

Definition bgit_index_path_cmp (ea eb : bgit_index_entry) : Z :=
  let r := bcmp (e_path ea) (e_path eb) in
  if negb (r =? 0) then r else stage_of ea - stage_of eb.

(** The compaction loop: [r] reads and [w] writes the same array. *)
Fixpoint remove_loop (k : nat) (entries : list bgit_index_entry) (path : list Z) (r w : nat)
    (removed : bool) : list bgit_index_entry * nat * bool :=
  match k with
  | O => (entries, w, removed)
  | S k' =>
      match entries !! r with
      | None => (entries, w, removed)
      | Some e =>
          if bcmp (e_path e) path =? 0 then remove_loop k' entries path (S r) w true
          else
            let entries := if negb (Nat.eqb w r) then <[w := e]> entries else entries in
            remove_loop k' entries path (S r) (S w) removed
      end
  end.

(** The entries that are left, and whether any was removed. *)
Definition bgit_index_remove_path (entries : list bgit_index_entry) (path : list Z)
    : list bgit_index_entry * bool :=
  let '(es, n, removed) := remove_loop (length entries) entries path 0 0 false in
  (take n es, removed).

(** [memset (out, 0, sizeof *out)] with the fields a line gives. *)
Definition blank_entry (m : Z) (id : list Z) (fl : Z) (p : list Z) : bgit_index_entry :=
  {| ctime_sec := 0; ctime_nsec := 0; mtime_sec := 0; mtime_nsec := 0; dev := 0; ino := 0;
     mode := m; uid := 0; gid := 0; size := 0; sha := id; flags := fl; flags2 := 0; e_path := p |}.

(** [((stage & 0x3) << 12) | (pl > 0xFFF ? 0xFFF : pl)]. *)
Definition line_flags (stage pl : Z) : Z :=
  u16 (Z.lor (Z.shiftl (Z.land stage 3) 12) (if pl >? 0xFFF then 0xFFF else pl)).

(** The two ways a line can be refused. *)
Inductive line_error := Malformed | BadStage.

(** [stat_of] is what [stat] returns for a path. *)
Definition bgit_index_line_to_entry (stat_of : list Z -> option stat) (line : list Z)
    (working_root : option (list Z)) : line_error + bgit_index_entry :=
  match scan_word 15 line with None => inl Malformed | Some (mode_s, rest) =>
  match scan_word 63 rest with None => inl Malformed | Some (sha_s, rest) =>
  match scan_word 15 rest with None => inl Malformed | Some (stage_s, rest) =>
  match bgit_index_parse_stage stage_s with
  | Ret stage =>
      let path := trim_eol (skip_spaces rest) in
      let pl := len path in
      if pl =? 0 then inl Malformed
      else match bgit_index_parse_mode mode_s, bgit_hex_to_sha sha_s with
      | Ret m, Ret id =>
          if negb (bgit_index_path_valid path) then inl Malformed
          else
            let out := blank_entry m id (line_flags stage pl) path in
            match working_root with
            | None => inr out
            | Some root =>
                match stat_of (take 8191 (root ++ 47 :: path)) with
                | Some st => inr (bgit_index_entry_set_stat out st)
                | None => inr out
                end
            end
      | _, _ => inl Malformed
      end
  | _ => inl BadStage
  end end end end.

(** [strtok_r] with its saved position. *)
Definition strtok_r (s : list Z) : option (list Z) * list Z :=
  match strtok s with
  | Some (t, save) => (Some t, save)
  | None => (None, [])
  end.

(** [for (p = strtok_r (line); p && ntok < 3; p = strtok_r (NULL))]: the
    tokens kept, and the saved position. *)
Fixpoint tok_loop (room : nat) (p : option (list Z)) (save : list Z) : list (list Z) * list Z :=
  match p, room with
  | Some t, S room' =>
      let '(p, save) := strtok_r save in
      let '(ts, save) := tok_loop room' p save in
      (t :: ts, save)
  | _, _ => ([], save)
  end.

(** The entry, and whether the line asks for a removal. *)
Definition bgit_index_info_line_to_entry (line : list Z) : outcome (bgit_index_entry * bool) :=
  match find_byte 9 line with
  | None => failed
  | Some tab =>
      let path := trim_eol (drop (S tab) line) in
      let pl := len path in
      if negb (bgit_index_path_valid path) then failed
      else
        let '(p, save) := strtok_r (take tab line) in
        let '(toks, save) := tok_loop 3 p save in
        match fst (strtok_r save) with
        | Some _ => failed
        | None =>
            match toks with
            | [t0; t1] =>
                let* m := bgit_index_parse_mode t0 in
                let* id := bgit_hex_to_sha t1 in
                if m =? 0 then Ret (blank_entry m id 0 path, true)
                else Ret (blank_entry m id (line_flags 0 pl) path, false)
            | [t0; t1; t2] =>
                let* m := bgit_index_parse_mode t0 in
                let '(sha_s, stage) :=
                  match bgit_index_parse_stage t2 with
                  | Ret stage => if len t1 =? 40 then (t1, stage) else (t2, 0)
                  | _ => (t2, 0)
                  end in
                let* id := bgit_hex_to_sha sha_s in
                if m =? 0 then Ret (blank_entry m id 0 path, true)
                else if (stage <? 0) || (stage >? 3) then failed
                else Ret (blank_entry m id (line_flags stage pl) path, false)
            | _ => failed
            end
        end
  end.

(* ------------------------------------------------------------------ *)
(** ** Order *)

Lemma path_cmp_preorder : total_preorder bgit_index_path_cmp.
Proof.
  unfold bgit_index_path_cmp. split.
  - intros a b. rewrite (bcmp_antisym (e_path a)). destruct (bcmp_range (e_path a) (e_path b)) as [-> | [-> | ->]];
      simpl; lia.
  - intros a b c. cbn zeta.
    pose proof (bcmp_le_trans (e_path a) (e_path b) (e_path c)) as Ht.
    pose proof (bcmp_range (e_path a) (e_path b)) as R1.
    pose proof (bcmp_range (e_path b) (e_path c)) as R2.
    pose proof (bcmp_range (e_path a) (e_path c)) as R3.
    destruct (Z.eq_dec (bcmp (e_path a) (e_path b)) 0) as [E1|E1];
      destruct (Z.eq_dec (bcmp (e_path b) (e_path c)) 0) as [E2|E2].
    + apply bcmp_eq in E1, E2. rewrite E1, E2, !bcmp_refl. simpl. lia.
    + apply bcmp_eq in E1. rewrite E1, bcmp_refl. simpl.
      rewrite (proj2 (Z.eqb_neq _ _) E2). simpl. lia.
    + apply bcmp_eq in E2. rewrite <- E2, bcmp_refl. simpl.
      rewrite (proj2 (Z.eqb_neq _ _) E1). simpl. lia.
    + rewrite (proj2 (Z.eqb_neq _ _) E1), (proj2 (Z.eqb_neq _ _) E2). simpl. intros H1 H2.
      pose proof (bcmp_lt_trans (e_path a) (e_path b) (e_path c)).
      replace (bcmp (e_path a) (e_path c) =? 0) with false by (symmetry; apply Z.eqb_neq; lia).
      simpl. lia.
Qed.

Lemma path_cmp_equal a b : bgit_index_path_cmp a b <= 0 -> bgit_index_path_cmp b a <= 0 ->
  e_path a = e_path b /\ stage_of a = stage_of b.
Proof.
  unfold bgit_index_path_cmp. cbn zeta. rewrite (bcmp_antisym (e_path a)).
  destruct (Z.eq_dec (bcmp (e_path a) (e_path b)) 0) as [E|E].
  - rewrite E. simpl. apply bcmp_eq in E. split; [done|lia].
  - assert (E' : - bcmp (e_path a) (e_path b) <> 0) by lia.
    rewrite (proj2 (Z.eqb_neq _ _) E), (proj2 (Z.eqb_neq _ _) E'). simpl. lia.
Qed.

(** ** Removal *)

Definition keeps_path (path : list Z) (e : bgit_index_entry) : bool := negb (bcmp (e_path e) path =? 0).

Lemma take_insert_next {A} (l : list A) w x : (w < length l)%nat ->
  take (S w) (<[w := x]> l) = take w l ++ [x].
Proof.
  intros Hw. rewrite (take_S_r _ _ x) by (by apply list_lookup_insert_eq).
  by rewrite take_insert_ge.
Qed.

Lemma remove_loop_spec path k : forall es r w removed, (length es = r + k)%nat -> (w <= r)%nat ->
  let '(es', n, rm) := remove_loop k es path r w removed in
  take n es' = take w es ++ List.filter (keeps_path path) (drop r es) /\
  rm = removed || existsb (fun e => negb (keeps_path path e)) (drop r es).
Proof.
  induction k as [|k IH]; intros es r w removed Hl Hw; cbn [remove_loop].
  - rewrite drop_ge by lia. simpl. by rewrite app_nil_r, orb_false_r.
  - destruct (es !! r) as [e|] eqn:E; [|apply lookup_ge_None in E; lia].
    rewrite (drop_S _ _ _ E). cbn [List.filter existsb].
    assert (Ek : keeps_path path e = negb (bcmp (e_path e) path =? 0)) by done.
    rewrite Ek. destruct (bcmp (e_path e) path =? 0); cbn [negb].
    + specialize (IH es (S r) w true ltac:(lia) ltac:(lia)).
      destruct (remove_loop k es path (S r) w true) as [[es' n] rm]. destruct IH as [-> ->].
      split; [done|]. by destruct removed.
    + set (es1 := if negb (w =? r)%nat then <[w := e]> es else es).
      assert (Hes1 : length es1 = length es /\ take (S w) es1 = take w es ++ [e] /\
        drop (S r) es1 = drop (S r) es).
      { unfold es1. destruct (Nat.eqb_spec w r) as [->|Hne]; simpl.
        - split; [done|]. split; [|done]. by apply take_S_r.
        - rewrite length_insert. split; [done|]. split; [apply take_insert_next; lia|].
          by apply drop_insert_lt; lia. }
      destruct Hes1 as (Hl1 & Ht1 & Hd1).
      specialize (IH es1 (S r) (S w) removed ltac:(lia) ltac:(lia)).
      destruct (remove_loop k es1 path (S r) (S w) removed) as [[es' n] rm].
      destruct IH as [-> ->]. rewrite Ht1, Hd1, <- app_assoc. split; [done|]. by rewrite orb_false_l.
Qed.

(* ------------------------------------------------------------------ *)
(** ** Lines *)

Lemma isspace_cons c s : isspace c = false -> skip_spaces (c :: s) = c :: s.
Proof. intros H. simpl. by rewrite H. Qed.

Lemma scan_word_body_app c rest : isspace c = true -> forall width t,
  Forall (fun b => isspace b = false) t -> (length t <= width)%nat ->
  scan_word_body width (t ++ c :: rest) = (t, c :: rest).
Proof.
  intros Hc. induction width as [|width IH]; intros t Ht Hw.
  - destruct t; [done|simpl in Hw; lia].
  - destruct t as [|b t]; simpl; [by rewrite Hc|].
    inversion Ht as [|? ? Hb Ht']; subst. rewrite Hb. simpl in Hw. by rewrite IH by (try done; lia).
Qed.

(** A word that fits its width and is followed by a blank. *)
Lemma scan_word_app width t c rest : Forall (fun b => isspace b = false) t -> t <> [] ->
  (length t <= width)%nat -> isspace c = true ->
  scan_word width (t ++ c :: rest) = Some (t, c :: rest).
Proof.
  intros Ht Hne Hw Hc. unfold scan_word.
  assert (Hskip : skip_spaces (t ++ c :: rest) = t ++ c :: rest).
  { destruct t; [done|]. inversion Ht; subst. by apply isspace_cons. }
  rewrite Hskip, scan_word_body_app by done. by destruct t.
Qed.

Lemma scan_word_skip width c s : isspace c = true -> scan_word width (c :: s) = scan_word width s.
Proof. intros Hc. unfold scan_word. simpl. by rewrite Hc. Qed.

(** ["%o"]. *)
Fixpoint oct_loop (fuel : nat) (n : Z) (acc : list Z) : list Z :=
  match fuel with
  | O => acc
  | S fuel' => let acc' := (48 + n mod 8) :: acc in
               if n <? 8 then acc' else oct_loop fuel' (n / 8) acc'
  end.

Definition print_oct (n : Z) : list Z := oct_loop 11 n [].

Definition is_octal (c : Z) : Prop := 48 <= c < 56.

Lemma oct_loop_digits fuel : forall n acc, Forall is_octal acc -> 0 <= n ->
  Forall is_octal (oct_loop fuel n acc).
Proof.
  induction fuel as [|fuel IH]; intros n acc Ha Hn; [done|]. cbn [oct_loop].
  assert (H : Forall is_octal ((48 + n mod 8) :: acc)).
  { constructor; [|done]. unfold is_octal. pose proof (Z.mod_pos_bound n 8). lia. }
  case_if; [done|]. apply IH; [done|dlia].
Qed.

Lemma oct_loop_length fuel : forall n acc, (length (oct_loop fuel n acc) <= fuel + length acc)%nat /\
  (fuel <> O -> (0 < length (oct_loop fuel n acc)))%nat.
Proof.
  induction fuel as [|fuel IH]; intros n acc; cbn [oct_loop]; [split; [lia|done]|].
  case_if; [simpl; split; lia|]. destruct (IH (n / 8) ((48 + n mod 8) :: acc)) as [H1 H2].
  simpl in H1. split; [lia|]. intros _. destruct fuel; [simpl; lia|]. apply H2. lia.
Qed.

Lemma scan_oct_step c s acc : is_octal c -> forall any,
  scan_digits 8 (c :: s) acc any = scan_digits 8 s (acc * 8 + (c - 48)) true.
Proof. intros [H1 H2] any. cbn [scan_digits]. by if_true. Qed.

Lemma scan_oct_loop fuel : forall n acc any, 0 <= n < 8 ^ Z.of_nat fuel -> (0 < fuel)%nat ->
  scan_digits 8 (oct_loop fuel n acc) 0 any = scan_digits 8 acc n true.
Proof.
  induction fuel as [|fuel IH]; intros n acc any Hn Hf; [lia|]. cbn [oct_loop].
  assert (Hd : is_octal (48 + n mod 8)).
  { unfold is_octal. pose proof (Z.mod_pos_bound n 8). lia. }
  case_if.
  - rewrite scan_oct_step by done. f_equal. dlia.
  - rewrite Nat2Z.inj_succ, Z.pow_succ_r in Hn by lia.
    destruct fuel as [|fuel]; [simpl in Hn; lia|].
    rewrite IH; [|dlia|lia]. rewrite scan_oct_step by done. f_equal. dlia.
Qed.

Lemma octal_plain l : Forall is_octal l -> Forall (fun b => isspace b = false) l.
Proof.
  intros H. eapply Forall_impl; [exact H|]. intros c Hc. unfold is_octal, isspace in *.
  apply orb_false_iff. split; [apply Z.eqb_neq; lia|]. apply andb_false_iff. right. apply Z.leb_gt. lia.
Qed.

Lemma parse_mode_oct m : 0 <= m < 2 ^ 32 -> bgit_index_parse_mode (print_oct m) = Ret m.
Proof.
  intros Hm. unfold bgit_index_parse_mode.
  pose proof (oct_loop_digits 11 m [] (Forall_nil_2 _) ltac:(lia)) as Hd. fold (print_oct m) in Hd.
  destruct (oct_loop_length 11 m []) as [_ Hne]. fold (print_oct m) in Hne.
  destruct (print_oct m) as [|c s] eqn:Ep; [simpl in Hne; lia|].
  assert (Hs : strtoul 8 (c :: s) = (m, [], false)).
  { unfold strtoul, scan_number. inversion Hd as [|? ? Hc Hs]; subst.
    rewrite isspace_cons by (apply octal_plain in Hd; by inversion Hd).
    unfold is_octal in Hc. rewrite (proj2 (Z.eqb_neq c 45)), (proj2 (Z.eqb_neq c 43)) by lia.
    rewrite <- Ep. unfold print_oct. rewrite scan_oct_loop by lia. cbn [scan_digits].
    cbn [negb]. unfold UINT64_MAX. by if_false. }
  rewrite Hs. unfold UINT32_MAX. cbn [orb]. if_false. by rewrite u32_id.
Qed.

Lemma parse_stage_digit stage : 0 <= stage <= 3 -> bgit_index_parse_stage [48 + stage] = Ret stage.
Proof.
  intros H. assert (stage = 0 \/ stage = 1 \/ stage = 2 \/ stage = 3) as [-> | [-> | [-> | ->]]] by lia;
    by vm_compute.
Qed.

Definition plain_end (p : list Z) : Prop :=
  match last p with Some c => c <> 10 /\ c <> 13 | None => False end.

Lemma trim_eol_plain p : plain_end p -> trim_eol p = p /\ trim_eol (p ++ [10]) = p.
Proof.
  unfold plain_end, trim_eol. intros H. rewrite rev_app_distr. cbn [rev app].
  destruct p as [|c p _] using rev_ind; [done|]. rewrite last_snoc in H. destruct H as [H1 H2].
  rewrite rev_app_distr. cbn [rev app].
  rewrite (proj2 (Z.eqb_neq c 10) H1), (proj2 (Z.eqb_neq c 13) H2). simpl.
  by rewrite rev_involutive.
Qed.

Lemma hex_plain id : oid id -> Forall (fun b => isspace b = false) (bgit_sha_to_hex id) /\
  Forall (fun b => b <> 32) (bgit_sha_to_hex id) /\
  length (bgit_sha_to_hex id) = 40%nat /\ bgit_hex_to_sha (bgit_sha_to_hex id) = Ret id.
Proof.
  intros [Hn Hb]. pose proof (sha_to_hex_len id Hb) as Hl. pose proof (sha_to_hex_lower id Hb) as Hlow.
  assert (Hc : Forall (fun b => 48 <= b) (bgit_sha_to_hex id)).
  { eapply Forall_impl; [exact Hlow|]. unfold is_digit, is_lower_hex. intros c Hc.
    apply orb_true_iff in Hc as [Hc|Hc]; simpl_bool; lia. }
  split; [|split; [|split; [unfold len in *; lia|]]].
  - eapply Forall_impl; [exact Hc|]. intros c Hc'. unfold isspace. simpl in Hc'.
    apply orb_false_iff. split; [apply Z.eqb_neq; lia|]. apply andb_false_iff. right.
    apply Z.leb_gt. lia.
  - eapply Forall_impl; [exact Hc|]. simpl. lia.
  - unfold bgit_hex_to_sha. rewrite Hl, Hn. by apply hex_loop_sha_to_hex.
Qed.

(** The line a listing would print for an entry. *)
Definition entry_line (m : Z) (id : list Z) (stage : Z) (path : list Z) : list Z :=
  print_oct m ++ 32 :: bgit_sha_to_hex id ++ 32 :: [48 + stage] ++ 32 :: path ++ [10].

Lemma token_app t rest : Forall (fun b => b <> 32) t -> token (t ++ 32 :: rest) = (t, rest).
Proof.
  induction 1 as [|c t Hc _ IH]; [done|]. simpl. rewrite (proj2 (Z.eqb_neq c 32) Hc). by rewrite IH.
Qed.

Lemma token_end t : Forall (fun b => b <> 32) t -> token t = (t, []).
Proof.
  induction 1 as [|c t Hc _ IH]; [done|]. simpl. rewrite (proj2 (Z.eqb_neq c 32) Hc). by rewrite IH.
Qed.

Lemma strtok_r_app t rest : Forall (fun b => b <> 32) t -> t <> [] ->
  strtok_r (t ++ 32 :: rest) = (Some t, rest) /\ strtok_r t = (Some t, []).
Proof.
  intros Ht Hne. unfold strtok_r, strtok.
  assert (Hs : forall s, skip_blanks (t ++ s) = t ++ s).
  { intros s. destruct t as [|c t]; [done|]. inversion Ht; subst. simpl.
    by rewrite (proj2 (Z.eqb_neq c 32)). }
  rewrite Hs. pose proof (Hs []) as Hs0. rewrite app_nil_r in Hs0. rewrite Hs0.
  pose proof (token_app t rest Ht) as H1. pose proof (token_end t Ht) as H2.
  destruct t as [|c t]; [done|]. cbn [app] in *. by rewrite H1, H2.
Qed.

Lemma octal_no_blank m : 0 <= m -> Forall (fun b => b <> 32 /\ b <> 9) (print_oct m) /\ print_oct m <> [].
Proof.
  intros Hm. pose proof (oct_loop_digits 11 m [] (Forall_nil_2 _) Hm) as Hd.
  destruct (oct_loop_length 11 m []) as [_ Hne]. fold (print_oct m) in Hd, Hne. split.
  - eapply Forall_impl; [exact Hd|]. unfold is_octal. lia.
  - intros E. rewrite E in Hne. simpl in Hne. lia.
Qed.

(* ------------------------------------------------------------------ *)
(** ** Theorems *)

(** Sorting entries with [bgit_index_path_cmp] gives, when no two share
    both path and stage, one and the same order with every [qsort]: ascending
    by the bytes of the path, then by stage. *)
Theorem index_sort_canonical (Q1 Q2 : Qsort) es :
  NoDup (map (fun e => (e_path e, stage_of e)) es) ->
  @qsort Q1 _ bgit_index_path_cmp es = @qsort Q2 _ bgit_index_path_cmp es /\
  Permutation (@qsort Q1 _ bgit_index_path_cmp es) es /\
  StronglySorted (fun a b => bcmp (e_path a) (e_path b) < 0 \/
    (e_path a = e_path b /\ stage_of a <= stage_of b)) (@qsort Q1 _ bgit_index_path_cmp es).
Proof.
  intros Hn. pose proof (@qsort_perm Q1 _ bgit_index_path_cmp es) as P1.
  pose proof (@qsort_perm Q2 _ bgit_index_path_cmp es) as P2.
  pose proof (@qsort_sorted Q1 _ bgit_index_path_cmp es path_cmp_preorder) as S1.
  pose proof (@qsort_sorted Q2 _ bgit_index_path_cmp es path_cmp_preorder) as S2.
  split; [|split; [done|]].
  - apply (sorted_unique bgit_index_path_cmp); [|done|done|by rewrite P1, P2].
    intros a b H1 H2 Ha Hb. destruct (path_cmp_equal a b H1 H2) as [Hp Hs].
    rewrite P1 in Ha, Hb. apply list_elem_of_lookup in Ha as [i Hi], Hb as [j Hj].
    assert (i = j) as ->; [|congruence].
    eapply NoDup_lookup; [exact Hn| |]; rewrite list_lookup_fmap.
    + by rewrite Hi.
    + rewrite Hj. simpl. by rewrite Hp, Hs.
  - eapply StronglySorted_weaken; [|exact S1]. intros a b. unfold bgit_index_path_cmp. cbn zeta.
    destruct (Z.eqb_spec (bcmp (e_path a) (e_path b)) 0) as [E|E]; simpl.
    + intros H. right. split; [by apply bcmp_eq|lia].
    + intros H. left. lia.
Qed.

Definition demo_entries : list bgit_index_entry :=
  [blank_entry 33188 demo_oid 0x2001 (str "b"); blank_entry 33188 demo_oid 0x1001 (str "b");
   blank_entry 33188 demo_oid 1 (str "a/c")].

Lemma index_sort_canonical_witness :
  map (fun e => (e_path e, stage_of e)) (@qsort insertion_qsort _ bgit_index_path_cmp demo_entries)
  = [(str "a/c", 0); (str "b", 1); (str "b", 2)] /\
  Permutation (@qsort insertion_qsort _ bgit_index_path_cmp demo_entries) demo_entries.
Proof.
  split; [by vm_compute|]. eapply (index_sort_canonical insertion_qsort insertion_qsort demo_entries).
  apply (bool_decide_unpack _). by vm_compute.
Defined.

(** Removing a path compacts the array in place to exactly the entries
    with another path, in their order, and says whether there was one. *)
Theorem remove_path_exact es path :
  bgit_index_remove_path es path =
    (List.filter (fun e => negb (beq (e_path e) path)) es, existsb (fun e => beq (e_path e) path) es).
Proof.
  assert (Hb : forall e, (bcmp (e_path e) path =? 0) = beq (e_path e) path).
  { intros e. unfold beq. destruct (Z.eqb_spec (bcmp (e_path e) path) 0) as [E|E].
    - apply bcmp_eq in E. by rewrite bool_decide_eq_true_2.
    - rewrite bool_decide_eq_false_2; [done|]. intros E'. apply E. by apply bcmp_eq. }
  unfold bgit_index_remove_path.
  pose proof (remove_loop_spec path (length es) es 0 0 false eq_refl (le_n 0)) as H.
  destruct (remove_loop (length es) es path 0 0 false) as [[es' n] rm]. destruct H as [H1 H2].
  rewrite H1, H2. cbn [take app orb drop]. f_equal.
  - apply List.filter_ext. intros e. unfold keeps_path. by rewrite Hb.
  - clear H1 H2. induction es as [|e es IH]; [done|]. simpl. unfold keeps_path at 1.
    rewrite negb_involutive, Hb. f_equal. exact IH.
Qed.

(** A ["<mode> <sha> <stage> <path>"] line gives back the mode, the id,
    the stage and the path it was made of, with zero stat fields, for every
    valid path that neither starts with white space nor ends in a line end. *)
Theorem line_to_entry_exact stat_of m id stage path :
  0 <= m < 2 ^ 32 -> oid id -> 0 <= stage <= 3 -> bgit_index_path_valid path = true ->
  (match path with c :: _ => isspace c = false | [] => False end) -> plain_end path ->
  bgit_index_line_to_entry stat_of (entry_line m id stage path) None =
    inr (blank_entry m id (line_flags stage (len path)) path).
Proof.
  intros Hm Hid Hst Hval Hsp Hend. unfold bgit_index_line_to_entry, entry_line.
  destruct (hex_plain id Hid) as (Hx & _ & Hxl & Hhex).
  pose proof (oct_loop_digits 11 m [] (Forall_nil_2 _) ltac:(lia)) as Hd.
  destruct (oct_loop_length 11 m []) as [Hl Hne]. fold (print_oct m) in Hd, Hl, Hne.
  assert (H32 : isspace 32 = true) by done.
  rewrite scan_word_app; [|by apply octal_plain|intros E; rewrite E in Hne; simpl in Hne; lia
    |simpl in Hl; lia|done].
  rewrite scan_word_skip by done.
  rewrite scan_word_app; [|done|by intros E; rewrite E in Hxl|lia|done].
  rewrite scan_word_skip by done.
  assert (Hs1 : scan_word 15 ([48 + stage] ++ 32 :: path ++ [10]) = Some ([48 + stage], 32 :: path ++ [10])).
  { apply scan_word_app; [|done|simpl; lia|done]. constructor; [|done]. unfold isspace.
    apply orb_false_iff. split; [apply Z.eqb_neq; lia|]. apply andb_false_iff. right. apply Z.leb_gt. lia. }
  rewrite Hs1, parse_stage_digit by done. cbn [skip_spaces]. rewrite H32.
  destruct path as [|c path]; [done|]. cbn [app]. rewrite isspace_cons by done.
  change (c :: path ++ [10]) with ((c :: path) ++ [10]).
  rewrite (proj2 (trim_eol_plain _ Hend)).
  replace (len (c :: path) =? 0) with false
    by (symmetry; apply Z.eqb_neq; rewrite len_cons; pose proof (len_nonneg path); lia).
  rewrite parse_mode_oct, Hhex, Hval by done. done.
Qed.

Lemma line_to_entry_exact_witness :
  bgit_index_line_to_entry (fun _ => None) (entry_line 33188 demo_oid 1 (str "a b/c")) None =
    inr (blank_entry 33188 demo_oid (line_flags 1 5) (str "a b/c")).
Proof.
  apply (line_to_entry_exact (fun _ => None) 33188 demo_oid 1 (str "a b/c"));
    [lia|apply demo_oid_ok|lia|by vm_compute|by vm_compute|by split].
Defined.

(** The words before the tab, and the tab's place. *)
Lemma info_line_split words path : Forall (fun b => b <> 9) words -> plain_end path ->
  find_byte 9 (words ++ 9 :: path) = Some (length words) /\
  take (length words) (words ++ 9 :: path) = words /\
  trim_eol (drop (S (length words)) (words ++ 9 :: path)) = path.
Proof.
  intros Hw Hp. rewrite find_byte_app by done. rewrite take_app_length, drop_app_S.
  split_and!; [done..|]. by apply trim_eol_plain.
Qed.

(** The three words of ["mode SP sha SP stage"], with or without a fourth. *)
Definition info_words (m : Z) (id : list Z) (stage : Z) (extra : list Z) : list Z :=
  print_oct m ++ 32 :: bgit_sha_to_hex id ++ 32 :: [48 + stage] ++ extra.

Lemma info_words_tokens m id stage extra : 0 <= m -> oid id -> 0 <= stage <= 3 ->
  extra = [] \/ (exists w, extra = 32 :: w /\ w <> [] /\ Forall (fun b => b <> 32) w) ->
  let '(p, save) := strtok_r (info_words m id stage extra) in
  let '(toks, save) := tok_loop 3 p save in
  toks = [print_oct m; bgit_sha_to_hex id; [48 + stage]] /\ fst (strtok_r save) = None.
Proof.
  intros Hm Hid Hst Hex. destruct (octal_no_blank m Hm) as [Ho Hone].
  destruct (hex_plain id Hid) as (_ & Hx & Hxl & _).
  assert (Ho' : Forall (fun b => b <> 32) (print_oct m)).
  { eapply Forall_impl; [exact Ho|]. simpl. tauto. }
  assert (Hxne : bgit_sha_to_hex id <> []) by (by intros E; rewrite E in Hxl).
  assert (Hs1 : Forall (fun b => b <> 32) [48 + stage]) by (constructor; [lia|done]).
  unfold info_words. rewrite (proj1 (strtok_r_app _ _ Ho' Hone)). cbn [tok_loop].
  rewrite (proj1 (strtok_r_app _ _ Hx Hxne)).
  destruct Hex as [-> | (w & -> & Hw & Hwb)].
  - rewrite app_nil_r, (proj2 (strtok_r_app _ [] Hs1 ltac:(done))). done.
  - rewrite (proj1 (strtok_r_app _ w Hs1 ltac:(done))).
    rewrite (proj2 (strtok_r_app w [] Hwb Hw)). done.
Qed.

Lemma info_line_words m id stage extra path : 0 < m < 2 ^ 32 -> oid id -> 0 <= stage <= 3 ->
  extra = [] \/ (exists w, extra = 32 :: w /\ w <> [] /\ Forall (fun b => b <> 32) w) ->
  Forall (fun b => b <> 9) extra -> bgit_index_path_valid path = true -> plain_end path ->
  bgit_index_info_line_to_entry (info_words m id stage extra ++ 9 :: path) =
    Ret (blank_entry m id (line_flags stage (len path)) path, false).
Proof.
  intros Hm Hid Hst Hex Htab Hval Hend.
  pose proof (info_words_tokens m id stage extra ltac:(lia) Hid Hst Hex) as Htok.
  destruct (hex_plain id Hid) as (Hxs & _ & Hxl & Hhex).
  destruct (octal_no_blank m ltac:(lia)) as [Ho _].
  destruct (info_line_split (info_words m id stage extra) path) as (H1 & H2 & H3); [|done|].
  { unfold info_words. apply Forall_app; split; [eapply Forall_impl; [exact Ho|simpl; tauto]|].
    constructor; [lia|]. apply Forall_app; split.
    - eapply Forall_impl; [exact Hxs|]. intros b Hb ->. by vm_compute in Hb.
    - constructor; [lia|]. constructor; [lia|done]. }
  unfold bgit_index_info_line_to_entry. rewrite H1, H2, H3, Hval. cbn [negb].
  destruct (strtok_r (info_words m id stage extra)) as [p save].
  destruct (tok_loop 3 p save) as [toks save']. destruct Htok as [-> ->].
  rewrite parse_mode_oct by lia. cbn [obind]. rewrite parse_stage_digit by done.
  replace (len (bgit_sha_to_hex id) =? 40) with true by (unfold len; rewrite Hxl; done).
  rewrite Hhex. cbn [obind]. if_false. by if_false.
Qed.

(** An index-info line ["mode SP sha SP stage TAB path"] with a mode that
    is not zero gives an entry of that mode, id, stage and path. *)
Theorem info_line_exact m id stage path :
  0 < m < 2 ^ 32 -> oid id -> 0 <= stage <= 3 -> bgit_index_path_valid path = true -> plain_end path ->
  bgit_index_info_line_to_entry (info_words m id stage [] ++ 9 :: path) =
    Ret (blank_entry m id (line_flags stage (len path)) path, false).
Proof. intros. apply info_line_words; auto. Qed.

Lemma info_line_exact_witness :
  bgit_index_info_line_to_entry (info_words 33188 demo_oid 2 [] ++ 9 :: str "a/b") =
    Ret (blank_entry 33188 demo_oid (line_flags 2 3) (str "a/b"), false).
Proof.
  apply (info_line_exact 33188 demo_oid 2 (str "a/b"));
    [lia|apply demo_oid_ok|lia|by vm_compute|by split].
Defined.

(** The index-info parser does not hold a line to its three shapes: a
    line with a fourth word before the tab is read as if that word were not
    there, because the loop has already taken it from the line when the test
    for further words runs. *)
Theorem info_line_extra_word m id stage extra path :
  0 < m < 2 ^ 32 -> oid id -> 0 <= stage <= 3 -> extra <> [] ->
  Forall (fun b => b <> 32 /\ b <> 9) extra ->
  bgit_index_path_valid path = true -> plain_end path ->
  bgit_index_info_line_to_entry (info_words m id stage (32 :: extra) ++ 9 :: path) =
  bgit_index_info_line_to_entry (info_words m id stage [] ++ 9 :: path).
Proof.
  intros Hm Hid Hst Hne Hex Hval Hend.
  rewrite (info_line_words m id stage []) by auto. apply info_line_words; try done.
  - right. exists extra. split; [done|]. split; [done|]. eapply Forall_impl; [exact Hex|]. simpl. tauto.
  - constructor; [lia|]. eapply Forall_impl; [exact Hex|]. simpl. tauto.
Qed.

Lemma info_line_extra_word_witness :
  bgit_index_info_line_to_entry (info_words 33188 demo_oid 2 (32 :: str "junk") ++ 9 :: str "a/b") =
  bgit_index_info_line_to_entry (info_words 33188 demo_oid 2 [] ++ 9 :: str "a/b").
Proof.
  apply (info_line_extra_word 33188 demo_oid 2 (str "junk") (str "a/b"));
    [lia|apply demo_oid_ok|lia|done| |by vm_compute|by split].
  repeat (constructor; [split; done|]). constructor.
Defined.
