(* ===== verification/IndexFile.v ===== *)
(** * The index on disk (loadables/_git/index.c, lines 210-248, 1059-1193, 1335-1507)

    Slurping the file, replacing it through a temporary file, and walking the
    extensions after the entries.  The theorems show that a slurp returns the
    file's bytes whatever the kernel's read counts, that a write replaces the
    file at once or leaves it alone, and that the extension readers find the ids
    they are meant to find without reading outside the file. *)

From S2P Require Import Prelude Endian Sha1 CLib Odb Sys Index.
#[local] Open Scope Z_scope.

(* ------------------------------------------------------------------ *)
(** ** Slurping *)

(** The read loop; running out of fuel is [Fault], which never happens. *)
Fixpoint slurp_loop (fuel : nat) (fd : Z) (buf : list Z) (cap : Z) : io (option (list Z)) :=
  match fuel with
  | O => lift Fault
  | S fuel' =>
      if (len buf =? cap) && (cap >? SIZE_MAX / 2) then
        let! _ := sys_close fd in iret None
      else
        let cap := if len buf =? cap then cap * 2 else cap in
        let! r := sys_read fd (cap - len buf) in
        let '(got, chunk) := r in
        if got <? 0 then
          let! e := get_errno in
          if e =? EINTR then slurp_loop fuel' fd buf cap
          else let! _ := sys_close fd in iret None
        else if got =? 0 then let! _ := sys_close fd in iret (Some buf)
        else slurp_loop fuel' fd (buf ++ chunk) cap
  end.

(** [None] is the null pointer. *)
Definition bgit_index_slurp (p : path) : io (option (list Z)) :=
  let! fd := open_rdonly p in
  if fd <? 0 then iret None
  else
    let! st := sys_fstat fd in
    match st with
    | None => let! _ := sys_close fd in iret None
    | Some st =>
        if i_dir st then let! _ := sys_close fd in let! _ := set_errno EISDIR in iret None
        else
          let size := len (i_data st) in
          let cap := if (size >? 0) && (size <? SIZE_MAX - 1) then size + 1 else 65536 in
          let! w := get_world in
          slurp_loop (2 + length (i_data st) + length (w_answers w)) fd [] cap
    end.

(* ------------------------------------------------------------------ *)
(** ** Replacing the file *)

Fixpoint index_write_loop (fuel : nat) (fd : Z) (data : list Z) : io bool :=
  match fuel with
  | O => lift Fault
  | S fuel' =>
      if len data =? 0 then iret true
      else
        let! w := sys_write fd data in
        if w <=? 0 then
          let! e := get_errno in
          if (w <? 0) && (e =? EINTR) then index_write_loop fuel' fd data else iret false
        else index_write_loop fuel' fd (drop (Z.to_nat w) data)
  end.

(** The laid-out bytes, put in place of the file at [p]. *)
Definition replace_file (p : path) (buf : list Z) : io Z :=
  if len p + 10 >=? 4096 then let! _ := builtin_error "index path too long" in iret (-1)
  else
    let! r := mkstemp (p ++ str ".tmp") in
    let '(fd, tmp) := r in
    if fd <? 0 then let! _ := builtin_error "mkstemp: %s" in iret (-1)
    else
      let! _ := sys_sync fd in   (* fchmod (fd, 0644) *)
      let! w := get_world in
      let! ok := index_write_loop (2 + length (w_answers w)) fd buf in
      if negb ok then
        let! _ := builtin_error "write %s: %s" in
        let! _ := sys_close fd in
        let! _ := sys_unlink tmp in iret (-1)
      else
        let! sync_rc := sys_sync fd in
        let! close_rc := sys_close fd in
        if (sync_rc <? 0) || (close_rc <? 0) then
          let! _ := builtin_error "%s %s: %s" in
          let! _ := sys_unlink tmp in iret (-1)
        else
          let! renamed := sys_rename tmp p in
          if renamed <? 0 then
            let! _ := sys_unlink tmp in
            let! _ := builtin_error "rename: %s" in iret (-1)
          else iret 0.

Definition bgit_index_write_ext (st : index_statics) (p : path) (entries : list bgit_index_entry)
    (ext : list Z) : io Z :=
  match index_bytes st entries ext with
  | Ret buf => replace_file p buf
  | Fail msg => let! _ := (if String.eqb msg "" then iret tt else builtin_error msg) in iret (-1)
  | Fault => lift Fault
  end.

Definition bgit_index_write (st : index_statics) (p : path) (entries : list bgit_index_entry) : io Z :=
  bgit_index_write_ext st p entries [].

(* ------------------------------------------------------------------ *)
(** ** Extensions *)

(** The walk over the entries, with the silent checks of this reader. *)
Fixpoint skip_entries (n : nat) (buf : list Z) (ver off : Z) : outcome Z :=
  match n with
  | O => Ret off
  | S n' =>
      let flen := len buf in
      if off + 62 >? flen - 20 then failed
      else
        let* flags := bgit_be16 buf (off + 60) in
        let off := off + 62 in
        let extended := (ver >=? 3) && negb (Z.land flags 0x4000 =? 0) in
        if extended && (off + 2 >? flen - 20) then failed
        else
          let extended_len := if extended then 2 else 0 in
          let off := off + extended_len in
          let* window := rdn buf off (flen - 20 - off) in
          match find_byte 0 window with
          | None => failed
          | Some nul =>
              let path_len := Z.land flags 0xFFF in
              let path_len := if path_len =? 0xFFF then Z.of_nat nul else path_len in
              if negb (Z.of_nat nul =? path_len) then failed
              else
                let off := off + path_len in
                let pad := 8 - (62 + extended_len + path_len) mod 8 in
                if pad >? flen - 20 - off then failed
                else skip_entries n' buf ver (off + pad)
          end
  end.

(** Where the extensions of the file's bytes begin. *)
Definition bgit_index_after_entries (buf : list Z) : outcome Z :=
  if len buf <? 32 then failed
  else
    let* magic := rdn buf 0 4 in
    if negb (beq magic (str "DIRC")) then failed
    else
      let* ver := bgit_be32 buf 4 in
      if negb (ver =? 2) && negb (ver =? 3) then failed
      else
        let* n_entries := bgit_be32 buf 8 in
        skip_entries (Z.to_nat n_entries) buf ver 12.

(** The loop over extension records: [visit] is applied to the body of each
    record whose signature is [sig].  Every record is at least eight bytes. *)
Fixpoint ext_loop (fuel : nat) (sig : list Z) (visit : list Z -> outcome (list (list Z)))
    (buf : list Z) (off : Z) : outcome (list (list Z)) :=
  match fuel with
  | O => Fault
  | S fuel' =>
      if off + 8 <=? len buf - 20 then
        let* size := bgit_be32 buf (off + 4) in
        if size >? len buf - 20 - off - 8 then Ret []
        else
          let* s := rdn buf off 4 in
          let* ids := (if beq s sig then let* body := rdn buf (off + 8) size in visit body
                       else Ret []) in
          let* rest := ext_loop fuel' sig visit buf (off + 8 + size) in
          Ret (ids ++ rest)
      else Ret []
  end.

(** One of the three modes at [at_]: whether it is set, and what follows. *)
Definition undo_mode (body : list Z) (at_ : Z) : outcome (option (bool * Z)) :=
  if at_ <? len body then
    let* window := rdn body at_ (len body - at_) in
    match find_byte 0 window with
    | None => Ret None
    | Some n =>
        let* set := (if Nat.eqb n 0 then Ret false
                     else let* c := rd body at_ in Ret (negb (c =? 48))) in
        Ret (Some (set, at_ + Z.of_nat n + 1))
    end
  else Ret None.

(** An id for each mode that is set: the ids read, and [None] when the body
    ends in the middle of one. *)
Fixpoint undo_ids (sets : list bool) (body : list Z) (at_ : Z)
    : outcome (list (list Z) * option Z) :=
  match sets with
  | [] => Ret ([], Some at_)
  | set :: sets' =>
      if negb set then undo_ids sets' body at_
      else if at_ + 20 >? len body then Ret ([], None)
      else
        let* id := rdn body at_ 20 in
        let* r := undo_ids sets' body (at_ + 20) in
        let '(ids, next) := r in
        Ret (bgit_sha_to_hex id :: ids, next)
  end.

(** The records of a resolve-undo body from [at_]; each is at least four bytes. *)
Fixpoint undo_loop (fuel : nat) (body : list Z) (at_ : Z) : outcome (list (list Z)) :=
  match fuel with
  | O => Fault
  | S fuel' =>
      if at_ <? len body then
        let* window := rdn body at_ (len body - at_) in
        match find_byte 0 window with
        | None => Ret []
        | Some n =>
            let at_ := at_ + Z.of_nat n + 1 in
            let* m0 := undo_mode body at_ in
            match m0 with None => Ret [] | Some (s0, at_) =>
            let* m1 := undo_mode body at_ in
            match m1 with None => Ret [] | Some (s1, at_) =>
            let* m2 := undo_mode body at_ in
            match m2 with None => Ret [] | Some (s2, at_) =>
              let* r := undo_ids [s0; s1; s2] body at_ in
              let '(ids, next) := r in
              match next with
              | None => Ret ids
              | Some at_ => let* rest := undo_loop fuel' body at_ in Ret (ids ++ rest)
              end
            end end end
        end
      else Ret []
  end.

Definition bgit_index_resolve_undo (buf : list Z) : outcome (list (list Z)) :=
  let* off := bgit_index_after_entries buf in
  ext_loop (S (length buf)) (str "REUC")
    (fun body => undo_loop (S (length body)) body 0) buf off.

(** The trees of a cache-tree body from [at_]; each record is at least two
    bytes. *)
Fixpoint tree_loop (fuel : nat) (body : list Z) (at_ : Z) : outcome (list (list Z)) :=
  match fuel with
  | O => Fault
  | S fuel' =>
      if at_ <? len body then
        let* window := rdn body at_ (len body - at_) in
        match find_byte 0 window with
        | None => Ret []
        | Some n =>
            let at_ := at_ + Z.of_nat n + 1 in
            let* line := (if at_ <? len body
                          then let* w := rdn body at_ (len body - at_) in Ret (find_byte 10 w)
                          else Ret None) in
            match line with
            | None => Ret []
            | Some line_len =>
                if Z.of_nat line_len >=? 64 then Ret []
                else
                  let* counts := rdn body at_ (Z.of_nat line_len) in
                  let at_ := at_ + Z.of_nat line_len + 1 in
                  let counts := match find_byte 0 counts with Some k => take k counts | None => counts end in
                  let '(entries, _, _) := strtol 10 counts in
                  if entries <? 0 then tree_loop fuel' body at_
                  else if at_ + 20 >? len body then Ret []
                  else
                    let* id := rdn body at_ 20 in
                    let* rest := tree_loop fuel' body (at_ + 20) in
                    Ret (bgit_sha_to_hex id :: rest)
            end
        end
      else Ret []
  end.

Definition bgit_index_cache_tree (buf : list Z) : outcome (list (list Z)) :=
  let* off := bgit_index_after_entries buf in
  ext_loop (S (length buf)) (str "TREE")
    (fun body => tree_loop (S (length body)) body 0) buf off.

(** The whole read of the index at [p]. *)
Definition read_index (st : index_statics) (p : path)
    : io (list bgit_index_entry * index_statics) :=
  let! b := bgit_index_slurp p in
  match b with
  | None => ifail "read %s: %s"
  | Some buf =>
      let! r := lift (parse_views st buf) in
      let '(views, st) := r in
      let! s := sys_stat p in
      lift (bgit_index_decode_views st (option_map i_mtime s) views buf)
  end.

(* ------------------------------------------------------------------ *)
(** ** Slurping returns the file *)

Lemma close_reads fd w r w' : sys_close fd w = (r, w') -> (exists z, r = Ret z) /\ reads_only w w'.
Proof. intros H. apply close_cases in H as (z & -> & _ & E1 & E2 & _). split; [eauto|by split]. Qed.

Lemma close_then {A} fd (a : A) w r w' : (let! _ := sys_close fd in iret a) w = (r, w') ->
  r = Ret a /\ reads_only w w'.
Proof.
  unfold ibind. destruct (sys_close fd w) as [r1 w1] eqn:E. intros H.
  apply close_reads in E as [[z ->] Hro]. by injection H as <- <-.
Qed.

Lemma slurp_loop_spec fuel fd i nd : i_dir nd = false -> forall k cap w r w',
  (length (i_data nd) - k + length (w_answers w) + 2 <= fuel)%nat -> (k <= length (i_data nd))%nat ->
  0 <= fd -> w_fds w !! Z.to_N fd = Some (i, Z.of_nat k) -> inodes (w_fs w) !! i = Some nd ->
  0 < cap -> Z.of_nat k <= cap ->
  slurp_loop fuel fd (take k (i_data nd)) cap w = (r, w') ->
  reads_only w w' /\ (r = Ret None \/ r = Ret (Some (i_data nd))).
Proof.
  intros Hdir. induction fuel as [|fuel IH]; intros k cap w r w' Hf Hk Hfd Hw Hi Hcap Hkc H; [lia|].
  cbn [slurp_loop] in H.
  assert (Hlen : len (take k (i_data nd)) = Z.of_nat k) by (rewrite len_take; unfold len; lia).
  rewrite Hlen in H. destruct ((Z.of_nat k =? cap) && (cap >? SIZE_MAX / 2)).
  { apply close_then in H as [-> Hro]. auto. }
  set (cap' := if Z.of_nat k =? cap then cap * 2 else cap) in *.
  assert (Hcap' : 0 < cap' - Z.of_nat k).
  { unfold cap'. destruct (Z.eqb_spec (Z.of_nat k) cap); lia. }
  unfold ibind at 1 in H. destruct (sys_read fd (cap' - Z.of_nat k) w) as [r1 w1] eqn:Hr.
  eapply read_cases in Hr as (E1 & E2 & E3 & Hr); [|lia|done..].
  destruct Hr as [(-> & Hne & Ef)|(m & -> & Hm & Hm0 & Hfull & Ef)].
  - cbn -[slurp_loop] in H. destruct (w_errno w1 =? EINTR).
    + destruct (IH k cap' w1 r w') as [[F1 F2] Hres]; try done; try congruence; try lia.
      * rewrite E3. destruct (w_answers w); [done|]. simpl in *. lia.
      * split; [split; congruence|done].
    + apply close_then in H as [-> [F1 F2]]. split; [split; congruence|auto].
  - rewrite Nat2Z.id in *. set (chunk := take m (drop k (i_data nd))) in *.
    pose proof (len_nonneg chunk) as Hc0. rewrite (proj2 (Z.ltb_ge (len chunk) 0)) in H by lia.
    assert (Hlc : len chunk = Z.min (Z.of_nat m) (len (i_data nd) - Z.of_nat k)).
    { unfold chunk. rewrite len_take, len_drop. unfold len. lia. }
    destruct (Z.eqb_spec (len chunk) 0) as [Hz|Hnz].
    + apply close_then in H as [-> [F1 F2]]. split; [split; congruence|]. right.
      specialize (Hm0 Hcap'). unfold len in Hlc, Hz. rewrite take_ge by lia. done.
    + assert (Happ : take k (i_data nd) ++ chunk = take (k + length chunk) (i_data nd)).
      { rewrite <- take_take_drop. f_equal. unfold chunk. by rewrite length_take, take_min_length. }
      rewrite Happ in H. unfold len in Hlc, Hnz, Hc0, Ef, Hm.
      destruct (IH (k + length chunk)%nat cap' w1 r w') as [[F1 F2] Hres]; try done; try lia.
      * rewrite E3. destruct (w_answers w) as [|a l]; simpl in *; lia.
      * rewrite Ef, lookup_insert_eq. do 2 f_equal. lia.
      * by rewrite E1.
      * split; [split; congruence|done].
Qed.

Lemma slurp_spec p i nd w r w' : names (w_fs w) !! p = Some i -> inodes (w_fs w) !! i = Some nd ->
  i_dir nd = false -> bgit_index_slurp p w = (r, w') ->
  reads_only w w' /\ (r = Ret None \/ r = Ret (Some (i_data nd))).
Proof.
  intros Hn Hi Hdir H. unfold bgit_index_slurp in H. unfold ibind at 1 in H.
  destruct (open_rdonly p w) as [r1 w1] eqn:Ho.
  apply open_rdonly_cases in Ho as (E1 & E2 & [(-> & _)|(i' & fd & -> & Hn' & Hfree & Hfd & _)]).
  { injection H as <- <-. split; [by split|by left]. }
  rewrite (proj2 (Z.ltb_ge (Z.of_N fd) 0)) in H by lia. assert (i' = i) as -> by congruence.
  unfold ibind at 1 in H. destruct (sys_fstat (Z.of_N fd) w1) as [r2 w2] eqn:Hs.
  assert (Hlook : w_fds w1 !! Z.to_N (Z.of_N fd) = Some (i, 0)).
  { rewrite N2Z.id, Hfd. apply lookup_insert_eq. }
  destruct (fstat_cases _ _ _ _ i 0 nd Hs ltac:(lia) Hlook ltac:(by rewrite E1))
    as (F1 & F2 & F3 & _ & [[-> _] | ->]).
  { apply close_then in H as [-> [G1 G2]]. split; [split; congruence|by left]. }
  rewrite Hdir in H. unfold ibind at 1, get_world in H.
  set (cap := if _ && _ then _ else _) in H.
  apply (slurp_loop_spec _ (Z.of_N fd) i nd Hdir 0 cap) in H as [[G1 G2] Hres]; try lia.
  - split; [split; congruence|done].
  - by rewrite F3.
  - by rewrite F1, E1.
  - unfold cap. pose proof (len_nonneg (i_data nd)). case_if; lia.
  - unfold cap. pose proof (len_nonneg (i_data nd)). case_if; lia.
Qed.

(* ------------------------------------------------------------------ *)
(** ** Replacing is atomic *)

Lemma index_write_loop_spec fuel fd : forall data d i n w r w', (length (w_answers w) + 2 <= fuel)%nat ->
  0 <= fd -> w_fds w !! Z.to_N fd = Some (i, len d) ->
  inodes (w_fs w) !! i = Some n -> i_dir n = false -> i_data n = d ->
  index_write_loop fuel fd data w = (r, w') ->
  exists k, appended fd i d data k w w' /\
    ((r = Ret true /\ (length data <= k)%nat) \/ r = Ret false).
Proof.
  induction fuel as [|fuel IH]; intros data d i n w r w' Hf Hfd0 Hfd Hi Hdir Hd H; [lia|].
  cbn [index_write_loop] in H. case_if_in H.
  { injection H as <- <-. exists O. split; [by eapply appended_none|]. left.
    unfold len in *. split_and!; [done|lia]. }
  unfold ibind at 1 in H. destruct (sys_write fd data w) as [r1 w1] eqn:Hw.
  pose proof (write_script _ _ _ _ _ Hw) as (Ha & _ & _).
  eapply write_appended in Hw as (k & Hap & Hk & Hr1 & Hfull); [|done..].
  destruct (appended_ready _ _ _ _ _ _ _ Hap) as (Hfd1 & n1 & Hi1 & Hdir1 & Hd1).
  assert (Hgo : forall r w', index_write_loop fuel fd (drop k data) w1 = (r, w') ->
    (length (w_answers w1) + 2 <= fuel)%nat -> exists k, appended fd i d data k w w' /\
    ((r = Ret true /\ (length data <= k)%nat) \/ r = Ret false)).
  { intros r2 w2 H2 Hf2. eapply IH in H2 as (k2 & Hap2 & Hr2); [|done..].
    exists (k + k2)%nat. split; [by eapply appended_trans|]. rewrite length_drop in Hr2.
    destruct Hr2 as [[-> ?] | ->]; [left; split; [done|lia]|by right]. }
  assert (Hcons : w_answers w <> [] -> (length (w_answers w1) + 2 <= fuel)%nat).
  { intros Hne. rewrite Ha. destruct (w_answers w); [done|]. simpl in *. lia. }
  assert (Hstop : forall r, (r = Ret false \/ r = Ret true /\ (length data <= k)%nat) -> exists k0,
    appended fd i d data k0 w w1 /\ ((r = Ret true /\ (length data <= k0)%nat) \/ r = Ret false)).
  { intros r2 Hr2. exists k. split; [done|]. tauto. }
  destruct Hr1 as [[-> ->] | ->].
  - cbn -[index_write_loop] in H. destruct (w_errno w1 =? EINTR).
    + apply (Hgo r w'); [exact H|]. apply Hcons. intros E. specialize (Hfull E).
      injection Hfull as Hfull. pose proof (len_nonneg data). lia.
    + injection H as <- <-. apply Hstop. by left.
  - destruct (Z.leb_spec (Z.of_nat k) 0).
    + unfold ibind, get_errno in H. rewrite (proj2 (Z.ltb_ge (Z.of_nat k) 0)) in H by lia.
      injection H as <- <-. apply Hstop. by left.
    + rewrite Nat2Z.id in H.
      destruct (decide (w_answers w = [])) as [Hnil|Hne]; [|by apply Hgo; auto].
      specialize (Hfull Hnil). injection Hfull as Hfull. unfold len in Hfull.
      destruct fuel as [|fuel']; [lia|]. rewrite drop_ge in H by lia. injection H as <- <-.
      apply Hstop. right. split; [done|lia].
Qed.

(** Nothing but the temporary name [tmp] looks different. *)
Definition quiet (tmp : path) (f f' : fs) : Prop := forall q, q <> tmp -> content f' q = content f q.

(** A temporary file on the way: the inode [i], new since [w0], holds [d]
    under the name [tmp], and nothing else has changed or was ever seen to. *)
Record staged (tmp : path) (i : N) (d : list Z) (w0 w : world) : Prop := {
  sg_ok : fs_ok (w_fs w0);
  sg_free : names (w_fs w0) !! tmp = None;
  sg_new : inodes (w_fs w0) !! i = None;
  sg_names : names (w_fs w) = <[tmp := i]> (names (w_fs w0));
  sg_inode : exists n, inodes (w_fs w) = <[i := n]> (inodes (w_fs w0)) /\ i_dir n = false /\ i_data n = d;
  sg_log : exists new, w_log w = new ++ w_log w0 /\ Forall (quiet tmp (w_fs w0)) new }.

Lemma quiet_inode tmp i n f0 f : fs_ok f0 -> names f0 !! tmp = None -> inodes f0 !! i = None ->
  names f = <[tmp := i]> (names f0) -> inodes f = <[i := n]> (inodes f0) -> quiet tmp f0 f.
Proof.
  intros Hok Hfree Hnew Hn Hi q Hq. unfold content, lookup_inode.
  rewrite Hn, lookup_insert_ne by done. destruct (names f0 !! q) as [j|] eqn:E; [|done]. simpl.
  rewrite Hi, lookup_insert_ne; [done|]. intros ->. destruct (Hok q j E) as [m Hm]. congruence.
Qed.

Lemma staged_quiet tmp i d w0 w : staged tmp i d w0 w -> quiet tmp (w_fs w0) (w_fs w).
Proof.
  intros [Hok Hfree Hnew Hn (n & Hi & _) _]. by eapply quiet_inode.
Qed.

Lemma staged_same tmp i d w0 w w1 : staged tmp i d w0 w -> w_fs w1 = w_fs w -> w_log w1 = w_log w ->
  staged tmp i d w0 w1.
Proof. intros [? ? ? ? ? ?] E1 E2. split; rewrite ?E1, ?E2; done. Qed.

Lemma staged_create tmp z w0 w : fs_ok (w_fs w0) -> creates tmp z w0 w ->
  exists i fd, z = Z.of_N fd /\ staged tmp i [] w0 w /\ w_fds w !! fd = Some (i, 0).
Proof.
  intros Hok (i & fd & -> & Hfree & Hnew & _ & F & E & L). exists i, fd. split; [done|].
  assert (Hq : quiet tmp (w_fs w0) (w_fs w)).
  { eapply quiet_inode; [done..| |]; rewrite E; done. }
  split; [|by rewrite F, lookup_insert_eq]. split; try done; rewrite ?E; try done.
  - eexists. done.
  - exists [w_fs w]. split; [done|]. by constructor.
Qed.

Lemma staged_append tmp i fd d data k w0 w w1 : staged tmp i d w0 w ->
  appended fd i d data k w w1 -> staged tmp i (d ++ take k data) w0 w1.
Proof.
  intros [Hok Hfree Hnew Hn (n & Hi & _) (new & Hl & Hq)] (N1 & _ & (n1 & I1 & D1 & E1) & new1 & L1 & Q1).
  split; try done.
  - by rewrite N1.
  - exists n1. by rewrite I1, Hi, insert_insert_eq.
  - exists (new1 ++ new). rewrite L1, Hl, app_assoc. split; [done|]. apply Forall_app; split; [|done].
    eapply Forall_impl; [exact Q1|]. intros f [Hfn [m Hfi]].
    eapply (quiet_inode tmp i m); [done..| |].
    + by rewrite Hfn.
    + by rewrite Hfi, Hi, insert_insert_eq.
Qed.

Lemma staged_unlink tmp i d w0 w r w1 : staged tmp i d w0 w -> sys_unlink tmp w = (r, w1) ->
  (exists z, r = Ret z) /\ quiet tmp (w_fs w0) (w_fs w1) /\
  exists new, w_log w1 = new ++ w_log w0 /\ Forall (quiet tmp (w_fs w0)) new.
Proof.
  intros Hs H. pose proof (staged_quiet _ _ _ _ _ Hs) as Hq.
  destruct Hs as [_ _ _ _ _ (new & Hl & Hqs)].
  apply unlink_cases in H as (_ & [(-> & E & L & _)|(-> & _ & E & L)]).
  - rewrite E, L. split; [eauto|]. split; [done|]. by exists new.
  - assert (Hq1 : quiet tmp (w_fs w0) (w_fs w1)).
    { intros q Hne. rewrite <- (Hq q Hne), E. unfold content, lookup_inode, with_names. simpl.
      by rewrite lookup_delete_ne by done. }
    split; [eauto|]. split; [done|]. exists (w_fs w1 :: new). rewrite L, Hl. split; [done|].
    by constructor.
Qed.

(** What the replacement of the file at [p] by [buf] may leave, and show on
    the way: the whole of [buf] and success, or the old file and failure. *)
Definition replaced (p : path) (buf : list Z) (w : world) (r : outcome Z) (w' : world) : Prop :=
  exists rc, r = Ret rc /\
    ((rc = 0 /\ content (w_fs w') p = Some buf) \/
     (rc = -1 /\ content (w_fs w') p = content (w_fs w) p)) /\
    (forall q, q <> p -> is_Some (names (w_fs w) !! q) -> content (w_fs w') q = content (w_fs w) q) /\
    exists new, w_log w' = new ++ w_log w /\
      Forall (fun f => content f p = content (w_fs w) p \/ content f p = Some buf) new.

Lemma replaced_failed p buf tmp w w' : tmp <> p -> names (w_fs w) !! tmp = None ->
  quiet tmp (w_fs w) (w_fs w') ->
  (exists new, w_log w' = new ++ w_log w /\ Forall (quiet tmp (w_fs w)) new) ->
  replaced p buf w (Ret (-1)) w'.
Proof.
  intros Hne Hfree Hq (new & Hl & Hall). exists (-1). split; [done|]. split.
  { right. split; [done|]. apply Hq. congruence. }
  split.
  - intros q _ [j Hj]. apply Hq. congruence.
  - exists new. split; [done|]. eapply Forall_impl; [exact Hall|]. intros f Hf. left. apply Hf. congruence.
Qed.

Lemma replaced_renamed p buf tmp i w0 w w' r : tmp <> p -> staged tmp i buf w0 w ->
  sys_rename tmp p w = (r, w') -> (r = Ret (-1) /\ reads_only w w') \/ (r = Ret 0 /\ replaced p buf w0 (Ret 0) w').
Proof.
  intros Hne Hs H. pose proof (staged_quiet _ _ _ _ _ Hs) as Hq.
  destruct Hs as [Hok Hfree Hnew Hn (n & Hi & Hdir & Hd) (new & Hl & Hqs)].
  apply rename_cases in H as (_ & [(-> & E & L & _)|(i' & -> & Hi' & E & L)]); [by left|]. right.
  rewrite Hn, lookup_insert_eq in Hi'. injection Hi' as <-.
  assert (Hcp : content (w_fs w') p = Some buf).
  { rewrite E. unfold content, lookup_inode, with_names. simpl. rewrite lookup_insert_eq. simpl.
    rewrite Hi, lookup_insert_eq. by rewrite Hdir, Hd. }
  split; [done|]. exists 0. split; [done|]. split; [by left|]. split.
  - intros q Hqp [j Hj]. assert (q <> tmp) by congruence. rewrite <- (Hq q) by done.
    rewrite E. unfold content, lookup_inode, with_names. simpl.
    by rewrite lookup_insert_ne, lookup_delete_ne by done.
  - exists (w_fs w' :: new). rewrite L, Hl. split; [done|]. constructor; [by right|].
    eapply Forall_impl; [exact Hqs|]. intros f Hf. left. apply Hf. congruence.
Qed.

(** Cleaning up after a failure: any calls that leave the files alone, then
    the temporary name is unlinked and -1 returned. *)
Lemma unlink_replaced p buf tmp i d w0 w r w' : tmp <> p -> staged tmp i d w0 w ->
  (let! _ := sys_unlink tmp in iret (-1)) w = (r, w') -> replaced p buf w0 r w'.
Proof.
  intros Hne Hs H. unfold ibind in H. destruct (sys_unlink tmp w) as [r1 w1] eqn:Hu.
  pose proof Hs as [_ Hfree _ _ _ _].
  destruct (staged_unlink _ _ _ _ _ _ _ Hs Hu) as ([z ->] & Hq & Hl). injection H as <- <-.
  by eapply replaced_failed.
Qed.

Lemma tmp_name p s : (p ++ str ".tmp") ++ s <> p.
Proof.
  intros E. apply (f_equal length) in E. rewrite !length_app in E. simpl in E. lia.
Qed.

Lemma report_staged tmp i d w0 w m : staged tmp i d w0 w ->
  staged tmp i d w0 (snd (builtin_error m w)).
Proof. intros Hs. by eapply staged_same. Qed.

Lemma replace_file_spec p buf w r w' : fs_ok (w_fs w) -> replace_file p buf w = (r, w') ->
  replaced p buf w r w'.
Proof.
  intros Hok H. unfold replace_file in H.
  assert (Hnone : forall m w1, w_fs w1 = w_fs w -> w_log w1 = w_log w ->
    (let! _ := builtin_error m in iret (-1)) w1 = (r, w') -> replaced p buf w r w').
  { intros m w1 E1 E2 E. injection E as <- <-. exists (-1). cbn. rewrite E1, E2.
    split_and!; auto. by exists []. }
  case_if_in H; [by eapply Hnone|].
  unfold ibind at 1 in H. destruct (mkstemp (p ++ str ".tmp") w) as [r1 w1] eqn:Hm.
  apply mkstemp_cases in Hm as (z & tmp & -> & [(-> & E1 & E2 & _)|(s & -> & _ & Hc)]);
    [exact (Hnone _ w1 E1 E2 H)|].
  pose proof (tmp_name p s) as Htmp. set (tmp := (p ++ str ".tmp") ++ s) in *.
  destruct (staged_create _ _ _ _ Hok Hc) as (i & fd & -> & Hs1 & Hfd1).
  rewrite (proj2 (Z.ltb_ge (Z.of_N fd) 0)) in H by lia.
  unfold ibind at 1 in H. destruct (sys_sync (Z.of_N fd) w1) as [r2 w2] eqn:Hsy.
  apply sync_cases in Hsy as (z2 & -> & _ & E2 & L2 & F2).
  pose proof (staged_same _ _ _ _ _ _ Hs1 E2 L2) as Hs2.
  unfold ibind at 1, get_world in H. unfold ibind at 1 in H.
  destruct (index_write_loop (2 + length (w_answers w2)) (Z.of_N fd) buf w2) as [r3 w3] eqn:Hw.
  destruct (sg_inode _ _ _ _ _ Hs2) as (n & Hi & Hdir & Hd).
  eapply (index_write_loop_spec _ _ buf [] i n) in Hw as (k & Hap & Hr3);
    [|lia|lia|by rewrite N2Z.id, F2|by rewrite Hi, lookup_insert_eq|done..].
  pose proof (staged_append _ _ _ _ _ _ _ _ _ Hs2 Hap) as Hs3. cbn [app] in Hs3.
  destruct Hr3 as [[-> Hk] | ->]; cbn [negb] in H.
  2:{ unfold ibind at 1, builtin_error in H. unfold ibind at 1 in H.
      match type of H with context [sys_close _ ?w0] =>
        destruct (sys_close (Z.of_N fd) w0) as [r4 w4] eqn:Hcl end.
      apply close_cases in Hcl as (z4 & -> & _ & E4 & L4 & _).
      eapply unlink_replaced; [done| |exact H]. by eapply staged_same. }
  rewrite take_ge in Hs3 by lia.
  unfold ibind at 1 in H. destruct (sys_sync (Z.of_N fd) w3) as [r4 w4] eqn:Hsy.
  apply sync_cases in Hsy as (z4 & -> & _ & E4 & L4 & _).
  unfold ibind at 1 in H. destruct (sys_close (Z.of_N fd) w4) as [r5 w5] eqn:Hcl.
  apply close_cases in Hcl as (z5 & -> & _ & E5 & L5 & _).
  assert (Hs5 : staged tmp i buf w w5) by (eapply staged_same; [exact Hs3|congruence..]).
  case_if_in H.
  { unfold ibind at 1, builtin_error in H. eapply unlink_replaced; [done| |exact H]. by eapply staged_same. }
  unfold ibind at 1 in H. destruct (sys_rename tmp p w5) as [r6 w6] eqn:Hren.
  destruct (replaced_renamed _ _ _ _ _ _ _ _ Htmp Hs5 Hren) as [[-> [E6 L6]]|[-> Hrep]].
  - cbn [Z.ltb Z.compare] in H. unfold ibind at 1 in H.
    destruct (sys_unlink tmp w6) as [r7 w7] eqn:Hu.
    assert (Hs6 : staged tmp i buf w w6) by (by eapply staged_same).
    destruct (staged_unlink _ _ _ _ _ _ _ Hs6 Hu) as ([z7 ->] & Hq & Hl). injection H as <- <-.
    eapply replaced_failed; [exact Htmp|apply Hs6|exact Hq|exact Hl].
  - cbn [Z.ltb Z.compare] in H. injection H as <- <-. done.
Qed.

(* ------------------------------------------------------------------ *)
(** ** Extensions are read inside the file *)

Lemma skip_entries_yields n buf ver : bytes buf -> forall off, 12 <= off <= len buf - 20 ->
  yields (fun o => 12 <= o <= len buf - 20) (skip_entries n buf ver off).
Proof.
  intros Hb. induction n as [|n IH]; intros off Hoff; cbn [skip_entries]; [done|].
  cbn zeta. case_if; [done|].
  destruct (yields_be16 buf (off + 60) Hb) as (fl & -> & Hfl); [lia..|]. cbn [obind].
  set (ext := (ver >=? 3) && negb (Z.land fl 0x4000 =? 0)).
  destruct (ext && (off + 62 + 2 >? len buf - 20)) eqn:Eext; [done|].
  set (xl := if ext then 2 else 0).
  assert (Hxl : 0 <= xl <= 2 /\ off + 62 + xl <= len buf - 20).
  { unfold xl. destruct ext; simpl in Eext; simpl_bool; lia. }
  rewrite rdn_ok by lia. cbn [obind].
  destruct (find_byte 0 _) as [nul|]; [|done].
  set (pl := if Z.land fl 0xFFF =? 0xFFF then Z.of_nat nul else Z.land fl 0xFFF).
  case_if; [done|]. pose proof (Z.mod_pos_bound (62 + xl + pl) 8).
  case_if; [done|]. apply IH. lia.
Qed.

(** A search that finds something stays inside the window. *)
Lemma find_byte_lt c l n : find_byte c l = Some n -> (n < length l)%nat.
Proof. intros (a & b & -> & <- & _)%find_byte_Some. rewrite length_app. simpl. lia. Qed.

Lemma find_in_rest body at_ c n : 0 <= at_ <= len body ->
  find_byte c (take (Z.to_nat (len body - at_)) (drop (Z.to_nat at_) body)) = Some n ->
  at_ + Z.of_nat n < len body.
Proof.
  intros Ha H. apply find_byte_lt in H. rewrite length_take, length_drop in H. unfold len in *. lia.
Qed.

Lemma ext_loop_yields sig visit buf : bytes buf ->
  (forall body, bytes body -> yields (fun _ => True) (visit body)) ->
  forall fuel off, 0 <= off <= len buf - 20 -> len buf - off < Z.of_nat fuel ->
  yields (fun _ => True) (ext_loop fuel sig visit buf off).
Proof.
  intros Hb Hv. induction fuel as [|fuel IH]; intros off Hoff Hf; [lia|]. cbn [ext_loop].
  case_if; [|done]. destruct (yields_be32 buf (off + 4) Hb) as (size & -> & Hsz); [lia..|].
  cbn [obind]. case_if; [done|]. rewrite rdn_ok by lia. cbn [obind].
  apply yields_bind with (P := fun _ => True).
  - case_if; [|done]. rewrite rdn_ok by lia. cbn [obind]. apply Hv. by apply Forall_take, Forall_drop.
  - intros ids _. eapply yields_bind; [apply IH; lia|]. done.
Qed.

Lemma undo_mode_yields body at_ : bytes body -> 0 <= at_ ->
  yields (fun m => match m with Some (_, a) => at_ < a <= len body | None => True end)
    (undo_mode body at_).
Proof.
  intros Hb Ha. unfold undo_mode. case_if; [|done]. rewrite rdn_ok by lia. cbn [obind].
  destruct (find_byte 0 _) as [n|] eqn:E; [|done]. apply find_in_rest in E; [|lia].
  destruct (Nat.eqb n 0); cbn [obind]; [simpl; lia|].
  rewrite rd_ok by lia. cbn [obind]. simpl. lia.
Qed.

Lemma undo_ids_yields sets body : bytes body -> forall at_, 0 <= at_ <= len body ->
  yields (fun r => match r.2 with Some a => at_ <= a <= len body | None => True end)
    (undo_ids sets body at_).
Proof.
  intros Hb. induction sets as [|[] sets IH]; intros at_ Ha; cbn [undo_ids negb]; [simpl; lia| |by apply IH].
  case_if; [done|]. rewrite rdn_ok by lia. cbn [obind].
  eapply yields_bind; [apply IH; lia|]. intros [ids [a|]]; simpl; [lia|done].
Qed.

Lemma undo_loop_yields body : bytes body -> forall fuel at_, 0 <= at_ <= len body ->
  len body - at_ < Z.of_nat fuel -> yields (fun _ => True) (undo_loop fuel body at_).
Proof.
  intros Hb. induction fuel as [|fuel IH]; intros at_ Ha Hf; [lia|]. cbn [undo_loop].
  case_if; [|done]. rewrite rdn_ok by lia. cbn [obind].
  destruct (find_byte 0 _) as [n|] eqn:E; [|done]. apply find_in_rest in E; [|lia].
  eapply yields_bind; [apply undo_mode_yields; [done|lia]|]. intros [[s0 a0]|] H0; [|done].
  eapply yields_bind; [apply undo_mode_yields; [done|lia]|]. intros [[s1 a1]|] H1; [|done].
  eapply yields_bind; [apply undo_mode_yields; [done|lia]|]. intros [[s2 a2]|] H2; [|done].
  eapply yields_bind; [apply undo_ids_yields; [done|lia]|]. intros [ids [a|]] H3; simpl in H3; [|done].
  eapply yields_bind; [apply IH; lia|]. done.
Qed.

Lemma tree_loop_yields body : bytes body -> forall fuel at_, 0 <= at_ <= len body ->
  len body - at_ < Z.of_nat fuel -> yields (fun _ => True) (tree_loop fuel body at_).
Proof.
  intros Hb. induction fuel as [|fuel IH]; intros at_ Ha Hf; [lia|]. cbn [tree_loop].
  case_if; [|done]. rewrite rdn_ok by lia. cbn [obind].
  destruct (find_byte 0 _) as [n|] eqn:E; [|done]. apply find_in_rest in E; [|lia].
  set (a := at_ + Z.of_nat n + 1) in *. case_if; [|done].
  rewrite rdn_ok by lia. cbn [obind].
  destruct (find_byte 10 _) as [k|] eqn:E2; [|done]. apply find_in_rest in E2; [|lia].
  case_if; [done|]. rewrite rdn_ok by lia. cbn [obind]. cbn zeta.
  destruct (strtol 10 _) as [[entries ?] ?]. case_if; [apply IH; lia|].
  case_if; [done|]. rewrite rdn_ok by lia. cbn [obind].
  eapply yields_bind; [apply IH; lia|]. done.
Qed.

Lemma after_entries_yields buf : bytes buf ->
  yields (fun o => 12 <= o <= len buf - 20) (bgit_index_after_entries buf).
Proof.
  intros Hb. unfold bgit_index_after_entries. case_if; [done|]. rewrite rdn_ok by lia. cbn [obind].
  case_if; [done|]. destruct (yields_be32 buf 4 Hb) as (ver & -> & _); [lia..|]. cbn [obind].
  case_if; [done|]. destruct (yields_be32 buf 8 Hb) as (n & -> & _); [lia..|]. cbn [obind].
  apply skip_entries_yields; [done|lia].
Qed.

(* ------------------------------------------------------------------ *)
(** ** Resolve-undo records, written and read *)

(** A stage of a resolved conflict: the octal text of its mode and its id. *)
Definition undo_stage : Type := option (list Z * list Z).

Definition stage_ok (s : undo_stage) : Prop :=
  match s with
  | Some (text, id) => cstring text /\ (match text with c :: _ => c <> 48 | [] => False end) /\ oid id
  | None => True
  end.

Definition stage_text (s : undo_stage) : list Z :=
  match s with Some (text, _) => text ++ [0] | None => [48; 0] end.
Definition stage_id (s : undo_stage) : list Z := match s with Some (_, id) => id | None => [] end.
Definition stage_set (s : undo_stage) : bool := match s with Some _ => true | None => false end.
Definition stage_hex (s : undo_stage) : list (list Z) :=
  match s with Some (_, id) => [bgit_sha_to_hex id] | None => [] end.

Record undo_record := { u_path : list Z; u0 : undo_stage; u1 : undo_stage; u2 : undo_stage }.

Definition undo_ok (u : undo_record) : Prop :=
  cstring (u_path u) /\ stage_ok (u0 u) /\ stage_ok (u1 u) /\ stage_ok (u2 u).

Definition undo_bytes (u : undo_record) : list Z :=
  (u_path u ++ [0]) ++ stage_text (u0 u) ++ stage_text (u1 u) ++ stage_text (u2 u) ++
  stage_id (u0 u) ++ stage_id (u1 u) ++ stage_id (u2 u).

Definition undo_hex (u : undo_record) : list (list Z) :=
  stage_hex (u0 u) ++ stage_hex (u1 u) ++ stage_hex (u2 u).

Lemma len_pos_app {A} (a b c : list A) at_ : at_ = len a -> 0 < len b -> (at_ <? len (a ++ b ++ c)) = true.
Proof. intros -> Hb. rewrite !len_app. pose proof (len_nonneg c). apply Z.ltb_lt. lia. Qed.

(** The bytes from [at_] to the end. *)
Lemma rdn_rest pre post at_ : at_ = len pre ->
  rdn (pre ++ post) at_ (len (pre ++ post) - at_) = Ret post.
Proof.
  intros ->. rewrite <- (app_nil_r post) at 1. rewrite len_app. apply rdn_app'; lia.
Qed.

Lemma cstring_nonzero s : cstring s -> Forall (fun x => x <> 0) s.
Proof. intros H. eapply Forall_impl; [exact H|]. unfold is_char. lia. Qed.

Lemma undo_mode_written s pre post at_ : stage_ok s -> at_ = len pre ->
  undo_mode (pre ++ stage_text s ++ post) at_ = Ret (Some (stage_set s, at_ + len (stage_text s))).
Proof.
  intros Hs ->. unfold undo_mode.
  assert (Hp : 0 < len (stage_text s)).
  { destruct s as [[t id]|]; simpl; [|done]. rewrite len_app. pose proof (len_nonneg t).
    change (len [0]) with 1. lia. }
  rewrite len_pos_app by done. rewrite rdn_rest by done. cbn [obind].
  destruct s as [[t id]|]; cbn [stage_text stage_set].
  - destruct Hs as (Hc & Hh & _). rewrite <- app_assoc. cbn [app].
    rewrite find_byte_app by (by apply cstring_nonzero). destruct t as [|c t]; [done|].
    cbn [length Nat.eqb app]. rewrite rd_app_hd by done. cbn [obind].
    rewrite (proj2 (Z.eqb_neq c 48) Hh). cbn [negb]. do 3 f_equal.
    rewrite len_cons, len_app. change (len [0]) with 1. unfold len. lia.
  - cbn [app find_byte Z.eqb Nat.eqb]. rewrite rd_app_hd. cbn [obind Z.eqb negb]. do 3 f_equal.
    change (len [48; 0]) with 2. lia.
Qed.

Lemma undo_ids_written ss : forall pre post at_, Forall stage_ok ss -> at_ = len pre ->
  undo_ids (map stage_set ss) (pre ++ flat_map stage_id ss ++ post) at_ =
    Ret (flat_map stage_hex ss, Some (at_ + len (flat_map stage_id ss))).
Proof.
  induction ss as [|s ss IH]; intros pre post at_ Hall ->; cbn [map undo_ids flat_map].
  - change (len (@nil Z)) with 0. by rewrite Z.add_0_r.
  - inversion Hall as [|? ? Hs Hss]; subst. destruct s as [[t id]|]; cbn [stage_set negb stage_id stage_hex].
    + destruct Hs as (_ & _ & Hid & _). rewrite <- app_assoc.
      replace (len pre + 20 >? len (pre ++ id ++ flat_map stage_id ss ++ post)) with false.
      2:{ symmetry. rewrite !len_app, Hid. pose proof (len_nonneg (flat_map stage_id ss)).
          pose proof (len_nonneg post). solve_false. }
      rewrite rdn_app' by done. cbn [obind]. rewrite (app_assoc pre).
      rewrite IH by (try done; rewrite len_app; lia). cbn [obind]. rewrite len_app, Hid.
      cbn [app]. do 3 f_equal. lia.
    + apply IH; done.
Qed.

Lemma undo_loop_written us : forall fuel pre, Forall undo_ok us ->
  (length us < fuel)%nat ->
  undo_loop fuel (pre ++ flat_map undo_bytes us) (len pre) = Ret (flat_map undo_hex us).
Proof.
  induction us as [|u us IH]; intros fuel pre Hall Hf; (destruct fuel as [|fuel]; [simpl in Hf; lia|]);
    cbn [undo_loop flat_map].
  - rewrite app_nil_r, Z.ltb_irrefl. done.
  - inversion Hall as [|? ? (Hp & H0 & H1 & H2) Hus]; subst.
    set (rest := flat_map undo_bytes us) in *.
    rewrite len_pos_app by (try done; unfold undo_bytes; rewrite !len_app; change (len [0]) with 1;
      repeat match goal with |- context [len ?l] =>
        lazymatch goal with H : 0 <= len l |- _ => fail | _ => pose proof (len_nonneg l) end end; lia).
    rewrite rdn_rest by done. cbn [obind].
    unfold undo_bytes at 1. rewrite <- !app_assoc. cbn [app].
    rewrite find_byte_app by (by apply cstring_nonzero).
    set (p1 := pre ++ (u_path u ++ [0])).
    assert (E1 : pre ++ undo_bytes u ++ rest = p1 ++ stage_text (u0 u) ++ (stage_text (u1 u) ++
      stage_text (u2 u) ++ stage_id (u0 u) ++ stage_id (u1 u) ++ stage_id (u2 u) ++ rest)).
    { unfold p1, undo_bytes. by rewrite <- !app_assoc. }
    assert (L1 : len pre + Z.of_nat (length (u_path u)) + 1 = len p1).
    { unfold p1. rewrite !len_app. change (len [0]) with 1. unfold len. lia. }
    rewrite L1. rewrite E1 at 1. rewrite undo_mode_written by done. cbn [obind].
    set (p2 := p1 ++ stage_text (u0 u)).
    assert (E2 : pre ++ undo_bytes u ++ rest = p2 ++ stage_text (u1 u) ++ (stage_text (u2 u) ++
      stage_id (u0 u) ++ stage_id (u1 u) ++ stage_id (u2 u) ++ rest)).
    { rewrite E1. unfold p2. by rewrite <- !app_assoc. }
    rewrite E2 at 1. rewrite (undo_mode_written _ p2) by (try done; unfold p2; rewrite len_app; lia).
    cbn [obind]. set (p3 := p2 ++ stage_text (u1 u)).
    assert (E3 : pre ++ undo_bytes u ++ rest = p3 ++ stage_text (u2 u) ++
      (stage_id (u0 u) ++ stage_id (u1 u) ++ stage_id (u2 u) ++ rest)).
    { rewrite E2. unfold p3. by rewrite <- !app_assoc. }
    rewrite E3 at 1. rewrite (undo_mode_written _ p3) by (try done; unfold p3, p2; rewrite !len_app; lia).
    cbn [obind]. set (p4 := p3 ++ stage_text (u2 u)).
    assert (E4 : pre ++ undo_bytes u ++ rest = p4 ++ flat_map stage_id [u0 u; u1 u; u2 u] ++ rest).
    { rewrite E3. unfold p4. cbn [flat_map]. rewrite app_nil_r. by rewrite <- !app_assoc. }
    rewrite E4 at 1.
    rewrite (undo_ids_written [u0 u; u1 u; u2 u] p4) by
      (first [by repeat constructor | unfold p4, p3, p2; rewrite !len_app; lia]).
    cbn [obind].
    assert (E5 : pre ++ undo_bytes u ++ rest = (pre ++ undo_bytes u) ++ rest) by (by rewrite app_assoc).
    rewrite E5.
    replace (len p1 + len (stage_text (u0 u)) + len (stage_text (u1 u)) + len (stage_text (u2 u)) +
      len (flat_map stage_id [u0 u; u1 u; u2 u])) with (len (pre ++ undo_bytes u)).
    2:{ pose proof (f_equal len E4) as E. rewrite E5 in E. rewrite (len_app _ rest) in E.
        rewrite (len_app p4), (len_app _ rest) in E. unfold p4, p3, p2 in E. rewrite !len_app in E.
        rewrite !len_app. lia. }
    simpl in Hf. unfold rest. rewrite IH by (try done; lia). cbn [obind]. do 2 f_equal. unfold undo_hex.
    cbn [flat_map]. by rewrite app_nil_r.
Qed.

(** ** Finding the extensions of a written index *)

Lemma read_view_skip buf ver off v off' : read_view buf ver off = Ret (v, off') ->
  forall n, skip_entries (S n) buf ver off = skip_entries n buf ver off'.
Proof.
  unfold read_view. cbn [skip_entries]. cbn zeta. intros H n. case_if_in H; [done|].
  inv_bind H. rewrite Hv. cbn [obind].
  set (ext := (ver >=? 3) && negb (Z.land v0 0x4000 =? 0)) in *.
  destruct (ext && (off + 62 + 2 >? len buf - 20)) eqn:Eext; [done|]. inv_bind H. rewrite Hv0. cbn [obind].
  destruct (find_byte 0 v1) as [nul|]; [|done].
  case_if_in H; [done|]. case_if_in H; [done|].
  set (pl := if Z.land v0 0xFFF =? 0xFFF then Z.of_nat nul else Z.land v0 0xFFF) in *.
  set (xl := if ext then 2 else 0) in *.
  assert (Hp : entry_pad (62 + xl + pl) = 8 - (62 + xl + pl) mod 8).
  { unfold entry_pad. cbn zeta. pose proof (Z.mod_pos_bound (62 + xl + pl) 8).
    rewrite (proj2 (Z.eqb_neq _ 0)) by lia. done. }
  rewrite Hp in H. case_if_in H; [done|]. inv_bind H. injection H as _ <-. done.
Qed.

Lemma read_views_skip n buf ver : forall off vs off', read_views_loop n buf ver off = Ret (vs, off') ->
  skip_entries n buf ver off = Ret off'.
Proof.
  induction n as [|n IH]; intros off vs off' H; cbn [read_views_loop] in H; [by injection H as _ <-|].
  inv_bind H. destruct v as [v off1]. inv_bind H. destruct v0 as [vs0 off2]. injection H as _ <-.
  rewrite (read_view_skip _ _ _ _ _ Hv). by eapply IH.
Qed.

Lemma after_entries_written st es ext buf : index_bytes st es ext = Ret buf -> Forall wf_entry es ->
  exists hd digest, buf = hd ++ ext ++ digest /\ len digest = 20 /\ 12 <= len hd /\
    bgit_index_after_entries buf = Ret (len hd).
Proof.
  intros H Hwf.
  destruct (written_layout _ _ _ _ H Hwf) as (hd & digest & version & views & Eb & Hlh & Hd & Hsha &
    H0 & H4 & Hv & H8 & Hmin & Hr & Hdec).
  exists (hd ++ flat_map (entry_bytes st) es), digest. rewrite <- !app_assoc.
  pose proof (len_nonneg es). pose proof (len_nonneg ext). split; [done|]. split; [done|].
  rewrite len_app, Hlh. split; [lia|].
  assert (Hlb : len buf = 12 + len (flat_map (entry_bytes st) es) + len ext + 20).
  { rewrite Eb, !len_app. lia. }
  unfold bgit_index_after_entries. if_false. rewrite H0, H4, H8. cbn [obind].
  replace (beq (str "DIRC") (str "DIRC")) with true by (by vm_compute). cbn [negb].
  replace (negb (version =? 2) && negb (version =? 3)) with false by (destruct Hv as [-> | ->]; done).
  replace (Z.to_nat (len es)) with (length es) by (unfold len; lia).
  by eapply read_views_skip.
Qed.

Definition reuc_ext (us : list undo_record) : list Z :=
  str "REUC" ++ bgit_put_be32 (len (flat_map undo_bytes us)) ++ flat_map undo_bytes us.

Lemma undo_bytes_length u : (1 <= length (undo_bytes u))%nat.
Proof. unfold undo_bytes. rewrite !length_app. simpl. lia. Qed.

Lemma undo_list_length us : (length us <= length (flat_map undo_bytes us))%nat.
Proof.
  induction us as [|u us IH]; [done|]. cbn [flat_map length]. rewrite length_app.
  pose proof (undo_bytes_length u). lia.
Qed.

(* ------------------------------------------------------------------ *)
(** ** Theorems *)

(** [C4] Writing the index replaces the file at once.  Under every script of
    kernel answers - short writes, interruptions, failures anywhere - the
    writer ends, returning 0 with the path holding exactly the laid-out bytes
    or -1 with the path as it was; every state other processes can see
    meanwhile has the old file or the whole new one there; and no other name
    that existed is touched. *)
Theorem index_write_atomic st p es ext buf w r w' :
  index_bytes st es ext = Ret buf -> fs_ok (w_fs w) ->
  bgit_index_write_ext st p es ext w = (r, w') ->
  exists rc, r = Ret rc /\
    ((rc = 0 /\ content (w_fs w') p = Some buf) \/
     (rc = -1 /\ content (w_fs w') p = content (w_fs w) p)) /\
    (forall q, q <> p -> is_Some (names (w_fs w) !! q) -> content (w_fs w') q = content (w_fs w) q) /\
    exists new, w_log w' = new ++ w_log w /\
      Forall (fun f => content f p = content (w_fs w) p \/ content f p = Some buf) new.
Proof.
  intros Hb Hok H. unfold bgit_index_write_ext in H. rewrite Hb in H. by apply replace_file_spec in H.
Qed.

Definition demo_world : world :=
  {| w_fs := {| names := ∅; inodes := ∅ |}; w_fds := ∅; w_errno := 0;
     w_answers := [Proceed; Proceed; Short 5; Errno EINTR; Short 40]; w_temps := [str "abcdef"];
     w_now := (7, 0); w_log := []; w_reports := [] |}.

Definition demo_index : list Z :=
  match index_bytes demo_statics [demo_entry] [] with Ret b => b | _ => [] end.

Lemma demo_fs_ok : fs_ok (w_fs demo_world).
Proof. intros p i H. cbn in H. by rewrite lookup_empty in H. Qed.

Lemma demo_write : exists w',
  bgit_index_write_ext demo_statics (str "index") [demo_entry] [] demo_world = (Ret 0, w') /\
  w_answers w' = [].
Proof. eexists. vm_compute. split; reflexivity. Qed.

Lemma demo_index_eq : index_bytes demo_statics [demo_entry] [] = Ret demo_index.
Proof. by vm_compute. Qed.

Lemma index_write_atomic_witness : exists w',
  bgit_index_write_ext demo_statics (str "index") [demo_entry] [] demo_world = (Ret 0, w') /\
  content (w_fs w') (str "index") = Some demo_index.
Proof.
  destruct demo_write as (w' & E & _). exists w'. split; [exact E|].
  destruct (index_write_atomic demo_statics (str "index") [demo_entry] [] demo_index demo_world (Ret 0) w'
    demo_index_eq demo_fs_ok E) as (rc & Erc & [[_ Hc]|[-> _]] & _); [exact Hc|by injection Erc].
Defined.

(** [C5] From write to read through the disk: after a write that returned 0, a
    later read of the path, under any kernel answers, either reports that it
    could not read the file or returns the entries as written; it never
    returns others, never takes the file for corrupt, and always ends. *)
Theorem index_write_read st p es ext w w' st0 w1 r w2 :
  Forall wf_entry es -> fs_ok (w_fs w) ->
  bgit_index_write_ext st p es ext w = (Ret 0, w') -> w_fs w1 = w_fs w' ->
  read_index st0 p w1 = (r, w2) ->
  r = Fail "read %s: %s" \/ exists st1, r = Ret (map (as_written st) es, st1).
Proof.
  intros Hwf Hok H Efs Hread. unfold bgit_index_write_ext in H.
  destruct (index_bytes st es ext) as [buf|m|] eqn:Hb;
    [|by destruct (String.eqb m ""); cbn in H|done].
  apply replace_file_spec in H as (rc & [= <-] & [[_ Hc]|[? _]] & _); [|done|done].
  rewrite <- Efs in Hc. unfold content, lookup_inode in Hc.
  destruct (names (w_fs w1) !! p) as [i|] eqn:Hn; [|done]. simpl in Hc.
  destruct (inodes (w_fs w1) !! i) as [nd|] eqn:Hi; [|done].
  destruct (i_dir nd) eqn:Hdir; [done|]. injection Hc as Hd.
  unfold read_index in Hread. unfold ibind at 1 in Hread.
  destruct (bgit_index_slurp p w1) as [r1 w3] eqn:Hs.
  destruct (slurp_spec _ _ _ _ _ _ Hn Hi Hdir Hs) as [_ [-> | ->]].
  { injection Hread as <- <-. by left. }
  rewrite Hd in Hread. destruct (parse_written st es ext buf Hb Hwf st0) as (vs & st1 & Hp & Hdec & _).
  unfold ibind, lift in Hread. rewrite Hp in Hread.
  destruct (sys_stat p w3) as [r4 w4] eqn:Hst.
  assert (exists s, r4 = Ret s) as [s ->].
  { unfold sys_stat in Hst. clear -Hst. step_io Hst; eauto. }
  unfold bgit_index_decode_views in Hread. rewrite Hdec in Hread. injection Hread as <- <-.
  right. eauto.
Qed.

Lemma index_write_read_witness : exists w' r,
  bgit_index_write_ext demo_statics (str "index") [demo_entry] [] demo_world = (Ret 0, w') /\
  fst (read_index demo_statics (str "index") w') = r /\
  (r = Fail "read %s: %s" \/ exists st1, r = Ret ([as_written demo_statics demo_entry], st1)).
Proof.
  destruct demo_write as (w' & E & _). exists w'.
  destruct (read_index demo_statics (str "index") w') as [r w2] eqn:E2. exists r.
  split; [exact E|]. split; [reflexivity|].
  exact (index_write_read demo_statics (str "index") [demo_entry] [] demo_world w' demo_statics w'
    r w2 (Forall_cons_2 _ _ _ demo_entry_wf (Forall_nil_2 _)) demo_fs_ok E eq_refl E2).
Defined.

(** The readers of extensions never load outside the file, whatever its
    bytes: sizes, records and counts that do not fit are refused or end the
    walk, and both loops always end. *)
Theorem index_extensions_safe buf :
  bytes buf -> safe (bgit_index_resolve_undo buf) /\ safe (bgit_index_cache_tree buf).
Proof.
  intros Hb.
  split; eapply yields_safe; (eapply yields_bind; [by apply after_entries_yields|]); intros off Hoff; cbv beta in Hoff;
    (apply (ext_loop_yields _ _ _ Hb); [|lia|unfold len in *; lia]); intros body Hbody.
  - apply undo_loop_yields; [done|pose proof (len_nonneg body); lia|unfold len; lia].
  - apply tree_loop_yields; [done|pose proof (len_nonneg body); lia|unfold len; lia].
Qed.

Lemma index_extensions_safe_witness :
  safe (bgit_index_resolve_undo (str "DIRC" ++ [0; 0; 0; 2; 0; 0; 0; 0] ++ str "REUC" ++
    [255; 255; 255; 255] ++ replicate 20 0)).
Proof. refine (proj1 (index_extensions_safe _ _)). solve_bytes. Defined.

(** The resolve-undo reader finds, in an index written with a resolve-undo
    extension, the ids of every recorded stage in order, and nothing else. *)
Theorem resolve_undo_exact st es us buf :
  index_bytes st es (reuc_ext us) = Ret buf -> Forall wf_entry es -> Forall undo_ok us ->
  len (flat_map undo_bytes us) < 2 ^ 32 ->
  bgit_index_resolve_undo buf = Ret (flat_map undo_hex us).
Proof.
  intros Hb Hwf Hus Hlen.
  destruct (after_entries_written _ _ _ _ Hb Hwf) as (hd & digest & Eb & Hd & Hh & Ha).
  unfold bgit_index_resolve_undo. rewrite Ha. cbn [obind].
  set (body := flat_map undo_bytes us) in *. unfold reuc_ext in Eb. fold body in Eb.
  pose proof (len_nonneg body). pose proof (len_nonneg hd).
  assert (Hlb : len buf = len hd + 8 + len body + 20).
  { rewrite Eb, !len_app, len_put_be32. change (len (str "REUC")) with 4. lia. }
  assert (Hfuel : exists f, S (length buf) = S (S f)) 
    by (assert (Hpos : 0 < len buf) by lia; exists (length buf - 1)%nat; unfold len in Hpos; lia).
  destruct Hfuel as [f ->]. cbn [ext_loop]. if_true.
  assert (Hsz : bgit_be32 buf (len hd + 4) = Ret (len body)).
  { rewrite Eb, <- !app_assoc, (app_assoc hd). apply be32_put; [rewrite len_app; done|lia]. }
  rewrite Hsz. cbn [obind]. if_false.
  assert (Hsig : rdn buf (len hd) 4 = Ret (str "REUC")).
  { rewrite Eb, <- !app_assoc. by apply rdn_app'. }
  rewrite Hsig. cbn [obind]. replace (beq (str "REUC") (str "REUC")) with true by (by vm_compute).
  assert (Hbd : rdn buf (len hd + 8) (len body) = Ret body).
  { rewrite Eb, <- !app_assoc, (app_assoc hd), (app_assoc (hd ++ _)).
    apply rdn_app'; [rewrite !len_app, len_put_be32; change (len (str "REUC")) with 4; lia|done]. }
  rewrite Hbd. cbn [obind].
  assert (Hu : undo_loop (S (length body)) body 0 = Ret (flat_map undo_hex us)).
  { apply (undo_loop_written us _ [] Hus). pose proof (undo_list_length us). unfold body. lia. }
  rewrite Hu. cbn [obind]. if_false. cbn [obind]. by rewrite app_nil_r.
Qed.

Definition demo_undo : undo_record :=
  {| u_path := str "f"; u0 := Some (str "100644", demo_oid); u1 := None;
     u2 := Some (str "100755", demo_oid) |}.

Lemma demo_undo_ok : undo_ok demo_undo.
Proof.
  split; [solve_bytes|]. split; [|split; [exact I|]];
    (split; [solve_bytes|split; [done|apply demo_oid_ok]]).
Qed.

Lemma resolve_undo_exact_witness : exists buf,
  index_bytes demo_statics [demo_entry] (reuc_ext [demo_undo]) = Ret buf /\
  bgit_index_resolve_undo buf = Ret [bgit_sha_to_hex demo_oid; bgit_sha_to_hex demo_oid].
Proof.
  destruct (index_bytes demo_statics [demo_entry] (reuc_ext [demo_undo])) as [buf| |] eqn:E;
    [|by vm_compute in E..].
  exists buf. split; [done|].
  apply (resolve_undo_exact demo_statics [demo_entry] [demo_undo] buf E);
    [repeat constructor; apply demo_entry_wf|constructor; [apply demo_undo_ok|constructor]|by vm_compute].
Defined.
