(* ===== verification/Hash.v ===== *)
(** * Object hashing (loadables/_git/odb.c, lines 144-292)

    SHA-1 through the vendored library that detects collision attacks: in one
    call, through an aligned copy, and over an open file in one pass that also
    checks whether the ranges read earlier still hold what they held.  The
    theorems show that the pass gives the digest of the file's first bytes and
    reports a change exactly when a recorded range no longer has its digest,
    whatever the kernel's short counts and interruptions. *)

From S2P Require Import Prelude Endian Sha1 Odb Sys.
#[local] Open Scope Z_scope.

(* ------------------------------------------------------------------ *)
(** ** What the sources call

    A running hash: [hashed c data] says that the context [c] has taken [data]
    in.  Its end is a digest of 20 bytes and whether a collision attack was
    detected, a function of the data alone. *)
Class Sha1dc := {
  SHA1_CTX : Type;
  SHA1DCInit : SHA1_CTX;
  SHA1DCUpdate : SHA1_CTX -> list Z -> SHA1_CTX;
  SHA1DCFinal : SHA1_CTX -> list Z * bool;
  SHA1DC : list Z -> list Z * bool;
  hashed : SHA1_CTX -> list Z -> Prop;
  hashed_init : hashed SHA1DCInit [];
  hashed_update : forall c a b, hashed c a -> hashed (SHA1DCUpdate c b) (a ++ b);
  hashed_final : forall c a, hashed c a -> SHA1DCFinal c = SHA1DC a;
  SHA1DC_digest : forall data, oid (fst (SHA1DC data)) }.

(* ------------------------------------------------------------------ *)
(** ** Buffers *)

Section Buffers.
Context `{Sha1dc}.

Definition sha1_final (ctx : SHA1_CTX) : outcome (list Z) :=
  let '(digest, collision) := SHA1DCFinal ctx in
  if collision : bool then failed else Ret digest.

Definition bgit_sha1 (data : list Z) : outcome (list Z) :=
  sha1_final (SHA1DCUpdate SHA1DCInit data).

(** 4096 bytes at a time through the aligned copy. *)
Fixpoint bounce_loop (fuel : nat) (ctx : SHA1_CTX) (data : list Z) : outcome SHA1_CTX :=
  match fuel with
  | O => Fault
  | S fuel' =>
      if 0 <? len data then
        let k := if len data >? 4096 then 4096 else len data in
        bounce_loop fuel' (SHA1DCUpdate ctx (take (Z.to_nat k) data)) (drop (Z.to_nat k) data)
      else Ret ctx
  end.

(** [addr] is where the bytes are. *)
Definition bgit_sha1_unaligned (addr : Z) (data : list Z) : outcome (list Z) :=
  if addr mod 4 =? 0 then bgit_sha1 data
  else
    let* ctx := bounce_loop (S (length data)) SHA1DCInit data in
    sha1_final ctx.
End Buffers.

(* ------------------------------------------------------------------ *)
(** ** Spans of a file *)

Definition BGIT_FD_SPAN_MAX : Z := 65536.

Record bgit_fd_span := { sp_off : Z; sp_len : Z; sp_sha : list Z }.

Section Spans.
Context `{Sha1dc}.

Fixpoint spans_add_loop (fuel : nat) (spans : list bgit_fd_span) (addr off : Z) (bytes : list Z)
    : io (Z * list bgit_fd_span) :=
  match fuel with
  | O => lift Fault
  | S fuel' =>
      if 0 <? len bytes then
        let n := if len bytes >? BGIT_FD_SPAN_MAX then BGIT_FD_SPAN_MAX else len bytes in
        match bgit_sha1_unaligned addr (take (Z.to_nat n) bytes) with
        | Ret sha =>
            spans_add_loop fuel' (spans ++ [{| sp_off := off; sp_len := n; sp_sha := sha |}])
              (addr + n) (u64 (off + n)) (drop (Z.to_nat n) bytes)
        | Fail _ => let! _ := set_errno EINVAL in iret (-1, spans)
        | Fault => lift Fault
        end
      else iret (0, spans)
  end.

(** The spans afterwards; those pushed before a failure stay. *)
Definition bgit_fd_spans_add (spans : list bgit_fd_span) (addr off : Z) (bytes : list Z)
    : io (Z * list bgit_fd_span) :=
  spans_add_loop (S (length bytes)) spans addr off bytes.

Definition bgit_fd_span_end_cmp (x y : bgit_fd_span) : Z :=
  let ex := u64 (sp_off x + sp_len x) in
  let ey := u64 (sp_off y + sp_len y) in
  if ex <? ey then -1 else if ex >? ey then 1 else 0.

(** Are the spans usable, and where does the last one end? *)
Fixpoint spans_end (spans : list bgit_fd_span) (stop : Z) : option Z :=
  match spans with
  | [] => Some stop
  | s :: spans' =>
      if (sp_len s =? 0) || (sp_len s >? BGIT_FD_SPAN_MAX) || (sp_off s >? UINT64_MAX - sp_len s)
      then None
      else spans_end spans' (if u64 (sp_off s + sp_len s) >? stop then u64 (sp_off s + sp_len s) else stop)
  end.

Definition WIN : Z := 16 * BGIT_FD_SPAN_MAX.

(** The spans that end within what has been read: those left, and the flag.
    [win] holds the bytes from [wstart] to [wend]; it starts at [win_addr]. *)
Fixpoint spans_check (win_addr : Z) (win : list Z) (wstart wend : Z) (spans : list bgit_fd_span)
    (changed : bool) : outcome (list bgit_fd_span * bool) :=
  match spans with
  | [] => Ret ([], changed)
  | s :: spans' =>
      if u64 (sp_off s + sp_len s) >? wend then Ret (spans, changed)
      else
        let* bad :=
          (if sp_off s <? wstart then Ret true
           else
             let* b := rdn win (sp_off s - wstart) (sp_len s) in
             match bgit_sha1_unaligned (win_addr + (sp_off s - wstart)) b with
             | Ret got => Ret (negb (beq got (sp_sha s)))
             | Fail _ => Ret true
             | Fault => Fault
             end) in
        spans_check win_addr win wstart wend spans' (if bad : bool then true else changed)
  end.

(** The pass: the context and the flag at its end, or nothing. *)
Fixpoint sha1_fd_loop (fuel : nat) (win_addr fd n stop : Z) (ctx : SHA1_CTX) (win : list Z)
    (wstart wend : Z) (spans : list bgit_fd_span) (changed : bool) : io (option SHA1_CTX * bool) :=
  match fuel with
  | O => lift Fault
  | S fuel' =>
      if wend <? stop then
        if wend >? LONG_MAX then let! _ := set_errno EOVERFLOW in iret (None, changed)
        else
          let '(win, wstart) :=
            if wend - wstart >? BGIT_FD_SPAN_MAX
            then (drop (Z.to_nat (wend - wstart - BGIT_FD_SPAN_MAX)) win, wend - BGIT_FD_SPAN_MAX)
            else (win, wstart) in
          let keep := wend - wstart in
          let chunk := WIN - keep in
          let chunk := if stop - wend <? chunk then stop - wend else chunk in
          let! a := sys_pread fd chunk wend in
          let '(r, data) := a in
          if r <? 0 then
            let! e := get_errno in
            if e =? EINTR then sha1_fd_loop fuel' win_addr fd n stop ctx win wstart wend spans changed
            else iret (None, changed)
          else if r =? 0 then let! _ := set_errno EIO in iret (None, changed)
          else
            let ctx :=
              if wend <? n
              then SHA1DCUpdate ctx (take (Z.to_nat (if n - wend <? r then n - wend else r)) data)
              else ctx in
            let wend := wend + r in
            let win := win ++ data in
            let! s := lift (spans_check win_addr win wstart wend spans changed) in
            let '(spans, changed) := s in
            sha1_fd_loop fuel' win_addr fd n stop ctx win wstart wend spans changed
      else iret (Some ctx, changed)
  end.

(** What the caller gets: the digest, when all bytes were read and no collision
    attack was seen; the spans as [qsort] leaves them; and [*changed]. *)
Definition bgit_sha1_fd `{Qsort} (win_addr fd n : Z) (spans : list bgit_fd_span)
    : io (option (list Z) * list bgit_fd_span * bool) :=
  match spans_end spans n with
  | None => let! _ := set_errno EINVAL in iret (None, spans, false)
  | Some stop =>
      let spans := if 1 <? len spans then qsort bgit_fd_span_end_cmp spans else spans in
      let! w := get_world in
      let! r := sha1_fd_loop (S (Z.to_nat stop + length (w_answers w))) win_addr fd n stop
                  SHA1DCInit [] 0 0 spans false in
      let '(ctx, changed) := r in
      match ctx with
      | None => iret (None, spans, changed)
      | Some ctx =>
          match sha1_final ctx with
          | Ret digest => iret (Some digest, spans, changed)
          | Fail _ => iret (None, spans, changed)
          | Fault => lift Fault
          end
      end
  end.
End Spans.

(* ------------------------------------------------------------------ *)
(** ** Hashing a buffer *)

Section BufferFacts.
Context `{Sha1dc}.

Lemma sha1_final_hashed c data : hashed c data ->
  sha1_final c = let '(digest, collision) := SHA1DC data in if collision : bool then failed else Ret digest.
Proof. intros Hc. unfold sha1_final. by rewrite (hashed_final _ _ Hc). Qed.

Lemma bgit_sha1_eq data :
  bgit_sha1 data = let '(digest, collision) := SHA1DC data in if collision : bool then failed else Ret digest.
Proof. apply sha1_final_hashed. apply (hashed_update _ []), hashed_init. Qed.

Lemma sha1_yields data : yields oid (bgit_sha1 data).
Proof.
  rewrite bgit_sha1_eq. pose proof (SHA1DC_digest data). destruct (SHA1DC data) as [d []]; done.
Qed.

Lemma bounce_loop_hashed fuel : forall c a data, hashed c a -> (length data < fuel)%nat ->
  exists c', bounce_loop fuel c data = Ret c' /\ hashed c' (a ++ data).
Proof.
  induction fuel as [|fuel IH]; intros c a data Hc Hf; [lia|]. cbn [bounce_loop]. case_if.
  - set (k := if len data >? 4096 then 4096 else len data).
    assert (Hk : 0 < k <= len data) by (unfold k; case_if; lia).
    destruct (IH (SHA1DCUpdate c (take (Z.to_nat k) data)) (a ++ take (Z.to_nat k) data) (drop (Z.to_nat k) data))
      as (c' & -> & Hc'); [by apply hashed_update|rewrite length_drop; unfold len in *; lia|].
    exists c'. split; [done|]. by rewrite <- app_assoc, take_drop in Hc'.
  - pose proof (len_nonneg data). destruct data as [|x data]; [|rewrite len_cons in *; pose proof (len_nonneg data); lia].
    exists c. by rewrite app_nil_r.
Qed.

(** The aligned copy makes no difference. *)
Lemma sha1_unaligned_eq addr data : bgit_sha1_unaligned addr data = bgit_sha1 data.
Proof.
  unfold bgit_sha1_unaligned. case_if; [done|].
  destruct (bounce_loop_hashed (S (length data)) SHA1DCInit [] data hashed_init ltac:(lia)) as (c & -> & Hc).
  cbn [obind]. by rewrite (sha1_final_hashed _ _ Hc), bgit_sha1_eq.
Qed.
End BufferFacts.

(* ------------------------------------------------------------------ *)
(** ** Spans that tell the truth *)

Section SpanFacts.
Context `{Sha1dc}.

(** A span that can be recorded, of the bytes [data] holds there. *)
Definition span_wf (s : bgit_fd_span) : Prop :=
  0 <= sp_off s /\ 0 < sp_len s <= BGIT_FD_SPAN_MAX /\ sp_off s + sp_len s <= UINT64_MAX.

Definition span_holds (data : list Z) (s : bgit_fd_span) : Prop :=
  sp_off s + sp_len s <= len data /\ bgit_sha1 (slice data (sp_off s) (sp_len s)) = Ret (sp_sha s).

Definition spans_honest (data : list Z) (spans : list bgit_fd_span) : Prop :=
  Forall (fun s => span_wf s /\ span_holds data s) spans.

(** The positions the spans cover. *)
Definition covered (spans : list bgit_fd_span) (x : Z) : Prop :=
  exists s, s ∈ spans /\ sp_off s <= x < sp_off s + sp_len s.

Lemma covered_app spans more x : covered spans x -> covered (spans ++ more) x.
Proof. intros (s & Hs & Hx). exists s. split; [apply elem_of_app; by left|done]. Qed.

(** Recording what was read keeps the spans honest, and success covers it. *)
Lemma spans_add_spec data fuel : len data <= UINT64_MAX -> forall spans addr off n w r w',
  (Z.to_nat n < fuel)%nat -> 0 <= off -> 0 <= n -> off + n <= len data -> spans_honest data spans ->
  spans_add_loop fuel spans addr off (slice data off n) w = (r, w') ->
  looks_only w w' /\ w_answers w' = w_answers w /\
  exists rc more, r = Ret (rc, spans ++ more) /\ (rc = 0 \/ rc = -1) /\ spans_honest data (spans ++ more) /\
    (rc = 0 -> forall x, off <= x < off + n -> covered (spans ++ more) x).
Proof.
  intros Hmax. induction fuel as [|fuel IH]; intros spans addr off n w r w' Hf Ho Hn Hd Hs HR; [lia|].
  cbn [spans_add_loop] in HR. rewrite (len_slice data off n) in HR by lia. case_if_in HR.
  2:{ injection HR as <- <-. split; [apply looks_only_refl|]. split; [done|]. exists 0, []. rewrite app_nil_r.
      split_and!; try done; [by left|]. intros _ x Hx. lia. }
  set (k := if n >? BGIT_FD_SPAN_MAX then BGIT_FD_SPAN_MAX else n) in *.
  assert (Hk : 0 < k <= n /\ k <= BGIT_FD_SPAN_MAX) by (unfold k, BGIT_FD_SPAN_MAX; case_if; lia).
  rewrite sha1_unaligned_eq, take_slice, drop_slice in HR by lia.
  pose proof (sha1_yields (slice data off k)) as Hy.
  destruct (bgit_sha1 (slice data off k)) as [sha|m|] eqn:Esha; [| |done].
  - unfold u64 in HR. rewrite Z.mod_small in HR by (unfold UINT64_MAX in *; lia).
    set (s := {| sp_off := off; sp_len := k; sp_sha := sha |}) in *.
    apply IH in HR as (Hlo & Ha & rc & more & -> & Hrc & Hh & Hcov); try lia.
    + split; [done|]. split; [done|]. exists rc, (s :: more). rewrite <- app_assoc in *. cbn [app] in *.
      split_and!; try done. intros Hz x Hx. destruct (Z.lt_ge_cases x (off + k)); [|apply (Hcov Hz); lia].
      exists s. split; [apply elem_of_app; right; by left|cbn; lia].
    + apply Forall_app. split; [done|]. constructor; [|constructor]. split; [|split; [cbn; lia|done]].
      unfold span_wf. cbn. lia.
  - injection HR as <- <-. split; [by repeat split|]. split; [done|]. exists (-1), []. rewrite app_nil_r.
    split_and!; try done. by right.
Qed.

(* ------------------------------------------------------------------ *)
(** ** The pass over the file *)

Definition span_end (s : bgit_fd_span) : Z := sp_off s + sp_len s.

Lemma span_end_u64 s : span_wf s -> u64 (sp_off s + sp_len s) = span_end s.
Proof. intros (?&?&?). unfold span_end, u64. apply Z.mod_small. unfold UINT64_MAX in *. lia. Qed.

Lemma span_cmp_preorder : total_preorder bgit_fd_span_end_cmp.
Proof.
  unfold bgit_fd_span_end_cmp. split; intros; repeat case_if; try lia;
    repeat case_if_in H0; repeat case_if_in H1; lia.
Qed.

Definition by_end : list bgit_fd_span -> Prop := StronglySorted (fun a b => span_end a <= span_end b).

(** The spans that end within the window, whose earlier bytes were all read
    before the last read. *)
Lemma spans_check_spec data win_addr wstart wend p spans : forall changed,
  0 <= wstart <= Z.max 0 (p - BGIT_FD_SPAN_MAX) -> wstart <= wend -> wend <= len data -> by_end spans ->
  Forall span_wf spans -> Forall (fun s => p < span_end s) spans ->
  exists done rest changed', spans_check win_addr (slice data wstart (wend - wstart)) wstart wend spans changed = Ret (rest, changed') /\
    spans = done ++ rest /\ Forall (fun s => wend < span_end s) rest /\
    (changed' = false <-> changed = false /\ Forall (span_holds data) done).
Proof.
  intros changed Hws Hwe Hd Hsort Hwf Hp. revert changed.
  induction Hsort as [|s spans Hsort IH Hle]; intros changed; cbn [spans_check].
  { exists [], [], changed. split_and!; try done. naive_solver. }
  inversion Hwf as [|? ? Hs Hwf']; subst. inversion Hp as [|? ? Hps Hp']; subst.
  rewrite (span_end_u64 _ Hs). case_if.
  { exists [], (s :: spans), changed. split_and!; [done|done| |naive_solver]. constructor; [lia|].
    eapply Forall_impl; [exact Hle|]. cbn. lia. }
  destruct Hs as (Hs1 & Hs2 & Hs3). unfold span_end in *.
  rewrite (proj2 (Z.ltb_ge (sp_off s) wstart)) by lia.
  rewrite rdn_slice by (rewrite ?len_slice; lia). cbn [obind].
  rewrite slice_slice, sha1_unaligned_eq by lia. replace (wstart + (sp_off s - wstart)) with (sp_off s) by lia.
  assert (Hh : forall ok, (ok = true <-> span_holds data s) ->
    exists done rest changed', spans_check win_addr (slice data wstart (wend - wstart)) wstart wend spans
        (if negb ok then true else changed) = Ret (rest, changed') /\
      s :: spans = done ++ rest /\ Forall (fun s => wend < sp_off s + sp_len s) rest /\
      (changed' = false <-> changed = false /\ Forall (span_holds data) done)).
  { intros ok Hok. destruct (IH Hwf' Hp' (if negb ok then true else changed)) as (dn & rest & c' & E & -> & Hr & Hc).
    exists (s :: dn), rest, c'. split; [exact E|]. split; [done|]. split; [exact Hr|].
    rewrite Forall_cons, <- Hok, Hc. destruct ok; cbn; naive_solver. }
  pose proof (sha1_yields (slice data (sp_off s) (sp_len s))) as Hy.
  destruct (bgit_sha1 (slice data (sp_off s) (sp_len s))) as [got|m|] eqn:E; [| |done]; cbn [obind].
  - apply Hh. unfold span_holds. rewrite E. unfold beq. rewrite bool_decide_eq_true. split; [intros ->; split; [lia|done]|].
    by intros [_ [= ->]].
  - apply (Hh false). unfold span_holds. rewrite E. split; [done|]. by intros [_ ?].
Qed.

(** The state of the pass after [wend] bytes. *)
Record pass_at (data : list Z) (n wend : Z) (ctx : SHA1_CTX) (win : list Z) (wstart : Z) : Prop := {
  at_ctx : hashed ctx (slice data 0 (Z.min wend n));
  at_win : win = slice data wstart (wend - wstart);
  at_start : 0 <= wstart <= Z.max 0 (wend - BGIT_FD_SPAN_MAX);
  at_end : wstart <= wend <= len data }.

Lemma pass_trim data n wend ctx win wstart : pass_at data n wend ctx win wstart ->
  exists win' wstart', (if wend - wstart >? BGIT_FD_SPAN_MAX
    then (drop (Z.to_nat (wend - wstart - BGIT_FD_SPAN_MAX)) win, wend - BGIT_FD_SPAN_MAX) else (win, wstart)) = (win', wstart') /\
    pass_at data n wend ctx win' wstart' /\ 0 <= wend - wstart' <= BGIT_FD_SPAN_MAX.
Proof.
  intros [Hc -> Hs He]. unfold BGIT_FD_SPAN_MAX in *. case_if.
  - rewrite drop_slice by lia. eexists _, _. split; [done|]. split; [|lia]. split; [done| |unfold BGIT_FD_SPAN_MAX; lia|lia]. f_equal; lia.
  - eexists _, _. split; [done|]. split; [by split|lia].
Qed.

Lemma pass_read data n wend ctx win wstart k : pass_at data n wend ctx win wstart -> 0 <= n ->
  0 < k -> wend + k <= len data -> let r := slice data wend k in
  pass_at data n (wend + k)
    (if wend <? n then SHA1DCUpdate ctx (take (Z.to_nat (if n - wend <? k then n - wend else k)) r) else ctx)
    (win ++ r) wstart.
Proof.
  intros [Hc -> Hs He] Hn Hk Hd r. unfold BGIT_FD_SPAN_MAX in *. split; [| |unfold BGIT_FD_SPAN_MAX; lia|lia].
  - case_if.
    + set (j := if n - wend <? k then n - wend else k). assert (Hj : 0 < j <= k) by (unfold j; case_if; lia).
      unfold r. rewrite take_slice by lia. apply hashed_update with (b := slice data wend j) in Hc.
      rewrite Z.min_l in Hc by lia. rewrite <- (Z.add_0_l wend) in Hc at 3. rewrite slice_app in Hc by lia.
      replace (Z.min (wend + k) n) with (wend + j) by (unfold j; case_if; lia). done.
    + rewrite Z.min_r in Hc by lia. by rewrite Z.min_r by lia.
  - unfold r. replace (wend + k - wstart) with ((wend - wstart) + k) by lia. rewrite <- slice_app by lia.
    f_equal. f_equal. lia.
Qed.

Lemma sha1_fd_loop_spec data win_addr fd n stop : 0 <= n <= stop -> forall fuel ctx win wstart wend spans changed w r w',
  (Z.to_nat (stop - wend) + length (w_answers w) < fuel)%nat -> pass_at data n wend ctx win wstart -> wend <= stop ->
  by_end spans -> Forall span_wf spans -> Forall (fun s => wend < span_end s <= stop) spans -> open_on fd data w ->
  sha1_fd_loop fuel win_addr fd n stop ctx win wstart wend spans changed w = (r, w') ->
  looks_only w w' /\ exists res changed', r = Ret (res, changed') /\
    (forall ctx', res = Some ctx' -> stop <= len data /\ hashed ctx' (slice data 0 n) /\
       (changed' = false <-> changed = false /\ Forall (span_holds data) spans)) /\
    (w_answers w = [] -> stop <= len data -> len data <= LONG_MAX -> res <> None).
Proof.
  intros Hn. induction fuel as [|fuel IH]; intros ctx win wstart wend spans changed w r w' Hf Hat Hstop Hsort Hwf Hend Hopen HR; [lia|].
  cbn [sha1_fd_loop] in HR. case_if_in HR.
  2:{ injection HR as <- <-. split; [apply looks_only_refl|]. assert (wend = stop) as -> by lia.
      exists (Some ctx), changed. split; [done|]. split; [|done]. intros ctx' [= <-].
      destruct Hat as [Hc _ _ He]. rewrite Z.min_r in Hc by lia. split; [lia|]. split; [done|].
      destruct spans as [|s spans]; [naive_solver|]. inversion Hend; subst. lia. }
  assert (Hfail : forall e, looks_only w (snd (set_errno e w))) by (intros e; by repeat split).
  case_if_in HR.
  { injection HR as <- <-. split; [by repeat split|]. exists None, changed. split_and!; try done.
    destruct Hat as [_ _ _ He]. lia. }
  destruct (pass_trim _ _ _ _ _ _ Hat) as (win1 & wstart1 & Et & Hat1 & Hkeep). rewrite Et in HR.
  set (chunk := if stop - wend <? WIN - (wend - wstart1) then stop - wend else WIN - (wend - wstart1)) in *.
  assert (Hch : 0 < chunk <= stop - wend) by (unfold chunk, WIN, BGIT_FD_SPAN_MAX in *; case_if; lia).
  unfold ibind at 1 in HR. destruct (sys_pread fd chunk wend w) as [r1 w1] eqn:Er.
  eapply pread_cases in Er as (Hlo & Ha & Hcase); [|lia|exact Hopen].
  destruct Hcase as [[-> Hne]|(k & -> & Hk & Hk0 & Hfull)].
  - cbn -[sha1_fd_loop] in HR. destruct (w_errno w1 =? EINTR); cbn -[sha1_fd_loop] in HR.
    + eapply IH in HR as (Hlo' & res & c' & -> & H1 & H2); try done; [|rewrite Ha; pose proof (tail_shorter _ Hne); lia|by eapply open_on_looks].
      split; [by eapply looks_only_trans|]. exists res, c'. split; [done|]. split; [exact H1|]. done.
    + injection HR as <- <-. split; [done|]. exists None, changed. split_and!; done.
  - pose proof Hat1 as [_ _ Hst0 He].
    set (bytes_read := take k (drop (Z.to_nat wend) data)) in *.
    destruct (slice_short data wend k ltac:(lia)) as [Hlen Hsl]. fold bytes_read in Hlen, Hsl.
    rewrite (proj2 (Z.ltb_ge (len bytes_read) 0)) in HR by apply len_nonneg.
    case_if_in HR.
    { injection HR as <- <-. split; [eapply looks_only_trans; [exact Hlo|by repeat split]|]. exists None, changed.
      split_and!; try done. intros Hno Hs Hl. specialize (Hfull Hno). lia. }
    pose proof (len_nonneg bytes_read).
    apply (pass_read _ _ _ _ _ _ (len bytes_read)) in Hat1; [|lia|lia|lia]. cbv zeta in Hat1. rewrite <- Hsl in Hat1.
    pose proof (at_win _ _ _ _ _ _ Hat1) as Ewin. rewrite Ewin in HR, Hat1.
    pose proof (at_start _ _ _ _ _ _ Hat1) as Hst. pose proof (at_end _ _ _ _ _ _ Hat1) as Hen.
    destruct (spans_check_spec data win_addr wstart1 (wend + len bytes_read) wend spans changed) as (dn & rest & c1 & E & -> & Hr & Hc);
      try done; try lia.
    { eapply Forall_impl; [exact Hend|]. cbn. lia. }
    unfold ibind at 1, lift in HR. rewrite E in HR.
    apply Forall_app in Hwf as [_ Hwf']. apply Forall_app in Hend as [_ Hend'].
    eapply IH in HR as (Hlo' & res & c' & -> & H1 & H2); try done.
    + split; [by eapply looks_only_trans|]. exists res, c'. split; [done|]. split.
      * intros ctx' Hres. destruct (H1 _ Hres) as (G1 & G2 & G3). split; [done|]. split; [done|].
        rewrite G3, Hc, Forall_app. tauto.
      * intros Hno. rewrite Ha, Hno in H2. by apply H2.
    + rewrite Ha. pose proof (tail_le (w_answers w)). lia.
    + specialize (Hk0 ltac:(lia)). lia.
    + by eapply StronglySorted_app_1_r.
    + apply Forall_forall. intros s Hs. rewrite Forall_forall in Hr, Hend'. split; [by apply Hr|by apply Hend'].
    + by eapply open_on_looks.
Qed.

Lemma spans_end_spec spans : Forall span_wf spans -> forall stop, exists stop', spans_end spans stop = Some stop' /\
  stop <= stop' /\ Forall (fun s => span_end s <= stop') spans /\
  (stop' = stop \/ exists s, s ∈ spans /\ span_end s = stop').
Proof.
  induction 1 as [|s spans Hs _ IH]; intros stop; cbn [spans_end].
  { exists stop. split_and!; [done|lia|constructor|by left]. }
  pose proof Hs as (H1 & H2 & H3). if_false. rewrite (span_end_u64 _ Hs).
  set (stop1 := if span_end s >? stop then span_end s else stop).
  assert (Hstop1 : stop1 = Z.max stop (span_end s)) by (unfold stop1; case_if; lia).
  destruct (IH stop1) as (stop' & -> & Hle & Hall & Hor). exists stop'. split; [done|].
  split; [lia|]. split; [constructor; [lia|done]|].
  destruct Hor as [E|(s' & Hin & E)]; [|right; exists s'; split; [by right|done]].
  destruct (Z.le_ge_cases (span_end s) stop); [left; lia|]. right. exists s. split; [by left|lia].
Qed.

Lemma sorted_spans `{Qsort} spans : Forall span_wf spans ->
  let sorted := if 1 <? len spans then qsort bgit_fd_span_end_cmp spans else spans in
  Permutation sorted spans /\ by_end sorted.
Proof.
  intros Hwf sorted. unfold sorted. case_if.
  - assert (Hp : Permutation (qsort bgit_fd_span_end_cmp spans) spans) by apply qsort_perm.
    split; [done|]. rewrite <- Hp in Hwf. pose proof (qsort_sorted _ _ spans span_cmp_preorder) as Hs.
    unfold by_end. induction Hs as [|a l Hs IH Ha]; [constructor|]. inversion Hwf as [|? ? Hwa Hwl]; subst.
    constructor.
    + clear -Hs Hwl. induction Hs as [|b l Hs IH Hb]; [constructor|]. inversion Hwl as [|? ? Hwb Hwl']; subst.
      constructor; [by apply IH|]. apply Forall_forall. intros x Hx. rewrite Forall_forall in Hb, Hwl'.
      specialize (Hb x Hx). unfold bgit_fd_span_end_cmp in Hb.
      rewrite !span_end_u64 in Hb by auto. repeat case_if_in Hb; lia.
    + apply Forall_forall. intros x Hx. rewrite Forall_forall in Ha, Hwl.
      specialize (Ha x Hx). unfold bgit_fd_span_end_cmp in Ha.
      rewrite !span_end_u64 in Ha by auto. repeat case_if_in Ha; lia.
  - split; [done|]. destruct spans as [|a [|b l]]; [constructor|by repeat constructor|].
    rewrite !len_cons in *. pose proof (len_nonneg l). lia.
Qed.
End SpanFacts.

(* ------------------------------------------------------------------ *)
(** ** What the pass promises *)

Lemma sha1_fd_run `{Sha1dc} `{Qsort} win_addr fd n spans data w r w' :
  0 <= n -> Forall span_wf spans -> open_on fd data w ->
  bgit_sha1_fd win_addr fd n spans w = (r, w') ->
  looks_only w w' /\ exists digest sorted changed, r = Ret (digest, sorted, changed) /\ Permutation sorted spans /\
    (forall d, digest = Some d -> n <= len data /\ Forall (fun s => span_end s <= len data) spans /\
       bgit_sha1 (slice data 0 n) = Ret d /\ (changed = false <-> Forall (span_holds data) spans)) /\
    (w_answers w = [] -> n <= len data -> len data <= LONG_MAX -> Forall (fun s => span_end s <= len data) spans ->
     snd (SHA1DC (slice data 0 n)) = false -> digest <> None).
Proof.
  intros Hn Hwf Hopen HR. unfold bgit_sha1_fd in HR.
  destruct (spans_end_spec spans Hwf n) as (stop & Es & Hle & Hall & Hor). rewrite Es in HR.
  destruct (sorted_spans spans Hwf) as [Hp Hsort].
  set (sorted := if 1 <? len spans then qsort bgit_fd_span_end_cmp spans else spans) in *.
  unfold ibind at 1, get_world in HR. unfold ibind at 1 in HR.
  destruct (sha1_fd_loop _ win_addr fd n stop SHA1DCInit [] 0 0 sorted false w) as [r1 w1] eqn:E.
  eapply (sha1_fd_loop_spec data) in E as (Hlo & res & changed & -> & Hok & Hno); try done; try lia.
  - assert (Hrefl : looks_only w w1) by done. destruct res as [ctx|].
    + destruct (Hok _ eq_refl) as (Hst & Hh & Hc).
      assert (Hspans : Forall (fun s => span_end s <= len data) spans) by (eapply Forall_impl; [exact Hall|]; cbn; lia).
      pose proof (sha1_final_hashed _ _ Hh) as Ef. rewrite <- bgit_sha1_eq in Ef. rewrite Ef in HR.
      pose proof (sha1_yields (slice data 0 n)) as Hy.
      destruct (bgit_sha1 (slice data 0 n)) as [d|m|] eqn:Ed; [| |done]; injection HR as <- <-; (split; [done|]).
      * exists (Some d), sorted, changed. split_and!; try done. intros d' [= <-]. split_and!; try done; [lia|].
        rewrite Hc, Hp. tauto.
      * exists None, sorted, changed. split_and!; try done. intros _ _ _ _ Hcol. rewrite bgit_sha1_eq in Ed.
        destruct (SHA1DC (slice data 0 n)) as [d []]; done.
    + injection HR as <- <-. split; [done|]. exists None, sorted, changed. split_and!; try done.
      intros Hna Hnd Hl Hspans _. exfalso. apply Hno; try done.
      destruct Hor as [->|(s & Hin & <-)]; [done|]. rewrite Forall_forall in Hspans. by apply Hspans.
  - split; [rewrite slice_nil by lia; apply hashed_init|by rewrite slice_nil by lia|lia|pose proof (len_nonneg data); lia].
  - by rewrite Hp.
  - rewrite Hp. apply Forall_forall. intros s Hs. rewrite Forall_forall in Hwf, Hall. split; [|by apply Hall].
    destruct (Hwf s Hs) as (?&?&?). unfold span_end. lia.
Qed.

(** [C17] (functional) The pass over an open file, given usable spans, always
    ends and only looks.  When it gives a digest, all bytes asked for were
    there, the digest is that of the file's first [n] bytes, and the flag is
    clear exactly when every span still holds the bytes it was recorded with,
    by their SHA-1: whatever the kernel's short counts and interruptions, and
    however [qsort] orders spans with one end.  When the kernel refuses
    nothing, the bytes are there and no collision attack is seen, there is a
    digest. *)
Theorem sha1_fd_exact `{Sha1dc} `{Qsort} win_addr fd n spans data w r w' :
  0 <= n -> Forall span_wf spans -> open_on fd data w ->
  bgit_sha1_fd win_addr fd n spans w = (r, w') ->
  looks_only w w' /\ exists digest sorted changed, r = Ret (digest, sorted, changed) /\ Permutation sorted spans /\
    (forall d, digest = Some d -> n <= len data /\ Forall (fun s => span_end s <= len data) spans /\
       bgit_sha1 (slice data 0 n) = Ret d /\ (changed = false <-> Forall (span_holds data) spans)) /\
    (w_answers w = [] -> n <= len data -> len data <= LONG_MAX -> Forall (fun s => span_end s <= len data) spans ->
     snd (SHA1DC (slice data 0 n)) = false -> digest <> None).
Proof. apply sha1_fd_run. Qed.

(* ------------------------------------------------------------------ *)
(** ** Witnesses *)

(** The interface can be met: the SHA-1 of the index file, with no collision
    ever detected. *)
Definition plain_sha1 (data : list Z) : list Z :=
  match bgit_index_sha1 data with Ret d => d | _ => replicate 20 0 end.

Lemma plain_sha1_digest data : oid (plain_sha1 data).
Proof.
  unfold plain_sha1. destruct (bgit_index_sha1 data) as [d| |] eqn:E.
  - unfold bgit_index_sha1 in E. inv_bind E. inv_bind E. inv_bind E.
    destruct v1 as [[[[h0 h1] h2] h3] h4]. injection E as <-. split; [done|].
    unfold bytes, bgit_put_be32. repeat (constructor; [apply u8_range|]). constructor.
  - split; [done|]. by repeat constructor.
  - split; [done|]. by repeat constructor.
Qed.

#[export] Instance plain_sha1dc : Sha1dc := {|
  SHA1_CTX := list Z;
  SHA1DCInit := [];
  SHA1DCUpdate := fun c data => c ++ data;
  SHA1DCFinal := fun c => (plain_sha1 c, false);
  SHA1DC := fun data => (plain_sha1 data, false);
  hashed := eq;
  hashed_init := eq_refl;
  hashed_update := fun c a b E => f_equal (fun x => x ++ b) E;
  hashed_final := fun c a E => f_equal (fun x => (plain_sha1 x, false)) E;
  SHA1DC_digest := plain_sha1_digest |}.


Definition demo_file : list Z := str "pack of bytes".

Definition demo_spans : list bgit_fd_span :=
  match (bgit_fd_spans_add [] 1 5 (slice demo_file 5 8)
    {| w_fs := {| names := ∅; inodes := ∅ |}; w_fds := ∅; w_errno := 0; w_answers := []; w_temps := [];
       w_now := (0, 0); w_log := []; w_reports := [] |}).1 with
  | Ret (_, spans) => spans
  | _ => []
  end.

Definition fd_world (data : list Z) (answers : list answer) : world :=
  {| w_fs := {| names := ∅; inodes := {[1%N := {| i_dir := false; i_data := data; i_mtime := (0, 0) |}]} |};
     w_fds := {[3%N := (1%N, 0)]}; w_errno := 0; w_answers := answers; w_temps := [];
     w_now := (0, 0); w_log := []; w_reports := [] |}.

Lemma fd_world_open data answers : open_on 3 data (fd_world data answers).
Proof.
  split; [done|]. exists 1%N, 0, {| i_dir := false; i_data := data; i_mtime := (0, 0) |}.
  cbn. by rewrite !lookup_singleton.
Qed.

Lemma demo_spans_wf : Forall span_wf demo_spans.
Proof.
  assert (E : map (fun s => (sp_off s, sp_len s)) demo_spans = [(5, 8)]) by (vm_compute; reflexivity).
  destruct demo_spans as [|[off n sha] [|]]; try discriminate. injection E as -> ->.
  repeat constructor; unfold span_wf; cbn; unfold UINT64_MAX, BGIT_FD_SPAN_MAX; lia.
Qed.

(** A byte of the recorded range has changed; the kernel gives the file in
    pieces and is interrupted once. *)
Definition changed_world : world := fd_world (str "pack of bytez") [Short 6; Errno EINTR; Short 3].

Lemma sha1_fd_exact_witness : exists d sorted w', bgit_sha1_fd 1 3 4 demo_spans changed_world = (Ret (Some d, sorted, true), w') /\
  bgit_sha1 (slice (str "pack of bytez") 0 4) = Ret d /\ ~ Forall (span_holds (str "pack of bytez")) demo_spans.
Proof.
  assert (Hrun : match fst (bgit_sha1_fd 1 3 4 demo_spans changed_world) with Ret (Some _, _, true) => True | _ => False end)
    by (vm_compute; exact I).
  destruct (bgit_sha1_fd 1 3 4 demo_spans changed_world) as [r w'] eqn:E.
  destruct (sha1_fd_exact 1 3 4 demo_spans (str "pack of bytez") _ r w' ltac:(lia) demo_spans_wf (fd_world_open _ _) E)
    as (_ & digest & sorted & changed & Er & _ & Hok & _).
  cbn [fst] in Hrun. subst r. destruct digest as [d|]; [|destruct Hrun]. destruct changed; [|destruct Hrun].
  destruct (Hok d eq_refl) as (_ & _ & Ed & Hc). exists d, sorted, w'. split; [reflexivity|]. split; [exact Ed|].
  intros HF. apply Hc in HF. discriminate HF.
Defined.
