(* ===== verification/PackIdx.v ===== *)
(** * Pack indexes (loadables/_git/pack.c, lines 43-59, 199-250, 1203-1292, 1382-1733)

    The version 2 index of a pack: a fan-out table, the sorted object ids, their
    CRC-32s and their offsets, with the large offsets in a table of their own.
    The writer, the search, the structural check and the CRC check.  The
    theorems show that no index bytes make any reader load outside the file,
    that an index the writer lays out is accepted and finds every object of
    its entries and no other, and what the CRC check accepts. *)

From S2P Require Import Prelude Endian Sha1 Sys Odb Hash IndexFile.
#[local] Open Scope Z_scope.

(* ------------------------------------------------------------------ *)
(** ** What the sources call *)

(** zlib's running CRC: continuing over a second range is running over both. *)
Class Crc32 := {
  crc32 : Z -> list Z -> Z;
  crc32_app : forall c a b, crc32 (crc32 c a) b = crc32 c (a ++ b);
  crc32_init : Z }.

(* ------------------------------------------------------------------ *)
(** ** Fields *)

Definition bgit_pack_be32 (buf : list Z) (off : Z) : outcome Z := bgit_be32 buf off.

Definition bgit_pack_be64 (buf : list Z) (off : Z) : outcome Z :=
  let* b0 := rd buf off in let* b1 := rd buf (off + 1) in
  let* b2 := rd buf (off + 2) in let* b3 := rd buf (off + 3) in
  let* b4 := rd buf (off + 4) in let* b5 := rd buf (off + 5) in
  let* b6 := rd buf (off + 6) in let* b7 := rd buf (off + 7) in
  Ret (Z.lor (Z.lor (Z.lor (Z.lor (Z.lor (Z.lor (Z.lor
    (u64 (Z.shiftl b0 56)) (u64 (Z.shiftl b1 48))) (u64 (Z.shiftl b2 40)))
    (u64 (Z.shiftl b3 32))) (u64 (Z.shiftl b4 24))) (u64 (Z.shiftl b5 16)))
    (u64 (Z.shiftl b6 8))) b7).

(** The bytes [bgit_pack_buf_append_be32] and [_be64] append. *)
Definition bgit_pack_buf_append_be32 (v : Z) : list Z :=
  [Z.land (Z.shiftr v 24) 0xff; Z.land (Z.shiftr v 16) 0xff; Z.land (Z.shiftr v 8) 0xff;
   Z.land v 0xff].

Definition bgit_pack_buf_append_be64 (v : Z) : list Z :=
  [Z.land (Z.shiftr v 56) 0xff; Z.land (Z.shiftr v 48) 0xff; Z.land (Z.shiftr v 40) 0xff;
   Z.land (Z.shiftr v 32) 0xff; Z.land (Z.shiftr v 24) 0xff; Z.land (Z.shiftr v 16) 0xff;
   Z.land (Z.shiftr v 8) 0xff; Z.land v 0xff].

(* ------------------------------------------------------------------ *)
(** ** Searching *)

(** [(uint64_t) -1]. *)
Definition absent : Z := UINT64_MAX.

(** The offset of object [i]: directly, or through the 64-bit table. *)
Definition object_offset (idx : list Z) (total i : Z) : outcome Z :=
  let ofs := 1032 + total * 24 in
  let* v := bgit_pack_be32 idx (ofs + i * 4) in
  if negb (Z.land v 0x80000000 =? 0) then
    let idx64 := Z.land v 0x7FFFFFFF in
    let ofs64 := ofs + total * 4 in
    if ofs64 >? len idx then Ret absent
    else
      let room := len idx - ofs64 in
      if idx64 >? SIZE_MAX / 8 - 1 then Ret absent
      else if (idx64 + 1) * 8 >? room then Ret absent
      else bgit_pack_be64 idx (ofs64 + idx64 * 8)
  else Ret v.

(** The linear search from [i], over the [n] candidates left. *)
Fixpoint lookup_loop (n : nat) (idx sha : list Z) (total i : Z) : outcome Z :=
  match n with
  | O => Ret absent
  | S n' =>
      let* cand := rdn idx (1032 + i * 20) 20 in
      if beq cand sha then object_offset idx total i
      else lookup_loop n' idx sha total (i + 1)
  end.

Definition bgit_pack_lookup_offset (idx sha : list Z) : outcome Z :=
  let ilen := len idx in
  if ilen <? 1032 then Ret absent
  else
    let* hi := rd sha 0 in
    let* lo := (if hi =? 0 then Ret 0 else bgit_pack_be32 idx (8 + (hi - 1) * 4)) in
    let* up := bgit_pack_be32 idx (8 + hi * 4) in
    let* total := bgit_pack_be32 idx (8 + 255 * 4) in
    if (lo >? up) || (up >? total) then Ret absent
    else
      let obj_bytes := u64 (total * 28) in
      if negb (total =? 0) && negb (obj_bytes / 28 =? total) then Ret absent
      else if obj_bytes >? SIZE_MAX - 1032 then Ret absent
      else if ilen <? 1032 + obj_bytes then Ret absent
      else lookup_loop (Z.to_nat (up - lo)) idx sha total lo.

(* ------------------------------------------------------------------ *)
(** ** Writing *)

Record bgit_pack_idx_entry := { ie_sha : list Z; ie_crc : Z; ie_off : Z }.

Definition bgit_pack_idx_entry_cmp (a b : bgit_pack_idx_entry) : Z := bcmp (ie_sha a) (ie_sha b).

(** The inner loop of the fan-out: past the entries whose first byte is at
    most [b]. *)
Fixpoint fan_advance (b : Z) (rest : list bgit_pack_idx_entry) (pos : Z)
    : list bgit_pack_idx_entry * Z :=
  match rest with
  | e :: rest' => if hd 0 (ie_sha e) <=? b then fan_advance b rest' (pos + 1) else (rest, pos)
  | [] => (rest, pos)
  end.

Fixpoint fan_loop (n : nat) (b : Z) (rest : list bgit_pack_idx_entry) (pos : Z) : list Z :=
  match n with
  | O => []
  | S n' =>
      let '(rest, pos) := fan_advance b rest pos in
      bgit_pack_buf_append_be32 (u32 pos) ++ fan_loop n' (b + 1) rest pos
  end.

(** The offsets table, and the offsets that go to the 64-bit table. *)
Fixpoint ofs_loop (ents : list bgit_pack_idx_entry) (n64 : Z) : outcome (list Z * list Z) :=
  match ents with
  | [] => Ret ([], [])
  | e :: ents' =>
      if ie_off e >=? 0x80000000 then
        if n64 >? 0x7fffffff then Fail "create: too many 64-bit idx offsets"
        else
          let* r := ofs_loop ents' (n64 + 1) in
          let '(table, ofs64) := r in
          Ret (bgit_pack_buf_append_be32 (Z.lor 0x80000000 (u32 n64)) ++ table, ie_off e :: ofs64)
      else
        let* r := ofs_loop ents' n64 in
        let '(table, ofs64) := r in
        Ret (bgit_pack_buf_append_be32 (u32 (ie_off e)) ++ table, ofs64)
  end.

(** The bytes of the index of the sorted entries [ents]. *)
Definition idx_bytes `{Sha1dc} (ents : list bgit_pack_idx_entry) (pack_sha : list Z)
    : outcome (list Z) :=
  let* r := ofs_loop ents 0 in
  let '(table, ofs64) := r in
  let idx := [255; 116; 79; 99] ++ bgit_pack_buf_append_be32 2 ++
    fan_loop 256 0 ents 0 ++
    flat_map ie_sha ents ++
    flat_map (fun e => bgit_pack_buf_append_be32 (ie_crc e)) ents ++
    table ++
    flat_map bgit_pack_buf_append_be64 ofs64 ++ pack_sha in
  match bgit_sha1 idx with
  | Ret idx_sha => Ret (idx ++ idx_sha)
  | Fail _ => Fail "create: idx SHA-1 collision attack detected"
  | Fault => Fault
  end.

(** The write loop: unlike the index writer's, a count of zero tries again. *)
Fixpoint idx_write_loop (fuel : nat) (fd : Z) (data : list Z) : io bool :=
  match fuel with
  | O => lift Fault
  | S fuel' =>
      if len data =? 0 then iret true
      else
        let! w := sys_write fd data in
        if w <? 0 then
          let! e := get_errno in
          if e =? EINTR then idx_write_loop fuel' fd data else iret false
        else idx_write_loop fuel' fd (drop (Z.to_nat w) data)
  end.

(** A read-only file put in place through a temporary name, the way the index
    and the loose-object writers both do it; they differ in what they report. *)
Definition install_file (no_temp no_write no_rename : string) (p : path) (data : list Z) : io Z :=
  let! r := mkstemp (p ++ str ".tmp") in
  let '(fd, tmp) := r in
  if fd <? 0 then let! _ := builtin_error no_temp in iret (-1)
  else
    let! _ := sys_sync fd in   (* fchmod (fd, 0444) *)
    let! w := get_world in
    let! ok := idx_write_loop (2 + length (w_answers w)) fd data in
    if negb ok then
      let! _ := builtin_error no_write in
      let! _ := sys_close fd in
      let! _ := sys_unlink tmp in iret (-1)
    else
      let! _ := sys_sync fd in   (* fdatasync (fd) *)
      let! _ := sys_close fd in
      let! renamed := sys_rename tmp p in
      if renamed <? 0 then
        let! _ := builtin_error no_rename in
        let! _ := sys_unlink tmp in iret (-1)
      else iret 0.

(** The index at [idx_path], and the entries as [qsort] leaves them. *)
Definition bgit_pack_write_idx_v2 `{Sha1dc} `{Qsort} (idx_path : path)
    (ents : list bgit_pack_idx_entry) (pack_sha : list Z) : io (Z * list bgit_pack_idx_entry) :=
  if len ents >? UINT32_MAX then
    let! _ := builtin_error "create: too many objects for idx v2" in iret (-1, ents)
  else
    let ents := qsort bgit_pack_idx_entry_cmp ents in
    match idx_bytes ents pack_sha with
    | Fault => lift Fault
    | Fail msg => let! _ := builtin_error msg in iret (-1, ents)
    | Ret idx =>
        if len idx_path + 10 >=? 4096 then
          let! _ := builtin_error "create: idx path too long: %s" in iret (-1, ents)
        else
          let! rc := install_file "create: mkstemp %s: %s" "create: write %s: %s"
                       "create: rename %s -> %s: %s" idx_path idx in
          iret (rc, ents)
    end.

(* ------------------------------------------------------------------ *)
(** ** Verifying *)

Fixpoint fanout_check (n : nat) (idx : list Z) (i prev : Z) : outcome unit :=
  match n with
  | O => Ret tt
  | S n' =>
      let* cur := bgit_pack_be32 idx (8 + i * 4) in
      if cur <? prev then Fail "verify-idx: fanout not monotonic at byte %d"
      else fanout_check n' idx (i + 1) cur
  end.

(** The walk over the 32-bit offsets; [ofs_table + i * 4] is computed in 32
    bits. *)
Fixpoint overflow_loop (n : nat) (idx : list Z) (ofs_table i count : Z) : outcome Z :=
  match n with
  | O => Ret count
  | S n' =>
      let* v := bgit_pack_be32 idx (ofs_table + u32 (i * 4)) in
      let count :=
        if negb (Z.land v 0x80000000 =? 0) then
          let idx64 := Z.land v 0x7FFFFFFF in
          if idx64 + 1 >? count then idx64 + 1 else count
        else count in
      overflow_loop n' idx ofs_table (i + 1) count
  end.

Definition bgit_pack_verify_idx `{Sha1dc} (idx : list Z) (expected_pack_sha20 : option (list Z))
    : outcome unit :=
  let ilen := len idx in
  if ilen <? 8 then Fail "verify-idx: too short (no header)"
  else
    let* magic := rdn idx 0 4 in
    if negb (beq magic [255; 116; 79; 99]) then Fail "verify-idx: not a v2 idx (bad magic)"
    else
      let* ver := bgit_pack_be32 idx 4 in
      if negb (ver =? 2) then Fail "verify-idx: unsupported version %u"
      else if ilen <? 8 + 1024 then Fail "verify-idx: too short (fanout truncated)"
      else
        let* _ := fanout_check 256 idx 0 0 in
        let* n := bgit_pack_be32 idx (8 + 255 * 4) in
        let obj_bytes := u64 (n * 28) in
        if negb (n =? 0) && negb (obj_bytes / 28 =? n) then
          Fail "verify-idx: object count %u overflows size"
        else if obj_bytes >? SIZE_MAX - 1072 then Fail "verify-idx: object count %u overflows size"
        else
          let base_size := 1032 + obj_bytes + 40 in
          if ilen <? base_size then
            Fail "verify-idx: too short for fanout count %u (got %zu, need >= %zu)"
          else
            let* overflow_count := overflow_loop (Z.to_nat n) idx (1032 + n * 24) 0 0 in
            if overflow_count >? (SIZE_MAX - base_size) / 8 then
              Fail "verify-idx: 64-bit overflow count %u overflows size"
            else
              let expected_size := base_size + overflow_count * 8 in
              if negb (ilen =? expected_size) then
                Fail "verify-idx: size mismatch (got %zu, expected %zu for n=%u overflow=%u)"
              else
                let* data := rdn idx 0 (ilen - 20) in
                match bgit_sha1 data with
                | Fault => Fault
                | Fail _ => Fail "verify-idx: SHA-1 init failed"
                | Ret computed =>
                    let* trailer := rdn idx (ilen - 20) 20 in
                    if negb (beq computed trailer) then
                      Fail "verify-idx: idx trailer SHA-1 mismatch (corrupt)"
                    else
                      match expected_pack_sha20 with
                      | None => Ret tt
                      | Some sha =>
                          let* pack_sha := rdn idx (ilen - 40) 20 in
                          if negb (beq pack_sha sha) then
                            Fail "verify-idx: embedded pack SHA-1 != pack trailer SHA-1"
                          else Ret tt
                      end
                end.

(* ------------------------------------------------------------------ *)
(** ** CRCs *)

(** The chunked run of [crc32] over [pack[pos .. end_)]. *)
Fixpoint crc_loop `{Crc32} (fuel : nat) (pack : list Z) (pos end_ crc : Z) : outcome Z :=
  if pos <? end_ then
    match fuel with
    | O => Fault
    | S fuel' =>
        let left := end_ - pos in
        let chunk := if left >? UINT_MAX then UINT_MAX else left in
        let* data := rdn pack pos chunk in
        crc_loop fuel' pack (pos + chunk) end_ (crc32 crc data)
    end
  else Ret crc.

Definition bgit_pack_crc32 `{Crc32} (p : list Z) : outcome Z :=
  let* crc := crc_loop (length p) p 0 (len p) crc32_init in
  Ret (u32 crc).

Record bgit_pack_crc_offset := { co_off : Z; co_index : Z }.

Definition bgit_pack_crc_offset_cmp (aa bb : bgit_pack_crc_offset) : Z :=
  if co_off aa <? co_off bb then -1 else if co_off aa >? co_off bb then 1 else 0.

(** The offsets of the [n] objects from [i]; the room test is in [size_t]. *)
Fixpoint offsets_loop (n : nat) (idx : list Z) (plen ofs_table ofs64_table ofs64_room i : Z)
    : outcome (list bgit_pack_crc_offset) :=
  match n with
  | O => Ret []
  | S n' =>
      let* v := bgit_pack_be32 idx (ofs_table + i * 4) in
      let* off :=
        (if negb (Z.land v 0x80000000 =? 0) then
           let idx64 := Z.land v 0x7FFFFFFF in
           if idx64 >? u64 (ofs64_room / 8 - 1) then
             Fail "verify-idx: 64-bit offset index out of range"
           else bgit_pack_be64 idx (ofs64_table + idx64 * 8)
         else Ret v) in
      if (off <? 12) || (off >=? plen - 20) then
        Fail "verify-idx: object offset out of pack bounds"
      else
        let* rest := offsets_loop n' idx plen ofs_table ofs64_table ofs64_room (i + 1) in
        Ret ({| co_off := off; co_index := i |} :: rest)
  end.

(** The check of each object's bytes, in the order of the offsets. *)
Fixpoint crcs_loop `{Crc32} (idx pack : list Z) (crc_table : Z) (offs : list bgit_pack_crc_offset)
    : outcome unit :=
  match offs with
  | [] => Ret tt
  | o :: offs' =>
      let start := co_off o in
      let end_ := match offs' with o' :: _ => co_off o' | [] => len pack - 20 end in
      if end_ <=? start then Fail "verify-idx: object offsets not strictly increasing"
      else
        let* crc := crc_loop (length pack) pack start end_ crc32_init in
        let* stored := bgit_pack_be32 idx (crc_table + co_index o * 4) in
        if negb (u32 crc =? stored) then Fail "verify-idx: CRC32 mismatch for object %u"
        else crcs_loop idx pack crc_table offs'
  end.

Definition bgit_pack_verify_idx_crc32 `{Crc32} `{Qsort} (idx pack : list Z) : outcome unit :=
  let plen := len pack in
  let* bad := (if plen <? 32 then Ret true
               else let* magic := rdn pack 0 4 in Ret (negb (beq magic (str "PACK")))) in
  if bad then Fail "verify-idx: pack too short or bad magic"
  else
    let* pack_ver := bgit_pack_be32 pack 4 in
    if negb (pack_ver =? 2) && negb (pack_ver =? 3) then
      Fail "verify-idx: unsupported pack version %u"
    else
      let* n := bgit_pack_be32 idx (8 + 255 * 4) in
      let* pack_n := bgit_pack_be32 pack 8 in
      if negb (pack_n =? n) then
        Fail "verify-idx: pack object count %u != idx object count %u"
      else
        let ofs64_table := 1032 + n * 28 in
        let ofs64_room := u64 (u64 (len idx - 40) - ofs64_table) in
        let* offs := offsets_loop (Z.to_nat n) idx plen (1032 + n * 24) ofs64_table ofs64_room 0 in
        crcs_loop idx pack (1032 + n * 20) (qsort bgit_pack_crc_offset_cmp offs).

(* ------------------------------------------------------------------ *)
(** ** Fields are where they were written *)

Lemma append_be32_put v : bgit_pack_buf_append_be32 v = bgit_put_be32 v.
Proof.
  unfold bgit_pack_buf_append_be32, bgit_put_be32, u8.
  by rewrite !(land_ones_mod _ 8) by done.
Qed.

Lemma append_be64_put v : 0 <= v -> bgit_pack_buf_append_be64 v =
  bgit_put_be32 (v / 2 ^ 32) ++ bgit_put_be32 (v mod 2 ^ 32).
Proof.
  intros Hv. unfold bgit_pack_buf_append_be64, bgit_put_be32, u8. cbn [app].
  rewrite !(land_ones_mod _ 8) by done. rewrite !Z.shiftr_div_pow2 by done.
  rewrite !Z.div_div by done. repeat apply (f_equal2 cons); try reflexivity; dlia.
Qed.

Lemma len_append_be64 v : len (bgit_pack_buf_append_be64 v) = 8.
Proof. done. Qed.

(** The eight-byte reader agrees with reading two words. *)
Lemma pack_be64_words buf off : bytes buf -> 0 <= off -> off + 8 <= len buf ->
  bgit_pack_be64 buf off = bgit_be64 buf off.
Proof.
  intros Hb Ho Hl. unfold bgit_pack_be64, bgit_be64, bgit_be32.
  replace (off + 4 + 1) with (off + 5) by lia. replace (off + 4 + 2) with (off + 6) by lia.
  replace (off + 4 + 3) with (off + 7) by lia. rewrite !rd_ok by lia. cbn [obind].
  assert (Hn : forall i, is_byte (nth i buf 0)) by (intros; apply nth_Forall; [done|unfold is_byte; lia]).
  set (b0 := nth (Z.to_nat off) buf 0). set (b1 := nth (Z.to_nat (off + 1)) buf 0).
  set (b2 := nth (Z.to_nat (off + 2)) buf 0). set (b3 := nth (Z.to_nat (off + 3)) buf 0).
  set (b4 := nth (Z.to_nat (off + 4)) buf 0). set (b5 := nth (Z.to_nat (off + 5)) buf 0).
  set (b6 := nth (Z.to_nat (off + 6)) buf 0). set (b7 := nth (Z.to_nat (off + 7)) buf 0).
  rewrite !word_lor by apply Hn. f_equal.
  assert (H : forall b, is_byte b -> 0 <= b < 256) by done.
  repeat match goal with b := nth _ buf 0 |- _ => pose proof (H _ (Hn _) : 0 <= b < 256); clearbody b end.
  clear H Hn. unfold word. rewrite !Z.shiftl_mul_pow2 by done. rewrite !u64_id by lia.
  rewrite (lor_bytes _ (b4 * 2 ^ 24 + b5 * 2 ^ 16 + b6 * 2 ^ 8 + b7) 32) by lia.
  rewrite (lor_bytes b0 (b1 * 2 ^ 48) 56) by lia.
  replace (b0 * 2 ^ 56 + b1 * 2 ^ 48) with ((b0 * 2 ^ 8 + b1) * 2 ^ 48) by lia.
  rewrite (lor_bytes _ (b2 * 2 ^ 40) 48) by lia.
  replace ((b0 * 2 ^ 8 + b1) * 2 ^ 48 + b2 * 2 ^ 40) with ((b0 * 2 ^ 16 + b1 * 2 ^ 8 + b2) * 2 ^ 40) by lia.
  rewrite (lor_bytes _ (b3 * 2 ^ 32) 40) by lia.
  replace ((b0 * 2 ^ 16 + b1 * 2 ^ 8 + b2) * 2 ^ 40 + b3 * 2 ^ 32)
    with ((b0 * 2 ^ 24 + b1 * 2 ^ 16 + b2 * 2 ^ 8 + b3) * 2 ^ 32) by lia.
  rewrite (lor_bytes _ (b4 * 2 ^ 24) 32) by lia.
  replace ((b0 * 2 ^ 24 + b1 * 2 ^ 16 + b2 * 2 ^ 8 + b3) * 2 ^ 32 + b4 * 2 ^ 24)
    with ((b0 * 2 ^ 32 + b1 * 2 ^ 24 + b2 * 2 ^ 16 + b3 * 2 ^ 8 + b4) * 2 ^ 24) by lia.
  rewrite (lor_bytes _ (b5 * 2 ^ 16) 24) by lia.
  match goal with |- context [Z.lor (Z.lor (?x + b5 * 2 ^ 16) _) _] =>
    replace (x + b5 * 2 ^ 16) with ((b0 * 2 ^ 40 + b1 * 2 ^ 32 + b2 * 2 ^ 24 + b3 * 2 ^ 16 + b4 * 2 ^ 8 + b5) * 2 ^ 16) by lia end.
  rewrite (lor_bytes _ (b6 * 2 ^ 8) 16) by lia.
  match goal with |- context [Z.lor (?x + b6 * 2 ^ 8) _] =>
    replace (x + b6 * 2 ^ 8) with ((b0 * 2 ^ 48 + b1 * 2 ^ 40 + b2 * 2 ^ 32 + b3 * 2 ^ 24 + b4 * 2 ^ 16 + b5 * 2 ^ 8 + b6) * 2 ^ 8) by lia end.
  rewrite (lor_bytes _ b7 8) by lia. lia.
Qed.

Lemma yields_pack_be64 buf off : bytes buf -> 0 <= off -> off + 8 <= len buf ->
  exists v, bgit_pack_be64 buf off = Ret v /\ 0 <= v < 2 ^ 64.
Proof. intros. rewrite pack_be64_words by done. by apply yields_be64. Qed.

Lemma pack_be64_put pre v post off : bytes pre -> bytes post -> off = len pre -> 0 <= v < 2 ^ 64 ->
  bgit_pack_be64 (pre ++ bgit_pack_buf_append_be64 v ++ post) off = Ret v.
Proof.
  intros Hpre Hpost -> Hv. rewrite append_be64_put by lia.
  rewrite pack_be64_words.
  - rewrite <- app_assoc, be64_put by dlia. f_equal. dlia.
  - repeat (apply Forall_app; split); first [done | apply put_be32_bytes].
  - apply len_nonneg.
  - rewrite !len_app, !len_put_be32. pose proof (len_nonneg post). lia.
Qed.

(** A row of a table of rows of one width. *)
Lemma table_row {A} (f : A -> list Z) w l i x : (forall y, y ∈ l -> len (f y) = w) -> l !! i = Some x ->
  exists pre post, flat_map f l = pre ++ f x ++ post /\ len pre = Z.of_nat i * w.
Proof.
  revert i. induction l as [|y l IH]; intros i Hw H; [done|]. destruct i as [|i].
  - injection H as ->. exists [], (flat_map f l). by split.
  - destruct (IH i) as (pre & post & E & Hl); [intros z Hz; apply Hw; by right|exact H|].
    exists (f y ++ pre), post. split.
    + cbn [flat_map]. rewrite E. by rewrite <- app_assoc.
    + rewrite len_app, (Hw y), Hl by left. lia.
Qed.

Lemma len_table {A} (f : A -> list Z) w l : (forall y, y ∈ l -> len (f y) = w) ->
  len (flat_map f l) = len l * w.
Proof.
  induction l as [|y l IH]; intros Hw; [done|]. cbn [flat_map].
  rewrite len_app, (Hw y), IH, len_cons by (try left; intros; apply Hw; by right). lia.
Qed.

Lemma table_bytes {A} (f : A -> list Z) l : (forall y, y ∈ l -> bytes (f y)) -> bytes (flat_map f l).
Proof.
  intros H. induction l as [|y l IH]; [constructor|]. cbn [flat_map]. apply Forall_app. split.
  - apply H. left.
  - apply IH. intros z Hz. apply H. by right.
Qed.

(* ------------------------------------------------------------------ *)
(** ** The readers stay inside the file *)

Lemma land31 v : 0 <= v < 2 ^ 32 -> 0 <= Z.land v 0x7FFFFFFF < 2 ^ 31.
Proof.
  intros. change 0x7FFFFFFF with (2 ^ 31 - 1). rewrite land_ones_mod by done.
  by apply Z.mod_pos_bound.
Qed.

(** The size guard of the readers cannot fire on a 64-bit host. *)
Lemma obj_bytes_exact n : 0 <= n < 2 ^ 32 -> u64 (n * 28) = n * 28.
Proof. intros. apply u64_id. lia. Qed.

Lemma object_offset_yields idx total i : bytes idx -> 0 <= total < 2 ^ 32 ->
  1032 + total * 28 <= len idx -> 0 <= i < total ->
  yields (fun o => 0 <= o < 2 ^ 64) (object_offset idx total i).
Proof.
  intros Hb Ht Hl Hi. unfold object_offset, bgit_pack_be32.
  destruct (yields_be32 idx (1032 + total * 24 + i * 4) Hb) as (v & -> & Hv); [lia..|]. cbn [obind].
  cbn zeta. case_if; [|cbn; lia].
  pose proof (land31 v Hv). unfold absent, UINT64_MAX, SIZE_MAX.
  repeat (case_if; [cbn; lia|]).
  destruct (yields_pack_be64 idx (1032 + total * 24 + total * 4 + Z.land v 0x7FFFFFFF * 8) Hb)
    as (o & -> & Ho); [lia..|]. exact Ho.
Qed.

Lemma lookup_loop_yields n idx sha total : bytes idx -> 0 <= total < 2 ^ 32 ->
  1032 + total * 28 <= len idx -> forall i, 0 <= i -> i + Z.of_nat n <= total ->
  yields (fun o => 0 <= o < 2 ^ 64) (lookup_loop n idx sha total i).
Proof.
  intros Hb Ht Hl. induction n as [|n IH]; intros i Hi Hn; cbn [lookup_loop].
  - unfold absent, UINT64_MAX. cbn. lia.
  - rewrite rdn_ok by lia. cbn [obind]. case_if; [apply object_offset_yields; (done || lia)|].
    apply IH; lia.
Qed.

Lemma lookup_yields idx sha : bytes idx -> oid sha ->
  yields (fun o => 0 <= o < 2 ^ 64) (bgit_pack_lookup_offset idx sha).
Proof.
  intros Hb [Hs Hsb]. unfold bgit_pack_lookup_offset, bgit_pack_be32.
  assert (Ha : 0 <= absent < 2 ^ 64) by (unfold absent, UINT64_MAX; lia).
  case_if; [exact Ha|].
  eapply yields_bind with (P := is_byte); [by apply yields_rd; [done|lia|]|].
  intros hi Hhi. unfold is_byte in Hhi.
  eapply yields_bind with (P := fun v => 0 <= v < 2 ^ 32).
  { case_if; [cbn; lia|]. destruct (yields_be32 idx (8 + (hi - 1) * 4) Hb) as (v & -> & Hv); [lia..|done]. }
  intros lo Hlo. destruct (yields_be32 idx (8 + hi * 4) Hb) as (up & -> & Hup); [lia..|].
  destruct (yields_be32 idx (8 + 255 * 4) Hb) as (total & -> & Htot); [lia..|]. cbn [obind].
  cbn zeta. rewrite obj_bytes_exact by done. repeat (case_if; [exact Ha|]).
  apply lookup_loop_yields; try done; lia.
Qed.

Lemma be_no_fail buf off m : bgit_be32 buf off <> Fail m /\ bgit_pack_be64 buf off <> Fail m.
Proof. unfold bgit_be32, bgit_pack_be64, rd. split; repeat (case_if; cbn [obind]; try done). Qed.

(** The search reports nothing. *)
Lemma lookup_no_fail idx sha m : bgit_pack_lookup_offset idx sha <> Fail m.
Proof.
  assert (Ho : forall t i, object_offset idx t i <> Fail m).
  { intros t i. unfold object_offset, bgit_pack_be32. pose proof (proj1 (be_no_fail idx (1032 + t * 24 + i * 4) m)).
    destruct (bgit_be32 idx _); [|done..]. cbn [obind]. cbn zeta. repeat (case_if; [done|]). case_if; [|done].
    repeat (case_if; [done|]). apply be_no_fail. }
  assert (Hl : forall n t i, lookup_loop n idx sha t i <> Fail m).
  { induction n as [|n IH]; intros t i; cbn [lookup_loop]; [done|]. unfold rdn. case_if; [|done].
    cbn [obind]. case_if; auto. }
  unfold bgit_pack_lookup_offset, bgit_pack_be32, rd. case_if; [done|]. case_if; [|done]. cbn [obind].
  match goal with |- obind ?x _ <> _ => assert (Hx : x <> Fail m); [case_if; [done|apply be_no_fail]|];
    destruct x; [|done..] end.
  cbn [obind]. match goal with |- obind (bgit_be32 _ ?o) _ <> _ => pose proof (proj1 (be_no_fail idx o m));
    destruct (bgit_be32 idx o); [|done..] end.
  cbn [obind]. match goal with |- obind (bgit_be32 _ ?o) _ <> _ => pose proof (proj1 (be_no_fail idx o m));
    destruct (bgit_be32 idx o); [|done..] end.
  cbn [obind]. cbn zeta. repeat (case_if; [done|]). apply Hl.
Qed.

Lemma fanout_check_yields n idx : bytes idx -> forall i prev, 0 <= i -> 8 + (i + Z.of_nat n) * 4 <= len idx ->
  yields (fun _ => True) (fanout_check n idx i prev).
Proof.
  intros Hb. induction n as [|n IH]; intros i prev Hi Hl; cbn [fanout_check]; [done|].
  unfold bgit_pack_be32. destruct (yields_be32 idx (8 + i * 4) Hb) as (v & -> & Hv); [lia..|].
  cbn [obind]. case_if; [done|]. apply IH; lia.
Qed.

(** The value of one row of the offsets table, as the overflow walk uses it. *)
Definition overflow_step (v count : Z) : Z :=
  if negb (Z.land v 0x80000000 =? 0) then
    if Z.land v 0x7FFFFFFF + 1 >? count then Z.land v 0x7FFFFFFF + 1 else count
  else count.

Lemma overflow_step_range v count : 0 <= v < 2 ^ 32 -> 0 <= count <= 2 ^ 31 ->
  0 <= overflow_step v count <= 2 ^ 31.
Proof. intros Hv Hc. unfold overflow_step. pose proof (land31 v Hv). repeat case_if; lia. Qed.

Lemma overflow_yields n idx t : bytes idx -> 0 <= t -> forall i count, 0 <= i -> 0 <= count <= 2 ^ 31 ->
  t + (i + Z.of_nat n) * 4 <= len idx ->
  yields (fun c => 0 <= c <= 2 ^ 31) (overflow_loop n idx t i count).
Proof.
  intros Hb Ht. induction n as [|n IH]; intros i count Hi Hc Hl; cbn [overflow_loop]; [exact Hc|].
  unfold bgit_pack_be32. pose proof (Z.mod_le (i * 4) (2 ^ 32) ltac:(lia) ltac:(lia)).
  pose proof (u32_range (i * 4)). fold (u32 (i * 4)) in *.
  destruct (yields_be32 idx (t + u32 (i * 4)) Hb) as (v & -> & Hv); [lia..|]. cbn [obind].
  apply IH; [lia|by apply overflow_step_range|lia].
Qed.

(** What an accepted index is known to satisfy. *)
Definition idx_accepted (idx : list Z) (_ : unit) : Prop :=
  exists n count, bgit_be32 idx 1028 = Ret n /\ 0 <= n < 2 ^ 32 /\ 0 <= count <= 2 ^ 31 /\
    overflow_loop (Z.to_nat n) idx (1032 + n * 24) 0 0 = Ret count /\
    len idx = 1072 + n * 28 + count * 8.

Lemma verify_idx_yields `{Sha1dc} idx expected : bytes idx ->
  yields (idx_accepted idx) (bgit_pack_verify_idx idx expected).
Proof.
  intros Hb. unfold bgit_pack_verify_idx, bgit_pack_be32. case_if; [done|].
  rewrite rdn_ok by lia. cbn [obind]. case_if; [done|].
  destruct (yields_be32 idx 4 Hb) as (ver & -> & _); [lia..|]. cbn [obind].
  case_if; [done|]. case_if; [done|].
  eapply yields_bind; [apply fanout_check_yields; [done|lia..]|]. intros _ _.
  destruct (yields_be32 idx (8 + 255 * 4) Hb) as (n & E & Hn); [lia..|]. rewrite E. cbn [obind].
  cbn zeta. rewrite obj_bytes_exact by done. repeat (case_if; [done|]).
  assert (Hc := overflow_yields (Z.to_nat n) idx (1032 + n * 24) Hb ltac:(lia) 0 0 ltac:(lia) ltac:(lia) ltac:(lia)).
  destruct (overflow_loop (Z.to_nat n) idx (1032 + n * 24) 0 0) as [count|m|] eqn:Ec; [|done..].
  cbn [obind yields] in *. case_if; [done|]. case_if; [done|].
  rewrite rdn_ok by lia. cbn [obind].
  match goal with |- context [bgit_sha1 ?d] => pose proof (sha1_yields d) as Hs; destruct (bgit_sha1 d) end;
    [|done..].
  rewrite rdn_ok by lia. cbn [obind]. case_if; [done|].
  assert (Hacc : idx_accepted idx tt) by (exists n, count; split_and!; (done || lia)).
  destruct expected as [sha|]; [|exact Hacc].
  rewrite rdn_ok by lia. cbn [obind]. case_if; [done|exact Hacc].
Qed.

(** The bytes [pack[pos .. end_)]. *)
Definition range (pack : list Z) (pos end_ : Z) : list Z :=
  take (Z.to_nat (end_ - pos)) (drop (Z.to_nat pos) pack).

Lemma range_app pack pos mid end_ : 0 <= pos <= mid -> mid <= end_ ->
  range pack pos mid ++ range pack mid end_ = range pack pos end_.
Proof.
  intros H1 H2. unfold range.
  replace (drop (Z.to_nat mid) pack) with (drop (Z.to_nat (mid - pos)) (drop (Z.to_nat pos) pack)).
  - rewrite take_take_drop. f_equal. lia.
  - rewrite drop_drop. f_equal. lia.
Qed.

(** Hashing in chunks is hashing the range. *)
Lemma crc_loop_range `{Crc32} fuel pack end_ : forall pos crc, 0 <= pos <= end_ -> end_ <= len pack ->
  end_ - pos <= Z.of_nat fuel -> crc_loop fuel pack pos end_ crc = Ret (crc32 crc (range pack pos end_))
    \/ pos = end_ /\ crc_loop fuel pack pos end_ crc = Ret crc.
Proof.
  induction fuel as [|fuel IH]; intros pos crc Hp He Hf; cbn [crc_loop]; case_if;
    try lia; try (right; split; [lia|done]); left.
  set (chunk := if end_ - pos >? UINT_MAX then UINT_MAX else end_ - pos).
  assert (Hc : 0 < chunk <= end_ - pos) by (unfold chunk, UINT_MAX; case_if; lia).
  rewrite rdn_ok by lia. cbn [obind].
  replace (take (Z.to_nat chunk) (drop (Z.to_nat pos) pack)) with (range pack pos (pos + chunk))
    by (unfold range; do 2 f_equal; lia).
  destruct (IH (pos + chunk) (crc32 crc (range pack pos (pos + chunk)))) as [->|[E ->]]; [lia..| |].
  - rewrite crc32_app, range_app by lia. done.
  - by rewrite E.
Qed.

Lemma crc_loop_exact `{Crc32} fuel pack pos end_ crc : 0 <= pos < end_ -> end_ <= len pack ->
  end_ - pos <= Z.of_nat fuel -> crc_loop fuel pack pos end_ crc = Ret (crc32 crc (range pack pos end_)).
Proof. intros Hp He Hf. destruct (crc_loop_range fuel pack end_ pos crc) as [->|[E _]]; (lia || done). Qed.

(** Every row below 2^30 is counted. *)
Lemma overflow_covers n idx t : forall i count c, 0 <= i -> (i + Z.of_nat n) * 4 <= 2 ^ 32 ->
  overflow_loop n idx t i count = Ret c -> count <= c /\
  forall j v, i <= j < i + Z.of_nat n -> bgit_be32 idx (t + j * 4) = Ret v ->
    Z.land v 0x80000000 <> 0 -> Z.land v 0x7FFFFFFF < c.
Proof.
  induction n as [|n IH]; intros i count c Hi Hn H; cbn [overflow_loop] in H.
  - injection H as <-. split; [lia|]. intros. lia.
  - unfold bgit_pack_be32 in H. rewrite u32_id in H by lia. inv_bind H.
    apply IH in H as [H1 H2]; [|lia..].
    assert (Hstep : count <= c /\ (Z.land v 0x80000000 <> 0 -> Z.land v 0x7FFFFFFF < c)).
    { clear H2 IH. repeat case_if_in H1; split; try lia. }
    split; [apply Hstep|]. intros j x Hj Hx Hbit. destruct (decide (j = i)) as [->|].
    + replace x with v in * by congruence. by apply Hstep.
    + by apply (H2 j x); [lia|..].
Qed.

(** An offset the CRC check may use. *)
Definition offset_ok (n plen : Z) (o : bgit_pack_crc_offset) : Prop :=
  12 <= co_off o < plen - 20 /\ 0 <= co_index o < n.

Lemma offsets_yields idx (pack : list Z) n count : bytes idx -> 0 <= n < 2 ^ 30 -> 0 <= count ->
  len idx = 1072 + n * 28 + count * 8 ->
  (forall j v, 0 <= j < n -> bgit_be32 idx (1032 + n * 24 + j * 4) = Ret v ->
     Z.land v 0x80000000 <> 0 -> Z.land v 0x7FFFFFFF < count) ->
  forall k i, 0 <= i -> i + Z.of_nat k = n ->
  yields (Forall (offset_ok n (len pack)))
    (offsets_loop k idx (len pack) (1032 + n * 24) (1032 + n * 28) (count * 8) i).
Proof.
  intros Hb Hn Hc Hl Hcov. induction k as [|k IH]; intros i Hi Hk; cbn [offsets_loop]; [constructor|].
  unfold bgit_pack_be32. destruct (yields_be32 idx (1032 + n * 24 + i * 4) Hb) as (v & E & Hv); [lia..|].
  rewrite E. cbn [obind].
  eapply yields_bind with (P := fun o => 0 <= o).
  - case_if; [|cbn; lia]. cbn zeta. case_if; [done|].
    pose proof (Hcov i v ltac:(lia) E ltac:(lia)). pose proof (land31 v Hv).
    destruct (yields_pack_be64 idx (1032 + n * 28 + Z.land v 0x7FFFFFFF * 8) Hb) as (o & -> & Ho); [lia..|].
    cbn. lia.
  - intros off Hoff. case_if; [done|].
    eapply yields_bind; [apply IH; lia|]. intros rest Hrest. cbn. constructor; [|done].
    split; cbn; lia.
Qed.

Lemma crcs_yields `{Crc32} idx pack n : bytes idx -> 0 <= n -> 1032 + n * 24 <= len idx ->
  32 <= len pack -> forall offs, Forall (offset_ok n (len pack)) offs ->
  yields (fun _ => True) (crcs_loop idx pack (1032 + n * 20) offs).
Proof.
  intros Hb Hn Hl Hp. induction 1 as [|o offs [Ho Hi] Hoffs IH]; cbn [crcs_loop]; [done|].
  cbn zeta. set (end_ := match offs with o' :: _ => co_off o' | [] => len pack - 20 end).
  assert (Hend : end_ <= len pack - 20).
  { unfold end_. destruct Hoffs as [|o' ? [? _] _]; lia. }
  case_if; [done|].
  rewrite crc_loop_exact by (unfold len in *; lia). cbn [obind].
  unfold bgit_pack_be32. destruct (yields_be32 idx (1032 + n * 20 + co_index o * 4) Hb) as (v & -> & _); [lia..|].
  cbn [obind]. case_if; [done|exact IH].
Qed.

Lemma verify_crc_yields `{Sha1dc} `{Crc32} `{Qsort} idx pack expected n : bytes idx -> bytes pack ->
  bgit_pack_verify_idx idx expected = Ret tt -> bgit_be32 idx 1028 = Ret n -> n < 2 ^ 30 ->
  yields (fun _ => True) (bgit_pack_verify_idx_crc32 idx pack).
Proof.
  intros Hb Hpb Hv En Hn30. pose proof (verify_idx_yields idx expected Hb) as Hacc. rewrite Hv in Hacc.
  destruct Hacc as (n' & count & E & Hn & Hc & Hcount & Hl).
  assert (n' = n) as -> by congruence.
  unfold bgit_pack_verify_idx_crc32.
  eapply yields_bind with (P := fun bad => bad = false -> 32 <= len pack).
  { case_if; [done|]. rewrite rdn_ok by lia. cbn. lia. }
  intros bad Hbad. destruct bad; [done|]. specialize (Hbad eq_refl).
  unfold bgit_pack_be32. destruct (yields_be32 pack 4 Hpb) as (ver & -> & _); [lia..|]. cbn [obind].
  case_if; [done|]. change (8 + 255 * 4) with 1028. rewrite E.
  destruct (yields_be32 pack 8 Hpb) as (pn & -> & _); [lia..|]. cbn [obind]. case_if; [done|].
  cbn zeta. rewrite (u64_id (len idx - 40)), u64_id by lia.
  replace (len idx - 40 - (1032 + n * 28)) with (count * 8) by lia.
  destruct (overflow_covers (Z.to_nat n) idx (1032 + n * 24) 0 0 count) as [_ Hcov]; [lia|lia|done|].
  eapply yields_bind.
  - apply offsets_yields; try done; try lia. intros j v Hj. apply Hcov. lia.
  - intros offs Hoffs. apply crcs_yields; try done; try lia.
    by rewrite qsort_perm.
Qed.

(* ------------------------------------------------------------------ *)
(** ** The layout of a written index *)

Definition wf_ie (e : bgit_pack_idx_entry) : Prop :=
  oid (ie_sha e) /\ 0 <= ie_crc e < 2 ^ 32 /\ 0 <= ie_off e < 2 ^ 64.

(** How many entries start with a byte of at most [b]. *)
Fixpoint cnt (es : list bgit_pack_idx_entry) (b : Z) : Z :=
  match es with
  | [] => 0
  | e :: es' => (if hd 0 (ie_sha e) <=? b then 1 else 0) + cnt es' b
  end.

(** The rows of the offsets table, and the rows of the 64-bit table. *)
Fixpoint slots (es : list bgit_pack_idx_entry) (n64 : Z) : list Z :=
  match es with
  | [] => []
  | e :: es' => if ie_off e >=? 0x80000000 then (2 ^ 31 + n64) :: slots es' (n64 + 1)
                else ie_off e :: slots es' n64
  end.

Fixpoint bigs (es : list bgit_pack_idx_entry) : list Z :=
  match es with
  | [] => []
  | e :: es' => if ie_off e >=? 0x80000000 then ie_off e :: bigs es' else bigs es'
  end.

Lemma cnt_range es b : 0 <= cnt es b <= len es.
Proof. induction es as [|e es IH]; cbn [cnt]; [done|]. rewrite len_cons. case_if; lia. Qed.

Lemma cnt_mono es a b : a <= b -> cnt es a <= cnt es b.
Proof. intros Hab. induction es as [|e es IH]; cbn [cnt]; [done|]. repeat case_if; lia. Qed.

Definition heads_sorted (es : list bgit_pack_idx_entry) : Prop :=
  StronglySorted (fun a b => hd 0 (ie_sha a) <= hd 0 (ie_sha b)) es.

Lemma cnt_none es b : Forall (fun e => b < hd 0 (ie_sha e)) es -> cnt es b = 0.
Proof. induction 1 as [|e es He _ IH]; cbn [cnt]; [done|]. if_false. lia. Qed.

Lemma cnt_lookup es : heads_sorted es -> forall i e b, es !! i = Some e ->
  (hd 0 (ie_sha e) <= b <-> Z.of_nat i < cnt es b).
Proof.
  induction 1 as [|x es Hs IH Hx]; intros i e b Hi; [done|]. cbn [cnt].
  destruct i as [|i]; cbn in Hi.
  - injection Hi as ->. pose proof (cnt_range es b). case_if; [lia|].
    rewrite cnt_none; [lia|]. eapply Forall_impl; [exact Hx|]. cbn. lia.
  - rewrite (IH i e b Hi). case_if; [lia|]. rewrite cnt_none; [lia|].
    eapply Forall_impl; [exact Hx|]. cbn. lia.
Qed.

Lemma fan_advance_spec b es : heads_sorted es -> forall pos, exists rest,
  fan_advance b es pos = (rest, pos + cnt es b) /\ heads_sorted rest /\
  forall c, b <= c -> cnt rest c + cnt es b = cnt es c.
Proof.
  induction 1 as [|e es Hs IH He]; intros pos; cbn [fan_advance cnt].
  - exists []. rewrite Z.add_0_r. split_and!; [done|constructor|done].
  - case_if.
    + destruct (IH (pos + 1)) as (rest & -> & Hr & Hc). exists rest. split; [f_equal; lia|].
      split; [done|]. intros c Hbc. if_true. specialize (Hc c Hbc). lia.
    + assert (Hz : cnt es b = 0) by (apply cnt_none; eapply Forall_impl; [exact He|]; cbn; lia).
      exists (e :: es). rewrite Hz. split; [f_equal; lia|]. split; [by constructor|].
      intros c _. cbn [cnt]. lia.
Qed.

Lemma fan_loop_spec n : forall b es pos, heads_sorted es -> 
  fan_loop n b es pos = flat_map (fun k => bgit_put_be32 (u32 (pos + cnt es (b + Z.of_nat k)))) (seq 0 n).
Proof.
  induction n as [|n IH]; intros b es pos Hs; cbn [fan_loop]; [done|].
  destruct (fan_advance_spec b es Hs pos) as (rest & -> & Hr & Hc).
  rewrite IH, append_be32_put by done. cbn [seq flat_map]. change (Z.of_nat 0) with 0; rewrite Z.add_0_r; f_equal.
  rewrite <- seq_shift, !flat_map_concat_map, map_map. f_equal. apply map_ext. intros k.
  do 2 f_equal. specialize (Hc (b + 1 + Z.of_nat k) ltac:(lia)).
  replace (b + Z.of_nat (S k)) with (b + 1 + Z.of_nat k) by lia. lia.
Qed.

Lemma lor_high n : 0 <= n < 2 ^ 31 -> Z.lor 0x80000000 n = 2 ^ 31 + n.
Proof. intros. change 0x80000000 with (1 * 2 ^ 31). rewrite lor_bytes by lia. lia. Qed.

Lemma ofs_loop_spec es : forall n64, 0 <= n64 -> n64 + len (bigs es) <= 2 ^ 31 ->
  Forall wf_ie es ->
  ofs_loop es n64 = Ret (flat_map bgit_put_be32 (slots es n64), bigs es).
Proof.
  induction es as [|e es IH]; intros n64 H0 Hn Hwf; [done|].
  inversion Hwf as [|? ? (_ & _ & Hoff) Hwf']; subst. cbn [ofs_loop slots bigs] in *.
  case_if.
  - rewrite len_cons in Hn. pose proof (len_nonneg (bigs es)). if_false.
    rewrite IH by (done || lia). cbn [obind]. rewrite append_be32_put, u32_id, lor_high by lia. done.
  - rewrite IH by (done || lia). cbn [obind]. rewrite append_be32_put, u32_id by lia. done.
Qed.

Lemma ofs_loop_fits es : forall n64 r, ofs_loop es n64 = Ret r ->
  bigs es = [] \/ n64 + len (bigs es) <= 2 ^ 31.
Proof.
  induction es as [|e es IH]; intros n64 r H; cbn [ofs_loop bigs] in *; [by left|]. case_if_in H.
  - case_if_in H; [done|]. inv_bind H. destruct (IH _ _ Hv) as [E|]; right.
    + rewrite E, len_cons. change (len (@nil Z)) with 0. lia.
    + rewrite len_cons. lia.
  - inv_bind H. by eapply IH.
Qed.

Lemma slots_len es : forall n64, len (slots es n64) = len es.
Proof. induction es as [|e es IH]; intros; cbn [slots]; [done|]. case_if; rewrite !len_cons, IH; done. Qed.

(** The row of an entry is its offset, or the place of its offset among the
    large ones. *)
Lemma slots_lookup es : forall n64 i e, es !! i = Some e -> exists v, slots es n64 !! i = Some v /\
  ((ie_off e < 2 ^ 31 /\ v = ie_off e) \/
   (exists k, 2 ^ 31 <= ie_off e /\ v = 2 ^ 31 + n64 + Z.of_nat k /\ bigs es !! k = Some (ie_off e))).
Proof.
  induction es as [|x es IH]; intros n64 i e Hi; [done|]. cbn [slots bigs].
  destruct i as [|i]; cbn in Hi.
  - injection Hi as ->. case_if; eexists; (split; [done|]); [right|left; lia].
    exists O. split_and!; [lia|lia|done].
  - case_if.
    + destruct (IH (n64 + 1) i e Hi) as (v & Hv & H). exists v. split; [done|].
      destruct H as [|(k & ? & ? & ?)]; [by left|right; exists (S k); split_and!; [lia|lia|done]].
    + by apply IH.
Qed.

Definition hdr : list Z := [255; 116; 79; 99] ++ bgit_put_be32 2.
Definition fan (es : list bgit_pack_idx_entry) : list Z :=
  flat_map (fun k => bgit_put_be32 (u32 (cnt es (Z.of_nat k)))) (seq 0 256).
Definition crcs (es : list bgit_pack_idx_entry) : list Z :=
  flat_map (fun e => bgit_put_be32 (ie_crc e)) es.
Definition ofs (es : list bgit_pack_idx_entry) : list Z := flat_map bgit_put_be32 (slots es 0).
Definition ofs64 (es : list bgit_pack_idx_entry) : list Z := flat_map bgit_pack_buf_append_be64 (bigs es).

Definition idx_layout (es : list bgit_pack_idx_entry) (tail : list Z) : list Z :=
  hdr ++ fan es ++ flat_map ie_sha es ++ crcs es ++ ofs es ++ ofs64 es ++ tail.

Section Layout.
Context (es : list bgit_pack_idx_entry) (tail : list Z).
Hypotheses (Hwf : Forall wf_ie es) (Hheads : heads_sorted es) (Htail : bytes tail)
  (Hn : len es < 2 ^ 32).

#[local] Abbreviation idx := (idx_layout es tail).
#[local] Abbreviation n := (len es).

Lemma sha_width e : e ∈ es -> len (ie_sha e) = 20.
Proof using Hwf. intros He. rewrite Forall_forall in Hwf. by apply Hwf. Qed.

Lemma len_shas : len (flat_map ie_sha es) = n * 20.
Proof using Hwf. apply len_table, sha_width. Qed.

Lemma len_word_rows {A} (f : A -> Z) l : len (flat_map (fun x => bgit_put_be32 (f x)) l) = len l * 4.
Proof using. by apply len_table. Qed.

Lemma len_word_rows' l : len (flat_map bgit_put_be32 l) = len l * 4.
Proof using. by apply len_table. Qed.

Lemma len_bigs l : len (flat_map bgit_pack_buf_append_be64 l) = len l * 8.
Proof using. by apply len_table. Qed.

(** A row found by writing the file around its table. *)
Lemma around (buf P table Q pre x post : list Z) : buf = P ++ table ++ Q -> table = pre ++ x ++ post ->
  buf = (P ++ pre) ++ x ++ (post ++ Q).
Proof using. intros -> ->. by rewrite <- !app_assoc. Qed.

Lemma len_fan : len (hdr ++ fan es) = 1032.
Proof using. unfold hdr, fan. by rewrite !len_app, len_word_rows. Qed.

Lemma len_crcs : len (crcs es) = n * 4.
Proof using. apply len_word_rows. Qed.

Lemma len_ofs : len (ofs es) = n * 4.
Proof using. unfold ofs. by rewrite len_word_rows', slots_len. Qed.

Lemma layout_len : len idx = 1032 + n * 28 + len (bigs es) * 8 + len tail.
Proof using Hwf.
  unfold idx_layout. rewrite app_assoc, len_app, len_fan, !len_app, len_shas, len_crcs, len_ofs.
  unfold ofs64. rewrite len_bigs. lia.
Qed.

Lemma layout_fan b : 0 <= b < 256 -> bgit_be32 idx (8 + b * 4) = Ret (cnt es b).
Proof using Hn.
  intros Hb. pose proof (cnt_range es b).
  destruct (table_row (fun k => bgit_put_be32 (u32 (cnt es (Z.of_nat k)))) 4 (seq 0 256) (Z.to_nat b)
    (Z.to_nat b)) as (pre & post & E & Hl); [done|apply lookup_seq; lia|].
  rewrite Z2Nat.id, u32_id in E by lia. rewrite Z2Nat.id in Hl by lia.
  rewrite (around idx hdr (fan es) (flat_map ie_sha es ++ crcs es ++ ofs es ++ ofs64 es ++ tail) pre _ post eq_refl E).
  apply be32_put; [|lia]. rewrite len_app, Hl. reflexivity.
Qed.

Lemma layout_sha i e : es !! i = Some e -> rdn idx (1032 + Z.of_nat i * 20) 20 = Ret (ie_sha e).
Proof using Hwf.
  intros Hi. destruct (table_row ie_sha 20 es i e) as (pre & post & E & Hl); [apply sha_width|done|].
  rewrite (around idx (hdr ++ fan es) (flat_map ie_sha es) (crcs es ++ ofs es ++ ofs64 es ++ tail) pre _ post
    ltac:(unfold idx_layout; by rewrite <- !app_assoc) E).
  apply rdn_app'.
  - by rewrite len_app, len_fan, Hl.
  - symmetry. eapply sha_width, list_elem_of_lookup_2, Hi.
Qed.

Lemma layout_crc i e : es !! i = Some e -> bgit_be32 idx (1032 + n * 20 + Z.of_nat i * 4) = Ret (ie_crc e).
Proof using Hwf.
  intros Hi. destruct (table_row (fun e => bgit_put_be32 (ie_crc e)) 4 es i e) as (pre & post & E & Hl); [done..|].
  rewrite (around idx ((hdr ++ fan es) ++ flat_map ie_sha es) (crcs es) (ofs es ++ ofs64 es ++ tail) pre _ post
    ltac:(unfold idx_layout; by rewrite <- !app_assoc) E).
  apply be32_put; [by rewrite (len_app _ pre), (len_app (hdr ++ fan es)), len_fan, len_shas, Hl|].
  rewrite Forall_forall in Hwf. eapply Hwf, list_elem_of_lookup_2, Hi.
Qed.

Lemma layout_slot i v : slots es 0 !! i = Some v -> 0 <= v < 2 ^ 32 ->
  bgit_be32 idx (1032 + n * 24 + Z.of_nat i * 4) = Ret v.
Proof using Hwf.
  intros Hi Hv. destruct (table_row bgit_put_be32 4 (slots es 0) i v) as (pre & post & E & Hl); [done..|].
  rewrite (around idx ((hdr ++ fan es) ++ flat_map ie_sha es ++ crcs es) (ofs es) (ofs64 es ++ tail) pre _ post
    ltac:(unfold idx_layout; by rewrite <- !app_assoc) E).
  apply be32_put; [|done]. rewrite (len_app _ pre), (len_app (hdr ++ fan es)), len_fan, len_app, len_shas, len_crcs, Hl. lia.
Qed.

Lemma layout_big k o : bigs es !! k = Some o -> 0 <= o < 2 ^ 64 ->
  bgit_pack_be64 idx (1032 + n * 28 + Z.of_nat k * 8) = Ret o.
Proof using Hwf Htail.
  intros Hi Ho. destruct (table_row bgit_pack_buf_append_be64 8 (bigs es) k o) as (pre & post & E & Hl); [done..|].
  rewrite (around idx ((hdr ++ fan es) ++ flat_map ie_sha es ++ crcs es ++ ofs es) (ofs64 es) (tail) pre _ post
    ltac:(unfold idx_layout; by rewrite <- !app_assoc) E).
  assert (Hb64 : bytes (pre ++ bgit_pack_buf_append_be64 o ++ post)).
  { rewrite <- E. apply table_bytes. intros y _. unfold bgit_pack_buf_append_be64.
    repeat (constructor; [unfold is_byte; rewrite (land_ones_mod _ 8) by done; by apply Z.mod_pos_bound|]).
    constructor. }
  apply Forall_app in Hb64 as [Hpre [_ Hpost]%Forall_app].
  apply pack_be64_put; [| |rewrite (len_app _ pre), (len_app (hdr ++ fan es)), len_fan, (len_app (flat_map ie_sha es)), (len_app (crcs es)), len_shas, len_crcs, len_ofs, Hl; lia|done].
  - assert (bytes hdr) by solve_bytes.
    assert (bytes (fan es)) by (apply table_bytes; intros; apply put_be32_bytes).
    assert (bytes (crcs es)) by (apply table_bytes; intros; apply put_be32_bytes).
    assert (bytes (ofs es)) by (apply table_bytes; intros; apply put_be32_bytes).
    assert (bytes (flat_map ie_sha es)).
    { apply table_bytes. intros e He. rewrite Forall_forall in Hwf. by apply Hwf. }
    repeat first [assumption | apply Forall_app; split].
  - apply Forall_app. by split.
Qed.
End Layout.

(* ------------------------------------------------------------------ *)
(** ** A written index is accepted *)

Lemma high_bit v : 0 <= v < 2 ^ 32 -> (Z.land v 0x80000000 =? 0) = (v <? 2 ^ 31).
Proof.
  intros Hv. change 0x80000000 with (Z.shiftl 1 31). rewrite land_bit by done.
  destruct (Z.testbit v 31) eqn:E.
  - apply Z.testbit_true in E; [|done]. symmetry. apply Z.ltb_ge. dlia.
  - apply Z.testbit_false in E; [|done]. symmetry. apply Z.ltb_lt. dlia.
Qed.

Lemma low_bits k : 0 <= k < 2 ^ 31 -> Z.land (2 ^ 31 + k) 0x7FFFFFFF = k.
Proof. intros. change 0x7FFFFFFF with (2 ^ 31 - 1). rewrite land_ones_mod by done. dlia. Qed.

Lemma slots_range es : forall n64, 0 <= n64 -> n64 + len (bigs es) <= 2 ^ 31 -> Forall wf_ie es ->
  Forall (fun v => 0 <= v < 2 ^ 32) (slots es n64).
Proof.
  induction es as [|e es IH]; intros n64 H0 Hn Hwf; cbn [slots bigs] in *; [constructor|].
  inversion Hwf as [|? ? (_ & _ & Ho) Hwf']; subst. case_if.
  - rewrite len_cons in Hn. pose proof (len_nonneg (bigs es)). constructor; [lia|]. by apply IH; [lia..|].
  - constructor; [lia|]. by apply IH.
Qed.

Lemma overflow_rows vs idx t : forall i count, 0 <= i -> (i + len vs) * 4 <= 2 ^ 32 ->
  (forall j v, vs !! j = Some v -> bgit_be32 idx (t + (i + Z.of_nat j) * 4) = Ret v) ->
  overflow_loop (length vs) idx t i count = Ret (foldl (fun c v => overflow_step v c) count vs).
Proof.
  induction vs as [|v vs IH]; intros i count Hi Hl H; cbn [length overflow_loop foldl]; [done|].
  rewrite len_cons in Hl. pose proof (len_nonneg vs).
  unfold bgit_pack_be32. rewrite u32_id by lia.
  pose proof (H O v eq_refl) as Hr. change (Z.of_nat 0) with 0 in Hr. rewrite Z.add_0_r in Hr. rewrite Hr. cbn [obind].
  rewrite IH; [done|lia|lia|]. intros j x Hj. rewrite <- (H (S j) x Hj). do 2 f_equal. lia.
Qed.

Lemma overflow_slots es : forall n64, 0 <= n64 -> n64 + len (bigs es) <= 2 ^ 31 -> Forall wf_ie es ->
  foldl (fun c v => overflow_step v c) n64 (slots es n64) = n64 + len (bigs es).
Proof.
  induction es as [|e es IH]; intros n64 H0 Hn Hwf; cbn [slots bigs foldl] in *; [by rewrite Z.add_0_r|].
  inversion Hwf as [|? ? (_ & _ & Ho) Hwf']; subst. case_if.
  - rewrite len_cons in *. pose proof (len_nonneg (bigs es)). cbn [foldl]. unfold overflow_step at 2.
    rewrite high_bit, (proj2 (Z.ltb_ge _ _)) by lia. cbn [negb]. rewrite low_bits by lia. if_true.
    rewrite IH by (done || lia). lia.
  - cbn [foldl]. unfold overflow_step at 2.
    rewrite high_bit, (proj2 (Z.ltb_lt _ _)) by lia. cbn [negb]. by apply IH.
Qed.

Lemma fanout_accepted idx es : (forall b, 0 <= b < 256 -> bgit_be32 idx (8 + b * 4) = Ret (cnt es b)) ->
  forall n i prev, 0 <= i -> i + Z.of_nat n <= 256 -> prev <= cnt es i ->
  fanout_check n idx i prev = Ret tt.
Proof.
  intros H. induction n as [|n IH]; intros i prev Hi Hn Hp; cbn [fanout_check]; [done|].
  unfold bgit_pack_be32. rewrite H by lia. cbn [obind]. if_false. apply IH; [lia..|].
  apply cnt_mono. lia.
Qed.

Lemma cnt_all es : Forall wf_ie es -> cnt es 255 = len es.
Proof.
  induction 1 as [|e es ((Hl & Hb) & _) _ IH]; cbn [cnt]; [done|]. rewrite len_cons, IH.
  destruct (ie_sha e) as [|x sha]; [done|]. inversion Hb as [|? ? Hx _]. unfold is_byte in Hx. cbn.
  if_true. lia.
Qed.

(** The writer's bytes are the layout, under their own SHA-1. *)
Lemma idx_bytes_layout `{Sha1dc} es pack_sha idx : Forall wf_ie es -> heads_sorted es -> oid pack_sha ->
  idx_bytes es pack_sha = Ret idx ->
  exists idx_sha, idx = idx_layout es (pack_sha ++ idx_sha) /\ oid idx_sha /\
    bgit_sha1 (take (length idx - 20) idx) = Ret idx_sha /\ len (bigs es) <= 2 ^ 31.
Proof.
  intros Hwf Hh Hps H1. unfold idx_bytes in H1. inv_bind H1. destruct v as [table big].
  assert (Hbig : len (bigs es) <= 2 ^ 31).
  { destruct (ofs_loop_fits _ _ _ Hv) as [->|]; [done|lia]. }
  rewrite ofs_loop_spec in Hv by (done || lia). apply Ret_inj, pair_eq in Hv as [<- <-].
  rewrite fan_loop_spec in H1 by done.
  match type of H1 with context [bgit_sha1 ?b] => set (body := b) in * end.
  pose proof (sha1_yields body) as Hs.
  destruct (bgit_sha1 body) as [idx_sha| |] eqn:E; [|done..]. apply Ret_inj in H1 as <-. cbn [yields] in Hs.
  exists idx_sha. split; [|split; [done|split; [|done]]].
  - unfold body, idx_layout, hdr, fan, crcs, ofs, ofs64. rewrite append_be32_put.
    rewrite (flat_map_ext (fun e => bgit_pack_buf_append_be32 (ie_crc e)) (fun e => bgit_put_be32 (ie_crc e)))
      by (intros; apply append_be32_put).
    by rewrite <- !app_assoc.
  - rewrite <- E. f_equal. destruct Hs as [Hs _]. unfold len in Hs. rewrite length_app.
    replace (_ + _ - 20)%nat with (length body) by lia. apply take_app_length.
Qed.

Lemma layout_bytes es tail : Forall wf_ie es -> bytes tail -> bytes (idx_layout es tail).
Proof.
  intros Hwf Ht.
  assert (bytes hdr) by solve_bytes.
  assert (bytes (fan es)) by (apply table_bytes; intros; apply put_be32_bytes).
  assert (bytes (crcs es)) by (apply table_bytes; intros; apply put_be32_bytes).
  assert (bytes (ofs es)) by (apply table_bytes; intros; apply put_be32_bytes).
  assert (bytes (ofs64 es)).
  { apply table_bytes. intros. unfold bgit_pack_buf_append_be64.
    repeat (constructor; [unfold is_byte; rewrite (land_ones_mod _ 8) by done; by apply Z.mod_pos_bound|]).
    constructor. }
  assert (bytes (flat_map ie_sha es)).
  { apply table_bytes. intros e He. rewrite Forall_forall in Hwf. by apply Hwf. }
  unfold idx_layout. repeat first [assumption | apply Forall_app; split].
Qed.

Lemma layout_header es tail :
  rdn (idx_layout es tail) 0 4 = Ret [255; 116; 79; 99] /\ bgit_be32 (idx_layout es tail) 4 = Ret 2.
Proof.
  unfold idx_layout, hdr. rewrite <- app_assoc. split.
  - by apply (rdn_app' [] [255; 116; 79; 99]).
  - by apply (be32_put [255; 116; 79; 99]).
Qed.

Lemma layout_trailer es pack_sha isha idx : len pack_sha = 20 -> len isha = 20 ->
  idx = idx_layout es (pack_sha ++ isha) ->
  rdn idx (len idx - 20) 20 = Ret isha /\ rdn idx (len idx - 40) 20 = Ret pack_sha.
Proof.
  intros Lps Ls El.
  assert (Eapp : idx = (hdr ++ fan es ++ flat_map ie_sha es ++ crcs es ++ ofs es ++ ofs64 es) ++ pack_sha ++ isha ++ []).
  { rewrite El. unfold idx_layout. by rewrite app_nil_r, <- !app_assoc. }
  set (body := hdr ++ _) in Eapp. clearbody body.
  assert (Lb : len body = len idx - 40).
  { rewrite Eapp, !len_app, Lps, Ls. change (len (@nil Z)) with 0. lia. }
  split; rewrite Eapp at 1.
  - rewrite app_assoc. apply rdn_app'; [rewrite len_app; lia|lia].
  - apply rdn_app'; lia.
Qed.

Lemma layout_overflow es tail : Forall wf_ie es -> len es < 2 ^ 30 -> len (bigs es) <= 2 ^ 31 ->
  overflow_loop (Z.to_nat (len es)) (idx_layout es tail) (1032 + len es * 24) 0 0 = Ret (len (bigs es)).
Proof.
  intros Hwf Hn Hbig. replace (Z.to_nat (len es)) with (length (slots es 0))
    by (pose proof (slots_len es 0); unfold len in *; lia).
  rewrite overflow_rows; [by rewrite overflow_slots|done|rewrite slots_len; lia|].
  intros j v Hj. cbn [Z.add]. apply layout_slot; [done..|].
  pose proof (slots_range es 0 ltac:(done) ltac:(done) Hwf) as Hr. rewrite Forall_forall in Hr.
  by eapply Hr, list_elem_of_lookup_2.
Qed.

Lemma beq_refl l : beq l l = true.
Proof. by apply bool_decide_eq_true. Qed.

Lemma written_verifies `{Sha1dc} es pack_sha idx : Forall wf_ie es -> heads_sorted es -> oid pack_sha ->
  len es < 2 ^ 30 -> idx_bytes es pack_sha = Ret idx ->
  bgit_pack_verify_idx idx (Some pack_sha) = Ret tt.
Proof.
  intros Hwf Hh Hps Hn Hidx.
  destruct (idx_bytes_layout _ _ _ Hwf Hh Hps Hidx) as (isha & El & Hs & Esha & Hbig).
  destruct Hps as [Lps Bps]. destruct Hs as [Ls Bs].
  pose proof (layout_len es (pack_sha ++ isha) Hwf) as Hlen.
  pose proof (layout_fan es (pack_sha ++ isha) ltac:(lia)) as Hfan.
  destruct (layout_header es (pack_sha ++ isha)) as [Hmagic Hver].
  pose proof (layout_overflow es (pack_sha ++ isha) Hwf Hn Hbig) as Hov.
  destruct (layout_trailer es pack_sha isha idx Lps Ls El) as [Ht1 Ht2].
  rewrite <- El in *. rewrite len_app, Lps, Ls in Hlen. clear El.
  pose proof (len_nonneg es). pose proof (len_nonneg (bigs es)).
  unfold bgit_pack_verify_idx, bgit_pack_be32. if_false. rewrite Hmagic. cbn [obind].
  rewrite beq_refl. cbn [negb]. rewrite Hver. cbn [obind]. change (negb (2 =? 2)) with false. cbn iota.
  if_false. rewrite (fanout_accepted idx es Hfan) by (try lia; pose proof (cnt_range es 0); lia).
  cbn [obind]. rewrite Hfan, cnt_all by (done || lia). cbn [obind]. cbn zeta.
  rewrite obj_bytes_exact by lia. rewrite Z.div_mul by done. rewrite Z.eqb_refl, andb_false_r.
  unfold SIZE_MAX. do 2 if_false. rewrite Hov. cbn [obind]. if_false.
  replace (negb (len idx =? _)) with false by (symmetry; apply negb_false_iff, Z.eqb_eq; lia).
  rewrite rdn_ok by lia. cbn [obind]. change (drop (Z.to_nat 0) idx) with idx.
  replace (Z.to_nat (len idx - 20)) with (length idx - 20)%nat by (unfold len in *; lia).
  rewrite Esha, Ht1. cbn [obind]. rewrite beq_refl. cbn [negb]. rewrite Ht2. cbn [obind].
  by rewrite beq_refl.
Qed.

(* ------------------------------------------------------------------ *)
(** ** A written index finds its objects *)

Section Find.
Context (es : list bgit_pack_idx_entry) (tail : list Z).
Hypotheses (Hwf : Forall wf_ie es) (Hheads : heads_sorted es) (Htail : bytes tail)
  (Htail40 : len tail = 40) (Hn : len es < 2 ^ 32) (Hbig : len (bigs es) <= 2 ^ 31).
#[local] Abbreviation idx := (idx_layout es tail).

Lemma wf_lookup i e : es !! i = Some e -> wf_ie e.
Proof using Hwf. intros Hi. rewrite Forall_forall in Hwf. by eapply Hwf, list_elem_of_lookup_2. Qed.

Lemma bigs_bound k o : bigs es !! k = Some o -> Z.of_nat k < len (bigs es).
Proof using. intros Hk. apply lookup_lt_Some in Hk. unfold len. lia. Qed.

Lemma found_offset i e : es !! i = Some e -> object_offset idx (len es) (Z.of_nat i) = Ret (ie_off e).
Proof using Hwf Htail Htail40 Hn Hbig.
  intros Hi. destruct (slots_lookup es 0 i e Hi) as (v & Hs & Hv).
  destruct (wf_lookup i e Hi) as (_ & _ & Ho).
  assert (Hvr : 0 <= v < 2 ^ 32).
  { destruct Hv as [[? ->]|(k & ? & -> & Hk)]; [lia|]. pose proof (bigs_bound k _ Hk). lia. }
  unfold object_offset, bgit_pack_be32. rewrite layout_slot with (v := v) by done. cbn [obind]. cbn zeta.
  rewrite high_bit by done. destruct Hv as [[Hlt ->]|(k & Hge & -> & Hk)].
  - by rewrite (proj2 (Z.ltb_lt _ _)) by lia.
  - rewrite (proj2 (Z.ltb_ge _ _)) by lia. cbn [negb].
    pose proof (bigs_bound k _ Hk). rewrite Z.add_0_r, low_bits by lia.
    pose proof (layout_len es tail Hwf). pose proof (len_nonneg es).
    unfold SIZE_MAX. do 3 if_false.
    replace (1032 + len es * 24 + len es * 4 + Z.of_nat k * 8) with (1032 + len es * 28 + Z.of_nat k * 8) by lia.
    by apply layout_big.
Qed.

(** The search stops at the first candidate with the id. *)
Lemma lookup_loop_found i e : es !! i = Some e ->
  (forall j e', es !! j = Some e' -> ie_sha e' = ie_sha e -> j = i) ->
  forall n k, (k <= i < k + n)%nat ->
  lookup_loop n idx (ie_sha e) (len es) (Z.of_nat k) = Ret (ie_off e).
Proof using Hwf Htail Htail40 Hn Hbig.
  intros Hi Huniq. induction n as [|n IH]; intros k Hk; [lia|]. cbn [lookup_loop].
  destruct (lookup_lt_is_Some_2 es k) as [e' He']; [apply lookup_lt_Some in Hi; lia|].
  rewrite (layout_sha es tail Hwf k e' He'). cbn [obind]. case_if.
  - rewrite (Huniq k e' He') by done. by apply found_offset.
  - destruct (decide (k = i)) as [->|]; [congruence|].
    replace (Z.of_nat k + 1) with (Z.of_nat (S k)) by lia. apply IH. lia.
Qed.

Lemma lookup_loop_absent sha : (forall e, e ∈ es -> ie_sha e <> sha) ->
  forall n k, (k + n <= length es)%nat ->
  lookup_loop n idx sha (len es) (Z.of_nat k) = Ret absent.
Proof using Hwf.
  intros Hne. induction n as [|n IH]; intros k Hk; [done|]. cbn [lookup_loop].
  destruct (lookup_lt_is_Some_2 es k) as [e' He']; [lia|].
  rewrite (layout_sha es tail Hwf k e' He'). cbn [obind]. case_if.
  - exfalso. by eapply Hne; [eapply list_elem_of_lookup_2|].
  - replace (Z.of_nat k + 1) with (Z.of_nat (S k)) by lia. apply IH. lia.
Qed.

(** The fan-out narrows the search to the entries that share the first byte. *)
Lemma lookup_narrowed sha h : oid sha -> hd 0 sha = h ->
  bgit_pack_lookup_offset idx sha =
  lookup_loop (Z.to_nat (cnt es h - cnt es (h - 1))) idx sha (len es) (cnt es (h - 1)).
Proof using Hwf Htail40 Hn.
  intros [Hl Hb] Hh. pose proof (layout_len es tail Hwf). pose proof (len_nonneg es). pose proof (len_nonneg (bigs es)).
  unfold bgit_pack_lookup_offset, bgit_pack_be32. if_false.
  destruct sha as [|x sha]; [done|]. cbn in Hh. subst x.
  assert (Hh : 0 <= h < 256) by (by inversion Hb).
  change (rd (h :: sha) 0) with (Ret h). cbn [obind].
  assert (Hlo : (if h =? 0 then Ret 0 else bgit_be32 idx (8 + (h - 1) * 4)) = Ret (cnt es (h - 1))).
  { case_if; [|by apply layout_fan; [done|lia]]. rewrite cnt_none; [done|].
    apply Forall_forall. intros e He. assert (Hwe : wf_ie e) by (rewrite Forall_forall in Hwf; by apply Hwf).
    destruct Hwe as ((_ & Hbe) & _). destruct (ie_sha e) as [|y t]; cbn; [lia|].
    inversion Hbe as [|? ? Hy _]. unfold is_byte in Hy. lia. }
  rewrite Hlo. cbn [obind]. rewrite !layout_fan by (done || lia). cbn [obind].
  rewrite cnt_all by done. cbn zeta. rewrite obj_bytes_exact by lia. rewrite Z.div_mul by done.
  rewrite Z.eqb_refl, andb_false_r. unfold SIZE_MAX.
  pose proof (cnt_mono es (h - 1) h ltac:(lia)). pose proof (cnt_range es h). by do 3 if_false.
Qed.

Lemma layout_find i e : NoDup (map ie_sha es) -> es !! i = Some e ->
  bgit_pack_lookup_offset idx (ie_sha e) = Ret (ie_off e).
Proof using Hwf Hheads Htail Htail40 Hn Hbig.
  intros Hnd Hi. destruct (wf_lookup i e Hi) as (Hoid & _ & _).
  rewrite (lookup_narrowed _ (hd 0 (ie_sha e))) by done. set (h := hd 0 (ie_sha e)).
  pose proof (proj1 (cnt_lookup es Hheads i e h Hi) ltac:(lia)).
  assert (cnt es (h - 1) <= Z.of_nat i).
  { pose proof (proj2 (cnt_lookup es Hheads i e (h - 1) Hi)). lia. }
  pose proof (cnt_range es (h - 1)). rewrite <- (Z2Nat.id (cnt es (h - 1))) at 2 by lia.
  apply (lookup_loop_found i e Hi); [|lia].
  intros j e' Hj Hs. apply (NoDup_lookup _ j i (ie_sha e) Hnd).
  - rewrite list_lookup_fmap, Hj. cbn. by rewrite Hs.
  - by rewrite list_lookup_fmap, Hi.
Qed.

Lemma layout_absent sha : oid sha -> (forall e, e ∈ es -> ie_sha e <> sha) ->
  bgit_pack_lookup_offset idx sha = Ret absent.
Proof using Hwf Htail40 Hn.
  intros Hoid Hne. rewrite (lookup_narrowed _ (hd 0 sha)) by done.
  pose proof (cnt_range es (hd 0 sha)). pose proof (cnt_range es (hd 0 sha - 1)).
  rewrite <- (Z2Nat.id (cnt es (hd 0 sha - 1))) at 2 by lia.
  apply lookup_loop_absent; [done|]. unfold len in *. lia.
Qed.
End Find.

(* ------------------------------------------------------------------ *)
(** ** Sorting and writing *)

Lemma ie_cmp_preorder : total_preorder bgit_pack_idx_entry_cmp.
Proof.
  unfold bgit_pack_idx_entry_cmp. split.
  - intros a b. pose proof (bcmp_antisym (ie_sha a) (ie_sha b)). lia.
  - intros a b c. apply bcmp_le_trans.
Qed.

Lemma heads_of_cmp a b : wf_ie a -> wf_ie b -> bgit_pack_idx_entry_cmp a b <= 0 ->
  hd 0 (ie_sha a) <= hd 0 (ie_sha b).
Proof.
  unfold bgit_pack_idx_entry_cmp. intros [[Ha _] _] [[Hb _] _].
  destruct (ie_sha a) as [|x s]; [done|]. destruct (ie_sha b) as [|y t]; [done|]. cbn.
  repeat case_if; lia.
Qed.

Lemma sorted_heads `{Qsort} ents : Forall wf_ie ents ->
  heads_sorted (qsort bgit_pack_idx_entry_cmp ents).
Proof.
  intros Hwf. assert (Hw : Forall wf_ie (qsort bgit_pack_idx_entry_cmp ents)) by (by rewrite qsort_perm).
  pose proof (qsort_sorted _ bgit_pack_idx_entry_cmp ents ie_cmp_preorder) as Hs. unfold heads_sorted.
  induction Hs as [|e es Hs IH He]; [constructor|]. inversion Hw as [|? ? We Wes]; subst.
  constructor; [by apply IH|]. rewrite Forall_forall in *. intros x Hx.
  apply heads_of_cmp; [done|by apply Wes|by apply He].
Qed.

Lemma idx_write_loop_spec fuel fd : forall data d i n w r w', (length (w_answers w) + 2 <= fuel)%nat ->
  0 <= fd -> w_fds w !! Z.to_N fd = Some (i, len d) ->
  inodes (w_fs w) !! i = Some n -> i_dir n = false -> i_data n = d ->
  idx_write_loop fuel fd data w = (r, w') ->
  exists k, appended fd i d data k w w' /\
    ((r = Ret true /\ (length data <= k)%nat) \/ r = Ret false).
Proof.
  induction fuel as [|fuel IH]; intros data d i n w r w' Hf Hfd0 Hfd Hi Hdir Hd H; [lia|].
  cbn [idx_write_loop] in H. case_if_in H.
  { injection H as <- <-. exists O. split; [by eapply appended_none|]. left.
    unfold len in *. split_and!; [done|lia]. }
  unfold ibind at 1 in H. destruct (sys_write fd data w) as [r1 w1] eqn:Hw.
  pose proof (write_script _ _ _ _ _ Hw) as (Ha & _ & _).
  eapply write_appended in Hw as (k & Hap & Hk & Hr1 & Hfull); [|done..].
  destruct (appended_ready _ _ _ _ _ _ _ Hap) as (Hfd1 & n1 & Hi1 & Hdir1 & Hd1).
  assert (Hgo : (length (w_answers w1) + 2 <= fuel)%nat -> idx_write_loop fuel fd (drop k data) w1 = (r, w') ->
    exists k, appended fd i d data k w w' /\ ((r = Ret true /\ (length data <= k)%nat) \/ r = Ret false)).
  { intros Hf2 H2. eapply IH in H2 as (k2 & Hap2 & Hr2); [|done..].
    exists (k + k2)%nat. split; [by eapply appended_trans|]. rewrite length_drop in Hr2.
    destruct Hr2 as [[-> ?] | ->]; [left; split; [done|lia]|by right]. }
  assert (Hcons : w_answers w <> [] -> (length (w_answers w1) + 2 <= fuel)%nat).
  { intros Hne. rewrite Ha. destruct (w_answers w); [done|]. simpl in *. lia. }
  destruct Hr1 as [[-> ->] | ->].
  - cbn -[idx_write_loop] in H. destruct (w_errno w1 =? EINTR).
    + apply Hgo; [|exact H]. apply Hcons. intros E. specialize (Hfull E).
      injection Hfull as Hfull. pose proof (len_nonneg data). lia.
    + injection H as <- <-. exists O. split; [done|by right].
  - rewrite (proj2 (Z.ltb_ge (Z.of_nat k) 0)) in H by lia. rewrite Nat2Z.id in H.
    destruct (decide (w_answers w = [])) as [Hnil|Hne]; [|by apply Hgo; auto].
    specialize (Hfull Hnil). injection Hfull as Hfull. unfold len in Hfull.
    destruct fuel as [|fuel']; [lia|]. rewrite drop_ge in H by lia. injection H as <- <-.
    exists k. split; [done|]. left. split; [done|lia].
Qed.

Lemma reported_only p data w m w1 : w_fs w1 = w_fs w -> w_log w1 = w_log w ->
  replaced p data w (Ret (-1)) (snd (builtin_error m w1)).
Proof.
  intros E1 E2. exists (-1). cbn. rewrite E1, E2. split_and!; auto. by exists [].
Qed.

Lemma install_file_spec m1 m2 m3 p data w r w' : fs_ok (w_fs w) ->
  install_file m1 m2 m3 p data w = (r, w') -> replaced p data w r w'.
Proof.
  intros Hok H. unfold install_file in H.
  unfold ibind at 1 in H. destruct (mkstemp (p ++ str ".tmp") w) as [r1 w1] eqn:Hm.
  apply mkstemp_cases in Hm as (z & tmp & -> & [(-> & E1 & E2 & _)|(s & -> & _ & Hc)]).
  { injection H as <- <-. by apply (reported_only _ _ _ m1). }
  pose proof (tmp_name p s) as Htmp. set (tmp := (p ++ str ".tmp") ++ s) in *.
  destruct (staged_create _ _ _ _ Hok Hc) as (i & fd & -> & Hs1 & Hfd1).
  rewrite (proj2 (Z.ltb_ge (Z.of_N fd) 0)) in H by lia.
  unfold ibind at 1 in H. destruct (sys_sync (Z.of_N fd) w1) as [r2 w2] eqn:Hsy.
  apply sync_cases in Hsy as (z2 & -> & _ & E2 & L2 & F2).
  pose proof (staged_same _ _ _ _ _ _ Hs1 E2 L2) as Hs2.
  unfold ibind at 1, get_world in H. unfold ibind at 1 in H.
  destruct (idx_write_loop (2 + length (w_answers w2)) (Z.of_N fd) data w2) as [r3 w3] eqn:Hw.
  destruct (sg_inode _ _ _ _ _ Hs2) as (n & Hi & Hdir & Hd).
  eapply (idx_write_loop_spec _ _ data [] i n) in Hw as (k & Hap & Hr3);
    [|lia|lia|by rewrite N2Z.id, F2|by rewrite Hi, lookup_insert_eq|done..].
  pose proof (staged_append _ _ _ _ _ _ _ _ _ Hs2 Hap) as Hs3. cbn [app] in Hs3.
  destruct Hr3 as [[-> Hk] | ->]; cbn [negb] in H.
  2:{ unfold ibind at 1, builtin_error in H. unfold ibind at 1 in H.
      match type of H with context [sys_close _ ?w0] =>
        destruct (sys_close (Z.of_N fd) w0) as [r4 w4] eqn:Hcl end.
      apply close_cases in Hcl as (z4 & -> & _ & E4 & L4 & _).
      eapply unlink_replaced; [done| |exact H]. by eapply staged_same. }
  rewrite take_ge in Hs3 by lia.
  unfold ibind at 1 in H. destruct (sys_sync (Z.of_N fd) w3) as [r4 w4] eqn:Hsy.
  apply sync_cases in Hsy as (z4 & -> & _ & E4 & L4 & _).
  unfold ibind at 1 in H. destruct (sys_close (Z.of_N fd) w4) as [r5 w5] eqn:Hcl.
  apply close_cases in Hcl as (z5 & -> & _ & E5 & L5 & _).
  assert (Hs5 : staged tmp i data w w5) by (eapply staged_same; [exact Hs3|congruence..]).
  unfold ibind at 1 in H. destruct (sys_rename tmp p w5) as [r6 w6] eqn:Hren.
  destruct (replaced_renamed _ _ _ _ _ _ _ _ Htmp Hs5 Hren) as [[-> [E6 L6]]|[-> Hrep]].
  - cbn [Z.ltb Z.compare] in H. unfold ibind at 1, builtin_error in H.
    eapply unlink_replaced; [exact Htmp| |exact H]. by eapply staged_same.
  - cbn [Z.ltb Z.compare] in H. injection H as <- <-. exact Hrep.
Qed.

Lemma ofs_loop_no_fault es : forall n, ofs_loop es n <> Fault.
Proof.
  induction es as [|e es IH]; intros n; cbn [ofs_loop]; [done|].
  repeat case_if; try done; (destruct (ofs_loop es _) as [[]| |] eqn:E; [done|done|by apply IH in E]).
Qed.

Lemma idx_bytes_no_fault `{Sha1dc} es pack_sha : idx_bytes es pack_sha <> Fault.
Proof.
  unfold idx_bytes. intros Eb. pose proof (ofs_loop_no_fault es 0).
  destruct (ofs_loop es 0) as [[t b]| |]; [|done..]. cbn [obind] in Eb.
  match type of Eb with context [bgit_sha1 ?d] =>
    pose proof (sha1_yields d); destruct (bgit_sha1 d) end; done.
Qed.

(** The writer's outcome: nothing written, or the bytes of the sorted entries
    in place of the file. *)
Lemma write_idx_spec `{Sha1dc} `{Qsort} p ents pack_sha w r w' : fs_ok (w_fs w) ->
  bgit_pack_write_idx_v2 p ents pack_sha w = (r, w') ->
  exists rc es idx, r = Ret (rc, es) /\ Permutation es ents /\ replaced p idx w (Ret rc) w' /\
    (rc = 0 -> es = qsort bgit_pack_idx_entry_cmp ents /\ len ents <= UINT32_MAX /\
       idx_bytes es pack_sha = Ret idx).
Proof.
  intros Hok H1. unfold bgit_pack_write_idx_v2 in H1.
  assert (Hq : Permutation (qsort bgit_pack_idx_entry_cmp ents) ents) by apply qsort_perm.
  assert (Hrep : forall m es, Permutation es ents ->
    (let! _ := builtin_error m in iret (-1, es)) w = (r, w') ->
    exists rc es idx, r = Ret (rc, es) /\ Permutation es ents /\ replaced p idx w (Ret rc) w' /\
    (rc = 0 -> es = qsort bgit_pack_idx_entry_cmp ents /\ len ents <= UINT32_MAX /\
       idx_bytes es pack_sha = Ret idx)).
  { intros m es Hp E. injection E as <- <-. exists (-1), es, []. split_and!; [done..|by apply (reported_only _ _ _ m)|done]. }
  case_if_in H1; [eapply Hrep; [|exact H1]; done|].
  set (es := qsort bgit_pack_idx_entry_cmp ents) in *.
  destruct (idx_bytes es pack_sha) as [idx|m|] eqn:Eb; [|eapply Hrep; [|exact H1]; done|by apply idx_bytes_no_fault in Eb].
  case_if_in H1; [eapply Hrep; [|exact H1]; done|].
  unfold ibind in H1. destruct (install_file _ _ _ p idx w) as [r1 w1] eqn:E.
  apply install_file_spec in E; [|done]. pose proof E as (rc & -> & _). injection H1 as <- <-.
  by exists rc, es, idx.
Qed.

(* ------------------------------------------------------------------ *)
(** ** What the CRC check accepts *)

(** Each entry, in the order of the offsets, has the CRC of the bytes from its
    offset to the next object or the pack's trailer. *)
Fixpoint crcs_match `{Crc32} (pack : list Z) (es : list bgit_pack_idx_entry) : Prop :=
  match es with
  | [] => True
  | e :: es' =>
      let end_ := match es' with e' :: _ => ie_off e' | [] => len pack - 20 end in
      ie_crc e = u32 (crc32 crc32_init (range pack (ie_off e) end_)) /\ crcs_match pack es'
  end.

Section Crcs.
Context `{HC : Crc32} (es : list bgit_pack_idx_entry) (tail pack : list Z).
Hypotheses (Hwf : Forall wf_ie es) (Htail : bytes tail) (Htail40 : len tail = 40)
  (Hn : len es < 2 ^ 32) (Hbig : len (bigs es) <= 2 ^ 31)
  (Hin : Forall (fun e => 12 <= ie_off e < len pack - 20) es).
#[local] Abbreviation idx := (idx_layout es tail).

(** The row [o] of the CRC check stands for the entry [e]. *)
Definition row_of (o : bgit_pack_crc_offset) (e : bgit_pack_idx_entry) : Prop :=
  exists i, es !! i = Some e /\ co_index o = Z.of_nat i /\ co_off o = ie_off e.

Lemma offsets_rows k : forall i, (i + k = length es)%nat -> exists offs,
  offsets_loop k idx (len pack) (1032 + len es * 24) (1032 + len es * 28) (len (bigs es) * 8) (Z.of_nat i)
    = Ret offs /\ Forall2 row_of offs (drop i es).
Proof using Hwf Htail Htail40 Hn Hbig Hin.
  induction k as [|k IH]; intros i Hi; cbn [offsets_loop].
  - exists []. split; [done|]. rewrite drop_ge by lia. constructor.
  - destruct (lookup_lt_is_Some_2 es i) as [e He]; [lia|].
    destruct (slots_lookup es 0 i e He) as (v & Hs & Hv).
    destruct (wf_lookup es Hwf i e He) as (_ & _ & Ho).
    assert (Hvr : 0 <= v < 2 ^ 32).
    { destruct Hv as [[? ->]|(j & ? & -> & Hj)]; [lia|]. pose proof (bigs_bound es j _ Hj). lia. }
    unfold bgit_pack_be32. rewrite layout_slot with (v := v) by done. cbn [obind]. cbn zeta. rewrite high_bit by done.
    assert (Hoff : (if negb (v <? 2 ^ 31) then
        if Z.land v 0x7FFFFFFF >? u64 (len (bigs es) * 8 / 8 - 1)
        then Fail "verify-idx: 64-bit offset index out of range"
        else bgit_pack_be64 idx (1032 + len es * 28 + Z.land v 0x7FFFFFFF * 8)
      else Ret v) = Ret (ie_off e)).
    { destruct Hv as [[Hlt ->]|(j & Hge & -> & Hj)].
      - by rewrite (proj2 (Z.ltb_lt _ _)) by lia.
      - rewrite (proj2 (Z.ltb_ge _ _)) by lia. cbn [negb]. cbn zeta.
        pose proof (bigs_bound es j _ Hj). rewrite Z.add_0_r, low_bits, Z.div_mul, u64_id by lia. if_false.
        by apply layout_big. }
    rewrite Hoff. cbn [obind].
    rewrite Forall_forall in Hin. pose proof (Hin e ltac:(by eapply list_elem_of_lookup_2)). if_false.
    destruct (IH (S i)) as (offs & E & HF); [lia|].
    replace (Z.of_nat i + 1) with (Z.of_nat (S i)) by lia. rewrite E. cbn [obind]. eexists.
    split; [done|]. rewrite (drop_S _ e i He). constructor; [|done]. by exists i.
Qed.

Lemma crcs_loop_exact es2 offs : Forall2 row_of offs es2 -> StronglySorted (fun a b => ie_off a < ie_off b) es2 ->
  Forall (fun e => 12 <= ie_off e < len pack - 20) es2 ->
  (crcs_loop idx pack (1032 + len es * 20) offs = Ret tt <-> crcs_match pack es2).
Proof using Hwf.
  induction 1 as [|o e offs es2 (i & Hi & Eix & Eoff) HF IH]; intros Hs Hr; cbn [crcs_loop crcs_match]; [done|].
  inversion Hs as [|? ? Hs' He]; inversion Hr as [|? ? Hre Hr']; subst. cbn zeta. rewrite Eoff.
  assert (Eend : match offs with o' :: _ => co_off o' | [] => len pack - 20 end =
    match es2 with e' :: _ => ie_off e' | [] => len pack - 20 end).
  { by destruct HF as [|? ? ? ? (? & _ & _ & ->) _]. }
  rewrite Eend. set (end_ := match es2 with [] => len pack - 20 | e' :: _ => ie_off e' end).
  assert (Hend : ie_off e < end_ <= len pack - 20).
  { unfold end_. destruct es2 as [|e' es2]; [lia|]. inversion He; inversion Hr'; subst. lia. }
  if_false. rewrite crc_loop_exact by (unfold len in *; lia). cbn [obind].
  unfold bgit_pack_be32. rewrite Eix, (layout_crc es tail Hwf i e Hi). cbn [obind].
  case_if.
  - split; [done|]. intros [E _]. congruence.
  - rewrite IH by done. split; [|by intros [_ ?]]. intros. split; [congruence|done].
Qed.
End Crcs.

Lemma crc_cmp_preorder : total_preorder bgit_pack_crc_offset_cmp.
Proof.
  unfold bgit_pack_crc_offset_cmp. split; intros; repeat case_if; try lia;
    repeat case_if_in H; repeat case_if_in H0; lia.
Qed.

Lemma strict_sorted_inj {A} (key : A -> Z) l : StronglySorted (fun a b => key a < key b) l ->
  forall a b, a ∈ l -> b ∈ l -> key a = key b -> a = b.
Proof.
  induction 1 as [|x l _ IH Hx]; intros a b Ha Hb E; [by apply not_elem_of_nil in Ha|].
  rewrite Forall_forall in Hx. apply elem_of_cons in Ha as [->|Ha], Hb as [->|Hb]; try done.
  - pose proof (Hx b Hb). lia.
  - pose proof (Hx a Ha). lia.
  - by apply IH.
Qed.

(** Rows sorted by offset stand for the entries sorted by offset. *)
Lemma sorted_rows `{Qsort} es offs es2 : Forall2 (row_of es) offs es ->
  Permutation es2 es -> StronglySorted (fun a b => ie_off a < ie_off b) es2 ->
  Forall2 (row_of es) (qsort bgit_pack_crc_offset_cmp offs) es2.
Proof.
  intros HF Hp Hs.
  destruct (Permutation_Forall2 (Permutation_sym (qsort_perm _ bgit_pack_crc_offset_cmp offs)) HF)
    as (es' & Hp' & HF').
  replace es2 with es'; [done|]. symmetry.
  apply (sorted_unique (fun a b => ie_off a - ie_off b)); [| | |by rewrite Hp].
  - intros a b ?? Ha Hb. eapply (strict_sorted_inj ie_off); [done..|lia].
  - eapply StronglySorted_weaken; [|exact Hs]. cbn. lia.
  - pose proof (qsort_sorted _ _ offs crc_cmp_preorder) as Hso. clear -HF' Hso.
    induction HF' as [|o e offs' es' (i & _ & _ & Eo) HF' IH]; [constructor|].
    inversion Hso as [|? ? Hso' Ho]; subst. constructor; [by apply IH|].
    clear -HF' Ho Eo. induction HF' as [|o' e' offs' es' (j & _ & _ & Eo') _ IH]; [constructor|].
    inversion Ho as [|? ? Hle Ho']; subst. constructor; [|by apply IH].
    unfold bgit_pack_crc_offset_cmp in Hle. repeat case_if_in Hle; lia.
Qed.

(* ------------------------------------------------------------------ *)
(** ** Properties *)

(** [C10]  Writing a pack index.  For entries with distinct 20-byte ids, fewer
    than 2^30 of them, the writer either leaves the file at the path as it was
    and returns -1, or puts a complete index there at once and returns 0; that
    index passes the structural check with the pack's id, and looking an id up
    in it gives the entry's offset when there is such an entry and "not found"
    when there is none.  This holds for every kernel script and every [qsort]. *)
Theorem idx_write_exact `{Sha1dc} `{Qsort} (p : path) ents pack_sha w r w' :
  fs_ok (w_fs w) -> Forall wf_ie ents -> NoDup (map ie_sha ents) -> len ents < 2 ^ 30 -> oid pack_sha ->
  bgit_pack_write_idx_v2 p ents pack_sha w = (r, w') ->
  exists rc es idx, r = Ret (rc, es) /\ Permutation es ents /\ replaced p idx w (Ret rc) w' /\
    (rc = 0 ->
      content (w_fs w') p = Some idx /\
      bgit_pack_verify_idx idx (Some pack_sha) = Ret tt /\
      (forall e, e ∈ ents -> bgit_pack_lookup_offset idx (ie_sha e) = Ret (ie_off e)) /\
      (forall sha, oid sha -> (forall e, e ∈ ents -> ie_sha e <> sha) ->
         bgit_pack_lookup_offset idx sha = Ret absent)).
Proof.
  intros Hok Hwf Hnd Hn Hps H1.
  destruct (write_idx_spec _ _ _ _ _ _ Hok H1) as (rc & es & idx & -> & Hp & Hrep & Hz).
  exists rc, es, idx. split_and!; try done. intros E0. destruct (Hz E0) as (Ees & _ & Hb).
  assert (Hwf' : Forall wf_ie es) by (by rewrite Hp). assert (Hh : heads_sorted es) by (subst es; by apply sorted_heads).
  assert (Hn' : len es < 2 ^ 30) by (unfold len in *; by rewrite Hp).
  destruct (idx_bytes_layout es pack_sha idx Hwf' Hh Hps Hb) as (isha & El & [Ls Bs] & _ & Hbig).
  destruct Hps as [Lp Bp].
  assert (Htail : bytes (pack_sha ++ isha)) by (by apply Forall_app).
  assert (Htail40 : len (pack_sha ++ isha) = 40) by (rewrite len_app; lia).
  split_and!.
  - destruct Hrep as (rc' & [= <-] & [[_ ?]|[? _]] & _); [done|lia].
  - by eapply written_verifies.
  - intros e He. rewrite <- Hp in He. apply list_elem_of_lookup_1 in He as [i Hi]. rewrite El.
    eapply layout_find; try done; [lia|]. by rewrite Hp.
  - intros sha Hsha Hne. rewrite El. apply layout_absent; try done; [lia|].
    intros e He. apply Hne. by rewrite <- Hp.
Qed.

(**  No bytes offered as a pack index make its readers load outside them:
    the search and the structural check never fault, the search answers with a
    64-bit value, and once the structural check has accepted an index of fewer
    than 2^30 objects the CRC check reads neither the index nor the pack out of
    bounds, whatever the pack. *)
Theorem idx_readers_safe `{Sha1dc} `{Crc32} `{Qsort} (idx : list Z) : bytes idx ->
  (forall sha, oid sha -> exists off, bgit_pack_lookup_offset idx sha = Ret off /\ 0 <= off <= UINT64_MAX) /\
  (forall expected, safe (bgit_pack_verify_idx idx expected)) /\
  (forall expected pack n, bytes pack -> bgit_pack_verify_idx idx expected = Ret tt ->
     bgit_pack_be32 idx (8 + 255 * 4) = Ret n -> n < 2 ^ 30 ->
     safe (bgit_pack_verify_idx_crc32 idx pack)).
Proof.
  intros Hb. split_and!.
  - intros sha Hs. pose proof (lookup_yields idx sha Hb Hs) as Hy.
    assert (Hnf : forall m, bgit_pack_lookup_offset idx sha <> Fail m) by apply lookup_no_fail.
    destruct (bgit_pack_lookup_offset idx sha) as [off|m|]; [|by destruct (Hnf m)|done].
    exists off. split; [done|]. cbn in Hy. unfold UINT64_MAX. lia.
  - intros expected. by eapply yields_safe, verify_idx_yields.
  - intros expected pack n Hpb Hv Hn Hlt. by eapply yields_safe, verify_crc_yields.
Qed.

(**  The CRC check is exact.  On an index the writer laid out for objects
    that lie inside the pack at distinct offsets, it accepts precisely when the
    stored CRC of every object is the CRC-32 of the pack's bytes from its offset
    to the next object's, or to the trailer for the last. *)
Theorem crc_check_exact `{Sha1dc} `{Crc32} `{Qsort} ents pack_sha idx pack ver es2 :
  Forall wf_ie ents -> len ents < 2 ^ 32 -> oid pack_sha ->
  idx_bytes (qsort bgit_pack_idx_entry_cmp ents) pack_sha = Ret idx ->
  32 <= len pack -> take 4 pack = str "PACK" -> bgit_pack_be32 pack 4 = Ret ver -> ver = 2 \/ ver = 3 ->
  bgit_pack_be32 pack 8 = Ret (len ents) ->
  Forall (fun e => 12 <= ie_off e < len pack - 20) ents ->
  Permutation es2 ents -> StronglySorted (fun a b => ie_off a < ie_off b) es2 ->
  (bgit_pack_verify_idx_crc32 idx pack = Ret tt <-> crcs_match pack es2).
Proof.
  intros Hwf Hn Hps Hb Hpl Hmagic Hver Hv Hcount Hin Hp Hs.
  set (es := qsort bgit_pack_idx_entry_cmp ents) in *.
  assert (Hpe : Permutation es ents) by apply qsort_perm.
  assert (Hwf' : Forall wf_ie es) by (by rewrite Hpe). assert (Hh : heads_sorted es) by (by apply sorted_heads).
  assert (Hn' : len es = len ents) by (unfold len; by rewrite Hpe).
  destruct (idx_bytes_layout es pack_sha idx Hwf' Hh Hps Hb) as (isha & El & [Ls Bs] & _ & Hbig).
  destruct Hps as [Lp Bp].
  assert (Htail : bytes (pack_sha ++ isha)) by (by apply Forall_app).
  assert (Htail40 : len (pack_sha ++ isha) = 40) by (rewrite len_app; lia).
  pose proof (layout_len es (pack_sha ++ isha) Hwf') as Hlen. pose proof (len_nonneg es).
  pose proof (len_nonneg (bigs es)).
  unfold bgit_pack_verify_idx_crc32. if_false. rewrite rdn_ok by lia. cbn [obind].
  change (drop (Z.to_nat 0) pack) with pack. change (Z.to_nat 4) with 4%nat. rewrite Hmagic, beq_refl. cbn [negb obind].
  rewrite Hver. cbn [obind]. replace (negb (ver =? 2) && negb (ver =? 3)) with false by (by destruct Hv; subst).
  rewrite El at 1. unfold bgit_pack_be32 at 1. rewrite layout_fan, cnt_all by (done || lia). cbn [obind].
  rewrite Hcount. cbn [obind]. rewrite Hn', Z.eqb_refl. cbn [negb]. cbn zeta. rewrite <- Hn'.
  rewrite <- El in Hlen. rewrite (u64_id (len idx - 40)), u64_id by lia.
  replace (len idx - 40 - (1032 + len es * 28)) with (len (bigs es) * 8) by lia.
  destruct (offsets_rows es (pack_sha ++ isha) pack Hwf' Htail Htail40 ltac:(lia) Hbig ltac:(by rewrite Hpe)
    (length es) 0 eq_refl) as (offs & E & HF).
  rewrite El. change (Z.of_nat 0) with 0 in E. replace (Z.to_nat (len es)) with (length es) by (unfold len; lia).
  rewrite E. cbn [obind]. change (drop 0 es) with es in HF. apply crcs_loop_exact; try done.
  - apply sorted_rows; try done. by rewrite Hp, Hpe.
  - by rewrite Hp.
Qed.

(* ------------------------------------------------------------------ *)
(** ** Witnesses *)

(** The CRC-32 of RFC 1952, one bit at a time, meets the interface. *)
Definition crc_bit (c : Z) : Z :=
  if Z.odd c then Z.lxor (Z.shiftr c 1) 0xEDB88320 else Z.shiftr c 1.
Definition crc_byte (c b : Z) : Z := Nat.iter 8 crc_bit (Z.lxor c b).
Definition crc_run (c : Z) (l : list Z) : Z := Z.lxor (foldl crc_byte (Z.lxor c 0xFFFFFFFF) l) 0xFFFFFFFF.

Lemma crc_run_app c a b : crc_run (crc_run c a) b = crc_run c (a ++ b).
Proof.
  unfold crc_run. rewrite foldl_app. do 2 f_equal.
  by rewrite Z.lxor_assoc, Z.lxor_nilpotent, Z.lxor_0_r.
Qed.

#[export] Instance plain_crc32 : Crc32 := {| crc32 := crc_run; crc32_app := crc_run_app; crc32_init := 0 |}.

(** The check value of the CRC. *)
Lemma crc_check_value : bgit_pack_crc32 (str "123456789") = Ret 0xCBF43926.
Proof. vm_compute. reflexivity. Qed.

Definition demo_pack : list Z :=
  str "PACK" ++ bgit_put_be32 2 ++ bgit_put_be32 2 ++ [0x31; 7; 7] ++ [0x32; 8] ++ replicate 20 0.
Definition demo_ents : list bgit_pack_idx_entry :=
  [{| ie_sha := demo_oid; ie_crc := crc_run 0 [0x31; 7; 7]; ie_off := 12 |};
   {| ie_sha := replicate 20 3; ie_crc := crc_run 0 [0x32; 8]; ie_off := 15 |}].
Definition big_ents : list bgit_pack_idx_entry :=
  demo_ents ++ [{| ie_sha := replicate 20 170; ie_crc := 9; ie_off := 2 ^ 33 + 5 |}].

Lemma big_ents_wf : Forall wf_ie big_ents.
Proof.
  repeat constructor; cbn [ie_sha ie_crc ie_off]; try solve_bytes; try (vm_compute; congruence); try lia.
Qed.

Lemma demo_idx_write : exists es idx w',
  bgit_pack_write_idx_v2 (str "p.idx") big_ents demo_oid demo_world = (Ret (0, es), w') /\
  content (w_fs w') (str "p.idx") = Some idx.
Proof. eexists _, _, _. split; vm_compute; reflexivity. Qed.

Lemma idx_write_exact_witness : exists es idx w',
  bgit_pack_write_idx_v2 (str "p.idx") big_ents demo_oid demo_world = (Ret (0, es), w') /\
  content (w_fs w') (str "p.idx") = Some idx /\
  bgit_pack_lookup_offset idx (replicate 20 170) = Ret (2 ^ 33 + 5) /\
  bgit_pack_lookup_offset idx (replicate 20 5) = Ret absent.
Proof.
  destruct demo_idx_write as (es & idx & w' & E & Hc). exists es, idx, w'. split; [exact E|]. split; [exact Hc|].
  destruct (idx_write_exact (str "p.idx") big_ents demo_oid demo_world _ w' demo_fs_ok big_ents_wf
    ltac:(vm_compute; apply NoDup_ListNoDup; repeat constructor; cbn; intuition discriminate)
    ltac:(vm_compute; reflexivity) demo_oid_ok E) as (rc & es' & idx' & Er & _ & _ & H).
  injection Er as <- <-. destruct (H eq_refl) as (Hc' & _ & Hf & Ha).
  replace idx' with idx in * by congruence. split.
  - apply (Hf {| ie_sha := replicate 20 170; ie_crc := 9; ie_off := 2 ^ 33 + 5 |}).
    do 2 right. left.
  - apply Ha; [split; [done|solve_bytes]|].
    intros e He. apply list_elem_of_In in He. cbn in He. destruct He as [<-|[<-|[<-|[]]]]; discriminate.
Defined.

Lemma idx_readers_safe_witness :
  bgit_pack_lookup_offset (replicate 1100 255) (replicate 20 1) = Ret absent /\
  safe (bgit_pack_verify_idx (replicate 1100 255) None).
Proof.
  assert (Hb : bytes (replicate 1100 255)) by solve_bytes.
  destruct (idx_readers_safe (replicate 1100 255) Hb) as (H1 & H2 & _).
  destruct (H1 (replicate 20 1)) as (off & E & _); [split; [done|solve_bytes]|].
  split; [vm_compute; reflexivity|apply H2].
Defined.

Definition demo_idx : list Z :=
  match idx_bytes (qsort bgit_pack_idx_entry_cmp demo_ents) demo_oid with Ret i => i | _ => [] end.

Lemma demo_idx_eq : idx_bytes (qsort bgit_pack_idx_entry_cmp demo_ents) demo_oid = Ret demo_idx.
Proof. vm_compute. reflexivity. Qed.

Lemma crc_check_exact_witness : bgit_pack_verify_idx_crc32 demo_idx demo_pack = Ret tt.
Proof.
  apply (crc_check_exact demo_ents demo_oid demo_idx demo_pack 2 demo_ents).
  - repeat constructor; cbn [ie_sha ie_crc ie_off]; try solve_bytes; try (vm_compute; congruence); try lia.
  - vm_compute. reflexivity.
  - apply demo_oid_ok.
  - exact demo_idx_eq.
  - vm_compute. congruence.
  - vm_compute. reflexivity.
  - vm_compute. reflexivity.
  - by left.
  - vm_compute. reflexivity.
  - repeat constructor; vm_compute; congruence.
  - reflexivity.
  - repeat constructor.
  - repeat split; vm_compute; reflexivity.
Defined.
