(* ===== verification/Zlib.v ===== *)
(** * Inflating (loadables/_git/pack.c, lines 288-347)

    zlib is the system's library.  What the sources rely on is a class: a
    stream decoder that consumes input and produces output within the room it
    is given, says so when it has reached the end of a complete stream, and,
    given the whole of a stream, goes on making progress until it has.  The
    theorems show that [bgit_pack_inflate] always ends, returns exactly the data
    of the stream at the start of its input and how long that stream was, and
    fails when there is none. *)

From S2P Require Import Prelude.
#[local] Open Scope Z_scope.

(* ------------------------------------------------------------------ *)
(** ** zlib *)

Inductive z_rc := Z_OK | Z_STREAM_END | Z_BUF_ERROR | Z_DATA_ERROR.
Inductive z_flush := Z_NO_FLUSH | Z_FINISH.

#[export] Instance z_rc_eq_dec : EqDecision z_rc.
Proof. solve_decision. Defined.

(** [inflate flush s input avail_out] is the return code, how many bytes of the
    input were consumed, the bytes written and the new stream state;
    [deflated c d] says that [c] is a complete zlib stream of the data [d];
    [inflating s c p] that [s] has consumed [c] and produced [p].  Every code
    other than the first three is [Z_DATA_ERROR]. *)
Class Zlib := {
  z_stream : Type;
  inflateInit : z_stream;
  inflate : z_flush -> z_stream -> list Z -> Z -> z_rc * Z * list Z * z_stream;
  deflated : list Z -> list Z -> Prop;
  inflating : z_stream -> list Z -> list Z -> Prop;
  inflating_init : inflating inflateInit [] [];
  (* counts stay within what was offered, and the end code means the end *)
  inflate_step : forall fl s c p input avail rc k out s', inflating s c p -> bytes input -> 0 <= avail ->
    inflate fl s input avail = (rc, k, out, s') ->
    0 <= k <= len input /\ len out <= avail /\ bytes out /\
    inflating s' (c ++ take (Z.to_nat k) input) (p ++ out) /\
    (rc = Z_STREAM_END -> deflated (c ++ take (Z.to_nat k) input) (p ++ out));
  (* [Z_OK] means that something was read or written *)
  inflate_progress : forall fl s input avail k out s', inflate fl s input avail = (Z_OK, k, out, s') -> 0 < k \/ out <> [];
  (* and, unless the rest was asked for at once, [Z_BUF_ERROR] that nothing was *)
  inflate_buf_error : forall s input avail k out s', inflate Z_NO_FLUSH s input avail = (Z_BUF_ERROR, k, out, s') -> out = [];
  (* deflate cannot turn one byte into more than 1032 *)
  inflate_ratio : forall s c p, inflating s c p -> len p <= 1032 * len c;
  (* with the rest of a stream in hand, no error: the end when there is room
     for it, else some output and more of the same stream *)
  inflate_complete : forall fl s c p rest todo post avail rc k out s', inflating s c p ->
    deflated (c ++ rest) (p ++ todo) -> 0 < avail ->
    inflate fl s (rest ++ post) avail = (rc, k, out, s') ->
    rc = Z_STREAM_END \/
    (len todo >= avail /\ rc <> Z_DATA_ERROR /\ out <> [] /\
     exists rest' todo', rest = take (Z.to_nat k) (rest ++ post) ++ rest' /\ todo = out ++ todo');
  (* streams end themselves and mean one thing *)
  deflated_prefix_free : forall a b d d', deflated a d -> deflated (a ++ b) d' -> b = [] /\ d' = d;
  deflated_ratio : forall a d, deflated a d -> len d <= 1032 * len a;
  deflated_nonempty : forall d, ~ deflated [] d;
  deflated_bytes : forall a d, deflated a d -> bytes a /\ bytes d }.

(* ------------------------------------------------------------------ *)
(** ** The loop *)

Definition uint_cap (n : Z) : Z := if n >? UINT_MAX then UINT_MAX else n.

Fixpoint inflate_loop `{Zlib} (fuel : nat) (src : list Z) (s : z_stream) (consumed : Z)
    (buf : list Z) (cap : Z) : outcome (list Z * Z) :=
  match fuel with
  | O => Fault
  | S fuel' =>
      if (len buf =? cap) && (cap >? (SIZE_MAX - 4096) / 2) then failed
      else
        let cap := if len buf =? cap then cap * 2 + 4096 else cap in
        let avail_in := uint_cap (len src - consumed) in
        let avail_out := uint_cap (cap - len buf) in
        let* input := rdn src consumed avail_in in
        let '(rc, read_count, out, s) := inflate Z_FINISH s input avail_out in
        let write_count := len out in
        if bool_decide (rc = Z_DATA_ERROR)
           || (negb (bool_decide (rc = Z_STREAM_END)) && (read_count =? 0) && (write_count =? 0))
        then failed
        else if bool_decide (rc = Z_STREAM_END) then Ret (buf ++ out, consumed + read_count)
        else inflate_loop fuel' src s (consumed + read_count) (buf ++ out) cap
  end.

(** The first allocation: what the header claims, within what the input could
    hold. *)
Definition inflate_cap (srcn expected : Z) : Z :=
  let ceiling := if srcn >? (SIZE_MAX - 64) / 1032 then SIZE_MAX - 64 else srcn * 1032 + 64 in
  let cap := if expected <=? SIZE_MAX - 64 then expected + 64 else expected in
  let cap := if cap >? ceiling then ceiling else cap in
  if cap <? 64 then 64 else cap.

(** The data and the count of input bytes used.  Each turn of the loop reads or
    writes at least a byte, and at most 1032 are written per byte read. *)
Definition bgit_pack_inflate `{Zlib} (src : list Z) (expected : Z) : outcome (list Z * Z) :=
  inflate_loop (S (Z.to_nat (1033 * len src))) src inflateInit 0 [] (inflate_cap (len src) expected).

(* ------------------------------------------------------------------ *)
(** ** It ends, and returns the stream's data *)

Lemma uint_cap_range n : 0 <= n -> 0 <= uint_cap n <= n /\ (0 < n -> 0 < uint_cap n).
Proof. unfold uint_cap, UINT_MAX. intros. case_if; lia. Qed.

Section Inflate.
Context `{Zlib}.

(** What a successful inflation means: the input starts with a complete stream
    of the data, [used] bytes long. *)
Definition stream_at (src data : list Z) (used : Z) : Prop :=
  0 <= used <= len src /\ deflated (take (Z.to_nat used) src) data.

Lemma stream_at_unique src d1 u1 d2 u2 : stream_at src d1 u1 -> stream_at src d2 u2 ->
  d1 = d2 /\ u1 = u2.
Proof.
  assert (Hle : forall d1 u1 d2 u2, stream_at src d1 u1 -> stream_at src d2 u2 -> u1 <= u2 ->
    d1 = d2 /\ u1 = u2).
  { clear. intros d1 u1 d2 u2 [R1 D1] [R2 D2] Hu.
    replace (take (Z.to_nat u2) src) with (take (Z.to_nat u1) src ++
      take (Z.to_nat (u2 - u1)) (drop (Z.to_nat u1) src)) in D2.
    - destruct (deflated_prefix_free _ _ _ _ D1 D2) as [E ->]. split; [done|].
      apply (f_equal len) in E. rewrite len_take, len_drop in E; change (len (@nil Z)) with 0 in E. lia.
    - rewrite take_take_drop. f_equal. lia. }
  intros H1 H2. destruct (Z.le_ge_cases u1 u2); [by apply Hle|].
  destruct (Hle d2 u2 d1 u1); auto.
Qed.

(** The bytes offered to a call are the input from where the last one stopped. *)
Lemma offered (src : list Z) consumed k : 0 <= consumed -> 0 <= k -> consumed + k <= len src ->
  take (Z.to_nat consumed) src ++ take (Z.to_nat k) (drop (Z.to_nat consumed) src) =
  take (Z.to_nat (consumed + k)) src.
Proof. intros. rewrite take_take_drop. f_equal. lia. Qed.

Lemma inflate_loop_yields fuel src : bytes src -> forall s consumed buf cap,
  inflating s (take (Z.to_nat consumed) src) buf -> bytes buf -> 0 <= consumed <= len src -> len buf <= cap ->
  (len src - consumed) + (1032 * len src - len buf) < Z.of_nat fuel ->
  yields (fun r => stream_at src (fst r) (snd r) /\ bytes (fst r)) (inflate_loop fuel src s consumed buf cap).
Proof.
  intros Hb. induction fuel as [|fuel IH]; intros s consumed buf cap Hs Hbuf Hc Hcap Hf.
  { apply inflate_ratio in Hs. rewrite len_take in Hs. lia. }
  cbn [inflate_loop]. case_if; [done|]. cbn zeta.
  set (cap' := if len buf =? cap then cap * 2 + 4096 else cap).
  assert (Hcap' : len buf <= cap') by (unfold cap'; pose proof (len_nonneg buf); case_if; lia).
  destruct (uint_cap_range (len src - consumed)) as [Hin _]; [lia|].
  destruct (uint_cap_range (cap' - len buf)) as [Hout _]; [lia|].
  rewrite rdn_ok by lia. cbn [obind]. set (input := take _ (drop _ src)).
  destruct (inflate Z_FINISH s input (uint_cap (cap' - len buf))) as [[[rc k] out] s'] eqn:E.
  assert (Hlin : len input = uint_cap (len src - consumed)) by (unfold input; rewrite len_take, len_drop; lia).
  eapply inflate_step in E as (Hk & Ho & Hbo & Hs' & Hend);
    [|exact Hs|by apply Forall_take, Forall_drop|lia].
  assert (Etake : take (Z.to_nat consumed) src ++ take (Z.to_nat k) input = take (Z.to_nat (consumed + k)) src).
  { unfold input. rewrite take_take, Nat.min_l by lia. apply offered; lia. }
  rewrite Etake in Hs', Hend.
  assert (Hbb : bytes (buf ++ out)) by (by apply Forall_app).
  destruct (_ || _) eqn:Hstop; [done|]. apply orb_false_iff in Hstop as [_ Hstop].
  pose proof (len_nonneg out). case_bool_decide as Hrc.
  - cbn. split; [split; [lia|]|done]. by apply Hend.
  - apply IH; try done; try lia; rewrite len_app; [lia|]. cbn in Hstop.
    destruct (Z.eqb_spec k 0); destruct (Z.eqb_spec (len out) 0); try discriminate; lia.
Qed.

Lemma inflate_cap_range srcn expected : 0 <= srcn -> 64 <= inflate_cap srcn expected.
Proof. intros. unfold inflate_cap. repeat case_if; lia. Qed.

Lemma inflate_yields src expected : bytes src ->
  yields (fun r => stream_at src (fst r) (snd r) /\ bytes (fst r)) (bgit_pack_inflate src expected).
Proof.
  intros Hb. apply inflate_loop_yields; try done.
  - apply inflating_init.
  - constructor.
  - pose proof (len_nonneg src). lia.
  - pose proof (inflate_cap_range (len src) expected (len_nonneg src)). change (len (@nil Z)) with 0. lia.
  - change (len (@nil Z)) with 0. pose proof (len_nonneg src). lia.
Qed.

(** With a whole stream at the start of the input the loop reaches its end. *)
Lemma inflate_loop_finds fuel src data : bytes src -> forall s consumed buf cap rest todo post,
  src = take (Z.to_nat consumed) src ++ rest ++ post ->
  inflating s (take (Z.to_nat consumed) src) buf -> 0 <= consumed <= len src -> len buf <= cap ->
  deflated (take (Z.to_nat consumed) src ++ rest) (buf ++ todo) -> data = buf ++ todo ->
  len src <= UINT_MAX -> len data <= (SIZE_MAX - 4096) / 2 ->
  (len src - consumed) + (1032 * len src - len buf) < Z.of_nat fuel ->
  exists r, inflate_loop fuel src s consumed buf cap = Ret r.
Proof.
  intros Hb. induction fuel as [|fuel IH]; intros s consumed buf cap rest todo post Hsrc Hs Hc Hcap Hd -> Hmax Hsz Hf.
  { apply inflate_ratio in Hs. rewrite len_take in Hs. lia. }
  cbn [inflate_loop]. rewrite len_app in Hsz. pose proof (len_nonneg todo). pose proof (len_nonneg buf).
  replace ((len buf =? cap) && (cap >? (SIZE_MAX - 4096) / 2)) with false
    by (symmetry; apply andb_false_iff; destruct (Z.eqb_spec (len buf) cap); [right|by left]; rewrite Z.gtb_ltb; apply Z.ltb_ge; lia).
  cbn zeta. set (cap' := if len buf =? cap then cap * 2 + 4096 else cap).
  assert (Hcap' : len buf < cap') by (unfold cap'; case_if; lia).
  destruct (uint_cap_range (cap' - len buf)) as [Hout Hpos]; [lia|]. specialize (Hpos ltac:(lia)).
  replace (uint_cap (len src - consumed)) with (len src - consumed) by (unfold uint_cap; case_if; lia).
  rewrite rdn_ok by lia. cbn [obind].
  assert (Ein : take (Z.to_nat (len src - consumed)) (drop (Z.to_nat consumed) src) = rest ++ post).
  { rewrite take_ge by (rewrite length_drop; unfold len in *; lia).
    apply (app_inv_head (take (Z.to_nat consumed) src)).
    transitivity src; [apply take_drop|exact Hsrc]. }
  rewrite Ein.
  destruct (inflate Z_FINISH s (rest ++ post) (uint_cap (cap' - len buf))) as [[[rc k] out] s'] eqn:E.
  pose proof (inflate_complete _ _ _ _ _ _ _ _ _ _ _ _ Hs Hd Hpos E) as Hprog.
  eapply inflate_step in E as (Hk & Ho & Hbo & Hs' & Hend);
    [|exact Hs|rewrite <- Ein; by apply Forall_take, Forall_drop|lia].
  destruct (decide (rc = Z_STREAM_END)) as [->|Hrc]; [cbn; eauto|].
  destruct Hprog as [|(_ & Hne & Hout' & rest' & todo' & Hr & Ht)]; [done|].
  rewrite !bool_decide_eq_false_2 by done. cbn [negb andb orb].
  assert (0 < len out) by (destruct out; [done|]; rewrite len_cons; pose proof (len_nonneg out); lia).
  replace ((k =? 0) && (len out =? 0)) with false by (symmetry; apply andb_false_iff; right; apply Z.eqb_neq; lia).
  assert (Hlen : len src - consumed = len (rest ++ post)).
  { apply (f_equal len) in Hsrc. rewrite len_app, len_take in Hsrc. lia. }
  assert (Etake : take (Z.to_nat consumed) src ++ take (Z.to_nat k) (rest ++ post) = take (Z.to_nat (consumed + k)) src).
  { rewrite <- (offered src consumed k) by lia. f_equal. rewrite <- Ein, take_take. f_equal. lia. }
  rewrite Etake in Hs'. eapply (IH _ _ _ _ rest' todo' post); try done; try lia.
  - rewrite <- Etake, <- app_assoc, (app_assoc (take (Z.to_nat k) _)), <- Hr. done.
  - rewrite len_app. lia.
  - rewrite <- Etake, <- !app_assoc, <- Hr, <- Ht. done.
  - by rewrite <- app_assoc, Ht.
  - rewrite len_app, Ht, len_app in *. lia.
  - rewrite len_app. lia.
Qed.

Lemma stream_at_ratio src data used : stream_at src data used -> len data <= 1032 * len src.
Proof. intros [Hu Hd]. apply deflated_ratio in Hd. rewrite len_take in Hd. lia. Qed.

(** What inflating a buffer gives, whatever size the caller expects. *)
Lemma inflate_stream src expected data used : bytes src -> stream_at src data used ->
  len src <= UINT_MAX -> bgit_pack_inflate src expected = Ret (data, used).
Proof.
  intros Hb Hst Hmax. pose proof (stream_at_ratio src data used Hst) as Hr.
  assert (Hsz : len data <= (SIZE_MAX - 4096) / 2).
  { change ((SIZE_MAX - 4096) / 2) with (2 ^ 63 - 2049). unfold UINT_MAX in Hmax. lia. }
  pose proof (inflate_yields src expected Hb) as Hy.
  destruct Hst as [Hu Hd].
  destruct (inflate_loop_finds (S (Z.to_nat (1033 * len src))) src data Hb inflateInit 0 [] (inflate_cap (len src) expected)
    (take (Z.to_nat used) src) data (drop (Z.to_nat used) src)) as [[d u] E]; try done.
  - cbn. by rewrite take_drop.
  - apply inflating_init.
  - pose proof (len_nonneg src). lia.
  - pose proof (inflate_cap_range (len src) expected (len_nonneg src)). change (len (@nil Z)) with 0. lia.
  - change (len (@nil Z)) with 0. pose proof (len_nonneg src). lia.
  - unfold bgit_pack_inflate in *. rewrite E in *. cbn in Hy. destruct Hy as [Hy _].
    destruct (stream_at_unique src d u data used) as [-> ->]; [done|by split|done].
Qed.
End Inflate.

(* ------------------------------------------------------------------ *)
(** ** A decoder that meets the interface

    Streams of one stored block: its length in one byte, then its bytes. *)

Module Stored.
Definition state := option Z.

Definition inflate (_ : z_flush) (s : state) (input : list Z) (avail : Z) : z_rc * Z * list Z * state :=
  let '(hdr, body, s) := match s, input with
    | None, n :: body => (1, body, Some n)
    | _, _ => (0, input, s)
    end in
  match s with
  | None => (Z_BUF_ERROR, 0, [], None)
  | Some n =>
      let out := take (Z.to_nat (Z.min n avail)) body in
      let left := n - len out in
      (if left =? 0 then Z_STREAM_END else if hdr + len out =? 0 then Z_BUF_ERROR else Z_OK,
       hdr + len out, out, Some left)
  end.

Definition deflated (c d : list Z) : Prop := c = len d :: d /\ bytes c.

Definition inflating (s : state) (c p : list Z) : Prop :=
  match s with
  | None => c = [] /\ p = []
  | Some n => c = (len p + n) :: p /\ 0 <= n /\ bytes c
  end.

Lemma take_len_take (m : nat) (l : list Z) : take (length (take m l)) l = take m l.
Proof. by rewrite length_take, take_min_length. Qed.

Lemma step fl s c p input avail rc k out s' : inflating s c p -> bytes input -> 0 <= avail ->
  inflate fl s input avail = (rc, k, out, s') ->
  0 <= k <= len input /\ len out <= avail /\ bytes out /\
  inflating s' (c ++ take (Z.to_nat k) input) (p ++ out) /\
  (rc = Z_STREAM_END -> deflated (c ++ take (Z.to_nat k) input) (p ++ out)).
Proof.
  assert (Hgo : forall (hdr n : Z) c0 pre body p avail, c0 ++ pre = (len p + n) :: p -> 0 <= n -> bytes (c0 ++ pre) -> len pre = hdr ->
    bytes body -> 0 <= avail ->
    let out := take (Z.to_nat (Z.min n avail)) body in let left := n - len out in
    0 <= hdr + len out <= len (pre ++ body) /\ len out <= avail /\ bytes out /\
    inflating (Some left) (c0 ++ take (Z.to_nat (hdr + len out)) (pre ++ body)) (p ++ out) /\
    (left = 0 -> deflated (c0 ++ take (Z.to_nat (hdr + len out)) (pre ++ body)) (p ++ out))).
  { clear. intros hdr n c0 pre body p' avail Ec Hn Hbc Hp Hbb Ha out left.
    assert (Hout : len out <= Z.min n avail /\ len out <= len body).
    { unfold out. rewrite len_take. pose proof (len_nonneg body). lia. }
    pose proof (len_nonneg pre). pose proof (len_nonneg out).
    assert (Et : take (Z.to_nat (hdr + len out)) (pre ++ body) = pre ++ out).
    { rewrite take_app_ge by (unfold len in *; lia). f_equal.
      replace (Z.to_nat (hdr + len out) - length pre)%nat with (length out) by (unfold len in *; lia).
      apply take_len_take. }
    assert (Hbo : bytes out) by (by apply Forall_take).
    assert (Hall : bytes (c0 ++ pre ++ out)).
    { rewrite app_assoc. apply Forall_app. by split. }
    rewrite Et, len_app. split; [lia|]. split; [lia|]. split; [done|].
    assert (Eall : c0 ++ pre ++ out = (len p' + n) :: p' ++ out) by (by rewrite app_assoc, Ec).
    split.
    - split; [rewrite Eall, len_app; f_equal; unfold left; lia|]. split; [unfold left; lia|done].
    - intros Hl. split; [rewrite Eall, len_app; f_equal; unfold left in Hl; lia|done]. }
  intros Hs Hb Ha H. unfold inflate in H.
  destruct s as [n|].
  - destruct Hs as (Ec & Hn & Hbc). specialize (Hgo 0 n c [] input p avail).
    rewrite app_nil_r in Hgo. cbn zeta in Hgo. specialize (Hgo Ec Hn Hbc eq_refl Hb Ha).
    cbn [app] in Hgo. injection H as <- <- <- <-. destruct Hgo as (G1 & G2 & G3 & G4 & G5).
    refine (conj G1 (conj G2 (conj G3 (conj G4 _)))). case_if; [by intros _; apply G5|]. by case_if.
  - destruct Hs as [-> ->]. destruct input as [|n body].
    + injection H as <- <- <- <-. cbn. split_and!; (done || lia || constructor).
    + inversion Hb as [|? ? Hn Hbb]; subst. unfold is_byte in Hn.
      specialize (Hgo 1 n [] [n] body [] avail). cbn zeta in Hgo.
      specialize (Hgo eq_refl ltac:(lia) (Forall_cons_2 _ _ _ Hn (Forall_nil_2 _)) eq_refl Hbb Ha).
      injection H as <- <- <- <-. destruct Hgo as (G1 & G2 & G3 & G4 & G5).
      refine (conj G1 (conj G2 (conj G3 (conj G4 _)))). case_if; [by intros _; apply G5|]. by case_if.
Qed.

Lemma progress fl s input avail k out s' : inflate fl s input avail = (Z_OK, k, out, s') -> 0 < k \/ out <> [].
Proof.
  unfold inflate. set (r := match s, input with None, n :: body => _ | _, _ => _ end). destruct r as [[hdr body] [n|]] eqn:Er; [|done].
  intros E. destruct (n - len _ =? 0); [done|]. destruct (hdr + len _ =? 0) eqn:E0; [done|]. injection E as <- <- _.
  set (o := take _ body) in *. destruct (decide (o = [])) as [Ho|]; [left|by right]. rewrite Ho in *.
  change (len (@nil Z)) with 0 in *. simpl_bool. assert (hdr = 0 \/ hdr = 1) by (destruct s, input; simplify_eq; auto). lia.
Qed.

Lemma buf_error fl s input avail k out s' : inflate fl s input avail = (Z_BUF_ERROR, k, out, s') -> out = [].
Proof.
  unfold inflate. set (r := match s, input with None, n :: body => _ | _, _ => _ end). destruct r as [[hdr body] [n|]] eqn:Er; [|by intros [=]].
  intros E. destruct (n - len _ =? 0); [done|]. destruct (hdr + len _ =? 0) eqn:E0; [|done]. injection E as _ Ho _. simpl_bool.
  rewrite Ho in E0. assert (hdr = 0 \/ hdr = 1) by (destruct s, input; simplify_eq; auto).
  pose proof (len_nonneg out). apply nil_length_inv. unfold len in *. lia.
Qed.

Lemma complete fl s c p rest todo post avail rc k out s' : inflating s c p ->
  deflated (c ++ rest) (p ++ todo) -> 0 < avail ->
  inflate fl s (rest ++ post) avail = (rc, k, out, s') ->
  rc = Z_STREAM_END \/
  (len todo >= avail /\ rc <> Z_DATA_ERROR /\ out <> [] /\
   exists rest' todo', rest = take (Z.to_nat k) (rest ++ post) ++ rest' /\ todo = out ++ todo').
Proof.
  assert (Hgo : forall (hdr : Z) pre, len pre = hdr -> 0 < avail ->
    let n := len todo in
    let out := take (Z.to_nat (Z.min n avail)) (todo ++ post) in
    n - len out = 0 \/
    (len todo >= avail /\ out <> [] /\ hdr + len out <> 0 /\
     exists rest' todo', pre ++ todo = take (Z.to_nat (hdr + len out)) (pre ++ todo ++ post) ++ rest' /\ todo = out ++ todo')).
  { intros hdr pre Hp Ha n o. pose proof (len_nonneg todo). pose proof (len_nonneg pre).
    assert (Eo : o = take (Z.to_nat (Z.min n avail)) todo).
    { unfold o, n. rewrite take_app_le by (unfold len; lia). done. }
    assert (Ho : len o = Z.min n avail) by (rewrite Eo, len_take; unfold n; lia).
    destruct (Z.lt_ge_cases avail n) as [Hlt|]; [|left; lia]. right.
    split; [unfold n in *; lia|]. split; [intros E; rewrite E in Ho; change (len (@nil Z)) with 0 in Ho; lia|]. split; [lia|].
    exists (drop (Z.to_nat avail) todo), (drop (Z.to_nat avail) todo).
    assert (Et : todo = o ++ drop (Z.to_nat avail) todo).
    { rewrite Eo. replace (Z.min n avail) with avail by lia. by rewrite take_drop. }
    split; [|done]. rewrite take_app_ge by (unfold len in *; lia).
    rewrite <- app_assoc. f_equal. rewrite take_app_le by (unfold len in *; lia).
    replace (Z.to_nat (hdr + len o) - length pre)%nat with (Z.to_nat avail) by (unfold len in *; lia).
    by rewrite take_drop. }
  intros Hs [Hd Hbd] Ha H. unfold inflate in H. destruct s as [n|].
  - destruct Hs as (-> & Hn & _). cbn in Hd. injection Hd as Hlen Hrest. apply app_inv_head in Hrest as ->.
    rewrite len_app in Hlen. assert (n = len todo) as -> by lia.
    destruct (Hgo 0 [] eq_refl Ha) as [Hz|(G1 & G2 & G3 & rest' & todo' & G4 & G5)].
    + left. injection H as <- _ _ _. by rewrite Hz.
    + injection H as <- <- <- _. case_if; [by left|]. rewrite (proj2 (Z.eqb_neq _ _)) by done.
      right. split_and!; try done. by exists rest', todo'.
  - destruct Hs as [-> ->]. cbn in Hd. subst rest. cbn [app] in H.
    destruct (Hgo 1 [len todo] eq_refl Ha) as [Hz|(G1 & G2 & G3 & rest' & todo' & G4 & G5)].
    + left. injection H as <- _ _ _. by rewrite Hz.
    + injection H as <- <- <- _. case_if; [by left|]. rewrite (proj2 (Z.eqb_neq _ _)) by done.
      right. split_and!; try done. by exists rest', todo'.
Qed.

Lemma ratio s c p : inflating s c p -> len p <= 1032 * len c.
Proof.
  destruct s as [n|]; cbn; [|by intros [-> ->]]. intros (-> & _). rewrite len_cons.
  pose proof (len_nonneg p). lia.
Qed.

Lemma prefix_free a b d d' : deflated a d -> deflated (a ++ b) d' -> b = [] /\ d' = d.
Proof.
  intros [-> _] [E _]. cbn in E. injection E as E1 E2. subst d'. rewrite len_app in E1.
  destruct b; [by rewrite app_nil_r|]. rewrite len_cons in E1. pose proof (len_nonneg b). lia.
Qed.

Lemma whole_ratio a d : deflated a d -> len d <= 1032 * len a.
Proof. intros [-> _]. rewrite len_cons. pose proof (len_nonneg d). lia. Qed.

Lemma nonempty d : ~ deflated [] d.
Proof. by intros [? _]. Qed.

Lemma both_bytes a d : deflated a d -> bytes a /\ bytes d.
Proof. intros [-> Hb]. split; [done|]. by inversion Hb. Qed.
End Stored.

Definition stored_zlib : Zlib := {|
  z_stream := Stored.state;
  inflateInit := None;
  inflate := Stored.inflate;
  deflated := Stored.deflated;
  inflating := Stored.inflating;
  inflating_init := conj eq_refl eq_refl;
  inflate_step := Stored.step;
  inflate_progress := Stored.progress;
  inflate_buf_error := Stored.buf_error Z_NO_FLUSH;
  inflate_ratio := Stored.ratio;
  inflate_complete := Stored.complete;
  deflated_prefix_free := Stored.prefix_free;
  deflated_ratio := Stored.whole_ratio;
  deflated_nonempty := Stored.nonempty;
  deflated_bytes := Stored.both_bytes |}.

(** Inflating gives the data and the length of the stream at
    the start of the input, and fails exactly when there is none, whatever
    size was expected: the expected size is a guess for the first allocation,
    never a bound on the answer.  It always ends, loads nothing outside the
    input, and what it gives is at most 1032 bytes per byte consumed. *)
Theorem inflate_exact `{Zlib} src expected : bytes src -> len src <= UINT_MAX ->
  (forall data used, bgit_pack_inflate src expected = Ret (data, used) <-> stream_at src data used) /\
  ((forall data used, ~ stream_at src data used) -> exists m, bgit_pack_inflate src expected = Fail m) /\
  (forall data used, bgit_pack_inflate src expected = Ret (data, used) -> len data <= 1032 * used).
Proof.
  intros Hb Hm. pose proof (inflate_yields src expected Hb) as Hy.
  assert (Hret : forall data used, bgit_pack_inflate src expected = Ret (data, used) -> stream_at src data used).
  { intros data used E. rewrite E in Hy. apply Hy. }
  split_and!.
  - intros data used. split; [apply Hret|]. intros Hst. by apply inflate_stream.
  - intros Hno. destruct (bgit_pack_inflate src expected) as [[data used]|m|]; [|by exists m|done].
    by destruct (Hno data used (Hret _ _ eq_refl)).
  - intros data used E. destruct (Hret _ _ E) as [Hu Hd]. apply deflated_ratio in Hd.
    rewrite len_take in Hd. lia.
Qed.

Definition demo_stream : list Z := 3 :: str "abc" ++ [9; 9].

Lemma inflate_exact_witness : @bgit_pack_inflate stored_zlib demo_stream 0 = Ret (str "abc", 4).
Proof.
  apply (@inflate_exact stored_zlib demo_stream 0); [solve_bytes|vm_compute; discriminate|].
  split; [vm_compute; split; discriminate|]. split; [vm_compute; reflexivity|solve_bytes].
Defined.
