(* ===== verification/PackObj.v ===== *)
(** * Packed and loose objects (loadables/_git/pack.c, lines 33-43, 61-188, 252-286, 1178-1234)

    The pieces the object reader is made of: slurping a file, the checksum
    snapshot of a pack, the loose-object writer and reader, and the variable
    length header before every packed object.  The theorems show that the
    header survives encoding and decoding at every 64-bit size and that the
    decoder is safe on any bytes, that a loose object once written is read
    back, and that writing one is atomic and leaves an object already there
    alone. *)

From S2P Require Import Prelude Endian CLib Odb Sys IndexFile PackIdx Zlib.
#[local] Open Scope Z_scope.

(* ------------------------------------------------------------------ *)
(** ** Types *)

Definition BGIT_PACK_COMMIT : Z := 1.
Definition BGIT_PACK_TREE : Z := 2.
Definition BGIT_PACK_BLOB : Z := 3.
Definition BGIT_PACK_TAG : Z := 4.
Definition BGIT_PACK_OFS_DELTA : Z := 6.
Definition BGIT_PACK_REF_DELTA : Z := 7.
Definition BGIT_PACK_MAX_DELTA_DEPTH : Z := 50.

Definition bgit_pack_type_name (t : Z) : list Z :=
  if t =? BGIT_PACK_COMMIT then str "commit"
  else if t =? BGIT_PACK_TREE then str "tree"
  else if t =? BGIT_PACK_BLOB then str "blob"
  else if t =? BGIT_PACK_TAG then str "tag"
  else str "delta".

(* ------------------------------------------------------------------ *)
(** ** Slurping *)

Fixpoint pack_slurp_loop (fuel : nat) (fd : Z) (buf : list Z) (need : Z) : io (list Z) :=
  match fuel with
  | O => lift Fault
  | S fuel' =>
      if len buf <? need then
        let! r := sys_read fd (need - len buf) in
        let '(got, chunk) := r in
        if got <=? 0 then
          let! e := get_errno in
          if (got <? 0) && (e =? EINTR) then pack_slurp_loop fuel' fd buf need else iret buf
        else pack_slurp_loop fuel' fd (buf ++ chunk) need
      else iret buf
  end.

(** [None] is the null pointer.  Sizes of files are neither negative nor wider
    than a [size_t] here. *)
Definition bgit_pack_slurp (p : path) : io (option (list Z)) :=
  let! fd := open_rdonly p in
  if fd <? 0 then iret None
  else
    let! st := sys_fstat fd in
    match st with
    | None => let! _ := sys_close fd in iret None
    | Some st =>
        let! w := get_world in
        let! buf := pack_slurp_loop (2 + length (i_data st) + length (w_answers w)) fd []
                      (len (i_data st)) in
        let! _ := sys_close fd in
        iret (Some buf)
    end.

(* ------------------------------------------------------------------ *)
(** ** The checksum snapshot *)

Definition BGIT_PACK_CHECKSUM_CACHE_LIMIT : Z := 8 * 1024 * 1024.

(** [bgit_verified_pack] and its length: the pointer is null or owns bytes. *)
Definition pack_statics := option (list Z).

Definition bgit_pack_checksum_cached (st : pack_statics) (pack : list Z) : bool :=
  match st with
  | None => false
  | Some v => (len pack =? len v) && beq pack v
  end.

Definition verified_len (st : pack_statics) : Z :=
  match st with None => 0 | Some v => len v end.

(** A snapshot of another length is replaced by a new allocation; one of the
    same length is overwritten, if there is one. *)
Definition bgit_pack_remember_verified (st : pack_statics) (pack : list Z) : pack_statics :=
  if len pack >? BGIT_PACK_CHECKSUM_CACHE_LIMIT then st
  else if negb (len pack =? verified_len st) then Some pack
  else match st with Some _ => Some pack | None => None end.

(* ------------------------------------------------------------------ *)
(** ** Loose objects *)

(** [snprintf] into a buffer of 4096 bytes. *)
Definition snprintf4096 (s : list Z) : list Z := take 4095 s.

Definition loose_path (repo sha : list Z) : path :=
  snprintf4096 (repo ++ str "/.git/objects/" ++ take 2 sha ++ str "/" ++ drop 2 sha).

(** What both loose-object writers do once they know the directory and the
    file's path. *)
Definition place_object (dir p deflated : list Z) : io Z :=
  let! st := sys_stat p in
  match st with
  | Some _ => iret 0
  | None =>
      let! r := sys_mkdir dir in
      let! e := get_errno in
      if (r <? 0) && negb (e =? EEXIST) then
        let! _ := builtin_error "mkdir %s: %s" in iret (-1)
      else if len p + 10 >=? 4096 then
        (* the template is cut short and [mkstemp] refuses it *)
        let! _ := set_errno EINVAL in
        let! _ := builtin_error "mkstemp %s: %s" in iret (-1)
      else install_file "mkstemp %s: %s" "write %s: %s" "rename %s -> %s: %s" p deflated
  end.

Definition bgit_pack_write_loose (repo sha deflated : list Z) : io Z :=
  let dotgit := snprintf4096 (repo ++ str "/.git") in
  let! _ := sys_mkdir dotgit in
  let objdir := snprintf4096 (repo ++ str "/.git/objects") in
  let! _ := sys_mkdir objdir in
  let dir := snprintf4096 (objdir ++ str "/" ++ take 2 sha) in
  let p := snprintf4096 (dir ++ str "/" ++ drop 2 sha) in
  place_object dir p deflated.

Section Loose.
Context `{Zlib}.

Definition kind_type (kind : bgit_type) : Z :=
  match kind with
  | BGIT_BLOB => BGIT_PACK_BLOB
  | BGIT_TREE => BGIT_PACK_TREE
  | BGIT_COMMIT => BGIT_PACK_COMMIT
  | _ => BGIT_PACK_TAG
  end.

(** The object in the bytes of a loose file. *)
Definition decode_loose (raw : list Z) : outcome (Z * list Z) :=
  let* r := bgit_pack_inflate raw 0 in
  let '(infl, used) := r in
  let* h := bgit_parse_header infl in
  let '(kind, clen, hdr_len) := h in
  if negb (used =? len raw) || negb (clen =? len infl - hdr_len) then failed
  else
    let* content := rdn infl hdr_len clen in
    Ret (kind_type kind, content).

Definition bgit_pack_read_loose (repo sha_hex : list Z) : io (option (Z * list Z)) :=
  if negb (len sha_hex =? 40) then iret None
  else
    let! raw := bgit_pack_slurp (loose_path repo sha_hex) in
    match raw with
    | None => iret None
    | Some raw =>
        match decode_loose raw with
        | Ret o => iret (Some o)
        | Fail _ => iret None
        | Fault => lift Fault
        end
    end.
End Loose.

(* ------------------------------------------------------------------ *)
(** ** The object header *)

Fixpoint header_loop (fuel : nat) (pack : list Z) (b size shift iters off : Z) : outcome (Z * Z) :=
  match fuel with
  | O => Fault
  | S fuel' =>
      if Z.land b 0x80 =? 0 then Ret (size, off)
      else if off >=? len pack then failed
      else if (iters >=? 9) || (shift >=? 64) then failed
      else
        let* b := rd pack off in
        if Z.land b 0x7F >? Z.shiftr UINT64_MAX shift then failed
        else header_loop fuel' pack b (Z.lor size (u64 (Z.shiftl (Z.land b 0x7F) shift)))
               (shift + 7) (iters + 1) (off + 1)
  end.

(** The type, the size and the offset after the header. *)
Definition bgit_pack_read_obj_header (pack : list Z) (off : Z) : outcome (Z * Z * Z) :=
  if off >=? len pack then failed
  else
    let* b := rd pack off in
    let type := Z.land (Z.shiftr b 4) 0x7 in
    let size := Z.land b 0xF in
    let* r := header_loop 10 pack b size 4 0 (off + 1) in
    let '(size, new_off) := r in
    Ret (type, size, new_off).

Fixpoint encode_loop (fuel : nat) (size : Z) : list Z :=
  match fuel with
  | O => []
  | S fuel' =>
      if size =? 0 then []
      else
        let b := Z.land size 0x7f in
        let size := Z.shiftr size 7 in
        let b := if negb (size =? 0) then Z.lor b 0x80 else b in
        b :: encode_loop fuel' size
  end.

(** At most ten bytes for a 64-bit size. *)
Definition bgit_pack_encode_obj_header (type size : Z) : list Z :=
  let b := u8 (Z.lor (Z.shiftl (Z.land type 0x7) 4) (Z.land size 0xf)) in
  let size := Z.shiftr size 4 in
  let b := if negb (size =? 0) then Z.lor b 0x80 else b in
  b :: encode_loop 10 size.

(* ------------------------------------------------------------------ *)
(** ** The header survives *)

Lemma header_loop_safe fuel pack b size shift iters off : bytes pack -> 0 <= iters -> 0 <= off ->
  10 <= Z.of_nat fuel + iters -> (0 < fuel)%nat ->
  yields (fun r => off <= snd r <= Z.max off (len pack)) (header_loop fuel pack b size shift iters off).
Proof.
  intros Hb. revert b size shift iters off. induction fuel as [|fuel IH]; intros b size shift iters off Hi Ho Hf Hf0; [lia|].
  cbn [header_loop]. case_if; [cbn; lia|]. case_if; [done|]. case_if; [done|].
  eapply yields_bind; [apply (yields_rd pack off (fun _ => True)); [done|lia|done]|]. intros c _.
  case_if; [done|]. eapply yields_impl; [apply IH; lia|]. cbn. intros [r1 r2]. cbn. lia.
Qed.

Lemma read_header_yields pack off : bytes pack -> 0 <= off ->
  yields (fun r => off < snd r <= len pack) (bgit_pack_read_obj_header pack off).
Proof.
  intros Hb Ho. unfold bgit_pack_read_obj_header. case_if; [done|].
  eapply yields_bind; [apply (yields_rd pack off (fun _ => True)); [done|lia|done]|]. intros c _. cbn zeta.
  eapply yields_bind; [apply header_loop_safe; (done || lia)|]. intros [size cur]. cbn. lia.
Qed.

(** One byte of the size: its low seven bits and the flag that more follow. *)
Definition size_byte (size : Z) : Z :=
  if negb (Z.shiftr size 7 =? 0) then Z.lor (Z.land size 0x7f) 0x80 else Z.land size 0x7f.

Lemma size_byte_spec size : 0 <= size ->
  0 <= size_byte size < 256 /\ Z.land (size_byte size) 0x7f = size mod 128 /\
  ((Z.land (size_byte size) 0x80 =? 0) = (Z.shiftr size 7 =? 0)).
Proof.
  intros Hs. unfold size_byte.
  assert (E : Z.land size 0x7f = size mod 128) by (apply (land_ones_mod size 7); done). rewrite E.
  pose proof (Z.mod_pos_bound size 128 ltac:(lia)) as Hm.
  destruct (seven_bits (size mod 128) Hm) as (H1 & H2 & H3 & H4 & H5).
  destruct (Z.shiftr size 7 =? 0); cbn [negb].
  - rewrite H1, H2. split_and!; (done || lia).
  - rewrite H3, H4. split_and!; (done || lia).
Qed.

Lemma encode_loop_S fuel size : encode_loop (S fuel) size =
  if size =? 0 then [] else size_byte size :: encode_loop fuel (Z.shiftr size 7).
Proof. reflexivity. Qed.

(** Decoding goes on from where the sizes so far stop. *)
Lemma header_loop_encoded k : forall fuel pre post rest acc shift iters b,
  0 <= acc < 2 ^ shift -> shift = 4 + 7 * iters -> 0 <= iters -> iters + Z.of_nat k <= 9 ->
  (k < fuel)%nat -> 0 <= rest < 2 ^ (7 * Z.of_nat k) -> acc + rest * 2 ^ shift < 2 ^ 64 ->
  (Z.land b 0x80 =? 0) = (rest =? 0) ->
  header_loop fuel (pre ++ encode_loop k rest ++ post) b acc shift iters (len pre) =
  Ret (acc + rest * 2 ^ shift, len pre + len (encode_loop k rest)).
Proof.
  induction k as [|k IH]; intros fuel pre post rest acc shift iters b Hacc Hsh Hit Hk Hf Hrest Hmax Hb;
    (destruct fuel as [|fuel]; [lia|]); cbn [header_loop]; rewrite Hb.
  { replace rest with 0 by (change (2 ^ (7 * Z.of_nat 0)) with 1 in Hrest; lia). cbn. do 2 f_equal; [lia|].
    change (len (@nil Z)) with 0. lia. }
  rewrite encode_loop_S. destruct (Z.eqb_spec rest 0) as [->|Hne].
  { change (len (@nil Z)) with 0. do 2 f_equal; lia. }
  destruct (size_byte_spec rest) as (Hsb & Hlow & Hflag); [lia|].
  pose proof (len_nonneg pre). rewrite !len_app, len_cons. pose proof (len_nonneg (encode_loop k (Z.shiftr rest 7))).
  pose proof (len_nonneg post). do 2 if_false. cbn [app].
  rewrite rd_app_hd. cbn [obind]. rewrite Hlow.
  assert (Hp : 0 < 2 ^ shift) by (apply Z.pow_pos_nonneg; lia).
  assert (Hpm : 2 ^ shift * 2 ^ (64 - shift) = 2 ^ 64) by (rewrite <- Z.pow_add_r by lia; f_equal; lia).
  pose proof (Z.mod_pos_bound rest 128 ltac:(lia)) as Hm.
  pose proof (Z.div_mod rest 128 ltac:(lia)) as Hdm.
  assert (Hdiv : 0 <= rest / 128) by (apply Z.div_pos; lia).
  assert (Hfit : acc + rest mod 128 * 2 ^ shift < 2 ^ 64) by nia.
  assert (Hguard : rest mod 128 <= Z.shiftr UINT64_MAX shift).
  { rewrite Z.shiftr_div_pow2 by lia. apply Z.div_le_lower_bound; [lia|]. unfold UINT64_MAX. nia. }
  if_false. rewrite Z.shiftl_mul_pow2 by lia. rewrite u64_id by nia.
  rewrite <- (Z.shiftl_mul_pow2 _ shift) by lia. rewrite lor_add_shift by (done || lia).
  replace (len pre + 1) with (len (pre ++ [size_byte rest])) by (rewrite len_app; done).
  replace (pre ++ size_byte rest :: encode_loop k (Z.shiftr rest 7) ++ post)
    with ((pre ++ [size_byte rest]) ++ encode_loop k (Z.shiftr rest 7) ++ post) by (by rewrite <- app_assoc).
  rewrite Z.shiftr_div_pow2 by lia. change (2 ^ 7) with 128.
  assert (Hp7 : 2 ^ (shift + 7) = 128 * 2 ^ shift) by (rewrite Z.pow_add_r by lia; change (2 ^ 7) with 128; lia).
  rewrite (IH fuel (pre ++ [size_byte rest]) post (rest / 128)).
  - do 2 f_equal; [rewrite Hp7; nia|rewrite len_app; change (len [size_byte rest]) with 1; lia].
  - rewrite Hp7. nia.
  - lia.
  - lia.
  - lia.
  - lia.
  - split; [done|]. apply Z.div_lt_upper_bound; [lia|].
    replace (7 * Z.of_nat (S k)) with (7 + 7 * Z.of_nat k) in Hrest by lia. rewrite Z.pow_add_r in Hrest by lia. lia.
  - rewrite Hp7. nia.
  - rewrite Hflag, Z.shiftr_div_pow2 by lia. done.
Qed.

(** The ten turns of the encoder are one more than it takes. *)
Lemma encode_loop_more k size : 0 <= size < 2 ^ (7 * Z.of_nat k) -> encode_loop (S k) size = encode_loop k size.
Proof.
  revert size. induction k as [|k IH]; intros size Hs.
  - replace size with 0 by (change (2 ^ (7 * Z.of_nat 0)) with 1 in Hs; lia). done.
  - rewrite !encode_loop_S. case_if; [done|]. f_equal. apply IH.
    rewrite Z.shiftr_div_pow2 by done. split; [apply Z.div_pos; lia|]. apply Z.div_lt_upper_bound; [lia|].
    replace (7 * Z.of_nat (S k)) with (7 + 7 * Z.of_nat k) in Hs by lia. rewrite Z.pow_add_r in Hs by lia. lia.
Qed.

Lemma header_decoded pre post type size : 0 <= type < 8 -> 0 <= size < 2 ^ 64 ->
  bgit_pack_read_obj_header (pre ++ bgit_pack_encode_obj_header type size ++ post) (len pre) =
  Ret (type, size, len pre + len (bgit_pack_encode_obj_header type size)).
Proof.
  intros Ht Hs. unfold bgit_pack_read_obj_header, bgit_pack_encode_obj_header. cbn zeta.
  set (b0 := u8 _).
  assert (Hland : Z.land size 15 = size mod 16) by (apply (land_ones_mod size 4); done).
  assert (Hty : Z.land type 7 = type) by (etransitivity; [by apply (land_ones_mod type 3)|apply Z.mod_small; lia]).
  pose proof (Z.mod_pos_bound size 16 ltac:(lia)) as Hm.
  assert (Eb0 : b0 = size mod 16 + type * 16).
  { unfold b0. rewrite Hland, Hty, Z.lor_comm, lor_add_shift by lia. change (2 ^ 4) with 16. rewrite u8_id; lia. }
  set (rest := Z.shiftr size 4). assert (Erest : rest = size / 16) by (unfold rest; by rewrite Z.shiftr_div_pow2).
  set (b := if negb (rest =? 0) then Z.lor b0 128 else b0).
  assert (Hb0 : 0 <= b0 < 128) by lia. destruct (seven_bits b0 Hb0) as (S1 & S2 & S3 & S4 & S5).
  assert (Eb : b = b0 + (if rest =? 0 then 0 else 128)) by (unfold b; destruct (rest =? 0); cbn [negb]; lia).
  assert (Hflag : (Z.land b 0x80 =? 0) = (rest =? 0)).
  { unfold b. destruct (rest =? 0); cbn [negb]; [by rewrite S2|by rewrite S4]. }
  assert (Hlow : Z.land b 0xF = size mod 16).
  { etransitivity; [by apply (land_ones_mod b 4)|]. change (2 ^ 4) with 16. rewrite Eb, Eb0. destruct (rest =? 0); dlia. }
  assert (Htype : Z.land (Z.shiftr b 4) 0x7 = type).
  { etransitivity; [by apply (land_ones_mod _ 3)|]. rewrite Z.shiftr_div_pow2 by done.
    change (2 ^ 4) with 16. change (2 ^ 3) with 8.
    rewrite Eb, Eb0. destruct (rest =? 0); dlia. }
  rewrite encode_loop_more by (change (2 ^ (7 * Z.of_nat 9)) with (2 ^ 63); dlia).
  pose proof (len_nonneg post). pose proof (len_nonneg (encode_loop 9 rest)). pose proof (len_nonneg pre).
  rewrite !len_app, len_cons. if_false. cbn [app]. rewrite rd_app_hd. cbn [obind]. rewrite Hlow, Htype.
  replace (pre ++ b :: encode_loop 9 rest ++ post) with ((pre ++ [b]) ++ encode_loop 9 rest ++ post)
    by (by rewrite <- app_assoc).
  replace (len pre + 1) with (len (pre ++ [b])) by (rewrite len_app; done).
  rewrite header_loop_encoded; try done; try lia.
  - cbn [obind]. do 2 f_equal; [f_equal; change (2 ^ 4) with 16; clear -Erest; dlia|].
    rewrite len_app. change (len [b]) with 1. lia.
  - change (2 ^ (7 * Z.of_nat 9)) with (2 ^ 63). clear -Erest Hs. dlia.
  - change (2 ^ 4) with 16. clear -Erest Hs. dlia.
Qed.

(* ------------------------------------------------------------------ *)
(** ** Making directories changes no file *)

(** Every file looks the same, and did at every step in between. *)
Definition unseen (w w' : world) : Prop :=
  (forall q, content (w_fs w') q = content (w_fs w) q) /\
  (forall q, is_Some (names (w_fs w) !! q) -> is_Some (names (w_fs w') !! q)) /\ fs_ok (w_fs w') /\
  exists new, w_log w' = new ++ w_log w /\
    Forall (fun f => forall q, content f q = content (w_fs w) q) new.

Lemma unseen_same w w' : fs_ok (w_fs w) -> w_fs w' = w_fs w -> w_log w' = w_log w -> unseen w w'.
Proof. intros Hok E1 E2. unfold unseen. rewrite E1, E2. split_and!; try done. by exists []. Qed.

Lemma unseen_trans w1 w2 w3 : unseen w1 w2 -> unseen w2 w3 -> unseen w1 w3.
Proof.
  intros (C1 & N1 & _ & n1 & L1 & F1) (C2 & N2 & O2 & n2 & L2 & F2). split; [|split; [|split; [done|]]].
  - intros q. by rewrite C2, C1.
  - auto.
  - exists (n2 ++ n1). rewrite L2, L1, app_assoc. split; [done|]. apply Forall_app; split; [|done].
    eapply Forall_impl; [exact F2|]. cbn. intros f Hf q. by rewrite Hf, C1.
Qed.

Lemma mkdir_unseen p w r w' : fs_ok (w_fs w) -> sys_mkdir p w = (r, w') ->
  (exists z, r = Ret z) /\ unseen w w'.
Proof.
  intros Hok H. apply mkdir_cases in H as (_ & [(-> & E & L & _)|(i & n & -> & Hfree & Hnew & Hdir & E & L)]).
  { split; [eauto|by apply unseen_same]. }
  assert (Hc : forall q, content (w_fs w') q = content (w_fs w) q).
  { intros q. rewrite E. unfold content, lookup_inode. simpl. destruct (decide (q = p)) as [->|Hq].
    - rewrite lookup_insert_eq, Hfree. simpl. by rewrite lookup_insert_eq, Hdir.
    - rewrite lookup_insert_ne by done. destruct (names (w_fs w) !! q) as [j|] eqn:Ej; [|done]. simpl.
      rewrite lookup_insert_ne; [done|]. intros ->. destruct (Hok q j Ej) as [m Hm]. congruence. }
  split; [eauto|]. split; [done|]. split; [|split].
  - intros q [j Hj]. rewrite E. simpl. destruct (decide (q = p)) as [->|Hq];
      [rewrite lookup_insert_eq|rewrite lookup_insert_ne by done]; eauto.
  - rewrite E. intros q j Hj. simpl in *. destruct (decide (q = p)) as [->|Hq].
    + rewrite lookup_insert_eq in Hj. injection Hj as <-. rewrite lookup_insert_eq. eauto.
    + rewrite lookup_insert_ne in Hj by done. destruct (Hok q j Hj) as [m Hm].
      destruct (decide (i = j)) as [->|]; [rewrite lookup_insert_eq|rewrite lookup_insert_ne by done]; eauto.
  - exists [w_fs w']. rewrite L. split; [done|]. by constructor.
Qed.

Lemma stat_unseen p w r w' : fs_ok (w_fs w) -> sys_stat p w = (r, w') -> 
  (exists s, r = Ret s /\ (is_Some s -> is_Some (names (w_fs w) !! p))) /\ unseen w w'.
Proof.
  intros Hok H. unfold sys_stat in H. unfold lookup_inode in H.
  destruct (names (w_fs w) !! p) as [i|] eqn:En; simpl in H.
  - destruct (inodes (w_fs w) !! i) eqn:Ei; step_io H; simpl; (split; [eexists; split; [done|eauto]|by apply unseen_same]);
      simpl in *; intros; eauto.
  - step_io H; simpl in *; try (rewrite En in *); simplify_eq; (split; [eexists; split; [done|]|by apply unseen_same]);
      intros [? ?]; done.
Qed.

(** Replacing a file after steps nobody can see is replacing it. *)
Lemma replaced_unseen p data w w1 r w' : unseen w w1 -> replaced p data w1 r w' -> replaced p data w r w'.
Proof.
  intros (C & N & _ & n1 & L1 & F1) (rc & -> & H1 & H2 & n2 & L2 & F2). exists rc. split; [done|].
  rewrite (C p) in *. split; [done|]. split.
  - intros q Hq Hs. rewrite H2, C; auto.
  - exists (n2 ++ n1). rewrite L2, L1, app_assoc. split; [done|]. apply Forall_app; split; [done|].
    eapply Forall_impl; [exact F1|]. cbn. intros f Hf. by left.
Qed.

Lemma unseen_replaced p data w w' : unseen w w' -> replaced p data w (Ret (-1)) w'.
Proof.
  intros (C & N & _ & n1 & L1 & F1). exists (-1). split; [done|]. split; [by right|]. split; [by intros|].
  exists n1. split; [done|]. eapply Forall_impl; [exact F1|]. cbn. intros f Hf. by left.
Qed.

Definition loose_target (repo sha : list Z) : path :=
  snprintf4096 (snprintf4096 (snprintf4096 (repo ++ str "/.git/objects") ++ str "/" ++ take 2 sha) ++
    str "/" ++ drop 2 sha).

Lemma place_object_spec dir p data w r w' : fs_ok (w_fs w) -> place_object dir p data w = (r, w') ->
  replaced p data w r w' \/ (r = Ret 0 /\ is_Some (names (w_fs w') !! p) /\ unseen w w').
Proof.
  intros Hok H. unfold place_object in H.
  unfold ibind at 1 in H. destruct (sys_stat p w) as [r3 w3] eqn:E3.
  apply stat_unseen in E3 as [(s & -> & Hs) U]; [|done]. pose proof U as (_ & N3 & Hok3 & _).
  destruct s as [s|].
  { injection H as <- <-. right. split; [done|]. split; [|done]. apply N3, Hs. eauto. }
  left. unfold ibind at 1 in H. destruct (sys_mkdir dir w3) as [r4 w4] eqn:E4.
  apply mkdir_unseen in E4 as [[z4 ->] U4]; [|done]. pose proof U4 as (_ & _ & Hok4 & _).
  pose proof (unseen_trans _ _ _ U U4) as U'.
  unfold ibind at 1, get_errno in H. case_if_in H.
  { injection H as <- <-. apply unseen_replaced. eapply unseen_trans; [exact U'|]. by apply unseen_same. }
  case_if_in H.
  { injection H as <- <-. apply unseen_replaced. eapply unseen_trans; [exact U'|]. by apply unseen_same. }
  apply install_file_spec in H; [|done]. by eapply replaced_unseen.
Qed.

(** The same after steps nobody can see. *)
Lemma placed_unseen p data w w1 r w' : unseen w w1 ->
  replaced p data w1 r w' \/ (r = Ret 0 /\ is_Some (names (w_fs w') !! p) /\ unseen w1 w') ->
  replaced p data w r w' \/ (r = Ret 0 /\ is_Some (names (w_fs w') !! p) /\ unseen w w').
Proof.
  intros U [Hr|(-> & Hn & U')]; [left; by eapply replaced_unseen|right]. split_and!; [done..|]. by eapply unseen_trans.
Qed.

Lemma write_loose_spec repo sha data w r w' : fs_ok (w_fs w) ->
  bgit_pack_write_loose repo sha data w = (r, w') ->
  replaced (loose_target repo sha) data w r w' \/
  (r = Ret 0 /\ is_Some (names (w_fs w') !! loose_target repo sha) /\ unseen w w').
Proof.
  intros Hok H. unfold bgit_pack_write_loose in H. cbn zeta in H.
  unfold ibind at 1 in H. destruct (sys_mkdir (snprintf4096 (repo ++ str "/.git")) w) as [r1 w1] eqn:E1.
  apply mkdir_unseen in E1 as [[z1 ->] U1]; [|done]. pose proof U1 as (_ & _ & Hok1 & _).
  unfold ibind at 1 in H. destruct (sys_mkdir (snprintf4096 (repo ++ str "/.git/objects")) w1) as [r2 w2] eqn:E2.
  apply mkdir_unseen in E2 as [[z2 ->] U2]; [|done]. pose proof U2 as (_ & _ & Hok2 & _).
  eapply placed_unseen; [by eapply unseen_trans|]. eapply place_object_spec; [done|exact H].
Qed.

(* ------------------------------------------------------------------ *)
(** ** Reading a loose object *)

Lemma pack_slurp_loop_spec fuel fd i nd : i_dir nd = false -> forall k w r w',
  (length (i_data nd) - k + length (w_answers w) + 2 <= fuel)%nat -> (k <= length (i_data nd))%nat ->
  0 <= fd -> w_fds w !! Z.to_N fd = Some (i, Z.of_nat k) -> inodes (w_fs w) !! i = Some nd ->
  pack_slurp_loop fuel fd (take k (i_data nd)) (len (i_data nd)) w = (r, w') ->
  reads_only w w' /\ exists k', r = Ret (take k' (i_data nd)) /\ (w_answers w = [] -> r = Ret (i_data nd)).
Proof.
  intros Hdir. induction fuel as [|fuel IH]; intros k w r w' Hf Hk Hfd Hw Hi H; [lia|].
  cbn [pack_slurp_loop] in H.
  assert (Hlen : len (take k (i_data nd)) = Z.of_nat k) by (rewrite len_take; unfold len; lia).
  rewrite Hlen in H. case_if_in H.
  2:{ injection H as <- <-. split; [by split|]. exists k. split; [done|]. intros _.
      rewrite take_ge; [done|]. unfold len in *. lia. }
  unfold ibind at 1 in H. destruct (sys_read fd (len (i_data nd) - Z.of_nat k) w) as [r1 w1] eqn:Hr.
  eapply read_cases in Hr as (E1 & E2 & E3 & Hr); [|unfold len in *; lia|done..].
  destruct Hr as [(-> & Hne & Ef)|(m & -> & Hm & Hm0 & Hfull & Ef)].
  - cbn -[pack_slurp_loop] in H. destruct (w_errno w1 =? EINTR); cbn -[pack_slurp_loop] in H.
    + destruct (IH k w1 r w') as [[F1 F2] (k' & Hres & Hno)]; try done; try congruence; try lia.
      * rewrite E3. destruct (w_answers w); [done|]. simpl in *. lia.
      * split; [split; congruence|]. exists k'. split; [done|]. done.
    + injection H as <- <-. split; [by split|]. exists k. split; [done|]. done.
  - rewrite Nat2Z.id in *. set (chunk := take m (drop k (i_data nd))) in *.
    assert (Hlc : len chunk = Z.min (Z.of_nat m) (len (i_data nd) - Z.of_nat k)).
    { unfold chunk. rewrite len_take, len_drop. unfold len. lia. }
    specialize (Hm0 ltac:(unfold len in *; lia)).
    rewrite (proj2 (Z.leb_gt (len chunk) 0)) in H by (unfold len in *; lia).
    assert (Happ : take k (i_data nd) ++ chunk = take (k + length chunk) (i_data nd)).
    { rewrite <- take_take_drop. f_equal. unfold chunk. by rewrite length_take, take_min_length. }
    rewrite Happ in H. unfold len in Hlc, Ef, Hm.
    destruct (IH (k + length chunk)%nat w1 r w') as [[F1 F2] (k' & Hres & Hno)]; try done; try lia.
    + rewrite E3. destruct (w_answers w) as [|a l]; simpl in *; lia.
    + rewrite Ef, lookup_insert_eq. do 2 f_equal. lia.
    + by rewrite E1.
    + split; [split; congruence|]. exists k'. split; [done|]. intros Ha. apply Hno. by rewrite E3, Ha.
Qed.

Lemma pack_slurp_spec p i nd w r w' : names (w_fs w) !! p = Some i -> inodes (w_fs w) !! i = Some nd ->
  i_dir nd = false -> bgit_pack_slurp p w = (r, w') ->
  reads_only w w' /\ (w_answers w = [] -> r = Ret (Some (i_data nd))) /\
  (r = Ret None \/ exists k, r = Ret (Some (take k (i_data nd)))).
Proof.
  intros Hn Hi Hdir H. unfold bgit_pack_slurp in H. unfold ibind at 1 in H.
  destruct (open_rdonly p w) as [r1 w1] eqn:Ho.
  apply open_rdonly_cases in Ho as (E1 & E2 & [(-> & _ & Hno)|(i' & fd & -> & Hn' & Hfree & Hfd & Ha1)]).
  { injection H as <- <-. split; [by split|]. split; [|by left]. intros Ha. specialize (Hno Ha). congruence. }
  rewrite (proj2 (Z.ltb_ge (Z.of_N fd) 0)) in H by lia. assert (i' = i) as -> by congruence.
  unfold ibind at 1 in H. destruct (sys_fstat (Z.of_N fd) w1) as [r2 w2] eqn:Hs.
  assert (Hlook : w_fds w1 !! Z.to_N (Z.of_N fd) = Some (i, 0)).
  { rewrite N2Z.id, Hfd. apply lookup_insert_eq. }
  destruct (fstat_cases _ _ _ _ i 0 nd Hs ltac:(lia) Hlook ltac:(by rewrite E1))
    as (F1 & F2 & F3 & F4 & [[-> Hne] | ->]).
  { apply close_then in H as [-> [G1 G2]]. split; [split; congruence|]. split; [|by left].
    intros Ha. rewrite Ha1, Ha in Hne. done. }
  unfold ibind at 1, get_world in H. unfold ibind at 1 in H.
  destruct (pack_slurp_loop _ (Z.of_N fd) [] (len (i_data nd)) w2) as [r3 w3] eqn:Hl.
  apply (pack_slurp_loop_spec _ (Z.of_N fd) i nd Hdir 0) in Hl as [[G1 G2] (k & -> & Hk)]; try lia.
  - unfold ibind in H. destruct (sys_close (Z.of_N fd) w3) as [r4 w4] eqn:Hc.
    apply close_reads in Hc as [[z ->] [G3 G4]]. injection H as <- <-. split; [split; congruence|].
    split; [|right; eauto]. intros Ha. rewrite F4, Ha1, Ha in Hk. specialize (Hk eq_refl). by injection Hk as ->.
  - by rewrite F3.
  - by rewrite F1, E1.
Qed.

Lemma pack_slurp_absent p w r w' : names (w_fs w) !! p = None -> bgit_pack_slurp p w = (r, w') ->
  reads_only w w' /\ r = Ret None.
Proof.
  intros Hn H. unfold bgit_pack_slurp in H. unfold ibind at 1 in H.
  destruct (open_rdonly p w) as [r1 w1] eqn:Ho.
  apply open_rdonly_cases in Ho as (E1 & E2 & [(-> & _)|(i' & fd & _ & Hn' & _)]); [|congruence].
  injection H as <- <-. by split.
Qed.

Lemma read_dir fd n w r w' i pos nd : sys_read fd n w = (r, w') -> 0 <= fd ->
  w_fds w !! Z.to_N fd = Some (i, pos) -> inodes (w_fs w) !! i = Some nd -> i_dir nd = true ->
  r = Ret (-1, []) /\ reads_only w w' /\ w_fds w' = w_fds w /\ w_answers w' = tail (w_answers w) /\
  (w_answers w = [] -> w_errno w' = EISDIR).
Proof.
  intros H Hfd Hf Hi Hd. unfold sys_read, reads_only in *.
  step_io H; simpl in *; simpl_bool; simplify_eq; try lia; try congruence; by split_and!.
Qed.

Lemma pack_slurp_loop_dir fuel fd i nd need : i_dir nd = true -> 0 <= fd -> forall w r w',
  (length (w_answers w) + 1 <= fuel)%nat -> w_fds w !! Z.to_N fd = Some (i, 0) -> inodes (w_fs w) !! i = Some nd ->
  pack_slurp_loop fuel fd [] need w = (r, w') -> reads_only w w' /\ r = Ret [].
Proof.
  intros Hdir Hfd. induction fuel as [|fuel IH]; intros w r w' Hf Hw Hi H; [lia|].
  cbn [pack_slurp_loop] in H. case_if_in H; [|by injection H as <- <-].
  unfold ibind at 1 in H. destruct (sys_read fd (need - len []) w) as [r1 w1] eqn:Hr.
  eapply read_dir in Hr as (-> & [F1 F2] & Ef & Ea & He); [|done..].
  cbn -[pack_slurp_loop] in H. destruct (w_errno w1 =? EINTR) eqn:Ee; cbn -[pack_slurp_loop] in H.
  - destruct (w_answers w) as [|a l] eqn:Ew; [rewrite (He eq_refl) in Ee; done|].
    destruct (IH w1 r w') as [[G1 G2] ->]; try done; try congruence.
    + rewrite Ea. simpl in *. lia.
    + split; [split; congruence|done].
  - injection H as <- <-. by split.
Qed.

Lemma pack_slurp_dir p i nd w r w' : names (w_fs w) !! p = Some i -> inodes (w_fs w) !! i = Some nd ->
  i_dir nd = true -> bgit_pack_slurp p w = (r, w') ->
  reads_only w w' /\ (r = Ret None \/ r = Ret (Some [])).
Proof.
  intros Hn Hi Hdir H. unfold bgit_pack_slurp in H. unfold ibind at 1 in H.
  destruct (open_rdonly p w) as [r1 w1] eqn:Ho.
  apply open_rdonly_cases in Ho as (E1 & E2 & [(-> & _)|(i' & fd & -> & Hn' & Hfree & Hfd & Ha1)]).
  { injection H as <- <-. split; [by split|by left]. }
  rewrite (proj2 (Z.ltb_ge (Z.of_N fd) 0)) in H by lia. assert (i' = i) as -> by congruence.
  unfold ibind at 1 in H. destruct (sys_fstat (Z.of_N fd) w1) as [r2 w2] eqn:Hs.
  assert (Hlook : w_fds w1 !! Z.to_N (Z.of_N fd) = Some (i, 0)) by (rewrite N2Z.id, Hfd; apply lookup_insert_eq).
  destruct (fstat_cases _ _ _ _ i 0 nd Hs ltac:(lia) Hlook ltac:(by rewrite E1))
    as (F1 & F2 & F3 & F4 & [[-> Hne] | ->]).
  { apply close_then in H as [-> [G1 G2]]. split; [split; congruence|by left]. }
  unfold ibind at 1, get_world in H. unfold ibind at 1 in H.
  destruct (pack_slurp_loop _ (Z.of_N fd) [] (len (i_data nd)) w2) as [r3 w3] eqn:Hl.
  apply (pack_slurp_loop_dir _ (Z.of_N fd) i nd) in Hl as [[G1 G2] ->]; try done; try lia.
  - unfold ibind in H. destruct (sys_close (Z.of_N fd) w3) as [r4 w4] eqn:Hc.
    apply close_reads in Hc as [[z ->] [G3 G4]]. injection H as <- <-. split; [split; congruence|by right].
  - by rewrite F3.
  - by rewrite F1, E1.
Qed.

Lemma rdn_tail pre mid : rdn (pre ++ mid) (len pre) (len mid) = Ret mid.
Proof. rewrite <- (app_nil_r mid) at 1. apply rdn_app. Qed.

Section ReadLoose.
Context `{Zlib}.

(** The object a complete loose file holds. *)
Definition loose_holds (raw : list Z) (o : Z * list Z) : Prop :=
  exists infl kind, stream_at raw infl (len raw) /\
    infl = object_header (bgit_type_name kind) (len (snd o)) ++ snd o /\ kind <> BGIT_UNKNOWN /\
    fst o = kind_type kind /\ len (snd o) <= SIZE_MAX.

Lemma decode_loose_yields raw : bytes raw -> yields (loose_holds raw) (decode_loose raw).
Proof.
  intros Hb. unfold decode_loose.
  eapply yields_bind; [by apply inflate_yields|]. intros [infl used] [Hst Hbi]. cbn in Hst, Hbi.
  destruct (bgit_parse_header infl) as [[[kind clen] off]| |] eqn:Eh; [|done|by apply parse_header_no_fault in Eh].
  apply parse_header_inv in Eh as (payload & -> & -> & Hkind & Hclen & _). cbn [obind].
  rewrite len_app. case_if; [done|]. pose proof (len_nonneg payload).
  assert (clen = len payload) as -> by lia. assert (used = len raw) as -> by lia.
  rewrite rdn_tail. cbn.
  exists (object_header (bgit_type_name kind) (len payload) ++ payload), kind. split; [exact Hst|].
  cbn [fst snd]. split_and!; (done || lia).
Qed.

(** And a complete loose file is decoded to its object. *)
Lemma decode_loose_holds raw o : bytes raw -> loose_holds raw o -> len raw <= UINT_MAX ->
  decode_loose raw = Ret o.
Proof.
  intros Hb (infl & kind & Hst & -> & Hkind & Hty & Hsz) Hmax. destruct o as [type content]. cbn in *.
  assert (Hh : len (object_header (bgit_type_name kind) (len content)) <= 64).
  { apply object_header_short. pose proof (len_nonneg content). unfold SIZE_MAX in *. lia. }
  unfold decode_loose. pose proof (len_nonneg content).
  rewrite (inflate_stream raw 0 _ (len raw) Hb Hst Hmax).
  cbn [obind]. rewrite object_header_parse; [|done|unfold SIZE_MAX in *; lia|unfold LONG_MAX; lia].
  cbn [obind]. rewrite Z.eqb_refl, len_app. cbn [negb orb].
  replace (negb (_ =? _)) with false by (symmetry; apply negb_false_iff, Z.eqb_eq; lia).
  rewrite rdn_tail. cbn. by rewrite Hty.
Qed.

(** A cut-short loose file is not taken for an object. *)
Lemma decode_loose_prefix raw o k r : bytes raw -> loose_holds raw o ->
  decode_loose (take k raw) = Ret r -> take k raw = raw.
Proof.
  intros Hb (infl & kind & [_ Hd] & _) Hr.
  pose proof (decode_loose_yields (take k raw) ltac:(by apply Forall_take)) as Hy. rewrite Hr in Hy.
  destruct Hy as (infl' & kind' & [_ Hd'] & _). unfold len in Hd, Hd'. rewrite Nat2Z.id in Hd, Hd'.
  rewrite firstn_all in Hd, Hd'. rewrite <- (take_drop k raw) in Hd.
  destruct (deflated_prefix_free _ _ _ _ Hd' Hd) as [E _]. rewrite <- (take_drop k raw) at 2. rewrite E.
  by rewrite app_nil_r.
Qed.

Lemma decode_no_fault raw : bytes raw -> decode_loose raw <> Fault.
Proof. intros Hb E. pose proof (decode_loose_yields raw Hb) as Hy. by rewrite E in Hy. Qed.

(** Reading a loose file that holds an object: the object, or a silent failure
    to read it. *)
Lemma read_loose_spec repo sha w r w' raw o : content (w_fs w) (loose_path repo sha) = Some raw -> bytes raw ->
  loose_holds raw o -> len raw <= UINT_MAX -> len sha = 40 ->
  bgit_pack_read_loose repo sha w = (r, w') ->
  reads_only w w' /\ (r = Ret None \/ r = Ret (Some o)) /\ (w_answers w = [] -> r = Ret (Some o)).
Proof.
  intros Hc Hb Ho Hmax Hsha HR. unfold bgit_pack_read_loose in HR. rewrite Hsha in HR. cbn [negb Z.eqb Pos.eqb] in HR.
  unfold content, lookup_inode in Hc. destruct (names (w_fs w) !! loose_path repo sha) as [i|] eqn:En; [|done].
  simpl in Hc. destruct (inodes (w_fs w) !! i) as [nd|] eqn:Ei; [|done]. destruct (i_dir nd) eqn:Edir; [done|].
  injection Hc as Hraw. unfold ibind in HR. destruct (bgit_pack_slurp _ w) as [r1 w1] eqn:Hs.
  destruct (pack_slurp_spec _ _ _ _ _ _ En Ei Edir Hs) as (Hro & Hno & Hr). rewrite Hraw in *.
  destruct Hr as [-> | [k ->]].
  { injection HR as <- <-. split; [done|]. split; [by left|]. intros Ha. specialize (Hno Ha). done. }
  destruct (decode_loose (take k raw)) as [o'|m|] eqn:E.
  - pose proof (decode_loose_prefix _ _ _ _ Hb Ho E) as Ek. rewrite Ek, (decode_loose_holds raw o) in E by done.
    injection E as <-. injection HR as <- <-. split; [done|]. split; [by right|done].
  - injection HR as <- <-. split; [done|]. split; [by left|]. intros Ha. specialize (Hno Ha).
    injection Hno as Hno. by rewrite Hno, (decode_loose_holds raw o) in E.
  - exfalso. eapply decode_no_fault; [|exact E]. by apply Forall_take.
Qed.
Lemma loose_holds_nonempty o : ~ loose_holds [] o.
Proof.
  intros (infl & kind & Hst & -> & _). apply stream_at_ratio in Hst. revert Hst. unfold object_header.
  rewrite !len_app, len_cons. change (len (@nil Z)) with 0. rewrite len_app. change (len [0]) with 1.
  pose proof (len_nonneg (bgit_type_name kind)). pose proof (len_nonneg (print_dec (len (snd o)))).
  pose proof (len_nonneg (snd o)). lia.
Qed.

(** Reading any loose path: nothing is disturbed, and an object read is held by
    the file, or by the part of it the kernel let through. *)
Lemma read_loose_sound repo sha w r w' : fs_ok (w_fs w) ->
  (forall q raw, content (w_fs w) q = Some raw -> bytes raw) ->
  bgit_pack_read_loose repo sha w = (r, w') ->
  reads_only w w' /\ exists o, r = Ret o /\ forall x, o = Some x ->
    exists raw k, content (w_fs w) (loose_path repo sha) = Some raw /\ loose_holds (take k raw) x.
Proof.
  intros Hok Hfiles HR. unfold bgit_pack_read_loose in HR. case_if_in HR.
  { injection HR as <- <-. split; [by split|]. by exists None. }
  unfold ibind in HR. destruct (bgit_pack_slurp _ w) as [r1 w1] eqn:Hs.
  destruct (names (w_fs w) !! loose_path repo sha) as [i|] eqn:En.
  2:{ apply pack_slurp_absent in Hs as [Hro ->]; [|done]. injection HR as <- <-. split; [done|]. by exists None. }
  destruct (Hok _ _ En) as [nd Ei].
  assert (Hcut : exists raw, reads_only w w1 /\ bytes raw /\ (r1 = Ret None \/ exists k, r1 = Ret (Some (take k raw)) /\
    (i_dir nd = true -> take k raw = []) /\ (i_dir nd = false -> content (w_fs w) (loose_path repo sha) = Some raw))).
  { destruct (i_dir nd) eqn:Ed.
    - destruct (pack_slurp_dir _ _ _ _ _ _ En Ei Ed Hs) as (Hro & [-> | ->]); exists [].
      + split_and!; [done|constructor|by left].
      + split_and!; [done|constructor|right]. by exists O.
    - destruct (pack_slurp_spec _ _ _ _ _ _ En Ei Ed Hs) as (Hro & _ & Hr).
      assert (Hc : content (w_fs w) (loose_path repo sha) = Some (i_data nd)).
      { unfold content, lookup_inode. rewrite En. simpl. by rewrite Ei, Ed. }
      exists (i_data nd). split; [done|]. split; [by eapply Hfiles|].
      destruct Hr as [-> | [k ->]]; [by left|right]. by exists k. }
  destruct Hcut as (raw & Hro & Hb & [-> | (k & -> & Hd1 & Hd2)]).
  { injection HR as <- <-. split; [done|]. by exists None. }
  pose proof (decode_loose_yields (take k raw) ltac:(by apply Forall_take)) as Hy.
  destruct (decode_loose (take k raw)) as [o|m|] eqn:E; [| |done]; injection HR as <- <-.
  - split; [done|]. exists (Some o). split; [done|]. intros x [= <-]. cbn in Hy.
    destruct (i_dir nd); [rewrite Hd1 in Hy by done; by apply loose_holds_nonempty in Hy|].
    exists raw, k. split; [by apply Hd2|done].
  - split; [done|]. by exists None.
Qed.
End ReadLoose.

Lemma snprintf_short s : len s < 4096 -> snprintf4096 s = s.
Proof. intros. unfold snprintf4096. apply take_ge. unfold len in *. lia. Qed.

(** For paths that fit the buffers the writer and the reader agree. *)
Lemma loose_target_path repo sha : len repo <= 4000 -> len sha = 40 ->
  loose_target repo sha = loose_path repo sha.
Proof.
  intros Hr Hs. unfold loose_target, loose_path.
  assert (H2 : len (take 2 sha) = 2) by (rewrite len_take; lia).
  assert (H38 : len (drop 2 sha) = 38) by (rewrite len_drop; lia).
  assert (L1 : len (str "/.git/objects") = 13) by done. assert (L2 : len (str "/") = 1) by done.
  assert (L3 : len (str "/.git/objects/") = 14) by done.
  rewrite (snprintf_short (repo ++ _)) by (rewrite len_app; lia).
  rewrite (snprintf_short ((repo ++ str "/.git/objects") ++ _)) by (rewrite !len_app, H2; lia).
  rewrite !snprintf_short by (rewrite !len_app, H2, H38; lia).
  by rewrite <- !app_assoc.
Qed.

(* ------------------------------------------------------------------ *)
(** ** Properties *)

(**  The object header.  For every type and 64-bit size the reader decodes
    what the encoder writes, wherever it sits in the pack, and stops right after
    it; on any bytes at all it loads nothing outside the pack and never answers
    with an offset past its end. *)
Theorem obj_header_exact (pack : list Z) (off : Z) : bytes pack -> 0 <= off ->
  (forall pre post type size, 0 <= type < 8 -> 0 <= size <= UINT64_MAX ->
     pack = pre ++ bgit_pack_encode_obj_header type size ++ post -> off = len pre ->
     bgit_pack_read_obj_header pack off =
       Ret (type, size, off + len (bgit_pack_encode_obj_header type size))) /\
  safe (bgit_pack_read_obj_header pack off) /\
  (forall type size new_off, bgit_pack_read_obj_header pack off = Ret (type, size, new_off) ->
     off < new_off <= len pack).
Proof.
  intros Hb Ho. pose proof (read_header_yields pack off Hb Ho) as Hy. split_and!.
  - intros pre post type size Ht Hs -> ->. apply header_decoded; [done|]. unfold UINT64_MAX in Hs. lia.
  - by eapply yields_safe.
  - intros type size new_off E. by rewrite E in Hy.
Qed.


(* ------------------------------------------------------------------ *)
(** ** Witnesses *)

Definition demo_header_pack : list Z := [9; 9] ++ bgit_pack_encode_obj_header 3 UINT64_MAX ++ [7].

Lemma obj_header_exact_witness :
  bgit_pack_read_obj_header demo_header_pack 2 = Ret (3, UINT64_MAX, 12).
Proof.
  destruct (obj_header_exact demo_header_pack 2 ltac:(solve_bytes) ltac:(lia)) as (Hd & _).
  apply (Hd [9; 9] [7] 3 UINT64_MAX); [lia|unfold UINT64_MAX; lia|reflexivity|reflexivity].
Defined.

Definition demo_content : list Z := str "abc".
Definition demo_infl : list Z := object_header (str "blob") 3 ++ demo_content.
Definition demo_loose : list Z := len demo_infl :: demo_infl.

Lemma demo_loose_holds : @loose_holds stored_zlib demo_loose (BGIT_PACK_BLOB, demo_content).
Proof.
  exists demo_infl, BGIT_BLOB. refine (conj _ (conj eq_refl (conj _ (conj eq_refl _)))).
  - split; [vm_compute; split; discriminate|]. split; [vm_compute; reflexivity|solve_bytes].
  - done.
  - vm_compute. discriminate.
Qed.

(** A kernel that lets the directories be made, then writes in pieces. *)
Definition loose_world : world :=
  {| w_fs := {| names := ∅; inodes := ∅ |}; w_fds := ∅; w_errno := 0;
     w_answers := [Proceed; Proceed; Proceed; Proceed; Proceed; Proceed; Short 5; Errno EINTR];
     w_temps := [str "abcdef"]; w_now := (7, 0); w_log := []; w_reports := [] |}.

Lemma loose_fs_ok : fs_ok (w_fs loose_world).
Proof. intros p i H. cbn in H. by rewrite lookup_empty in H. Qed.

Lemma demo_loose_write : exists w',
  bgit_pack_write_loose (str "r") (bgit_sha_to_hex demo_oid) demo_loose loose_world = (Ret 0, w') /\
  content (w_fs w') (loose_path (str "r") (bgit_sha_to_hex demo_oid)) = Some demo_loose.
Proof.
  assert (Hrun : let r := bgit_pack_write_loose (str "r") (bgit_sha_to_hex demo_oid) demo_loose loose_world in
    fst r = Ret 0 /\ content (w_fs (snd r)) (loose_path (str "r") (bgit_sha_to_hex demo_oid)) = Some demo_loose)
    by (vm_compute; split; reflexivity).
  cbv zeta in Hrun. destruct (bgit_pack_write_loose _ _ _ loose_world) as [r w'].
  destruct Hrun as [E Hc]. cbn [fst snd] in *. subst r. by exists w'.
Qed.

