(* ===== verification/PackCache.v ===== *)
(** * The object cache (loadables/_git/pack.c, lines 685-787)

    The last objects built while resolving delta chains, in 256 slots and at
    most eight megabytes, dropped by least recent use.  The theorems show that
    the accounting is exact and the bound holds after any sequence of
    operations, and that what is taken was kept under the same key. *)

From S2P Require Import Prelude.
#[local] Open Scope Z_scope.

(* ------------------------------------------------------------------ *)
(** ** State *)

Definition BGIT_PACK_CACHE_SLOTS : nat := 256.
Definition BGIT_PACK_CACHE_BYTES : Z := 8 * 1024 * 1024.

(** A slot whose [data] is not null.  [c_pack] is the address of the pack's
    bytes, which with the length and the offset is the key. *)
Record bgit_pack_cached := {
  c_pack : Z; c_plen : Z; c_off : Z; c_type : Z; c_data : list Z; c_used : Z }.

Record pack_cache := {
  bgit_pack_cache : list (option bgit_pack_cached);
  bgit_pack_cache_bytes : Z;
  bgit_pack_cache_clock : Z }.

Definition empty_cache : pack_cache :=
  {| bgit_pack_cache := replicate BGIT_PACK_CACHE_SLOTS None;
     bgit_pack_cache_bytes := 0; bgit_pack_cache_clock := 0 |}.

(* ------------------------------------------------------------------ *)
(** ** Operations *)

Definition same_key (pack plen off : Z) (s : bgit_pack_cached) : bool :=
  (c_pack s =? pack) && (c_plen s =? plen) && (c_off s =? off).

(** The first slot with the key. *)
Fixpoint take_loop (slots : list (option bgit_pack_cached)) (i : nat) (pack plen off : Z)
    : option (nat * bgit_pack_cached) :=
  match slots with
  | [] => None
  | Some s :: slots' => if same_key pack plen off s then Some (i, s)
                        else take_loop slots' (S i) pack plen off
  | None :: slots' => take_loop slots' (S i) pack plen off
  end.

(** The object kept under the key, and the cache with that slot used just now. *)
Definition bgit_pack_cache_take (c : pack_cache) (pack plen off : Z)
    : option (Z * list Z) * pack_cache :=
  match take_loop (bgit_pack_cache c) 0 pack plen off with
  | None => (None, c)
  | Some (i, s) =>
      let clock := u64 (bgit_pack_cache_clock c + 1) in
      let s' := {| c_pack := c_pack s; c_plen := c_plen s; c_off := c_off s; c_type := c_type s;
                   c_data := c_data s; c_used := clock |} in
      (Some (c_type s, c_data s),
       {| bgit_pack_cache := <[i := Some s']> (bgit_pack_cache c);
          bgit_pack_cache_bytes := bgit_pack_cache_bytes c; bgit_pack_cache_clock := clock |})
  end.

Definition bgit_pack_cache_drop (c : pack_cache) (i : nat) : pack_cache :=
  match bgit_pack_cache c !! i with
  | Some (Some s) =>
      {| bgit_pack_cache := <[i := None]> (bgit_pack_cache c);
         bgit_pack_cache_bytes := bgit_pack_cache_bytes c - len (c_data s);
         bgit_pack_cache_clock := bgit_pack_cache_clock c |}
  | _ => c
  end.

(** The first empty slot, or the one used longest ago. *)
Fixpoint slot_loop (slots : list (option bgit_pack_cached)) (i : nat) (best : option (nat * Z))
    : option nat :=
  match slots with
  | [] => option_map fst best
  | None :: _ => Some i
  | Some s :: slots' =>
      slot_loop slots' (S i)
        (match best with
         | Some (_, used) => if c_used s <? used then Some (i, c_used s) else best
         | None => Some (i, c_used s)
         end)
  end.

(** The slot other than [keep] that was used longest ago. *)
Fixpoint oldest_loop (slots : list (option bgit_pack_cached)) (i keep : nat) (best : option (nat * Z))
    : option nat :=
  match slots with
  | [] => option_map fst best
  | s :: slots' =>
      oldest_loop slots' (S i) keep
        (match s with
         | Some s =>
             if Nat.eqb i keep then best
             else match best with
                  | Some (_, used) => if c_used s <? used then Some (i, c_used s) else best
                  | None => Some (i, c_used s)
                  end
         | None => best
         end)
  end.

(** Each turn empties a slot. *)
Fixpoint trim_loop (fuel : nat) (c : pack_cache) (keep : nat) : outcome pack_cache :=
  match fuel with
  | O => Fault
  | S fuel' =>
      if bgit_pack_cache_bytes c >? BGIT_PACK_CACHE_BYTES then
        match oldest_loop (bgit_pack_cache c) 0 keep None with
        | None => Ret c
        | Some i => trim_loop fuel' (bgit_pack_cache_drop c i) keep
        end
      else Ret c
  end.

Definition bgit_pack_cache_keep (c : pack_cache) (pack plen off type : Z) (data : list Z)
    : outcome pack_cache :=
  if len data >? BGIT_PACK_CACHE_BYTES / 4 then Ret c
  else
    match slot_loop (bgit_pack_cache c) 0 None with
    | None => Ret c
    | Some i =>
        let c := bgit_pack_cache_drop c i in
        let clock := u64 (bgit_pack_cache_clock c + 1) in
        let s := {| c_pack := pack; c_plen := plen; c_off := off; c_type := type;
                    c_data := data; c_used := clock |} in
        let c := {| bgit_pack_cache := <[i := Some s]> (bgit_pack_cache c);
                    bgit_pack_cache_bytes := bgit_pack_cache_bytes c + len data;
                    bgit_pack_cache_clock := clock |} in
        trim_loop (S (length (bgit_pack_cache c))) c i
    end.

Fixpoint forget_slots (n : nat) (c : pack_cache) (i : nat) : pack_cache :=
  match n with
  | O => c
  | S n' => forget_slots n' (bgit_pack_cache_drop c i) (S i)
  end.

Definition bgit_pack_objects_forget (c : pack_cache) : pack_cache :=
  forget_slots BGIT_PACK_CACHE_SLOTS c 0.

(* ------------------------------------------------------------------ *)
(** ** The accounting *)

Fixpoint held_bytes (slots : list (option bgit_pack_cached)) : Z :=
  match slots with
  | [] => 0
  | Some s :: slots' => len (c_data s) + held_bytes slots'
  | None :: slots' => held_bytes slots'
  end.

Fixpoint held_count (slots : list (option bgit_pack_cached)) : nat :=
  match slots with
  | [] => 0
  | Some _ :: slots' => S (held_count slots')
  | None :: slots' => held_count slots'
  end.

Definition slot_bytes (s : option bgit_pack_cached) : Z :=
  match s with Some s => len (c_data s) | None => 0 end.

(** Every slot and every byte is accounted for, and no object is large. *)
Record cache_wf (c : pack_cache) : Prop := {
  wf_slots : length (bgit_pack_cache c) = BGIT_PACK_CACHE_SLOTS;
  wf_bytes : bgit_pack_cache_bytes c = held_bytes (bgit_pack_cache c);
  wf_small : Forall (fun s => slot_bytes s <= BGIT_PACK_CACHE_BYTES / 4) (bgit_pack_cache c) }.

Definition cache_bounded (c : pack_cache) : Prop :=
  0 <= bgit_pack_cache_bytes c <= BGIT_PACK_CACHE_BYTES.

Lemma held_bytes_nonneg slots : 0 <= held_bytes slots.
Proof. induction slots as [|[s|] slots IH]; cbn; [lia| |done]. pose proof (len_nonneg (c_data s)). lia. Qed.

Lemma held_insert slots i s x : slots !! i = Some s ->
  held_bytes (<[i := x]> slots) = held_bytes slots - slot_bytes s + slot_bytes x.
Proof.
  revert i. induction slots as [|y slots IH]; intros [|i] Hi; try done.
  - injection Hi as ->. cbn. destruct s, x; cbn; lia.
  - change (<[S i:=x]> (y :: slots)) with (y :: <[i:=x]> slots). cbn [held_bytes].
    destruct y as [y|]; rewrite (IH i Hi); lia.
Qed.

Lemma count_insert_none slots i s : slots !! i = Some (Some s) ->
  held_count slots = S (held_count (<[i := None]> slots)).
Proof.
  revert i. induction slots as [|y slots IH]; intros [|i] Hi; try done.
  - by injection Hi as ->.
  - change (<[S i:=None]> (y :: slots)) with (y :: <[i:=None]> slots). cbn [held_count].
    destruct y; by rewrite (IH i Hi).
Qed.

Lemma held_one slots keep : (forall i s, slots !! i = Some (Some s) -> i = keep) ->
  held_bytes slots <= match slots !! keep with Some s => slot_bytes s | None => 0 end.
Proof.
  revert keep. induction slots as [|y slots IH]; intros keep H; cbn; [by destruct keep|].
  assert (Hnone : forall k, (forall i s, slots !! i = Some (Some s) -> S i = k) ->
    held_bytes slots <= match k with O => 0 | S k => match slots !! k with Some s => slot_bytes s | None => 0 end end).
  { intros [|k] Hk; [|apply IH; intros i s Hi; by injection (Hk i s Hi)].
    clear -Hk. induction slots as [|[s|] slots IH]; cbn; [lia|by specialize (Hk O s eq_refl)|].
    apply IH. intros i s Hi. by specialize (Hk (S i) s Hi). }
  destruct y as [s|].
  - pose proof (H O s eq_refl) as <-. cbn. specialize (Hnone O). 
    assert (held_bytes slots <= 0); [|lia]. apply Hnone. intros i x Hi. apply (H (S i) x Hi).
  - etrans; [apply (Hnone keep); intros i x Hi; apply (H (S i) x Hi)|]. destruct keep; cbn; [lia|done].
Qed.

Lemma take_loop_spec slots i pack plen off j s : take_loop slots i pack plen off = Some (j, s) ->
  (i <= j)%nat /\ slots !! (j - i)%nat = Some (Some s) /\ same_key pack plen off s = true.
Proof.
  revert i. induction slots as [|[x|] slots IH]; intros i H; cbn in H; [done| |].
  - case_if_in H.
    + injection H as <- <-. rewrite Nat.sub_diag. by split_and!; [lia|..].
    + apply IH in H as (H1 & H2 & H3). replace (j - i)%nat with (S (j - S i)) by lia. by split_and!; [lia|..].
  - apply IH in H as (H1 & H2 & H3). replace (j - i)%nat with (S (j - S i)) by lia. by split_and!; [lia|..].
Qed.

Lemma slot_loop_spec slots i best j : slot_loop slots i best = Some j ->
  (forall b u, best = Some (b, u) -> (b < i)%nat) ->
  (j < i + length slots)%nat.
Proof.
  revert i best. induction slots as [|[x|] slots IH]; intros i best H Hb; cbn in *.
  - destruct best as [[b u]|]; [|done]. injection H as <-. specialize (Hb b u eq_refl). cbn. lia.
  - apply IH in H; [lia|]. intros b u E. destruct best as [[b0 u0]|]; [case_if_in E|]; simplify_eq; try lia.
    specialize (Hb b u eq_refl). lia.
  - injection H as <-. lia.
Qed.

Lemma slot_loop_some slots i best : slots <> [] -> is_Some (slot_loop slots i best).
Proof.
  assert (H : forall slots i b, is_Some (slot_loop slots i (Some b))).
  { clear. induction slots as [|[x|] slots IH]; intros i [b u]; cbn; eauto. case_if; apply IH. }
  destruct slots as [|[x|] slots]; intros; [done| |by cbn; eauto]. cbn.
  destruct best as [[b u]|]; [case_if|]; apply H.
Qed.

Lemma oldest_loop_spec slots i keep best j : oldest_loop slots i keep best = Some j ->
  (exists u, best = Some (j, u)) \/
  ((i <= j)%nat /\ j <> keep /\ exists s, slots !! (j - i)%nat = Some (Some s)).
Proof.
  revert i best. induction slots as [|x slots IH]; intros i best H; cbn in H.
  - destruct best as [[b u]|]; [|done]. injection H as <-. left. eauto.
  - apply IH in H as [[u E]|(H1 & H2 & s & H3)].
    + destruct x as [s|]; [|left; eauto]. destruct (Nat.eqb_spec i keep); [left; eauto|].
      destruct best as [[b v]|]; [case_if_in E|]; simplify_eq; try (left; by eauto);
        right; rewrite Nat.sub_diag; split_and!; eauto.
    + right. replace (j - i)%nat with (S (j - S i)) by lia. split_and!; [lia|done|]. by exists s.
Qed.

Lemma oldest_loop_none slots i keep best : oldest_loop slots i keep best = None ->
  best = None /\ forall k s, slots !! k = Some (Some s) -> (i + k)%nat = keep.
Proof.
  revert i best. induction slots as [|x slots IH]; intros i best H; cbn in H.
  - by destruct best.
  - apply IH in H as [Hb H]. destruct x as [s|].
    + destruct (Nat.eqb_spec i keep); [|by destruct best as [[b u]|]; [case_if_in Hb|]].
      split; [done|]. intros [|k] y Hy; [lia|]. specialize (H k y Hy). lia.
    + split; [done|]. intros [|k] y Hy; [done|]. specialize (H k y Hy). lia.
Qed.

(* ------------------------------------------------------------------ *)
(** ** Each operation *)

(** What [c'] holds, [c] held; a slot's time of use may differ. *)
Definition holds (c : pack_cache) (pack plen off type : Z) (data : list Z) : Prop :=
  exists i s, bgit_pack_cache c !! i = Some (Some s) /\ c_pack s = pack /\ c_plen s = plen /\
    c_off s = off /\ c_type s = type /\ c_data s = data.

Lemma take_wf c pack plen off r c' : cache_wf c -> bgit_pack_cache_take c pack plen off = (r, c') ->
  cache_wf c' /\ bgit_pack_cache_bytes c' = bgit_pack_cache_bytes c /\
  (forall p l o t d, holds c' p l o t d -> holds c p l o t d) /\
  (forall t d, r = Some (t, d) -> holds c pack plen off t d).
Proof.
  intros [Hs Hb Hsm] H. unfold bgit_pack_cache_take in H.
  destruct (take_loop (bgit_pack_cache c) 0 pack plen off) as [[i s]|] eqn:E; [|by injection H as <- <-].
  apply take_loop_spec in E as (_ & Hi & Hkey). rewrite Nat.sub_0_r in Hi. injection H as <- <-.
  split; [split|split; [done|split]]; cbn.
  - by rewrite length_insert.
  - rewrite (held_insert _ _ _ _ Hi), Hb. cbn. lia.
  - apply Forall_insert; [done|]. rewrite Forall_lookup in Hsm. exact (Hsm i _ Hi).
  - intros p l o t d (j & x & Hj & Hx). cbn in Hj. destruct (decide (i = j)) as [<-|Hne].
    + rewrite list_lookup_insert_eq in Hj by (by eapply lookup_lt_Some). injection Hj as <-. by exists i, s.
    + rewrite list_lookup_insert_ne in Hj by done. by exists j, x.
  - intros t d [= <- <-]. exists i, s. unfold same_key in Hkey. simpl_bool. by split_and!.
Qed.

Lemma drop_wf c i : cache_wf c -> cache_wf (bgit_pack_cache_drop c i) /\
  (forall p l o t d, holds (bgit_pack_cache_drop c i) p l o t d -> holds c p l o t d).
Proof.
  intros Hwf. pose proof Hwf as [Hs Hb Hsm]. unfold bgit_pack_cache_drop.
  destruct (bgit_pack_cache c !! i) as [[s|]|] eqn:Hi; [|by split..].
  split; [split|]; cbn.
  - by rewrite length_insert.
  - rewrite (held_insert _ _ _ _ Hi), Hb. cbn. lia.
  - apply Forall_insert; [done|]. by vm_compute.
  - intros p l o t d (j & x & Hj & Hx). cbn in Hj. destruct (decide (i = j)) as [<-|Hne].
    + rewrite list_lookup_insert_eq in Hj by (by eapply lookup_lt_Some). done.
    + rewrite list_lookup_insert_ne in Hj by done. by exists j, x.
Qed.

Lemma drop_empty c i : cache_wf c -> (i < length (bgit_pack_cache c))%nat ->
  bgit_pack_cache (bgit_pack_cache_drop c i) !! i = Some None.
Proof.
  intros Hwf Hi. unfold bgit_pack_cache_drop. destruct (lookup_lt_is_Some_2 _ _ Hi) as [[s|] E]; rewrite E; cbn; [|done].
  by apply list_lookup_insert_eq.
Qed.

Lemma drop_keeps c i keep : i <> keep ->
  bgit_pack_cache (bgit_pack_cache_drop c i) !! keep = bgit_pack_cache c !! keep.
Proof.
  intros Hne. unfold bgit_pack_cache_drop. destruct (bgit_pack_cache c !! i) as [[s|]|]; [|done..]. cbn.
  by apply list_lookup_insert_ne.
Qed.

Lemma trim_wf fuel : forall c keep, cache_wf c -> (held_count (bgit_pack_cache c) < fuel)%nat ->
  exists c', trim_loop fuel c keep = Ret c' /\ cache_wf c' /\ cache_bounded c' /\
    bgit_pack_cache c' !! keep = bgit_pack_cache c !! keep /\
    (forall p l o t d, holds c' p l o t d -> holds c p l o t d).
Proof.
  induction fuel as [|fuel IH]; intros c keep Hwf Hf; [lia|]. cbn [trim_loop].
  pose proof Hwf as [Hs Hb Hsm]. pose proof (held_bytes_nonneg (bgit_pack_cache c)).
  case_if.
  2:{ exists c. unfold cache_bounded. by split_and!; [..|lia|lia|done|auto]. }
  destruct (oldest_loop (bgit_pack_cache c) 0 keep None) as [i|] eqn:E.
  - apply oldest_loop_spec in E as [[u E]|(_ & Hne & s & Hi)]; [done|]. rewrite Nat.sub_0_r in Hi.
    destruct (drop_wf c i Hwf) as [Hwf' Hh].
    destruct (IH (bgit_pack_cache_drop c i) keep Hwf') as (c' & -> & Hwf'' & Hbd & Hk & Hh').
    { unfold bgit_pack_cache_drop. rewrite Hi. cbn. rewrite (count_insert_none _ _ _ Hi) in Hf. lia. }
    exists c'. split_and!; try done; [|auto]. rewrite Hk. by apply drop_keeps.
  - exfalso. apply oldest_loop_none in E as [_ E].
    pose proof (held_one (bgit_pack_cache c) keep E) as Hone.
    destruct (bgit_pack_cache c !! keep) as [s|] eqn:Ek; [|unfold BGIT_PACK_CACHE_BYTES in *; lia].
    rewrite Forall_lookup in Hsm. specialize (Hsm keep s Ek). cbn in Hsm.
    unfold BGIT_PACK_CACHE_BYTES in *. change (8 * 1024 * 1024 / 4) with 2097152 in *. lia.
Qed.

Lemma held_count_length slots : (held_count slots <= length slots)%nat.
Proof. induction slots as [|[s|] slots IH]; cbn; lia. Qed.

Lemma keep_wf c pack plen off type data : cache_wf c -> cache_bounded c ->
  exists c', bgit_pack_cache_keep c pack plen off type data = Ret c' /\ cache_wf c' /\ cache_bounded c' /\
    (forall p l o t d, holds c' p l o t d -> holds c p l o t d \/ (p, l, o, t, d) = (pack, plen, off, type, data)) /\
    (len data <= BGIT_PACK_CACHE_BYTES / 4 -> holds c' pack plen off type data).
Proof.
  intros Hwf Hbd. unfold bgit_pack_cache_keep. case_if.
  { exists c. split_and!; try done; auto. lia. }
  assert (Hne : bgit_pack_cache c <> []).
  { intros E. destruct Hwf as [Hs _ _]. by rewrite E in Hs. }
  destruct (slot_loop_some (bgit_pack_cache c) 0 None Hne) as [i Ei]. rewrite Ei.
  apply slot_loop_spec in Ei; [|done]. cbn [Nat.add] in Ei.
  destruct (drop_wf c i Hwf) as [Hwf1 Hh1]. pose proof (drop_empty c i Hwf Ei) as Hempty.
  set (c1 := bgit_pack_cache_drop c i) in *. destruct Hwf1 as [Hs1 Hb1 Hsm1].
  set (s := {| c_pack := pack |}).
  match goal with |- context [trim_loop _ ?c0 i] => set (c2 := c0) end.
  assert (Hwf2 : cache_wf c2).
  { split; cbn.
    - by rewrite length_insert.
    - rewrite (held_insert _ _ _ _ Hempty), Hb1. cbn. lia.
    - apply Forall_insert; [done|]. cbn. lia. }
  destruct (trim_wf (S (length (bgit_pack_cache c2))) c2 i Hwf2) as (c' & E & Hwf' & Hbd' & Hk & Hh').
  { pose proof (held_count_length (bgit_pack_cache c2)). lia. }
  rewrite E. exists c'. split_and!; try done.
  - intros p l o t d Hh. destruct (Hh' _ _ _ _ _ Hh) as (j & x & Hj & Hx). cbn in Hj.
    destruct (decide (i = j)) as [<-|Hij].
    + rewrite list_lookup_insert_eq in Hj by (by eapply lookup_lt_Some). injection Hj as <-. right.
      destruct Hx as (<- & <- & <- & <- & <-). done.
    + rewrite list_lookup_insert_ne in Hj by done. left. apply Hh1. by exists j, x.
  - intros _. exists i, s. split; [|done]. rewrite Hk. cbn. apply list_lookup_insert_eq.
    by eapply lookup_lt_Some.
Qed.

Lemma forget_wf n : forall c i, cache_wf c -> (i + n <= BGIT_PACK_CACHE_SLOTS)%nat ->
  (forall j, (j < i)%nat -> bgit_pack_cache c !! j = Some None) ->
  cache_wf (forget_slots n c i) /\
  forall j, (j < i + n)%nat -> bgit_pack_cache (forget_slots n c i) !! j = Some None.
Proof.
  induction n as [|n IH]; intros c i Hwf Hn Hlow; cbn [forget_slots].
  - split; [done|]. intros j Hj. apply Hlow. lia.
  - destruct (drop_wf c i Hwf) as [Hwf' _]. replace (i + S n)%nat with (S i + n)%nat by lia.
    apply IH; [done|lia|]. intros j Hj. destruct (decide (j = i)) as [->|].
    + apply drop_empty; [done|]. destruct Hwf as [-> _ _]. lia.
    + rewrite drop_keeps by done. apply Hlow. lia.
Qed.

Lemma forget_empty c : cache_wf c -> cache_wf (bgit_pack_objects_forget c) /\
  bgit_pack_cache_bytes (bgit_pack_objects_forget c) = 0 /\
  forall p l o t d, ~ holds (bgit_pack_objects_forget c) p l o t d.
Proof.
  intros Hwf.
  assert (H : cache_wf (bgit_pack_objects_forget c) /\
    forall j, (j < BGIT_PACK_CACHE_SLOTS)%nat -> bgit_pack_cache (bgit_pack_objects_forget c) !! j = Some None).
  { apply (forget_wf BGIT_PACK_CACHE_SLOTS c 0 Hwf); lia. }
  generalize dependent (bgit_pack_objects_forget c). clear c Hwf. intros c [Hwf Hall].
  split; [done|]. destruct Hwf as [Hs Hb _].
  assert (Hnone : forall j s, bgit_pack_cache c !! j <> Some (Some s)).
  { intros j s Hj. pose proof (lookup_lt_Some _ _ _ Hj) as Hlt.
    rewrite Hs in Hlt. by rewrite (Hall j Hlt) in Hj. }
  split.
  - rewrite Hb. clear -Hnone. induction (bgit_pack_cache c) as [|[s|] l IH]; [done|by destruct (Hnone O s)|].
    apply IH. intros j s. apply (Hnone (S j) s).
  - intros p l o t d (j & s & Hj & _). by eapply Hnone.
Qed.

Lemma empty_holds p l o t d : ~ holds empty_cache p l o t d.
Proof. intros (i & s & Hi & _). apply list_elem_of_lookup_2, elem_of_replicate in Hi as [Hi _]. done. Qed.

Lemma empty_cache_wf : cache_wf empty_cache /\ cache_bounded empty_cache.
Proof.
  assert (H0 : 0 <= BGIT_PACK_CACHE_BYTES / 4) by (vm_compute; discriminate).
  split; [split|].
  - apply length_replicate.
  - vm_compute. reflexivity.
  - exact (Forall_replicate (fun s => slot_bytes s <= BGIT_PACK_CACHE_BYTES / 4) 256 None H0).
  - split; vm_compute; discriminate.
Qed.

(* ------------------------------------------------------------------ *)
(** ** Any use of the cache *)

Inductive cache_op :=
| Take (pack plen off : Z)
| Keep (pack plen off type : Z) (data : list Z)
| Forget.

Definition cache_step (c : pack_cache) (op : cache_op) : outcome pack_cache :=
  match op with
  | Take pack plen off => Ret (snd (bgit_pack_cache_take c pack plen off))
  | Keep pack plen off type data => bgit_pack_cache_keep c pack plen off type data
  | Forget => Ret (bgit_pack_objects_forget c)
  end.

Fixpoint cache_run (c : pack_cache) (ops : list cache_op) : outcome pack_cache :=
  match ops with
  | [] => Ret c
  | op :: ops' => let* c := cache_step c op in cache_run c ops'
  end.

(** What has been kept since the cache was last emptied. *)
Definition since_forget (ops : list cache_op) : list cache_op :=
  foldl (fun h op => match op with Forget => [] | _ => op :: h end) [] ops.

Lemma cache_run_wf ops : forall c h, cache_wf c -> cache_bounded c ->
  (forall p l o t d, holds c p l o t d -> Keep p l o t d ∈ h) ->
  exists c', cache_run c ops = Ret c' /\ cache_wf c' /\ cache_bounded c' /\
    forall p l o t d, holds c' p l o t d ->
      Keep p l o t d ∈ foldl (fun h op => match op with Forget => [] | _ => op :: h end) h ops.
Proof.
  induction ops as [|op ops IH]; intros c h Hwf Hbd Hh; cbn [cache_run foldl].
  { exists c. by split_and!. }
  destruct op as [p l o|p l o t d|]; cbn [cache_step].
  - destruct (bgit_pack_cache_take c p l o) as [r c1] eqn:E.
    destruct (take_wf _ _ _ _ _ _ Hwf E) as (Hwf1 & Hb1 & Hh1 & _). cbn [obind snd].
    apply IH; [done| |]; [unfold cache_bounded; by rewrite Hb1|]. intros. right. auto.
  - destruct (keep_wf c p l o t d Hwf Hbd) as (c1 & -> & Hwf1 & Hbd1 & Hh1 & _). cbn [obind].
    apply IH; [done..|]. intros p' l' o' t' d' Hx. destruct (Hh1 _ _ _ _ _ Hx) as [Hx'|E].
    + right. auto.
    + injection E as -> -> -> -> ->. left.
  - destruct (forget_empty c Hwf) as (Hwf1 & Hb1 & Hno). cbn [obind].
    generalize dependent (bgit_pack_objects_forget c). intros c1 Hwf1 Hb1 Hno.
    apply IH; [done| |]; [unfold cache_bounded; rewrite Hb1; by vm_compute|]. intros p l o t d Hx. by destruct (Hno p l o t d).
Qed.

(* ------------------------------------------------------------------ *)
(** ** Properties *)

(** [C14]  The object cache after any sequence of takes, keeps and releases from
    the empty cache: every operation ends; the byte count is the sum of the
    lengths held and at most eight megabytes, in 256 slots; and an object taken
    was kept, under the same pack, length and offset, since the last release. *)
Theorem cache_invariant (ops : list cache_op) :
  exists c, cache_run empty_cache ops = Ret c /\
    length (bgit_pack_cache c) = BGIT_PACK_CACHE_SLOTS /\
    bgit_pack_cache_bytes c = held_bytes (bgit_pack_cache c) /\
    0 <= bgit_pack_cache_bytes c <= BGIT_PACK_CACHE_BYTES /\
    forall pack plen off type data,
      fst (bgit_pack_cache_take c pack plen off) = Some (type, data) ->
      Keep pack plen off type data ∈ since_forget ops.
Proof.
  destruct empty_cache_wf as [Hwf Hbd].
  destruct (cache_run_wf ops empty_cache [] Hwf Hbd) as (c & E & Hwf' & Hbd' & Hh).
  - intros p l o t d Hx. by apply empty_holds in Hx.
  - exists c. pose proof Hwf' as [Hs Hb _]. split_and!; [done..|apply Hbd'|apply Hbd'|].
    intros p l o t d Ht. destruct (bgit_pack_cache_take c p l o) as [r c1] eqn:Et.
    cbn in Ht. subst r. destruct (take_wf _ _ _ _ _ _ Hwf' Et) as (_ & _ & _ & Hr). by apply Hh, Hr.
Qed.

(** Two keeps and a take, as they run. *)
Example cache_demo :
  obind (cache_run empty_cache [Keep 1 50 12 3 (str "abc"); Keep 1 50 20 3 (str "xy"); Take 1 50 12])
    (fun c => Ret (bgit_pack_cache_bytes c, fst (bgit_pack_cache_take c 1 50 20),
                   fst (bgit_pack_cache_take c 2 50 20))) = Ret (5, Some (3, str "xy"), None).
Proof. vm_compute. reflexivity. Qed.
