(* ===== verification/PackRead.v ===== *)
(** * Reading packed objects (loadables/_git/pack.c, lines 789-905)

    [bgit_pack_read_object_at] with the bases it resolves through the object
    cache.  The relation [resolves] says what object a pack holds at an offset,
    with no cache and no depth limit.  The theorems show that a read never
    answers with anything else, whatever the pack's bytes, that it finds every
    object whose chain is within the depth limit, that it always ends, and that
    the cache is invisible as long as it is not asked about other bytes at the
    same address. *)

From S2P Require Import Prelude Endian Odb Delta Sys CLib IndexFile PackIdx Zlib PackObj PackCache.
#[local] Open Scope Z_scope.

(* ------------------------------------------------------------------ *)
(** ** Reading *)

Definition object : Type := Z * list Z.

(** What a read gives: an object, or the silent failure; and the cache. *)
Definition reading : Type := option object * pack_cache.

(** A step of a reader that may fail silently. *)
Definition attempt {A} (x : outcome A) (c : pack_cache) (k : A -> io reading) : io reading :=
  match x with
  | Ret a => k a
  | Fail _ => iret (None, c)
  | Fault => lift Fault
  end.

Definition whole_type (type : Z) : bool :=
  (type =? BGIT_PACK_COMMIT) || (type =? BGIT_PACK_TREE) || (type =? BGIT_PACK_BLOB)
  || (type =? BGIT_PACK_TAG).

(** The distance to the base: each byte after the first adds one before it
    shifts, so no distance has two spellings. *)
Fixpoint base_off_loop (fuel : nat) (pack : list Z) (b base_off_delta iters cur : Z) : outcome (Z * Z) :=
  match fuel with
  | O => Fault
  | S fuel' =>
      if Z.land b 0x80 =? 0 then Ret (base_off_delta, cur)
      else if cur >=? len pack then failed
      else if iters >=? 9 then failed
      else if base_off_delta >=? Z.shiftr UINT64_MAX 7 then failed
      else
        let* b := rd pack cur in
        base_off_loop fuel' pack b
          (Z.lor (u64 (Z.shiftl (base_off_delta + 1) 7)) (Z.land b 0x7F)) (iters + 1) (cur + 1)
  end.

Definition read_base_off (pack : list Z) (cur : Z) : outcome (Z * Z) :=
  if cur >=? len pack then failed
  else
    let* b := rd pack cur in
    base_off_loop 10 pack b (Z.land b 0x7F) 0 (cur + 1).

Section Read.
Context `{Zlib}.

(** The data of the stream at [cur], of the size the header gave. *)
Definition inflate_at (pack : list Z) (cur expected : Z) : outcome (list Z) :=
  let* src := rdn pack cur (len pack - cur) in
  let* r := bgit_pack_inflate src expected in
  let '(data, used) := r in
  if negb (len data =? expected) then failed else Ret data.

(** The target of a delta, once its base has been read. *)
Definition apply_to_base (delta : list Z) (r : reading) : io reading :=
  let '(o, c) := r in
  match o with
  | None => iret (None, c)
  | Some (base_type, base) =>
      attempt (bgit_pack_apply_delta base delta) c (fun out => iret (Some (base_type, out), c))
  end.

(** The base at [off]: kept, or read with [read] and kept. *)
Definition bgit_pack_read_base (read : pack_cache -> Z -> Z -> io reading) (c : pack_cache)
    (pack_addr plen off depth : Z) : io reading :=
  match bgit_pack_cache_take c pack_addr plen off with
  | (Some o, c) => iret (Some o, c)
  | (None, c) =>
      let! r := read c off depth in
      let '(o, c) := r in
      match o with
      | None => iret (None, c)
      | Some (type, data) =>
          let! c := lift (bgit_pack_cache_keep c pack_addr plen off type data) in
          iret (Some (type, data), c)
      end
  end.

(** [pack_addr] is where the pack's bytes are; [repo] may be null. *)
Fixpoint bgit_pack_read_object_at (fuel : nat) (pack_addr : Z) (pack idx : list Z)
    (repo : option path) (c : pack_cache) (off depth : Z) : io reading :=
  match fuel with
  | O => lift Fault
  | S fuel' =>
      let read := bgit_pack_read_object_at fuel' pack_addr pack idx repo in
      if depth >? BGIT_PACK_MAX_DELTA_DEPTH then iret (None, c)
      else attempt (bgit_pack_read_obj_header pack off) c (fun '(type, expected, cur) =>
        if whole_type type then
          attempt (inflate_at pack cur expected) c (fun data => iret (Some (type, data), c))
        else if type =? BGIT_PACK_OFS_DELTA then
          attempt (read_base_off pack cur) c (fun '(base_off_delta, cur) =>
            if (base_off_delta =? 0) || (base_off_delta >? off) then iret (None, c)
            else attempt (inflate_at pack cur expected) c (fun delta =>
              let! r := bgit_pack_read_base read c pack_addr (len pack) (off - base_off_delta) (depth + 1) in
              apply_to_base delta r))
        else if type =? BGIT_PACK_REF_DELTA then
          if cur + 20 >? len pack then iret (None, c)
          else attempt (rdn pack cur 20) c (fun base_sha =>
            attempt (inflate_at pack (cur + 20) expected) c (fun delta =>
              attempt (bgit_pack_lookup_offset idx base_sha) c (fun base_off =>
                if negb (base_off =? absent) then
                  let! r := bgit_pack_read_base read c pack_addr (len pack) base_off (depth + 1) in
                  apply_to_base delta r
                else
                  let repo := match repo with Some p => p | None => str "." end in
                  let! o := bgit_pack_read_loose repo (bgit_sha_to_hex base_sha) in
                  apply_to_base delta (o, c))))
        else iret (None, c))
  end.

(* ------------------------------------------------------------------ *)
(** ** What a pack holds *)

(** The distance back to a delta's base, as the pack format writes it: groups
    of seven bits, the first ones with their high bit set and each counting one
    more than it says, so that no distance can be written in two lengths. *)
Fixpoint distance (groups : list Z) (last : Z) : Z :=
  match groups with
  | [] => last
  | a :: groups' => (a + 1) * 128 ^ (1 + len groups') + distance groups' last
  end.

Definition is_group (a : Z) : Prop := 0 <= a < 128.

(** At [cur] stands the distance [d]; the next byte is at [cur']. *)
Definition distance_at (pack : list Z) (cur d cur' : Z) : Prop :=
  exists groups last, Forall is_group groups /\ is_group last /\ cur' = cur + len groups + 1 /\
    rdn pack cur (len groups + 1) = Ret (map (Z.add 128) groups ++ [last]) /\
    d = distance groups last /\ d <= UINT64_MAX.

Section Meaning.
Context (pack idx : list Z) (loose : list Z -> object -> Prop).

(** The pack holds the object [o] at [off], [n] deltas away from a whole one;
    [loose sha o] says which objects live outside the pack. *)
Inductive resolves : Z -> nat -> object -> Prop :=
| resolves_whole off type cur data used :
    bgit_pack_read_obj_header pack off = Ret (type, len data, cur) -> whole_type type = true ->
    stream_at (drop (Z.to_nat cur) pack) data used ->
    resolves off 0 (type, data)
| resolves_ofs off n cur d cur' delta used type base out :
    bgit_pack_read_obj_header pack off = Ret (BGIT_PACK_OFS_DELTA, len delta, cur) ->
    distance_at pack cur d cur' -> 0 < d <= off ->
    stream_at (drop (Z.to_nat cur') pack) delta used ->
    resolves (off - d) n (type, base) -> bgit_pack_apply_delta base delta = Ret out ->
    resolves off (S n) (type, out)
| resolves_ref off n cur sha boff delta used type base out :
    bgit_pack_read_obj_header pack off = Ret (BGIT_PACK_REF_DELTA, len delta, cur) ->
    rdn pack cur 20 = Ret sha ->
    stream_at (drop (Z.to_nat (cur + 20)) pack) delta used ->
    bgit_pack_lookup_offset idx sha = Ret boff -> boff <> absent ->
    resolves boff n (type, base) -> bgit_pack_apply_delta base delta = Ret out ->
    resolves off (S n) (type, out)
| resolves_thin off cur sha delta used type base out :
    bgit_pack_read_obj_header pack off = Ret (BGIT_PACK_REF_DELTA, len delta, cur) ->
    rdn pack cur 20 = Ret sha ->
    stream_at (drop (Z.to_nat (cur + 20)) pack) delta used ->
    bgit_pack_lookup_offset idx sha = Ret absent ->
    loose sha (type, base) -> bgit_pack_apply_delta base delta = Ret out ->
    resolves off 0 (type, out).
End Meaning.

(** The loose object of an id under [repo]: its file holds it, or, when only a
    prefix of the file could be read, that prefix does. *)
Definition loose_whole (f : fs) (repo : path) (sha : list Z) (o : object) : Prop :=
  exists raw, content f (loose_path repo (bgit_sha_to_hex sha)) = Some raw /\ loose_holds raw o.

Definition loose_cut (f : fs) (repo : path) (sha : list Z) (o : object) : Prop :=
  exists raw k, content f (loose_path repo (bgit_sha_to_hex sha)) = Some raw /\ loose_holds (take k raw) o.
End Read.

(* ------------------------------------------------------------------ *)
(** ** The pieces *)

(** *** Distances *)

Lemma distance_pos groups last : Forall is_group groups -> is_group last ->
  0 <= distance groups last /\ (groups <> [] -> 128 ^ len groups <= distance groups last).
Proof.
  unfold is_group. intros Hg Hl. induction Hg as [|a gs Ha Hg IH]; cbn [distance]; [split; [lia|done]|].
  rewrite len_cons. pose proof (len_nonneg gs). pose proof (Z.pow_pos_nonneg 128 (1 + len gs) ltac:(lia) ltac:(lia)).
  destruct IH as [IH _]. split; [nia|]. intros _. nia.
Qed.

Lemma rdn_cons pack cur n x l : 0 <= n -> 
  rdn pack cur (1 + n) = Ret (x :: l) <-> rd pack cur = Ret x /\ rdn pack (cur + 1) n = Ret l.
Proof.
  intros Hn. unfold rdn, rd. split.
  - case_if; [|done]. intros E%Ret_inj. if_true. if_true.
    replace (Z.to_nat (1 + n)) with (S (Z.to_nat n)) in E by lia.
    replace (Z.to_nat (cur + 1)) with (S (Z.to_nat cur)) by lia.
    destruct (drop (Z.to_nat cur) pack) as [|y r] eqn:Ed; [done|]. injection E as -> <-.
    pose proof (f_equal (@length Z) Ed) as El. rewrite length_drop in El. simpl in El. unfold len in *.
    rewrite <- (take_drop (Z.to_nat cur) pack), Ed.
    rewrite app_nth2 by (rewrite length_take; lia). rewrite length_take, Nat.min_l, Nat.sub_diag by lia. split; [done|].
    f_equal. f_equal. rewrite drop_app_ge by (rewrite length_take; lia). rewrite length_take, Nat.min_l by lia.
    by replace (S (Z.to_nat cur) - Z.to_nat cur)%nat with 1%nat by lia.
  - case_if; [|intros [? ?]; done]. case_if; [|intros [? ?]; done]. intros [E1%Ret_inj E2%Ret_inj]. if_true. f_equal.
    replace (Z.to_nat (1 + n)) with (S (Z.to_nat n)) by lia.
    replace (Z.to_nat (cur + 1)) with (S (Z.to_nat cur)) in E2 by lia.
    assert (Hlt : (Z.to_nat cur < length pack)%nat) by (unfold len in *; lia).
    rewrite (drop_S pack x (Z.to_nat cur)); [cbn [firstn]; by rewrite E2|].
    destruct (lookup_lt_is_Some_2 pack _ Hlt) as [y Ey]. rewrite Ey. f_equal. rewrite <- E1. symmetry. by apply nth_lookup_Some.
Qed.

Lemma rdn_nil pack cur : 0 <= cur <= len pack -> rdn pack cur 0 = Ret [].
Proof. intros Hc. rewrite rdn_ok by lia. done. Qed.

Lemma byte_high_bit b : is_byte b -> (Z.land b 0x80 =? 0) = (b <? 128).
Proof.
  intros Hb. apply eqb_prop.
  exact (range_forallb 256 (fun b => eqb (Z.land b 0x80 =? 0) (b <? 128)) ltac:(vm_compute; reflexivity) b Hb).
Qed.

(** One more group: what the loop makes of the value so far. *)
Lemma next_value v b : 0 <= v -> v < Z.shiftr UINT64_MAX 7 -> is_byte b ->
  Z.lor (u64 (Z.shiftl (v + 1) 7)) (Z.land b 0x7F) = (v + 1) * 128 + b mod 128.
Proof.
  intros Hv Hlt _. change (Z.shiftr UINT64_MAX 7) with (2 ^ 57 - 1) in Hlt. rewrite Z.shiftl_mul_pow2 by lia.
  unfold u64. rewrite Z.mod_small by lia. change (Z.land b 127) with (Z.land b (2 ^ 7 - 1)). rewrite land_ones_mod by lia.
  change 128 with (2 ^ 7). apply lor_bytes; [lia|]. apply Z.mod_pos_bound. lia.
Qed.

(** What the loop adds to the value [v] when the last byte's high bit is set. *)
Definition distance_rest (pack : list Z) (cur v d cur' : Z) : Prop :=
  exists groups last, Forall is_group groups /\ is_group last /\ cur' = cur + len groups + 1 /\
    rdn pack cur (len groups + 1) = Ret (map (Z.add 128) groups ++ [last]) /\
    d = (v + 1) * 128 ^ (1 + len groups) + distance groups last /\ d <= UINT64_MAX.

Lemma distance_rest_step pack cur v d cur' : 0 <= v -> distance_rest pack cur v d cur' <->
  exists b, rd pack cur = Ret b /\ is_byte b /\ v < Z.shiftr UINT64_MAX 7 /\
    let v' := (v + 1) * 128 + b mod 128 in
    (b < 128 /\ d = v' /\ cur' = cur + 1) \/ (128 <= b /\ distance_rest pack (cur + 1) v' d cur').
Proof.
  intros Hv. change (Z.shiftr UINT64_MAX 7) with (2 ^ 57 - 1). cbv zeta. split.
  - intros (gs & last & Hg & Hl & -> & Hr & -> & Hd). unfold is_group in Hl.
    destruct gs as [|a gs]; cbn [map app] in Hr; [rewrite len_nil in *|rewrite len_cons in *].
    + change (0 + 1) with (1 + 0) in Hr. apply rdn_cons in Hr as [Hr _]; [|lia]. exists last.
      rewrite Z.mod_small by lia. cbn [distance] in *. unfold is_byte, UINT64_MAX in *. split_and!; [done|lia..|]. left. lia.
    + replace (1 + len gs + 1) with (1 + (len gs + 1)) in Hr by lia. pose proof (len_nonneg gs).
      apply rdn_cons in Hr as [Hr1 Hr2]; [|lia]. apply Forall_cons in Hg as [Ha Hg]. unfold is_group in Ha.
      destruct (distance_pos gs last Hg Hl) as [Hp _]. cbn [distance] in *.
      pose proof (Z.pow_pos_nonneg 128 (len gs) ltac:(lia) ltac:(lia)) as Hpow.
      rewrite (Z.pow_add_r 128 1 (1 + len gs)), (Z.pow_add_r 128 1 (len gs)) in * by lia. change (128 ^ 1) with 128 in *.
      exists (128 + a). replace ((128 + a) mod 128) with a by dlia.
      unfold is_byte, UINT64_MAX in *. split_and!; [done|lia..|nia|]. right. split; [lia|].
      exists gs, last. split_and!; try done; [lia|].
      rewrite (Z.pow_add_r 128 1 (len gs)) by lia. lia.
  - intros (b & Hr & Hb & Hlt & [(Hb1 & -> & ->)|(Hb1 & gs & last & Hg & Hl & -> & Hr2 & -> & Hd)]); unfold is_byte in Hb.
    + exists [], b. unfold is_group, UINT64_MAX. change (len (@nil Z)) with 0. cbn [map app distance]. rewrite Z.mod_small in * by lia.
      split_and!; [done|lia..| |lia|lia]. apply (rdn_cons pack cur 0); [lia|]. split; [done|]. apply rdn_nil.
      apply rd_inv in Hr as [? _]. lia.
    + pose proof (len_nonneg gs). exists ((b - 128) :: gs), last. rewrite len_cons.
      replace (b mod 128) with (b - 128) in * by dlia.
      assert (Hsum : (v + 1) * 128 ^ (1 + (1 + len gs)) + distance ((b - 128) :: gs) last =
        ((v + 1) * 128 + (b - 128) + 1) * 128 ^ (1 + len gs) + distance gs last).
      { cbn [distance]. rewrite (Z.pow_add_r 128 1 (1 + len gs)) by lia. lia. }
      split_and!; [constructor; [unfold is_group; lia|done]|done|lia| |lia|lia].
      cbn [map app]. replace (1 + len gs + 1) with (1 + (len gs + 1)) by lia. apply rdn_cons; [lia|]. split; [|done].
      rewrite Hr. f_equal. lia.
Qed.

Lemma base_off_loop_exact fuel pack d cur' : bytes pack -> forall b v iters cur, is_byte b -> 0 <= v -> 0 <= iters -> 0 <= cur ->
  128 ^ iters <= v + 1 -> 10 <= Z.of_nat fuel + iters -> (0 < fuel)%nat ->
  base_off_loop fuel pack b v iters cur = Ret (d, cur') <->
  (b < 128 /\ d = v /\ cur' = cur) \/ (128 <= b /\ distance_rest pack cur v d cur').
Proof.
  intros Hp. induction fuel as [|fuel IH]; intros b v iters cur Hb Hv Hi Hc Hpow Hf Hf0; [lia|]. cbn [base_off_loop].
  rewrite byte_high_bit by done. case_if; [split; [intros [= -> ->]; left; lia|intros [(_ & -> & ->)|[? _]]; [done|lia]]|].
  transitivity (distance_rest pack cur v d cur'); [|split; [intros; by right|intros [[? _]|[_ ?]]; [lia|done]]].
  rewrite distance_rest_step by done. case_if.
  { split; [done|]. intros (b' & Hr & _). apply rd_inv in Hr as [? _]. lia. }
  case_if.
  { split; [done|]. intros (b' & _ & _ & Hlt & _). pose proof (Z.pow_le_mono_r 128 9 iters ltac:(lia) ltac:(lia)).
    change (Z.shiftr UINT64_MAX 7) with (2 ^ 57 - 1) in Hlt. lia. }
  case_if; [split; [done|intros (b' & _ & _ & Hlt & _); lia]|].
  rewrite rd_ok by lia. cbn [obind]. set (b' := nth _ _ _).
  assert (Hb' : is_byte b') by (apply (rd_byte pack cur); [done|apply rd_ok; lia]).
  rewrite next_value by (done || lia). pose proof (Z.mod_pos_bound b' 128 ltac:(lia)).
  rewrite IH; [|done|lia..|rewrite (Z.pow_add_r 128 iters 1) by lia; lia|lia|]; [|].
  - split.
    + intros Hcase. exists b'. split_and!; try done; lia.
    + intros (b2 & [= <-] & _ & _ & Hcase). exact Hcase.
  - destruct (decide (iters < 9)); lia.
Qed.

Lemma read_base_off_exact pack cur d cur' : bytes pack -> 0 <= cur ->
  read_base_off pack cur = Ret (d, cur') <-> distance_at pack cur d cur'.
Proof.
  intros Hp Hc. unfold read_base_off. case_if.
  { split; [done|]. intros (gs & last & _ & _ & _ & Hr & _). apply rdn_inv in Hr as (_ & _ & ? & _). pose proof (len_nonneg gs). lia. }
  rewrite rd_ok by lia. cbn [obind]. set (b := nth _ _ _).
  assert (Hr : rd pack cur = Ret b) by (apply rd_ok; lia). assert (Hb : is_byte b) by (by apply (rd_byte pack cur)).
  change (Z.land b 127) with (Z.land b (2 ^ 7 - 1)). rewrite land_ones_mod by lia. change (2 ^ 7) with 128.
  pose proof (Z.mod_pos_bound b 128 ltac:(lia)).
  rewrite base_off_loop_exact by (done || lia). unfold is_byte in Hb. split.
  - intros [(? & -> & ->)|(? & gs & last & Hg & Hl & -> & Hr2 & -> & Hd)].
    + exists [], b. change (len (@nil Z)) with 0. cbn [map app distance]. rewrite Z.mod_small by lia. unfold is_group, UINT64_MAX.
      split_and!; [done|lia..| |lia|lia]. apply (rdn_cons pack cur 0); [lia|]. split; [done|]. apply rdn_nil. lia.
    + pose proof (len_nonneg gs). exists ((b - 128) :: gs), last. rewrite len_cons. cbn [distance map app].
      replace (b mod 128) with (b - 128) in * by dlia. split_and!; [constructor; [unfold is_group; lia|done]|done|lia| |lia|lia].
      replace (1 + len gs + 1) with (1 + (len gs + 1)) by lia. apply rdn_cons; [lia|]. split; [rewrite Hr; f_equal; lia|done].
  - intros (gs & last & Hg & Hl & -> & Hr2 & -> & Hd). destruct gs as [|a gs]; cbn [map app distance] in *.
    + rewrite len_nil in *. apply (rdn_cons pack cur 0) in Hr2 as [E _]; [|lia]. rewrite Hr in E. injection E as E. left.
      unfold is_group in Hl. rewrite E, Z.mod_small by lia. lia.
    + rewrite len_cons in *. pose proof (len_nonneg gs). replace (1 + len gs + 1) with (1 + (len gs + 1)) in Hr2 by lia.
      apply rdn_cons in Hr2 as [E Hr2]; [|lia]. rewrite Hr in E. injection E as E. apply Forall_cons in Hg as [Ha Hg].
      unfold is_group in Ha. right. split; [lia|]. exists gs, last. replace (b mod 128) with a by (rewrite E; dlia).
      split_and!; try done; lia.
Qed.

Lemma lor_u64_nonneg x b : 0 <= Z.lor (u64 x) (Z.land b 0x7F).
Proof.
  apply Z.lor_nonneg. split; [apply u64_range|]. apply Z.land_nonneg. by right.
Qed.

Lemma base_off_loop_yields fuel pack : bytes pack -> forall b d iters cur, 0 <= d -> 0 <= iters -> 0 <= cur <= len pack ->
  10 <= Z.of_nat fuel + iters -> (0 < fuel)%nat ->
  yields (fun r => 0 <= fst r /\ cur <= snd r <= len pack) (base_off_loop fuel pack b d iters cur).
Proof.
  intros Hb. induction fuel as [|fuel IH]; intros b d iters cur Hd Hi Hc Hf Hf0; [lia|].
  cbn [base_off_loop]. case_if; [cbn; lia|]. repeat (case_if; [done|]).
  eapply yields_bind; [apply (yields_rd pack cur (fun _ => True)); [done|lia|done]|]. intros x _.
  eapply yields_impl; [apply IH; try lia; apply lor_u64_nonneg|]. cbn. intros [r1 r2]. cbn. lia.
Qed.

Lemma read_base_off_yields pack cur : bytes pack -> 0 <= cur ->
  yields (fun r => 0 <= fst r /\ cur <= snd r <= len pack) (read_base_off pack cur).
Proof.
  intros Hb Hc. unfold read_base_off. case_if; [done|].
  eapply yields_bind; [apply (yields_rd pack cur (fun _ => True)); [done|lia|done]|]. intros x _.
  eapply yields_impl; [apply base_off_loop_yields; try done; try lia|].
  - apply Z.land_nonneg. by right.
  - cbn. intros [r1 r2]. cbn. lia.
Qed.

Section Facts.
Context `{Zlib}.

Lemma inflate_at_yields pack cur expected : bytes pack -> 0 <= cur <= len pack ->
  yields (fun data => exists used, stream_at (drop (Z.to_nat cur) pack) data used /\ len data = expected /\ bytes data)
    (inflate_at pack cur expected).
Proof.
  intros Hb Hc. unfold inflate_at. rewrite rdn_ok by lia. cbn [obind].
  rewrite take_ge by (rewrite length_drop; unfold len in *; lia).
  eapply yields_bind; [apply inflate_yields; by apply Forall_drop|]. intros [data used] [Hst Hbd]. cbn in Hst, Hbd.
  case_if; [done|]. cbn. by exists used.
Qed.

Lemma inflate_at_finds pack cur data used : bytes pack -> 0 <= cur <= len pack -> len pack <= UINT_MAX ->
  stream_at (drop (Z.to_nat cur) pack) data used -> inflate_at pack cur (len data) = Ret data.
Proof.
  intros Hb Hc Hm Hst. unfold inflate_at. rewrite rdn_ok by lia. cbn [obind].
  rewrite take_ge by (rewrite length_drop; unfold len in *; lia).
  rewrite (inflate_stream _ _ data used); [|by apply Forall_drop|done|rewrite len_drop; lia].
  cbn [obind]. by rewrite Z.eqb_refl.
Qed.

Lemma loose_holds_unique raw o1 o2 : loose_holds raw o1 -> loose_holds raw o2 -> o1 = o2.
Proof.
  intros (i1 & k1 & S1 & -> & K1 & T1 & L1) (i2 & k2 & S2 & E2 & K2 & T2 & L2).
  destruct (stream_at_unique raw _ _ _ _ S1 S2) as [E _]. rewrite E2 in E. clear E2.
  pose proof (object_header_parse k1 (len (snd o1)) (snd o1) K1) as P1.
  pose proof (object_header_parse k2 (len (snd o2)) (snd o2) K2) as P2.
  pose proof (len_nonneg (snd o1)). pose proof (len_nonneg (snd o2)).
  specialize (P1 ltac:(lia) ltac:(pose proof (object_header_short k1 (len (snd o1)) ltac:(lia)); unfold LONG_MAX; lia)).
  specialize (P2 ltac:(lia) ltac:(pose proof (object_header_short k2 (len (snd o2)) ltac:(lia)); unfold LONG_MAX; lia)).
  rewrite E, P2 in P1. injection P1 as -> El _. rewrite El in E. apply app_inv_head in E.
  destruct o1, o2. cbn in *. congruence.
Qed.

Lemma loose_holds_prefix raw k o1 o2 : loose_holds raw o1 -> loose_holds (take k raw) o2 -> take k raw = raw.
Proof.
  intros (infl & kind & [_ Hd] & _) (infl' & kind' & [_ Hd'] & _). unfold len in Hd, Hd'.
  rewrite Nat2Z.id, firstn_all in Hd, Hd'. rewrite <- (take_drop k raw) in Hd.
  destruct (deflated_prefix_free _ _ _ _ Hd' Hd) as [E _]. rewrite <- (take_drop k raw) at 2. rewrite E.
  by rewrite app_nil_r.
Qed.

Lemma loose_whole_cut f repo sha o : loose_whole f repo sha o -> loose_cut f repo sha o.
Proof. intros (raw & Hc & Ho). exists raw, (length raw). by rewrite firstn_all. Qed.

Lemma loose_cut_unique f repo sha o1 o2 : loose_cut f repo sha o1 -> loose_cut f repo sha o2 -> o1 = o2.
Proof.
  assert (Hle : forall raw k1 k2 o1 o2, (k1 <= k2)%nat -> loose_holds (take k1 raw) o1 -> loose_holds (take k2 raw) o2 -> o1 = o2).
  { clear. intros raw k1 k2 o1 o2 Hk H1 H2. replace (take k1 raw) with (take k1 (take k2 raw)) in H1
      by (rewrite take_take; f_equal; lia).
    pose proof (loose_holds_prefix _ _ _ _ H2 H1) as E. rewrite E in H1. by eapply loose_holds_unique. }
  intros (raw & k1 & Hc1 & H1) (raw' & k2 & Hc2 & H2). assert (raw' = raw) as -> by congruence.
  destruct (Nat.le_ge_cases k1 k2); [by eapply Hle|]. symmetry. by eapply Hle.
Qed.

Lemma resolves_mono pack idx (l1 l2 : list Z -> object -> Prop) off n o : (forall sha o, l1 sha o -> l2 sha o) ->
  resolves pack idx l1 off n o -> resolves pack idx l2 off n o.
Proof.
  intros Hl. induction 1; [eapply resolves_whole|eapply resolves_ofs|eapply resolves_ref|eapply resolves_thin]; eauto.
Qed.

(** The high bits say where a distance ends: one stands at a place. *)
Lemma groups_unique pack g1 : forall cur g2 l1 l2, Forall is_group g1 -> Forall is_group g2 -> is_group l1 -> is_group l2 ->
  rdn pack cur (len g1 + 1) = Ret (map (Z.add 128) g1 ++ [l1]) ->
  rdn pack cur (len g2 + 1) = Ret (map (Z.add 128) g2 ++ [l2]) -> g1 = g2 /\ l1 = l2.
Proof.
  assert (Hhd : forall cur g l, rdn pack cur (len g + 1) = Ret (map (Z.add 128) g ++ [l]) ->
    rd pack cur = Ret (match g with [] => l | a :: _ => 128 + a end) /\
    forall a g', g = a :: g' -> rdn pack (cur + 1) (len g' + 1) = Ret (map (Z.add 128) g' ++ [l])).
  { intros cur [|a g] l Hr; cbn [map app] in Hr; [change (len (@nil Z) + 1) with (1 + 0) in Hr|].
    - apply rdn_cons in Hr as [Hr _]; [done|lia].
    - rewrite len_cons in Hr. replace (1 + len g + 1) with (1 + (len g + 1)) in Hr by lia. pose proof (len_nonneg g).
      apply rdn_cons in Hr as [Hr1 Hr2]; [|lia]. split; [done|]. by intros ? ? [= <- <-]. }
  unfold is_group. induction g1 as [|a g1 IH]; intros cur g2 l1 l2 Hg1 Hg2 Hl1 Hl2 H1 H2;
    apply Hhd in H1 as [E1 H1]; apply Hhd in H2 as [E2 H2]; rewrite E1 in E2; injection E2 as E2; destruct g2 as [|b g2].
  - done.
  - apply Forall_cons in Hg2 as [? _]. lia.
  - apply Forall_cons in Hg1 as [? _]. lia.
  - apply Forall_cons in Hg1 as [? Hg1]. apply Forall_cons in Hg2 as [? Hg2].
    destruct (IH (cur + 1) g2 l1 l2) as [-> ->]; try done; [exact (H1 _ _ eq_refl)|exact (H2 _ _ eq_refl)|]. split; [f_equal; lia|done].
Qed.

Lemma distance_at_unique pack cur d1 d2 c1 c2 : distance_at pack cur d1 c1 -> distance_at pack cur d2 c2 -> d1 = d2 /\ c1 = c2.
Proof.
  intros (g1 & l1 & Hg1 & Hl1 & -> & H1 & -> & _) (g2 & l2 & Hg2 & Hl2 & -> & H2 & -> & _).
  by destruct (groups_unique pack g1 cur g2 l1 l2) as [-> ->].
Qed.

(** Two results of one computation, or two streams at one place, are one. *)
Ltac determined :=
  repeat match goal with
  | H1 : ?x = Ret _, H2 : ?x = Ret _ |- _ =>
      rewrite H1 in H2; apply Ret_inj in H2; simplify_eq
  | H1 : stream_at ?s ?d _, H2 : stream_at ?s ?d' _ |- _ =>
      tryif constr_eq d d' then clear H2
      else (let E := fresh in destruct (stream_at_unique s _ _ _ _ H1 H2) as [E _]; subst)
  | H1 : distance_at ?p ?c _ _, H2 : distance_at ?p ?c _ _ |- _ =>
      destruct (distance_at_unique p c _ _ _ _ H1 H2) as [? ?]; subst; clear H2
  end.

(** What a pack holds at an offset is one object, at one depth. *)
Lemma resolves_unique pack idx loose : (forall sha o1 o2, loose sha o1 -> loose sha o2 -> o1 = o2) ->
  forall off n o, resolves pack idx loose off n o -> forall n' o', resolves pack idx loose off n' o' -> n' = n /\ o' = o.
Proof.
  intros Hl. induction 1 as [off type cur data used Hh Ht Hs|off n cur d cur' delta used type base out Hh Hd Hr Hs _ IH Ha
    |off n cur sha boff delta used type base out Hh Hsha Hs Hlk Hne _ IH Ha|off cur sha delta used type base out Hh Hsha Hs Hlk Hb Ha];
    intros n' o' HR; inversion HR; subst; clear HR; determined; try discriminate; try done.
  - match goal with HR : resolves _ _ _ _ _ _ |- _ => destruct (IH _ _ HR) as [-> E] end.
    injection E as -> ->. determined. done.
  - match goal with HR : resolves _ _ _ _ _ _ |- _ => destruct (IH _ _ HR) as [-> E] end.
    injection E as -> ->. determined. done.
  - match goal with H1 : loose ?s _, H2 : loose ?s _ |- _ => pose proof (Hl _ _ _ H1 H2) as E end.
    injection E as -> ->. determined. done.
Qed.
End Facts.

(* ------------------------------------------------------------------ *)
(** ** A read answers with what the pack holds *)

Section Sound.
Context `{Zlib} (pack_addr : Z) (pack idx : list Z) (repo : option path) (f : fs).

Definition repo_path : path := match repo with Some p => p | None => str "." end.

(** What the pack and the loose objects under [repo] hold. *)
Definition held (off : Z) (n : nat) (o : object) : Prop :=
  resolves pack idx (loose_cut f repo_path) off n o.

(** The cache agrees with the pack on everything kept under its key. *)
Definition cache_agrees (c : pack_cache) : Prop :=
  cache_wf c /\ cache_bounded c /\
  forall off type data, holds c pack_addr (len pack) off type data -> exists n, held off n (type, data).

(** A reader's result that may be relied on. *)
Definition sound_reading (off : Z) (w : world) (r : outcome reading) (w' : world) : Prop :=
  reads_only w w' /\ exists o c, r = Ret (o, c) /\ cache_agrees c /\ forall x, o = Some x -> exists n, held off n x.

Lemma sound_none off c w : cache_agrees c -> sound_reading off w (Ret (None, c)) w.
Proof. intros Hc. split; [apply reads_only_refl|]. by exists None, c. Qed.

Lemma sound_attempt {A} off (x : outcome A) c (k : A -> io reading) (P : A -> Prop) w r w' :
  yields P x -> cache_agrees c -> attempt x c k w = (r, w') ->
  (forall a, x = Ret a -> P a -> k a w = (r, w') -> sound_reading off w r w') -> sound_reading off w r w'.
Proof.
  intros Hy Hc HR Hk. destruct x as [a|m|]; cbn in *; [|injection HR as <- <-; by apply sound_none|done].
  by eapply Hk.
Qed.

(** A base that may be relied on gives a target that may. *)
Lemma sound_apply off delta r0 w0 w r w' : bytes delta ->
  sound_reading off w0 r0 w -> forall off',
  (forall n type base out, held off n (type, base) -> bgit_pack_apply_delta base delta = Ret out ->
     exists n', held off' n' (type, out)) ->
  (forall x, r0 = Ret x -> apply_to_base delta x w = (r, w')) -> 
  sound_reading off' w0 r w'.
Proof.
  intros Hb (Hro & o & c & -> & Hc & Ho) off' Hstep HR. specialize (HR _ eq_refl). unfold apply_to_base in HR.
  destruct o as [[type base]|]; [|injection HR as <- <-; split; [done|by exists None, c]].
  destruct (Ho _ eq_refl) as [n Hn].
  pose proof (yields_safe _ _ (apply_delta_yields base delta Hb)) as Hs.
  destruct (bgit_pack_apply_delta base delta) as [out|m|] eqn:E; cbn in HR; [| |done];
    injection HR as <- <-; split; [done| |done|].
  - exists (Some (type, out)), c. split_and!; try done. intros x [= <-]. by eapply Hstep.
  - by exists None, c.
Qed.

Lemma sound_base read c off depth w r w' : cache_agrees c ->
  (forall c w r w', cache_agrees c -> w_fs w = f -> read c off depth w = (r, w') -> sound_reading off w r w') ->
  w_fs w = f -> bgit_pack_read_base read c pack_addr (len pack) off depth w = (r, w') ->
  sound_reading off w r w'.
Proof.
  intros Hc Hread Hf HR. pose proof Hc as (Hwf & Hbd & Hag). unfold bgit_pack_read_base in HR.
  destruct (bgit_pack_cache_take c pack_addr (len pack) off) as [o c1] eqn:Et.
  destruct (take_wf _ _ _ _ _ _ Hwf Et) as (Hwf1 & Hb1 & Hh1 & Ht).
  assert (Hc1 : cache_agrees c1).
  { split_and!; [done|unfold cache_bounded; by rewrite Hb1|]. intros. apply Hag. by apply Hh1. }
  destruct o as [[type data]|].
  - injection HR as <- <-. split; [apply reads_only_refl|]. exists (Some (type, data)), c1.
    split_and!; try done. intros x [= <-]. apply Hag. by apply Ht.
  - unfold ibind at 1 in HR. destruct (read c1 off depth w) as [r1 w1] eqn:E.
    apply Hread in E as (Hro & o & c2 & -> & Hc2 & Ho); [|done..].
    destruct o as [[type data]|]; [|injection HR as <- <-; split; [done|by exists None, c2]].
    destruct Hc2 as (Hwf2 & Hbd2 & Hag2).
    destruct (keep_wf c2 pack_addr (len pack) off type data Hwf2 Hbd2) as (c3 & E3 & Hwf3 & Hbd3 & Hh3 & _).
    unfold ibind, lift in HR. rewrite E3 in HR. injection HR as <- <-. split; [done|].
    exists (Some (type, data)), c3. split; [done|]. split; [|intros x [= <-]; by apply Ho].
    split; [done|]. split; [done|].
    intros off' type' data' Hx. destruct (Hh3 _ _ _ _ _ Hx) as [Hx'|Ex]; [by apply Hag2|].
    injection Ex as -> -> ->. by apply Ho.
Qed.

Lemma read_sound : bytes pack -> bytes idx -> fs_ok f ->
  (forall q raw, content f q = Some raw -> bytes raw) ->
  forall fuel c off depth w r w', cache_agrees c -> w_fs w = f -> 0 <= off ->
  51 - depth < Z.of_nat fuel -> (0 < fuel)%nat ->
  bgit_pack_read_object_at fuel pack_addr pack idx repo c off depth w = (r, w') -> sound_reading off w r w'.
Proof.
  intros Hbp Hbi Hok Hfiles. induction fuel as [|fuel IH]; intros c off depth w r w' Hc Hf Ho Hd Hd0 HR; [lia|].
  cbn [bgit_pack_read_object_at] in HR. unfold BGIT_PACK_MAX_DELTA_DEPTH in HR.
  case_if_in HR; [injection HR as <- <-; by apply sound_none|].
  assert (Hbase : forall boff, 0 <= boff -> forall c w r w', cache_agrees c -> w_fs w = f ->
    bgit_pack_read_base (bgit_pack_read_object_at fuel pack_addr pack idx repo) c pack_addr (len pack) boff (depth + 1) w = (r, w') ->
    sound_reading boff w r w').
  { intros boff Hboff c1 w1 r1 w1' Hc1 Hf1 HR1. eapply sound_base; [done| |done|exact HR1].
    intros c2 w2 r2 w2' Hc2 Hf2 HR2. eapply IH; try done; lia. }
  eapply sound_attempt; [exact (read_header_yields pack off Hbp Ho)|done|exact HR|]. clear HR.
  intros [[type expected] cur] Eh Hcur HR. cbn in Hcur. case_if_in HR.
  { eapply sound_attempt; [apply (inflate_at_yields pack cur expected Hbp); lia|done|exact HR|]. clear HR.
    intros data _ (used & Hst & <- & _) HR. injection HR as <- <-. split; [apply reads_only_refl|].
    exists (Some (type, data)), c. split_and!; try done. intros x [= <-]. exists O. by eapply resolves_whole. }
  case_if_in HR.
  { subst type. eapply sound_attempt; [apply (read_base_off_yields pack cur Hbp); lia|done|exact HR|]. clear HR.
    intros [d cur'] Ed [Hd1 Hcur'] HR. cbn in Hd1, Hcur'.
    case_if_in HR; [injection HR as <- <-; by apply sound_none|].
    eapply sound_attempt; [apply (inflate_at_yields pack cur' expected Hbp); lia|done|exact HR|]. clear HR.
    intros delta _ (used & Hst & <- & Hbd) HR. unfold ibind in HR.
    destruct (bgit_pack_read_base _ c pack_addr (len pack) (off - d) (depth + 1) w) as [r1 w1] eqn:E.
    assert (Hd2 : 0 < d <= off) by lia.
    apply Hbase in E; [|lia|done..]. eapply (sound_apply (off - d) delta r1 w w1 r w'); [done|done| |].
    - intros n type base out Hn Ha. exists (S n). eapply resolves_ofs; try done. by apply read_base_off_exact; [|lia|].
    - intros x ->. exact HR. }
  case_if_in HR; [|injection HR as <- <-; by apply sound_none]. subst type.
  case_if_in HR; [injection HR as <- <-; by apply sound_none|].
  eapply sound_attempt; [apply (yields_rdn pack cur 20 (fun s => len s = 20)); [lia|lia|lia|done]|done|exact HR|]. clear HR.
  intros sha Esha Hsha HR.
  eapply sound_attempt; [apply (inflate_at_yields pack (cur + 20) expected Hbp); lia|done|exact HR|]. clear HR.
  intros delta _ (used & Hst & <- & Hbd) HR.
  assert (Hoid : oid sha) by (split; [done|exact (rdn_bytes _ _ _ _ Hbp Esha)]).
  eapply sound_attempt; [exact (lookup_yields idx sha Hbi Hoid)|done|exact HR|]. clear HR.
  intros boff Eoff Hboff HR. cbv beta in HR, Hboff. case_if_in HR.
  - unfold ibind in HR.
    destruct (bgit_pack_read_base _ c pack_addr (len pack) boff (depth + 1) w) as [r1 w1] eqn:E.
    apply Hbase in E; [|lia|done..]. eapply (sound_apply boff delta r1 w w1 r w'); [done|done| |].
    + intros n type base out Hn Ha. exists (S n). by eapply resolves_ref.
    + intros x ->. exact HR.
  - subst boff. cbv zeta in HR. fold repo_path in HR. unfold ibind in HR.
    destruct (bgit_pack_read_loose repo_path (bgit_sha_to_hex sha) w) as [r1 w1] eqn:E.
    apply read_loose_sound in E as (Hro & o & -> & Hloose); [|by rewrite Hf..].
    unfold apply_to_base in HR. destruct o as [[type base]|]; [|injection HR as <- <-; split; [done|by exists None, c]].
    destruct (Hloose _ eq_refl) as (raw & k & Hraw & Hholds). rewrite Hf in Hraw.
    pose proof (yields_safe _ _ (apply_delta_yields base delta Hbd)) as Hs.
    destruct (bgit_pack_apply_delta base delta) as [out|m|] eqn:Ea; cbn in HR; [| |done]; injection HR as <- <-;
      (split; [done|]).
    + exists (Some (type, out)), c. split_and!; try done. intros x [= <-]. exists O.
      eapply resolves_thin; try done. by exists raw, k.
    + by exists None, c.
Qed.
End Sound.

(* ------------------------------------------------------------------ *)
(** ** A read finds what the pack holds *)

Section Complete.
Context `{Zlib} (pack_addr : Z) (pack idx : list Z) (repo : option path) (f : fs).
Hypotheses (Hbp : bytes pack) (Hsmall : len pack <= UINT_MAX) (Hok : fs_ok f)
  (Hfiles : forall q raw, content f q = Some raw -> bytes raw /\ len raw <= UINT_MAX).

#[local] Abbreviation holds_at := (resolves pack idx (loose_whole f (repo_path repo))).

Lemma holds_held off n o : holds_at off n o -> held pack idx repo f off n o.
Proof using. apply resolves_mono. intros sha x. apply loose_whole_cut. Qed.

Lemma held_unique off n o n' o' : held pack idx repo f off n o -> held pack idx repo f off n' o' -> o' = o.
Proof using.
  intros H1 H2.
  destruct (resolves_unique pack idx _ (fun sha o1 o2 => loose_cut_unique f (repo_path repo) sha o1 o2) off n o H1 n' o' H2) as [_ E].
  exact E.
Qed.

(** The base of a delta is found in the cache, or by reading it. *)
Lemma base_found read c off depth w n o : cache_agrees pack_addr pack idx repo f c -> holds_at off n o ->
  (forall c1, cache_agrees pack_addr pack idx repo f c1 -> exists c2 w', read c1 off depth w = (Ret (Some o, c2), w') /\
     cache_agrees pack_addr pack idx repo f c2) ->
  exists c' w', bgit_pack_read_base read c pack_addr (len pack) off depth w = (Ret (Some o, c'), w').
Proof using.
  intros Hc Ho Hread. pose proof Hc as (Hwf & Hbd & Hag). unfold bgit_pack_read_base.
  destruct (bgit_pack_cache_take c pack_addr (len pack) off) as [r c1] eqn:Et.
  destruct (take_wf _ _ _ _ _ _ Hwf Et) as (Hwf1 & Hb1 & Hh1 & Ht).
  destruct r as [[type data]|].
  - destruct (Hag off type data (Ht _ _ eq_refl)) as [m Hm].
    rewrite (held_unique off n o m (type, data) (holds_held _ _ _ Ho) Hm). by exists c1, w.
  - assert (Hc1 : cache_agrees pack_addr pack idx repo f c1).
    { split; [done|]. split; [unfold cache_bounded; by rewrite Hb1|]. intros. apply Hag. by apply Hh1. }
    destruct (Hread c1 Hc1) as (c2 & w' & E & (Hwf2 & Hbd2 & _)). unfold ibind. rewrite E.
    destruct o as [type data]. unfold lift.
    destruct (keep_wf c2 pack_addr (len pack) off type data Hwf2 Hbd2) as (c3 & -> & _). by exists c3, w'.
Qed.

Lemma header_cur off t e cur : 0 <= off -> bgit_pack_read_obj_header pack off = Ret (t, e, cur) -> 0 <= cur <= len pack.
Proof using Hbp.
  intros Ho E. pose proof (read_header_yields pack off Hbp Ho) as Hy. rewrite E in Hy. cbn in Hy. lia.
Qed.

(** Whatever a read answers, it leaves a cache that agrees with the pack. *)
Lemma read_keeps fuel c off depth w o c' w' : bytes idx -> cache_agrees pack_addr pack idx repo f c -> w_fs w = f ->
  0 <= off -> 51 - depth < Z.of_nat fuel -> (0 < fuel)%nat ->
  bgit_pack_read_object_at fuel pack_addr pack idx repo c off depth w = (Ret (o, c'), w') ->
  cache_agrees pack_addr pack idx repo f c'.
Proof using Hbp Hok Hfiles.
  intros Hbi Hc Hf Ho Hd Hd0 E.
  assert (Hfb : forall q raw, content f q = Some raw -> bytes raw) by (intros q raw Hq; exact (proj1 (Hfiles _ _ Hq))).
  destruct (read_sound pack_addr pack idx repo f Hbp Hbi Hok Hfb _ _ _ _ _ _ _ Hc Hf Ho Hd Hd0 E)
    as (_ & o' & c'' & [= <- <-] & Hc' & _). exact Hc'.
Qed.

Lemma read_finds off n o : holds_at off n o -> forall fuel c depth w,
  0 <= off -> bytes idx -> cache_agrees pack_addr pack idx repo f c -> w_fs w = f -> w_answers w = [] ->
  0 <= depth -> depth + Z.of_nat n <= BGIT_PACK_MAX_DELTA_DEPTH -> 51 - depth < Z.of_nat fuel ->
  exists c' w', bgit_pack_read_object_at fuel pack_addr pack idx repo c off depth w = (Ret (Some o, c'), w') /\
    cache_agrees pack_addr pack idx repo f c'.
Proof using Hbp Hsmall Hok Hfiles.
  intros HR fuel c depth w Ho Hbi Hc Hf Ha Hd0 Hd Hfu.
  enough (Hrun : exists c' w', bgit_pack_read_object_at fuel pack_addr pack idx repo c off depth w = (Ret (Some o, c'), w')).
  { destruct Hrun as (c' & w' & E). exists c', w'. split; [done|].
    eapply read_keeps; [..|exact E]; first [done | unfold BGIT_PACK_MAX_DELTA_DEPTH in *; lia]. }
  revert fuel c depth w Ho Hc Hf Ha Hd0 Hd Hfu.
  induction HR as [off type cur data used Hh Ht Hst|off n cur d cur' delta used type base out Hh Hdist Hr Hst HR IH Hap
    |off n cur sha boff delta used type base out Hh Hsha Hst Hlk Hne HR IH Hap
    |off cur sha delta used type base out Hh Hsha Hst Hlk Hloose Hap];
    intros fuel c depth w Ho Hc Hf Ha Hd0 Hd Hfu; unfold BGIT_PACK_MAX_DELTA_DEPTH in *;
    (destruct fuel as [|fuel]; [lia|]); cbn [bgit_pack_read_object_at]; unfold BGIT_PACK_MAX_DELTA_DEPTH;
    if_false; rewrite Hh; cbn [attempt]; pose proof (header_cur _ _ _ _ Ho Hh) as Hcur.
  - rewrite Ht. rewrite (inflate_at_finds pack cur data used) by done. cbn [attempt]. by exists c, w.
  - change (whole_type BGIT_PACK_OFS_DELTA) with false. rewrite Z.eqb_refl. cbn iota.
    apply read_base_off_exact in Hdist; [|done|lia]. rewrite Hdist. cbn [attempt]. if_false.
    pose proof (read_base_off_yields pack cur Hbp ltac:(lia)) as Hy. rewrite Hdist in Hy. cbn in Hy.
    rewrite (inflate_at_finds pack cur' delta used) by (done || lia). cbn [attempt].
    destruct (base_found (bgit_pack_read_object_at fuel pack_addr pack idx repo) c (off - d) (depth + 1) w n (type, base)) as (c1 & w1 & E); [done..| |].
    { intros c1 Hc1. destruct (IH fuel c1 (depth + 1) w) as (c2 & w2 & E2); try done; try lia.
      exists c2, w2. split; [done|].
      eapply read_keeps; [..|exact E2]; first [done | lia]. }
    unfold ibind. rewrite E. unfold apply_to_base. rewrite Hap. cbn [attempt]. by exists c1, w1.
  - change (whole_type BGIT_PACK_REF_DELTA) with false. change (BGIT_PACK_REF_DELTA =? BGIT_PACK_OFS_DELTA) with false.
    rewrite Z.eqb_refl. cbn iota. pose proof (rdn_inv _ _ _ _ Hsha) as (_ & _ & Hlen & _). if_false.
    rewrite Hsha. cbn [attempt]. rewrite (inflate_at_finds pack (cur + 20) delta used) by (done || lia).
    cbn [attempt]. rewrite Hlk. cbn [attempt]. rewrite (proj2 (Z.eqb_neq boff absent)) by done. cbn [negb].
    assert (Hb0 : 0 <= boff).
    { assert (Hoid : oid sha) by (split; [by eapply rdn_len|exact (rdn_bytes _ _ _ _ Hbp Hsha)]).
      pose proof (lookup_yields idx sha Hbi Hoid) as Hy. rewrite Hlk in Hy. cbn in Hy. lia. }
    destruct (base_found (bgit_pack_read_object_at fuel pack_addr pack idx repo) c boff (depth + 1) w n (type, base)) as (c1 & w1 & E); [done..| |].
    { intros c1 Hc1. destruct (IH fuel c1 (depth + 1) w) as (c2 & w2 & E2); try done; try lia.
      exists c2, w2. split; [done|].
      eapply read_keeps; [..|exact E2]; first [done | lia]. }
    unfold ibind. rewrite E. unfold apply_to_base. rewrite Hap. cbn [attempt]. by exists c1, w1.
  - change (whole_type BGIT_PACK_REF_DELTA) with false. change (BGIT_PACK_REF_DELTA =? BGIT_PACK_OFS_DELTA) with false.
    rewrite Z.eqb_refl. cbn iota. pose proof (rdn_inv _ _ _ _ Hsha) as (_ & _ & Hlen & _). if_false.
    rewrite Hsha. cbn [attempt]. rewrite (inflate_at_finds pack (cur + 20) delta used) by (done || lia).
    cbn [attempt]. rewrite Hlk. cbn [attempt]. rewrite Z.eqb_refl. cbn [negb]. cbv zeta. fold (repo_path repo).
    destruct Hloose as (raw & Hc1 & Hholds). destruct (Hfiles _ _ Hc1) as [Hbr Hlr].
    unfold ibind. destruct (bgit_pack_read_loose (repo_path repo) (bgit_sha_to_hex sha) w) as [r w1] eqn:E.
    assert (Hbs : bytes sha) by exact (rdn_bytes _ _ _ _ Hbp Hsha).
    eapply (read_loose_spec _ _ _ _ _ raw (type, base)) in E as (_ & _ & Hr); [| | |done..|].
    + rewrite (Hr Ha). unfold apply_to_base. rewrite Hap. cbn [attempt]. by exists c, w1.
    + by rewrite Hf.
    + done.
    + rewrite sha_to_hex_len, (rdn_len _ _ _ _ Hsha) by done. lia.
Qed.
End Complete.

(* ------------------------------------------------------------------ *)
(** ** A read keeps nothing under another pack's key *)

Section Others.
Context `{Zlib} (pack_addr plen : Z).

(** What [c'] keeps for other packs, [c] did. *)
Definition cache_from (c c' : pack_cache) : Prop :=
  cache_wf c' /\ cache_bounded c' /\
  forall a l o t d, (a, l) <> (pack_addr, plen) -> holds c' a l o t d -> holds c a l o t d.

Definition keeps_others (c : pack_cache) (m : io reading) : Prop :=
  forall w o c' w', m w = (Ret (o, c'), w') -> cache_from c c'.

Lemma cache_from_refl c : cache_wf c -> cache_bounded c -> cache_from c c.
Proof using. intros Hw Hb. split; [done|]. by split. Qed.

Lemma cache_from_trans c1 c2 c3 : cache_from c1 c2 -> cache_from c2 c3 -> cache_from c1 c3.
Proof using. intros (_ & _ & H1) (W & B & H2). split; [done|]. split; [done|]. intros. apply H1; [done|]. by apply H2. Qed.

Lemma keeps_none c c' (o : option object) : cache_from c c' -> keeps_others c (iret (o, c')).
Proof using. intros Hc w o' c'' w' [= -> -> ->]. done. Qed.

Lemma keeps_attempt {A} c (x : outcome A) k : cache_wf c -> cache_bounded c -> (forall a, keeps_others c (k a)) -> keeps_others c (attempt x c k).
Proof using. intros Hw Hb Hk. destruct x as [a|m|]; cbn [attempt]; [apply Hk|by apply keeps_none, cache_from_refl|by intros w o c' w' E]. Qed.

Lemma keeps_apply c delta (o : option object) : cache_wf c -> cache_bounded c -> keeps_others c (apply_to_base delta (o, c)).
Proof using.
  intros Hw Hb. destruct o as [[type base]|]; cbn [apply_to_base]; [|by apply keeps_none, cache_from_refl].
  apply keeps_attempt; [done..|]. intros out. by apply keeps_none, cache_from_refl.
Qed.

Lemma keeps_bind c c1 (m : io reading) k : cache_from c c1 -> keeps_others c1 m ->
  (forall o c2, cache_wf c2 -> cache_bounded c2 -> keeps_others c2 (k (o, c2))) -> keeps_others c (ibind m k).
Proof using.
  intros Hc Hm Hk w o c' w' E. unfold ibind in E. destruct (m w) as [[[o2 c2]|e|] w2] eqn:E2; [|done..].
  apply Hm in E2. eapply cache_from_trans; [exact Hc|]. eapply cache_from_trans; [exact E2|].
  eapply (Hk o2 c2); [apply E2|apply E2|exact E].
Qed.

Lemma keeps_base read c off depth : cache_wf c -> cache_bounded c ->
  (forall c, cache_wf c -> cache_bounded c -> keeps_others c (read c off depth)) ->
  keeps_others c (bgit_pack_read_base read c pack_addr plen off depth).
Proof using.
  intros Hwf Hbd Hread. unfold bgit_pack_read_base.
  destruct (bgit_pack_cache_take c pack_addr plen off) as [r c1] eqn:Et.
  destruct (take_wf _ _ _ _ _ _ Hwf Et) as (Hwf1 & Hb1 & Hh1 & _).
  assert (Hbd1 : cache_bounded c1) by (unfold cache_bounded; by rewrite Hb1).
  assert (H1 : cache_from c c1) by (split; [done|split; [done|intros; by apply Hh1]]).
  destruct r as [x|]; [by apply keeps_none|]. eapply keeps_bind; [exact H1|by apply Hread|].
  intros o c2 Hwf2 Hbd2. destruct o as [[type data]|]; [|by apply keeps_none, cache_from_refl].
  destruct (keep_wf c2 pack_addr plen off type data Hwf2 Hbd2) as (c3 & -> & Hwf3 & Hbd3 & Hh3 & _).
  apply keeps_none. split; [done|]. split; [done|]. intros a l o t d Hne Hh. destruct (Hh3 _ _ _ _ _ Hh) as [|E]; [done|].
  injection E as -> -> _ _ _. done.
Qed.

Lemma read_others pack idx repo fuel : len pack = plen -> forall c off depth, cache_wf c -> cache_bounded c ->
  keeps_others c (bgit_pack_read_object_at fuel pack_addr pack idx repo c off depth).
Proof using.
  intros Hl. induction fuel as [|fuel IH]; intros c off depth Hw Hb; cbn [bgit_pack_read_object_at]; [by intros w o c' w' E|].
  assert (Hbase : forall delta off, keeps_others c
    (let! r := bgit_pack_read_base (bgit_pack_read_object_at fuel pack_addr pack idx repo) c pack_addr (len pack) off (depth + 1) in apply_to_base delta r)).
  { intros delta boff. rewrite Hl. eapply keeps_bind; [by apply cache_from_refl|apply keeps_base; auto|].
    intros. by apply keeps_apply. }
  pose proof (cache_from_refl c Hw Hb) as Hc.
  repeat match goal with
  | |- keeps_others _ (if ?b then _ else _) => destruct b
  | |- keeps_others _ (attempt _ _ _) => apply keeps_attempt; [done..|intros ?]
  | |- keeps_others _ (let '(_, _) := ?x in _) => destruct x
  | |- keeps_others _ (iret _) => by apply keeps_none
  | |- keeps_others _ (ibind (bgit_pack_read_base _ _ _ _ _ _) _) => apply Hbase
  end.
  cbv zeta. intros w o c' w' E. unfold ibind in E. destruct (bgit_pack_read_loose _ _ w) as [[o1|e|] w1]; [|done..].
  by eapply keeps_apply in E.
Qed.
End Others.

(** A read always ends. *)
Lemma read_object_total `{Zlib} pack_addr pack idx repo fuel c off depth w : bytes pack -> bytes idx ->
  fs_ok (w_fs w) -> (forall q raw, content (w_fs w) q = Some raw -> bytes raw) ->
  cache_agrees pack_addr pack idx repo (w_fs w) c -> 0 <= off -> 0 <= depth -> 51 < Z.of_nat fuel ->
  exists o c' w', bgit_pack_read_object_at fuel pack_addr pack idx repo c off depth w = (Ret (o, c'), w') /\
    cache_agrees pack_addr pack idx repo (w_fs w) c' /\ forall x, o = Some x -> exists n, held pack idx repo (w_fs w) off n x.
Proof.
  intros Hbp Hbi Hok Hfiles Hc Ho Hd Hf.
  destruct (bgit_pack_read_object_at fuel pack_addr pack idx repo c off depth w) as [r w'] eqn:E.
  eapply read_sound in E as (_ & o & c' & -> & Hc' & Hx); [|try done; lia..]. by exists o, c', w'.
Qed.

(* ------------------------------------------------------------------ *)
(** ** The reader's contract *)

(** [C11] (safety) Reading an object never loads outside the pack, the index or
    a loose object, whatever their bytes and whatever the kernel refuses, and
    always ends; it changes no file; what it answers is what the pack holds at
    the offset, the only object it can hold, whether its bases came from the
    cache or were read; and the cache still agrees with the pack. *)
Theorem read_object_sound `{Zlib} pack_addr pack idx repo fuel c off depth w : bytes pack -> bytes idx ->
  fs_ok (w_fs w) -> (forall q raw, content (w_fs w) q = Some raw -> bytes raw) ->
  cache_agrees pack_addr pack idx repo (w_fs w) c -> 0 <= off -> 0 <= depth -> 51 < Z.of_nat fuel ->
  exists o c' w', bgit_pack_read_object_at fuel pack_addr pack idx repo c off depth w = (Ret (o, c'), w') /\
    reads_only w w' /\ cache_agrees pack_addr pack idx repo (w_fs w) c' /\
    forall x, o = Some x -> (exists n, held pack idx repo (w_fs w) off n x) /\
      forall n y, held pack idx repo (w_fs w) off n y -> y = x.
Proof.
  intros Hbp Hbi Hok Hfiles Hc Ho Hd Hf.
  destruct (bgit_pack_read_object_at fuel pack_addr pack idx repo c off depth w) as [r w'] eqn:E.
  eapply read_sound in E as (Hro & o & c' & -> & Hc' & Hx); [|try done; lia..].
  exists o, c', w'. split_and!; try done. intros x ->. destruct (Hx _ eq_refl) as [n Hn].
  split; [by exists n|]. intros m y Hy. exact (held_unique _ _ _ _ _ _ _ _ _ Hn Hy).
Qed.

(** [C12] (functional) When the kernel refuses nothing, reading finds the object
    at an offset whenever its chain of deltas, and the depth already gone, fit
    in the fifty the reader allows: through any cache that agrees with the
    pack. *)
Theorem read_object_complete `{Zlib} pack_addr pack idx repo fuel c off depth w n o : bytes pack -> bytes idx ->
  len pack <= UINT_MAX -> fs_ok (w_fs w) ->
  (forall q raw, content (w_fs w) q = Some raw -> bytes raw /\ len raw <= UINT_MAX) ->
  cache_agrees pack_addr pack idx repo (w_fs w) c -> w_answers w = [] ->
  0 <= off -> 0 <= depth -> depth + Z.of_nat n <= BGIT_PACK_MAX_DELTA_DEPTH -> 51 < Z.of_nat fuel ->
  resolves pack idx (loose_whole (w_fs w) (repo_path repo)) off n o ->
  exists c' w', bgit_pack_read_object_at fuel pack_addr pack idx repo c off depth w = (Ret (Some o, c'), w') /\
    cache_agrees pack_addr pack idx repo (w_fs w) c'.
Proof.
  intros Hbp Hbi Hm Hok Hfiles Hc Ha Ho Hd Hn Hf HR.
  eapply (read_finds pack_addr pack idx repo (w_fs w)); try done; lia.
Qed.

(* ------------------------------------------------------------------ *)
(** ** Witnesses *)

(** A blob at offset 12 and, at 19, a delta against it that appends a byte. *)
Definition demo_pack : list Z :=
  str "PACK" ++ [0; 0; 0; 2; 0; 0; 0; 2] ++
  [0x35; 5] ++ str "hello" ++
  [0x66; 7; 6; 5; 6; 0x90; 5; 1; 33].

Ltac solve_stored := split; [vm_compute; split; discriminate|split; [vm_compute; reflexivity|solve_bytes]].

Ltac solve_distance := exists [], 7; unfold is_group, UINT64_MAX; split_and!; first [done | by vm_compute | lia].

Lemma demo_resolves loose : @resolves stored_zlib demo_pack [] loose 19 1 (BGIT_PACK_BLOB, str "hello!").
Proof.
  eapply (@resolves_ofs stored_zlib demo_pack [] loose 19 0 20 7 21 [5; 6; 0x90; 5; 1; 33] 7 BGIT_PACK_BLOB (str "hello"));
    [by vm_compute| |lia|solve_stored| |by vm_compute].
  { solve_distance. }
  eapply (@resolves_whole stored_zlib demo_pack [] loose 12 BGIT_PACK_BLOB 13 (str "hello") 6); [by vm_compute..|].
  solve_stored.
Qed.

Lemma empty_agrees `{Zlib} pack_addr pack idx repo f : cache_agrees pack_addr pack idx repo f empty_cache.
Proof. destruct empty_cache_wf. split_and!; try done. intros off type data Hh. by apply empty_holds in Hh. Qed.

Definition read_world : world :=
  {| w_fs := {| names := ∅; inodes := ∅ |}; w_fds := ∅; w_errno := 0; w_answers := [];
     w_temps := []; w_now := (7, 0); w_log := []; w_reports := [] |}.

Lemma read_world_files q raw : content (w_fs read_world) q = Some raw -> bytes raw /\ len raw <= UINT_MAX.
Proof. unfold content, lookup_inode. cbn. by rewrite lookup_empty. Qed.

Lemma read_object_complete_witness : exists c' w',
  @bgit_pack_read_object_at stored_zlib 52 4096 demo_pack [] None empty_cache 19 0 read_world =
    (Ret (Some (BGIT_PACK_BLOB, str "hello!"), c'), w') /\
  @cache_agrees stored_zlib 4096 demo_pack [] None (w_fs read_world) c'.
Proof.
  apply (@read_object_complete stored_zlib 4096 demo_pack [] None 52 empty_cache 19 0 read_world 1);
    [solve_bytes|solve_bytes|vm_compute; discriminate|exact loose_fs_ok|exact read_world_files
    |apply empty_agrees|reflexivity|lia|lia|vm_compute; discriminate|lia|apply demo_resolves].
Defined.

Lemma read_object_sound_witness : exists o c' w',
  @bgit_pack_read_object_at stored_zlib 52 4096 demo_pack [] None empty_cache 19 0 read_world = (Ret (o, c'), w') /\
  o = Some (BGIT_PACK_BLOB, str "hello!") /\
  (exists n, @held stored_zlib demo_pack [] None (w_fs read_world) 19 n (BGIT_PACK_BLOB, str "hello!")).
Proof.
  destruct (@read_object_sound stored_zlib 4096 demo_pack [] None 52 empty_cache 19 0 read_world)
    as (o & c' & w' & E & _ & _ & Hx); [solve_bytes|solve_bytes|exact loose_fs_ok| |apply empty_agrees|lia|lia|lia|].
  { intros q raw Hq. exact (proj1 (read_world_files q raw Hq)). }
  assert (Hrun : match (@bgit_pack_read_object_at stored_zlib 52 4096 demo_pack [] None empty_cache 19 0 read_world).1 with
    | Ret (o, _) => o = Some (BGIT_PACK_BLOB, str "hello!") | _ => False end) by (vm_compute; reflexivity).
  rewrite E in Hrun. exists o, c', w'. split; [done|]. split; [exact Hrun|]. exact (proj1 (Hx _ Hrun)).
Defined.

(** The key of the cache does not say which pack was mapped at an address.
    Reading a second pack, mapped where a first one of the same length was,
    answers with a base of the first: an object the second pack does not hold
    there. *)
Definition remapped_pack : list Z :=
  str "PACK" ++ [0; 0; 0; 2; 0; 0; 0; 2] ++
  [0x35; 5] ++ str "HELLO" ++
  [0x66; 7; 6; 5; 6; 0x90; 5; 1; 33].

Definition read_both : option (option object * option object) :=
  match (@bgit_pack_read_object_at stored_zlib 52 4096 demo_pack [] None empty_cache 19 0 read_world).1 with
  | Ret (o, c) =>
      match (@bgit_pack_read_object_at stored_zlib 52 4096 remapped_pack [] None c 19 0 read_world).1 with
      | Ret (o', _) => Some (o, o')
      | _ => None
      end
  | _ => None
  end.

Lemma read_after_remap : read_both = Some (Some (BGIT_PACK_BLOB, str "hello!"), Some (BGIT_PACK_BLOB, str "hello!")) /\
  ~ (exists n, @held stored_zlib remapped_pack [] None (w_fs read_world) 19 n (BGIT_PACK_BLOB, str "hello!")).
Proof.
  split; [by vm_compute|]. intros [n Hn].
  assert (H' : @held stored_zlib remapped_pack [] None (w_fs read_world) 19 1 (BGIT_PACK_BLOB, str "HELLO!")).
  { eapply (@resolves_ofs stored_zlib remapped_pack [] _ 19 0 20 7 21 [5; 6; 0x90; 5; 1; 33] 7 BGIT_PACK_BLOB (str "HELLO"));
      [by vm_compute|solve_distance|lia|solve_stored| |by vm_compute].
    eapply (@resolves_whole stored_zlib remapped_pack [] _ 12 BGIT_PACK_BLOB 13 (str "HELLO") 6); [by vm_compute..|].
    solve_stored. }
  pose proof (@held_unique stored_zlib remapped_pack [] None (w_fs read_world) 19 _ _ _ _ Hn H') as E.
  by vm_compute in E.
Qed.
