(* ===== verification/Loose.v ===== *)
(** * Loose objects (loadables/_git/odb.c, lines 293-521)

    An object in a file of its own: compressing it, writing it under its id and
    reading it back, and slurping files.  The theorems show that an object once
    written is there at once or not at all and reads back as it was, under any
    kernel answers, and that reading ends on any file.  Sizes are bounded where
    the sources hand them to zlib in 32 bits. *)

From S2P Require Import Prelude Odb Sys CLib IndexFile Hash PackIdx Zlib PackObj.
#[local] Open Scope Z_scope.

(* ------------------------------------------------------------------ *)
(** ** What the sources call *)

(** zlib's one-call compression: what it writes fits the room, what it ends is
    a stream of the input, and in the room [deflateBound] asks for it ends. *)
Class Deflate `{Zlib} := {
  deflateBound : Z -> Z;
  deflate : list Z -> Z -> z_rc * list Z;
  deflate_room : forall input avail rc out, 0 <= avail -> deflate input avail = (rc, out) -> len out <= avail;
  deflate_end : forall input avail out, bytes input -> deflate input avail = (Z_STREAM_END, out) -> deflated out input;
  deflate_bound : forall input avail, bytes input -> 0 <= deflateBound (len input) <= avail ->
    exists out, deflate input avail = (Z_STREAM_END, out) }.

(** What fresh memory holds: any bytes. *)
Class Malloc := {
  malloc : Z -> list Z;
  malloc_len : forall n, 0 <= n -> len (malloc n) = n }.

Section Loose.
Context `{Zlib} `{!Deflate} `{Malloc} `{Sha1dc}.

(* ------------------------------------------------------------------ *)
(** ** Compressing *)

(** The counts are handed to zlib as 32-bit integers, and the length of the
    result is computed from what is left of the cut one. *)
Definition bgit_deflate (data : list Z) : outcome (list Z) :=
  let cap := deflateBound (len data) in
  let avail_in := u32 (len data) in
  let avail_out := u32 cap in
  let '(rc, out) := deflate (take (Z.to_nat avail_in) data) avail_out in
  if negb (bool_decide (rc = Z_STREAM_END)) then failed
  else
    let out_len := cap - (avail_out - len out) in
    Ret (take (Z.to_nat out_len) (out ++ drop (length out) (malloc cap))).

(* ------------------------------------------------------------------ *)
(** ** Reading *)

Definition loose_file (objects_dir sha : list Z) : path :=
  objects_dir ++ str "/" ++ take 2 sha ++ str "/" ++ drop 2 sha.

(** The bytes read so far; [None] when a read failed. *)
Fixpoint loose_read_loop (fuel : nat) (fd : Z) (raw : list Z) (size : Z) : io (option (list Z)) :=
  match fuel with
  | O => lift Fault
  | S fuel' =>
      if len raw <? size then
        let! r := sys_read fd (size - len raw) in
        let '(r, chunk) := r in
        if r <? 0 then
          let! e := get_errno in
          if e =? EINTR then loose_read_loop fuel' fd raw size else iret None
        else if r =? 0 then iret (Some raw)
        else loose_read_loop fuel' fd (raw ++ chunk) size
      else iret (Some raw)
  end.

(** [buf] is the first [total] bytes of the buffer.  The room left is handed
    over in 32 bits; [total] is then computed from the whole of it, so past that
    size it counts bytes nobody wrote. *)
Fixpoint loose_inflate_loop (fuel : nat) (input : list Z) (s : z_stream) (buf : list Z) (cap : Z) : outcome (list Z) :=
  match fuel with
  | O => Fault
  | S fuel' =>
      let cap := if len buf + 4096 >? cap then cap * 2 + 4096 else cap in
      let avail_out := u32 (cap - len buf) in
      let '(rc, k, out, s) := inflate Z_NO_FLUSH s input avail_out in
      if negb (bool_decide (rc = Z_OK)) && negb (bool_decide (rc = Z_STREAM_END)) then failed
      else
        let total := cap - (avail_out - len out) in
        let buf := take (Z.to_nat total) (buf ++ out ++ drop (length buf + length out) (malloc cap)) in
        if bool_decide (rc = Z_STREAM_END) then Ret buf
        else loose_inflate_loop fuel' (drop (Z.to_nat k) input) s buf cap
  end.

(** The object in a loose file's bytes, header and all.  Each turn of the loop
    reads or writes a byte. *)
Definition loose_inflate (raw : list Z) : outcome (list Z) :=
  let input := take (Z.to_nat (u32 (len raw))) raw in
  loose_inflate_loop (S (Z.to_nat (1033 * len input))) input inflateInit [] (len raw * 4 + 256).

(** [None] is the failure; a size is never negative here. *)
Definition bgit_read_loose_at (objects_dir sha : list Z) : io (option (list Z)) :=
  if negb (len sha =? 40) then iret None
  else if len (loose_file objects_dir sha) >=? 4096 then iret None
  else
    let! fd := open_rdonly (loose_file objects_dir sha) in
    if fd <? 0 then iret None
    else
      let! st := sys_fstat fd in
      match st with
      | None => let! _ := sys_close fd in iret None
      | Some st =>
          let! w := get_world in
          let! raw := loose_read_loop (2 + length (i_data st) + length (w_answers w)) fd [] (len (i_data st)) in
          let! _ := sys_close fd in
          match raw with
          | None => iret None
          | Some raw =>
              match loose_inflate raw with
              | Ret infl => iret (Some infl)
              | Fail _ => iret None
              | Fault => lift Fault
              end
          end
      end.

(* ------------------------------------------------------------------ *)
(** ** Writing *)

Definition loose_dir (objects_dir sha : list Z) : path := snprintf4096 (objects_dir ++ str "/" ++ take 2 sha).

Definition loose_dest (objects_dir sha : list Z) : path :=
  snprintf4096 (loose_dir objects_dir sha ++ str "/" ++ drop 2 sha).

Definition bgit_write_loose_at (objects_dir sha deflated : list Z) : io Z :=
  let! _ := sys_mkdir objects_dir in
  place_object (loose_dir objects_dir sha) (loose_dest objects_dir sha) deflated.

(** The status and the id, which is there even when nothing is written; [None]
    where the source has not set it. *)
Definition bgit_write_object (objects_dir type content : list Z) (do_write : bool) : io (Z * option (list Z)) :=
  let hdr := type ++ 32 :: print_dec (len content) in
  if len hdr >=? 64 then iret (-1, None)
  else
    let pre := hdr ++ 0 :: content in
    let '(digest, collision) := SHA1DCFinal (SHA1DCUpdate SHA1DCInit pre) in   (* bgit_sha1 *)
    let sha_hex := bgit_sha_to_hex digest in
    if collision : bool then
      let! _ := builtin_error "sha1dc: collision attempt detected for %s — refusing to write" in
      iret (-1, Some sha_hex)
    else if do_write then
      match bgit_deflate pre with
      | Ret deflated => let! rc := bgit_write_loose_at objects_dir sha_hex deflated in iret (rc, Some sha_hex)
      | Fail _ => let! _ := builtin_error "deflate failed" in iret (-1, Some sha_hex)
      | Fault => lift Fault
      end
    else iret (0, Some sha_hex).

(* ------------------------------------------------------------------ *)
(** ** Slurping *)

(** The return value of the last [read], and the bytes. *)
Fixpoint slurp_loop (fuel : nat) (fd : Z) (buf : list Z) (cap : Z) : io (Z * list Z) :=
  match fuel with
  | O => lift Fault
  | S fuel' =>
      let! r := sys_read fd (cap - len buf) in
      let '(r, chunk) := r in
      if r >? 0 then
        let buf := buf ++ chunk in
        slurp_loop fuel' fd buf (if len buf =? cap then cap * 2 else cap)
      else iret (r, buf)
  end.

(** As many turns as the file has bytes, and one; the model takes them from the
    inode. *)
Definition slurp_fuel (w : world) (fd : Z) : nat :=
  match w_fds w !! Z.to_N fd ≫= fun '(i, _) => inodes (w_fs w) !! i with
  | Some nd => 2 + length (i_data nd)
  | None => 2
  end.

Definition bgit_slurp_fd (fd : Z) : io (option (list Z)) :=
  let! w := get_world in
  let! r := slurp_loop (slurp_fuel w fd) fd [] 8192 in
  let '(r, buf) := r in
  if r <? 0 then iret None else iret (Some buf).

Definition bgit_slurp_file (p : path) : io (option (list Z)) :=
  let! fd := open_rdonly p in
  if fd <? 0 then let! _ := builtin_error "hash: %s: %s" in iret None
  else
    let! w := get_world in
    let! r := slurp_loop (slurp_fuel w fd) fd [] 8192 in
    let '(r, buf) := r in
    let! _ := sys_close fd in
    if r <? 0 then let! _ := builtin_error "hash: %s: %s" in iret None else iret (Some buf).
End Loose.

(* ------------------------------------------------------------------ *)
(** ** Compressing gives a stream of what was compressed *)

Lemma take_prefix {A} (a b : list A) n : n = length a -> take n (a ++ b) = a.
Proof. intros ->. apply take_app_length. Qed.

Section Streams.
Context `{Zlib} `{!Deflate} `{Malloc}.

Lemma u32_small n : 0 <= n <= UINT_MAX -> u32 n = n.
Proof. intros. unfold u32. apply Z.mod_small. unfold UINT_MAX in *. lia. Qed.

Lemma deflate_whole data : bytes data -> len data <= UINT_MAX -> 0 <= deflateBound (len data) <= UINT_MAX ->
  exists out, bgit_deflate data = Ret out /\ deflated out data /\ len out <= deflateBound (len data).
Proof.
  intros Hb Hn Hc. pose proof (len_nonneg data). unfold bgit_deflate.
  rewrite !u32_small by lia. rewrite take_ge by (unfold len; lia).
  destruct (deflate_bound data (deflateBound (len data))) as [out E]; [done|lia|]. rewrite E.
  rewrite bool_decide_eq_true_2 by done. cbn [negb]. exists out.
  rewrite take_prefix by (unfold len; lia). split; [done|].
  split; [by eapply deflate_end|eapply deflate_room; [|exact E]; lia].
Qed.

(** Of more than 32 bits can count, only what the cut count says goes into the
    stream, and bytes nobody wrote may follow it. *)
Lemma deflate_cuts data r : bytes data -> 0 <= deflateBound (len data) -> bgit_deflate data = Ret r ->
  exists out rest, r = out ++ rest /\ deflated out (take (Z.to_nat (len data mod 2 ^ 32)) data).
Proof.
  intros Hb Hc HR. unfold bgit_deflate in HR. change (u32 (len data)) with (len data mod 2 ^ 32) in HR.
  destruct (deflate _ _) as [rc out] eqn:E. case_bool_decide as Hrc; [|done]. cbn [negb] in HR. injection HR as <-. subst rc.
  apply deflate_end in E; [|by apply Forall_take]. exists out.
  assert (Hcut : u32 (deflateBound (len data)) <= deflateBound (len data)) by (unfold u32; apply Z.mod_le; lia).
  rewrite take_app_ge by (pose proof (len_nonneg out); unfold len at 3; unfold len in *; lia). by eexists.
Qed.

Lemma deflate_too_long data r : bytes data -> 0 <= deflateBound (len data) -> UINT_MAX < len data ->
  bgit_deflate data = Ret r -> ~ deflated r data.
Proof.
  intros Hb Hc Hn E Hd. destruct (deflate_cuts _ _ Hb Hc E) as (out & rest & -> & Hout).
  destruct (deflated_prefix_free _ _ _ _ Hout Hd) as [-> Hw]. apply (f_equal len) in Hw.
  unfold UINT_MAX in Hn. rewrite len_take in Hw. pose proof (Z.mod_pos_bound (len data) (2 ^ 32)). lia.
Qed.

(* ------------------------------------------------------------------ *)
(** ** Inflating gives the stream's data *)

(** The sizes the 32-bit counts can hold, with the room the buffer keeps
    ahead of the data. *)
Definition room : Z := UINT_MAX - 12286.

Definition fits (raw : list Z) : Prop :=
  4 * len raw + 256 <= UINT_MAX /\ forall data used, stream_at raw data used -> len data <= room.

(** The buffer holds what has been produced, and its room is counted right;
    or more has been produced than any stream here holds. *)
Definition buffered (p buf : list Z) (cap : Z) : Prop :=
  room < len p \/ (buf = p /\ len p <= cap /\ cap - len p <= UINT_MAX).

Definition next_cap (buf : list Z) (cap : Z) : Z := if len buf + 4096 >? cap then cap * 2 + 4096 else cap.

Lemma buffered_room p cap : len p <= cap -> cap - len p <= UINT_MAX -> len p <= room ->
  let cap' := next_cap p cap in u32 (cap' - len p) = cap' - len p /\ 4096 <= cap' - len p <= UINT_MAX.
Proof.
  intros L1 L2 L3. cbv zeta. pose proof (len_nonneg p).
  assert (Hr : 4096 <= next_cap p cap - len p <= UINT_MAX).
  { unfold next_cap, room, UINT_MAX in *. case_if; lia. }
  split; [|done]. apply u32_small. lia.
Qed.

Lemma buffered_step p buf cap out : buffered p buf cap ->
  let cap' := next_cap buf cap in let avail := u32 (cap' - len buf) in len out <= avail ->
  buffered (p ++ out) (take (Z.to_nat (cap' - (avail - len out)))
    (buf ++ out ++ drop (length buf + length out) (malloc cap'))) cap'.
Proof.
  intros Hbuf cap' avail Ho. pose proof (len_nonneg out).
  destruct (Z.lt_ge_cases room (len p)) as [Hbig|Hsmall]; [left; rewrite len_app; lia|].
  destruct Hbuf as [|(-> & L1 & L2)]; [lia|].
  destruct (buffered_room p cap L1 L2 Hsmall) as [Ea Hr]. fold cap' in Ea, Hr. fold avail in Ea. rewrite Ea in *.
  right. rewrite app_assoc, take_prefix by (rewrite length_app; unfold len in *; lia).
  rewrite len_app. split; [done|lia].
Qed.

Lemma loose_inflate_loop_yields raw : bytes raw -> (forall data used, stream_at raw data used -> len data <= room) ->
  forall fuel c input s p buf cap, raw = c ++ input -> inflating s c p -> buffered p buf cap ->
  len input + (1032 * len raw - len p) < Z.of_nat fuel ->
  yields (fun infl => exists used, stream_at raw infl used) (loose_inflate_loop fuel input s buf cap).
Proof.
  intros Hb Hfit. induction fuel as [|fuel IH]; intros c input s p buf cap Hraw Hs Hbuf Hf.
  { apply inflate_ratio in Hs. apply (f_equal len) in Hraw. rewrite len_app in Hraw. pose proof (len_nonneg input). lia. }
  cbn [loose_inflate_loop]. cbv zeta. fold (next_cap buf cap).
  destruct (inflate Z_NO_FLUSH s input _) as [[[rc k] out] s'] eqn:E. pose proof E as E'.
  assert (Hbi : bytes input) by (rewrite Hraw in Hb; by apply Forall_app in Hb as [_ ?]).
  eapply inflate_step in E' as (Hk & Ho & _ & Hs' & Hend); [|done..|unfold u32; apply Z.mod_pos_bound; lia].
  pose proof (buffered_step p buf cap out Hbuf Ho) as Hnext. cbv zeta in Hnext.
  set (buf' := take _ (buf ++ _)) in *.
  assert (Hsplit : raw = (c ++ take (Z.to_nat k) input) ++ drop (Z.to_nat k) input) by (by rewrite <- app_assoc, take_drop).
  destruct (negb _ && negb _) eqn:Hrc; [done|].
  destruct (decide (rc = Z_STREAM_END)) as [Hr|Hr]; [rewrite (bool_decide_eq_true_2 _ Hr)|rewrite (bool_decide_eq_false_2 _ Hr) in *].
  - specialize (Hend Hr). cbn.
    assert (Hst : stream_at raw (p ++ out) (len (c ++ take (Z.to_nat k) input))).
    { split; [apply (f_equal len) in Hsplit; rewrite len_app in Hsplit; pose proof (len_nonneg (drop (Z.to_nat k) input));
        pose proof (len_nonneg (c ++ take (Z.to_nat k) input)); lia|].
      rewrite Hsplit. unfold len. rewrite Nat2Z.id, take_app_length. done. }
    destruct Hnext as [Hbig|(-> & _)]; [specialize (Hfit _ _ Hst); lia|eauto].
  - assert (rc = Z_OK) as -> by (destruct (bool_decide (rc = Z_OK)) eqn:Eo; [by apply bool_decide_eq_true in Eo|done]).
    apply inflate_progress in E.
    eapply (IH (c ++ take (Z.to_nat k) input) _ s' (p ++ out)); [done..|].
    rewrite len_drop, len_app by lia. destruct E as [|Hout]; [pose proof (len_nonneg out); lia|].
    destruct out; [done|]. rewrite len_cons in *. pose proof (len_nonneg out). lia.
Qed.

Lemma fits_prefix raw k : fits raw -> fits (take k raw).
Proof.
  intros [L1 L2]. split; [rewrite len_take; lia|]. intros data used [Hu Hd]. apply (L2 data used).
  rewrite len_take in Hu. split; [lia|]. rewrite take_take in Hd.
  by rewrite Nat.min_l in Hd by lia.
Qed.

Lemma stream_at_prefix raw k data used : stream_at (take k raw) data used -> stream_at raw data used.
Proof.
  intros [Hu Hd]. rewrite len_take in Hu. split; [lia|]. rewrite take_take in Hd. by rewrite Nat.min_l in Hd by lia.
Qed.

Lemma fits_start raw : fits raw -> take (Z.to_nat (u32 (len raw))) raw = raw /\ buffered [] [] (len raw * 4 + 256).
Proof.
  intros [L1 _]. pose proof (len_nonneg raw). rewrite u32_small by lia. split; [apply take_ge; unfold len; lia|].
  right. change (len (@nil Z)) with 0. split; [done|lia].
Qed.

Lemma loose_inflate_yields raw : bytes raw -> fits raw ->
  yields (fun infl => exists used, stream_at raw infl used) (loose_inflate raw).
Proof.
  intros Hb Hfit. destruct (fits_start raw Hfit) as [E Hbuf]. unfold loose_inflate. rewrite E.
  eapply (loose_inflate_loop_yields raw Hb (proj2 Hfit) _ []); [done|apply inflating_init|done|].
  change (len (@nil Z)) with 0. pose proof (len_nonneg raw). lia.
Qed.

(** With a whole stream at the start of the input the loop reaches its end. *)
Lemma loose_inflate_loop_finds raw : bytes raw -> forall fuel c rest post s p todo cap, raw = c ++ rest ++ post ->
  inflating s c p -> deflated (c ++ rest) (p ++ todo) -> len (p ++ todo) <= room ->
  len p <= cap -> cap - len p <= UINT_MAX -> len (rest ++ post) + (1032 * len raw - len p) < Z.of_nat fuel ->
  exists infl, loose_inflate_loop fuel (rest ++ post) s p cap = Ret infl.
Proof.
  intros Hb. induction fuel as [|fuel IH]; intros c rest post s p todo cap Hraw Hs Hd Hroom Hcap Hcap' Hf.
  { apply inflate_ratio in Hs. apply (f_equal len) in Hraw. rewrite len_app in Hraw. pose proof (len_nonneg (rest ++ post)). lia. }
  cbn [loose_inflate_loop]. cbv zeta. fold (next_cap p cap). rewrite len_app in Hroom. pose proof (len_nonneg todo).
  destruct (buffered_room p cap Hcap Hcap' ltac:(lia)) as [Ea Hr]. rewrite Ea.
  destruct (inflate Z_NO_FLUSH s (rest ++ post) _) as [[[rc k] out] s'] eqn:E.
  assert (Hbi : bytes (rest ++ post)) by (rewrite Hraw in Hb; by apply Forall_app in Hb as [_ ?]).
  assert (Hpos : 0 < next_cap p cap - len p) by lia.
  pose proof (inflate_complete _ _ _ _ _ _ _ _ _ _ _ _ Hs Hd Hpos E) as Hprog.
  destruct (decide (rc = Z_STREAM_END)) as [->|Hrc]; [cbn; eauto|].
  destruct Hprog as [|(_ & Hne & Hout & rest' & todo' & Hrest & Htodo)]; [done|].
  assert (rc = Z_OK) as -> by (destruct rc; try done; by apply inflate_buf_error in E).
  eapply inflate_step in E as (Hk & Ho & _ & Hs' & _); [|done|done|lia].
  cbn [bool_decide decide negb andb]. rewrite bool_decide_eq_true_2 by done. cbn [negb andb].
  rewrite app_assoc, take_prefix by (rewrite length_app; unfold len in *; lia).
  assert (Hdrop : drop (Z.to_nat k) (rest ++ post) = rest' ++ post).
  { apply (app_inv_head (take (Z.to_nat k) (rest ++ post))). rewrite take_drop, app_assoc, <- Hrest. done. }
  rewrite Hdrop. assert (0 < len out) by (destruct out; [done|]; rewrite len_cons; pose proof (len_nonneg out); lia).
  apply (IH (c ++ take (Z.to_nat k) (rest ++ post)) rest' post s' _ todo').
  - rewrite Hraw, <- Hdrop, <- app_assoc, take_drop. done.
  - done.
  - by rewrite <- !app_assoc, <- Hrest, <- Htodo.
  - rewrite <- app_assoc, <- Htodo, len_app. lia.
  - rewrite len_app. lia.
  - rewrite len_app. lia.
  - rewrite <- Hdrop, len_drop by lia. rewrite (len_app p). lia.
Qed.

(** What inflating a loose file gives: the data of the stream it starts with. *)
Lemma loose_inflate_exact raw infl : bytes raw -> fits raw ->
  loose_inflate raw = Ret infl <-> exists used, stream_at raw infl used.
Proof.
  intros Hb Hfit. pose proof (loose_inflate_yields raw Hb Hfit) as Hy. split.
  - intros E. by rewrite E in Hy.
  - intros [used Hst]. destruct (fits_start raw Hfit) as [Eraw _]. pose proof Hst as [Hu Hd]. pose proof (len_nonneg raw).
    destruct (loose_inflate_loop_finds raw Hb (S (Z.to_nat (1033 * len raw))) [] (take (Z.to_nat used) raw)
      (drop (Z.to_nat used) raw) inflateInit [] infl (len raw * 4 + 256)) as [infl' E].
    + cbn. by rewrite take_drop.
    + apply inflating_init.
    + done.
    + cbn. by eapply Hfit.
    + change (len (@nil Z)) with 0. lia.
    + change (len (@nil Z)) with 0. destruct Hfit. lia.
    + rewrite take_drop. change (len (@nil Z)) with 0. lia.
    + rewrite take_drop in E. unfold loose_inflate in *. rewrite Eraw in *. rewrite E in *.
      destruct Hy as [used' Hst']. by destruct (stream_at_unique _ _ _ _ _ Hst Hst') as [-> _].
Qed.
End Streams.

(* ------------------------------------------------------------------ *)
(** ** Reading *)

Lemma loose_read_loop_spec fuel fd i nd : i_dir nd = false -> forall k w r w',
  (length (i_data nd) - k + length (w_answers w) + 2 <= fuel)%nat -> (k <= length (i_data nd))%nat ->
  0 <= fd -> w_fds w !! Z.to_N fd = Some (i, Z.of_nat k) -> inodes (w_fs w) !! i = Some nd ->
  loose_read_loop fuel fd (take k (i_data nd)) (len (i_data nd)) w = (r, w') ->
  exists o, r = Ret o /\ (forall raw, o = Some raw -> exists k', raw = take k' (i_data nd)) /\
    (w_answers w = [] -> o = Some (i_data nd)).
Proof.
  intros Hdir. induction fuel as [|fuel IH]; intros k w r w' Hf Hk Hfd Hw Hi H; [lia|].
  cbn [loose_read_loop] in H.
  assert (Hlen : len (take k (i_data nd)) = Z.of_nat k) by (rewrite len_take; unfold len; lia).
  rewrite Hlen in H. case_if_in H.
  2:{ injection H as <- <-. eexists. split; [done|]. split; [intros raw [= <-]; eauto|].
      intros _. rewrite take_ge; [done|]. unfold len in *. lia. }
  unfold ibind at 1 in H. destruct (sys_read fd (len (i_data nd) - Z.of_nat k) w) as [r1 w1] eqn:Hr.
  eapply read_cases in Hr as (E1 & E2 & E3 & Hr); [|unfold len in *; lia|done..].
  destruct Hr as [(-> & Hne & Ef)|(m & -> & Hm & Hm0 & Hfull & Ef)].
  - cbn -[loose_read_loop] in H. destruct (w_errno w1 =? EINTR); cbn -[loose_read_loop] in H.
    + destruct (IH k w1 r w') as (o & -> & Ho & _); try done; try congruence.
      * rewrite E3. pose proof (tail_shorter _ Hne). lia.
      * by exists o.
    + injection H as <- <-. by exists None.
  - rewrite Nat2Z.id in *. set (chunk := take m (drop k (i_data nd))) in *.
    assert (Hlc : len chunk = Z.min (Z.of_nat m) (len (i_data nd) - Z.of_nat k)).
    { unfold chunk. rewrite len_take, len_drop. unfold len. lia. }
    specialize (Hm0 ltac:(unfold len in *; lia)).
    rewrite (proj2 (Z.ltb_ge (len chunk) 0)), (proj2 (Z.eqb_neq (len chunk) 0)) in H by (unfold len in *; lia).
    assert (Happ : take k (i_data nd) ++ chunk = take (k + length chunk) (i_data nd)).
    { rewrite <- take_take_drop. f_equal. unfold chunk. by rewrite length_take, take_min_length. }
    rewrite Happ in H. unfold len in Hlc, Ef, Hm.
    destruct (IH (k + length chunk)%nat w1 r w') as (o & -> & Ho & Hno); try done; try lia.
    + rewrite E3. destruct (w_answers w) as [|a l]; simpl in *; lia.
    + rewrite Ef, lookup_insert_eq. do 2 f_equal. lia.
    + by rewrite E1.
    + exists o. split; [done|]. split; [done|]. intros Ha. apply Hno. by rewrite E3, Ha.
Qed.

Lemma loose_read_loop_dir fuel fd i nd need : i_dir nd = true -> 0 <= fd -> forall w r w',
  (length (w_answers w) + 1 <= fuel)%nat -> w_fds w !! Z.to_N fd = Some (i, 0) -> inodes (w_fs w) !! i = Some nd ->
  loose_read_loop fuel fd [] need w = (r, w') -> r = Ret None \/ r = Ret (Some []).
Proof.
  intros Hdir Hfd. induction fuel as [|fuel IH]; intros w r w' Hf Hw Hi H; [lia|].
  cbn [loose_read_loop] in H. case_if_in H; [|injection H as <- <-; by right].
  unfold ibind at 1 in H. destruct (sys_read fd (need - len []) w) as [r1 w1] eqn:Hr.
  eapply read_dir in Hr as (-> & [F1 F2] & Ef & Ea & He); [|done..].
  cbn -[loose_read_loop] in H. destruct (w_errno w1 =? EINTR) eqn:Ee; cbn -[loose_read_loop] in H.
  - destruct (w_answers w) as [|a l] eqn:Ew; [rewrite (He eq_refl) in Ee; done|].
    apply (IH w1 r w'); try done; try congruence. rewrite Ea. simpl in *. lia.
  - injection H as <- <-. by left.
Qed.

#[export] Instance harmless_loose_read_loop fuel fd raw size : Harmless (loose_read_loop fuel fd raw size).
Proof. revert raw. induction fuel as [|fuel IH]; intros raw; cbn [loose_read_loop]; solve_harmless; auto. Qed.

Section Reading.
Context `{Zlib} `{Malloc}.

#[export] Instance harmless_read_loose_at objects_dir sha : Harmless (bgit_read_loose_at objects_dir sha).
Proof. unfold bgit_read_loose_at. solve_harmless. Qed.

(** The object of an id in an objects directory, header and all. *)
Definition loose_at (f : fs) (objects_dir sha infl : list Z) : Prop :=
  exists raw used, content f (loose_file objects_dir sha) = Some raw /\ stream_at raw infl used.

Lemma loose_at_unique f dir sha i1 i2 : loose_at f dir sha i1 -> loose_at f dir sha i2 -> i1 = i2.
Proof.
  intros (r1 & u1 & C1 & S1) (r2 & u2 & C2 & S2). rewrite C1 in C2. injection C2 as ->.
  by destruct (stream_at_unique _ _ _ _ _ S1 S2).
Qed.

Definition file_fits (f : fs) (q : path) : Prop := forall raw, content f q = Some raw -> bytes raw /\ fits raw.

(** What the bytes a read let through amount to. *)
Lemma loose_inflate_part raw k : bytes raw -> fits raw ->
  yields (fun infl => exists used, stream_at raw infl used) (loose_inflate (take k raw)).
Proof.
  intros Hb Hfit. eapply yields_impl; [by apply loose_inflate_yields; [apply Forall_take|apply fits_prefix]|].
  intros infl [used Hst]. exists used. by eapply stream_at_prefix.
Qed.

Lemma loose_inflate_empty : exists m, loose_inflate [] = Fail m.
Proof.
  assert (Hno : forall infl used, ~ stream_at [] infl used).
  { intros infl used [_ Hd]. rewrite take_nil in Hd. by apply deflated_nonempty in Hd. }
  pose proof (loose_inflate_yields [] ltac:(constructor)) as Hy.
  destruct (loose_inflate []) as [infl|m|]; [|by exists m|].
  - destruct Hy as [used Hst]; [|by apply Hno in Hst]. split; [vm_compute; discriminate|]. by intros ? ? ?%Hno.
  - destruct Hy. split; [vm_compute; discriminate|]. by intros ? ? ?%Hno.
Qed.

Lemma read_loose_at_spec dir sha w r w' : fs_ok (w_fs w) -> file_fits (w_fs w) (loose_file dir sha) ->
  bgit_read_loose_at dir sha w = (r, w') ->
  exists o, r = Ret o /\ (forall infl, o = Some infl -> loose_at (w_fs w) dir sha infl) /\
    (w_answers w = [] -> len sha = 40 -> len (loose_file dir sha) < 4096 ->
      forall infl, loose_at (w_fs w) dir sha infl -> o = Some infl).
Proof.
  intros Hok Hfiles HR. unfold bgit_read_loose_at in HR.
  assert (Hnone : (w_answers w = [] -> len sha = 40 -> len (loose_file dir sha) < 4096 ->
      content (w_fs w) (loose_file dir sha) = None) -> r = Ret None ->
    exists o, r = Ret o /\ (forall infl, o = Some infl -> loose_at (w_fs w) dir sha infl) /\
    (w_answers w = [] -> len sha = 40 -> len (loose_file dir sha) < 4096 ->
      forall infl, loose_at (w_fs w) dir sha infl -> o = Some infl)).
  { intros Hc ->. exists None. split; [done|]. split; [done|]. intros Ha Hs Hl infl (raw & used & Hraw & _).
    rewrite Hc in Hraw by done. done. }
  case_if_in HR; [injection HR as <- <-; apply Hnone; [lia|done]|].
  case_if_in HR; [injection HR as <- <-; apply Hnone; [lia|done]|].
  unfold ibind at 1 in HR. destruct (open_rdonly _ w) as [r1 w1] eqn:Ho.
  apply open_rdonly_cases in Ho as (E1 & E2 & [(-> & _ & Hno)|(i & fd & -> & Hn & Hfree & Hfd & Ha1)]).
  { injection HR as <- <-. apply Hnone; [|done]. intros Ha _ _. unfold content, lookup_inode. by rewrite (Hno Ha). }
  rewrite (proj2 (Z.ltb_ge (Z.of_N fd) 0)) in HR by lia.
  destruct (Hok _ _ Hn) as [nd Hi].
  assert (Hcont : content (w_fs w) (loose_file dir sha) = if i_dir nd then None else Some (i_data nd)).
  { unfold content, lookup_inode. rewrite Hn. simpl. by rewrite Hi. }
  unfold ibind at 1 in HR. destruct (sys_fstat (Z.of_N fd) w1) as [r2 w2] eqn:Hs.
  assert (Hlook : w_fds w1 !! Z.to_N (Z.of_N fd) = Some (i, 0)) by (rewrite N2Z.id, Hfd; apply lookup_insert_eq).
  destruct (fstat_cases _ _ _ _ i 0 nd Hs ltac:(lia) Hlook ltac:(by rewrite E1))
    as (F1 & F2 & F3 & F4 & [[-> Hne] | ->]).
  { apply close_then in HR as [-> _]. apply Hnone; [|done]. intros Ha. rewrite Ha1, Ha in Hne. done. }
  unfold ibind at 1, get_world in HR. unfold ibind at 1 in HR.
  destruct (loose_read_loop _ (Z.of_N fd) [] (len (i_data nd)) w2) as [r3 w3] eqn:Hl.
  destruct (i_dir nd) eqn:Edir.
  - apply (loose_read_loop_dir _ _ i nd) in Hl; [|done|lia|lia|by rewrite F3|by rewrite F1, E1].
    apply Hnone; [done|]. destruct loose_inflate_empty as [m Em].
    destruct Hl as [-> | ->]; unfold ibind in HR; destruct (sys_close (Z.of_N fd) w3) as [r4 w4] eqn:Hc;
      apply close_reads in Hc as [[z ->] _]; [|rewrite Em in HR]; by injection HR as <- <-.
  - apply (loose_read_loop_spec _ _ i nd Edir 0) in Hl as (o & -> & Ho & Hfull); [|lia|lia|lia|by rewrite F3|by rewrite F1, E1].
    unfold ibind in HR. destruct (sys_close (Z.of_N fd) w3) as [r4 w4] eqn:Hc. apply close_reads in Hc as [[z ->] _].
    rewrite F4, Ha1 in Hfull. destruct (Hfiles _ Hcont) as [Hb Hfit].
    destruct o as [raw|]; [|injection HR as <- <-; exists None; split_and!; try done; intros Ha; rewrite Ha in Hfull; by specialize (Hfull eq_refl)].
    destruct (Ho raw eq_refl) as [k ->]. pose proof (loose_inflate_part _ k Hb Hfit) as Hy.
    assert (Hwhole : w_answers w = [] -> take k (i_data nd) = i_data nd).
    { intros Ha. rewrite Ha in Hfull. by specialize (Hfull eq_refl) as [= ->]. }
    assert (Hfind : forall infl, w_answers w = [] -> loose_at (w_fs w) dir sha infl -> loose_inflate (take k (i_data nd)) = Ret infl).
    { intros infl Ha (raw & used & Hraw & Hst). rewrite Hcont in Hraw. injection Hraw as <-. rewrite (Hwhole Ha).
      apply loose_inflate_exact; [done..|]. by exists used. }
    destruct (loose_inflate (take k (i_data nd))) as [infl|m|]; [| |done]; injection HR as <- <-.
    + exists (Some infl). split; [done|]. split.
      * intros ? [= <-]. destruct Hy as [used Hst]. by exists (i_data nd), used.
      * intros Ha _ _ infl' Hat. specialize (Hfind _ Ha Hat). by injection Hfind as ->.
    + exists None. split_and!; try done. intros Ha _ _ infl' Hat. specialize (Hfind _ Ha Hat). done.
Qed.
End Reading.

(* ------------------------------------------------------------------ *)
(** ** Writing *)

Lemma loose_dest_file dir sha : len (loose_file dir sha) < 4096 -> len sha = 40 -> loose_dest dir sha = loose_file dir sha.
Proof.
  intros Hl Hs. unfold loose_file in Hl. rewrite !len_app in Hl. change (len (str "/")) with 1 in Hl.
  pose proof (len_nonneg (drop 2 sha)). pose proof (len_nonneg (take 2 sha)).
  unfold loose_dest, loose_dir, loose_file.
  rewrite (snprintf_short (dir ++ _)) by (rewrite !len_app; change (len (str "/")) with 1; lia).
  rewrite snprintf_short by (rewrite !len_app; change (len (str "/")) with 1; lia). by rewrite <- !app_assoc.
Qed.

Lemma object_header_bytes kind n : 0 <= n -> bytes (object_header (bgit_type_name kind) n).
Proof.
  intros Hn. unfold object_header, bytes. apply Forall_app. split; [destruct kind; solve_bytes|].
  constructor; [unfold is_byte; lia|]. apply Forall_app. split; [|solve_bytes].
  destruct (print_dec_form n Hn) as [Hd _]. eapply Forall_impl; [exact Hd|]. intros c Hc.
  unfold is_digit, is_byte in *. simpl_bool. lia.
Qed.

Section Writing.
Context `{Zlib} `{!Deflate} `{Malloc} `{Sha1dc}.

Lemma write_loose_at_spec dir sha data w r w' : fs_ok (w_fs w) -> len (loose_file dir sha) < 4096 -> len sha = 40 ->
  bgit_write_loose_at dir sha data w = (r, w') ->
  replaced (loose_file dir sha) data w r w' \/
  (r = Ret 0 /\ is_Some (names (w_fs w') !! loose_file dir sha) /\ unseen w w').
Proof.
  intros Hok Hl Hs HR. unfold bgit_write_loose_at in HR. rewrite loose_dest_file in HR by done.
  unfold ibind at 1 in HR. destruct (sys_mkdir dir w) as [r1 w1] eqn:E1.
  apply mkdir_unseen in E1 as [[z1 ->] U1]; [|done]. pose proof U1 as (_ & _ & Hok1 & _).
  eapply placed_unseen; [done|]. eapply place_object_spec; [done|exact HR].
Qed.

(** The bytes of an object. *)
Definition object_text (kind : bgit_type) (content : list Z) : list Z :=
  object_header (bgit_type_name kind) (len content) ++ content.

Definition object_id (kind : bgit_type) (content : list Z) : list Z :=
  bgit_sha_to_hex (fst (SHA1DC (object_text kind content))).

Lemma hex_len digest : oid digest -> len (bgit_sha_to_hex digest) = 40.
Proof. intros [Hl Hb]. rewrite sha_to_hex_len by done. lia. Qed.

Lemma object_id_len kind content : len (object_id kind content) = 40.
Proof.
  apply hex_len, SHA1DC_digest.
Qed.

(** Sizes of which every count stays within 32 bits. *)
Definition writable (kind : bgit_type) (content : list Z) : Prop :=
  len (object_text kind content) <= room /\
  0 <= deflateBound (len (object_text kind content)) /\ 4 * deflateBound (len (object_text kind content)) + 256 <= UINT_MAX.

Lemma whole_stream raw data : deflated raw data -> stream_at raw data (len raw).
Proof. intros Hd. split; [pose proof (len_nonneg raw); lia|]. unfold len. by rewrite Nat2Z.id, firstn_all. Qed.

Lemma whole_fits raw data : deflated raw data -> 4 * len raw + 256 <= UINT_MAX -> len data <= room -> fits raw.
Proof.
  intros Hraw Hl Hroom. split; [done|]. intros d used [Hu Hd]. rewrite <- (take_drop (Z.to_nat used) raw) in Hraw.
  by destruct (deflated_prefix_free _ _ _ _ Hd Hraw) as [_ <-].
Qed.

(** What writing an object comes to: nothing that can be seen, or its stream
    put in place. *)
Lemma write_object_spec dir kind content do_write w r w' : fs_ok (w_fs w) -> bytes content -> writable kind content ->
  len (loose_file dir (object_id kind content)) < 4096 ->
  bgit_write_object dir (bgit_type_name kind) content do_write w = (r, w') ->
  exists rc, r = Ret (rc, Some (object_id kind content)) /\
    ((reads_only w w' /\ (rc = 0 -> do_write = false)) \/
     exists raw, deflated raw (object_text kind content) /\ fits raw /\
       (replaced (loose_file dir (object_id kind content)) raw w (Ret rc) w' \/
        (rc = 0 /\ is_Some (names (w_fs w') !! loose_file dir (object_id kind content)) /\ unseen w w'))).
Proof.
  intros Hok Hb (Hroom & Hb0 & Hbound) Hlen HR. unfold bgit_write_object in HR.
  assert (Epre : (bgit_type_name kind ++ 32 :: print_dec (len content)) ++ 0 :: content = object_text kind content).
  { unfold object_text, object_header. rewrite <- !app_assoc. cbn. by rewrite <- app_assoc. }
  assert (Hbt : bytes (object_text kind content)).
  { unfold object_text, bytes. apply Forall_app. split; [apply object_header_bytes, len_nonneg|done]. }
  assert (Hh : len (object_header (bgit_type_name kind) (len content)) <= 64).
  { apply object_header_short. unfold object_text in Hroom. rewrite len_app in Hroom.
    pose proof (len_nonneg content). pose proof (len_nonneg (object_header (bgit_type_name kind) (len content))).
    unfold room, UINT_MAX, SIZE_MAX in *. lia. }
  unfold object_header in Hh. rewrite app_comm_cons, app_assoc, len_app in Hh. change (len [0]) with 1 in Hh.
  case_if_in HR; [lia|]. cbv zeta in HR. rewrite Epre in HR.
  rewrite (hashed_final _ _ (hashed_update _ [] _ hashed_init)) in HR. cbn [app] in HR.
  pose proof (SHA1DC_digest (object_text kind content)) as Hdig.
  unfold object_id in *. destruct (SHA1DC (object_text kind content)) as [digest collision]. cbn [fst] in *.
  assert (Hquiet : forall rc w1, reads_only w w1 -> (rc = 0 -> do_write = false) ->
    (Ret (rc, Some (bgit_sha_to_hex digest)), w1) = (r, w') ->
    exists rc, r = Ret (rc, Some (bgit_sha_to_hex digest)) /\ ((reads_only w w' /\ (rc = 0 -> do_write = false)) \/
     exists raw, deflated raw (object_text kind content) /\ fits raw /\
       (replaced (loose_file dir (bgit_sha_to_hex digest)) raw w (Ret rc) w' \/
        (rc = 0 /\ is_Some (names (w_fs w') !! loose_file dir (bgit_sha_to_hex digest)) /\ unseen w w')))).
  { intros rc w1 Hw1 Hrc E. injection E as <- <-. exists rc. split; [done|by left]. }
  destruct collision; [by eapply Hquiet; [| |exact HR]|].
  destruct do_write; [|by eapply Hquiet; [| |exact HR]].
  destruct (deflate_whole (object_text kind content) Hbt) as (raw & E & Hraw & Hlraw); [unfold room in Hroom; lia|lia|].
  rewrite E in HR. unfold ibind in HR. destruct (bgit_write_loose_at _ _ _ w) as [r1 w1] eqn:EW.
  assert (Hfit : fits raw).
  { eapply whole_fits; [exact Hraw|lia|done]. }
  apply write_loose_at_spec in EW; [|done..|by apply hex_len].
  destruct EW as [Hrep|(-> & Hn & Hu)].
  - pose proof Hrep as (rc & -> & _). injection HR as <- <-. exists rc. split; [done|]. right. exists raw. by split_and!; [| |left].
  - injection HR as <- <-. exists 0. split; [done|]. right. exists raw. by split_and!; [| |right].
Qed.
End Writing.

(* ------------------------------------------------------------------ *)
(** ** Slurping *)

#[export] Instance harmless_slurp_loop fuel fd buf cap : Harmless (slurp_loop fuel fd buf cap).
Proof. revert buf cap. induction fuel as [|fuel IH]; intros buf cap; cbn [slurp_loop]; solve_harmless; auto. Qed.

#[export] Instance harmless_slurp_fd fd : Harmless (bgit_slurp_fd fd).
Proof. unfold bgit_slurp_fd. solve_harmless. Qed.

#[export] Instance harmless_slurp_file p : Harmless (bgit_slurp_file p).
Proof. unfold bgit_slurp_file. solve_harmless. Qed.

Lemma slurp_loop_rest fuel fd i nd : i_dir nd = false -> 0 <= fd -> forall buf cap pos w r w', 0 <= pos ->
  len buf < cap -> len (drop (Z.to_nat pos) (i_data nd)) < Z.of_nat fuel ->
  w_fds w !! Z.to_N fd = Some (i, pos) -> inodes (w_fs w) !! i = Some nd ->
  slurp_loop fuel fd buf cap w = (r, w') ->
  exists rc got, r = Ret (rc, got) /\ (0 <= rc -> got = buf ++ drop (Z.to_nat pos) (i_data nd)) /\
    (w_answers w = [] -> rc = 0).
Proof.
  intros Hdir Hfd. induction fuel as [|fuel IH]; intros buf cap pos w r w' Hpos Hcap Hf Hw Hi H.
  { pose proof (len_nonneg (drop (Z.to_nat pos) (i_data nd))). lia. }
  cbn [slurp_loop] in H. unfold ibind at 1 in H. destruct (sys_read fd (cap - len buf) w) as [r1 w1] eqn:Hr.
  eapply read_cases in Hr as (E1 & E2 & E3 & Hr); [|lia|done..].
  destruct Hr as [(-> & Hne & Ef)|(m & -> & Hm & Hm0 & Hfull & Ef)].
  { injection H as <- <-. exists (-1), buf. split_and!; [done|lia|done]. }
  specialize (Hm0 ltac:(lia)). set (rest := drop (Z.to_nat pos) (i_data nd)) in *. set (chunk := take m rest) in *.
  pose proof (len_nonneg chunk). case_if_in H.
  - eapply (IH _ _ (pos + len chunk)) in H as (rc & got & -> & Hgot & Hno).
    + exists rc, got. split; [done|]. split; [|intros Ha; apply Hno; by rewrite E3, Ha].
      intros Hrc. rewrite (Hgot Hrc), <- app_assoc. f_equal.
      replace (drop (Z.to_nat (pos + len chunk)) (i_data nd)) with (drop (length chunk) rest)
        by (unfold rest; rewrite drop_drop; f_equal; unfold len; lia).
      unfold chunk. rewrite length_take. destruct (Nat.le_ge_cases m (length rest)).
      * by rewrite Nat.min_l, take_drop by done.
      * by rewrite Nat.min_r, take_ge, drop_all, app_nil_r by lia.
    + lia.
    + assert (Hc : len chunk <= cap - len buf) by (unfold chunk; rewrite len_take; lia). rewrite len_app. pose proof (len_nonneg buf). case_if; lia.
    + replace (drop (Z.to_nat (pos + len chunk)) (i_data nd)) with (drop (length chunk) rest)
        by (unfold rest; rewrite drop_drop; f_equal; unfold len; lia).
      assert (length chunk <= length rest)%nat by (unfold chunk; rewrite length_take; lia).
      unfold len in *. rewrite length_drop. lia.
    + by rewrite Ef, lookup_insert_eq.
    + by rewrite E1.
  - injection H as <- <-. exists (len chunk), buf. split; [done|].
    assert (Hz : len chunk = 0) by lia. split; [|by intros].
    intros _. assert (rest = []) as ->; [|by rewrite app_nil_r].
    unfold chunk in Hz. rewrite len_take in Hz. apply nil_length_inv. unfold len in *. lia.
Qed.

(** Slurping a descriptor gives the rest of its file, whatever the short
    counts, or fails. *)
Lemma slurp_fd_exact fd i pos nd w : 0 <= fd -> w_fds w !! Z.to_N fd = Some (i, pos) -> 0 <= pos ->
  inodes (w_fs w) !! i = Some nd -> i_dir nd = false ->
  exists o, fst (bgit_slurp_fd fd w) = Ret o /\ (forall data, o = Some data -> data = drop (Z.to_nat pos) (i_data nd)) /\
    (w_answers w = [] -> is_Some o).
Proof.
  intros Hfd Hw Hpos Hi Hdir. unfold bgit_slurp_fd, ibind at 1, get_world. unfold ibind.
  assert (Hfuel : slurp_fuel w fd = (2 + length (i_data nd))%nat) by (unfold slurp_fuel; rewrite Hw; simpl; by rewrite Hi).
  destruct (slurp_loop (slurp_fuel w fd) fd [] 8192 w) as [r w1] eqn:E. rewrite Hfuel in E.
  eapply slurp_loop_rest in E as (rc & got & -> & Hgot & Hno); [|done..|change (len (@nil Z)) with 0; lia| |done|done].
  2:{ rewrite len_drop by lia. unfold len. lia. }
  case_if; cbn.
  - exists None. split; [done|]. split; [done|]. intros Ha. specialize (Hno Ha). lia.
  - exists (Some got). split; [done|]. split; [|by eauto]. intros ? [= <-]. apply Hgot. lia.
Qed.

(* ------------------------------------------------------------------ *)
(** ** From writing to reading *)

(** [C37] (roundtrip) Writing an object.  The id is the SHA-1 of its header and
    content, whether or not anything is written.  When writing returns 0, the
    id's file holds a stream of exactly that text, or a file was there already
    and no file has changed; when it fails no file has changed; and at every
    moment between, others see the old file or the new one.  From a file that
    holds the text the reader gives it back, under any kernel answers or not at
    all, and always when the kernel refuses nothing, and its header parses to
    the type and size written. *)
Theorem object_write_read `{Zlib} `{!Deflate} `{Malloc} `{Sha1dc} dir kind text w r w' : fs_ok (w_fs w) ->
  kind <> BGIT_UNKNOWN -> bytes text -> writable kind text ->
  len (loose_file dir (object_id kind text)) < 4096 ->
  bgit_write_object dir (bgit_type_name kind) text true w = (r, w') ->
  let p := loose_file dir (object_id kind text) in
  exists rc, r = Ret (rc, Some (object_id kind text)) /\
    (rc = 0 -> loose_at (w_fs w') dir (object_id kind text) (object_text kind text) \/
       (is_Some (names (w_fs w') !! p) /\ forall q, content (w_fs w') q = content (w_fs w) q)) /\
    (rc <> 0 -> forall q, is_Some (names (w_fs w) !! q) -> content (w_fs w') q = content (w_fs w) q) /\
    (exists new, w_log w' = new ++ w_log w /\ Forall (fun f => content f p = content (w_fs w) p \/
       exists raw, content f p = Some raw /\ deflated raw (object_text kind text)) new) /\
    (forall w1 r1 w2, fs_ok (w_fs w1) -> file_fits (w_fs w1) p ->
       loose_at (w_fs w1) dir (object_id kind text) (object_text kind text) ->
       bgit_read_loose_at dir (object_id kind text) w1 = (r1, w2) ->
       (r1 = Ret None \/ r1 = Ret (Some (object_text kind text))) /\
       (w_answers w1 = [] -> r1 = Ret (Some (object_text kind text)))) /\
    exists off, bgit_parse_header (object_text kind text) = Ret (kind, len text, off) /\
      drop (Z.to_nat off) (object_text kind text) = text.
Proof.
  intros Hok Hkind Hb Hsz Hlen HW p.
  apply write_object_spec in HW as (rc & -> & Hcases); [|done..]. exists rc. split; [done|]. fold p in Hcases.
  split; [|split; [|split; [|split]]].
  - intros ->. destruct Hcases as [[_ Hw]|(raw & Hd & Hfit & [(? & [= <-] & [[_ Hc]|[? _]] & _)|(_ & Hn & Hu & _)])];
      [by specialize (Hw eq_refl)| |done|by right].
    left. exists raw, (len raw). split; [exact Hc|]. by apply whole_stream.
  - intros Hrc q Hq. destruct Hcases as [[[E _] _]|(raw & _ & _ & [(? & [= <-] & [[? _]|[_ Hc]] & Hother & _)|(? & _)])]; [by rewrite E|done| |done].
    destruct (decide (q = p)) as [->|Hne]; [done|auto].
  - destruct Hcases as [[[_ E] _]|(raw & Hd & _ & [(? & _ & _ & _ & new & E & Hall)|(_ & _ & _ & _ & _ & new & E & Hall)])].
    + by exists [].
    + exists new. split; [done|]. eapply Forall_impl; [exact Hall|]. intros f [?|?]; [by left|right; eauto].
    + exists new. split; [done|]. eapply Forall_impl; [exact Hall|]. intros f Hf. by left.
  - intros w1 r1 w2 Hok1 Hfit1 Hat HR. apply read_loose_at_spec in HR as (o & -> & Ho & Hall); [|done..].
    assert (Hfind : w_answers w1 = [] -> o = Some (object_text kind text)) by (intros Ha; apply Hall; [done|apply object_id_len|done..]).
    split; [|intros Ha; by rewrite (Hfind Ha)]. destruct o as [infl|]; [right|by left].
    by rewrite (loose_at_unique _ _ _ _ _ Hat (Ho _ eq_refl)).
  - exists (len (object_header (bgit_type_name kind) (len text))). unfold object_text. destruct Hsz as [Hroom _].
    unfold object_text in Hroom. rewrite len_app in Hroom. pose proof (len_nonneg text).
    pose proof (len_nonneg (object_header (bgit_type_name kind) (len text))). unfold room, UINT_MAX in Hroom.
    rewrite object_header_parse; [|done|unfold SIZE_MAX; lia|unfold LONG_MAX; lia]. split; [done|].
    unfold len. by rewrite Nat2Z.id, drop_app_length.
Qed.

(* ------------------------------------------------------------------ *)
(** ** Witnesses *)

#[export] Instance zero_malloc : Malloc.
Proof. refine {| malloc n := replicate (Z.to_nat n) 0 |}. intros n Hn. unfold len. rewrite length_replicate. lia. Defined.

(** Streams of one stored block, of at most 255 bytes. *)
Definition stored_deflate : @Deflate stored_zlib.
Proof.
  refine (@Build_Deflate stored_zlib (fun n => if n <=? 255 then n + 1 else -1)
    (fun input avail => if (len input <=? 255) && (len input + 1 <=? avail) then (Z_STREAM_END, len input :: input) else (Z_BUF_ERROR, [])) _ _ _).
  - intros input avail rc out Ha E. case_if_in E; injection E as <- <-; [rewrite len_cons; lia|done].
  - intros input avail out Hb E. case_if_in E; [|done]. injection E as <-. split; [done|].
    constructor; [pose proof (len_nonneg input); unfold is_byte; lia|done].
  - intros input avail Hb Hbound. case_if_in Hbound; [|lia].
    replace (len input + 1 <=? avail) with true by (symmetry; apply Z.leb_le; lia). cbn. eauto.
Defined.

(** A kernel that makes the directories, then is interrupted and writes in pieces. *)
Definition object_world : world :=
  {| w_fs := {| names := ∅; inodes := ∅ |}; w_fds := ∅; w_errno := 0;
     w_answers := [Proceed; Proceed; Proceed; Proceed; Proceed; Errno EINTR; Short 4];
     w_temps := [str "abcdef"]; w_now := (7, 0); w_log := []; w_reports := [] |}.

Definition demo_write : io (Z * option (list Z)) :=
  @bgit_write_object stored_zlib stored_deflate _ plain_sha1dc (str "objects") (bgit_type_name BGIT_BLOB) (str "hello") true.

Definition demo_hex : list Z := @object_id plain_sha1dc BGIT_BLOB (str "hello").
Definition demo_text : list Z := object_text BGIT_BLOB (str "hello").
Definition demo_raw : list Z := len demo_text :: demo_text.

(** A disk that holds the one file. *)
Definition shelf_world (p : path) (data : list Z) : world :=
  {| w_fs := {| names := {[p := 1%N]}; inodes := {[1%N := {| i_dir := false; i_data := data; i_mtime := (0, 0) |}]} |};
     w_fds := ∅; w_errno := 0; w_answers := []; w_temps := []; w_now := (0, 0); w_log := []; w_reports := [] |}.

Lemma shelf_ok p data : fs_ok (w_fs (shelf_world p data)).
Proof. intros q i Hq. cbn in *. apply lookup_singleton_Some in Hq as [<- <-]. rewrite lookup_singleton_eq. eauto. Qed.

Lemma shelf_content p data q raw : content (w_fs (shelf_world p data)) q = Some raw -> q = p /\ raw = data.
Proof.
  unfold content, lookup_inode. cbn. destruct (decide (q = p)) as [->|Hne].
  - rewrite lookup_singleton_eq. cbn. rewrite lookup_singleton_eq. cbn. by intros [= <-].
  - by rewrite lookup_singleton_ne.
Qed.

Lemma demo_deflated : @deflated stored_zlib demo_raw demo_text.
Proof. split; [vm_compute; reflexivity|solve_bytes]. Qed.

Lemma object_write_read_witness : exists w', demo_write object_world = (Ret (0, Some demo_hex), w') /\
  content (w_fs w') (loose_file (str "objects") demo_hex) = Some demo_raw /\
  fst (@bgit_read_loose_at stored_zlib _ (str "objects") demo_hex (shelf_world (loose_file (str "objects") demo_hex) demo_raw)) =
    Ret (Some demo_text).
Proof.
  assert (Hrun : let '(r, w') := demo_write object_world in r = Ret (0, Some demo_hex) /\
    content (w_fs w') (loose_file (str "objects") demo_hex) = Some demo_raw) by (vm_compute; split; reflexivity).
  destruct (demo_write object_world) as [r w'] eqn:E. destruct Hrun as [Hr Hc].
  destruct (@object_write_read stored_zlib stored_deflate _ plain_sha1dc (str "objects") BGIT_BLOB (str "hello") object_world r w'
    loose_fs_ok ltac:(discriminate) ltac:(solve_bytes)) as (rc & Er & _ & _ & _ & Hread & _);
    [split; [vm_compute; discriminate|split; vm_compute; discriminate]|vm_compute; reflexivity|exact E|].
  exists w'. rewrite Hr. split; [reflexivity|]. split; [exact Hc|].
  set (shelf := shelf_world _ demo_raw) in *.
  destruct (@bgit_read_loose_at stored_zlib _ (str "objects") demo_hex shelf) as [r1 w2] eqn:ER.
  apply (Hread shelf r1 w2); [apply shelf_ok| | |exact ER|reflexivity].
  - intros raw Hraw. apply shelf_content in Hraw as [_ ->]. split; [solve_bytes|].
    apply (@whole_fits stored_zlib demo_raw demo_text); [exact demo_deflated|vm_compute; discriminate|vm_compute; discriminate].
  - exists demo_raw, (len demo_raw). split; [vm_compute; reflexivity|].
    apply (@whole_stream stored_zlib). exact demo_deflated.
Defined.
