(* ===== verification/ObjStore.v ===== *)
(** * The object store (loadables/_git/store.c)

    One lookup over a repository's loose objects, its alternates' and every
    pack in them: listing directories and packs once, resolving abbreviated
    ids, whether an object is there, reading it, and listing them all.  The
    theorems show that resolving answers exactly when one copy of one object
    has the abbreviation, that a read answers only with an object kept under
    the id it was asked for, and that the list of all objects is complete and
    without repeats. *)

From S2P Require Import Prelude Endian Odb Delta Sys CLib IndexFile Hash PackIdx Zlib PackObj PackCache PackRead Loose.
#[local] Open Scope Z_scope.

(* ------------------------------------------------------------------ *)
(** ** What the sources call *)

(** The names in a directory: what comes after the path and a slash, in the
    paths that go no deeper. *)
Definition child (dir q : path) : option (list Z) :=
  if starts (dir ++ str "/") q then
    let name := drop (S (length dir)) q in
    match name, find_byte 47 name with
    | _ :: _, None => Some name
    | _, _ => None
    end
  else None.

Definition children (f : fs) (dir : path) : list (list Z) := omap (fun '(q, _) => child dir q) (map_to_list (names f)).

(** [readdir], until it has no more: every name, in an order of its own. *)
Class Readdir := {
  readdir : fs -> path -> list (list Z);
  readdir_perm : forall f dir, Permutation (readdir f dir) (str "." :: str ".." :: children f dir) }.

(** Where the kernel maps a file: not over what is mapped already. *)
Class Mmap := {
  mmap_at : list Z -> Z;
  mmap_free : forall live, mmap_at live ∉ live }.

(** [opendir], [readdir] and [closedir]; a listing may be cut short. *)
Definition sys_listdir `{Readdir} (dir : path) : io (option (list (list Z))) :=
  let! a := next_answer in
  match a with
  | Errno e => let! _ := set_errno e in iret None
  | _ =>
      let! w := get_world in
      match lookup_inode (w_fs w) dir with
      | Some nd =>
          if i_dir nd then
            iret (Some (match a with Short n => take (Z.to_nat n) (readdir (w_fs w) dir) | _ => readdir (w_fs w) dir end))
          else let! _ := set_errno 20 in iret None   (* ENOTDIR *)
      | None => let! _ := set_errno ENOENT in iret None
      end
  end.

(** [access (p, R_OK)]. *)
Definition sys_access (p : path) : io Z := answered (
  let! w := get_world in
  match lookup_inode (w_fs w) p with
  | Some _ => iret 0
  | None => fail_with ENOENT
  end).

(** [mmap] of a whole file: its bytes, which do not change under the mapping. *)
Definition sys_mmap (fd : Z) : io (option (list Z)) :=
  let! st := sys_fstat fd in
  match st with
  | Some nd => if i_dir nd then let! _ := set_errno 19 in iret None else iret (Some (i_data nd))   (* ENODEV *)
  | None => iret None
  end.

(* ------------------------------------------------------------------ *)
(** ** Data *)

(** [pk_pack] is the address and the bytes of the mapped pack. *)
Record bgit_pack_file := { pk_path : path; pk_idx : list Z; pk_pack : option (Z * list Z) }.

Record bgit_loose_dir := { ld_prefix : list Z; ld_dir : nat; ld_names : list (list Z) }.

Record bgit_odb := {
  object_dirs : list path;
  packs : list bgit_pack_file;
  packs_scanned : bool;
  listed : list bgit_loose_dir;
  quiet : bool }.

(** Once [bgit_repo_object_dirs] has given the directories. *)
Definition bgit_odb_open (dirs : list path) : bgit_odb :=
  {| object_dirs := dirs; packs := []; packs_scanned := false; listed := []; quiet := false |}.

(** The mappings go with the store; pack.c's cache of bases is not told. *)
Definition bgit_odb_release (odb : bgit_odb) : bgit_odb :=
  {| object_dirs := []; packs := []; packs_scanned := false; listed := []; quiet := false |}.

Definition with_packs (odb : bgit_odb) (ps : list bgit_pack_file) : bgit_odb :=
  {| object_dirs := object_dirs odb; packs := ps; packs_scanned := true; listed := listed odb; quiet := quiet odb |}.

Definition with_listed (odb : bgit_odb) (ls : list bgit_loose_dir) : bgit_odb :=
  {| object_dirs := object_dirs odb; packs := packs odb; packs_scanned := packs_scanned odb; listed := ls; quiet := quiet odb |}.

Definition report (odb : bgit_odb) (m : string) : io unit := if quiet odb then iret tt else builtin_error m.

Section Store.
Context `{Zlib} `{Malloc} `{Qsort} `{Readdir} `{Mmap}.

(* ------------------------------------------------------------------ *)
(** ** Packs *)

Definition bgit_map_file (p : path) : io (option (list Z)) :=
  let! fd := open_rdonly p in
  if fd <? 0 then iret None
  else
    let! st := sys_fstat fd in
    match st with
    | None => let! _ := sys_close fd in iret None
    | Some nd =>
        if len (i_data nd) <=? 0 then let! _ := sys_close fd in iret None
        else
          let! base := sys_mmap fd in
          let! _ := sys_close fd in
          iret base
    end.

(** The bytes of an index with its magic and version. *)
Definition idx_header (idx : list Z) : outcome bool :=
  if len idx <? 1032 then Ret false
  else
    let* magic := rdn idx 0 4 in
    if negb (beq magic [255; 116; 79; 99]) then Ret false
    else let* version := bgit_pack_be32 idx 4 in Ret (version =? 2).

(** One name in a pack directory: the pack it stands for. *)
Definition scan_entry (dir : path) (d_name : list Z) : io (option bgit_pack_file) :=
  if (len d_name <? 5) || negb (beq (drop (length d_name - 4) d_name) (str ".idx")) then iret None
  else
    let idx_path := dir ++ str "/" ++ d_name in
    if len idx_path >=? 4096 then iret None
    else
      let pack_path := take (length idx_path - 4) idx_path ++ str ".pack" in
      if len pack_path >=? 4096 then iret None
      else
        let! st := sys_stat pack_path in
        match st with
        | None => iret None
        | Some nd =>
            if i_dir nd then iret None
            else
              let! idx := bgit_map_file idx_path in
              match idx with
              | None => iret None
              | Some idx =>
                  let! good := lift (idx_header idx) in
                  iret (if good : bool then Some {| pk_path := pack_path; pk_idx := idx; pk_pack := None |} else None)
              end
        end.

Fixpoint entries_loop (dir : path) (entries : list (list Z)) : io (list bgit_pack_file) :=
  match entries with
  | [] => iret []
  | e :: entries' =>
      let! p := scan_entry dir e in
      let! rest := entries_loop dir entries' in
      iret (match p with Some p => p :: rest | None => rest end)
  end.

Fixpoint dirs_loop (dirs : list path) : io (list bgit_pack_file) :=
  match dirs with
  | [] => iret []
  | d :: dirs' =>
      let dir := d ++ str "/pack" in
      let! here := (if len dir >=? 4096 then iret []
                    else let! handle := sys_listdir dir in
                         match handle with
                         | None => iret []
                         | Some entries => entries_loop dir entries
                         end) in
      let! rest := dirs_loop dirs' in
      iret (here ++ rest)
  end.

Definition bgit_odb_scan_packs (odb : bgit_odb) : io bgit_odb :=
  if packs_scanned odb then iret odb
  else let! ps := dirs_loop (object_dirs odb) in iret (with_packs odb ps).

(** The addresses of the packs that are mapped. *)
Definition addresses (ps : list bgit_pack_file) : list Z := omap (fun p => option_map fst (pk_pack p)) ps.

Definition live (odb : bgit_odb) : list Z := addresses (packs odb).

(** The bytes of pack [i] and where they are. *)
Definition bgit_pack_mapping (odb : bgit_odb) (i : nat) (p : bgit_pack_file) : io (option (Z * list Z) * bgit_odb) :=
  match pk_pack p with
  | Some m => iret (Some m, odb)
  | None =>
      let! pack := bgit_map_file (pk_path p) in
      match pack with
      | None => iret (None, odb)
      | Some pack =>
          let! good := lift (if len pack <? 32 then Ret false
                             else let* magic := rdn pack 0 4 in Ret (beq magic (str "PACK"))) in
          if good : bool then
            let m := (mmap_at (live odb), pack) in
            iret (Some m, with_packs odb (<[i := {| pk_path := pk_path p; pk_idx := pk_idx p; pk_pack := Some m |}]> (packs odb)))
          else iret (None, odb)
      end
  end.

(** [strncmp (s, prefix, n)] for a string of at least [n] bytes. *)
Definition strncmp (s prefix : list Z) (n : Z) : Z := bcmp (take (Z.to_nat n) s) (take (Z.to_nat n) prefix).

(** One more object with the prefix: the first one is noted. *)
Definition matched (m : list Z * Z) (hex : list Z) : list Z * Z :=
  let '(full, matches) := m in
  if matches =? 0 then (hex, matches + 1) else (full, matches + 1).

Fixpoint pack_match_loop (n : nat) (idx prefix : list Z) (i : Z) (m : list Z * Z) : outcome (list Z * Z) :=
  match n with
  | O => Ret m
  | S n' =>
      let* sha := rdn idx (1032 + i * 20) 20 in
      let hex := bgit_sha_to_hex sha in
      if strncmp hex prefix (len prefix) =? 0 then
        let '(full, matches) := m in
        if negb (matches =? 0) && negb (beq full hex) then Ret (full, matches + 1)
        else
          let m := matched m hex in
          if snd m >? 1 then Ret m else pack_match_loop n' idx prefix (i + 1) m
      else pack_match_loop n' idx prefix (i + 1) m
  end.

(** The prefix holds hexadecimal digits only. *)
Definition bgit_pack_match_prefix (p : bgit_pack_file) (prefix : list Z) (m : list Z * Z) : outcome (list Z * Z) :=
  let idx := pk_idx p in
  let* total := bgit_pack_be32 idx (8 + 255 * 4) in
  let sha_bytes := u64 (total * 20) in
  if negb (total =? 0) && negb (sha_bytes / 20 =? total) then Ret m
  else if sha_bytes >? len idx - 1032 then Ret m
  else
    let* range :=
      (match prefix with
       | h :: l :: _ =>
           let value := hex_digit h * 16 + hex_digit l in
           let* first := (if value =? 0 then Ret 0 else bgit_pack_be32 idx (8 + (value - 1) * 4)) in
           let* last := bgit_pack_be32 idx (8 + value * 4) in
           Ret (if (first >? last) || (last >? total) then None else Some (first, last))
       | _ => Ret (Some (0, total))
       end) in
    match range with
    | None => Ret m
    | Some (first, last) => pack_match_loop (Z.to_nat (last - first)) idx prefix first m
    end.

(* ------------------------------------------------------------------ *)
(** ** Loose objects *)

Definition bgit_name_cmp (a b : list Z) : Z := bcmp a b.

(** The listing of a directory, kept from the first time on. *)
Definition bgit_loose_listing (odb : bgit_odb) (dir : nat) (d : path) (prefix : list Z) : io (option bgit_loose_dir * bgit_odb) :=
  match List.find (fun l => Nat.eqb (ld_dir l) dir && beq (ld_prefix l) (take 2 prefix)) (listed odb) with
  | Some l => iret (Some l, odb)
  | None =>
      let p := d ++ str "/" ++ take 2 prefix in
      if len p >=? 4096 then iret (None, odb)
      else
        let! handle := sys_listdir p in
        let found := match handle with
                     | Some entries => List.filter (fun d_name => len d_name =? 38) entries
                     | None => []
                     end in
        let found := if len found >? 1 then qsort bgit_name_cmp found else found in
        let kept := {| ld_prefix := take 2 prefix; ld_dir := dir; ld_names := found |} in
        iret (Some kept, with_listed odb (listed odb ++ [kept]))
  end.

(** Where the names that carry on from the prefix start. *)
Fixpoint low_loop (fuel : nat) (ns : list (list Z)) (tail : list Z) (rest low high : Z) : outcome Z :=
  match fuel with
  | O => Fault
  | S fuel' =>
      if low <? high then
        let mid := low + (high - low) / 2 in
        match ns !! Z.to_nat mid with
        | None => Fault
        | Some name =>
            if strncmp name tail rest <? 0 then low_loop fuel' ns tail rest (mid + 1) high
            else low_loop fuel' ns tail rest low mid
        end
      else Ret low
  end.

(** The names from there on, while they do and fewer than two were found. *)
Fixpoint carry_on (ns : list (list Z)) (prefix : list Z) (rest : Z) (m : list Z * Z) : list Z * Z :=
  match ns with
  | [] => m
  | name :: ns' =>
      if snd m <? 2 then
        if negb (strncmp name (drop 2 prefix) rest =? 0) then m
        else
          let hex := take 2 prefix ++ name in
          let '(full, matches) := m in
          if negb (matches =? 0) && negb (beq full hex) then (full, matches + 1)
          else carry_on ns' prefix rest (matched m hex)
      else m
  end.

Definition bgit_loose_match_prefix (odb : bgit_odb) (dir : nat) (d : path) (prefix : list Z) (m : list Z * Z)
    : io ((list Z * Z) * bgit_odb) :=
  if len prefix <? 2 then iret (m, odb)
  else
    let! r := bgit_loose_listing odb dir d prefix in
    let '(listing, odb) := r in
    match listing with
    | None => iret (m, odb)
    | Some l =>
        let rest := len prefix - 2 in
        let! low := lift (low_loop (S (length (ld_names l))) (ld_names l) (drop 2 prefix) rest 0 (len (ld_names l))) in
        iret (carry_on (drop (Z.to_nat low) (ld_names l)) prefix rest m, odb)
    end.

(* ------------------------------------------------------------------ *)
(** ** Asking for an object *)

(** Is there a file to be read for the id in one of the directories? *)
Fixpoint access_loop (dirs : list path) (sha : list Z) : io bool :=
  match dirs with
  | [] => iret false
  | d :: dirs' =>
      if len (loose_file d sha) >=? 4096 then access_loop dirs' sha
      else
        let! r := sys_access (loose_file d sha) in
        if r =? 0 then iret true else access_loop dirs' sha
  end.

(** Does one of the packs have the id? *)
Fixpoint has_loop (ps : list bgit_pack_file) (binary : list Z) : outcome bool :=
  match ps with
  | [] => Ret false
  | p :: ps' =>
      let* off := bgit_pack_lookup_offset (pk_idx p) binary in
      if negb (off =? absent) then Ret true else has_loop ps' binary
  end.

Definition bgit_odb_has (odb : bgit_odb) (sha : list Z) : io (bool * bgit_odb) :=
  if negb (len sha =? 40) then iret (false, odb)
  else
    let! there := access_loop (object_dirs odb) sha in
    if there : bool then iret (true, odb)
    else
      match bgit_hex_to_sha sha with
      | Ret binary =>
          let! odb := bgit_odb_scan_packs odb in
          let! there := lift (has_loop (packs odb) binary) in
          iret (there, odb)
      | Fail _ => iret (false, odb)
      | Fault => lift Fault
      end.

Definition bgit_odb_packed (odb : bgit_odb) (sha : list Z) : io (bool * bgit_odb) :=
  match bgit_hex_to_sha sha with
  | Ret raw =>
      let! odb := bgit_odb_scan_packs odb in
      let! there := lift (has_loop (packs odb) raw) in
      iret (there, odb)
  | Fail _ => iret (false, odb)
  | Fault => lift Fault
  end.

Fixpoint match_dirs (odb : bgit_odb) (i : nat) (dirs : list path) (name : list Z) (m : list Z * Z) : io ((list Z * Z) * bgit_odb) :=
  match dirs with
  | [] => iret (m, odb)
  | d :: dirs' =>
      if snd m <? 2 then
        let! r := bgit_loose_match_prefix odb i d name m in
        let '(m, odb) := r in
        match_dirs odb (S i) dirs' name m
      else iret (m, odb)
  end.

Fixpoint match_packs (ps : list bgit_pack_file) (name : list Z) (m : list Z * Z) : outcome (list Z * Z) :=
  match ps with
  | [] => Ret m
  | p :: ps' =>
      if snd m <? 2 then let* m := bgit_pack_match_prefix p name m in match_packs ps' name m else Ret m
  end.

(** The full id, or [None] with a report. *)
Definition bgit_odb_resolve (odb : bgit_odb) (name : list Z) : io (option (list Z) * bgit_odb) :=
  let refuse (odb : bgit_odb) := (let! _ := report odb "Not a valid object name %s" in iret (None, odb)) in
  if negb (bgit_all_hex (Some name)) || (len name >? 40) then refuse odb
  else if len name =? 40 then
    let! r := bgit_odb_has odb name in
    let '(there, odb) := r in
    if there : bool then iret (Some name, odb) else refuse odb
  else if len name <? 4 then refuse odb
  else
    let! r := match_dirs odb 0 (object_dirs odb) name ([], 0) in
    let '(m, odb) := r in
    let! odb := bgit_odb_scan_packs odb in
    let! m := lift (match_packs (packs odb) name m) in
    let '(candidate, matches) := m in
    if matches =? 0 then refuse odb
    else if matches >? 1 then
      let! _ := report odb "ambiguous argument '%s': unknown revision or object name" in iret (None, odb)
    else iret (Some candidate, odb).

(* ------------------------------------------------------------------ *)
(** ** Reading *)

Definition bgit_type_from_pack (pack_type : Z) : bgit_type :=
  if pack_type =? BGIT_PACK_COMMIT then BGIT_COMMIT
  else if pack_type =? BGIT_PACK_TREE then BGIT_TREE
  else if pack_type =? BGIT_PACK_BLOB then BGIT_BLOB
  else if pack_type =? BGIT_PACK_TAG then BGIT_TAG
  else BGIT_UNKNOWN.

(** The status is 0 with an object, -1 for an error, 1 for not here. *)
Definition found : Type := Z * option (bgit_type * list Z).

(** The object in what a loose file holds. *)
Definition split_loose (raw : list Z) : outcome (option (bgit_type * list Z)) :=
  match bgit_parse_header raw with
  | Ret (type, payload, off) =>
      if (off >? len raw) || negb (payload =? len raw - off) then Ret None
      else let* content := rdn raw off payload in Ret (Some (type, content))
  | Fail _ => Ret None
  | Fault => Fault
  end.

Fixpoint read_loose_loop (odb : bgit_odb) (dirs : list path) (sha : list Z) : io found :=
  match dirs with
  | [] => iret (1, None)
  | d :: dirs' =>
      let! raw := bgit_read_loose_at d sha in
      match raw with
      | None => read_loose_loop odb dirs' sha
      | Some raw =>
          let! o := lift (split_loose raw) in
          match o with
          | None => let! _ := report odb "malformed object header for %s" in iret (-1, None)
          | Some o => iret (0, Some o)
          end
      end
  end.

Definition bgit_odb_read_loose (odb : bgit_odb) (sha : list Z) : io found := read_loose_loop odb (object_dirs odb) sha.

(** Through the packs from the [i]-th on; [c] is the cache of pack.c.  Reading
    takes no more than the depth limit's turns. *)
Fixpoint read_packed_loop (odb : bgit_odb) (c : pack_cache) (i : nat) (ps : list bgit_pack_file) (binary : list Z)
    : io (found * bgit_odb * pack_cache) :=
  match ps with
  | [] => iret (1, None, odb, c)
  | p :: ps' =>
      let! off := lift (bgit_pack_lookup_offset (pk_idx p) binary) in
      if off =? absent then read_packed_loop odb c (S i) ps' binary
      else
        let! r := bgit_pack_mapping odb i p in
        let '(m, odb) := r in
        match m with
        | None => read_packed_loop odb c (S i) ps' binary
        | Some (addr, pack) =>
            let! r := bgit_pack_read_object_at 52 addr pack (pk_idx p) None c off 0 in
            let '(o, c) := r in
            match o with
            | None => let! _ := report odb "cannot read %s from %s" in iret (-1, None, odb, c)
            | Some (type, content) => iret (0, Some (bgit_type_from_pack type, content), odb, c)
            end
        end
  end.

Definition bgit_odb_read_packed (odb : bgit_odb) (c : pack_cache) (sha : list Z) : io (found * bgit_odb * pack_cache) :=
  match bgit_hex_to_sha sha with
  | Ret binary =>
      let! odb := bgit_odb_scan_packs odb in
      read_packed_loop odb c 0 (packs odb) binary
  | Fail _ => iret (1, None, odb, c)
  | Fault => lift Fault
  end.

Definition bgit_odb_read (odb : bgit_odb) (c : pack_cache) (name : list Z) : io (found * bgit_odb * pack_cache) :=
  let! r := bgit_odb_resolve odb name in
  let '(sha, odb) := r in
  match sha with
  | None => iret (-1, None, odb, c)
  | Some sha =>
      let! f := bgit_odb_read_loose odb sha in
      if fst f <=? 0 then iret (f, odb, c)
      else
        let! r := bgit_odb_read_packed odb c sha in
        let '(f, odb, c) := r in
        if fst f <=? 0 then iret (f, odb, c)
        else let! _ := report odb "Not a valid object name %s" in iret (-1, None, odb, c)
  end.

(* ------------------------------------------------------------------ *)
(** ** Every object at once *)

Definition bgit_sha_cmp (a b : list Z) : Z := bcmp a b.

(** ["%02x"]. *)
Definition hex2 (value : Z) : list Z := bgit_sha_to_hex [value].

Fixpoint values_loop (odb : bgit_odb) (i : nat) (d : path) (values : list Z) : io (list (list Z) * bgit_odb) :=
  match values with
  | [] => iret ([], odb)
  | value :: values' =>
      let! r := bgit_loose_listing odb i d (hex2 value) in
      let '(listing, odb) := r in
      let here := match listing with
                  | None => []
                  | Some l => List.filter (fun name => bgit_all_hex (Some name)) (map (fun name => hex2 value ++ name) (ld_names l))
                  end in
      let! r := values_loop odb i d values' in
      let '(rest, odb) := r in
      iret (here ++ rest, odb)
  end.

Fixpoint list_dirs (odb : bgit_odb) (i : nat) (dirs : list path) : io (list (list Z) * bgit_odb) :=
  match dirs with
  | [] => iret ([], odb)
  | d :: dirs' =>
      let! r := values_loop odb i d (map Z.of_nat (seq 0 256)) in
      let '(here, odb) := r in
      let! r := list_dirs odb (S i) dirs' in
      let '(rest, odb) := r in
      iret (here ++ rest, odb)
  end.

Fixpoint ids_loop (n : nat) (idx : list Z) (k : Z) : outcome (list (list Z)) :=
  match n with
  | O => Ret []
  | S n' =>
      let* sha := rdn idx (1032 + k * 20) 20 in
      let* rest := ids_loop n' idx (k + 1) in
      Ret (bgit_sha_to_hex sha :: rest)
  end.

Fixpoint list_packs (ps : list bgit_pack_file) : outcome (list (list Z)) :=
  match ps with
  | [] => Ret []
  | p :: ps' =>
      let idx := pk_idx p in
      let* total := bgit_pack_be32 idx (8 + 255 * 4) in
      let sha_bytes := u64 (total * 20) in
      let* here := (if negb (total =? 0) && negb (sha_bytes / 20 =? total) then Ret []
                    else if sha_bytes >? len idx - 1032 then Ret []
                    else ids_loop (Z.to_nat total) idx 0) in
      let* rest := list_packs ps' in
      Ret (here ++ rest)
  end.

(** A name equal to the last one kept is dropped. *)
Fixpoint dedup_loop (last : list Z) (ns : list (list Z)) : list (list Z) :=
  match ns with
  | [] => []
  | name :: ns' => if negb (bcmp name last =? 0) then name :: dedup_loop name ns' else dedup_loop last ns'
  end.

Definition dedup (ns : list (list Z)) : list (list Z) :=
  match ns with [] => [] | name :: ns' => name :: dedup_loop name ns' end.

Definition bgit_odb_list (odb : bgit_odb) : io (list (list Z) * bgit_odb) :=
  let! odb := bgit_odb_scan_packs odb in
  let! r := list_dirs odb 0 (object_dirs odb) in
  let '(loose, odb) := r in
  let! packed := lift (list_packs (packs odb)) in
  let ns := loose ++ packed in
  iret (if len ns >? 1 then dedup (qsort bgit_sha_cmp ns) else ns, odb).

(** The path the loose object is at, if it fits [outsz] bytes. *)
Fixpoint loose_path_loop (dirs : list path) (sha : list Z) (outsz : Z) : io (option path) :=
  match dirs with
  | [] => iret None
  | d :: dirs' =>
      if len (loose_file d sha) >=? 4096 then loose_path_loop dirs' sha outsz
      else
        let! st := sys_stat (loose_file d sha) in
        match st with
        | Some nd =>
            if i_dir nd then loose_path_loop dirs' sha outsz
            else iret (if len (loose_file d sha) >=? outsz then None else Some (loose_file d sha))
        | None => loose_path_loop dirs' sha outsz
        end
  end.

Definition bgit_odb_loose_path (odb : bgit_odb) (sha : list Z) (outsz : Z) : io (option path) :=
  if negb (len sha =? 40) then iret None else loose_path_loop (object_dirs odb) sha outsz.
End Store.

(* ------------------------------------------------------------------ *)
(** ** Nothing here changes a file *)

Section Harmless.
Context `{Zlib} `{Malloc} `{Qsort} `{Readdir} `{Mmap}.

#[export] Instance harmless_report odb m : Harmless (report odb m).
Proof. unfold report. solve_harmless. Qed.
#[export] Instance harmless_listdir dir : Harmless (sys_listdir dir).
Proof. unfold sys_listdir. solve_harmless. Qed.
#[export] Instance harmless_access p : Harmless (sys_access p).
Proof. unfold sys_access, answered. solve_harmless. Qed.
#[export] Instance harmless_mmap fd : Harmless (sys_mmap fd).
Proof. unfold sys_mmap. solve_harmless. Qed.
#[export] Instance harmless_map_file p : Harmless (bgit_map_file p).
Proof. unfold bgit_map_file. solve_harmless. Qed.
#[export] Instance harmless_scan_entry dir e : Harmless (scan_entry dir e).
Proof. unfold scan_entry. solve_harmless. Qed.
#[export] Instance harmless_entries_loop dir es : Harmless (entries_loop dir es).
Proof. induction es; cbn [entries_loop]; solve_harmless. Qed.
#[export] Instance harmless_dirs_loop dirs : Harmless (dirs_loop dirs).
Proof. induction dirs; cbn [dirs_loop]; solve_harmless. Qed.
#[export] Instance harmless_scan_packs odb : Harmless (bgit_odb_scan_packs odb).
Proof. unfold bgit_odb_scan_packs. solve_harmless. Qed.
#[export] Instance harmless_mapping odb i p : Harmless (bgit_pack_mapping odb i p).
Proof. unfold bgit_pack_mapping. solve_harmless. Qed.
#[export] Instance harmless_listing odb i d prefix : Harmless (bgit_loose_listing odb i d prefix).
Proof. unfold bgit_loose_listing. solve_harmless. Qed.
#[export] Instance harmless_loose_match odb i d prefix m : Harmless (bgit_loose_match_prefix odb i d prefix m).
Proof. unfold bgit_loose_match_prefix. solve_harmless. Qed.
#[export] Instance harmless_access_loop dirs sha : Harmless (access_loop dirs sha).
Proof. induction dirs; cbn [access_loop]; solve_harmless. Qed.
#[export] Instance harmless_has odb sha : Harmless (bgit_odb_has odb sha).
Proof. unfold bgit_odb_has. solve_harmless. Qed.
#[export] Instance harmless_packed odb sha : Harmless (bgit_odb_packed odb sha).
Proof. unfold bgit_odb_packed. solve_harmless. Qed.
#[export] Instance harmless_match_dirs odb i dirs name m : Harmless (match_dirs odb i dirs name m).
Proof. revert odb i m. induction dirs; intros odb i m; cbn [match_dirs]; solve_harmless; auto. Qed.
#[export] Instance harmless_resolve odb name : Harmless (bgit_odb_resolve odb name).
Proof. unfold bgit_odb_resolve. solve_harmless. Qed.
#[export] Instance harmless_read_loose_loop odb dirs sha : Harmless (read_loose_loop odb dirs sha).
Proof. induction dirs; cbn [read_loose_loop]; solve_harmless. Qed.
#[export] Instance harmless_odb_read_loose odb sha : Harmless (bgit_odb_read_loose odb sha).
Proof. unfold bgit_odb_read_loose. apply _. Qed.
#[export] Instance harmless_values_loop odb i d values : Harmless (values_loop odb i d values).
Proof. revert odb. induction values; intros odb; cbn [values_loop]; solve_harmless; auto. Qed.
#[export] Instance harmless_list_dirs odb i dirs : Harmless (list_dirs odb i dirs).
Proof. revert odb i. induction dirs; intros odb i; cbn [list_dirs]; solve_harmless; auto. Qed.
#[export] Instance harmless_list odb : Harmless (bgit_odb_list odb).
Proof. unfold bgit_odb_list. solve_harmless. Qed.
#[export] Instance harmless_loose_path_loop dirs sha outsz : Harmless (loose_path_loop dirs sha outsz).
Proof. induction dirs; cbn [loose_path_loop]; solve_harmless. Qed.

(** The readers of pack.c. *)
#[export] Instance harmless_attempt {A} (x : outcome A) c k : (forall a, Harmless (k a)) -> Harmless (attempt x c k).
Proof. intros. unfold attempt. solve_harmless. Qed.
#[export] Instance harmless_pack_slurp_loop fuel fd buf need : Harmless (pack_slurp_loop fuel fd buf need).
Proof. revert buf. induction fuel; intros buf; cbn [pack_slurp_loop]; solve_harmless; auto. Qed.
#[export] Instance harmless_pack_slurp p : Harmless (bgit_pack_slurp p).
Proof. unfold bgit_pack_slurp. solve_harmless. Qed.
#[export] Instance harmless_pack_read_loose repo sha : Harmless (bgit_pack_read_loose repo sha).
Proof. unfold bgit_pack_read_loose. solve_harmless. Qed.
#[export] Instance harmless_apply_to_base delta r : Harmless (apply_to_base delta r).
Proof. unfold apply_to_base. destruct r as [[[]|] c]; [apply harmless_attempt|]; apply _. Qed.
#[export] Instance harmless_read_base read c addr plen off depth : (forall c off depth, Harmless (read c off depth)) ->
  Harmless (bgit_pack_read_base read c addr plen off depth).
Proof. intros. unfold bgit_pack_read_base. solve_harmless. Qed.
#[export] Instance harmless_read_object_at fuel addr pack idx repo c off depth :
  Harmless (bgit_pack_read_object_at fuel addr pack idx repo c off depth).
Proof.
  revert c off depth. induction fuel as [|fuel IH]; intros c off depth; cbn [bgit_pack_read_object_at]; [apply _|].
  cbv zeta. destruct (depth >? _); [apply _|]. apply harmless_attempt. intros [[type expected] cur].
  repeat match goal with
  | |- Harmless (attempt _ _ _) => apply harmless_attempt; intros ?
  | |- Harmless (ibind _ _) => apply harmless_ibind; [|intros ?]
  | |- Harmless (match ?x with _ => _ end) => destruct x
  | |- Harmless _ => progress cbv zeta
  | |- Harmless _ => apply _
  end.
Qed.
#[export] Instance harmless_read_packed_loop odb c i ps binary : Harmless (read_packed_loop odb c i ps binary).
Proof. revert odb c i. induction ps; intros odb c i; cbn [read_packed_loop]; solve_harmless; auto. Qed.
#[export] Instance harmless_odb_read_packed odb c sha : Harmless (bgit_odb_read_packed odb c sha).
Proof. unfold bgit_odb_read_packed. solve_harmless. Qed.
#[export] Instance harmless_odb_read odb c name : Harmless (bgit_odb_read odb c name).
Proof. unfold bgit_odb_read. solve_harmless. Qed.
End Harmless.

(* ------------------------------------------------------------------ *)
(** ** What is on the disk

    Each computation as a function of the file system, when the kernel refuses
    nothing. *)

Section Disk.
Context `{Zlib} `{Malloc} `{Qsort} `{Readdir} `{Mmap}.

Definition mapped (f : fs) (p : path) : option (list Z) :=
  match content f p with Some (c :: l) => Some (c :: l) | _ => None end.

(** Whatever the kernel answers, a mapping holds the file's bytes. *)
Lemma map_file_cases p w r w' : fs_ok (w_fs w) -> bgit_map_file p w = (r, w') ->
  exists o, r = Ret o /\ (o = None \/ o = mapped (w_fs w) p) /\ (w_answers w = [] -> o = mapped (w_fs w) p).
Proof.
  intros Hok HR. unfold bgit_map_file in HR. unfold ibind at 1 in HR. destruct (open_rdonly p w) as [r1 w1] eqn:Ho.
  apply open_rdonly_cases in Ho as (E1 & E2 & [(-> & _ & Hno)|(i & fd & -> & Hn & Hfree & Hfd & Ha1)]).
  { injection HR as <- <-. exists None. split; [done|]. split; [by left|]. intros Ha. unfold mapped, content, lookup_inode.
    by rewrite (Hno Ha). }
  rewrite (proj2 (Z.ltb_ge (Z.of_N fd) 0)) in HR by lia. destruct (Hok _ _ Hn) as [nd Hi].
  assert (Hmap : mapped (w_fs w) p = if i_dir nd then None else match i_data nd with [] => None | _ => Some (i_data nd) end).
  { unfold mapped, content, lookup_inode. rewrite Hn. simpl. rewrite Hi. by destruct (i_dir nd), (i_data nd). }
  rewrite Hmap. clear Hmap.
  unfold ibind at 1 in HR. destruct (sys_fstat (Z.of_N fd) w1) as [r2 w2] eqn:Hs.
  assert (Hlook : w_fds w1 !! Z.to_N (Z.of_N fd) = Some (i, 0)) by (rewrite N2Z.id, Hfd; apply lookup_insert_eq).
  destruct (fstat_cases _ _ _ _ i 0 nd Hs ltac:(lia) Hlook ltac:(by rewrite E1)) as (F1 & F2 & F3 & F4 & [[-> Hne] | ->]).
  { apply close_then in HR as [-> _]. exists None. split; [done|]. split; [by left|]. intros Ha. by rewrite Ha1, Ha in Hne. }
  case_if_in HR.
  { apply close_then in HR as [-> _]. exists None. split; [done|].
    assert (i_data nd = []) as -> by (destruct (i_data nd); [done|rewrite len_cons in *; pose proof (len_nonneg l); lia]).
    split; [by left|]. intros _. by destruct (i_dir nd). }
  unfold sys_mmap in HR. unfold ibind at 1 in HR. unfold ibind at 1 in HR. destruct (sys_fstat (Z.of_N fd) w2) as [r3 w3] eqn:Hs2.
  destruct (fstat_cases _ _ _ _ i 0 nd Hs2 ltac:(lia) ltac:(by rewrite F3) ltac:(by rewrite F1, E1))
    as (G1 & G2 & G3 & G4 & [[-> Hne] | ->]).
  { apply close_then in HR as [-> _]. exists None. split; [done|]. split; [by left|].
    intros Ha. rewrite F4, Ha1, Ha in Hne. done. }
  destruct (i_dir nd).
  { unfold ibind at 1 in HR. cbn in HR. apply close_then in HR as [-> _]. exists None. by split_and!; [|left|]. }
  cbn in HR. apply close_then in HR as [-> _]. exists (Some (i_data nd)).
  assert (Hd : Some (i_data nd) = match i_data nd with [] => None | _ => Some (i_data nd) end).
  { destruct (i_data nd); [change (len (@nil Z)) with 0 in *; lia|done]. }
  rewrite <- Hd. by split_and!; [|right|].
Qed.

Lemma gives_map_file p f : fs_ok f -> gives (bgit_map_file p) f (mapped f p).
Proof.
  intros Hok w Hf Ha. destruct (bgit_map_file p w) as [r w'] eqn:E.
  apply map_file_cases in E as (o & -> & _ & Ho); [|by rewrite Hf]. rewrite <- Hf, <- (Ho Ha). eauto.
Qed.

Definition entries_of (f : fs) (dir : path) : option (list (list Z)) :=
  match lookup_inode f dir with
  | Some nd => if i_dir nd then Some (readdir f dir) else None
  | None => None
  end.

Lemma gives_listdir dir f : gives (sys_listdir dir) f (entries_of f dir).
Proof.
  intros w Hf Ha. unfold sys_listdir, next_answer, get_world, ibind. rewrite Ha. rewrite Hf. unfold entries_of.
  destruct (lookup_inode f dir) as [nd|]; [destruct (i_dir nd)|]; eexists; reflexivity.
Qed.

Definition is_there (f : fs) (p : path) : bool := match lookup_inode f p with Some _ => true | None => false end.

Lemma gives_access p f : gives (sys_access p) f (if is_there f p then 0 else -1).
Proof.
  intros w Hf Ha. unfold sys_access, answered, next_answer, get_world, ibind. rewrite Ha. rewrite Hf. unfold is_there.
  destruct (lookup_inode f p); eexists; reflexivity.
Qed.

Lemma gives_report odb m f : gives (report odb m) f tt.
Proof. unfold report. destruct (quiet odb); [apply gives_ret|apply gives_error]. Qed.

(** *** The packs of the store *)

Lemma idx_header_ok idx : exists b, idx_header idx = Ret b.
Proof.
  unfold idx_header, bgit_pack_be32, bgit_be32. case_if; [eauto|]. rewrite rdn_ok by lia. cbn [obind].
  destruct (negb _); [eauto|]. rewrite !rd_ok by lia. cbn. eauto.
Qed.

(** The name of an index in a pack directory, whose pack is there: the pack's
    path and the index's bytes. *)
Definition entry_pack (f : fs) (dir : path) (d_name : list Z) : option (path * list Z) :=
  if (len d_name <? 5) || negb (beq (drop (length d_name - 4) d_name) (str ".idx")) then None
  else
    let idx_path := dir ++ str "/" ++ d_name in
    let pack_path := take (length idx_path - 4) idx_path ++ str ".pack" in
    if (len idx_path >=? 4096) || (len pack_path >=? 4096) then None
    else
      match lookup_inode f pack_path, mapped f idx_path with
      | Some nd, Some idx =>
          match idx_header idx with
          | Ret true => if i_dir nd then None else Some (pack_path, idx)
          | _ => None
          end
      | _, _ => None
      end.

Definition unmapped (p : path * list Z) : bgit_pack_file := {| pk_path := fst p; pk_idx := snd p; pk_pack := None |}.

Lemma gives_scan_entry dir e f : fs_ok f -> gives (scan_entry dir e) f (option_map unmapped (entry_pack f dir e)).
Proof.
  intros Hok. unfold scan_entry, entry_pack. destruct (_ || _); [apply gives_ret|]. cbv zeta.
  destruct (len (dir ++ str "/" ++ e) >=? 4096); [apply gives_ret|]. cbn [orb].
  destruct (len (take _ _ ++ _) >=? 4096); [apply gives_ret|].
  eapply gives_bind; [apply _|apply gives_stat|].
  destruct (lookup_inode f _) as [nd|]; [|apply gives_ret].
  destruct (i_dir nd) eqn:Ed.
  { destruct (mapped f _) as [idx|]; [|apply gives_ret]. destruct (idx_header idx) as [[]| |]; apply gives_ret. }
  eapply gives_bind; [apply _|by apply gives_map_file|].
  destruct (mapped f _) as [idx|]; [|apply gives_ret]. destruct (idx_header_ok idx) as [b E]. rewrite E.
  eapply gives_bind; [apply _|apply gives_lift|]. destruct b; apply gives_ret.
Qed.

Definition dir_packs (f : fs) (d : path) : list (path * list Z) :=
  let dir := d ++ str "/pack" in
  if len dir >=? 4096 then []
  else match entries_of f dir with Some es => omap (entry_pack f dir) es | None => [] end.

Definition disk_packs (f : fs) (dirs : list path) : list (path * list Z) := flat_map (dir_packs f) dirs.

Lemma gives_entries_loop dir es f : fs_ok f -> gives (entries_loop dir es) f (map unmapped (omap (entry_pack f dir) es)).
Proof.
  intros Hok. induction es as [|e es IH]; cbn [entries_loop omap list_omap map]; [apply gives_ret|].
  eapply gives_bind; [apply _|by apply gives_scan_entry|]. eapply gives_bind; [apply _|exact IH|].
  cbn. destruct (entry_pack f dir e); apply gives_ret.
Qed.

Lemma gives_dirs_loop dirs f : fs_ok f -> gives (dirs_loop dirs) f (map unmapped (disk_packs f dirs)).
Proof.
  intros Hok. induction dirs as [|d dirs IH]; cbn [dirs_loop]; [apply gives_ret|]. cbv zeta.
  unfold disk_packs. cbn [flat_map]. rewrite map_app. eapply gives_bind; [solve_harmless| |eapply gives_bind; [apply _|exact IH|apply gives_ret]].
  unfold dir_packs. cbv zeta. destruct (len _ >=? 4096); [apply gives_ret|].
  eapply gives_bind; [apply _|apply gives_listdir|]. destruct (entries_of f _); [by apply gives_entries_loop|apply gives_ret].
Qed.
End Disk.

(* ------------------------------------------------------------------ *)
(** ** Looking through a sorted listing *)

(** [m] after the objects [seen], which are counted up to two. *)
Definition tally (m : list Z * Z) (seen : list (list Z)) : Prop :=
  snd m = Z.min 2 (len seen) /\ forall h, hd_error seen = Some h -> fst m = h.

Lemma tally_none m : snd m = 0 -> tally m [].
Proof. intros E. by split. Qed.

Lemma tally_full m seen more : tally m seen -> snd m = 2 -> tally m (seen ++ more).
Proof.
  intros [Hm Hf] H2. pose proof (len_nonneg more). split; [rewrite len_app; lia|].
  destruct seen; [change (len (@nil (list Z))) with 0 in Hm; lia|]. exact Hf.
Qed.

(** One more object: the fall through and the early end of the sources' loops
    both count it. *)
Lemma tally_step m seen hex : tally m seen -> snd m < 2 ->
  tally (let '(full, matches) := m in
         if negb (matches =? 0) && negb (beq full hex) then (full, matches + 1) else matched m hex) (seen ++ [hex]).
Proof.
  intros [Hm Hf] H2. destruct m as [full matches]. cbn [fst snd] in *. unfold matched. pose proof (len_nonneg seen).
  unfold tally. rewrite len_app. change (len [hex]) with 1.
  destruct seen as [|h seen].
  - assert (matches = 0) as -> by done. cbn. split; [done|]. by intros ? [= <-].
  - rewrite len_cons in *. pose proof (len_nonneg seen). specialize (Hf h eq_refl). subst h.
    destruct (Z.eqb_spec matches 0); [lia|]. cbn [negb andb]. destruct (negb _); cbn; (split; [lia|by intros ? [= <-]]).
Qed.

Lemma tally_decides m seen : tally m seen ->
  (snd m = 0 <-> seen = []) /\ (snd m = 1 <-> seen = [fst m]) /\ (snd m > 1 <-> 2 <= len seen).
Proof.
  intros [Hm Hf]. pose proof (len_nonneg seen). split_and!.
  - rewrite Hm. destruct seen; [by split|]. rewrite len_cons in *. pose proof (len_nonneg seen). split; [lia|done].
  - split; [|intros Es; rewrite Hm, Es; done]. intros E. destruct seen as [|h [|h' seen]]; [by rewrite Hm in E| |].
    + by rewrite (Hf h eq_refl).
    + rewrite !len_cons in Hm. pose proof (len_nonneg seen). lia.
  - lia.
Qed.

Lemma bcmp_take n a b : bcmp a b <= 0 -> bcmp (take n a) (take n b) <= 0.
Proof.
  revert a b. induction n as [|n IH]; intros [|x a] [|y b]; cbn [take bcmp]; try lia.
  repeat case_if; try lia. apply IH.
Qed.

Lemma sorted_lookup_lt {A} (R : A -> A -> Prop) (l : list A) : StronglySorted R l ->
  forall i j a b, (i < j)%nat -> l !! i = Some a -> l !! j = Some b -> R a b.
Proof.
  induction 1 as [|x l Hs IH Hx]; intros i j a b Hij Hi Hj; [done|].
  destruct i as [|i], j as [|j]; try lia; cbn in *.
  - injection Hi as <-. rewrite Forall_forall in Hx. by eapply Hx, list_elem_of_lookup_2.
  - by eapply (IH i j); [lia|..].
Qed.

Lemma sorted_app_r {A} (R : A -> A -> Prop) l1 l2 : StronglySorted R (l1 ++ l2) -> StronglySorted R l2.
Proof. induction l1 as [|x l1 IH]; [done|]. inversion 1. auto. Qed.

Section Sorted.
Context (ns : list (list Z)) (tail : list Z) (rest : Z).
Context (Hsorted : StronglySorted (fun a b => bcmp a b <= 0) ns) (Hlen : len tail = rest).

Definition side (name : list Z) : Z := strncmp name tail rest.

Lemma side_mono a b : bcmp a b <= 0 -> 0 <= side a -> 0 <= side b.
Proof using.
  intros Hab Ha. unfold side, strncmp in *. apply (bcmp_take (Z.to_nat rest)) in Hab.
  destruct (Z.lt_ge_cases (bcmp (take (Z.to_nat rest) b) (take (Z.to_nat rest) tail)) 0) as [Hb|]; [|done].
  destruct (Z.eq_dec (bcmp (take (Z.to_nat rest) a) (take (Z.to_nat rest) b)) 0) as [Eq%bcmp_eq|]; [by rewrite <- Eq|].
  pose proof (bcmp_lt_trans (take (Z.to_nat rest) a) (take (Z.to_nat rest) b) (take (Z.to_nat rest) tail)). lia.
Qed.

Lemma side_zero name : side name = 0 <-> starts tail name = true.
Proof using Hlen.
  unfold side, strncmp, starts, beq. rewrite bcmp_eq, bool_decide_eq_true.
  replace (Z.to_nat rest) with (length tail) by (unfold len in *; lia).
  by rewrite firstn_all.
Qed.

(** Where the search ends: before it all are smaller, from it on none is. *)
Lemma low_loop_ok fuel low high : 0 <= low <= high -> high <= len ns -> high - low < Z.of_nat fuel ->
  (forall i a, ns !! i = Some a -> Z.of_nat i < low -> side a < 0) ->
  (forall i a, ns !! i = Some a -> high <= Z.of_nat i -> 0 <= side a) ->
  exists r, low_loop fuel ns tail rest low high = Ret r /\ 0 <= r <= len ns /\
    forall i a, ns !! i = Some a -> (side a < 0 <-> Z.of_nat i < r).
Proof using Hsorted.
  revert low high. induction fuel as [|fuel IH]; intros low high Hr Hh Hf Hlo Hhi; [lia|].
  cbn [low_loop]. case_if.
  - pose proof (Z.div_pos (high - low) 2 ltac:(lia) ltac:(lia)).
    pose proof (Z.div_lt (high - low) 2 ltac:(lia) ltac:(lia)).
    set (mid := low + (high - low) / 2) in *. cbv zeta.
    destruct (lookup_lt_is_Some_2 ns (Z.to_nat mid)) as [name Hn]; [unfold len in *; lia|]. rewrite Hn.
    fold (side name). case_if.
    + apply IH; [lia|lia|lia| |done]. intros i a Hi Hlt.
      destruct (Z.lt_ge_cases (Z.of_nat i) mid) as [Hm|Hm].
      * destruct (Z.lt_ge_cases (side a) 0); [done|].
        assert (Hle : bcmp a name <= 0) by (by eapply (sorted_lookup_lt _ ns Hsorted i (Z.to_nat mid)); [lia|..]).
        pose proof (side_mono _ _ Hle). lia.
      * assert (i = Z.to_nat mid) as -> by lia. congruence.
    + apply IH; [lia|lia|lia|done|]. intros i a Hi Hge.
      destruct (decide (i = Z.to_nat mid)) as [->|]; [congruence|].
      assert (Hle : bcmp name a <= 0) by (by eapply (sorted_lookup_lt _ ns Hsorted (Z.to_nat mid) i); [lia|..]).
      eapply side_mono; [exact Hle|lia].
  - exists low. split; [done|]. split; [lia|]. intros i a Hi. split; [|by apply Hlo].
    intros Ha. destruct (Z.lt_ge_cases (Z.of_nat i) low); [done|]. specialize (Hhi i a Hi ltac:(lia)). lia.
Qed.

Lemma side_pos a b : bcmp a b <= 0 -> 0 < side a -> 0 < side b.
Proof using.
  intros Hab Ha. unfold side, strncmp in *. apply (bcmp_take (Z.to_nat rest)) in Hab.
  rewrite (bcmp_antisym (take (Z.to_nat rest) tail)) in *.
  destruct (Z.eq_dec (bcmp (take (Z.to_nat rest) a) (take (Z.to_nat rest) b)) 0) as [Eq%bcmp_eq|]; [by rewrite <- Eq|].
  pose proof (bcmp_lt_trans (take (Z.to_nat rest) tail) (take (Z.to_nat rest) a) (take (Z.to_nat rest) b)). lia.
Qed.

(** From there on, those that carry on from the prefix come first. *)
Lemma side_split l : StronglySorted (fun a b => bcmp a b <= 0) l -> Forall (fun a => 0 <= side a) l ->
  exists xs ys, l = xs ++ ys /\ Forall (fun a => side a = 0) xs /\ Forall (fun a => 0 < side a) ys.
Proof using.
  induction 1 as [|x l Hs IH Hx]; intros Hl; [by exists [], []|]. inversion Hl as [|? ? H0 Hl']; subst.
  destruct (Z.eq_dec (side x) 0) as [E|].
  - destruct (IH Hl') as (xs & ys & -> & Hxs & Hys). exists (x :: xs), ys. by repeat constructor.
  - exists [], (x :: l). split; [done|]. split; [done|]. constructor; [lia|].
    rewrite Forall_forall in Hx |- *. intros y Hy. eapply side_pos; [by apply Hx|lia].
Qed.
End Sorted.

Lemma filter_all {A} (P : A -> bool) l : Forall (fun a => P a = true) l -> List.filter P l = l.
Proof. induction 1 as [|a l Ha _ IH]; cbn; [done|]. by rewrite Ha, IH. Qed.

Lemma filter_none {A} (P : A -> bool) l : Forall (fun a => P a = false) l -> List.filter P l = [].
Proof. induction 1 as [|a l Ha _ IH]; cbn; [done|]. by rewrite Ha. Qed.

Lemma carry_on_ok prefix rest xs ys : Forall (fun a => side (drop 2 prefix) rest a = 0) xs ->
  Forall (fun a => 0 < side (drop 2 prefix) rest a) ys -> forall m seen, tally m seen ->
  tally (carry_on (xs ++ ys) prefix rest m) (seen ++ map (app (take 2 prefix)) xs).
Proof.
  intros Hxs Hys. induction Hxs as [|x xs Hx _ IH]; intros m seen Hm; cbn [app carry_on map].
  - rewrite app_nil_r. destruct ys as [|y ys]; cbn; [done|]. case_if; [|done].
    inversion Hys as [|? ? Hy _]; subst. fold (side (drop 2 prefix) rest y). by rewrite (proj2 (Z.eqb_neq _ 0)) by lia.
  - fold (side (drop 2 prefix) rest x). rewrite Hx. cbn [Z.eqb negb]. case_if.
    2:{ apply tally_full; [done|]. destruct Hm as [Hm _]. lia. }
    pose proof (tally_step m seen (take 2 prefix ++ x) Hm ltac:(lia)) as Hs. destruct m as [full matches].
    change (seen ++ ?y :: ?l) with (seen ++ [y] ++ l). rewrite app_assoc.
    destruct (negb _ && negb _) eqn:E; [|by apply IH].
    apply tally_full; [done|]. cbn [snd fst] in *. apply andb_true_iff in E as [E _]. simpl_bool.
    destruct Hm as [Hm _]. cbn in Hm. pose proof (len_nonneg seen). lia.
Qed.

(** Searching a sorted listing for a prefix finds all names that carry on from
    it. *)
Lemma listing_search ns prefix : StronglySorted (fun a b => bcmp a b <= 0) ns -> 2 <= len prefix ->
  exists low, low_loop (S (length ns)) ns (drop 2 prefix) (len prefix - 2) 0 (len ns) = Ret low /\
    forall m seen, tally m seen -> tally (carry_on (drop (Z.to_nat low) ns) prefix (len prefix - 2) m)
      (seen ++ map (app (take 2 prefix)) (List.filter (starts (drop 2 prefix)) ns)).
Proof.
  intros Hs Hp. set (tail := drop 2 prefix). set (rest := len prefix - 2).
  assert (Ht : len tail = rest) by (unfold tail; rewrite len_drop by lia; lia).
  destruct (low_loop_ok ns tail rest Hs (S (length ns)) 0 (len ns)) as (low & -> & Hlow & Hside).
  { pose proof (len_nonneg ns). lia. }
  { lia. }
  { unfold len. lia. }
  { lia. }
  { intros i a Hi. apply lookup_lt_Some in Hi. unfold len. lia. }
  exists low. split; [done|].
  assert (Hbefore : Forall (fun a => starts tail a = false) (take (Z.to_nat low) ns)).
  { apply Forall_lookup. intros i a Hi. apply lookup_take_Some in Hi as [Hi Hlt].
    apply not_true_iff_false. rewrite <- (side_zero tail rest Ht). apply Hside in Hi. lia. }
  destruct (side_split tail rest (drop (Z.to_nat low) ns)) as (xs & ys & E & Hxs & Hys).
  { rewrite <- (take_drop (Z.to_nat low) ns) in Hs. by eapply sorted_app_r. }
  { apply Forall_lookup. intros i a Hi. rewrite lookup_drop in Hi. apply Hside in Hi. lia. }
  assert (Ef : List.filter (starts tail) ns = xs).
  { rewrite <- (take_drop (Z.to_nat low) ns), E, !List.filter_app, filter_none by done. cbn.
    rewrite filter_all, filter_none; [apply app_nil_r| |].
    - eapply Forall_impl; [exact Hys|]. intros a Ha. cbn in Ha. apply not_true_iff_false. rewrite <- (side_zero tail rest Ht). lia.
    - eapply Forall_impl; [exact Hxs|]. intros a Ha. cbn in Ha. by apply (side_zero tail rest Ht). }
  intros m seen Hm. rewrite Ef, E. by apply carry_on_ok.
Qed.

(* ------------------------------------------------------------------ *)
(** ** The store and the disk *)

Section View.
Context `{Zlib} `{Malloc} `{Qsort} `{Readdir} `{Mmap}.

Definition fan_dir (d pre : list Z) : path := d ++ str "/" ++ pre.

(** The names of loose objects in one of a directory's 256. *)
Definition dir_names (f : fs) (d pre : list Z) : list (list Z) :=
  match entries_of f (fan_dir d pre) with
  | Some es => List.filter (fun d_name => len d_name =? 38) es
  | None => []
  end.

Definition listing (f : fs) (d pre : list Z) : list (list Z) :=
  if len (dir_names f d pre) >? 1 then qsort bgit_name_cmp (dir_names f d pre) else dir_names f d pre.

(** The bytes of a pack, as far as the store looks at them. *)
Definition pack_magic (pack : list Z) : Prop := 32 <= len pack /\ take 4 pack = str "PACK".

(** What the store remembers is what the disk has. *)
Record consistent (f : fs) (odb : bgit_odb) : Prop := {
  cs_packs : packs_scanned odb = true ->
    map (fun p => (pk_path p, pk_idx p)) (packs odb) = disk_packs f (object_dirs odb);
  cs_none : packs_scanned odb = false -> packs odb = [];
  cs_maps : forall p addr pack, p ∈ packs odb -> pk_pack p = Some (addr, pack) -> mapped f (pk_path p) = Some pack /\ pack_magic pack;
  cs_live : NoDup (live odb);
  cs_listed : forall l, l ∈ listed odb -> exists d, object_dirs odb !! ld_dir l = Some d /\
    len (fan_dir d (ld_prefix l)) < 4096 /\ ld_names l = listing f d (ld_prefix l) }.

Lemma consistent_open f dirs : consistent f (bgit_odb_open dirs).
Proof. split; cbn; [done|done| |constructor|]; by intros ? *; rewrite ?elem_of_nil. Qed.

Lemma bcmp_preorder : total_preorder bgit_name_cmp.
Proof.
  split; unfold bgit_name_cmp.
  - intros a b. rewrite (bcmp_antisym a b). pose proof (bcmp_range a b). lia.
  - intros a b c. apply bcmp_le_trans.
Qed.

Lemma listing_sorted f d pre : StronglySorted (fun a b => bcmp a b <= 0) (listing f d pre).
Proof.
  unfold listing. case_if; [apply qsort_sorted, bcmp_preorder|].
  destruct (dir_names f d pre) as [|x [|y l]]; [constructor|by repeat constructor|].
  rewrite !len_cons in *. pose proof (len_nonneg l). lia.
Qed.

Lemma listing_perm f d pre : Permutation (listing f d pre) (dir_names f d pre).
Proof. unfold listing. case_if; [apply qsort_perm|done]. Qed.

(** The same store but for what has been listed. *)
Definition same_packs (odb odb' : bgit_odb) : Prop :=
  object_dirs odb' = object_dirs odb /\ packs odb' = packs odb /\ packs_scanned odb' = packs_scanned odb /\ quiet odb' = quiet odb.

Lemma same_packs_trans a b c : same_packs a b -> same_packs b c -> same_packs a c.
Proof. unfold same_packs. intros (-> & -> & -> & ->) (-> & -> & -> & ->). done. Qed.

Lemma gives_listing f odb i d prefix : consistent f odb -> object_dirs odb !! i = Some d ->
  exists o odb', gives (bgit_loose_listing odb i d prefix) f (o, odb') /\ consistent f odb' /\ same_packs odb odb' /\
    (4096 <= len (fan_dir d (take 2 prefix)) -> o = None) /\
    (len (fan_dir d (take 2 prefix)) < 4096 -> exists l, o = Some l /\ ld_names l = listing f d (take 2 prefix)).
Proof.
  intros [C1 C0 C2 C4 C3] Hd. unfold bgit_loose_listing. destruct (List.find _ (listed odb)) as [l|] eqn:Ef.
  - apply find_some in Ef as [Hin Hl]. apply andb_true_iff in Hl as [Hi Hp]. apply Nat.eqb_eq in Hi. apply bool_decide_eq_true in Hp.
    rewrite <- list_elem_of_In in Hin. destruct (C3 l Hin) as (d' & Hd' & Hlen & Hn).
    rewrite Hi in Hd'. rewrite Hd in Hd'. injection Hd' as <-. rewrite <- Hp.
    exists (Some l), odb. split; [apply gives_ret|]. split; [done|]. split; [done|]. split; [lia|]. eauto.
  - fold (fan_dir d (take 2 prefix)). cbv zeta. case_if.
    { exists None, odb. split; [apply gives_ret|]. split; [done|]. split; [done|]. split; [done|lia]. }
    set (kept := {| ld_prefix := take 2 prefix; ld_dir := i; ld_names := listing f d (take 2 prefix) |}).
    exists (Some kept), (with_listed odb (listed odb ++ [kept])). split; [|split; [|split; [|split]]].
    + eapply gives_bind; [apply _|apply gives_listdir|]. unfold kept, listing, dir_names.
      destruct (entries_of f _); apply gives_ret.
    + split; cbn; [done..|]. intros l [Hl|Hl]%elem_of_app; [by apply C3|].
      apply list_elem_of_singleton in Hl as ->. exists d. cbn. split; [done|]. split; [lia|done].
    + done.
    + lia.
    + intros _. by exists kept.
Qed.

(** The copies of objects whose ids start with [name], loose under [d]. *)
Definition loose_copies (f : fs) (d name : list Z) : list (list Z) :=
  if len (fan_dir d (take 2 name)) >=? 4096 then []
  else map (app (take 2 name)) (List.filter (starts (drop 2 name)) (dir_names f d (take 2 name))).

Lemma filter_perm {A} (P : A -> bool) l l' : Permutation l l' -> Permutation (List.filter P l) (List.filter P l').
Proof.
  induction 1 as [|x l l' _ IH|x y l|l l' l'' _ IH1 _ IH2]; cbn; [done| | |by etrans].
  - by destruct (P x); [constructor|].
  - destruct (P x), (P y); try done. constructor.
Qed.

Lemma gives_loose_match f odb i d prefix m seen : consistent f odb -> object_dirs odb !! i = Some d -> 2 <= len prefix ->
  tally m seen -> exists m' odb' more, gives (bgit_loose_match_prefix odb i d prefix m) f (m', odb') /\
    consistent f odb' /\ same_packs odb odb' /\ tally m' (seen ++ more) /\ Permutation more (loose_copies f d prefix).
Proof.
  intros Hc Hd Hp Hm. unfold bgit_loose_match_prefix, loose_copies. if_false.
  destruct (gives_listing f odb i d prefix Hc Hd) as (o & odb' & Hg & Hc' & Hs & Hlong & Hshort).
  case_if.
  - rewrite Hlong in Hg by lia. exists m, odb', []. rewrite app_nil_r. split; [|by split_and!].
    eapply gives_bind; [apply _|exact Hg|apply gives_ret].
  - destruct Hshort as (l & -> & Hl); [lia|].
    destruct (listing_search (ld_names l) prefix) as (low & Elow & Hcarry); [rewrite Hl; apply listing_sorted|done|].
    exists (carry_on (drop (Z.to_nat low) (ld_names l)) prefix (len prefix - 2) m), odb',
      (map (app (take 2 prefix)) (List.filter (starts (drop 2 prefix)) (ld_names l))).
    split; [|split; [done|split; [done|split; [by apply Hcarry|]]]].
    + eapply gives_bind; [apply _|exact Hg|]. cbv beta iota zeta. rewrite Elow. eapply gives_bind; [apply _|apply gives_lift|apply gives_ret].
    + rewrite Hl. apply Permutation_map, filter_perm, listing_perm.
Qed.

Lemma gives_match_dirs f name : 2 <= len name -> forall dirs odb i m seen, consistent f odb ->
  (forall k d, dirs !! k = Some d -> object_dirs odb !! (i + k)%nat = Some d) -> tally m seen ->
  exists m' odb' more, gives (match_dirs odb i dirs name m) f (m', odb') /\ consistent f odb' /\ same_packs odb odb' /\
    tally m' (seen ++ more) /\ Permutation more (flat_map (fun d => loose_copies f d name) dirs).
Proof.
  intros Hn. induction dirs as [|d dirs IH]; intros odb i m seen Hc Hdirs Hm; cbn [match_dirs flat_map].
  - exists m, odb, []. rewrite app_nil_r. split; [apply gives_ret|]. by split_and!.
  - case_if.
    + destruct (gives_loose_match f odb i d name m seen Hc) as (m1 & odb1 & more1 & G1 & C1 & S1 & T1 & P1); [by rewrite <- (Nat.add_0_r i); apply Hdirs|done|done|].
      destruct (IH odb1 (S i) m1 (seen ++ more1) C1) as (m2 & odb2 & more2 & G2 & C2 & S2 & T2 & P2); [|done|].
      { intros k d' Hk. destruct S1 as (-> & _). replace (S i + k)%nat with (i + S k)%nat by lia. by apply Hdirs. }
      exists m2, odb2, (more1 ++ more2). rewrite app_assoc. split; [|split; [done|split; [by eapply same_packs_trans|split; [done|by apply Permutation_app]]]].
      eapply gives_bind; [apply _|exact G1|exact G2].
    + exists m, odb, (flat_map (fun d => loose_copies f d name) (d :: dirs)). split; [apply gives_ret|]. split; [done|]. split; [done|].
      split; [|done]. apply tally_full; [done|]. destruct Hm as [Hm _]. pose proof (len_nonneg seen). lia.
Qed.
End View.

(* ------------------------------------------------------------------ *)
(** ** Matching in a pack's index *)

(** An index as the writer lays it out, of these entries. *)
Definition packed_index (idx : list Z) (es : list bgit_pack_idx_entry) : Prop :=
  exists tail, idx = idx_layout es tail /\ Forall wf_ie es /\ heads_sorted es /\ bytes tail /\ len tail = 40 /\
    len es < 2 ^ 32 /\ len (bigs es) <= 2 ^ 31 /\ NoDup (map ie_sha es) /\ Forall (fun e => ie_off e <> absent) es.

Definition ids (es : list bgit_pack_idx_entry) : list (list Z) := map (fun e => bgit_sha_to_hex (ie_sha e)) es.

Lemma xdigit_range c : isxdigit c = true -> 0 <= hex_digit c < 16.
Proof.
  unfold isxdigit, hex_digit, is_digit, is_lower_hex, is_upper_hex. intros Hx.
  repeat case_if; simpl_bool; lia.
Qed.

Section Index.
Context (idx : list Z) (es : list bgit_pack_idx_entry) (Hidx : packed_index idx es).

Lemma index_wf e : e ∈ es -> wf_ie e.
Proof using Hidx. destruct Hidx as (tail & _ & Hwf & _). rewrite Forall_forall in Hwf. apply Hwf. Qed.

Lemma index_fan b : 0 <= b < 256 -> bgit_pack_be32 idx (8 + b * 4) = Ret (cnt es b).
Proof using Hidx. destruct Hidx as (tail & -> & _ & _ & _ & _ & Hn & _). intros. unfold bgit_pack_be32. by apply layout_fan. Qed.

Lemma index_total : bgit_pack_be32 idx (8 + 255 * 4) = Ret (len es).
Proof using Hidx. rewrite index_fan by lia. rewrite cnt_all; [done|]. apply Forall_forall. intros e He. by apply index_wf. Qed.

Lemma index_sha k e : es !! k = Some e -> rdn idx (1032 + Z.of_nat k * 20) 20 = Ret (ie_sha e).
Proof using Hidx. destruct Hidx as (tail & -> & Hwf & _). intros Hk. by apply layout_sha. Qed.

Lemma index_room : u64 (len es * 20) = len es * 20 /\ len es * 20 <= len idx - 1032.
Proof using Hidx.
  destruct Hidx as (tail & -> & Hwf & _ & _ & _ & Hn & _). pose proof (layout_len es tail Hwf) as Hl.
  pose proof (len_nonneg es). pose proof (len_nonneg (bigs es)). pose proof (len_nonneg tail). split; [|lia].
  unfold u64. apply Z.mod_small. lia.
Qed.

Lemma cnt_below b : b < 0 -> cnt es b = 0.
Proof using Hidx.
  intros Hb. apply cnt_none, Forall_forall. intros e He. destruct (index_wf e He) as ((_ & Hbe) & _).
  destruct (ie_sha e) as [|y t]; cbn; [lia|]. inversion Hbe as [|? ? Hy _]. unfold is_byte in Hy. lia.
Qed.

Lemma ids_lookup k e : es !! k = Some e -> ids es !! k = Some (bgit_sha_to_hex (ie_sha e)).
Proof using. intros Hk. unfold ids. by rewrite list_lookup_fmap, Hk. Qed.

Lemma pack_match_loop_ok prefix n : forall i m seen, (i + n <= length es)%nat -> tally m seen -> snd m < 2 ->
  exists m', pack_match_loop n idx prefix (Z.of_nat i) m = Ret m' /\
    tally m' (seen ++ List.filter (starts prefix) (take n (drop i (ids es)))).
Proof using Hidx.
  induction n as [|n IH]; intros i m seen Hi Hm H2; cbn [pack_match_loop].
  { exists m. rewrite take_0. cbn. by rewrite app_nil_r. }
  destruct (lookup_lt_is_Some_2 es i) as [e He]; [lia|]. rewrite (index_sha i e He). cbn [obind]. cbv zeta.
  rewrite (drop_S (ids es) (bgit_sha_to_hex (ie_sha e))) by (by apply ids_lookup). cbn [take List.filter].
  set (hex := bgit_sha_to_hex (ie_sha e)). fold (side prefix (len prefix) hex).
  replace (Z.of_nat i + 1) with (Z.of_nat (S i)) by lia.
  destruct (starts prefix hex) eqn:Est.
  - rewrite (proj2 (side_zero prefix (len prefix) eq_refl hex) Est). cbn [Z.eqb].
    pose proof (tally_step m seen hex Hm H2) as Hs. destruct m as [full matches]. cbn [snd] in H2.
    change (seen ++ hex :: ?l) with (seen ++ [hex] ++ l). rewrite app_assoc.
    destruct (negb _ && negb _) eqn:E.
    + eexists. split; [done|]. apply tally_full; [done|]. cbn. apply andb_true_iff in E as [E _]. simpl_bool.
      destruct Hm as [Hm _]. cbn in Hm. pose proof (len_nonneg seen). lia.
    + case_if; [|apply IH; [lia|done|lia]]. eexists. split; [done|]. apply tally_full; [done|].
      destruct Hs as [Hs _]. lia.
  - rewrite (proj2 (Z.eqb_neq _ 0)); [apply IH; [lia|done|done]|].
    intros E. apply (side_zero prefix (len prefix) eq_refl) in E. congruence.
Qed.

(** The two digits of a first byte. *)
Lemma starts_first h l prefix e : e ∈ es -> starts (h :: l :: prefix) (bgit_sha_to_hex (ie_sha e)) = true ->
  hd 0 (ie_sha e) = hex_digit h * 16 + hex_digit l.
Proof using Hidx.
  intros He. destruct (index_wf e He) as ((Hl & Hb) & _). destruct (ie_sha e) as [|b sha]; [done|].
  inversion Hb as [|? ? Hbb _]; subst. destruct (pairs_at b Hbb) as (h' & l' & E & Hh & Hl' & _).
  unfold starts. unfold bgit_sha_to_hex. cbn [flat_map]. rewrite E. cbn. unfold beq. intros Eq%bool_decide_eq_true.
  injection Eq as -> -> _. rewrite Hh, Hl'. unfold is_byte in Hbb. pose proof (Z.div_mod b 16). lia.
Qed.

(** Only the entries between two counts of the fan-out can match. *)
Lemma filter_narrow h l prefix : let v := hex_digit h * 16 + hex_digit l in
  let first := Z.to_nat (cnt es (v - 1)) in let n := Z.to_nat (cnt es v - cnt es (v - 1)) in
  List.filter (starts (h :: l :: prefix)) (take n (drop first (ids es))) = List.filter (starts (h :: l :: prefix)) (ids es).
Proof using Hidx.
  intros v first n. pose proof (cnt_mono es (v - 1) v ltac:(lia)) as Hmono. pose proof (cnt_range es (v - 1)).
  assert (Hheads : heads_sorted es) by (by destruct Hidx as (tail & _ & _ & Hh & _)).
  rewrite <- (take_drop first (ids es)) at 2. rewrite <- (take_drop n (drop first (ids es))) at 2.
  rewrite !List.filter_app.
  assert (Hout : forall k x, ids es !! k = Some x -> (k < first)%nat \/ (first + n <= k)%nat -> starts (h :: l :: prefix) x = false).
  { intros k x Hk Hout. unfold ids in Hk. rewrite list_lookup_fmap in Hk. destruct (es !! k) as [e|] eqn:He; [|done].
    injection Hk as <-. apply not_true_iff_false. intros Hs. apply starts_first in Hs; [|by eapply list_elem_of_lookup_2].
    pose proof (cnt_lookup es Hheads k e (v - 1) He). pose proof (cnt_lookup es Hheads k e v He). unfold v in *. lia. }
  rewrite (filter_none _ (take first _)), (filter_none _ (drop n _)), app_nil_r; [done| |].
  - apply Forall_lookup. intros k x Hk. rewrite !lookup_drop in Hk. eapply Hout; [exact Hk|lia].
  - apply Forall_lookup. intros k x Hk. apply lookup_take_Some in Hk as [Hk Hlt]. eapply Hout; [exact Hk|lia].
Qed.

Lemma pack_match_ok p prefix m seen : pk_idx p = idx -> bgit_all_hex (Some prefix) = true -> 2 <= len prefix ->
  tally m seen -> snd m < 2 ->
  exists m', bgit_pack_match_prefix p prefix m = Ret m' /\ tally m' (seen ++ List.filter (starts prefix) (ids es)).
Proof using Hidx.
  intros Ep Hhex Hp Hm H2. unfold bgit_pack_match_prefix. rewrite Ep, index_total. cbn [obind]. cbv zeta.
  destruct index_room as [Eu Hroom]. rewrite Eu, Z.div_mul, Z.eqb_refl, andb_false_r by done. if_false.
  destruct prefix as [|h [|l prefix]]; [done|change (len [h]) with 1 in Hp; lia|].
  set (v := hex_digit h * 16 + hex_digit l).
  assert (Hv : 0 <= v < 256).
  { cbn in Hhex. apply andb_true_iff in Hhex as [Hh Hhex]. apply andb_true_iff in Hhex as [Hl _].
    apply xdigit_range in Hh, Hl. unfold v. lia. }
  assert (Hfirst : (if v =? 0 then Ret 0 else bgit_pack_be32 idx (8 + (v - 1) * 4)) = Ret (cnt es (v - 1))).
  { case_if; [by rewrite cnt_below by lia|]. apply index_fan. lia. }
  rewrite Hfirst. cbn [obind]. rewrite index_fan by lia. cbn [obind].
  pose proof (cnt_mono es (v - 1) v ltac:(lia)). pose proof (cnt_range es v). pose proof (cnt_range es (v - 1)). if_false.
  rewrite <- (filter_narrow h l prefix). fold v. cbv zeta.
  destruct (pack_match_loop_ok (h :: l :: prefix) (Z.to_nat (cnt es v - cnt es (v - 1))) (Z.to_nat (cnt es (v - 1))) m seen)
    as (m' & E & Hm'); [unfold len in *; lia|done|done|]. rewrite Z2Nat.id in E by lia. eauto.
Qed.

Lemma lookup_known sha : oid sha -> exists off, bgit_pack_lookup_offset idx sha = Ret off /\
  (off <> absent <-> bgit_sha_to_hex sha ∈ ids es).
Proof using Hidx.
  intros Hoid. pose proof index_wf as Hwfe. destruct Hidx as (tail & -> & Hwf & Hh & Ht & Ht40 & Hn & Hbig & Hnd & Hoff).
  destruct (decide (sha ∈ map ie_sha es)) as [Hin|Hout].
  - apply list_elem_of_fmap in Hin as (e & -> & He). pose proof He as He'. apply list_elem_of_lookup_1 in He as [i Hi].
    exists (ie_off e). split; [by eapply layout_find|]. rewrite Forall_forall in Hoff. split; [|by intros _; apply Hoff].
    intros _. eapply list_elem_of_lookup_2. by apply ids_lookup.
  - exists absent. split; [|split; [done|]].
    + apply layout_absent; try done. intros e He Es. apply Hout. rewrite <- Es. by apply list_elem_of_fmap_2.
    + unfold ids. intros (e & E & He)%list_elem_of_fmap. destruct Hout. destruct (Hwfe e He) as ((_ & Hb) & _).
      destruct Hoid as [_ Hb']. apply sha_to_hex_inj in E as ->; [|done..]. by apply list_elem_of_fmap_2.
Qed.
End Index.

(* ------------------------------------------------------------------ *)
(** ** Resolving *)

Lemma hex_loop_yields hex : yields (fun sha => bytes sha /\ (length hex = 2 * length sha)%nat \/ (length hex = S (2 * length sha))%nat) (hex_loop hex).
Proof.
  assert (Hgo : forall n hex, (length hex <= n)%nat ->
    yields (fun sha => bytes sha /\ (length hex = 2 * length sha \/ length hex = S (2 * length sha))%nat) (hex_loop hex)).
  { induction n as [|n IH]; intros [|h [|l hex']] Hn; try (cbn in Hn; lia); cbn [hex_loop]; try (cbn; split; [constructor|auto]; fail).
    destruct (_ || _); [done|]. eapply yields_bind; [apply (IH hex'); cbn in Hn; lia|].
    intros sha [Hb Hl]. cbn. split; [constructor; [apply u8_range|done]|]. lia. }
  eapply yields_impl; [by apply (Hgo (length hex))|]. intros sha [Hb [Hl|Hl]]; [by left|by right].
Qed.

Lemma hex_to_sha_yields hex : yields oid (bgit_hex_to_sha hex).
Proof.
  unfold bgit_hex_to_sha. case_if; [done|]. pose proof (hex_loop_yields hex) as Hy.
  destruct (hex_loop hex) as [sha|m|]; [|done|done]. cbn in *. unfold len in *.
  destruct Hy as [[Hb Hl]|Hl]; [|lia]. split; [unfold len; lia|done].
Qed.

Lemma map_unmapped ps : map (fun p => (pk_path p, pk_idx p)) (map unmapped ps) = ps.
Proof. induction ps as [|[p idx] ps IH]; cbn; [done|by rewrite IH]. Qed.

Section Resolve.
Context `{Zlib} `{Malloc} `{Qsort} `{Readdir} `{Mmap}.
Context (f : fs) (Hok : fs_ok f) (dirs : list path) (ess : list (list bgit_pack_idx_entry)).

(** The packs on the disk have these entries. *)
Context (Hindexed : Forall2 (fun p es => packed_index (snd p) es) (disk_packs f dirs) ess).

Definition ready (odb : bgit_odb) : Prop := consistent f odb /\ object_dirs odb = dirs.

Definition indexes (ps : list bgit_pack_file) : Prop := Forall2 (fun p es => packed_index (pk_idx p) es) ps ess.

Lemma ready_same odb odb' : ready odb -> consistent f odb' -> same_packs odb odb' -> ready odb'.
Proof using. intros [_ Hd] Hc (Hd' & _). split; [done|congruence]. Qed.

(** The packs are the same, or there were none yet. *)
Definition grown (odb odb' : bgit_odb) : Prop := packs odb = [] \/ packs odb' = packs odb.

Lemma grown_refl odb : grown odb odb.
Proof using. by right. Qed.

Lemma grown_same odb odb' : same_packs odb odb' -> grown odb odb'.
Proof using. intros (_ & E & _). by right. Qed.

Lemma grown_trans a b c : grown a b -> grown b c -> grown a c.
Proof using. intros [Ha|Ha] [Hb|Hb]; [by left..|left; congruence|right; congruence]. Qed.

Lemma unmapped_live ps : addresses (map unmapped ps) = [].
Proof using. by induction ps. Qed.

Lemma gives_scan odb : ready odb ->
  exists odb', gives (bgit_odb_scan_packs odb) f odb' /\ (ready odb' /\ grown odb odb') /\ indexes (packs odb') /\ packs_scanned odb' = true.
Proof using Hok Hindexed.
  intros [Hc Hd]. unfold bgit_odb_scan_packs.
  assert (Hidx : forall ps, map (fun p => (pk_path p, pk_idx p)) ps = disk_packs f dirs -> indexes ps).
  { intros ps E. unfold indexes. rewrite <- E in Hindexed. clear -Hindexed.
    revert Hindexed. generalize ess. induction ps as [|p ps IH]; intros es' HF; inversion HF; subst; constructor; auto. }
  destruct (packs_scanned odb) eqn:Es.
  - exists odb. split; [apply gives_ret|]. split; [by split; [|apply grown_refl]|]. split; [|done]. apply Hidx. rewrite <- Hd. by apply Hc.
  - exists (with_packs odb (map unmapped (disk_packs f (object_dirs odb)))). split; [|split; [|split]].
    + eapply gives_bind; [apply _|by apply gives_dirs_loop|apply gives_ret].
    + destruct Hc as [_ C0 _ _ C3]. split; [|left; by apply C0]. split; [|done]. split; cbn.
      * intros _. apply map_unmapped.
      * done.
      * intros p addr pack Hp Hm. apply list_elem_of_fmap in Hp as (q & -> & _). done.
      * unfold live. cbn. rewrite unmapped_live. constructor.
      * exact C3.
    + apply Hidx. rewrite <- Hd. apply map_unmapped.
    + done.
Qed.

(** The copies of objects whose ids start with [name], one for each place an
    object is kept in. *)
Definition copies (name : list Z) : list (list Z) :=
  flat_map (fun d => loose_copies f d name) dirs ++ flat_map (fun es => List.filter (starts name) (ids es)) ess.

Lemma match_packs_ok name : bgit_all_hex (Some name) = true -> 2 <= len name ->
  forall ps es, Forall2 (fun p es => packed_index (pk_idx p) es) ps es -> forall m seen, tally m seen ->
  exists m', match_packs ps name m = Ret m' /\ tally m' (seen ++ flat_map (fun es => List.filter (starts name) (ids es)) es).
Proof using.
  intros Hhex Hn ps es HF. induction HF as [|p e ps es Hp _ IH]; intros m seen Hm; cbn [match_packs flat_map].
  - exists m. by rewrite app_nil_r.
  - case_if.
    + destruct (pack_match_ok (pk_idx p) e Hp p name m seen eq_refl Hhex Hn Hm) as (m1 & -> & K1); [lia|]. cbn [obind].
      destruct (IH m1 _ K1) as (m2 & -> & K2). exists m2. by rewrite app_assoc.
    + exists m. split; [done|]. apply tally_full; [done|]. destruct Hm as [Hm _]. pose proof (len_nonneg seen). lia.
Qed.

(** A file for the id in one of the directories. *)
Definition loose_there (sha : list Z) : Prop :=
  exists d, d ∈ dirs /\ len (loose_file d sha) < 4096 /\ is_Some (lookup_inode f (loose_file d sha)).

Definition packed_there (sha : list Z) : Prop :=
  exists es raw, es ∈ ess /\ bgit_hex_to_sha sha = Ret raw /\ bgit_sha_to_hex raw ∈ ids es.

Lemma gives_access_loop sha ds : exists b : bool, gives (access_loop ds sha) f b /\
  (b = true <-> exists d, d ∈ ds /\ len (loose_file d sha) < 4096 /\ is_Some (lookup_inode f (loose_file d sha))).
Proof using.
  induction ds as [|d ds (b & Hg & Hb)]; cbn [access_loop].
  { exists false. split; [apply gives_ret|]. split; [done|]. by intros (d & Hd%elem_of_nil & _). }
  assert (Hrest : forall d', (d' ∈ d :: ds /\ len (loose_file d' sha) < 4096 /\ is_Some (lookup_inode f (loose_file d' sha))) ->
    (len (loose_file d sha) < 4096 /\ is_Some (lookup_inode f (loose_file d sha))) \/ (d' ∈ ds /\ len (loose_file d' sha) < 4096 /\ is_Some (lookup_inode f (loose_file d' sha)))).
  { intros d' (Hin & Hp). apply elem_of_cons in Hin as [->|Hin]; auto. }
  case_if.
  - exists b. split; [done|]. rewrite Hb. split; intros (d' & Hd'); [|apply Hrest in Hd' as [[Hlen Hthere]|Hd']].
    + destruct Hd' as [Hin Hp]. exists d'. split; [by apply list_elem_of_further|done].
    + lia.
    + by exists d'.
  - unfold is_Some in *. destruct (lookup_inode f (loose_file d sha)) as [nd|] eqn:El.
    + exists true. split.
      * eapply gives_bind; [apply _|apply gives_access|]. unfold is_there. rewrite El. apply gives_ret.
      * split; [|done]. intros _. exists d. split; [by apply list_elem_of_here|]. split; [lia|eauto].
    + exists b. split.
      * eapply gives_bind; [apply _|apply gives_access|]. unfold is_there. rewrite El. exact Hg.
      * rewrite Hb. split; intros (d' & Hd'); [|apply Hrest in Hd' as [[Hlen Hthere]|Hd']].
        -- destruct Hd' as [Hin Hp]. exists d'. split; [by apply list_elem_of_further|done].
        -- by destruct Hthere.
        -- by exists d'.
Qed.

Lemma has_loop_ok sha : oid sha -> forall ps es, Forall2 (fun p es => packed_index (pk_idx p) es) ps es ->
  exists b : bool, has_loop ps sha = Ret b /\ (b = true <-> exists e, e ∈ es /\ bgit_sha_to_hex sha ∈ ids e).
Proof using.
  intros Hoid ps es HF. induction HF as [|p e ps es Hp _ (b & Eb & Hb)]; cbn [has_loop].
  { exists false. split; [done|]. split; [done|]. by intros (e & He%elem_of_nil & _). }
  destruct (lookup_known _ _ Hp sha Hoid) as (off & -> & Hoff). cbn [obind].
  destruct (Z.eqb_spec off absent) as [->|Hne]; cbn [negb].
  - exists b. split; [done|]. rewrite Hb. split; intros (e' & He' & Hin).
    + exists e'. split; [by apply list_elem_of_further|done].
    + apply elem_of_cons in He' as [->|He']; [by destruct (proj2 Hoff Hin)|eauto].
  - exists true. split; [done|]. split; [|done]. intros _. exists e. split; [by apply list_elem_of_here|by apply Hoff].
Qed.

Lemma gives_has odb sha : ready odb -> len sha = 40 ->
  exists (b : bool) odb', gives (bgit_odb_has odb sha) f (b, odb') /\ (ready odb' /\ grown odb odb') /\ (b = true <-> loose_there sha \/ packed_there sha).
Proof using Hok Hindexed.
  intros Hr Hl. pose proof Hr as [_ Hd]. unfold bgit_odb_has. rewrite Hl. cbn [negb Z.eqb Pos.eqb]. rewrite Hd.
  destruct (gives_access_loop sha dirs) as (b & Hg & Hb). destruct b.
  { exists true, odb. split; [eapply gives_bind; [apply _|exact Hg|apply gives_ret]|]. split; [by split; [|apply grown_refl]|]. split; [|done]. intros _. left. by apply Hb. }
  assert (Hno : ~ loose_there sha) by (intros Hin; apply Hb in Hin; done).
  pose proof (hex_to_sha_yields sha) as Hy. destruct (bgit_hex_to_sha sha) as [raw|m|] eqn:Eh; [| |done].
  - destruct (gives_scan odb Hr) as (odb1 & G1 & R1 & I1 & _).
    destruct (has_loop_ok raw Hy (packs odb1) ess I1) as (b & Eb & Hbb).
    exists b, odb1. split; [|split; [done|]].
    + eapply gives_bind; [apply _|exact Hg|]. eapply gives_bind; [apply _|exact G1|]. rewrite Eb.
      eapply gives_bind; [apply _|apply gives_lift|apply gives_ret].
    + rewrite Hbb. split; [intros (e & He & Hin); right; by exists e, raw|].
      intros [|(e & raw' & He & Er & Hin)]; [done|]. rewrite Eh in Er. injection Er as <-. by exists e.
  - exists false, odb. split; [eapply gives_bind; [apply _|exact Hg|apply gives_ret]|]. split; [by split; [|apply grown_refl]|]. split; [done|].
    intros [|(e & raw' & He & Er & Hin)]; [done|]. by rewrite Eh in Er.
Qed.

(** What an abbreviation or an id stands for. *)
Definition stands_for (name full : list Z) : Prop :=
  bgit_all_hex (Some name) = true /\
  ((4 <= len name < 40 /\ copies name = [full]) \/ (len name = 40 /\ full = name /\ (loose_there name \/ packed_there name))).

(** A name that stands for nothing is refused. *)
Lemma gives_refuse odb odb0 name : ready odb /\ grown odb0 odb -> (forall full, ~ stands_for name full) ->
  exists o odb', gives (let! _ := report odb "Not a valid object name %s" in iret (@None (list Z), odb)) f (o, odb') /\
    (ready odb' /\ grown odb0 odb') /\ forall full, o = Some full <-> stands_for name full.
Proof using.
  intros Hr Hno. exists None, odb. split; [eapply gives_bind; [apply _|apply gives_report|apply gives_ret]|].
  split; [done|]. intros full. split; [done|]. by intros ?%Hno.
Qed.

(** The search for an abbreviation counts the copies there are, then goes on. *)
Lemma gives_search odb name : ready odb -> bgit_all_hex (Some name) = true -> 2 <= len name ->
  exists m odb' seen, ready odb' /\ grown odb odb' /\ tally m seen /\ Permutation seen (copies name) /\
    forall A (k : list Z * Z -> bgit_odb -> io A) a, gives (k m odb') f a ->
      gives (let! r := match_dirs odb 0 (object_dirs odb) name ([], 0) in let '(m, odb) := r in
        let! odb := bgit_odb_scan_packs odb in let! m := lift (match_packs (packs odb) name m) in k m odb) f a.
Proof using Hok Hindexed.
  intros Hr Hhex Hn. pose proof Hr as [Hc Hd].
  destruct (gives_match_dirs f name Hn (object_dirs odb) odb 0 ([], 0) [] Hc) as (m1 & odb1 & more & G1 & C1 & S1 & T1 & P1);
    [done|by apply tally_none|].
  destruct (gives_scan odb1 (ready_same _ _ Hr C1 S1)) as (odb2 & G2 & [R2 W2] & I2 & _).
  destruct (match_packs_ok name Hhex Hn (packs odb2) ess I2 m1 _ T1) as (m2 & E3 & T3).
  exists m2, odb2, (([] ++ more) ++ flat_map (fun es => List.filter (starts name) (ids es)) ess).
  split; [done|]. split; [eapply grown_trans; [by apply grown_same|done]|]. split; [done|]. split.
  - unfold copies. rewrite Hd in P1. by apply Permutation_app.
  - intros A k a Hk. eapply gives_bind; [apply _|exact G1|]. eapply gives_bind; [apply _|exact G2|]. rewrite E3.
    eapply gives_bind; [apply _|apply gives_lift|exact Hk].
Qed.

Lemma stands_short name full : bgit_all_hex (Some name) = true -> 4 <= len name < 40 ->
  stands_for name full <-> copies name = [full].
Proof using. intros Hhex Hl. unfold stands_for. rewrite Hhex. split; [intros (_ & [[_ E]|[? _]]); [done|lia]|]. intros E. split; [done|by left]. Qed.

Lemma gives_resolve odb name : ready odb ->
  exists o odb', gives (bgit_odb_resolve odb name) f (o, odb') /\ (ready odb' /\ grown odb odb') /\ forall full, o = Some full <-> stands_for name full.
Proof using Hok Hindexed.
  intros Hr. unfold bgit_odb_resolve. cbv zeta.
  assert (Hsame : ready odb /\ grown odb odb) by (by split; [|apply grown_refl]).
  destruct (bgit_all_hex (Some name)) eqn:Ehex; cbn [negb orb].
  2:{ apply gives_refuse; [done|]. intros full [E _]. congruence. }
  case_if; [apply gives_refuse; [done|intros full [_ [[? _]|[? _]]]; lia]|].
  case_if.
  { destruct (gives_has odb name Hr ltac:(done)) as (b & odb1 & G1 & R1 & Hb). destruct b.
    - exists (Some name), odb1. split; [eapply gives_bind; [apply _|exact G1|apply gives_ret]|]. split; [done|].
      intros full. split; [intros [= <-]|intros (_ & [[? _]|(_ & -> & _)]); [lia|done]].
      split; [done|]. right. split; [done|]. split; [done|]. by apply Hb.
    - destruct (gives_refuse odb1 odb name R1) as (o & odb2 & G2 & R2 & K2).
      { intros full (_ & [[? _]|(_ & _ & Hin)]); [lia|]. apply Hb in Hin. done. }
      exists o, odb2. split; [eapply gives_bind; [apply _|exact G1|exact G2]|]. by split. }
  case_if; [apply gives_refuse; [done|intros full [_ [[? _]|[? _]]]; lia]|].
  destruct (gives_search odb name Hr Ehex) as (m & odb1 & seen & R1 & W1 & T & P & Hgo); [lia|].
  assert (Hstand : forall full, stands_for name full <-> seen = [full]).
  { intros full. rewrite stands_short by (done || lia). split; intros E; rewrite E in P.
    - by apply Permutation_sym, Permutation_length_1_inv in P.
    - by apply Permutation_length_1_inv in P. }
  destruct m as [candidate matches]. destruct (tally_decides _ _ T) as (Hz & Hone & Htwo). cbn [fst snd] in *.
  destruct (Z.eqb_spec matches 0) as [E0|N0]; [|destruct (matches >? 1) eqn:E1; simpl_bool].
  - destruct (gives_refuse odb1 odb name) as (o & odb2 & G2 & R2 & K2); [done|intros full Hs; apply Hstand in Hs; by rewrite (proj1 Hz E0) in Hs|].
    exists o, odb2. split; [|by split]. apply Hgo. by rewrite E0.
  - exists None, odb1. split; [apply Hgo; cbv beta iota; rewrite (proj2 (Z.eqb_neq _ _) N0); if_true; eapply gives_bind; [apply _|apply gives_report|apply gives_ret]|].
    split; [done|]. intros full. split; [done|]. intros Hs. apply Hstand in Hs. pose proof (proj1 Htwo ltac:(lia)) as K2. by rewrite Hs in K2.
  - exists (Some candidate), odb1. split; [apply Hgo; cbv beta iota; rewrite (proj2 (Z.eqb_neq _ _) N0); if_false; apply gives_ret|]. split; [done|].
    assert (Hm1 : matches = 1). { destruct T as [T _]. change (matches = Z.min 2 (len seen)) in T. pose proof (len_nonneg seen). lia. }
    specialize (proj1 Hone Hm1) as Hs. intros full. rewrite Hstand, Hs. naive_solver.
Qed.
End Resolve.

(* ------------------------------------------------------------------ *)
(** ** Listing *)

Lemma child_spec dir q name : child dir q = Some name <->
  q = dir ++ str "/" ++ name /\ name <> [] /\ find_byte 47 name = None.
Proof.
  unfold child. assert (Hd : length (dir ++ str "/") = S (length dir)) by (rewrite length_app; cbn; lia). split.
  - destruct (starts _ q) eqn:Es; [|done]. unfold starts, beq in Es. apply bool_decide_eq_true in Es. rewrite Hd in Es.
    destruct (drop (S (length dir)) q) as [|c l] eqn:Ed; [done|]. destruct (find_byte 47 (c :: l)) eqn:Ef; [done|].
    intros [= <-]. split; [|done]. rewrite app_assoc, <- Es, <- Ed. by rewrite take_drop.
  - intros (-> & Hne & Hf). rewrite app_assoc, starts_app, drop_app_ge by lia.
    replace (S (length dir) - length (dir ++ str "/"))%nat with O by lia. cbn [drop]. cbv zeta. destruct name; [done|]. rewrite drop_0, Hf. done.
Qed.

Lemma children_spec f dir name : name ∈ children f dir <->
  name <> [] /\ find_byte 47 name = None /\ is_Some (names f !! (dir ++ str "/" ++ name)).
Proof.
  unfold children. rewrite list_elem_of_omap. split.
  - intros ([q i] & Hin & Hc). apply child_spec in Hc as (-> & Hne & Hf). apply elem_of_map_to_list in Hin. eauto.
  - intros (Hne & Hf & i & Hi). exists (dir ++ str "/" ++ name, i). split; [by apply elem_of_map_to_list|].
    by apply child_spec.
Qed.

Lemma dedup_loop_ok ns : forall last, StronglySorted (fun a b => bcmp a b <= 0) (last :: ns) ->
  StronglySorted (fun a b => bcmp a b < 0) (last :: dedup_loop last ns) /\
  forall x, x ∈ last :: dedup_loop last ns <-> x ∈ last :: ns.
Proof.
  induction ns as [|n ns IH]; intros last Hs; cbn [dedup_loop].
  { split; [by repeat constructor|done]. }
  inversion Hs as [|? ? Hs' Hlast]; subst. inversion Hlast as [|? ? Hn Hrest]; subst.
  destruct (Z.eqb_spec (bcmp n last) 0) as [E|N]; cbn [negb].
  - apply bcmp_eq in E as ->. destruct (IH last) as [I1 I2]; [by inversion Hs'|]. split; [done|].
    intros x. rewrite I2, !elem_of_cons. tauto.
  - destruct (IH n Hs') as [I1 I2].
    assert (Hlt : bcmp last n < 0) by (rewrite (bcmp_antisym last n) in N; pose proof (bcmp_range last n); lia).
    split.
    + constructor; [done|]. constructor; [done|]. inversion I1 as [|? ? _ Hn']; subst.
      eapply Forall_impl; [exact Hn'|]. cbn. intros a Ha. by eapply bcmp_lt_trans.
    + intros x. rewrite elem_of_cons, I2. by rewrite (elem_of_cons (n :: ns)).
Qed.

Lemma dedup_ok ns : StronglySorted (fun a b => bcmp a b <= 0) ns ->
  StronglySorted (fun a b => bcmp a b < 0) (dedup ns) /\ forall x, x ∈ dedup ns <-> x ∈ ns.
Proof. destruct ns as [|n ns]; [by split; [constructor|]|]. apply dedup_loop_ok. Qed.

Section Listing.
Context `{Zlib} `{Malloc} `{Qsort} `{Readdir} `{Mmap}.

(** A directory lists the names of the paths below it. *)
Lemma dir_names_spec f d pre name : name ∈ dir_names f d pre <->
  len name = 38 /\ (exists nd, lookup_inode f (fan_dir d pre) = Some nd /\ i_dir nd = true) /\
  find_byte 47 name = None /\ is_Some (names f !! (fan_dir d pre ++ str "/" ++ name)).
Proof.
  unfold dir_names, entries_of. destruct (lookup_inode f (fan_dir d pre)) as [nd|] eqn:El; [destruct (i_dir nd) eqn:Ed|].
  - rewrite list_elem_of_In, filter_In, <- list_elem_of_In, (readdir_perm f), !elem_of_cons, children_spec, Z.eqb_eq. split.
    + intros ([->|[->|(_ & Hf & Hi)]] & Hl); try done. split; [done|]. split; [by exists nd|done].
    + intros (Hl & _ & Hf & Hi). split; [|done]. right. right. split; [|done]. by intros ->.
  - split; [by intros ?%elem_of_nil|]. intros (_ & (nd' & [= <-] & E) & _). congruence.
  - split; [by intros ?%elem_of_nil|]. intros (_ & (nd' & [=] & E) & _).
Qed.

Context (f : fs) (Hok : fs_ok f) (dirs : list path) (ess : list (list bgit_pack_idx_entry)).
Context (Hindexed : Forall2 (fun p es => packed_index (snd p) es) (disk_packs f dirs) ess).

Definition value_names (d : path) (value : Z) : list (list Z) :=
  if len (fan_dir d (hex2 value)) >=? 4096 then []
  else List.filter (fun name => bgit_all_hex (Some name)) (map (app (hex2 value)) (dir_names f d (hex2 value))).

Definition byte_values : list Z := map Z.of_nat (seq 0 256).

Lemma hex2_take value : 0 <= value < 256 -> take 2 (hex2 value) = hex2 value /\ length (hex2 value) = 2%nat.
Proof using.
  intros Hv. pose proof (sha_to_hex_len [value]) as Hl. unfold hex2.
  assert (Hb : bytes [value]) by (repeat constructor; unfold is_byte; lia). specialize (Hl Hb). change (len [value]) with 1 in Hl.
  unfold len in Hl. split; [apply take_ge; lia|lia].
Qed.

Lemma gives_values i d values : Forall (fun v => 0 <= v < 256) values -> forall odb, consistent f odb -> object_dirs odb !! i = Some d ->
  exists ns odb', gives (values_loop odb i d values) f (ns, odb') /\ consistent f odb' /\ same_packs odb odb' /\
    Permutation ns (flat_map (value_names d) values).
Proof using.
  induction 1 as [|v values Hv _ IH]; intros odb Hc Hd; cbn [values_loop flat_map].
  { exists [], odb. split; [apply gives_ret|]. by split_and!. }
  destruct (gives_listing f odb i d (hex2 v) Hc Hd) as (o & odb1 & G1 & C1 & S1 & Hlong & Hshort).
  destruct (IH odb1 C1) as (ns & odb2 & G2 & C2 & S2 & P2); [by destruct S1 as (-> & _)|].
  destruct (hex2_take v Hv) as [Et _]. rewrite Et in *.
  eexists (_ ++ ns), odb2. split; [|split; [done|split; [by eapply same_packs_trans|]]].
  - eapply gives_bind; [apply _|exact G1|]. cbv beta iota zeta. eapply gives_bind; [apply _|exact G2|apply gives_ret].
  - apply Permutation_app; [|done]. unfold value_names. case_if.
    + by rewrite Hlong by lia.
    + destruct Hshort as (l & -> & ->); [lia|]. apply filter_perm, Permutation_map, listing_perm.
Qed.

Lemma byte_values_range : Forall (fun v => 0 <= v < 256) byte_values.
Proof using. apply Forall_forall. intros v Hv. apply list_elem_of_fmap in Hv as (k & -> & Hk). apply elem_of_seq in Hk. lia. Qed.

Definition loose_names (d : path) : list (list Z) := flat_map (value_names d) byte_values.

Lemma gives_list_dirs : forall ds odb i, consistent f odb -> (forall k d, ds !! k = Some d -> object_dirs odb !! (i + k)%nat = Some d) ->
  exists ns odb', gives (list_dirs odb i ds) f (ns, odb') /\ consistent f odb' /\ same_packs odb odb' /\
    Permutation ns (flat_map loose_names ds).
Proof using.
  induction ds as [|d ds IH]; intros odb i Hc Hds; cbn [list_dirs flat_map].
  { exists [], odb. split; [apply gives_ret|]. by split_and!. }
  destruct (gives_values i d byte_values byte_values_range odb Hc) as (ns1 & odb1 & G1 & C1 & S1 & P1);
    [by rewrite <- (Nat.add_0_r i); apply Hds|].
  destruct (IH odb1 (S i) C1) as (ns2 & odb2 & G2 & C2 & S2 & P2).
  { intros k d' Hk. destruct S1 as (-> & _). replace (S i + k)%nat with (i + S k)%nat by lia. by apply Hds. }
  exists (ns1 ++ ns2), odb2. split; [|split; [done|split; [by eapply same_packs_trans|by apply Permutation_app]]].
  eapply gives_bind; [apply _|exact G1|]. cbv beta iota zeta. eapply gives_bind; [apply _|exact G2|apply gives_ret].
Qed.

Lemma ids_loop_ok idx es : packed_index idx es -> forall n i, (i + n = length es)%nat ->
  ids_loop n idx (Z.of_nat i) = Ret (drop i (ids es)).
Proof using.
  intros Hidx. induction n as [|n IH]; intros i Hi; cbn [ids_loop].
  { rewrite drop_ge; [done|]. unfold ids. rewrite length_map. lia. }
  destruct (lookup_lt_is_Some_2 es i) as [e He]; [lia|]. rewrite (index_sha idx es Hidx i e He). cbn [obind].
  replace (Z.of_nat i + 1) with (Z.of_nat (S i)) by lia. rewrite IH by lia. cbn [obind].
  by rewrite (drop_S (ids es) (bgit_sha_to_hex (ie_sha e)) i) by (by apply ids_lookup).
Qed.

Lemma list_packs_ok ps es : Forall2 (fun p es => packed_index (pk_idx p) es) ps es -> list_packs ps = Ret (flat_map ids es).
Proof using.
  induction 1 as [|p e ps es Hp _ IH]; cbn [list_packs flat_map]; [done|]. cbv zeta.
  rewrite (index_total _ _ Hp). cbn [obind]. destruct (index_room _ _ Hp) as [Eu Hroom].
  rewrite Eu, Z.div_mul, Z.eqb_refl, andb_false_r by done. if_false.
  pose proof (ids_loop_ok _ _ Hp (Z.to_nat (len e)) 0%nat) as E. change (Z.of_nat 0) with 0 in E. rewrite E by (unfold len; lia). cbn [obind drop].
  by rewrite IH.
Qed.

(** Every object there is, once for each place it is kept in. *)
Definition all_objects : list (list Z) := flat_map loose_names dirs ++ flat_map ids ess.

Lemma gives_list odb : consistent f odb -> object_dirs odb = dirs ->
  exists ns odb', gives (bgit_odb_list odb) f (ns, odb') /\ consistent f odb' /\ object_dirs odb' = dirs /\
    StronglySorted (fun a b => bcmp a b < 0) ns /\ forall x, x ∈ ns <-> x ∈ all_objects.
Proof using Hok Hindexed.
  intros Hc Hd. unfold bgit_odb_list.
  destruct (gives_scan f Hok dirs ess Hindexed odb (conj Hc Hd)) as (odb1 & G1 & [[C1 D1] _] & I1 & _).
  destruct (gives_list_dirs (object_dirs odb1) odb1 0 C1) as (loose & odb2 & G2 & C2 & S2 & P2); [done|].
  assert (E3 : list_packs (packs odb2) = Ret (flat_map ids ess)).
  { destruct S2 as (_ & -> & _). by apply list_packs_ok. }
  set (ns := loose ++ flat_map ids ess).
  assert (Hall : forall x, x ∈ ns <-> x ∈ all_objects).
  { intros x. unfold ns, all_objects. rewrite !elem_of_app, P2, D1. done. }
  exists (if len ns >? 1 then dedup (qsort bgit_sha_cmp ns) else ns), odb2. split; [|split; [done|split]].
  - eapply gives_bind; [apply _|exact G1|]. eapply gives_bind; [apply _|exact G2|]. cbv beta iota zeta. rewrite E3.
    eapply gives_bind; [apply _|apply gives_lift|apply gives_ret].
  - destruct S2 as (-> & _). done.
  - case_if.
    + destruct (dedup_ok (qsort bgit_sha_cmp ns)) as [Hs Hin]; [apply qsort_sorted, bcmp_preorder|].
      split; [done|]. intros x. rewrite Hin, <- Hall. by rewrite (qsort_perm _ bgit_sha_cmp ns).
    + split; [|done]. destruct ns as [|x [|y l]]; [constructor|by repeat constructor|].
      rewrite !len_cons in *. pose proof (len_nonneg l). lia.
Qed.
End Listing.

(* ------------------------------------------------------------------ *)
(** ** Reading *)

(** [b] is what the first element that has something has. *)
Inductive first_of {A B} (P : A -> B -> Prop) : list A -> B -> Prop :=
| first_here a l b : P a b -> first_of P (a :: l) b
| first_later a l b : (forall b', ~ P a b') -> first_of P l b -> first_of P (a :: l) b.

Lemma first_of_unique {A B} (P : A -> B -> Prop) l b1 b2 : (forall a b1 b2, P a b1 -> P a b2 -> b1 = b2) ->
  first_of P l b1 -> first_of P l b2 -> b1 = b2.
Proof.
  intros HP H1. revert b2. induction H1 as [a l b Hb|a l b Hno _ IH]; intros b2 H2;
    inversion H2 as [? ? ? Hb2|? ? ? Hno2 H2']; subst; [by eapply HP|by edestruct Hno2|by edestruct Hno|by apply IH].
Qed.

Section Reading.
Context `{Zlib} `{Malloc} `{Qsort} `{Readdir} `{Mmap}.
Context (f : fs) (Hok : fs_ok f) (dirs : list path) (ess : list (list bgit_pack_idx_entry)).
Context (Hindexed : Forall2 (fun p es => packed_index (snd p) es) (disk_packs f dirs) ess).

(** Files below 4 GiB, and the loose ones inflate below it. *)
Context (Hfiles : forall q raw, content f q = Some raw -> bytes raw /\ len raw <= UINT_MAX).
Context (Hloose : forall d sha, d ∈ dirs -> file_fits f (loose_file d sha)).

(** A directory's loose file for an id, inflated. *)
Definition loose_in (sha : list Z) (d : path) (infl : list Z) : Prop :=
  len (loose_file d sha) < 4096 /\ loose_at f d sha infl.

Definition absent_loose (sha : list Z) : Prop := forall d infl, d ∈ dirs -> ~ loose_in sha d infl.

Lemma read_loose_at_quietly d sha : d ∈ dirs -> len sha = 40 ->
  quietly (bgit_read_loose_at d sha) f (fun o => forall infl, o = Some infl <-> loose_in sha d infl).
Proof using Hok Hloose.
  intros Hd Hs w Hf Hw. destruct (bgit_read_loose_at d sha w) as [r w'] eqn:E. pose proof E as E0.
  apply read_loose_at_spec in E as (o & -> & Ho & Hfull); [|by rewrite Hf|rewrite Hf; by apply Hloose].
  rewrite Hf in Ho, Hfull. exists o, w'. split; [done|]. intros infl. split.
  - intros ->. split; [|by apply Ho]. unfold bgit_read_loose_at in E0. rewrite Hs in E0. cbn [negb Z.eqb Pos.eqb] in E0.
    case_if_in E0; [done|lia].
  - intros [Hlen Hat]. by apply Hfull.
Qed.

Lemma loose_in_unique sha d i1 i2 : loose_in sha d i1 -> loose_in sha d i2 -> i1 = i2.
Proof using. intros [_ K1] [_ K2]. by eapply loose_at_unique. Qed.

Lemma loose_in_room sha d infl : d ∈ dirs -> loose_in sha d infl -> len infl <= room.
Proof using Hloose. intros Hd [_ (raw & used & Hc & Hst)]. destruct (Hloose _ sha Hd _ Hc) as [_ Hfit]. by eapply Hfit. Qed.

(** What a loose file's text is the text of. *)
Definition is_text (infl : list Z) (o : bgit_type * list Z) : Prop :=
  fst o <> BGIT_UNKNOWN /\ infl = object_text (fst o) (snd o).

Lemma split_loose_exact infl : len infl <= room ->
  exists r, split_loose infl = Ret r /\ forall o, r = Some o <-> is_text infl o.
Proof using.
  intros Hroom. unfold split_loose, is_text, object_text. pose proof (parse_header_no_fault infl) as Hnf.
  assert (Hno : forall t content, t <> BGIT_UNKNOWN -> infl = object_header (bgit_type_name t) (len content) ++ content ->
    bgit_parse_header infl = Ret (t, len content, len (object_header (bgit_type_name t) (len content)))).
  { intros t content Ht ->. rewrite len_app in Hroom. pose proof (len_nonneg content).
    pose proof (len_nonneg (object_header (bgit_type_name t) (len content))). unfold room, UINT_MAX in Hroom.
    apply object_header_parse; [done|unfold SIZE_MAX; lia|unfold LONG_MAX; lia]. }
  destruct (bgit_parse_header infl) as [[[type payload] off]|m|] eqn:E; [| |done].
  - apply parse_header_inv in E as (content & Einfl & -> & Ht & Hp & _). 
    set (h := object_header (bgit_type_name type) payload) in *. pose proof (len_nonneg content). pose proof (len_nonneg h).
    assert (Elen : len infl = len h + len content) by (rewrite Einfl; apply len_app).
    rewrite Elen. replace (len h >? len h + len content) with false by lia. cbn [orb]. replace (len h + len content - len h) with (len content) by lia.
    destruct (Z.eqb_spec payload (len content)) as [->|Hne]; cbn [negb].
    + rewrite rdn_ok by lia. cbn [obind]. eexists. split; [reflexivity|].
      replace (take _ (drop _ infl)) with content
        by (rewrite Einfl; unfold len; rewrite !Nat2Z.id, drop_app_length, firstn_all; done).
      intros [t data]. cbn. split; [by intros [= <- <-]|]. intros [Ht' E']. specialize (Hno _ _ Ht' E').
      injection Hno as -> El _. do 2 f_equal. rewrite E' in Einfl.
      unfold h in Einfl. rewrite El in Einfl. by apply app_inv_head in Einfl.
    + eexists. split; [reflexivity|]. intros [t data]. split; [done|]. intros [Ht' E']. cbn in *. specialize (Hno _ _ Ht' E').
      injection Hno as -> -> _. rewrite E' in Einfl. apply app_inv_head in Einfl as ->. done.
  - eexists. split; [reflexivity|]. intros [t data]. split; [done|]. intros [Ht' E']. cbn in *. by specialize (Hno _ _ Ht' E').
Qed.

(** What reading answers: the object, an error, or that it is not here. *)
Definition answer (r : found) (here : bgit_type * list Z -> Prop) (gone : Prop) : Prop :=
  (forall o, r = (0, Some o) <-> here o) /\ (fst r = 1 <-> gone) /\ (is_Some (snd r) /\ fst r = 0 \/ r = (-1, None) \/ r = (1, None)).

Lemma answer_error here gone : (forall o, ~ here o) -> ~ gone -> answer (-1, None) here gone.
Proof using. intros Hh Hg. split; [|split; [|auto]]; [intros o; split; [done|by intros ?%Hh]|split; [done|by intros ?%Hg]]. Qed.

(** The object in the first directory that has a loose file for it. *)
Definition loose_found (sha : list Z) (ds : list path) (o : bgit_type * list Z) : Prop :=
  exists infl, first_of (loose_in sha) ds infl /\ is_text infl o.

Definition none_loose (sha : list Z) (ds : list path) : Prop := forall d infl, d ∈ ds -> ~ loose_in sha d infl.

Lemma first_not_none {A B} (P : A -> B -> Prop) l b : first_of P l b -> exists a, a ∈ l /\ P a b.
Proof using. induction 1 as [a l b Hb|a l b _ _ (a' & Hin & Hb)]; [exists a|exists a']; by rewrite elem_of_cons; auto. Qed.

Lemma read_loose_quietly odb sha ds : (forall d, d ∈ ds -> d ∈ dirs) -> len sha = 40 ->
  quietly (read_loose_loop odb ds sha) f (fun r => answer r (loose_found sha ds) (none_loose sha ds)).
Proof using Hok Hloose.
  intros Hds Hs. induction ds as [|d ds IH]; cbn [read_loose_loop].
  - apply quietly_ret. split; [|split; [|auto]].
    + intros o. split; [done|]. by intros (infl & Hf & _); inversion Hf.
    + split; [|done]. by intros _ d infl ?%elem_of_nil.
  - eapply quietly_bind; [apply _|apply read_loose_at_quietly; [by apply Hds, list_elem_of_here|done]|]. intros [raw|] Hraw.
    + pose proof (proj1 (Hraw raw) eq_refl) as Hin.
      assert (Hhas : ~ none_loose sha (d :: ds)) by (intros Hn; eapply Hn; [apply list_elem_of_here|exact Hin]).
      assert (Hfirst : forall infl, first_of (loose_in sha) (d :: ds) infl <-> infl = raw).
      { intros infl. split; [|intros ->; by constructor]. intros Hf. inversion Hf; subst; [by eapply loose_in_unique|].
        exfalso. match goal with Hno : forall b', ~ _ |- _ => by eapply Hno end. }
      destruct (split_loose_exact raw (loose_in_room _ _ _ (Hds _ (list_elem_of_here _ _)) Hin)) as (r & E & Hr). rewrite E.
      eapply quietly_gives; [apply _|apply gives_lift|]. destruct r as [o|].
      * apply quietly_ret. split; [|split; [|left; by split]].
        -- intros o'. unfold loose_found. setoid_rewrite Hfirst. split; [intros [= <-]; exists raw; by rewrite <- Hr|].
           intros (_ & -> & Ho). apply Hr in Ho. by injection Ho as ->.
        -- by split.
      * eapply quietly_gives; [apply _|apply gives_report|]. apply quietly_ret, answer_error; [|done].
        intros o (infl & Hf & Ho). apply Hfirst in Hf as ->. by apply Hr in Ho.
    + assert (Hno : forall infl, ~ loose_in sha d infl) by (intros infl Hin; by apply Hraw in Hin).
      assert (Hfirst : forall infl, first_of (loose_in sha) (d :: ds) infl <-> first_of (loose_in sha) ds infl).
      { intros infl. split; [|by constructor]. intros Hf. inversion Hf; subst; [by edestruct Hno|done]. }
      intros w Hf Hw. destruct (IH (fun d' Hd' => Hds d' (list_elem_of_further _ _ _ Hd')) w Hf Hw) as (r & w' & E & K1 & K2 & K3). exists r, w'. split; [done|].
      split; [|split; [|done]].
      * intros o. rewrite K1. unfold loose_found. by setoid_rewrite Hfirst.
      * rewrite K2. unfold none_loose. split; intros Hn d' infl Hd'; [|by apply Hn, list_elem_of_further].
        apply elem_of_cons in Hd' as [->|Hd']; [apply Hno|by apply Hn].
Qed.

(** A pack that has the id: its bytes, its index's and where. *)
Definition pack_has (raw : list Z) (p : path * list Z) (x : list Z * list Z * Z) : Prop :=
  let '(pack, idx, off) := x in
  idx = snd p /\ bgit_pack_lookup_offset idx raw = Ret off /\ off <> absent /\ mapped f (fst p) = Some pack /\ pack_magic pack.

Lemma pack_has_unique raw p x1 x2 : pack_has raw p x1 -> pack_has raw p x2 -> x1 = x2.
Proof using.
  destruct x1 as [[k1 i1] o1], x2 as [[k2 i2] o2]. intros (-> & K1 & _ & M1 & _) (-> & K2 & _ & M2 & _).
  rewrite K1 in K2. injection K2 as ->. rewrite M1 in M2. by injection M2 as ->.
Qed.

(** What the cache keeps is what a pack of the store holds. *)
Record cache_ok (c : pack_cache) (odb : bgit_odb) : Prop := {
  co_wf : cache_wf c;
  co_bounded : cache_bounded c;
  co_held : forall a l off t d, holds c a l off t d -> exists p pack, p ∈ packs odb /\ pk_pack p = Some (a, pack) /\
    l = len pack /\ exists n, held pack (pk_idx p) None f off n (t, d) }.

Lemma cache_ok_grown c odb odb' : cache_ok c odb -> grown odb odb' -> cache_ok c odb'.
Proof using.
  intros [Hw Hb Hh] Hg. split; [done|done|]. intros a l off t d Hc. destruct (Hh _ _ _ _ _ Hc) as (p & pack & Hin & Hp).
  destruct Hg as [E|E]; [rewrite E in Hin; by apply elem_of_nil in Hin|]. rewrite E. by exists p, pack.
Qed.

Lemma live_elem ps a : a ∈ addresses ps <-> exists p pack, p ∈ ps /\ pk_pack p = Some (a, pack).
Proof using.
  unfold addresses. rewrite list_elem_of_omap. split.
  - intros (p & Hin & Hp). destruct (pk_pack p) as [[a' pack]|] eqn:E; [|done]. injection Hp as ->. eauto.
  - intros (p & pack & Hin & E). exists p. split; [done|]. by rewrite E.
Qed.

(** Mapped packs have addresses of their own. *)
Lemma live_unique ps : NoDup (addresses ps) -> forall i j p q a k k', ps !! i = Some p -> ps !! j = Some q ->
  pk_pack p = Some (a, k) -> pk_pack q = Some (a, k') -> i = j.
Proof using.
  induction ps as [|x ps IH]; intros Hnd i j p q a k k' Hi Hj Hp Hq; [done|].
  assert (Hnot : forall y b b' n, pk_pack x = Some (a, b) -> ps !! n = Some y -> pk_pack y = Some (a, b') -> False).
  { intros y b b' n Hx Hy Hyp. cbn in Hnd. rewrite Hx in Hnd. cbn in Hnd. apply NoDup_cons in Hnd as [Hnd _].
    apply Hnd, live_elem. exists y, b'. split; [by eapply list_elem_of_lookup_2|done]. }
  destruct i as [|i], j as [|j]; cbn in Hi, Hj.
  - done.
  - injection Hi as <-. by edestruct Hnot.
  - injection Hj as <-. by edestruct Hnot.
  - f_equal. eapply IH; try done. cbn in Hnd. destruct (option_map fst (pk_pack x)); [by apply NoDup_cons in Hnd as [_ ?]|done].
Qed.

Lemma live_insert ps i p p' a k : ps !! i = Some p -> pk_pack p = None -> pk_pack p' = Some (a, k) ->
  Permutation (addresses (<[i := p']> ps)) (a :: addresses ps).
Proof using.
  revert i. induction ps as [|x ps IH]; intros [|i] Hi Hp Hp'; try done; cbn in Hi.
  - injection Hi as ->. cbn. by rewrite Hp, Hp'.
  - specialize (IH i Hi Hp Hp'). cbn. destruct (option_map fst (pk_pack x)); [|exact IH].
    rewrite IH. by constructor.
Qed.

(** What a pack is mapped to, once it is asked for. *)
Lemma mapping_quietly odb c i p : ready f dirs odb -> packs_scanned odb = true -> cache_ok c odb -> packs odb !! i = Some p ->
  quietly (bgit_pack_mapping odb i p) f (fun '(o, odb') => ready f dirs odb' /\ packs_scanned odb' = true /\ cache_ok c odb' /\
    match o with
    | None => odb' = odb /\ forall pack, mapped f (pk_path p) = Some pack -> ~ pack_magic pack
    | Some (addr, pack) => mapped f (pk_path p) = Some pack /\ pack_magic pack /\
        exists p', packs odb' !! i = Some p' /\ pk_pack p' = Some (addr, pack) /\ pk_idx p' = pk_idx p
    end).
Proof using Hok.
  intros Hr Hs Hc Hi. unfold bgit_pack_mapping. destruct (pk_pack p) as [[addr pack]|] eqn:Ep.
  { apply quietly_ret. split; [done|]. split; [done|]. split; [done|]. destruct Hr as [[_ _ C2 _ _] _].
    destruct (C2 p addr pack) as [Hm Hg]; [by eapply list_elem_of_lookup_2|done|]. split; [done|]. split; [done|]. by exists p. }
  eapply quietly_gives; [apply _|by apply gives_map_file|]. destruct (mapped f (pk_path p)) as [pack|] eqn:Em.
  2:{ apply quietly_ret. by split_and!. }
  assert (Hgood : exists good : bool, (if len pack <? 32 then Ret false else let* magic := rdn pack 0 4 in Ret (beq magic (str "PACK"))) = Ret good /\
    (good = true <-> pack_magic pack)).
  { unfold pack_magic. case_if; [exists false; split; [done|]; split; [done|lia]|].
    rewrite rdn_ok by lia. cbn [obind]. change (drop (Z.to_nat 0) pack) with pack. eexists. split; [reflexivity|].
    unfold beq. rewrite bool_decide_eq_true. change (Z.to_nat 4) with 4%nat. split; [intros E; split; [lia|exact E]|by intros [_ E]]. }
  destruct Hgood as (good & E & Hgood). rewrite E. eapply quietly_gives; [apply _|apply gives_lift|].
  destruct good.
  2:{ apply quietly_ret. split; [done|]. split; [done|]. split; [done|]. split; [done|]. intros pack' [= <-] Hm. by apply Hgood in Hm. }
  apply quietly_ret. set (m := (mmap_at (live odb), pack)). set (p' := {| pk_path := pk_path p |}).
  destruct Hr as [[C1 C0 C2 C4 C3] Hd]. cbn. pose proof (live_insert (packs odb) i p p' (mmap_at (live odb)) pack Hi Ep eq_refl) as Hperm.
  pose proof (mmap_free (live odb)) as Hfree.
  assert (Hlt : (i < length (packs odb))%nat) by (by eapply lookup_lt_Some).
  assert (Hold : forall q, q ∈ packs odb -> q = p \/ q ∈ <[i := p']> (packs odb)).
  { intros q (j & Hj)%list_elem_of_lookup_1. destruct (decide (i = j)) as [<-|Hne]; [left; congruence|right].
    apply (list_elem_of_lookup_2 _ j). by rewrite list_lookup_insert_ne. }
  split; [|split; [done|split]].
  - split; [|done]. split; cbn.
    + intros _. etrans; [|exact (C1 Hs)]. etrans; [exact (list_fmap_insert _ (packs odb) i p')|]. apply list_insert_id. rewrite list_lookup_fmap, Hi. done.
    + done.
    + intros q a k Hq Hk. apply list_elem_of_lookup_1 in Hq as [j Hj]. destruct (decide (i = j)) as [<-|Hne].
      * rewrite list_lookup_insert_eq in Hj by done. injection Hj as <-. injection Hk as <- <-. split; [done|by apply Hgood].
      * rewrite list_lookup_insert_ne in Hj by done. eapply C2; [by eapply list_elem_of_lookup_2|done].
    + unfold live in *. cbn. rewrite Hperm. by constructor.
    + exact C3.
  - destruct Hc as [Hw Hb Hh]. split; [done|done|]. cbn. intros a l off t d Hcd. destruct (Hh _ _ _ _ _ Hcd) as (q & k & Hq & Hk & Hrest).
    exists q, k. split; [|done]. destruct (Hold q Hq) as [->|?]; [congruence|done].
  - split; [done|]. split; [by apply Hgood|]. exists p'. split; [by rewrite list_lookup_insert_eq|done].
Qed.

Lemma disk_packs_idx ds q idx : (q, idx) ∈ disk_packs f ds -> exists q', mapped f q' = Some idx.
Proof using.
  unfold disk_packs. intros Hin. apply list_elem_of_In, in_flat_map in Hin as (d & _ & Hin). apply list_elem_of_In in Hin.
  unfold dir_packs in Hin. cbv zeta in Hin. case_if_in Hin; [by apply elem_of_nil in Hin|].
  destruct (entries_of f _) as [es|]; [|by apply elem_of_nil in Hin]. apply list_elem_of_omap in Hin as (e & _ & He).
  unfold entry_pack in He. cbv zeta in He. case_if_in He; [done|]. case_if_in He; [done|].
  destruct (lookup_inode f _) as [nd|]; [|done]. destruct (mapped f _) as [idx'|] eqn:Em; [|done].
  destruct (idx_header idx') as [[]| |]; [|done..]. destruct (i_dir nd); [done|]. injection He as _ <-. by eexists.
Qed.

Lemma mapped_bytes q data : mapped f q = Some data -> bytes data /\ len data <= UINT_MAX.
Proof using Hfiles. unfold mapped. destruct (content f q) as [[|x l]|] eqn:E; [done| |done]. intros [= <-]. by eapply Hfiles. Qed.

Lemma index_bytes odb p : ready f dirs odb -> packs_scanned odb = true -> p ∈ packs odb -> bytes (pk_idx p).
Proof using Hfiles.
  intros [[C1 _ _ _ _] _] Hs Hp. destruct (disk_packs_idx (object_dirs odb) (pk_path p) (pk_idx p)) as [q' Hq']; [|by eapply mapped_bytes].
  rewrite <- (C1 Hs). by apply (list_elem_of_fmap_2 (fun p => (pk_path p, pk_idx p))).
Qed.

(** What a pack holds at an offset: as far as a read may answer it, and as far
    as it will. *)
Definition may_hold (pack idx : list Z) (off : Z) (x : object) : Prop := exists n, held pack idx None f off n x.

Definition does_hold (pack idx : list Z) (off : Z) (x : object) : Prop :=
  exists n, Z.of_nat n <= BGIT_PACK_MAX_DELTA_DEPTH /\ resolves pack idx (loose_whole f (str ".")) off n x.

Lemma read_object_quietly odb c i p addr pack off : ready f dirs odb -> packs_scanned odb = true -> cache_ok c odb ->
  packs odb !! i = Some p -> pk_pack p = Some (addr, pack) -> 0 <= off ->
  quietly (bgit_pack_read_object_at 52 addr pack (pk_idx p) None c off 0) f (fun '(o, c') => cache_ok c' odb /\
    (forall x, o = Some x -> may_hold pack (pk_idx p) off x) /\ (forall x, does_hold pack (pk_idx p) off x -> o = Some x)).
Proof using Hok Hfiles.
  intros Hr Hs Hc Hi Hp Hoff w Hf Hw. pose proof Hr as [[_ _ C2 C4 _] _].
  assert (Hin : p ∈ packs odb) by (by eapply list_elem_of_lookup_2).
  destruct (C2 p addr pack Hin Hp) as [Hm _]. destruct (mapped_bytes _ _ Hm) as [Hbp Hlp].
  pose proof (index_bytes odb p Hr Hs Hin) as Hbi.
  assert (Hag : cache_agrees addr pack (pk_idx p) None f c).
  { destruct Hc as [Hcw Hcb Hch]. split; [done|]. split; [done|]. intros o t d Hh.
    destruct (Hch _ _ _ _ _ Hh) as (q & k & Hq & Hk & _ & Hheld). apply list_elem_of_lookup_1 in Hq as [j Hj].
    assert (i = j) as <- by exact (live_unique _ C4 i j p q addr pack k Hi Hj Hp Hk).
    assert (q = p) as -> by congruence. assert (k = pack) as -> by congruence. exact Hheld. }
  assert (Hokw : fs_ok (w_fs w)) by (by rewrite Hf).
  assert (Hbw : forall q raw, content (w_fs w) q = Some raw -> bytes raw) by (rewrite Hf; intros q raw Hq; by eapply Hfiles).
  assert (Hagw : cache_agrees addr pack (pk_idx p) None (w_fs w) c) by (by rewrite Hf).
  destruct (read_object_total addr pack (pk_idx p) None 52 c off 0 w Hbp Hbi Hokw Hbw Hagw) as (o & c' & w' & E & Hag' & Ho); [lia..|].
  exists (o, c'), w'. split; [done|]. rewrite Hf in Hag', Ho. split; [|split].
  - destruct Hc as [Hcw Hcb Hch].
    destruct (read_others addr (len pack) pack (pk_idx p) None 52 eq_refl c off 0 Hcw Hcb w o c' w' E) as (Hw' & Hb' & Hoth).
    split; [done|done|]. intros a l o' t d Hh.
    destruct (decide ((a, l) = (addr, len pack))) as [[= -> ->]|Hne]; [|apply (Hch a l o' t d); by apply Hoth].
    exists p, pack. destruct Hag' as (_ & _ & Hag'). by split_and!; [| | |apply Hag'].
  - intros x ->. by apply Ho.
  - intros x (n & Hn & Hres).
    edestruct (read_finds addr pack (pk_idx p) None f Hbp Hlp Hok Hfiles off n x Hres 52%nat c 0 w) as (c2 & w2 & E2 & _);
      [done|done|done|done|done|lia|lia|lia|]. rewrite E2 in E. by injection E as ->.
Qed.

(** The object in the first pack that has the id. *)
Definition packed_found (holding : list Z -> list Z -> Z -> object -> Prop) (raw : list Z) (ps : list (path * list Z))
    (o : bgit_type * list Z) : Prop :=
  exists pack idx off ty, first_of (pack_has raw) ps (pack, idx, off) /\ holding pack idx off (ty, snd o) /\
    fst o = bgit_type_from_pack ty.

(** As [answer], from both sides. *)
Definition packed_answer (r : found) (raw : list Z) (ps : list (path * list Z)) : Prop :=
  (forall o, r = (0, Some o) -> packed_found may_hold raw ps o) /\
  (forall o, packed_found does_hold raw ps o -> r = (0, Some o)) /\
  (fst r = 1 -> forall p x, p ∈ ps -> ~ pack_has raw p x) /\
  (is_Some (snd r) /\ fst r = 0 \/ r = (-1, None) \/ r = (1, None)).

Lemma packed_skip holding raw p ps o : (forall x, ~ pack_has raw p x) ->
  packed_found holding raw (p :: ps) o <-> packed_found holding raw ps o.
Proof using.
  intros Hno. split; intros (pack & idx & off & ty & Hf & Hh); exists pack, idx, off, ty; (split; [|done]).
  - inversion Hf; subst; [by edestruct Hno|done].
  - by constructor.
Qed.

Lemma packed_answer_skip r raw p ps : (forall x, ~ pack_has raw p x) -> packed_answer r raw ps -> packed_answer r raw (p :: ps).
Proof using.
  intros Hno (K1 & K2 & K3 & K4). split; [|split; [|split; [|done]]].
  - intros o Ho. apply packed_skip; auto.
  - intros o Ho. apply K2. by apply (packed_skip _ _ p).
  - intros Hr q x Hq. apply elem_of_cons in Hq as [->|Hq]; [apply Hno|by apply K3].
Qed.

Lemma packed_first holding raw p ps pack idx off o : pack_has raw p (pack, idx, off) ->
  packed_found holding raw (p :: ps) o <-> exists ty, holding pack idx off (ty, snd o) /\ fst o = bgit_type_from_pack ty.
Proof using.
  intros Hp. split.
  - intros (pack' & idx' & off' & ty & Hf & Hh). inversion Hf as [? ? ? Hp'|? ? ? Hno]; subst; [|by edestruct Hno].
    pose proof (pack_has_unique _ _ _ _ Hp Hp') as E. injection E as -> -> ->. by exists ty.
  - intros (ty & Hh). exists pack, idx, off, ty. by split; [constructor|].
Qed.

Lemma does_unique pack idx off x y : may_hold pack idx off x -> does_hold pack idx off y -> x = y.
Proof using.
  intros (n & Hx) (m & _ & Hy). eapply (held_unique pack idx None f); [|exact Hx]. by apply (holds_held pack idx None f off m y).
Qed.

Lemma packed_loop_quietly raw ps es : oid raw -> Forall2 (fun p es => packed_index (pk_idx p) es) ps es -> forall odb c i,
  (forall k p, ps !! k = Some p -> packs odb !! (i + k)%nat = Some p) -> ready f dirs odb -> packs_scanned odb = true -> cache_ok c odb ->
  quietly (read_packed_loop odb c i ps raw) f (fun '(r, odb', c') => ready f dirs odb' /\ cache_ok c' odb' /\
    packed_answer r raw (map (fun p => (pk_path p, pk_idx p)) ps)).
Proof using Hok Hfiles.
  intros Hraw HF. induction HF as [|p e ps es Hp _ IH]; intros odb c i Hps Hr Hs Hc; cbn [read_packed_loop map].
  { apply quietly_ret. split; [done|]. split; [done|]. split; [done|]. split; [|split; [|auto]].
    - intros o (? & ? & ? & ? & Hf & _). inversion Hf.
    - by intros _ q x ?%elem_of_nil. }
  assert (Hnext : forall odb' c', packs odb' = packs odb -> ready f dirs odb' -> packs_scanned odb' = true -> cache_ok c' odb' ->
    (forall x, ~ pack_has raw (pk_path p, pk_idx p) x) ->
    quietly (read_packed_loop odb' c' (S i) ps raw) f (fun '(r, odb', c') => ready f dirs odb' /\ cache_ok c' odb' /\
      packed_answer r raw ((pk_path p, pk_idx p) :: map (fun p => (pk_path p, pk_idx p)) ps))).
  { intros odb' c' E Hr' Hs' Hc' Hno w Hf Hw. destruct (IH odb' c' (S i)) with (w := w) as ([[r odb2] c2] & w' & Er & R2 & C2 & A2); try done.
    { intros k q Hq. rewrite E. replace (S i + k)%nat with (i + S k)%nat by lia. by apply Hps. }
    exists (r, odb2, c2), w'. split; [done|]. split; [done|]. split; [done|]. by apply packed_answer_skip. }
  destruct (lookup_known _ _ Hp raw Hraw) as (off & Eoff & _). rewrite Eoff.
  eapply quietly_gives; [apply _|apply gives_lift|]. case_if.
  { apply Hnext; try done. intros [[pack idx] off'] (-> & E & Hne & _). cbn in E. rewrite Eoff in E. by injection E as <-. }
  assert (Hi : packs odb !! i = Some p) by (rewrite <- (Nat.add_0_r i); by apply Hps).
  assert (Hoff : 0 <= off).
  { assert (Hbi : bytes (pk_idx p)) by (by eapply (index_bytes odb), list_elem_of_lookup_2).
    pose proof (lookup_yields (pk_idx p) raw Hbi Hraw) as Hy. rewrite Eoff in Hy. apply Hy. }
  eapply quietly_bind; [apply _|by apply mapping_quietly|]. intros [[[addr pack]|] odb'] (Hr' & Hs' & Hc' & Hm).
  2:{ destruct Hm as [-> Hm]. apply Hnext; try done. intros [[pack idx] off'] (-> & _ & _ & Hk & Hg). by eapply Hm. }
  destruct Hm as (Hk & Hg & p' & Hp' & Epk & Eidx).
  assert (Hhas : pack_has raw (pk_path p, pk_idx p) (pack, pk_idx p, off)) by (by split_and!).
  eapply quietly_bind; [apply _|rewrite <- Eidx; by eapply (read_object_quietly odb' c i p')|].
  intros [o c'] (Hc2 & Hmay & Hdoes). rewrite Eidx in Hmay, Hdoes.
  destruct o as [[type content]|].
  - apply quietly_ret. split; [done|]. split; [done|]. specialize (Hmay _ eq_refl). split; [|split; [|split; [done|left; by split]]].
    + intros [t d] [= <- <-]. apply (packed_first _ _ _ _ _ _ _ _ Hhas). by exists type.
    + intros [t d] Ho. apply (packed_first _ _ _ _ _ _ _ _ Hhas) in Ho as (ty & Hty & Et). cbn in Hty, Et.
      pose proof (does_unique _ _ _ _ _ Hmay Hty) as E. injection E as -> ->. by rewrite Et.
  - eapply quietly_gives; [apply _|apply gives_report|]. apply quietly_ret. split; [done|]. split; [done|].
    split; [done|]. split; [|split; [done|auto]].
    intros o Ho. apply (packed_first _ _ _ _ _ _ _ _ Hhas) in Ho as (ty & Hty & _). by apply Hdoes in Hty.
Qed.

(** What a read of an id may answer, and what it does. *)
Definition kept_as (holding : list Z -> list Z -> Z -> object -> Prop) (sha : list Z) (o : bgit_type * list Z) : Prop :=
  loose_found sha dirs o \/
  (none_loose sha dirs /\ exists raw, bgit_hex_to_sha sha = Ret raw /\ packed_found holding raw (disk_packs f dirs) o).

Lemma stands_len name full : stands_for f dirs ess name full -> len full = 40.
Proof using Hindexed.
  intros (_ & [[Hl E]|(Hl & -> & _)]); [|done]. assert (Hin : full ∈ copies f dirs ess name) by (rewrite E; by apply list_elem_of_singleton).
  unfold copies in Hin. apply elem_of_app in Hin as [Hin|Hin]; apply list_elem_of_In, in_flat_map in Hin as (x & Hx & Hin);
    apply list_elem_of_In in Hin.
  - unfold loose_copies in Hin. case_if_in Hin; [by apply elem_of_nil in Hin|]. apply list_elem_of_fmap in Hin as (y & -> & Hy).
    apply list_elem_of_In, filter_In in Hy as [Hy _]. apply list_elem_of_In, dir_names_spec in Hy as [Hy _].
    rewrite len_app, Hy, len_take. lia.
  - apply list_elem_of_In, filter_In in Hin as [Hin _]. apply list_elem_of_In, list_elem_of_fmap in Hin as (e & -> & He).
    apply list_elem_of_In, list_elem_of_lookup_1 in Hx as [i Hi]. destruct (Forall2_lookup_r _ _ _ _ _ Hindexed Hi) as (p & _ & Hp).
    destruct (index_wf _ _ Hp e He) as ((Hle & Hb) & _). by rewrite sha_to_hex_len, Hle by done.
Qed.

Lemma scanned_keys odb : ready f dirs odb -> packs_scanned odb = true ->
  map (fun p => (pk_path p, pk_idx p)) (packs odb) = disk_packs f dirs.
Proof using. intros [[C1 _ _ _ _] Hd] Hs. rewrite <- Hd. by apply C1. Qed.

Lemma odb_read_packed_quietly odb c sha : ready f dirs odb -> cache_ok c odb ->
  quietly (bgit_odb_read_packed odb c sha) f (fun '(r, odb', c') => ready f dirs odb' /\ cache_ok c' odb' /\
    (forall o, r = (0, Some o) -> exists raw, bgit_hex_to_sha sha = Ret raw /\ packed_found may_hold raw (disk_packs f dirs) o) /\
    (forall raw o, bgit_hex_to_sha sha = Ret raw -> packed_found does_hold raw (disk_packs f dirs) o -> r = (0, Some o)) /\
    (is_Some (snd r) /\ fst r = 0 \/ r = (-1, None) \/ r = (1, None))).
Proof using Hok Hfiles Hindexed.
  intros Hr Hc. unfold bgit_odb_read_packed. pose proof (hex_to_sha_yields sha) as Hy.
  destruct (bgit_hex_to_sha sha) as [raw|m|]; [| |done].
  - destruct (gives_scan f Hok dirs ess Hindexed odb Hr) as (odb1 & G1 & [R1 W1] & I1 & S1).
    eapply quietly_gives; [apply _|exact G1|]. intros w Hf Hw.
    destruct (packed_loop_quietly raw (packs odb1) ess Hy I1 odb1 c 0%nat) with (w := w) as ([[r odb2] c2] & w2 & E & R2 & C2 & K1 & K2 & _ & K4);
      [by intros k p Hk|done|done|by eapply cache_ok_grown|done|done|].
    rewrite scanned_keys in K1, K2 by done. exists (r, odb2, c2), w2. split; [done|]. split; [done|]. split; [done|].
    split; [|split; [|done]].
    + intros o Ho. exists raw. split; [done|auto].
    + intros raw' o [= <-]. apply K2.
  - apply quietly_ret. split; [done|]. split; [done|]. split; [done|]. split; [done|auto].
Qed.

Lemma odb_read_quietly odb c name : ready f dirs odb -> cache_ok c odb ->
  quietly (bgit_odb_read odb c name) f (fun '(r, odb', c') => ready f dirs odb' /\ cache_ok c' odb' /\
    (forall o, r = (0, Some o) -> exists sha, stands_for f dirs ess name sha /\ kept_as may_hold sha o) /\
    (forall sha o, stands_for f dirs ess name sha -> kept_as does_hold sha o -> r = (0, Some o)) /\
    (is_Some (snd r) /\ fst r = 0 \/ r = (-1, None))).
Proof using Hok Hfiles Hindexed Hloose.
  intros Hr Hc. unfold bgit_odb_read. destruct (gives_resolve f Hok dirs ess Hindexed odb name Hr) as (o & odb1 & G1 & [R1 W1] & Hstand).
  eapply quietly_gives; [apply _|exact G1|]. pose proof (cache_ok_grown _ _ _ Hc W1) as Hc1. destruct o as [sha|].
  2:{ apply quietly_ret. split; [done|]. split; [done|]. split; [done|]. split; [|auto]. intros sha o Hsha. apply Hstand in Hsha. done. }
  pose proof (proj1 (Hstand sha) eq_refl) as Hsha.
  assert (Hone : forall sha', stands_for f dirs ess name sha' -> sha' = sha) by (intros sha' Hs; apply Hstand in Hs; congruence).
  eapply quietly_bind; [apply _|unfold bgit_odb_read_loose; rewrite (proj2 R1); apply (read_loose_quietly odb1 sha dirs); [done|by eapply stands_len]|].
  intros r1 (A1 & A2 & A3). destruct (fst r1 <=? 0) eqn:Er1.
  - assert (Hhere : ~ none_loose sha dirs) by (intros Hn; apply A2 in Hn; lia).
    apply quietly_ret. split; [done|]. split; [done|]. split; [|split].
    + intros o Ho. exists sha. split; [done|left; by apply A1].
    + intros sha' o Hs [Hl|[Hn _]]; rewrite (Hone _ Hs) in *; [by apply A1|done].
    + destruct A3 as [?|[?|E]]; [by left|by right|by rewrite E in Er1].
  - assert (E1 : r1 = (1, None)) by (destruct A3 as [[_ E]|[E|E]]; [lia|by rewrite E in Er1|done]).
    assert (Hgone : none_loose sha dirs) by (apply A2; by rewrite E1).
    assert (Hnl : forall o, ~ loose_found sha dirs o) by (intros o Ho; apply A1 in Ho; congruence).
    eapply quietly_bind; [apply _|by apply (odb_read_packed_quietly odb1 c sha)|].
    intros [[r2 odb2] c2] (R2 & C2 & B1 & B2 & B3).
    assert (Hdoes : forall sha' o, stands_for f dirs ess name sha' -> kept_as does_hold sha' o -> r2 = (0, Some o)).
    { intros sha' o Hs [Hl|(_ & raw & Eraw & Hp)]; rewrite (Hone _ Hs) in *; [by apply Hnl in Hl|]. by eapply B2. }
    destruct (fst r2 <=? 0) eqn:Er2.
    + apply quietly_ret. split; [done|]. split; [done|]. split; [|split; [done|]].
      * intros o Ho. exists sha. split; [done|right]. split; [done|by apply B1].
      * destruct B3 as [?|[?|E]]; [by left|by right|by rewrite E in Er2].
    + eapply quietly_gives; [apply _|apply gives_report|]. apply quietly_ret. split; [done|]. split; [done|]. split; [done|].
      split; [|by right]. intros sha' o Hs Hk. rewrite (Hdoes _ _ Hs Hk) in Er2. done.
Qed.
End Reading.

(* ------------------------------------------------------------------ *)
(** ** The store's contract *)

(** Files whose names lead to inodes, and packs under the directories indexed as
    the writer indexes them, by these entries. *)
Record disk `{Readdir} (f : fs) (dirs : list path) (ess : list (list bgit_pack_idx_entry)) : Prop := {
  dk_ok : fs_ok f;
  dk_indexed : Forall2 (fun p es => packed_index (snd p) es) (disk_packs f dirs) ess }.

(** Files below 4 GiB, the loose objects inflating below it too. *)
Record small `{Zlib} (f : fs) (dirs : list path) : Prop := {
  sm_files : forall q raw, content f q = Some raw -> bytes raw /\ len raw <= UINT_MAX;
  sm_loose : forall d sha, d ∈ dirs -> file_fits f (loose_file d sha) }.

Lemma ready_open `{Qsort} `{Readdir} f dirs : ready f dirs (bgit_odb_open dirs).
Proof. split; [apply consistent_open|done]. Qed.

Lemma gives_run {A} (c : io A) `{!Harmless c} a w : gives c (w_fs w) a -> w_answers w = [] ->
  exists w', c w = (Ret a, w') /\ reads_only w w'.
Proof. intros Hg Ha. destruct (Hg w eq_refl Ha) as [w' E]. exists w'. split; [done|]. by destruct (harmless _ _ _ E). Qed.

Lemma ready_after `{Qsort} `{Readdir} w w' dirs odb : reads_only w w' -> ready (w_fs w) dirs odb -> ready (w_fs w') dirs odb.
Proof. intros [-> _]. done. Qed.


(** A loose object as the lister finds it: a name of 38 bytes in one of the 256
    directories of lower case digits, hexadecimal altogether. *)
Definition listed_loose (f : fs) (d x : list Z) : Prop :=
  exists value name, x = hex2 value ++ name /\ 0 <= value < 256 /\ len name = 38 /\ bgit_all_hex (Some x) = true /\
    len (fan_dir d (hex2 value)) < 4096 /\ (exists nd, lookup_inode f (fan_dir d (hex2 value)) = Some nd /\ i_dir nd = true) /\
    is_Some (names f !! loose_file d x).

Lemma all_hex_app a b : bgit_all_hex (Some (a ++ b)) = true -> bgit_all_hex (Some b) = true \/ b = [].
Proof.
  cbn. destruct (a ++ b) eqn:E; [by destruct a, b|]. rewrite <- E, forallb_app.
  intros [_ Hb]%andb_true_iff. destruct b; [by right|left]. cbn. exact Hb.
Qed.

Lemma all_hex_no_slash l : bgit_all_hex (Some l) = true -> find_byte 47 l = None.
Proof.
  intros Hl. destruct (find_byte 47 l) as [i|] eqn:E; [|done]. apply find_byte_Some in E as (w & t & -> & _ & _).
  destruct (all_hex_app w (47 :: t) Hl) as [Hb|]; done.
Qed.

Lemma loose_names_spec `{Readdir} f d x : x ∈ loose_names f d <-> listed_loose f d x.
Proof.
  unfold loose_names, listed_loose, value_names. rewrite list_elem_of_In, in_flat_map. split.
  - intros (v & Hv & Hin). apply list_elem_of_In in Hv. pose proof byte_values_range as Hr. rewrite Forall_forall in Hr. specialize (Hr v Hv).
    case_if_in Hin; [done|]. apply filter_In in Hin as [Hin Hhex]. apply list_elem_of_In, list_elem_of_fmap in Hin as (name & -> & Hin).
    apply dir_names_spec in Hin as (Hl & Hd & _ & Hn). exists v, name. destruct (hex2_take v Hr) as [_ H2].
    split_and!; try done; try lia.
    unfold loose_file. rewrite take_app_length', drop_app_length' by done. unfold fan_dir in Hn. by rewrite <- !app_assoc in Hn.
  - intros (v & name & -> & Hr & Hl & Hhex & Hlen & Hd & Hn). exists v. split.
    { apply list_elem_of_In, list_elem_of_fmap. exists (Z.to_nat v). split; [lia|]. apply elem_of_seq. lia. }
    if_false. apply filter_In. split; [|done]. apply list_elem_of_In, list_elem_of_fmap_2, dir_names_spec.
    split; [done|]. split; [done|]. split.
    + apply all_hex_no_slash. destruct (all_hex_app _ _ Hhex) as [|E]; [done|]. by rewrite E in Hl.
    + destruct (hex2_take v Hr) as [_ H2]. unfold loose_file in Hn. rewrite take_app_length', drop_app_length' in Hn by done.
      unfold fan_dir. by rewrite <- !app_assoc.
Qed.

(** [C39] (refinement) Listing every object, at any point of a command: the ids
    come in order and each once, and they are those of the loose objects of all
    directories and of the entries of all packs: the set of what the store
    keeps, however often it keeps it. *)
Theorem odb_list_exact `{Zlib} `{Malloc} `{Qsort} `{Readdir} `{Mmap} dirs ess odb w : disk (w_fs w) dirs ess ->
  ready (w_fs w) dirs odb -> w_answers w = [] ->
  exists ns odb' w', bgit_odb_list odb w = (Ret (ns, odb'), w') /\ reads_only w w' /\ ready (w_fs w') dirs odb' /\
    StronglySorted (fun a b => bcmp a b < 0) ns /\
    forall x, x ∈ ns <-> (exists d, d ∈ dirs /\ listed_loose (w_fs w) d x) \/ (exists es e, es ∈ ess /\ e ∈ es /\ x = bgit_sha_to_hex (ie_sha e)).
Proof.
  intros [Hok Hidx] [Hc Hd] Ha. destruct (gives_list (w_fs w) Hok dirs ess Hidx odb Hc Hd) as (ns & odb' & G & C & D & Hs & Hns).
  destruct (gives_run _ _ w G Ha) as (w' & E & Hro). exists ns, odb', w'.
  split; [done|]. split; [done|]. split; [by eapply ready_after|]. split; [done|]. intros x. rewrite Hns. unfold all_objects.
  rewrite elem_of_app, !list_elem_of_In, !in_flat_map. setoid_rewrite <- list_elem_of_In.
  setoid_rewrite loose_names_spec. unfold ids. setoid_rewrite list_elem_of_fmap. naive_solver.
Qed.

(** [C40] (functional) Reading a name.  With status 0 it answers an object kept
    under the one id the name stands for: in the first directory with a loose
    file for it, or, when no directory has one, in the first pack that has it.
    Whenever one is kept there, its deltas no deeper than the reader goes, it is
    the answer; anything else is an error, and nothing goes unanswered.  The
    cache, shared by all packs, keeps only what they hold; no file is changed. *)
Theorem odb_read_exact `{Zlib} `{Malloc} `{Qsort} `{Readdir} `{Mmap} dirs ess odb c name w : disk (w_fs w) dirs ess ->
  small (w_fs w) dirs -> ready (w_fs w) dirs odb -> cache_ok (w_fs w) c odb -> w_answers w = [] ->
  exists r odb' c' w', bgit_odb_read odb c name w = (Ret (r, odb', c'), w') /\ reads_only w w' /\
    ready (w_fs w') dirs odb' /\ cache_ok (w_fs w') c' odb' /\
    (forall o, r = (0, Some o) -> exists sha, stands_for (w_fs w) dirs ess name sha /\
       kept_as (w_fs w) dirs (may_hold (w_fs w)) sha o) /\
    (forall sha o, stands_for (w_fs w) dirs ess name sha -> kept_as (w_fs w) dirs (does_hold (w_fs w)) sha o -> r = (0, Some o)) /\
    ((exists o, r = (0, Some o)) \/ r = (-1, None)).
Proof.
  intros [Hok Hidx] [Hfiles Hloose] Hr Hc Ha.
  destruct (odb_read_quietly (w_fs w) Hok dirs ess Hidx Hfiles Hloose odb c name Hr Hc w eq_refl Ha)
    as ([[r odb'] c'] & w' & E & R & C & K1 & K2 & K3).
  destruct (harmless _ _ _ E) as [Hro _]. exists r, odb', c', w'. split; [done|]. split; [done|].
  split; [by eapply ready_after|]. split; [destruct Hro as [-> _]; done|]. split; [done|]. split; [done|].
  destruct K3 as [[[o Eo] E0]|?]; [left; exists o; destruct r; cbn in *; by subst|by right].
Qed.

(* ------------------------------------------------------------------ *)
(** ** Witnesses *)

#[export] Instance list_readdir : Readdir := {| readdir := fun f dir => str "." :: str ".." :: children f dir; readdir_perm := fun f dir => reflexivity _ |}.

#[export] Instance next_mmap : Mmap := {| mmap_at := fresh; mmap_free := infinite_is_fresh |}.

(** A pack of one blob, and its index. *)
Definition shop_pack : list Z :=
  str "PACK" ++ [0; 0; 0; 2; 0; 0; 0; 1] ++ [0x3b; 11] ++ str "hello there" ++ replicate 20 7.
Definition shop_ents : list bgit_pack_idx_entry := [{| ie_sha := replicate 20 171; ie_crc := 5; ie_off := 12 |}].
Definition shop_idx : list Z := idx_layout shop_ents (replicate 40 9).
Definition shop_hex : list Z := bgit_sha_to_hex (replicate 20 171).

Definition dir_node : inode := {| i_dir := true; i_data := []; i_mtime := (0, 0) |}.
Definition file_node (data : list Z) : inode := {| i_dir := false; i_data := data; i_mtime := (0, 0) |}.

(** Two directories of objects: a loose one in the second, the pack in the
    first. *)
Definition shop_fs : fs :=
  {| names := list_to_map [(str "o/pack", 1%N); (str "o/pack/a.idx", 2%N); (str "o/pack/a.pack", 3%N);
       (fan_dir (str "p") (take 2 demo_hex), 1%N); (loose_file (str "p") demo_hex, 4%N)];
     inodes := list_to_map [(1%N, dir_node); (2%N, file_node shop_idx); (3%N, file_node shop_pack); (4%N, file_node demo_raw)] |}.

Definition world_of (f : fs) : world :=
  {| w_fs := f; w_fds := ∅; w_errno := 0; w_answers := []; w_temps := []; w_now := (0, 0); w_log := []; w_reports := [] |}.

Definition shop_dirs : list path := [str "o"; str "p"].

Lemma shop_inode i nd : inodes shop_fs !! i = Some nd -> nd ∈ [dir_node; file_node shop_idx; file_node shop_pack; file_node demo_raw].
Proof.
  intros Hi. apply elem_of_list_to_map_2 in Hi. apply (list_elem_of_fmap_2 snd) in Hi. exact Hi.
Qed.

Lemma shop_ok : fs_ok shop_fs.
Proof.
  intros q i Hq. apply elem_of_list_to_map_2 in Hq. apply (list_elem_of_fmap_2 snd) in Hq. cbn [fmap list_fmap snd] in Hq.
  rewrite !elem_of_cons, elem_of_nil in Hq. naive_solver.
Qed.

Lemma content_inode f q raw : content f q = Some raw -> exists i nd, inodes f !! i = Some nd /\ raw = i_data nd.
Proof.
  unfold content, lookup_inode. destruct (names f !! q) as [i|]; [|done]. cbn [mbind option_bind].
  destruct (inodes f !! i) as [nd|] eqn:Ei; [|done]. destruct (i_dir nd); [done|]. intros [= <-]. by exists i, nd.
Qed.

Lemma shop_content q raw : content shop_fs q = Some raw -> raw ∈ [[]; shop_idx; shop_pack; demo_raw].
Proof.
  intros (i & nd & Hi & ->)%content_inode. apply shop_inode in Hi.
  assert (Hdata : forall data, i_data (file_node data) = data) by done. rewrite !elem_of_cons, elem_of_nil in Hi. rewrite !elem_of_cons.
  destruct Hi as [->|[->|[->|[->|[]]]]]; [left; reflexivity|rewrite Hdata; right..];
    [|right|right; right]; left; reflexivity.
Qed.

Lemma shop_disk : disk shop_fs shop_dirs [shop_ents].
Proof.
  split; [exact shop_ok|]. assert (E : disk_packs shop_fs shop_dirs = [(str "o/pack/a.pack", shop_idx)]) by (vm_compute; reflexivity).
  rewrite E. constructor; [|constructor]. exists (replicate 40 9). split; [reflexivity|].
  split; [|split; [|split; [|split; [reflexivity|split; [reflexivity|split; [vm_compute; discriminate|split]]]]]].
  - repeat constructor; cbn [ie_sha ie_crc ie_off]; try solve_bytes; try lia.
  - repeat constructor.
  - solve_bytes.
  - apply NoDup_singleton.
  - repeat constructor. done.
Qed.

Lemma stored_fits raw : bytes raw -> len raw <= 10000 -> @fits stored_zlib raw.
Proof.
  intros Hb Hl. split; [unfold UINT_MAX; lia|]. intros data used [Hu [E Hd]].
  assert (Hlen : len data <= len raw).
  { apply (f_equal len) in E. rewrite len_cons, len_take in E. lia. }
  unfold room, UINT_MAX. lia.
Qed.

Lemma shop_bytes raw : raw ∈ [[]; shop_idx; shop_pack; demo_raw] -> bytes raw /\ len raw <= 10000.
Proof.
  rewrite !elem_of_cons, elem_of_nil. intros [->|[->|[->|[->|[]]]]]; (split; [solve_bytes|vm_compute; discriminate]).
Qed.

Lemma shop_small : @small stored_zlib shop_fs shop_dirs.
Proof.
  split.
  - intros q raw Hq. apply shop_content, shop_bytes in Hq as [Hb Hl]. split; [done|]. unfold UINT_MAX. lia.
  - intros d sha _ raw Hraw. apply shop_content, shop_bytes in Hraw as [Hb Hl]. split; [done|by apply stored_fits].
Qed.

Lemma cache_ok_empty `{Zlib} f odb : cache_ok f empty_cache odb.
Proof. destruct empty_cache_wf as [Hw Hb]. split; [done|done|]. intros a l off t d Hh. by apply empty_holds in Hh. Qed.

Definition shop : world := world_of shop_fs.
Definition shop_odb : bgit_odb := bgit_odb_open shop_dirs.

Lemma shop_ready : @ready insertion_qsort list_readdir shop_fs shop_dirs shop_odb.
Proof. apply ready_open. Qed.


(** Both objects are listed, in order. *)
Lemma odb_list_exact_witness : exists odb' w',
  @bgit_odb_list insertion_qsort list_readdir shop_odb shop = (Ret ([shop_hex; demo_hex], odb'), w') /\
  listed_loose shop_fs (str "p") demo_hex.
Proof.
  destruct (@odb_list_exact stored_zlib zero_malloc insertion_qsort list_readdir next_mmap shop_dirs [shop_ents] shop_odb shop
    shop_disk shop_ready eq_refl) as (ns & odb' & w' & E & _ & _ & _ & K).
  assert (Hrun : match (@bgit_odb_list insertion_qsort list_readdir shop_odb shop).1 with
    | Ret (ns, _) => ns = [shop_hex; demo_hex] | _ => False end) by (vm_compute; reflexivity).
  rewrite E in Hrun. exists odb', w'. rewrite E. split; [by rewrite Hrun|].
  destruct (proj1 (K demo_hex)) as [(d & Hd & Hl)|(es & e & He & He' & Hx)].
  - rewrite Hrun, !elem_of_cons. auto.
  - apply elem_of_cons in Hd as [->|Hd]; [|apply list_elem_of_singleton in Hd as ->; exact Hl].
    destruct Hl as (_ & _ & _ & _ & _ & _ & _ & _ & [i Hi]). exfalso. by vm_compute in Hi.
  - exfalso. apply list_elem_of_singleton in He as ->. apply list_elem_of_singleton in He' as ->. by vm_compute in Hx.
Defined.

(** The packed object is read through its abbreviation. *)
Lemma odb_read_exact_witness : exists odb' c' w',
  @bgit_odb_read stored_zlib zero_malloc insertion_qsort list_readdir next_mmap shop_odb empty_cache (str "ababa") shop =
    (Ret (0, Some (BGIT_BLOB, str "hello there"), odb', c'), w') /\
  exists sha, @stands_for list_readdir shop_fs shop_dirs [shop_ents] (str "ababa") sha /\
    @kept_as stored_zlib list_readdir shop_fs shop_dirs (@may_hold stored_zlib shop_fs) sha (BGIT_BLOB, str "hello there").
Proof.
  destruct (@odb_read_exact stored_zlib zero_malloc insertion_qsort list_readdir next_mmap shop_dirs [shop_ents] shop_odb empty_cache (str "ababa") shop
    shop_disk shop_small shop_ready (@cache_ok_empty stored_zlib _ _) eq_refl) as (r & odb' & c' & w' & E & _ & _ & _ & K & _).
  assert (Hrun : match (@bgit_odb_read stored_zlib zero_malloc insertion_qsort list_readdir next_mmap shop_odb empty_cache (str "ababa") shop).1 with
    | Ret (r, _, _) => r = (0, Some (BGIT_BLOB, str "hello there")) | _ => False end) by (vm_compute; reflexivity).
  rewrite E in Hrun. exists odb', c', w'. rewrite E. split; [by rewrite Hrun|]. by apply K.
Defined.

(** ** One object, kept twice

    An object loose in two directories, as when an alternate has it too, is one
    object in the list; its abbreviation is refused as ambiguous. *)
Definition twice_fs : fs :=
  {| names := list_to_map [(fan_dir (str "o") (take 2 demo_hex), 1%N); (loose_file (str "o") demo_hex, 2%N);
       (fan_dir (str "p") (take 2 demo_hex), 1%N); (loose_file (str "p") demo_hex, 2%N)];
     inodes := list_to_map [(1%N, dir_node); (2%N, file_node demo_raw)] |}.

Definition list_and_resolve (name : list Z) : io (list (list Z) * option (list Z)) :=
  let! r := @bgit_odb_list insertion_qsort list_readdir shop_odb in
  let '(ns, odb) := r in
  let! r := @bgit_odb_resolve insertion_qsort list_readdir odb name in
  iret (ns, fst r).

Lemma twice_ambiguous : let '(r, w) := list_and_resolve (take 7 demo_hex) (world_of twice_fs) in
  r = Ret ([demo_hex], None) /\ w_reports w = ["ambiguous argument '%s': unknown revision or object name"%string].
Proof. vm_compute. split; reflexivity. Qed.

(** ** A store opened after another

    The cache outlives the store whose packs it was filled from.  A second store,
    whose pack has the length and comes to be mapped at the address of the
    first's, reads an object of it through the first's base. *)
Definition delta_pack (base : string) : list Z :=
  str "PACK" ++ [0; 0; 0; 2; 0; 0; 0; 2] ++ [0x35; 5] ++ str base ++ [0x66; 7; 6; 5; 6; 0x90; 5; 1; 33] ++ replicate 20 7.

Definition delta_fs (base : string) : fs :=
  {| names := list_to_map [(str "o/pack", 1%N); (str "o/pack/a.idx", 2%N); (str "o/pack/a.pack", 3%N)];
     inodes := list_to_map [(1%N, dir_node);
       (2%N, file_node (idx_layout [{| ie_sha := replicate 20 171; ie_crc := 5; ie_off := 19 |}] (replicate 40 9)));
       (3%N, file_node (delta_pack base))] |}.

Definition read_in (odb : bgit_odb) (c : pack_cache) (base : string) : outcome (found * bgit_odb * pack_cache) :=
  fst (@bgit_odb_read stored_zlib zero_malloc insertion_qsort list_readdir next_mmap odb c shop_hex (world_of (delta_fs base))).

Definition read_one_then_other : option (found * found * found) :=
  match read_in (bgit_odb_open [str "o"]) empty_cache "hello" with
  | Ret (r1, odb, c) =>
      let odb := bgit_odb_release odb in
      match read_in (bgit_odb_open (str "o" :: object_dirs odb)) c "HELLO", read_in (bgit_odb_open [str "o"]) empty_cache "HELLO" with
      | Ret (r2, _, _), Ret (r3, _, _) => Some (r1, r2, r3)
      | _, _ => None
      end
  | _ => None
  end.

Lemma stale_after_release : read_one_then_other =
  Some ((0, Some (BGIT_BLOB, str "hello!")), (0, Some (BGIT_BLOB, str "hello!")), (0, Some (BGIT_BLOB, str "HELLO!"))).
Proof. vm_compute. reflexivity. Qed.
