(* ===== verification/PackFd.v ===== *)
(** * Reading packed objects through a descriptor (loadables/_git/pack.c, lines 907-1176)

    A pack too large to map is read with [pread], a header, a base distance or
    a piece of a zlib stream at a time; each read may be recorded as spans, for
    the later pass over the file (Hash) to check.  The theorems show that this
    reader gives only what the pack holds by the relation [resolves], so the
    same objects as the reader of mapped packs, and that every span it records
    tells the truth about the file. *)

From S2P Require Import Prelude Endian Odb Delta Sys CLib Hash IndexFile PackIdx Zlib PackObj PackCache PackRead.
#[local] Open Scope Z_scope.

(* ------------------------------------------------------------------ *)
(** ** Computations that record what they read

    The recording is a null pointer or the spans so far; failing keeps them. *)

Definition spans_ptr : Type := option (list bgit_fd_span).
Definition fdio (A : Type) : Type := spans_ptr -> io (option A * spans_ptr).

Definition fret {A} (a : A) : fdio A := fun sp => iret (Some a, sp).
Definition ffail {A} : fdio A := fun sp => iret (None, sp).

Definition fbind {A B} (m : fdio A) (k : A -> fdio B) : fdio B := fun sp =>
  let! r := m sp in
  let '(o, sp) := r in
  match o with
  | Some a => k a sp
  | None => iret (None, sp)
  end.

Notation "'let?' x := c1 'in' c2" := (fbind c1 (fun x => c2))
  (at level 10, x pattern, c1 at level 100, c2 at level 200,
   format "'[v' 'let?'  x  :=  c1  'in' '/' c2 ']'") : c_scope.

(** A pure step: a silent failure fails the computation. *)
Definition flift {A} (x : outcome A) : fdio A := fun sp =>
  match x with
  | Ret a => iret (Some a, sp)
  | Fail _ => iret (None, sp)
  | Fault => lift Fault
  end.

(* ------------------------------------------------------------------ *)
(** ** The reader *)

Record bgit_pack_fd := { pf_fd : Z; pf_size : Z }.

Fixpoint pread_loop (fuel : nat) (fd off n : Z) (out : list Z) : io (option (list Z)) :=
  match fuel with
  | O => lift Fault
  | S fuel' =>
      if len out <? n then
        let at_ := off + len out in
        if at_ >? LONG_MAX then let! _ := set_errno EOVERFLOW in iret None
        else
          let! a := sys_pread fd (n - len out) at_ in
          let '(r, data) := a in
          if r <? 0 then
            let! e := get_errno in
            if e =? EINTR then pread_loop fuel' fd off n out else iret None
          else if r =? 0 then let! _ := set_errno EIO in iret None
          else pread_loop fuel' fd off n (out ++ data)
      else iret (Some out)
  end.

Section Fd.
Context `{Zlib} `{Sha1dc}.

(** Where the buffer for the [n] bytes from [off] is. *)
Context (buffer_at : Z -> Z -> Z).

Definition bgit_pack_pread (src : bgit_pack_fd) (off n : Z) : fdio (list Z) := fun sp =>
  if n =? 0 then iret (Some [], sp)
  else if (off >? pf_size src) || (n >? pf_size src - off) then
    let! _ := set_errno EIO in iret (None, sp)
  else
    let! w := get_world in
    let! o := pread_loop (S (Z.to_nat n + length (w_answers w))) (pf_fd src) off n [] in
    match o, sp with
    | None, _ => iret (None, sp)
    | Some buf, None => iret (Some buf, sp)
    | Some buf, Some spans =>
        let! r := bgit_fd_spans_add spans (buffer_at off n) off buf in
        let '(rc, spans) := r in
        iret ((if rc <? 0 then None else Some buf), Some spans)
    end.

(** The header is at most ten bytes. *)
Definition bgit_pack_fd_header (src : bgit_pack_fd) (off : Z) : fdio (Z * Z * Z) :=
  if off >=? pf_size src then ffail
  else
    let n := if pf_size src - off >? 10 then 10 else pf_size src - off in
    let? buf := bgit_pack_pread src off n in
    let? h := flift (bgit_pack_read_obj_header buf 0) in
    let '(type, size, rel) := h in
    if rel >? UINT64_MAX - off then ffail else fret (type, size, off + rel).

(** The buffer's next capacity, when it is full. *)
Definition grow_cap (total cap limit : Z) : option Z :=
  if total =? cap then
    if cap >=? limit then None
    else
      let nc := if cap >? (SIZE_MAX - 4096) / 2 then limit else cap * 2 + 4096 in
      let nc := if nc >? limit then limit else nc in
      if nc <=? cap then None else Some nc
  else Some cap.

(** More input, when there is none left: the input, and where it ends. *)
Definition refill (src : bgit_pack_fd) (inp : list Z) (off consumed in_limit : Z) : fdio (list Z * Z * Z) :=
  if len inp =? 0 then
    if (consumed >=? in_limit) || (off >=? pf_size src) then ffail
    else
      let room := pf_size src - off in
      let allow := in_limit - consumed in
      let room := if room >? allow then allow else room in
      let chunk := if room >? 65536 then 65536 else room in
      if chunk =? 0 then ffail
      else
        let? inp := bgit_pack_pread src off chunk in
        fret (inp, off + chunk, consumed + chunk)
  else fret (inp, off, consumed).

Fixpoint inflate_fd_loop (fuel : nat) (src : bgit_pack_fd) (s : z_stream) (inp buf : list Z)
    (cap limit off consumed in_limit : Z) : fdio (list Z) :=
  match fuel with
  | O => flift Fault
  | S fuel' =>
      match grow_cap (len buf) cap limit with
      | None => ffail
      | Some cap =>
          let? r := refill src inp off consumed in_limit in
          let '(inp, off, consumed) := r in
          let '(rc, k, out, s) := inflate Z_NO_FLUSH s inp (uint_cap (cap - len buf)) in
          let rest := drop (Z.to_nat k) inp in
          if bool_decide (rc = Z_STREAM_END) then fret (buf ++ out)
          else if bool_decide (rc = Z_DATA_ERROR) then ffail
          else if (len out =? 0) && (len rest =? len inp) && (len rest >? 0) then ffail
          else inflate_fd_loop fuel' src s rest (buf ++ out) cap limit off consumed in_limit
      end
  end.

(** A turn of the loop reads or writes at least a byte, and at most 1032 are
    written per byte read. *)
Definition bgit_pack_inflate_fd (src : bgit_pack_fd) (off expected : Z) : fdio (list Z) :=
  if (off >? pf_size src) || (expected >? SIZE_MAX - 64) then ffail
  else if expected >? UINT64_MAX / 2 then ffail
  else
    let limit := expected + 64 in
    let limit := if limit <? 64 then 64 else limit in
    let in_limit := expected + expected / 8 + 1024 * 1024 in
    let cap := if limit <? 65536 then limit else 65536 in
    inflate_fd_loop (S (Z.to_nat (1033 * (pf_size src - off)))) src inflateInit [] [] cap limit off 0 in_limit.

Fixpoint fd_base_loop (fuel : nat) (src : bgit_pack_fd) (b base_off_delta iters cur : Z) : fdio (Z * Z) :=
  match fuel with
  | O => flift Fault
  | S fuel' =>
      if Z.land b 0x80 =? 0 then fret (base_off_delta, cur)
      else if cur >=? pf_size src then ffail
      else if iters >=? 9 then ffail
      else if base_off_delta >=? Z.shiftr UINT64_MAX 7 then ffail
      else
        let? next := bgit_pack_pread src cur 1 in
        let? b := flift (rd next 0) in
        fd_base_loop fuel' src b
          (Z.lor (u64 (Z.shiftl (base_off_delta + 1) 7)) (Z.land b 0x7F)) (iters + 1) (cur + 1)
  end.

Definition fd_base_off (src : bgit_pack_fd) (cur : Z) : fdio (Z * Z) :=
  if cur >=? pf_size src then ffail
  else
    let? next := bgit_pack_pread src cur 1 in
    let? b := flift (rd next 0) in
    fd_base_loop 10 src b (Z.land b 0x7F) 0 (cur + 1).

(** The stream at [cur], of the size the header gave. *)
Definition fd_data (src : bgit_pack_fd) (cur expected : Z) : fdio (list Z) :=
  let? data := bgit_pack_inflate_fd src cur expected in
  if negb (len data =? expected) then ffail else fret data.

(** The target of a delta over the base just read. *)
Definition fd_target (delta : list Z) (base : object) : fdio object :=
  let '(base_type, base) := base in
  let? out := flift (bgit_pack_apply_delta base delta) in
  fret (base_type, out).

Fixpoint bgit_pack_read_fd_at (fuel : nat) (src : bgit_pack_fd) (idx : list Z) (repo : option path)
    (off depth : Z) : fdio object :=
  match fuel with
  | O => flift Fault
  | S fuel' =>
      if depth >? BGIT_PACK_MAX_DELTA_DEPTH then ffail
      else
        let? h := bgit_pack_fd_header src off in
        let '(type, expected, cur) := h in
        if whole_type type then
          let? data := fd_data src cur expected in
          fret (type, data)
        else if type =? BGIT_PACK_OFS_DELTA then
          let? d := fd_base_off src cur in
          let '(base_off_delta, cur) := d in
          if (base_off_delta =? 0) || (base_off_delta >? off) then ffail
          else
            let? delta := fd_data src cur expected in
            let? base := bgit_pack_read_fd_at fuel' src idx repo (off - base_off_delta) (depth + 1) in
            fd_target delta base
        else if type =? BGIT_PACK_REF_DELTA then
          if (cur >? pf_size src) || (pf_size src - cur <? 20) then ffail
          else
            let? base_sha := bgit_pack_pread src cur 20 in
            let? delta := fd_data src (cur + 20) expected in
            let? base_off := flift (bgit_pack_lookup_offset idx base_sha) in
            let? base :=
              (if negb (base_off =? absent) then bgit_pack_read_fd_at fuel' src idx repo base_off (depth + 1)
               else fun sp =>
                 let! o := bgit_pack_read_loose (repo_path repo) (bgit_sha_to_hex base_sha) in
                 iret (o, sp)) in
            fd_target delta base
        else ffail
  end.

Definition bgit_pack_read_object_fd (fuel : nat) (fd pack_size : Z) (idx : list Z) (repo : option path)
    (off depth : Z) : fdio object :=
  bgit_pack_read_fd_at fuel {| pf_fd := fd; pf_size := pack_size |} idx repo off depth.
End Fd.

(* ------------------------------------------------------------------ *)
(** ** Reasoning about recorded reads *)

Section Triples.
Context `{Sha1dc} (fd : Z) (data : list Z) (f : fs).

Definition trust (sp : spans_ptr) : Prop :=
  match sp with None => True | Some spans => spans_honest data spans end.

(** Started on the file system [f] and the open file with honest spans, [m] only looks, leaves honest
    spans, ends, and gives only values that satisfy [P]. *)
Definition fdtriple {A} (R : world -> world -> Prop) (m : fdio A) (P : A -> Prop) : Prop :=
  forall w sp r w', w_fs w = f -> open_on fd data w -> trust sp -> m sp w = (r, w') ->
  R w w' /\ exists o sp', r = Ret (o, sp') /\ trust sp' /\ forall a, o = Some a -> P a.

Lemma fdtriple_ret {A} (a : A) (P : A -> Prop) : P a -> fdtriple looks_only (fret a) P.
Proof.
  intros HP w sp r w' _ _ Hsp HR. injection HR as <- <-. split; [apply looks_only_refl|].
  exists (Some a), sp. split_and!; try done. by intros ? [= <-].
Qed.

Lemma fdtriple_fail {A} (P : A -> Prop) : fdtriple looks_only ffail P.
Proof. intros w sp r w' _ _ Hsp HR. injection HR as <- <-. split; [apply looks_only_refl|]. by exists None, sp. Qed.

Lemma fdtriple_lift {A} (x : outcome A) (P : A -> Prop) : yields P x -> fdtriple looks_only (flift x) P.
Proof.
  intros Hy. destruct x as [a|m|]; [by apply (fdtriple_ret a)|apply (fdtriple_fail P)|done].
Qed.

Lemma fdtriple_bind {A B} (R : world -> world -> Prop) (m : fdio A) (k : A -> fdio B) (P : A -> Prop) (Q : B -> Prop) :
  (forall w, R w w) -> (forall w1 w2 w3, looks_only w1 w2 -> R w2 w3 -> R w1 w3) -> (forall w1 w2, looks_only w1 w2 -> R w1 w2) ->
  fdtriple looks_only m P -> (forall a, P a -> fdtriple R (k a) Q) -> fdtriple R (fbind m k) Q.
Proof.
  intros Hr Htr Hlr Hm Hk w sp r w' Hf Ho Hsp HR. unfold fbind, ibind in HR.
  destruct (m sp w) as [r1 w1] eqn:E. apply Hm in E as (Hlo & o & sp1 & -> & Hsp1 & HP); try done.
  destruct o as [a|].
  - destruct (Hk a (HP a eq_refl) w1 sp1 r w') as (Hr1 & Hres); try done; [destruct Hlo as [[E _] _]; congruence|by eapply open_on_looks|].
    split; [by eapply Htr|done].
  - injection HR as <- <-. split; [by apply Hlr|]. by exists None, sp1.
Qed.

Lemma fdtriple_seq {A B} (m : fdio A) (k : A -> fdio B) (P : A -> Prop) (Q : B -> Prop) :
  fdtriple looks_only m P -> (forall a, P a -> fdtriple looks_only (k a) Q) -> fdtriple looks_only (fbind m k) Q.
Proof. apply fdtriple_bind; eauto using looks_only_refl, looks_only_trans. Qed.

Lemma fdtriple_weaken {A} (m : fdio A) (P Q : A -> Prop) : (forall a, P a -> Q a) ->
  fdtriple looks_only m P -> fdtriple looks_only m Q.
Proof.
  intros HPQ Hm w sp r w' Hf Ho Hsp HR. destruct (Hm w sp r w' Hf Ho Hsp HR) as (Hlo & o & sp' & E & Hs & HP).
  split; [done|]. exists o, sp'. split_and!; auto.
Qed.

(** A computation whose last step may open other files. *)
Lemma fdtriple_last {A B} (m : fdio A) (k : A -> fdio B) (P : A -> Prop) (Q : B -> Prop) :
  fdtriple looks_only m P -> (forall a, P a -> fdtriple reads_only (k a) Q) -> fdtriple reads_only (fbind m k) Q.
Proof.
  apply fdtriple_bind; [apply reads_only_refl| |by intros ? ? []].
  intros w1 w2 w3 [Hr _] Hr2. by eapply reads_only_trans.
Qed.

Lemma fdtriple_reads {A} (m : fdio A) (P : A -> Prop) : fdtriple looks_only m P -> fdtriple reads_only m P.
Proof. intros Hm w sp r w' Hf Ho Hsp HR. destruct (Hm w sp r w' Hf Ho Hsp HR) as [[Hr _] Hx]. by split. Qed.

(** Pure steps after it. *)
Lemma fdtriple_then {A B} (m : fdio A) (k : A -> fdio B) (P : A -> Prop) (Q : B -> Prop) :
  fdtriple reads_only m P ->
  (forall a, P a -> forall sp w, trust sp -> exists o, k a sp w = (Ret (o, sp), w) /\ forall b, o = Some b -> Q b) ->
  fdtriple reads_only (fbind m k) Q.
Proof.
  intros Hm Hk w sp r w' Hf Ho Hsp HR. unfold fbind, ibind in HR.
  destruct (m sp w) as [r1 w1] eqn:E. apply Hm in E as (Hro & o & sp1 & -> & Hsp1 & HP); try done.
  destruct o as [a|].
  - destruct (Hk a (HP a eq_refl) sp1 w1 Hsp1) as (o & Ek & HQ). rewrite Ek in HR. injection HR as <- <-.
    split; [done|]. by exists o, sp1.
  - injection HR as <- <-. split; [done|]. by exists None, sp1.
Qed.
End Triples.

(* ------------------------------------------------------------------ *)
(** ** The pieces read what the pack holds *)

Section Sound.
Context `{Zlib} `{Sha1dc} (buffer_at : Z -> Z -> Z) (src : bgit_pack_fd) (data : list Z) (f : fs).
Hypotheses (Hbytes : bytes data) (Hmax : len data <= UINT64_MAX) (Hsize : 0 <= pf_size src).

Definition fd_pack : list Z := take (Z.to_nat (pf_size src)) data.

#[local] Abbreviation triple := (fdtriple (pf_fd src) data f looks_only).

Lemma len_fd_pack : len fd_pack = Z.min (pf_size src) (len data).
Proof. unfold fd_pack. rewrite len_take. lia. Qed.

Lemma fd_pack_bytes : bytes fd_pack.
Proof. by apply Forall_take. Qed.

Lemma slice_fd_pack off n : 0 <= off -> 0 <= n -> off + n <= pf_size src -> slice fd_pack off n = slice data off n.
Proof.
  intros. unfold fd_pack. rewrite (slice_take _ off n), take_take by lia. rewrite (slice_take data) by lia. f_equal. f_equal. lia.
Qed.

Lemma pread_loop_spec fuel off n : 0 <= off -> 0 <= n -> forall out w r w',
  (Z.to_nat (n - len out) + length (w_answers w) < fuel)%nat -> out = slice data off (len out) -> len out <= n ->
  (0 < len out -> off + len out <= len data) -> open_on (pf_fd src) data w -> pread_loop fuel (pf_fd src) off n out w = (r, w') ->
  looks_only w w' /\ exists o, r = Ret o /\ forall buf, o = Some buf -> buf = slice data off n /\ (0 < n -> off + n <= len data).
Proof.
  intros Ho Hn. induction fuel as [|fuel IH]; intros out w r w' Hf Eout Hl Hd Hopen HR; [lia|].
  cbn [pread_loop] in HR. pose proof (len_nonneg out). case_if_in HR.
  2:{ injection HR as <- <-. split; [apply looks_only_refl|]. exists (Some out). split; [done|]. intros buf [= <-].
      assert (len out = n) as E by lia. rewrite <- E. by split. }
  case_if_in HR; [injection HR as <- <-; split; [by repeat split|by exists None]|].
  unfold ibind at 1 in HR. destruct (sys_pread _ _ _ w) as [r1 w1] eqn:Er.
  eapply pread_cases in Er as (Hlo & Ha & Hcase); [|lia|exact Hopen].
  destruct Hcase as [[-> Hne]|(k & -> & Hk & Hk0 & _)].
  - cbn -[pread_loop] in HR. destruct (w_errno w1 =? EINTR); cbn -[pread_loop] in HR.
    + apply IH in HR as (Hlo' & Hres); try done; [|rewrite Ha; pose proof (tail_shorter _ Hne); lia|by eapply open_on_looks].
      split; [by eapply looks_only_trans|done].
    + injection HR as <- <-. split; [done|by exists None].
  - destruct (slice_short data (off + len out) k ltac:(lia)) as [Hlen Hsl].
    set (chunk := take k (drop (Z.to_nat (off + len out)) data)) in *.
    rewrite (proj2 (Z.ltb_ge (len chunk) 0)) in HR by apply len_nonneg. pose proof (len_nonneg chunk).
    case_if_in HR.
    + injection HR as <- <-. split; [eapply looks_only_trans; [exact Hlo|by repeat split]|by exists None].
    + apply IH in HR as (Hlo' & Hres); [split; [by eapply looks_only_trans|done]| | | | |by eapply open_on_looks]; rewrite ?len_app.
      * rewrite Ha. pose proof (tail_le (w_answers w)). lia.
      * rewrite <- slice_app by lia. by rewrite <- Eout, <- Hsl.
      * lia.
      * lia.
Qed.

Lemma pread_spec off n : 0 <= off -> 0 <= n ->
  triple (bgit_pack_pread buffer_at src off n) (fun buf => buf = slice fd_pack off n /\ (0 < n -> off + n <= len fd_pack)).
Proof.
  intros Ho Hn w sp r w' _ Hopen Hsp HR. unfold bgit_pack_pread in HR. case_if_in HR.
  { injection HR as <- <-. split; [apply looks_only_refl|]. exists (Some []), sp. split_and!; try done.
    intros a [= <-]. rewrite slice_nil by lia. split; [done|lia]. }
  case_if_in HR; [injection HR as <- <-; split; [by repeat split|by exists None, sp]|].
  assert (Hin : off + n <= pf_size src) by lia.
  unfold ibind at 1, get_world in HR. unfold ibind at 1 in HR.
  destruct (pread_loop _ (pf_fd src) off n [] w) as [r1 w1] eqn:E.
  apply pread_loop_spec in E as (Hlo & o & -> & Hb); try done; [|change (len (@nil Z)) with 0; lia..].
  destruct o as [buf|]; [|injection HR as <- <-; split; [done|by exists None, sp]].
  destruct (Hb _ eq_refl) as [-> Hd]. specialize (Hd ltac:(lia)).
  assert (Hpost : slice data off n = slice fd_pack off n /\ (0 < n -> off + n <= len fd_pack)).
  { rewrite slice_fd_pack by lia. split; [done|]. rewrite len_fd_pack. lia. }
  destruct sp as [spans|].
  - unfold ibind, bgit_fd_spans_add in HR.
    destruct (spans_add_loop _ spans (buffer_at off n) off (slice data off n) w1) as [r2 w2] eqn:E2.
    apply (spans_add_spec data) in E2 as (Hlo2 & _ & rc & more & -> & Hrc & Hh & _); try done; try lia.
    + injection HR as <- <-. split; [by eapply looks_only_trans|]. exists (if rc <? 0 then None else Some (slice data off n)), (Some (spans ++ more)).
      split_and!; try done. intros a. case_if; [done|]. by intros [= <-].
    + pose proof (len_slice data off n ltac:(lia) ltac:(lia) ltac:(lia)). unfold len in *. lia.
  - injection HR as <- <-. split; [done|]. exists (Some (slice data off n)), None. split_and!; try done. by intros a [= <-].
Qed.

Lemma rd_slice b off n i : 0 <= off -> 0 <= i < n -> off + n <= len b -> rd (slice b off n) i = rd b (off + i).
Proof.
  intros. unfold rd. rewrite len_slice by lia. repeat if_true. f_equal. unfold slice.
  rewrite !nth_lookup, lookup_take_lt, lookup_drop by lia. do 2 f_equal. lia.
Qed.

(** A header read in a window is the header of the pack. *)
Lemma header_loop_window b off n : 0 <= off -> off + n <= len b -> forall fuel c size shift iters o sz o', 0 <= o ->
  header_loop fuel (slice b off n) c size shift iters o = Ret (sz, o') ->
  header_loop fuel b c size shift iters (off + o) = Ret (sz, off + o').
Proof.
  intros Ho Hn. induction fuel as [|fuel IH]; intros c size shift iters o sz o' Hoo; cbn [header_loop]; [done|].
  case_if; [by intros [= <- <-]|]. case_if; [done|]. intros E.
  assert (Hon : o < n).
  { destruct (Z.lt_ge_cases n 0); [rewrite slice_nil in * by lia; change (len (@nil Z)) with 0 in *; lia|].
    rewrite len_slice in * by lia. lia. }
  geb_false (off + o) (len b).
  destruct ((iters >=? 9) || (shift >=? 64)); [done|]. rewrite rd_slice in E by lia.
  destruct (rd b (off + o)) as [c'| |]; [|done..]. cbn [obind] in *.
  destruct (Z.land c' 127 >? Z.shiftr UINT64_MAX shift); [done|].
  apply IH in E; [|lia]. by rewrite <- Z.add_assoc.
Qed.

Lemma fd_header_spec off : 0 <= off ->
  triple (bgit_pack_fd_header buffer_at src off)
    (fun h => bgit_pack_read_obj_header fd_pack off = Ret h /\ off < snd h <= len fd_pack).
Proof.
  intros Ho. unfold bgit_pack_fd_header. case_if; [apply fdtriple_fail|].
  set (n := if pf_size src - off >? 10 then 10 else pf_size src - off).
  assert (Hn : 0 < n <= pf_size src - off) by (unfold n; case_if; lia).
  eapply fdtriple_seq; [apply pread_spec; lia|]. intros buf [-> Hlen]. specialize (Hlen ltac:(lia)).
  destruct (bgit_pack_read_obj_header (slice fd_pack off n) 0) as [[[type size] rel]|m|] eqn:E.
  - eapply fdtriple_seq; [apply (fdtriple_ret _ _ _ _ (fun h => h = (type, size, rel)) eq_refl)|]. intros h ->.
    case_if; [apply fdtriple_fail|]. apply fdtriple_ret. cbn [snd].
    assert (Eh : bgit_pack_read_obj_header fd_pack off = Ret (type, size, off + rel)).
    { unfold bgit_pack_read_obj_header in *. rewrite len_slice in E by lia. revert E. geb_false 0 n.
      geb_false off (len fd_pack). intros E.
      rewrite rd_slice in E by lia. rewrite Z.add_0_r in E. destruct (rd fd_pack off) as [c| |]; [|done..].
      cbn [obind] in *. destruct (header_loop 10 (slice fd_pack off n) _ _ 4 0 (0 + 1)) as [[sz o']| |] eqn:El; [|done..].
      apply header_loop_window in El; [|lia..]. rewrite Z.add_0_l in El. rewrite El. cbn [obind] in *.
      by injection E as <- <- <-. }
    split; [done|]. pose proof (read_header_yields fd_pack off fd_pack_bytes Ho) as Hy. rewrite Eh in Hy. exact Hy.
  - eapply fdtriple_seq; [apply (fdtriple_fail _ _ _ (fun _ => False))|done].
  - pose proof (read_header_yields (slice fd_pack off n) 0 (bytes_slice _ _ _ fd_pack_bytes) ltac:(lia)) as Hy. by rewrite E in Hy.
Qed.

Lemma pread_byte {B} cur (k : Z -> fdio B) (Q : B -> Prop) : 0 <= cur ->
  (forall b, rd fd_pack cur = Ret b -> cur < len fd_pack -> triple (k b) Q) ->
  triple (let? next := bgit_pack_pread buffer_at src cur 1 in let? b := flift (rd next 0) in k b) Q.
Proof.
  intros Hc Hk. eapply fdtriple_seq; [apply pread_spec; lia|]. intros next [-> Hlen]. specialize (Hlen ltac:(lia)).
  rewrite rd_slice, Z.add_0_r by lia. rewrite (rd_ok fd_pack cur) by lia.
  eapply fdtriple_seq; [apply (fdtriple_ret _ _ _ _ (fun b => b = nth (Z.to_nat cur) fd_pack 0) eq_refl)|].
  intros b ->. apply Hk; [by rewrite (rd_ok fd_pack cur) by lia|lia].
Qed.

Lemma fd_base_loop_spec fuel : forall b d iters cur, 0 <= cur -> 10 <= Z.of_nat fuel + iters -> (0 < fuel)%nat ->
  triple (fd_base_loop buffer_at fuel src b d iters cur) (fun r => base_off_loop fuel fd_pack b d iters cur = Ret r).
Proof.
  induction fuel as [|fuel IH]; intros b d iters cur Hc Hf Hf0; [lia|]. cbn [fd_base_loop base_off_loop].
  case_if; [by apply fdtriple_ret|]. case_if; [apply fdtriple_fail|].
  case_if; [apply fdtriple_fail|]. case_if; [apply fdtriple_fail|].
  apply pread_byte; [done|]. intros c Ec Hcl. rewrite Ec. cbn [obind].
  geb_false cur (len fd_pack).
  apply IH; lia.
Qed.

Lemma fd_base_off_spec cur : 0 <= cur ->
  triple (fd_base_off buffer_at src cur) (fun r => read_base_off fd_pack cur = Ret r).
Proof.
  intros Hc. unfold fd_base_off, read_base_off. case_if; [apply fdtriple_fail|].
  apply pread_byte; [done|]. intros c Ec Hcl. rewrite Ec. cbn [obind].
  geb_false cur (len fd_pack).
  apply fd_base_loop_spec; lia.
Qed.

Lemma grow_cap_le total cap limit cap' : total <= cap -> grow_cap total cap limit = Some cap' -> total <= cap'.
Proof.
  intros Hle. unfold grow_cap. case_if; [|by intros [= <-]]. case_if; [done|].
  set (nc := if (if cap >? (SIZE_MAX - 4096) / 2 then limit else cap * 2 + 4096) >? limit then limit
    else if cap >? (SIZE_MAX - 4096) / 2 then limit else cap * 2 + 4096). case_if; [done|]. intros [= <-]. lia.
Qed.

(** How far the pass over one stream is: [inp] holds what was read and not yet
    inflated, the [len inp] bytes before [off0 + consumed]. *)
Definition holding (off0 consumed : Z) (inp : list Z) : Prop :=
  inp = slice fd_pack (off0 + (consumed - len inp)) (len inp) /\ 0 <= consumed - len inp /\ off0 + consumed <= len fd_pack.

Lemma refill_spec off0 inp consumed in_limit : 0 <= off0 -> holding off0 consumed inp ->
  triple (refill buffer_at src inp (off0 + consumed) consumed in_limit)
    (fun '(inp', off', consumed') => off' = off0 + consumed' /\ consumed' - len inp' = consumed - len inp /\
       holding off0 consumed' inp' /\ 0 < len inp').
Proof.
  intros Ho Hh. unfold refill. pose proof (len_nonneg inp). case_if; cycle 1.
  { apply fdtriple_ret. split_and!; (done || lia). }
  case_if; [apply fdtriple_fail|].
  set (room := if pf_size src - (off0 + consumed) >? in_limit - consumed then in_limit - consumed else pf_size src - (off0 + consumed)).
  assert (Hroom : 0 < room <= pf_size src - (off0 + consumed)) by (unfold room; case_if; lia).
  set (chunk := if room >? 65536 then 65536 else room).
  assert (Hch : 0 < chunk <= room) by (unfold chunk; case_if; lia).
  destruct Hh as (_ & Hc0 & Hd). case_if; [apply fdtriple_fail|].
  eapply fdtriple_seq; [apply pread_spec; lia|]. intros buf [-> Hlen]. specialize (Hlen ltac:(lia)).
  apply fdtriple_ret. unfold holding. rewrite len_slice by lia. split_and!; try lia. f_equal. lia.
Qed.

Lemma inflate_fd_loop_spec off0 limit in_limit fuel : 0 <= off0 -> forall s inp buf cap consumed,
  inflating s (slice fd_pack off0 (consumed - len inp)) buf -> bytes buf -> len buf <= cap -> holding off0 consumed inp ->
  (pf_size src - off0 - (consumed - len inp)) + (1032 * (pf_size src - off0) - len buf) < Z.of_nat fuel ->
  triple (inflate_fd_loop buffer_at fuel src s inp buf cap limit (off0 + consumed) consumed in_limit)
    (fun d => (exists used, stream_at (drop (Z.to_nat off0) fd_pack) d used) /\ bytes d).
Proof.
  intros Ho. pose proof len_fd_pack as Hlp. pose proof (len_nonneg fd_pack).
  induction fuel as [|fuel IH]; intros s inp buf cap consumed Hs Hbuf Hcap Hh Hf.
  { destruct Hh as (_ & Hc & Hd). apply inflate_ratio in Hs. pose proof (len_nonneg inp). rewrite len_slice in Hs by lia. lia. }
  cbn [inflate_fd_loop]. destruct (grow_cap (len buf) cap limit) as [cap'|] eqn:Eg; [|apply fdtriple_fail].
  apply grow_cap_le in Eg; [|done]. clear cap Hcap.
  eapply fdtriple_seq; [by apply refill_spec|]. intros [[inp' off'] consumed'] (-> & Econs & Hh' & Hpos).
  rewrite <- Econs in Hs, Hf. clear inp consumed Econs Hh. destruct Hh' as (Einp & Hc & Hd).
  destruct (uint_cap_range (cap' - len buf)) as [Hcap _]; [lia|].
  destruct (inflate Z_NO_FLUSH s inp' (uint_cap (cap' - len buf))) as [[[rc k] out] s'] eqn:E.
  assert (Hbi : bytes inp') by (rewrite Einp; apply bytes_slice, fd_pack_bytes).
  eapply inflate_step in E as (Hk & Hout & Hbo & Hs' & Hend); [|exact Hs|exact Hbi|lia].
  assert (Etake : slice fd_pack off0 (consumed' - len inp') ++ take (Z.to_nat k) inp' =
    slice fd_pack off0 (consumed' - len inp' + k)).
  { rewrite Einp at 2. rewrite take_slice by lia. apply slice_app; lia. }
  rewrite Etake in Hs', Hend. assert (Hbb : bytes (buf ++ out)) by (by apply Forall_app).
  case_bool_decide as Hrc.
  { apply fdtriple_ret. split; [|done]. exists (consumed' - len inp' + k). split; [rewrite len_drop; lia|]. by apply Hend. }
  case_bool_decide; [apply fdtriple_fail|].
  assert (Hrest : len (drop (Z.to_nat k) inp') = len inp' - k) by (rewrite len_drop; lia). rewrite Hrest.
  pose proof (len_nonneg out). destruct (_ && _ && _) eqn:Hstuck; [apply fdtriple_fail|].
  assert (Hprog : 0 < k + len out).
  { destruct (Z.eq_dec k 0) as [->|]; [|lia]. destruct (Z.eq_dec (len out) 0) as [E0|]; [|lia].
    rewrite E0, Z.sub_0_r, Z.eqb_refl in Hstuck. simpl in Hstuck. rewrite Z.eqb_refl, Z.gtb_ltb in Hstuck.
    apply Z.ltb_ge in Hstuck. lia. }
  apply IH; rewrite ?Hrest; [|done|rewrite len_app; lia| |rewrite len_app; lia].
  - by replace (consumed' - (len inp' - k)) with (consumed' - len inp' + k) by lia.
  - unfold holding. rewrite Hrest. split; [|split; lia]. rewrite Einp at 1. rewrite drop_slice by lia. f_equal; lia.
Qed.

Lemma inflate_fd_spec off expected : 0 <= off <= len fd_pack ->
  triple (bgit_pack_inflate_fd buffer_at src off expected)
    (fun d => (exists used, stream_at (drop (Z.to_nat off) fd_pack) d used) /\ bytes d).
Proof.
  intros Ho. pose proof len_fd_pack. unfold bgit_pack_inflate_fd. case_if; [apply fdtriple_fail|].
  case_if; [apply fdtriple_fail|]. cbn zeta.
  set (cap := if _ <? 65536 then _ else 65536). rewrite <- (Z.add_0_r off) at 2.
  apply inflate_fd_loop_spec; change (len (@nil Z)) with 0.
  - lia.
  - rewrite slice_nil by lia. apply inflating_init.
  - constructor.
  - unfold cap. repeat case_if; lia.
  - split_and!; [by rewrite slice_nil by done|change (len (@nil Z)) with 0; lia|lia].
  - lia.
Qed.

Lemma fd_data_spec cur expected : 0 <= cur <= len fd_pack -> triple (fd_data buffer_at src cur expected)
  (fun d => (exists used, stream_at (drop (Z.to_nat cur) fd_pack) d used) /\ len d = expected /\ bytes d).
Proof.
  intros Hc. unfold fd_data. eapply fdtriple_seq; [by apply inflate_fd_spec|]. intros d [Hst Hb].
  case_if; [apply fdtriple_fail|]. by apply fdtriple_ret.
Qed.

(** *** The object *)

Section Read.
Context (idx : list Z) (repo : option path).
Hypotheses (Hidx : bytes idx) (Hok : fs_ok f) (Hfiles : forall q raw, content f q = Some raw -> bytes raw).

Definition holds_at (off : Z) (o : object) : Prop := exists n, held fd_pack idx repo f off n o.

(** The base of a thin delta comes from the loose objects. *)
Lemma fd_loose_spec sha : 
  fdtriple (pf_fd src) data f reads_only
    (fun sp => let! o := bgit_pack_read_loose (repo_path repo) (bgit_sha_to_hex sha) in iret (o, sp))
    (fun o => loose_cut f (repo_path repo) sha o).
Proof.
  intros w sp r w' Hf _ Hsp HR. unfold ibind in HR.
  destruct (bgit_pack_read_loose _ _ w) as [r1 w1] eqn:E. rewrite <- Hf in Hok, Hfiles.
  apply read_loose_sound in E as (Hro & o & -> & Hl); [|done..]. injection HR as <- <-.
  split; [done|]. exists o, sp. split_and!; try done. intros a Ha. destruct (Hl a Ha) as (raw & k & Hc & Hh).
  exists raw, k. by rewrite <- Hf.
Qed.

(** Applying the delta to a base that may be relied on. *)
Lemma fd_target_step delta (P : object -> Prop) (Q : object -> Prop) (m : fdio object) : bytes delta ->
  (forall type base out, P (type, base) -> bgit_pack_apply_delta base delta = Ret out -> Q (type, out)) ->
  fdtriple (pf_fd src) data f reads_only m P ->
  fdtriple (pf_fd src) data f reads_only (let? base := m in fd_target delta base) Q.
Proof.
  intros Hb Hstep Hm. eapply fdtriple_then; [exact Hm|]. intros [type base] HP sp w _. unfold fd_target, fbind, flift.
  pose proof (yields_safe _ _ (apply_delta_yields base delta Hb)) as Hs.
  destruct (bgit_pack_apply_delta base delta) as [out|m'|] eqn:E; [| |done].
  - exists (Some (type, out)). split; [done|]. intros b [= <-]. by eapply Hstep.
  - exists None. by split.
Qed.

Lemma read_fd_spec fuel : forall off depth, 0 <= off -> 51 - depth < Z.of_nat fuel -> (0 < fuel)%nat ->
  fdtriple (pf_fd src) data f reads_only (bgit_pack_read_fd_at buffer_at fuel src idx repo off depth) (holds_at off).
Proof.
  induction fuel as [|fuel IH]; intros off depth Ho Hd Hd0; [lia|]. cbn [bgit_pack_read_fd_at].
  unfold BGIT_PACK_MAX_DELTA_DEPTH. case_if; [apply fdtriple_reads, fdtriple_fail|].
  eapply fdtriple_last; [by apply fd_header_spec|]. intros [[type expected] cur] [Eh Hcur]. cbn [snd] in Hcur.
  pose proof fd_pack_bytes as Hbp. case_if.
  { eapply fdtriple_last; [apply fd_data_spec; lia|]. intros d ((used & Hst) & <- & _).
    apply fdtriple_reads, fdtriple_ret. exists O. by eapply resolves_whole. }
  case_if.
  { subst type. eapply fdtriple_last; [apply fd_base_off_spec; lia|]. intros [d cur'] Ed.
    case_if; [apply fdtriple_reads, fdtriple_fail|].
    pose proof (read_base_off_yields fd_pack cur Hbp ltac:(lia)) as Hy. rewrite Ed in Hy. cbn in Hy.
    eapply fdtriple_last; [apply fd_data_spec; lia|]. intros delta ((used & Hst) & <- & Hbd).
    assert (Hd2 : 0 < d <= off) by lia.
    eapply (fd_target_step delta (holds_at (off - d))); [done| |apply IH; lia].
    intros type base out [n Hn] Ha. exists (S n). eapply resolves_ofs; try done. apply read_base_off_exact; [done|lia|done]. }
  case_if; [|apply fdtriple_reads, fdtriple_fail]. subst type.
  case_if; [apply fdtriple_reads, fdtriple_fail|].
  eapply fdtriple_last; [apply pread_spec; lia|]. intros sha [Esha Hlen]. specialize (Hlen ltac:(lia)).
  assert (Hsha : rdn fd_pack cur 20 = Ret sha) by (subst sha; apply rdn_slice; lia). clear Esha.
  assert (Hoid : oid sha) by (split; [by eapply rdn_len|exact (rdn_bytes _ _ _ _ Hbp Hsha)]).
  eapply fdtriple_last; [apply fd_data_spec; lia|]. intros delta ((used & Hst) & <- & Hbd).
  pose proof (lookup_yields idx sha Hidx Hoid) as Hlk.
  destruct (bgit_pack_lookup_offset idx sha) as [boff|m|] eqn:Eoff; [| |done].
  2:{ eapply fdtriple_last; [apply (fdtriple_fail _ _ _ (fun _ => False))|done]. }
  cbn in Hlk. eapply fdtriple_last; [apply (fdtriple_ret _ _ _ _ (fun x => x = boff) eq_refl)|]. intros ? ->.
  destruct (Z.eqb_spec boff absent) as [->|Hne]; cbn [negb].
  - eapply (fd_target_step delta (loose_cut f (repo_path repo) sha)); [done| |apply fd_loose_spec].
    intros type base out Hl Ha. exists O. by eapply resolves_thin.
  - eapply (fd_target_step delta (holds_at boff)); [done| |apply IH; lia].
    intros type base out [n Hn] Ha. exists (S n). by eapply resolves_ref.
Qed.
End Read.
End Sound.

(* ------------------------------------------------------------------ *)
(** ** The reader's contract *)

(** [C15] (refinement) Reading an object through a descriptor always ends,
    changes no file and loads nothing outside its buffers, whatever the file,
    the index and the kernel do.  What it answers is the one object the first
    [size] bytes of the file hold at the offset, so what a reader of the mapped
    pack answers; and a later pass over the unchanged file never takes a
    recorded read for a change. *)
Theorem read_fd_sound `{Zlib} `{Sha1dc} `{Qsort} buffer_at fuel fd size idx repo off depth data sp w :
  bytes data -> len data <= UINT64_MAX -> 0 <= size -> bytes idx -> fs_ok (w_fs w) ->
  (forall q raw, content (w_fs w) q = Some raw -> bytes raw) ->
  open_on fd data w -> trust data sp -> 0 <= off -> 0 <= depth -> 51 < Z.of_nat fuel ->
  exists o sp' w', bgit_pack_read_object_fd buffer_at fuel fd size idx repo off depth sp w = (Ret (o, sp'), w') /\
    reads_only w w' /\
    (forall x, o = Some x -> (exists n, held (take (Z.to_nat size) data) idx repo (w_fs w) off n x) /\
       forall n y, held (take (Z.to_nat size) data) idx repo (w_fs w) off n y -> y = x) /\
    (forall spans win_addr n w1 d sorted changed w2, sp' = Some spans -> open_on fd data w1 -> 0 <= n ->
       bgit_sha1_fd win_addr fd n spans w1 = (Ret (Some d, sorted, changed), w2) -> changed = false).
Proof.
  intros Hb Hm Hs Hi Hok Hfiles Hopen Hsp Ho Hd Hf.
  destruct (bgit_pack_read_object_fd buffer_at fuel fd size idx repo off depth sp w) as [r w'] eqn:E.
  unfold bgit_pack_read_object_fd in E.
  eapply (read_fd_spec buffer_at {| pf_fd := fd; pf_size := size |} data (w_fs w)) in E
    as (Hro & o & sp' & -> & Hsp' & Hx); try done; try lia.
  exists o, sp', w'. split; [done|]. split; [done|]. split.
  - intros x ->. destruct (Hx _ eq_refl) as [n Hn]. split; [by exists n|].
    intros m y Hy. exact (held_unique _ _ _ _ _ _ _ _ _ Hn Hy).
  - intros spans win_addr n w1 d sorted changed w2 -> Ho1 Hn E2. cbn in Hsp'.
    eapply (sha1_fd_run win_addr fd n spans data) in E2 as (_ & d' & s' & c' & [= <- <- <-] & _ & Hdig & _); try done.
    + destruct (Hdig _ eq_refl) as (_ & _ & _ & Hc). apply Hc. eapply Forall_impl; [exact Hsp'|]. by intros s [_ ?].
    + eapply Forall_impl; [exact Hsp'|]. by intros s [? _].
Qed.

(* ------------------------------------------------------------------ *)
(** ** Witnesses *)

(** A kernel that gives the pack in pieces, and is interrupted. *)
Definition pieces : list answer := [Short 1; Errno EINTR; Short 2; Proceed; Short 3].

Lemma fd_demo_fs_ok answers : fs_ok (w_fs (fd_world demo_pack answers)).
Proof. intros p i Hp. cbn in Hp. by rewrite lookup_empty in Hp. Qed.

Lemma demo_files answers q raw : content (w_fs (fd_world demo_pack answers)) q = Some raw -> bytes raw.
Proof. unfold content, lookup_inode. cbn. by rewrite lookup_empty. Qed.

Lemma read_fd_sound_witness : exists sp' w',
  @bgit_pack_read_object_fd stored_zlib plain_sha1dc (fun off n => off + n) 52 3 (len demo_pack) [] None 19 0 (Some [])
    (fd_world demo_pack pieces) = (Ret (Some (BGIT_PACK_BLOB, str "hello!"), sp'), w') /\
  exists n, @held stored_zlib demo_pack [] None (w_fs (fd_world demo_pack pieces)) 19 n (BGIT_PACK_BLOB, str "hello!").
Proof.
  destruct (@read_fd_sound stored_zlib plain_sha1dc insertion_qsort (fun off n => off + n) 52 3 (len demo_pack) [] None 19 0
    demo_pack (Some []) (fd_world demo_pack pieces)) as (o & sp' & w' & E & _ & Hx & _);
    [solve_bytes|vm_compute; discriminate|vm_compute; discriminate|solve_bytes|apply fd_demo_fs_ok|apply demo_files
    |apply fd_world_open|constructor|lia|lia|lia|].
  assert (Hrun : match (@bgit_pack_read_object_fd stored_zlib plain_sha1dc (fun off n => off + n) 52 3 (len demo_pack) [] None
      19 0 (Some []) (fd_world demo_pack pieces)).1 with
    | Ret (o, _) => o = Some (BGIT_PACK_BLOB, str "hello!") | _ => False end) by (vm_compute; reflexivity).
  rewrite E in Hrun. cbn [fst] in Hrun. exists sp', w'. split; [by rewrite E, Hrun|]. exact (proj1 (Hx _ Hrun)).
Defined.
