(* ===== verification/PackStream.v ===== *)
(** * Receiving a pack (loadables/_git/pack.c, lines 1236-1251, 1289-1379)

    A pack sent over a connection does not say how long it is: the reader walks
    its objects as they arrive, and takes a header or a stream that runs off
    the end of what it has for one still on its way.  The theorems show that it
    takes exactly the bytes of one pack off the front of what was sent, however
    the kernel cuts them up, and that it always ends. *)

From S2P Require Import Prelude Endian Odb Delta Sys CLib Hash IndexFile PackIdx Zlib PackObj PackCache PackRead PackFd.
#[local] Open Scope Z_scope.

(* ------------------------------------------------------------------ *)
(** ** Growing buffers *)

Fixpoint double_loop (fuel : nat) (cap want : Z) : Z :=
  match fuel with
  | O => cap
  | S fuel' => if want >? cap then double_loop fuel' (cap * 2) want else cap
  end.

(** The bytes and the capacity.  Sixty-four doublings pass any size. *)
Definition bgit_pack_buf_append (out : list Z) (cap : Z) (p : list Z) : list Z * Z :=
  let cap :=
    if len out + len p >? cap
    then double_loop 64 (if negb (cap =? 0) then cap * 2 else 4096) (len out + len p)
    else cap in
  (out ++ p, cap).

(** [read], again when it is interrupted. *)
Fixpoint read_again (fuel : nat) (fd n : Z) : io (Z * list Z) :=
  match fuel with
  | O => lift Fault
  | S fuel' =>
      let! a := sys_read fd n in
      let '(got, data) := a in
      if got <? 0 then
        let! e := get_errno in
        if e =? EINTR then read_again fuel' fd n else iret (-1, [])
      else iret (got, data)
  end.

(** How many bytes arrived, and the buffer with its capacity. *)
Definition bgit_pack_stream_more (fd : Z) (buf : list Z) (cap : Z) : io (Z * list Z * Z) :=
  let cap :=
    if len buf + 65536 >? cap
    then double_loop 64 (if negb (cap =? 0) then cap * 2 else 131072) (len buf + 65536)
    else cap in
  let! w := get_world in
  let! a := read_again (S (length (w_answers w))) fd (cap - len buf) in
  let '(got, data) := a in
  iret (got, buf ++ data, cap).

(** Read until there are [want] bytes; nothing when they do not come. *)
Fixpoint read_until (fuel : nat) (fd : Z) (buf : list Z) (cap want : Z) : io (option (list Z * Z)) :=
  match fuel with
  | O => lift Fault
  | S fuel' =>
      if len buf <? want then
        let! r := bgit_pack_stream_more fd buf cap in
        let '(got, buf, cap) := r in
        if got <=? 0 then iret None else read_until fuel' fd buf cap want
      else iret (Some (buf, cap))
  end.

(* ------------------------------------------------------------------ *)
(** ** Walking the objects *)

(** Past the bytes of a base distance, if its end is there. *)
Fixpoint skip_base_off (fuel : nat) (buf : list Z) (next : Z) : outcome (option Z) :=
  match fuel with
  | O => Fault
  | S fuel' =>
      if next <? len buf then
        let* b := rd buf next in
        if negb (Z.land b 0x80 =? 0) then skip_base_off fuel' buf (next + 1)
        else Ret (Some (next + 1))
      else Ret None
  end.

Definition skip_base (buf : list Z) (type next : Z) : outcome (option Z) :=
  if type =? BGIT_PACK_OFS_DELTA then skip_base_off (S (length buf)) buf next
  else if type =? BGIT_PACK_REF_DELTA then
    Ret (if next + 20 <=? len buf then Some (next + 20) else None)
  else Ret (Some next).

Section Stream.
Context `{Zlib}.

(** Where the object at [at_] ends, or nothing when the data is too short. *)
Definition stream_object (buf : list Z) (at_ : Z) : outcome (option Z) :=
  match bgit_pack_read_obj_header buf at_ with
  | Fault => Fault
  | Fail _ => Ret None
  | Ret (type, size, next) =>
      let* next := skip_base buf type next in
      match next with
      | None => Ret None
      | Some next =>
          let* src := rdn buf next (len buf - next) in
          match bgit_pack_inflate src size with
          | Fault => Fault
          | Fail _ => Ret None
          | Ret (_, used) => Ret (Some (next + used))
          end
      end
  end.

(** The objects from [at_], [n] of them: what has arrived, and where they end. *)
Fixpoint walk_loop (fuel : nat) (fd : Z) (buf : list Z) (cap at_ n : Z) : io (option (list Z * Z * Z)) :=
  match fuel with
  | O => lift Fault
  | S fuel' =>
      if 0 <? n then
        let! o := lift (stream_object buf at_) in
        match o with
        | None =>
            let! r := bgit_pack_stream_more fd buf cap in
            let '(got, buf, cap) := r in
            if got <=? 0 then iret None else walk_loop fuel' fd buf cap at_ n
        | Some at_ => walk_loop fuel' fd buf cap at_ (n - 1)
        end
      else iret (Some (buf, cap, at_))
  end.

(** [fuel] is more than the bytes that can arrive and the objects. *)
Definition bgit_pack_read_stream (fuel : nat) (fd : Z) (already : list Z) : io (option (list Z)) :=
  let '(buf, cap) := if negb (len already =? 0) then bgit_pack_buf_append [] 0 already else ([], 0) in
  let! r := read_until fuel fd buf cap 12 in
  match r with
  | None => iret None
  | Some (buf, cap) =>
      let! magic := lift (rdn buf 0 4) in
      let! version := lift (bgit_pack_be32 buf 4) in
      if negb (beq magic (str "PACK")) || negb (version =? 2) then iret None
      else
        let! objects := lift (bgit_pack_be32 buf 8) in
        let! r := walk_loop fuel fd buf cap 12 objects in
        match r with
        | None => iret None
        | Some (buf, cap, at_) =>
            let! r := read_until fuel fd buf cap (at_ + 20) in
            match r with
            | None => iret None
            | Some (buf, cap) =>
                let! out := lift (rdn buf 0 (at_ + 20)) in
                iret (Some out)
            end
        end
  end.
End Stream.

(* ------------------------------------------------------------------ *)
(** ** What one pack is *)

Section Meaning.
Context `{Zlib} (D : list Z).

(** The object at [at_] ends at [e]. *)
Definition object_ends (at_ e : Z) : Prop :=
  exists type size cur next data used, bgit_pack_read_obj_header D at_ = Ret (type, size, cur) /\
    skip_base D type cur = Ret (Some next) /\ stream_at (drop (Z.to_nat next) D) data used /\ e = next + used.

Inductive walks : Z -> nat -> Z -> Prop :=
| walks_end e : walks e 0 e
| walks_object at_ mid n e : object_ends at_ mid -> walks mid n e -> walks at_ (S n) e.

(** The first [m] bytes are one pack: the header, as many objects as it says
    and the trailer. *)
Definition one_pack (m : Z) : Prop :=
  exists n e, slice D 0 4 = str "PACK" /\ bgit_pack_be32 D 4 = Ret 2 /\ bgit_pack_be32 D 8 = Ret n /\
    walks 12 (Z.to_nat n) e /\ m = e + 20 /\ m <= len D.
End Meaning.

(* ------------------------------------------------------------------ *)
(** ** A prefix says the same as the whole *)

Definition more_bits (buf : list Z) (i : Z) : Prop := Z.land (nth (Z.to_nat i) buf 0) 0x80 <> 0.

Definition base_skipped (buf : list Z) (next : Z) (r : option Z) : Prop :=
  match r with
  | Some e => next < e <= len buf /\ (forall i, next <= i < e - 1 -> more_bits buf i) /\ ~ more_bits buf (e - 1)
  | None => forall i, next <= i < len buf -> more_bits buf i
  end.

Lemma skip_base_off_spec fuel buf : forall next, 0 <= next -> len buf - next < Z.of_nat fuel -> (0 < fuel)%nat ->
  exists r, skip_base_off fuel buf next = Ret r /\ base_skipped buf next r.
Proof.
  induction fuel as [|fuel IH]; intros next Hn Hf Hf0; [lia|]. cbn [skip_base_off]. case_if.
  2:{ exists None. split; [done|]. intros i Hi. lia. }
  rewrite rd_ok by lia. cbn [obind]. case_if.
  - destruct (IH (next + 1)) as (r & -> & Hr); [lia..|]. exists r. split; [done|]. destruct r as [e|]; cbn in *.
    + destruct Hr as (H1 & H2 & H3). split_and!; [lia..| |done]. intros i Hi.
      destruct (Z.eq_dec i next) as [->|]; [done|apply H2; lia].
    + intros i Hi. destruct (Z.eq_dec i next) as [->|]; [done|apply Hr; lia].
  - exists (Some (next + 1)). split; [done|]. cbn. split_and!; [lia..| |].
    + intros i Hi. lia.
    + unfold more_bits. replace (next + 1 - 1) with next by lia. lia.
Qed.

Lemma nth_take_bits k (D : list Z) i : 0 <= i < len (take k D) -> nth (Z.to_nat i) (take k D) 0 = nth (Z.to_nat i) D 0.
Proof.
  intros Hi. rewrite len_take in Hi. rewrite !nth_lookup, lookup_take_lt by lia. done.
Qed.

Lemma base_skipped_prefix k D next r : 0 <= next -> base_skipped (take k D) next r -> forall rD, base_skipped D next rD ->
  forall e, r = Some e <-> rD = Some e /\ e <= len (take k D).
Proof.
  intros Hn Hr rD HD e. assert (Hl : len (take k D) <= len D) by (rewrite len_take; lia).
  assert (Hm : forall i, 0 <= i < len (take k D) -> more_bits (take k D) i <-> more_bits D i).
  { intros i Hi. unfold more_bits. by rewrite nth_take_bits. }
  destruct r as [e1|], rD as [e2|]; cbn in Hr, HD.
  - destruct Hr as (A1 & A2 & A3), HD as (B1 & B2 & B3). rewrite Hm in A3 by lia.
    assert (e1 = e2) as ->.
    { destruct (Z.lt_trichotomy e1 e2) as [Hlt|[->|Hlt]]; [|done|].
      - exfalso. apply A3, B2. lia.
      - exfalso. apply B3. apply Hm; [lia|]. apply A2. lia. }
    naive_solver.
  - destruct Hr as (A1 & A2 & A3). rewrite Hm in A3 by lia. exfalso. apply A3, HD. lia.
  - split; [done|]. intros [[= ->] He]. destruct HD as (B1 & B2 & B3). exfalso. apply B3, Hm; [lia|]. apply Hr. lia.
  - naive_solver.
Qed.

Lemma skip_base_prefix k D type next : 0 <= next ->
  exists r, skip_base (take k D) type next = Ret r /\ forall e, r = Some e <->
    skip_base D type next = Ret (Some e) /\ (e <= len (take k D) \/ (type <> BGIT_PACK_OFS_DELTA /\ type <> BGIT_PACK_REF_DELTA)).
Proof.
  intros Hn. unfold skip_base. case_if.
  - destruct (skip_base_off_spec (S (length (take k D))) (take k D) next) as (r & -> & Hr); [lia|unfold len; lia|lia|].
    destruct (skip_base_off_spec (S (length D)) D next) as (rD & -> & HD); [lia|unfold len; lia|lia|].
    exists r. split; [done|]. intros e. rewrite (base_skipped_prefix k D next r Hn Hr rD HD e). naive_solver.
  - case_if.
    + eexists. split; [done|]. intros e. rewrite len_take. repeat case_if; split; intros; simplify_eq; try lia; try done;
        try (split; [done|lia]); naive_solver lia.
    + exists (Some next). split; [done|]. intros e. naive_solver.
Qed.

Lemma take_slice0 k (D : list Z) : take k D = slice D 0 (len (take k D)).
Proof.
  unfold slice. rewrite drop_0, len_take. destruct (le_lt_dec k (length D)).
  - f_equal. unfold len. lia.
  - rewrite !take_ge; [done|unfold len; lia|lia].
Qed.

Lemma header_prefix k D off r : 0 <= off -> bgit_pack_read_obj_header (take k D) off = Ret r ->
  bgit_pack_read_obj_header D off = Ret r.
Proof.
  intros Ho. unfold bgit_pack_read_obj_header. pose proof (len_nonneg (take k D)).
  assert (Hl : len (take k D) <= len D) by (rewrite len_take; lia). case_if; [done|]. geb_false off (len D).
  rewrite take_slice0. rewrite rd_slice by lia. rewrite Z.add_0_l.
  destruct (rd D off) as [c| |]; cbn [obind]; [|discriminate..].
  destruct (header_loop 10 (slice D 0 (len (take k D))) c (Z.land c 15) 4 0 (off + 1)) as [[sz cur]| |] eqn:E;
    cbn [obind]; [|discriminate..].
  apply header_loop_window in E; [|lia..]. rewrite !Z.add_0_l in E. rewrite E. cbn [obind]. exact (fun H => H).
Qed.

Lemma header_loop_shrink k D fuel : forall c size shift iters o sz cur, 0 <= o ->
  header_loop fuel D c size shift iters o = Ret (sz, cur) ->
  o <= cur /\ (cur <= len (take k D) -> header_loop fuel (take k D) c size shift iters o = Ret (sz, cur)).
Proof.
  induction fuel as [|fuel IH]; intros c size shift iters o sz cur Ho; cbn [header_loop]; [done|].
  case_if; [intros [= <- <-]; split; [lia|done]|]. case_if; [done|].
  destruct ((iters >=? 9) || (shift >=? 64)); [done|]. rewrite rd_ok by lia. cbn [obind].
  destruct (_ >? _) eqn:Et; [done|]. intros E. apply IH in E as [Hle Hs]; [|lia]. split; [lia|]. intros Hc.
  geb_false o (len (take k D)). rewrite rd_ok by lia. cbn [obind]. rewrite nth_take_bits by lia. rewrite Et. by apply Hs.
Qed.

Lemma header_shrink k D off t s cur : 0 <= off -> bgit_pack_read_obj_header D off = Ret (t, s, cur) ->
  cur <= len (take k D) -> bgit_pack_read_obj_header (take k D) off = Ret (t, s, cur).
Proof.
  intros Ho. unfold bgit_pack_read_obj_header. case_if; [done|]. rewrite (rd_ok D) by lia. cbn [obind].
  destruct (header_loop 10 D _ _ 4 0 (off + 1)) as [[sz o]| |] eqn:E; cbn [obind]; [|discriminate..]. intros [= <- <- <-] Hc.
  apply (header_loop_shrink k) in E as [Hle Hs]; [|lia].
  geb_false off (len (take k D)). rewrite rd_ok by lia. cbn [obind]. rewrite nth_take_bits by lia.
  by rewrite Hs.
Qed.

Section Prefix.
Context `{Zlib} (D : list Z).
Hypotheses (HD : bytes D) (Hmax : len D <= UINT_MAX).

Lemma drop_take_len k next : 0 <= next -> drop (Z.to_nat next) (take k D) = take (k - Z.to_nat next) (drop (Z.to_nat next) D).
Proof. intros. by rewrite skipn_firstn_comm. Qed.

Lemma stream_grows k next data used : 0 <= next -> stream_at (drop (Z.to_nat next) (take k D)) data used ->
  stream_at (drop (Z.to_nat next) D) data used.
Proof.
  intros Hn [Hu Hd]. rewrite drop_take_len in * by done. rewrite len_take in Hu.
  rewrite take_take, Nat.min_l in Hd by lia. split; [lia|done].
Qed.

Lemma stream_shrinks k next data used : 0 <= next -> stream_at (drop (Z.to_nat next) D) data used ->
  next + used <= len (take k D) -> stream_at (drop (Z.to_nat next) (take k D)) data used.
Proof.
  intros Hn [Hu Hd] Hle. rewrite drop_take_len by done. rewrite len_take in Hle. rewrite len_drop in Hu.
  split; [rewrite len_take, len_drop; lia|]. rewrite take_take, Nat.min_l by lia. done.
Qed.

Lemma skip_base_range buf type next e : 0 <= next <= len buf -> skip_base buf type next = Ret (Some e) -> next <= e <= len buf.
Proof.
  intros Hn. unfold skip_base. case_if.
  - destruct (skip_base_off_spec (S (length buf)) buf next) as (r & -> & Hr); [lia|unfold len; lia|lia|].
    intros [= ->]. cbn in Hr. lia.
  - case_if; [case_if; [intros [= <-]; lia|done]|intros [= <-]; lia].
Qed.

Lemma object_ends_gt at_ e : 0 <= at_ -> object_ends D at_ e -> at_ < e <= len D.
Proof.
  intros Ho (type & size & cur & next & data & used & Hh & Hs & [Hu _] & ->).
  pose proof (read_header_yields D at_ HD Ho) as Hy. rewrite Hh in Hy. cbn in Hy.
  apply skip_base_range in Hs; [|lia]. rewrite len_drop in Hu. lia.
Qed.

Lemma object_ends_unique at_ e1 e2 : object_ends D at_ e1 -> object_ends D at_ e2 -> e1 = e2.
Proof.
  intros (t1 & s1 & c1 & n1 & d1 & u1 & H1 & S1 & T1 & ->) (t2 & s2 & c2 & n2 & d2 & u2 & H2 & S2 & T2 & ->).
  rewrite H1 in H2. injection H2 as <- <- <-. rewrite S1 in S2. injection S2 as <-.
  by destruct (stream_at_unique _ _ _ _ _ T1 T2) as [_ <-].
Qed.

(** Walking a prefix finds an object exactly when all of it has arrived. *)
Lemma stream_object_prefix k at_ : 0 <= at_ -> exists r, stream_object (take k D) at_ = Ret r /\
  forall e, r = Some e <-> object_ends D at_ e /\ e <= len (take k D).
Proof.
  intros Ho. assert (Hb : bytes (take k D)) by (by apply Forall_take).
  assert (Hl : len (take k D) <= len D) by (rewrite len_take; lia).
  unfold stream_object. pose proof (read_header_yields (take k D) at_ Hb Ho) as Hy.
  destruct (bgit_pack_read_obj_header (take k D) at_) as [[[type size] cur]|m|] eqn:Eh; [| |done].
  2:{ exists None. split; [done|]. intros e. split; [done|].
      intros [(type & size & cur & next & data & used & Hh & Hs & [Hu _] & ->) He].
      pose proof (read_header_yields D at_ HD Ho) as Hy2. rewrite Hh in Hy2. cbn in Hy2.
      apply skip_base_range in Hs; [|lia].
      rewrite (header_shrink k D at_ _ _ _ Ho Hh) in Eh by lia. done. }
  cbn in Hy. apply header_prefix in Eh; [|done].
  destruct (skip_base_prefix k D type cur ltac:(lia)) as (rs & Es & Hrs). rewrite Es. cbn [obind].
  destruct rs as [next|].
  2:{ exists None. split; [done|]. intros e. split; [done|].
      intros [(type' & size' & cur' & next & data & used & Hh & Hs & [Hu _] & ->) He].
      rewrite Eh in Hh. injection Hh as <- <- <-. exfalso.
      assert (None = Some next) as ?; [|done]. apply Hrs. split; [done|]. left. lia. }
  destruct (proj1 (Hrs next) eq_refl) as [HsD _].
  apply skip_base_range in Es; [|lia].
  rewrite rdn_ok by lia. cbn [obind]. rewrite take_ge by (rewrite length_drop; unfold len in *; lia).
  set (src := drop (Z.to_nat next) (take k D)).
  assert (Hbs : bytes src) by (by apply Forall_drop). pose proof (inflate_yields src size Hbs) as Hi.
  destruct (bgit_pack_inflate src size) as [[data used]|m|] eqn:Ei; [| |done].
  - destruct Hi as [Hst _]. cbn [fst snd] in Hst. exists (Some (next + used)). split; [done|].
    assert (Hend : object_ends D at_ (next + used)).
    { exists type, size, cur, next, data, used. split_and!; try done. eapply stream_grows; [lia|exact Hst]. }
    intros e. split.
    + intros [= <-]. split; [done|]. destruct Hst as [Hu _]. unfold src in Hu. rewrite len_drop in Hu. lia.
    + intros [He _]. f_equal. by eapply object_ends_unique.
  - exists None. split; [done|]. intros e. split; [done|].
    intros [(type' & size' & cur' & next' & data & used & Hh & Hs & Hst & ->) He].
    rewrite Eh in Hh. injection Hh as <- <- <-. rewrite HsD in Hs. injection Hs as <-.
    rewrite (inflate_stream src size data used) in Ei; [done|done| |].
    + apply stream_shrinks; [lia|done|done].
    + unfold src. rewrite len_drop. lia.
Qed.
End Prefix.

(* ------------------------------------------------------------------ *)
(** ** What arrives *)

Section Arriving.
Context `{Zlib} (D : list Z) (fd : Z).
Hypotheses (HD : bytes D) (Hmax : len D <= UINT_MAX).

(** [buf] is the part of [D] that has been read; the rest is still to come
    from the descriptor. *)
Definition arrived (buf : list Z) (w : world) : Prop :=
  0 <= fd /\ buf = take (length buf) D /\ exists i pos nd, w_fds w !! Z.to_N fd = Some (i, pos) /\ 0 <= pos /\
    inodes (w_fs w) !! i = Some nd /\ i_dir nd = false /\ drop (Z.to_nat pos) (i_data nd) = drop (length buf) D.

(** The kernel interrupts and cuts short, but does not fail. *)
Definition cooperative (w : world) : Prop :=
  Forall (fun a => match a with Errno e => e = EINTR | _ => True end) (w_answers w).

#[export] Instance cooperative_dec w : Decision (cooperative w).
Proof. unfold cooperative. apply Forall_dec. intros [| |e]; apply _. Defined.

(** What a step leaves: fewer answers of the same script, no file changed. *)
Definition moves (w w' : world) : Prop := reads_only w w' /\ exists used, w_answers w = used ++ w_answers w'.

Lemma moves_refl w : moves w w.
Proof. split; [apply reads_only_refl|]. by exists []. Qed.

Lemma moves_trans w1 w2 w3 : moves w1 w2 -> moves w2 w3 -> moves w1 w3.
Proof.
  intros [R1 [u1 E1]] [R2 [u2 E2]]. split; [by eapply reads_only_trans|]. exists (u1 ++ u2). by rewrite <- app_assoc, <- E2.
Qed.

Lemma moves_cooperative w w' : moves w w' -> cooperative w -> cooperative w'.
Proof. intros [_ [u E]]. unfold cooperative. rewrite E. by intros [_ ?]%Forall_app. Qed.

Lemma read_refused n w w' i pos nd : sys_read fd n w = (Ret (-1, []), w') -> 0 <= fd ->
  w_fds w !! Z.to_N fd = Some (i, pos) -> inodes (w_fs w) !! i = Some nd -> i_dir nd = false ->
  exists e rest, w_answers w = Errno e :: rest /\ w_errno w' = e.
Proof.
  intros HR Hfd Hf Hi Hd. unfold sys_read in HR.
  step_io HR; simpl in *; simpl_bool; simplify_eq; try lia; eauto;
    match goal with E : _ = -1 |- _ => pose proof (len_nonneg (take (Z.to_nat n) (drop (Z.to_nat pos) (i_data nd)))) | _ => idtac end;
    try (exfalso; match goal with E : len ?l = -1 |- _ => pose proof (len_nonneg l); lia end).
Qed.

(** One read. *)
Lemma read_arrives n buf w r w' : 0 < n -> arrived buf w -> sys_read fd n w = (r, w') ->
  moves w w' /\ w_answers w' = tail (w_answers w) /\
  ((r = Ret (-1, []) /\ w_answers w <> [] /\ arrived buf w' /\ (w_errno w' <> EINTR -> ~ cooperative w)) \/
   exists data, r = Ret (len data, data) /\ arrived (buf ++ data) w' /\ (data = [] -> buf = D)).
Proof.
  intros Hn Harr Er. destruct Harr as (Hfd & Hbuf & i & pos & nd & Hw & Hpos & Hi & Hd & Hrest). pose proof Er as Er2.
  eapply read_cases in Er as (E1 & E2 & E3 & Hcase); [|lia|done..].
  assert (Hmv : moves w w').
  { split; [by split|]. rewrite E3. destruct (w_answers w) as [|a l]; [by exists []|by exists [a]]. }
  split; [done|]. split; [done|]. destruct Hcase as [(-> & Hne & Ef)|(m & -> & Hm & Hm0 & _ & Ef)].
  - left. apply (read_refused n w w' i pos nd) in Er2 as (e & rest & Ea & Ee); try done.
    split; [done|]. split; [done|]. split.
    + split; [done|]. split; [done|]. exists i, pos, nd. by rewrite Ef, E1.
    + intros Hint Hc. unfold cooperative in Hc. rewrite Ea in Hc. inversion Hc; subst. done.
  - right. set (chunk := take m (drop (Z.to_nat pos) (i_data nd))) in *. pose proof (len_nonneg chunk).
    exists chunk. split; [done|]. assert (Ech : chunk = take m (drop (length buf) D)) by (unfold chunk; by rewrite Hrest).
    split.
    + split; [done|]. split.
      * rewrite length_app. rewrite <- take_take_drop, <- Hbuf. f_equal. rewrite Ech, length_take. by rewrite take_min_length.
      * exists i, (pos + len chunk), nd. split_and!; try done; [by rewrite Ef, lookup_insert_eq|lia|congruence|].
        rewrite length_app, <- drop_drop, <- Hrest, drop_drop. f_equal. unfold len in *. lia.
    + intros E. rewrite Hbuf. apply take_ge. rewrite E in Ech. apply (f_equal length) in Ech.
      rewrite length_take, length_drop in Ech. specialize (Hm0 ltac:(lia)). cbn in Ech. lia.
Qed.

Lemma read_again_spec fuel n buf : 0 < n -> forall w r w', (length (w_answers w) < fuel)%nat -> arrived buf w ->
  read_again fuel fd n w = (r, w') ->
  moves w w' /\ ((r = Ret (-1, []) /\ ~ cooperative w) \/
    exists data, r = Ret (len data, data) /\ arrived (buf ++ data) w' /\ (data = [] -> buf = D)).
Proof.
  intros Hn. induction fuel as [|fuel IH]; intros w r w' Hf Harr HR; [lia|]. cbn [read_again] in HR.
  unfold ibind at 1 in HR. destruct (sys_read fd n w) as [r1 w1] eqn:Er.
  apply (read_arrives n buf) in Er as (Hmv & Ha & Hcase); try done.
  destruct Hcase as [(-> & Hne & Harr1 & Hint)|(data & -> & Harr1 & Hend)].
  - cbn -[read_again] in HR. destruct (Z.eqb_spec (w_errno w1) EINTR) as [Eint|Eint]; cbn -[read_again] in HR.
    + apply IH in HR as (Hmv2 & Hres); try done; [|rewrite Ha; pose proof (tail_shorter _ Hne); lia].
      split; [by eapply moves_trans|]. destruct Hres as [[-> Hnc]|?]; [left|by right]. split; [done|].
      intros Hc. by apply Hnc, (moves_cooperative w).
    + injection HR as <- <-. split; [done|]. left. split; [done|]. by apply Hint.
  - rewrite (proj2 (Z.ltb_ge (len data) 0)) in HR by apply len_nonneg. injection HR as <- <-. split; [done|]. right. by exists data.
Qed.

Lemma double_loop_ge fuel : forall cap want, 0 < cap -> want <= cap * 2 ^ Z.of_nat fuel -> cap <= double_loop fuel cap want /\ want <= double_loop fuel cap want.
Proof.
  induction fuel as [|fuel IH]; intros cap want Hc Hw; cbn [double_loop]; [change (2 ^ Z.of_nat 0) with 1 in *; lia|].
  case_if; [|lia]. rewrite Nat2Z.inj_succ, Z.pow_succ_r in Hw by lia.
  destruct (IH (cap * 2) want) as [H1 H2]; lia.
Qed.

Lemma arrived_len buf w : arrived buf w -> len buf <= len D.
Proof. intros (_ & E & _). rewrite E, len_take. lia. Qed.

Lemma stream_more_spec buf cap w r w' : 0 <= cap -> arrived buf w -> bgit_pack_stream_more fd buf cap w = (r, w') ->
  moves w w' /\ exists got buf' cap', r = Ret (got, buf', cap') /\ 0 <= cap' /\
    ((got <= 0 /\ (cooperative w -> buf = D)) \/ (0 < got /\ arrived buf' w' /\ len buf < len buf')).
Proof.
  intros Hcap Harr HR. unfold bgit_pack_stream_more in HR. pose proof (arrived_len _ _ Harr) as Hlen. pose proof (len_nonneg buf).
  set (cap1 := if len buf + 65536 >? cap then _ else cap) in HR.
  assert (Hc1 : 0 < cap1 - len buf).
  { unfold cap1. case_if; [|lia].
    destruct (double_loop_ge 64 (if negb (cap =? 0) then cap * 2 else 131072) (len buf + 65536)) as [_ H2]; [..|lia].
    - case_if; lia.
    - change (2 ^ Z.of_nat 64) with (2 ^ 64). unfold UINT_MAX in *. case_if; lia. }
  unfold ibind at 1, get_world in HR. unfold ibind in HR.
  destruct (read_again _ fd (cap1 - len buf) w) as [r1 w1] eqn:E.
  eapply read_again_spec in E as (Hmv & Hres); [|lia|lia|exact Harr].
  destruct Hres as [[-> Hnc]|(data & -> & Harr' & Hend)]; injection HR as <- <-; (split; [done|]).
  - eexists _, _, _. split; [done|]. split; [lia|]. left. split; [lia|]. intros Hc. by apply Hnc in Hc.
  - eexists _, _, _. split; [done|]. split; [lia|]. pose proof (len_nonneg data). destruct (Z.eq_dec (len data) 0) as [E0|].
    + left. split; [lia|]. intros _. apply Hend. destruct data; [done|]. rewrite len_cons in E0. pose proof (len_nonneg data). lia.
    + right. split; [lia|]. split; [done|]. rewrite len_app. lia.
Qed.

Lemma read_until_spec want fuel : forall buf cap w r w', 0 <= cap -> arrived buf w -> len D - len buf < Z.of_nat fuel -> (0 < fuel)%nat ->
  read_until fuel fd buf cap want w = (r, w') ->
  moves w w' /\ exists o, r = Ret o /\
    (forall buf' cap', o = Some (buf', cap') -> arrived buf' w' /\ 0 <= cap' /\ want <= len buf') /\
    (cooperative w -> want <= len D -> o <> None).
Proof.
  induction fuel as [|fuel IH]; intros buf cap w r w' Hcap Harr Hf Hf0 HR; [lia|]. cbn [read_until] in HR. case_if_in HR.
  2:{ injection HR as <- <-. split; [apply moves_refl|]. exists (Some (buf, cap)). split_and!; try done.
      intros ? ? [= <- <-]. split_and!; (done || lia). }
  unfold ibind in HR. destruct (bgit_pack_stream_more fd buf cap w) as [r1 w1] eqn:E.
  apply stream_more_spec in E as (Hmv & got & buf' & cap' & -> & Hcap' & Hcase); try done.
  destruct Hcase as [[Hg Hend]|(Hg & Harr' & Hmore)].
  - rewrite (proj2 (Z.leb_le got 0)) in HR by lia. injection HR as <- <-. split; [done|]. exists None. split_and!; try done.
    intros Hc Hw. rewrite (Hend Hc) in *. lia.
  - rewrite (proj2 (Z.leb_gt got 0)) in HR by lia. pose proof (arrived_len _ _ Harr').
    apply IH in HR as (Hmv2 & o & -> & H1 & H2); try done; try lia. split; [by eapply moves_trans|]. exists o. split_and!; try done.
    intros Hc. apply H2. by eapply moves_cooperative.
Qed.

Lemma walk_loop_spec fuel : forall n buf cap at_ w r w', 0 <= n -> 0 <= cap -> arrived buf w -> 0 <= at_ <= len D ->
  (len D - len buf) + (len D - at_) < Z.of_nat fuel -> (0 < fuel)%nat ->
  walk_loop fuel fd buf cap at_ n w = (r, w') ->
  moves w w' /\ exists o, r = Ret o /\
    (forall buf' cap' e, o = Some (buf', cap', e) -> arrived buf' w' /\ 0 <= cap' /\ at_ <= e <= len D /\ walks D at_ (Z.to_nat n) e) /\
    (forall e, cooperative w -> walks D at_ (Z.to_nat n) e -> o <> None).
Proof.
  induction fuel as [|fuel IH]; intros n buf cap at_ w r w' Hn Hcap Harr Hat Hf Hf0 HR; [lia|]. cbn [walk_loop] in HR.
  case_if_in HR.
  2:{ injection HR as <- <-. split; [apply moves_refl|]. exists (Some (buf, cap, at_)). split_and!; try done.
      intros ? ? ? [= <- <- <-]. replace (Z.to_nat n) with O by lia. split_and!; try (done || lia). constructor. }
  pose proof Harr as (_ & Ebuf & _). pose proof (arrived_len _ _ Harr) as Hbl. unfold ibind at 1, lift in HR.
  destruct (stream_object_prefix D HD Hmax (length buf) at_ ltac:(lia)) as (ro & Eo & Ho). rewrite <- Ebuf in Eo, Ho. rewrite Eo in HR.
  assert (Hnat : Z.to_nat n = S (Z.to_nat (n - 1))) by lia.
  destruct ro as [mid|].
  - destruct (proj1 (Ho mid) eq_refl) as [Hm _]. pose proof (object_ends_gt D HD at_ mid ltac:(lia) Hm) as Hgt.
    apply IH in HR as (Hmv & o & -> & H1 & H2); try done; try lia. split; [done|]. exists o. split; [done|]. rewrite Hnat. split.
    + intros buf' cap' e Ho'. destruct (H1 _ _ _ Ho') as (G1 & G2 & G3 & G4). split_and!; try done; [lia|lia|]. by econstructor.
    + intros e Hc Hw. inversion Hw as [|? mid' ? ? Hm' Hw']; subst.
      rewrite (object_ends_unique D at_ mid mid') in H2 by done. by eapply H2.
  - unfold ibind in HR. destruct (bgit_pack_stream_more fd buf cap w) as [r1 w1] eqn:E.
    apply stream_more_spec in E as (Hmv & got & buf' & cap' & -> & Hcap' & Hcase); try done.
    destruct Hcase as [[Hg Hend]|(Hg & Harr' & Hmore)].
    + rewrite (proj2 (Z.leb_le got 0)) in HR by lia. injection HR as <- <-. split; [done|]. exists None. split_and!; try done.
      intros e Hc Hw. rewrite Hnat in Hw. inversion Hw as [|? mid ? ? Hm Hw']; subst. exfalso.
      pose proof (object_ends_gt D HD at_ mid ltac:(lia) Hm). assert (None = Some mid) as ?; [|done].
      apply Ho. split; [done|]. rewrite (Hend Hc). lia.
    + rewrite (proj2 (Z.leb_gt got 0)) in HR by lia. pose proof (arrived_len _ _ Harr').
      apply IH in HR as (Hmv2 & o & -> & H1 & H2); try done; try lia. split; [by eapply moves_trans|]. exists o. split_and!; try done.
      intros e Hc. apply H2. by eapply moves_cooperative.
Qed.
End Arriving.

Section Whole.
Context `{Zlib} (D : list Z).

Lemma walks_unique at_ n e1 e2 : walks D at_ n e1 -> walks D at_ n e2 -> e1 = e2.
Proof.
  intros H1. revert e2. induction H1 as [e|at_ mid n e Ho _ IH]; intros e2 H2; inversion H2; subst; [done|].
  apply IH. by rewrite (object_ends_unique D at_ mid mid0).
Qed.

Lemma rd_prefix k i : 0 <= i < len (take k D) -> rd (take k D) i = rd D i.
Proof. intros Hi. assert (len (take k D) <= len D) by (rewrite len_take; lia). rewrite !rd_ok by lia. by rewrite nth_take_bits. Qed.

Lemma be32_prefix k off : 0 <= off -> off + 4 <= len (take k D) -> bgit_pack_be32 (take k D) off = bgit_pack_be32 D off.
Proof. intros. unfold bgit_pack_be32, bgit_be32. by rewrite !rd_prefix by lia. Qed.

Lemma rdn_prefix k n : 0 <= n <= len (take k D) -> rdn (take k D) 0 n = Ret (slice D 0 n).
Proof. intros Hn. rewrite rdn_slice by lia. rewrite take_slice0, slice_slice by lia. by rewrite Z.add_0_l. Qed.

Lemma walks_le at_ n e : bytes D -> 0 <= at_ -> walks D at_ n e -> at_ <= e.
Proof.
  intros HD Ha Hwk. induction Hwk as [|at_ mid k e Ho _ IH]; [lia|]. pose proof (object_ends_gt D HD at_ mid Ha Ho). lia.
Qed.

Lemma one_pack_long m : bytes D -> one_pack D m -> 32 <= m <= len D.
Proof. intros HD (n & e & _ & _ & _ & Hw & -> & Hm). apply walks_le in Hw; [lia|done|lia]. Qed.

(** What follows the bytes of the pack's header. *)
Lemma rest_spec fuel fd buf cap w r w' : bytes D -> len D <= UINT_MAX -> 0 <= cap -> arrived D fd buf w -> 12 <= len buf ->
  2 * len D < Z.of_nat fuel ->
  (let! magic := lift (rdn buf 0 4) in
   let! version := lift (bgit_pack_be32 buf 4) in
   if negb (beq magic (str "PACK")) || negb (version =? 2) then iret None
   else
     let! objects := lift (bgit_pack_be32 buf 8) in
     let! r := walk_loop fuel fd buf cap 12 objects in
     match r with
     | None => iret None
     | Some (buf, cap, at_) =>
         let! r := read_until fuel fd buf cap (at_ + 20) in
         match r with
         | None => iret None
         | Some (buf, cap) => let! out := lift (rdn buf 0 (at_ + 20)) in iret (Some out)
         end
     end) w = (r, w') ->
  moves w w' /\ exists res, r = Ret res /\
    (forall out, res = Some out -> exists m, one_pack D m /\ out = slice D 0 m) /\
    (cooperative w -> forall m, one_pack D m -> res = Some (slice D 0 m)).
Proof.
  intros HD Hmax Hcap Harr H12 Hf HR. pose proof Harr as (_ & Ebuf & _). pose proof (arrived_len D fd _ _ Harr) as Hl.
  unfold ibind at 1, lift at 1 in HR. rewrite Ebuf in HR at 1. rewrite rdn_prefix in HR by (rewrite <- Ebuf; lia).
  unfold ibind at 1, lift at 1 in HR. rewrite Ebuf in HR at 1. rewrite be32_prefix in HR by (rewrite <- ?Ebuf; lia).
  destruct (yields_be32 D 4 HD) as (v & Ev & _); [lia..|]. unfold bgit_pack_be32 in HR at 1. rewrite Ev in HR.
  destruct (_ || _) eqn:Ebad.
  { injection HR as <- <-. split; [apply moves_refl|]. exists None. split_and!; try done.
    intros _ m (n & e & Hmag & Hver & _). exfalso. unfold bgit_pack_be32 in Hver. rewrite Ev in Hver. injection Hver as ->.
    rewrite Hmag in Ebad. unfold beq in Ebad. rewrite bool_decide_true in Ebad by done. done. }
  simpl_bool. subst v. unfold ibind at 1, lift at 1 in HR. rewrite Ebuf in HR at 1.
  rewrite be32_prefix in HR by (rewrite <- ?Ebuf; lia).
  destruct (yields_be32 D 8 HD) as (n & En & Hn); [lia..|]. unfold bgit_pack_be32 in HR at 1. rewrite En in HR.
  unfold ibind at 1 in HR. destruct (walk_loop fuel fd buf cap 12 n w) as [r2 w2] eqn:E2.
  apply (walk_loop_spec D fd HD Hmax) in E2 as (Hmv2 & o2 & -> & Hok2 & Hno2); try done; try lia.
  destruct o2 as [[[buf2 cap2] e]|].
  2:{ injection HR as <- <-. split; [done|]. exists None. split_and!; try done.
      intros Hc m (n' & e & _ & _ & En' & Hwk & _). exfalso. unfold bgit_pack_be32 in En'. rewrite En in En'.
      injection En' as <-. by eapply Hno2. }
  destruct (Hok2 _ _ _ eq_refl) as (Harr2 & Hcap2 & He & Hwk).
  unfold ibind at 1 in HR. destruct (read_until fuel fd buf2 cap2 (e + 20) w2) as [r3 w3] eqn:E3.
  pose proof (len_nonneg buf2).
  apply (read_until_spec D fd Hmax) in E3 as (Hmv3 & o3 & -> & Hok3 & Hno3); try done; try lia.
  assert (Hmv : moves w w3) by (by eapply moves_trans).
  assert (Hpack : forall m, one_pack D m -> m = e + 20).
  { intros m (n' & e' & _ & _ & En' & Hwk' & -> & _). unfold bgit_pack_be32 in En'. rewrite En in En'. injection En' as <-.
    by rewrite (walks_unique _ _ _ _ Hwk Hwk'). }
  destruct o3 as [[buf3 cap3]|].
  - destruct (Hok3 _ _ eq_refl) as (Harr3 & _ & Hlen3). pose proof Harr3 as (_ & Ebuf3 & _).
    pose proof (arrived_len D fd _ _ Harr3). unfold ibind, lift in HR. rewrite Ebuf3 in HR.
    rewrite rdn_prefix in HR by (rewrite <- Ebuf3; lia). injection HR as <- <-. split; [done|].
    exists (Some (slice D 0 (e + 20))). split; [done|]. split.
    + intros out [= <-]. exists (e + 20). split; [|done]. exists n, e. split_and!; try done; lia.
    + intros _ m Hm. by rewrite (Hpack m Hm).
  - injection HR as <- <-. split; [done|]. exists None. split_and!; try done. intros Hc m Hm. exfalso.
    pose proof (one_pack_long m HD Hm). rewrite (Hpack m Hm) in *. apply Hno3; [by eapply moves_cooperative|lia|done].
Qed.
End Whole.

(* ------------------------------------------------------------------ *)
(** ** The reader's contract *)

(** [C16] (termination) Receiving a pack from what is in hand and what the
    descriptor still has always ends and changes no file.  What it gives is
    exactly one pack, taken off the front of what was sent; and when the
    kernel does not fail, a pack at the front of what was sent is received
    whole, and nothing after it, however the bytes are cut up and however often
    the calls are interrupted. *)
Theorem read_stream_exact `{Zlib} fuel fd already i pos nd w :
  let D := already ++ drop (Z.to_nat pos) (i_data nd) in
  bytes D -> len D <= UINT_MAX -> 0 <= fd -> w_fds w !! Z.to_N fd = Some (i, pos) -> 0 <= pos ->
  inodes (w_fs w) !! i = Some nd -> i_dir nd = false -> 2 * len D < Z.of_nat fuel ->
  exists res w', bgit_pack_read_stream fuel fd already w = (Ret res, w') /\ reads_only w w' /\
    (forall out, res = Some out -> exists m, one_pack D m /\ out = slice D 0 m) /\
    (cooperative w -> forall m, one_pack D m -> res = Some (slice D 0 m)).
Proof.
  intros D HD Hmax Hfd Hw Hpos Hi Hd Hf.
  destruct (bgit_pack_read_stream fuel fd already w) as [r w'] eqn:HR. unfold bgit_pack_read_stream in HR.
  set (bc := if negb (len already =? 0) then bgit_pack_buf_append [] 0 already else ([], 0)) in HR.
  assert (Hbc : fst bc = already /\ 0 <= snd bc).
  { unfold bc, bgit_pack_buf_append. case_if; cbn [fst snd].
    - split; [done|]. case_if; [|lia]. change (negb (0 =? 0)) with false. cbn iota.
      change (len [] + len already) with (len already) in *.
      assert (len already <= len D) by (unfold D; rewrite len_app; pose proof (len_nonneg (drop (Z.to_nat pos) (i_data nd))); lia).
      destruct (double_loop_ge 64 4096 (len already)) as [H1 _]; [lia|change (2 ^ Z.of_nat 64) with (2 ^ 64); unfold UINT_MAX in *; lia|lia].
    - split; [|lia]. destruct already; [done|]. rewrite len_cons in *. pose proof (len_nonneg already). lia. }
  destruct bc as [buf cap]. cbn [fst snd] in Hbc. destruct Hbc as [-> Hcap].
  assert (Harr : arrived D fd already w).
  { split; [done|]. unfold D. rewrite take_app_length, drop_app_length. split; [done|]. exists i, pos, nd. by split_and!. }
  pose proof (len_nonneg already). pose proof (len_nonneg D).
  unfold ibind at 1 in HR. destruct (read_until fuel fd already cap 12 w) as [r1 w1] eqn:E1.
  apply (read_until_spec D fd Hmax) in E1 as (Hmv1 & o1 & -> & Hok1 & Hno1); try done; try lia.
  destruct o1 as [[buf1 cap1]|].
  - destruct (Hok1 _ _ eq_refl) as (Harr1 & Hcap1 & Hlen1).
    apply (rest_spec D) in HR as (Hmv & res & -> & Hout & Hall); try done. exists res, w'. split; [done|].
    split; [apply (moves_trans _ _ _ Hmv1 Hmv)|]. split; [done|]. intros Hc. apply Hall. by eapply moves_cooperative.
  - injection HR as <- <-. exists None, w1. split; [done|]. split; [apply Hmv1|]. split; [done|].
    intros Hc m Hm. apply (one_pack_long D) in Hm; [|done]. exfalso. apply Hno1; [done|lia|done].
Qed.

(* ------------------------------------------------------------------ *)
(** ** Witnesses *)

(** The pack of PackRead with a trailer, and something after it. *)
Definition sent_pack : list Z := demo_pack ++ map Z.of_nat (seq 1 20).

Definition sent_world : world := fd_world (drop 5 sent_pack ++ str "next request") [Short 3; Errno EINTR; Short 9; Short 1].

Lemma sent_one_pack : @one_pack stored_zlib (take 5 sent_pack ++ drop (Z.to_nat 0) (drop 5 sent_pack ++ str "next request")) 48.
Proof.
  exists 2, 28. split_and!; try (vm_compute; reflexivity); [|vm_compute; discriminate].
  change (Z.to_nat 2) with 2%nat. econstructor; [|econstructor; [|constructor]].
  - exists BGIT_PACK_BLOB, 5, 13, 13, (str "hello"), 6. split_and!; try (vm_compute; reflexivity). solve_stored.
  - exists BGIT_PACK_OFS_DELTA, 6, 20, 21, [5; 6; 0x90; 5; 1; 33], 7. split_and!; try (vm_compute; reflexivity). solve_stored.
Qed.

Lemma read_stream_exact_witness : exists w',
  @bgit_pack_read_stream stored_zlib 200 3 (take 5 sent_pack) sent_world = (Ret (Some sent_pack), w').
Proof.
  destruct (@read_stream_exact stored_zlib 200 3 (take 5 sent_pack) 1%N 0
    {| i_dir := false; i_data := drop 5 sent_pack ++ str "next request"; i_mtime := (0, 0) |} sent_world)
    as (res & w' & E & _ & _ & Hc);
    [solve_bytes|vm_compute; discriminate|lia|reflexivity|lia|reflexivity|reflexivity|vm_compute; reflexivity|].
  exists w'. rewrite E. rewrite (Hc ltac:(repeat constructor) 48 sent_one_pack). reflexivity.
Defined.
