(* ===== verification/Proto.v ===== *)
(** * Packet lines and the fetch protocol (loadables/_git/proto.c)

    The framing of everything git sends over a connection, written and read;
    and on top of it the client's side of protocol v2: capabilities, listing
    references and fetching a pack.  The theorems show that a reader, over a
    descriptor whose bytes come in any pieces or over memory, sees exactly the
    packets of the byte stream; that what was written is what is read; that a
    fetch gives exactly the pack the far end put into the side band; and that
    a reference listing gives back the references it was made of. *)

From S2P Require Import Prelude Odb Sys CLib IndexFile PackIdx PackStream.
#[local] Open Scope Z_scope.

(* ------------------------------------------------------------------ *)
(** ** Reading packets *)

Definition BGIT_PKT_FLUSH : Z := -1.
Definition BGIT_PKT_DELIM : Z := -2.
Definition BGIT_PKT_END : Z := -3.
Definition BGIT_PKT_EOF : Z := -4.
Definition BGIT_PKT_ERROR : Z := -5.

(** [pr_buf] is the buffer's first [len] bytes. *)
Record bgit_pkt_reader := { pr_fd : Z; pr_buf : list Z; pr_at : Z; pr_cap : Z; pr_owns : bool }.

Definition bgit_pkt_from_fd (fd : Z) : bgit_pkt_reader :=
  {| pr_fd := fd; pr_buf := []; pr_at := 0; pr_cap := 0; pr_owns := false |}.

Definition bgit_pkt_from_memory (data : list Z) : bgit_pkt_reader :=
  {| pr_fd := -1; pr_buf := data; pr_at := 0; pr_cap := 0; pr_owns := false |}.

Definition bgit_pkt_release (_ : bgit_pkt_reader) : bgit_pkt_reader :=
  {| pr_fd := -1; pr_buf := []; pr_at := 0; pr_cap := 0; pr_owns := false |}.

Fixpoint fill_loop (fuel : nat) (fd : Z) (buf : list Z) (cap : Z) (owns : bool) (want : Z)
    : io (Z * list Z * Z * bool) :=
  match fuel with
  | O => lift Fault
  | S fuel' =>
      if len buf <? want then
        let grow := len buf + 8192 >? cap in
        let cap :=
          if grow then double_loop 64 (if negb (cap =? 0) then cap * 2 else 16384) (len buf + 8192) else cap in
        let owns := grow || owns in
        let! a := sys_read fd (cap - len buf) in
        let '(got, data) := a in
        if got <? 0 then
          let! e := get_errno in
          if e =? EINTR then fill_loop fuel' fd buf cap owns want else iret (-1, buf, cap, owns)
        else if got =? 0 then iret (-1, buf, cap, owns)
        else fill_loop fuel' fd (buf ++ data) cap owns want
      else iret (0, buf, cap, owns)
  end.

(** Whether [want] bytes past the read point are in hand. *)
Definition bgit_pkt_fill (r : bgit_pkt_reader) (want : Z) : io (Z * bgit_pkt_reader) :=
  if len (pr_buf r) - pr_at r >=? want then iret (0, r)
  else if pr_fd r <? 0 then iret (-1, r)
  else
    let buf := if negb (pr_at r =? 0) then drop (Z.to_nat (pr_at r)) (pr_buf r) else pr_buf r in
    let! w := get_world in
    let! x := fill_loop (S (Z.to_nat want + length (w_answers w))) (pr_fd r) buf (pr_cap r) (pr_owns r) want in
    let '(rc, buf, cap, owns) := x in
    iret (rc, {| pr_fd := pr_fd r; pr_buf := buf; pr_at := 0; pr_cap := cap; pr_owns := owns |}).

Definition pkt_digit (c : Z) : Z :=
  if (48 <=? c) && (c <=? 57) then c - 48
  else if (97 <=? c) && (c <=? 102) then c - 97 + 10
  else if (65 <=? c) && (c <=? 70) then c - 65 + 10
  else -1.

(** The value of the digits, or -1. *)
Fixpoint pkt_hex_loop (four : list Z) (value : Z) : Z :=
  match four with
  | [] => value
  | c :: four' => if pkt_digit c <? 0 then -1 else pkt_hex_loop four' (value * 16 + pkt_digit c)
  end.

Definition bgit_pkt_hex (four : list Z) : Z := pkt_hex_loop four 0.

Definition advance (r : bgit_pkt_reader) (n : Z) : bgit_pkt_reader :=
  {| pr_fd := pr_fd r; pr_buf := pr_buf r; pr_at := pr_at r + n; pr_cap := pr_cap r; pr_owns := pr_owns r |}.

(** The length or the marker, the payload and the reader afterwards. *)
Definition bgit_pkt_read (r : bgit_pkt_reader) : io (Z * list Z * bgit_pkt_reader) :=
  let! x := bgit_pkt_fill r 4 in
  let '(rc, r) := x in
  if rc <? 0 then iret (if pr_at r =? len (pr_buf r) then BGIT_PKT_EOF else BGIT_PKT_ERROR, [], r)
  else
    let! four := lift (rdn (pr_buf r) (pr_at r) 4) in
    let length := bgit_pkt_hex four in
    if (length <? 0) || ((length >? 0) && (length <? 4)) then
      if length =? 1 then iret (BGIT_PKT_DELIM, [], advance r 4)
      else if length =? 2 then iret (BGIT_PKT_END, [], advance r 4)
      else iret (BGIT_PKT_ERROR, [], r)
    else if length =? 0 then iret (BGIT_PKT_FLUSH, [], advance r 4)
    else
      let! x := bgit_pkt_fill r length in
      let '(rc, r) := x in
      if rc <? 0 then iret (BGIT_PKT_ERROR, [], r)
      else
        let! data := lift (rdn (pr_buf r) (pr_at r + 4) (length - 4)) in
        iret (length - 4, data, advance r length).

(** The length of the line, or the marker; and the line. *)
Definition bgit_pkt_read_line (r : bgit_pkt_reader) : io (Z * list Z * bgit_pkt_reader) :=
  let! x := bgit_pkt_read r in
  let '(length, data, r) := x in
  if length <? 0 then iret (length, [], r)
  else let line := trim_eol data in iret (len line, line, r).

(** What has been read and not used. *)
Definition bgit_pkt_pending (r : bgit_pkt_reader) : outcome (list Z) :=
  rdn (pr_buf r) (pr_at r) (len (pr_buf r) - pr_at r).

(* ------------------------------------------------------------------ *)
(** ** Writing packets *)

Definition bgit_write_all (fd : Z) (data : list Z) : io Z :=
  let! w := get_world in
  let! ok := idx_write_loop (2 + length (w_answers w)) fd data in
  iret (if ok : bool then 0 else -1).

Definition hex_char (d : Z) : Z := if d <? 10 then 48 + d else 97 + (d - 10).

(** [%04x] of a number below 65536. *)
Definition hex4 (n : Z) : list Z :=
  [hex_char (n / 4096 mod 16); hex_char (n / 256 mod 16); hex_char (n / 16 mod 16); hex_char (n mod 16)].

Definition bgit_pkt_write (fd : Z) (data : list Z) : io Z :=
  if len data + 4 >? 65520 then iret (-1)
  else
    let! r := bgit_write_all fd (hex4 (len data + 4)) in
    if r <? 0 then iret (-1) else bgit_write_all fd data.

Definition bgit_pkt_write_raw (fd : Z) (data : list Z) : io Z := bgit_write_all fd data.

(** At least one packet, and as many as it takes. *)
Fixpoint band_loop (fuel : nat) (fd channel : Z) (data : list Z) : io Z :=
  match fuel with
  | O => lift Fault
  | S fuel' =>
      let n := if len data >? 65515 then 65515 else len data in
      let! r := bgit_pkt_write fd (u8 channel :: take (Z.to_nat n) data) in
      if r <? 0 then iret (-1)
      else
        let data := drop (Z.to_nat n) data in
        if negb (len data =? 0) then band_loop fuel' fd channel data else iret 0
  end.

Definition bgit_pkt_write_band (fd channel : Z) (data : list Z) : io Z :=
  band_loop (S (length data)) fd channel data.

(** [text] is what the format and its arguments give. *)
Definition bgit_pkt_writef (fd : Z) (text : list Z) : io Z :=
  if len text >=? 4096 then iret (-1) else bgit_pkt_write fd text.

Definition bgit_pkt_flush (fd : Z) : io Z := bgit_write_all fd (str "0000").
Definition bgit_pkt_delim (fd : Z) : io Z := bgit_write_all fd (str "0001").

(* ------------------------------------------------------------------ *)
(** ** Where a request goes *)

(** [io_done] says the request is complete, and where its answer comes from:
    over HTTP a new reader. *)
Record bgit_proto_io := {
  io_reader : bgit_pkt_reader;
  io_write : list Z -> io Z;
  io_done : io (Z * bgit_pkt_reader) }.

Definition bgit_proto_io_fd (reader : bgit_pkt_reader) (fd : Z) : bgit_proto_io :=
  {| io_reader := reader; io_write := bgit_write_all fd; io_done := iret (0, reader) |}.

Definition bgit_proto_write (o : bgit_proto_io) (data : list Z) : io Z :=
  if len data + 4 >? 65520 then iret (-1)
  else
    let! r := io_write o (hex4 (len data + 4)) in
    if r <? 0 then iret (-1) else io_write o data.

Definition bgit_proto_writef (o : bgit_proto_io) (text : list Z) : io Z :=
  if len text >=? 4096 then iret (-1) else bgit_proto_write o text.

Definition bgit_proto_flush (o : bgit_proto_io) : io Z := io_write o (str "0000").
Definition bgit_proto_delim (o : bgit_proto_io) : io Z := io_write o (str "0001").
Definition bgit_proto_raw (o : bgit_proto_io) (data : list Z) : io Z := io_write o data.
Definition bgit_proto_done (o : bgit_proto_io) : io (Z * bgit_pkt_reader) := io_done o.

(** One formatted packet after another, until one fails. *)
Fixpoint writef_each (o : bgit_proto_io) (texts : list (list Z)) : io Z :=
  match texts with
  | [] => iret 0
  | t :: texts' =>
      let! r := bgit_proto_writef o t in
      if r <? 0 then iret (-1) else writef_each o texts'
  end.

(* ------------------------------------------------------------------ *)
(** ** Capabilities *)

(** The lines, until the flush that ends them. *)
Fixpoint caps_loop (fuel : nat) (r : bgit_pkt_reader) (lines : list (list Z)) (named_service : bool)
    : io (option (list (list Z)) * bgit_pkt_reader) :=
  match fuel with
  | O => lift Fault
  | S fuel' =>
      let! x := bgit_pkt_read_line r in
      let '(length, line, r) := x in
      let line := c_text line in
      if length =? BGIT_PKT_FLUSH then
        if named_service && (len lines =? 0) then caps_loop fuel' r lines false else iret (Some lines, r)
      else if length <? 0 then iret (None, r)
      else if (len lines =? 0) && starts (str "# service=") line then caps_loop fuel' r lines true
      else caps_loop fuel' r (lines ++ [line]) named_service
  end.

Definition bgit_proto_read_caps (fuel : nat) (r : bgit_pkt_reader) : io (option (list (list Z)) * bgit_pkt_reader) :=
  let! x := caps_loop fuel r [] false in
  let '(lines, r) := x in
  match lines with
  | Some ((first :: _) as lines) =>
      if beq first (str "version 2") then iret (Some lines, r) else iret (None, r)
  | _ => iret (None, r)
  end.

Fixpoint cap_loop (lines : list (list Z)) (name : list Z) : option (list Z) :=
  match lines with
  | [] => None
  | line :: lines' =>
      if negb (starts name line) then cap_loop lines' name
      else match drop (length name) line with
           | [] => Some []
           | c :: value => if c =? 61 then Some value else cap_loop lines' name
           end
  end.

(** The value of a capability, "" when it has none. *)
Definition bgit_proto_cap (caps : list (list Z)) (name : list Z) : option (list Z) :=
  cap_loop (drop 1 caps) name.

(* ------------------------------------------------------------------ *)
(** ** References *)

Record bgit_proto_ref := {
  ref_id : list Z; ref_name : list Z; ref_symref : option (list Z); ref_peeled : list Z }.

(** The first protocol's listing: the references and, from the first line that
    has them, the capabilities. *)
Fixpoint refs_v0_loop (fuel : nat) (r : bgit_pkt_reader) (refs : list bgit_proto_ref)
    (caps : option (list Z)) (named_service : bool)
    : io (option (list bgit_proto_ref) * option (list Z) * bgit_pkt_reader) :=
  match fuel with
  | O => lift Fault
  | S fuel' =>
      let! x := bgit_pkt_read r in
      let '(got, data, r) := x in
      if (got =? BGIT_PKT_FLUSH) && named_service then refs_v0_loop fuel' r refs caps false
      else if (got =? BGIT_PKT_FLUSH) || (got =? BGIT_PKT_EOF) then iret (Some refs, caps, r)
      else if got <? 0 then iret (None, caps, r)
      else if (got >? 10) && starts (str "# service=") data then refs_v0_loop fuel' r refs caps true
      else
        let '(line, caps) :=
          match find_byte 0 data with
          | Some nul =>
              (take nul data, match caps with None => Some (trim_eol (drop (S nul) data)) | _ => caps end)
          | None => (data, caps)
          end in
        let line := trim_eol line in
        if (len line <? 42) || negb (nth 40 line 0 =? 32) then refs_v0_loop fuel' r refs caps named_service
        else
          let name := drop 41 line in
          if beq name (str "capabilities^{}") then refs_v0_loop fuel' r refs caps named_service
          else
            refs_v0_loop fuel' r
              (refs ++ [{| ref_id := take 40 line; ref_name := name; ref_symref := None; ref_peeled := [] |}])
              caps named_service
  end.

Definition bgit_proto_read_refs_v0 (fuel : nat) (r : bgit_pkt_reader)
    : io (option (list bgit_proto_ref) * option (list Z) * bgit_pkt_reader) :=
  refs_v0_loop fuel r [] None false.

(** A string up to the first space, and what follows it. *)
Definition cut_space (s : list Z) : list Z * option (list Z) :=
  match find_byte 32 s with
  | Some n => (take n s, Some (drop (S n) s))
  | None => (s, None)
  end.

Fixpoint attribute_loop (fuel : nat) (attribute : option (list Z)) (ref : bgit_proto_ref) : bgit_proto_ref :=
  match fuel, attribute with
  | S fuel', Some ((_ :: _) as s) =>
      let '(word, next) := cut_space s in
      let ref :=
        if starts (str "symref-target:") word then
          {| ref_id := ref_id ref; ref_name := ref_name ref; ref_symref := Some (drop 14 word); ref_peeled := ref_peeled ref |}
        else if starts (str "peeled:") word && (len (drop 7 word) =? 40) then
          {| ref_id := ref_id ref; ref_name := ref_name ref; ref_symref := ref_symref ref; ref_peeled := drop 7 word |}
        else ref in
      attribute_loop fuel' next ref
  | _, _ => ref
  end.

(** "<id> <name>[ symref-target:<ref>][ peeled:<id>]", or nothing. *)
Definition ls_line (line : list Z) : option bgit_proto_ref :=
  match cut_space line with
  | (id, Some rest) =>
      if negb (len id =? 40) then None
      else
        let '(name, attribute) := cut_space rest in
        Some (attribute_loop (length line) attribute
                {| ref_id := id; ref_name := name; ref_symref := None; ref_peeled := [] |})
  | (_, None) => None
  end.

Fixpoint ls_loop (fuel : nat) (r : bgit_pkt_reader) (refs : list bgit_proto_ref)
    : io (option (list bgit_proto_ref) * bgit_pkt_reader) :=
  match fuel with
  | O => lift Fault
  | S fuel' =>
      let! x := bgit_pkt_read_line r in
      let '(length, line, r) := x in
      if length =? BGIT_PKT_FLUSH then iret (Some refs, r)
      else if length <? 0 then iret (None, r)
      else match ls_line (c_text line) with
           | None => ls_loop fuel' r refs
           | Some ref => ls_loop fuel' r (refs ++ [ref])
           end
  end.

Definition bgit_proto_ls_refs (fuel : nat) (o : bgit_proto_io) (prefixes : list (list Z))
    (want_symrefs want_peeled : bool) : io (option (list bgit_proto_ref) * bgit_pkt_reader) :=
  let! r := writef_each o [str "command=ls-refs" ++ [10]; str "object-format=sha1" ++ [10]] in
  if r <? 0 then iret (None, io_reader o) else
  let! r := bgit_proto_delim o in
  if r <? 0 then iret (None, io_reader o) else
  let! r := writef_each o ((if want_peeled then [str "peel" ++ [10]] else []) ++
              (if want_symrefs then [str "symrefs" ++ [10]] else []) ++
              map (fun p => str "ref-prefix " ++ p ++ [10]) prefixes) in
  if r <? 0 then iret (None, io_reader o) else
  let! r := bgit_proto_flush o in
  if r <? 0 then iret (None, io_reader o) else
  let! x := bgit_proto_done o in
  let '(rc, reader) := x in
  if rc <? 0 then iret (None, reader) else ls_loop fuel reader [].

(* ------------------------------------------------------------------ *)
(** ** Fetching *)

(** The far end's text: what is held of the last line, and the lines printed. *)
Definition aside : Type := list Z * list (list Z).

Definition say_char (a : aside) (c : Z) : aside :=
  let '(held, printed) := a in
  let full := (c =? 10) || (len held + 1 >=? 8192) in
  let printed := if full then printed ++ [held] else printed in
  let held := if full then [] else held in
  if full && (c =? 10) then (held, printed) else (held ++ [c], printed).

Definition bgit_proto_aside_say (a : aside) (data : list Z) : aside := foldl say_char a data.

Definition bgit_proto_aside_flush (a : aside) : aside :=
  let '(held, printed) := a in
  if len held =? 0 then a else ([], printed ++ [held]).

(** The pack so far; [None] when the answer is not one. *)
Fixpoint fetch_loop (fuel : nat) (r : bgit_pkt_reader) (in_pack : bool) (body : list Z) (a : aside)
    : io (option (list Z) * aside * bgit_pkt_reader) :=
  match fuel with
  | O => lift Fault
  | S fuel' =>
      let! x := bgit_pkt_read r in
      let '(got, data, r) := x in
      if (got =? BGIT_PKT_FLUSH) || (got =? BGIT_PKT_EOF) then iret (Some body, bgit_proto_aside_flush a, r)
      else if got =? BGIT_PKT_DELIM then fetch_loop fuel' r in_pack body a
      else if got <? 0 then iret (None, a, r)
      else if negb in_pack then
        fetch_loop fuel' r ((got >=? 8) && starts (str "packfile") data) body a
      else
        match data with
        | [] => fetch_loop fuel' r in_pack body a
        | channel :: rest =>
            if channel =? 1 then fetch_loop fuel' r in_pack (body ++ rest) a
            else if channel =? 2 then fetch_loop fuel' r in_pack body (bgit_proto_aside_say a rest)
            else iret (None, (fst a, snd a ++ [rest]), r)
        end
  end.

Definition bgit_proto_fetch (fuel : nat) (o : bgit_proto_io) (wants haves : list (list Z))
    : io (option (list Z) * aside * bgit_pkt_reader) :=
  let none := (None, ([], []), io_reader o) in
  let! r := writef_each o [str "command=fetch" ++ [10]; str "object-format=sha1" ++ [10]] in
  if r <? 0 then iret none else
  let! r := bgit_proto_delim o in
  if r <? 0 then iret none else
  let! r := writef_each o ([str "ofs-delta" ++ [10]; str "no-progress" ++ [10]; str "include-tag" ++ [10]] ++
              map (fun x => str "want " ++ x ++ [10]) wants ++
              map (fun x => str "have " ++ x ++ [10]) haves ++ [str "done" ++ [10]]) in
  if r <? 0 then iret none else
  let! r := bgit_proto_flush o in
  if r <? 0 then iret none else
  let! x := bgit_proto_done o in
  let '(rc, reader) := x in
  if rc <? 0 then iret (None, ([], []), reader) else fetch_loop fuel reader false [] ([], []).

(* ------------------------------------------------------------------ *)
(** ** Packets *)

Inductive packet := Data (payload : list Z) | Flush | Delim | End_.

Definition encode (p : packet) : list Z :=
  match p with
  | Data payload => hex4 (len payload + 4) ++ payload
  | Flush => str "0000"
  | Delim => str "0001"
  | End_ => str "0002"
  end.

Definition packet_ok (p : packet) : Prop :=
  match p with Data payload => bytes payload /\ len payload <= 65516 | _ => True end.

Definition packet_code (p : packet) : Z :=
  match p with
  | Data payload => len payload
  | Flush => BGIT_PKT_FLUSH
  | Delim => BGIT_PKT_DELIM
  | End_ => BGIT_PKT_END
  end.

Definition packet_data (p : packet) : list Z := match p with Data payload => payload | _ => [] end.

(** What the next packet of a byte stream is, with all of the stream in sight:
    its code, its payload and the rest. *)
Definition next_packet (R : list Z) : Z * list Z * list Z :=
  if len R <? 4 then ((if len R =? 0 then BGIT_PKT_EOF else BGIT_PKT_ERROR), [], R)
  else
    let length := bgit_pkt_hex (slice R 0 4) in
    if (length <? 0) || ((length >? 0) && (length <? 4)) then
      if length =? 1 then (BGIT_PKT_DELIM, [], drop 4 R)
      else if length =? 2 then (BGIT_PKT_END, [], drop 4 R)
      else (BGIT_PKT_ERROR, [], R)
    else if length =? 0 then (BGIT_PKT_FLUSH, [], drop 4 R)
    else if len R <? length then (BGIT_PKT_ERROR, [], R)
    else (length - 4, slice R 4 (length - 4), drop (Z.to_nat length) R).

Lemma pkt_digit_hex_char d : 0 <= d < 16 -> pkt_digit (hex_char d) = d.
Proof. intros Hd. unfold pkt_digit, hex_char. case_if; repeat case_if; lia. Qed.

Lemma hex4_value n : 0 <= n < 65536 -> bgit_pkt_hex (hex4 n) = n.
Proof.
  intros Hn. unfold bgit_pkt_hex, hex4. cbn [pkt_hex_loop].
  rewrite !pkt_digit_hex_char by (apply Z.mod_pos_bound; lia).
  assert (Hm : forall a, 0 <= a mod 16) by (intros; apply Z.mod_pos_bound; lia).
  rewrite !(proj2 (Z.ltb_ge _ 0)) by apply Hm. dlia.
Qed.

Lemma hex4_bytes n : bytes (hex4 n).
Proof.
  unfold hex4, hex_char. repeat constructor; case_if; pose proof (Z.mod_pos_bound (n / 4096) 16 ltac:(lia));
    pose proof (Z.mod_pos_bound (n / 256) 16 ltac:(lia)); pose proof (Z.mod_pos_bound (n / 16) 16 ltac:(lia));
    pose proof (Z.mod_pos_bound n 16 ltac:(lia)); unfold is_byte; lia.
Qed.

(** A packet at the front of a stream is the next one. *)
Lemma next_encode p R : packet_ok p -> next_packet (encode p ++ R) = (packet_code p, packet_data p, R).
Proof.
  intros Hp. pose proof (len_nonneg R). destruct p as [payload| | |];
    try (unfold next_packet; cbn [encode packet_code packet_data]; rewrite len_app;
         replace (4 + len R <? 4) with false by (symmetry; solve_false);
         change (len (str _)) with 4; replace (4 + len R <? 4) with false by (symmetry; solve_false); reflexivity).
  destruct Hp as [_ Hl]. pose proof (len_nonneg payload). cbn [encode packet_code packet_data].
  unfold next_packet. rewrite <- app_assoc. assert (H4 : len (hex4 (len payload + 4)) = 4) by reflexivity.
  rewrite !len_app, H4. if_false.
  assert (Es : slice (hex4 (len payload + 4) ++ payload ++ R) 0 4 = hex4 (len payload + 4)) by reflexivity.
  rewrite Es, hex4_value by lia. cbn zeta. if_false. if_false. if_false.
  f_equal; [f_equal; [lia|]|].
  - unfold slice. change (drop (Z.to_nat 4) (hex4 (len payload + 4) ++ payload ++ R)) with (payload ++ R).
    replace (Z.to_nat (len payload + 4 - 4)) with (length payload) by (unfold len; lia). apply take_app_length.
  - replace (Z.to_nat (len payload + 4)) with (length (hex4 (len payload + 4) ++ payload))
      by (rewrite length_app; unfold len; cbn; lia).
    rewrite app_assoc. apply drop_app_length.
Qed.

(* ------------------------------------------------------------------ *)
(** ** The reader sees the packets of the stream *)

(** The bytes still to be read are [R]: some in the buffer, and the rest, when
    there is a descriptor, behind it. *)
Definition streams (r : bgit_pkt_reader) (R : list Z) (w : world) : Prop :=
  0 <= pr_at r <= len (pr_buf r) /\ 0 <= pr_cap r /\ bytes R /\ len R <= UINT_MAX /\
  if pr_fd r <? 0 then R = drop (Z.to_nat (pr_at r)) (pr_buf r)
  else arrived R (pr_fd r) (drop (Z.to_nat (pr_at r)) (pr_buf r)) w.

(** A reader at some place of a file. *)
Lemma streams_file fd i pos n R w : 0 <= fd -> w_fds w !! Z.to_N fd = Some (i, pos) -> 0 <= pos ->
  inodes (w_fs w) !! i = Some n -> i_dir n = false -> drop (Z.to_nat pos) (i_data n) = R -> bytes R -> len R <= UINT_MAX ->
  streams (bgit_pkt_from_fd fd) R w.
Proof.
  intros Hfd Hw Hpos Hi Hdir HR Hb Hl. unfold streams. cbn. rewrite (proj2 (Z.ltb_ge fd 0)) by lia.
  split; [done|]. split; [done|]. split; [done|]. split; [done|]. split; [done|]. split; [done|].
  exists i, pos, n. by rewrite drop_0.
Qed.

Definition pending (r : bgit_pkt_reader) : list Z := drop (Z.to_nat (pr_at r)) (pr_buf r).

Lemma streams_pending r R w : streams r R w -> pending r = take (length (pending r)) R.
Proof.
  intros (_ & _ & _ & _ & H). unfold pending. destruct (pr_fd r <? 0); [subst R; by rewrite firstn_all|]. apply H.
Qed.

Lemma streams_rdn r R w off n : streams r R w -> 0 <= off -> 0 <= n -> off + n <= len (pending r) ->
  rdn (pr_buf r) (pr_at r + off) n = Ret (slice R off n).
Proof.
  intros Hs Ho Hn Hl. pose proof (streams_pending r R w Hs) as Ep. destruct Hs as (Ha & _).
  unfold pending in *. rewrite len_drop in Hl. rewrite rdn_slice by lia. f_equal.
  rewrite (slice_take R) by lia.
  transitivity (slice (drop (Z.to_nat (pr_at r)) (pr_buf r)) off n).
  - unfold slice. rewrite drop_drop. do 2 f_equal. lia.
  - rewrite (slice_take (drop _ _)) by lia. f_equal. rewrite Ep, take_take. f_equal.
    rewrite length_drop. unfold len in *. lia.
Qed.

(** Taking bytes off the front of the stream. *)
Lemma arrived_drop D fd buf w n : (n <= length buf)%nat -> arrived D fd buf w -> arrived (drop n D) fd (drop n buf) w.
Proof.
  intros Hn (Hfd & Hb & i & pos & nd & Hw & Hpos & Hi & Hd & Hrest). split; [done|]. split.
  - rewrite Hb at 1. rewrite skipn_firstn_comm, length_drop. done.
  - exists i, pos, nd. split_and!; try done. rewrite Hrest, drop_drop, length_drop. f_equal. lia.
Qed.

Lemma streams_advance r R w n : streams r R w -> 0 <= n <= len (pending r) -> streams (advance r n) (drop (Z.to_nat n) R) w.
Proof.
  intros Hs Hn. pose proof (streams_pending r R w Hs) as Ep. destruct Hs as (Ha & Hc & Hb & Hm & H).
  unfold streams, advance, pending in *. cbn [pr_at pr_buf pr_fd pr_cap pr_owns]. rewrite len_drop in Hn.
  replace (Z.to_nat (pr_at r + n)) with (Z.to_nat (pr_at r) + Z.to_nat n)%nat by lia.
  split; [lia|]. split; [done|]. split; [by apply Forall_drop|]. split; [rewrite len_drop; pose proof (len_nonneg R); lia|].
  destruct (pr_fd r <? 0).
  - rewrite H, drop_drop. done.
  - rewrite <- drop_drop. apply arrived_drop; [rewrite length_drop; unfold len in *; lia|done].
Qed.

Lemma fill_loop_spec D fd want fuel : len D <= UINT_MAX -> forall buf cap owns w r w',
  (Z.to_nat (want - len buf) + length (w_answers w) < fuel)%nat -> 0 <= cap -> arrived D fd buf w ->
  fill_loop fuel fd buf cap owns want w = (r, w') ->
  moves w w' /\ exists rc buf' cap' owns', r = Ret (rc, buf', cap', owns') /\ 0 <= cap' /\ arrived D fd buf' w' /\
    ((rc = 0 /\ want <= len buf') \/ (rc = -1 /\ (cooperative w -> buf' = D /\ len D < want))).
Proof.
  intros Hmax. induction fuel as [|fuel IH]; intros buf cap owns w r w' Hf Hcap Harr HR; [lia|]. cbn [fill_loop] in HR.
  case_if_in HR.
  2:{ injection HR as <- <-. split; [apply moves_refl|]. eexists _, _, _, _. split; [done|]. split; [done|]. split; [done|]. left. lia. }
  set (cap1 := if len buf + 8192 >? cap then _ else cap) in HR. set (owns1 := (_ || owns)) in HR.
  pose proof (arrived_len D fd _ _ Harr) as Hl. pose proof (len_nonneg buf) as Hbn.
  assert (Hc1 : 0 < cap1 - len buf).
  { unfold cap1. case_if; [|lia].
    destruct (double_loop_ge 64 (if negb (cap =? 0) then cap * 2 else 16384) (len buf + 8192)) as [_ H2]; [..|lia].
    - case_if; lia.
    - change (2 ^ Z.of_nat 64) with (2 ^ 64). unfold UINT_MAX in *. case_if; lia. }
  unfold ibind at 1 in HR. destruct (sys_read fd (cap1 - len buf) w) as [r1 w1] eqn:Er.
  apply (read_arrives D fd _ buf) in Er as (Hmv & Ha & Hcase); try done.
  destruct Hcase as [(-> & Hne & Harr1 & Hint)|(data & -> & Harr1 & Hend)].
  - cbn -[fill_loop] in HR. destruct (Z.eqb_spec (w_errno w1) EINTR) as [Eint|Eint]; cbn -[fill_loop] in HR.
    + apply IH in HR as (Hmv2 & rc & buf' & cap' & owns' & -> & Hc' & Harr' & Hres); try done; try lia.
      * split; [by eapply moves_trans|]. eexists _, _, _, _. split; [done|]. split; [done|]. split; [done|].
        destruct Hres as [?|[? Hco]]; [by left|right]. split; [done|]. intros Hc. by apply Hco, (moves_cooperative w).
      * rewrite Ha. pose proof (tail_shorter _ Hne). lia.
    + injection HR as <- <-. split; [done|]. eexists _, _, _, _. split; [done|]. split; [lia|]. split; [done|]. right.
      split; [done|]. intros Hc. by apply Hint in Hc.
  - pose proof (len_nonneg data). rewrite (proj2 (Z.ltb_ge (len data) 0)) in HR by done.
    destruct (Z.eqb_spec (len data) 0) as [E0|E0].
    + injection HR as <- <-. split; [done|]. eexists _, _, _, _. split; [done|]. split; [lia|].
      assert (data = []) as -> by (destruct data; [done|rewrite len_cons in E0; pose proof (len_nonneg data); lia]).
      rewrite app_nil_r in Harr1. split; [done|]. right. split; [done|]. intros _. by rewrite <- Hend.
    + apply IH in HR as (Hmv2 & rc & buf' & cap' & owns' & -> & Hc' & Harr' & Hres); try done; try lia.
      * split; [by eapply moves_trans|]. eexists _, _, _, _. split; [done|]. split; [done|]. split; [done|].
        destruct Hres as [?|[? Hco]]; [by left|right]. split; [done|]. intros Hc. by apply Hco, (moves_cooperative w).
      * rewrite Ha, len_app. pose proof (tail_le (w_answers w)). lia.
Qed.

Lemma fill_spec r want R w x w' : 0 <= want -> streams r R w -> bgit_pkt_fill r want w = (x, w') ->
  moves w w' /\ exists rc r', x = Ret (rc, r') /\ streams r' R w' /\
    ((rc = 0 /\ want <= len (pending r')) \/ (rc = -1 /\ (cooperative w -> pending r' = R /\ len R < want))).
Proof.
  intros Hw Hs HR. pose proof Hs as (Ha & Hc & Hb & Hm & H). unfold bgit_pkt_fill in HR. case_if_in HR.
  { injection HR as <- <-. split; [apply moves_refl|]. exists 0, r. split; [done|]. split; [done|]. left. split; [done|].
    unfold pending. rewrite len_drop. lia. }
  case_if_in HR.
  { injection HR as <- <-. split; [apply moves_refl|]. exists (-1), r. split; [done|]. split; [done|]. right. split; [done|].
    intros _. unfold pending. split; [done|]. rewrite H, len_drop. lia. }
  set (buf := if negb (pr_at r =? 0) then _ else _) in HR.
  assert (Ebuf : buf = drop (Z.to_nat (pr_at r)) (pr_buf r)).
  { unfold buf. case_if; [done|]. by replace (pr_at r) with 0 by lia. }
  rewrite Ebuf in HR. clear buf Ebuf. unfold ibind at 1, get_world in HR. unfold ibind in HR.
  destruct (fill_loop _ (pr_fd r) _ (pr_cap r) (pr_owns r) want w) as [r1 w1] eqn:E.
  apply (fill_loop_spec R) in E as (Hmv & rc & buf & cap & owns & -> & Hcap & Harr & Hres); try done;
    [|pose proof (len_nonneg (drop (Z.to_nat (pr_at r)) (pr_buf r))); lia].
  injection HR as <- <-. split; [done|]. eexists _, _. split; [done|].
  assert (Hnew : streams {| pr_fd := pr_fd r; pr_buf := buf; pr_at := 0; pr_cap := cap; pr_owns := owns |} R w1).
  { unfold streams. cbn [pr_at pr_buf pr_fd pr_cap]. rewrite (proj2 (Z.ltb_ge (pr_fd r) 0)) by lia.
    pose proof (len_nonneg buf). by split_and!. }
  split; [exact Hnew|]. unfold pending. cbn [pr_at pr_buf]. rewrite drop_0.
  destruct Hres as [[-> ?]|[-> ?]]; [by left|by right].
Qed.

(** Reading a packet is taking the next one off the stream. *)
Lemma pkt_read_spec r R w x w' : streams r R w -> bgit_pkt_read r w = (x, w') ->
  moves w w' /\ exists code data r', x = Ret (code, data, r') /\
    ((exists R', next_packet R = (code, data, R') /\ streams r' R' w') \/
     (~ cooperative w /\ (code = BGIT_PKT_EOF \/ code = BGIT_PKT_ERROR) /\ data = [])).
Proof.
  intros Hs HR. unfold bgit_pkt_read in HR. unfold ibind at 1 in HR.
  destruct (bgit_pkt_fill r 4 w) as [r1 w1] eqn:E1. apply (fill_spec r 4 R) in E1 as (Hmv1 & rc & r' & -> & Hs1 & Hres); [|lia|done].
  pose proof (len_nonneg R). pose proof Hs1 as (Ha1 & _).
  assert (Hpl : len (pending r') <= len R) by (rewrite (streams_pending _ _ _ Hs1), len_take; lia).
  assert (Epl : len (pending r') = len (pr_buf r') - pr_at r') by (unfold pending; rewrite len_drop; lia).
  unfold next_packet. destruct Hres as [[-> H4]|[-> Hco]].
  2:{ cbn -[Z.eqb] in HR. injection HR as <- <-. split; [done|]. eexists _, _, _. split; [done|].
      destruct (decide (cooperative w)) as [Hc|Hnc]; [left|right].
      - destruct (Hco Hc) as [Ep Hl]. exists R. split; [|done]. if_true. rewrite Ep in Epl.
        destruct (Z.eqb_spec (pr_at r') (len (pr_buf r'))), (Z.eqb_spec (len R) 0); (done || lia).
      - split; [done|]. split; [case_if; auto|done]. }
  rewrite (proj2 (Z.ltb_ge 0 0)) in HR by lia. rewrite (proj2 (Z.ltb_ge (len R) 4)) by lia.
  unfold ibind at 1, lift at 1 in HR. rewrite <- (Z.add_0_r (pr_at r')) in HR at 1.
  rewrite (streams_rdn r' R w1) in HR by (done || lia). cbn zeta in HR |- *.
  set (length := bgit_pkt_hex (slice R 0 4)) in *.
  assert (Hadv : forall n, 0 <= n <= len (pending r') -> streams (advance r' n) (drop (Z.to_nat n) R) w1).
  { intros n Hn. by apply streams_advance. }
  destruct ((length <? 0) || ((length >? 0) && (length <? 4))) eqn:Ebad.
  { destruct (length =? 1); [|destruct (length =? 2)]; injection HR as <- <-; (split; [done|]); eexists _, _, _; (split; [done|]); left.
    - eexists. split; [done|]. apply (Hadv 4). lia.
    - eexists. split; [done|]. apply (Hadv 4). lia.
    - exists R. by split. }
  destruct (Z.eqb_spec length 0) as [E0|E0].
  { injection HR as <- <-. split; [done|]. eexists _, _, _. split; [done|]. left. eexists. split; [done|]. apply (Hadv 4). lia. }
  assert (Hlen : 4 <= length).
  { destruct (length <? 0) eqn:B1, (length >? 0) eqn:B2, (length <? 4) eqn:B3; simpl in Ebad; try discriminate; simpl_bool; lia. }
  unfold ibind at 1 in HR. destruct (bgit_pkt_fill r' length w1) as [r2 w2] eqn:E2.
  apply (fill_spec r' length R) in E2 as (Hmv2 & rc & r2' & -> & Hs2 & Hres); [|lia|done].
  assert (Hpl2 : len (pending r2') <= len R) by (rewrite (streams_pending _ _ _ Hs2), len_take; lia).
  assert (Hmv : moves w w2) by (by eapply moves_trans). destruct Hres as [[-> Hl]|[-> Hco]].
  - rewrite (proj2 (Z.ltb_ge 0 0)) in HR by lia. rewrite (proj2 (Z.ltb_ge (len R) length)) by lia.
    unfold ibind, lift in HR. rewrite (streams_rdn r2' R w2) in HR by (done || lia). injection HR as <- <-. split; [done|].
    eexists _, _, _. split; [done|]. left. eexists. split; [done|]. apply streams_advance; [done|lia].
  - cbn -[Z.eqb] in HR. injection HR as <- <-. split; [done|]. eexists _, _, _. split; [done|].
    destruct (decide (cooperative w)) as [Hc|Hnc]; [left|right; auto].
    destruct (Hco (moves_cooperative _ _ Hmv1 Hc)) as [_ Hl]. rewrite (proj2 (Z.ltb_lt (len R) length)) by lia. exists R. by split.
Qed.

(* ------------------------------------------------------------------ *)
(** ** What the writers send *)

Definition encodes (ps : list packet) : list Z := concat (map encode ps).

(** Descriptor [fd] writes at the end of the file [i], which holds [d]. *)
Definition sends (fd : Z) (i : N) (d : list Z) (w : world) : Prop :=
  0 <= fd /\ w_fds w !! Z.to_N fd = Some (i, len d) /\
  exists n, inodes (w_fs w) !! i = Some n /\ i_dir n = false /\ i_data n = d.

(** Everything but that descriptor and that file is as it was, and the script
    has only been read on. *)
Definition aside_from (fd : Z) (i : N) (w w' : world) : Prop :=
  (forall k, k <> Z.to_N fd -> w_fds w' !! k = w_fds w !! k) /\
  (forall j, j <> i -> inodes (w_fs w') !! j = inodes (w_fs w) !! j) /\
  (exists used, w_answers w = used ++ w_answers w').

Lemma aside_from_refl fd i w : aside_from fd i w w.
Proof. split_and!; try done. by exists []. Qed.

Lemma aside_from_trans fd i w1 w2 w3 : aside_from fd i w1 w2 -> aside_from fd i w2 w3 -> aside_from fd i w1 w3.
Proof.
  intros (A1 & A2 & u1 & A3) (B1 & B2 & u2 & B3). split_and!.
  - intros k Hk. by rewrite B1, A1.
  - intros j Hj. by rewrite B2, A2.
  - exists (u1 ++ u2). by rewrite <- app_assoc, <- B3.
Qed.

(** A writer that sends [b], or fails, when the kernel does, having sent
    something. *)
Definition emits (fd : Z) (i : N) (c : io Z) (b : list Z) : Prop :=
  forall d w x w', sends fd i d w -> c w = (x, w') ->
  exists rc d', x = Ret rc /\ sends fd i d' w' /\ aside_from fd i w w' /\
    ((rc = 0 /\ d' = d ++ b) \/ (rc = -1 /\ ~ cooperative w)).

Lemma aside_from_cooperative fd i w w' : aside_from fd i w w' -> cooperative w -> cooperative w'.
Proof. intros (_ & _ & u & E). unfold cooperative. rewrite E. by intros [_ ?]%Forall_app. Qed.

Lemma emits_nil fd i : emits fd i (iret 0) [].
Proof.
  intros d w x w' Hs [= <- <-]. exists 0, d. split; [done|]. split; [done|]. split; [apply aside_from_refl|]. left. by rewrite app_nil_r.
Qed.

Lemma emits_then {B} fd i (c : io Z) b (fail : B) (k : io B) d w x w' (P : B -> world -> Prop) :
  emits fd i c b -> sends fd i d w ->
  (let! r := c in if r <? 0 then iret fail else k) w = (x, w') ->
  (forall w1 d1, sends fd i d1 w1 -> aside_from fd i w w1 -> ~ cooperative w -> P fail w1) ->
  (forall w1, sends fd i (d ++ b) w1 -> aside_from fd i w w1 -> k w1 = (x, w') -> exists y, x = Ret y /\ P y w') ->
  exists y, x = Ret y /\ P y w'.
Proof.
  intros Hc Hs HR Hf Hk. unfold ibind in HR. destruct (c w) as [r1 w1] eqn:E.
  destruct (Hc _ _ _ _ Hs E) as (rc & d' & -> & Hs' & Ho & Hres). destruct Hres as [[-> ->] | [-> Hnc]].
  - by apply (Hk w1).
  - injection HR as <- <-. exists fail. split; [done|]. by eapply (Hf w1).
Qed.

(** The same, under a kernel that does not fail. *)
Lemma emits_go {B} fd i (c : io Z) b (fail : B) (k : io B) d w0 w x w' :
  emits fd i c b -> sends fd i d w /\ aside_from fd i w0 w /\ cooperative w ->
  (let! r := c in if r <? 0 then iret fail else k) w = (x, w') ->
  exists w1, (sends fd i (d ++ b) w1 /\ aside_from fd i w0 w1 /\ cooperative w1) /\ k w1 = (x, w').
Proof.
  intros Hc (Hs & Ho & Hco) HR. unfold ibind in HR. destruct (c w) as [r1 w1] eqn:E.
  destruct (Hc _ _ _ _ Hs E) as (rc & d' & -> & Hs' & Ho' & Hres). destruct Hres as [[-> ->] | [_ Hnc]]; [|by destruct Hnc].
  exists w1. split; [|done]. split; [done|]. split; [by eapply aside_from_trans|by eapply aside_from_cooperative].
Qed.

Lemma emits_seq fd i c1 b1 c2 b2 : emits fd i c1 b1 -> emits fd i c2 b2 ->
  emits fd i (let! r := c1 in if r <? 0 then iret (-1) else c2) (b1 ++ b2).
Proof.
  intros H1 H2 d w x w' Hs HR.
  destruct (emits_then fd i c1 b1 (-1) c2 d w x w' (fun rc w' => exists d', sends fd i d' w' /\ aside_from fd i w w' /\
    ((rc = 0 /\ d' = d ++ b1 ++ b2) \/ (rc = -1 /\ ~ cooperative w))) H1 Hs HR) as (rc & -> & d' & ? & ? & ?).
  - intros w1 d1 Hs1 Ho Hnc. exists d1. auto.
  - intros w1 Hs1 Ho E. destruct (H2 _ _ _ _ Hs1 E) as (rc & d' & -> & Hs' & Ho' & Hres). exists rc. split; [done|].
    exists d'. split; [done|]. split; [by eapply aside_from_trans|]. rewrite app_assoc.
    destruct Hres as [?|[-> Hnc]]; [by left|right]. split; [done|]. intros Hc. by apply Hnc, (aside_from_cooperative fd i w).
  - by exists rc, d'.
Qed.

Lemma idx_write_loop_spends fuel fd : forall data w r w', idx_write_loop fuel fd data w = (r, w') ->
  exists used, w_answers w = used ++ w_answers w'.
Proof.
  induction fuel as [|fuel IH]; intros data w r w' HR; cbn [idx_write_loop] in HR; [injection HR as <- <-; by exists []|].
  case_if_in HR; [injection HR as <- <-; by exists []|]. unfold ibind at 1 in HR.
  destruct (sys_write fd data w) as [r1 w1] eqn:Hw. pose proof (write_script _ _ _ _ _ Hw) as (Ha & _ & _).
  assert (Ht : exists used, w_answers w = used ++ w_answers w1).
  { rewrite Ha. destruct (w_answers w) as [|a l]; [by exists []|by exists [a]]. }
  destruct Ht as [u1 E1].
  assert (Hgo : forall l, idx_write_loop fuel fd l w1 = (r, w') -> exists used, w_answers w = used ++ w_answers w').
  { intros l H. apply IH in H as [u2 E2]. exists (u1 ++ u2). by rewrite <- app_assoc, <- E2. }
  destruct r1 as [n| |]; [|injection HR as <- <-; by exists u1..].
  case_if_in HR; [|by eapply Hgo]. cbn -[idx_write_loop] in HR. case_if_in HR; [by eapply Hgo|].
  injection HR as <- <-. by exists u1.
Qed.

Lemma write_refused fd data w w' i pos n : sys_write fd data w = (Ret (-1), w') -> 0 <= fd ->
  w_fds w !! Z.to_N fd = Some (i, pos) -> inodes (w_fs w) !! i = Some n ->
  exists e rest, w_answers w = Errno e :: rest /\ w_errno w' = e.
Proof.
  intros HR Hfd Hf Hi. pose proof (len_nonneg data). unfold sys_write in HR.
  step_io HR; simpl in *; simpl_bool; simplify_eq; try lia; eauto.
Qed.

(** A kernel that does not fail lets everything be written. *)
Lemma idx_write_loop_cooperative fuel fd : forall data d i w r w', (length (w_answers w) + 2 <= fuel)%nat ->
  sends fd i d w -> cooperative w -> idx_write_loop fuel fd data w = (r, w') -> r = Ret true.
Proof.
  induction fuel as [|fuel IH]; intros data d i w r w' Hf Hs Hc HR; [lia|]. cbn [idx_write_loop] in HR.
  case_if_in HR; [by injection HR as <- <-|]. unfold ibind at 1 in HR.
  destruct (sys_write fd data w) as [r1 w1] eqn:Hw. pose proof (write_script _ _ _ _ _ Hw) as (Ha & _ & _).
  pose proof Hs as (Hfd & Hwf & n & Hi & Hdir & Hd). pose proof Hw as Hw2.
  eapply write_appended in Hw as (k & Hap & Hk & Hr1 & Hfull); [|done..].
  destruct (appended_ready _ _ _ _ _ _ _ Hap) as (Hfd1 & n1 & Hi1 & Hdir1 & Hd1).
  assert (Hs1 : sends fd i (d ++ take k data) w1) by (split; [done|]; split; [done|]; by exists n1).
  assert (Hc1 : cooperative w1).
  { unfold cooperative in *. rewrite Ha. destruct (w_answers w); [done|]. by inversion Hc. }
  assert (Hfuel : w_answers w <> [] -> (length (w_answers w1) + 2 <= fuel)%nat).
  { intros Hne. rewrite Ha. pose proof (tail_shorter _ Hne). lia. }
  destruct Hr1 as [[-> ->] | ->].
  - apply (write_refused fd data w w1 i (len d) n) in Hw2 as (e & rest & Ea & Ee); [|done..].
    cbn -[idx_write_loop] in HR. unfold cooperative in Hc. rewrite Ea in Hc. inversion Hc; subst.
    rewrite H1, Z.eqb_refl in HR. eapply IH in HR; [done| |done|done]. apply Hfuel. by rewrite Ea.
  - rewrite (proj2 (Z.ltb_ge (Z.of_nat k) 0)) in HR by lia. rewrite Nat2Z.id in HR.
    destruct (decide (w_answers w = [])) as [Hnil|Hne]; [|by eapply IH in HR; auto].
    specialize (Hfull Hnil). injection Hfull as Hfull. unfold len in Hfull.
    destruct fuel as [|fuel']; [lia|]. rewrite drop_ge in HR by lia. by injection HR as <- <-.
Qed.

Lemma write_all_emits fd i data : emits fd i (bgit_write_all fd data) data.
Proof.
  intros d w x w' Hs HR. pose proof Hs as (Hfd & Hw & n & Hi & Hdir & Hd). unfold bgit_write_all in HR.
  unfold ibind at 1, get_world in HR. unfold ibind in HR. destruct (idx_write_loop _ fd data w) as [r1 w1] eqn:E.
  pose proof (idx_write_loop_spends _ _ _ _ _ _ E) as Hsp.
  assert (Hco : cooperative w -> r1 = Ret true).
  { intros Hc. eapply idx_write_loop_cooperative; [|exact Hs|exact Hc|exact E]. lia. }
  eapply idx_write_loop_spec in E as (k & Hap & Hres); [|lia|done..].
  destruct (appended_ready _ _ _ _ _ _ _ Hap) as (Hfd1 & n1 & Hi1 & Hdir1 & Hd1).
  assert (Hs' : sends fd i (d ++ take k data) w1) by (split; [done|]; split; [done|]; by exists n1).
  assert (Ho : aside_from fd i w w1).
  { destruct Hap as (_ & F & (n2 & I & _) & _). split_and!; [| |done].
    - intros q Hq. by rewrite F, lookup_insert_ne.
    - intros j Hj. by rewrite I, lookup_insert_ne. }
  destruct Hres as [[-> Hk] | ->]; injection HR as <- <-.
  - exists 0, (d ++ take k data). split; [done|]. split; [done|]. split; [done|]. left. by rewrite take_ge.
  - exists (-1), (d ++ take k data). split; [done|]. split; [done|]. split; [done|]. right. split; [done|].
    intros Hc. by apply Hco in Hc.
Qed.

Lemma proto_write_emits fd i r data : len data <= 65516 ->
  emits fd i (bgit_proto_write (bgit_proto_io_fd r fd) data) (encode (Data data)) /\
  emits fd i (bgit_pkt_write fd data) (encode (Data data)).
Proof.
  intros Hl. split.
  - unfold bgit_proto_write. if_false. cbn [io_write bgit_proto_io_fd encode]. apply emits_seq; apply write_all_emits.
  - unfold bgit_pkt_write. if_false. cbn [encode]. apply emits_seq; apply write_all_emits.
Qed.

Lemma writef_each_emits fd i r texts : Forall (fun t => len t < 4096) texts ->
  emits fd i (writef_each (bgit_proto_io_fd r fd) texts) (encodes (map Data texts)).
Proof.
  induction 1 as [|t texts Ht _ IH]; [apply emits_nil|]. cbn [writef_each map]. unfold encodes. cbn [map concat].
  apply emits_seq; [|apply IH]. unfold bgit_proto_writef. geb_false (len t) 4096.
  exact (proj1 (proto_write_emits fd i r t ltac:(lia))).
Qed.

(** The packets of one band. *)
Fixpoint band_packets (fuel : nat) (channel : Z) (data : list Z) : list packet :=
  match fuel with
  | O => []
  | S fuel' =>
      Data (u8 channel :: take (Z.to_nat (Z.min 65515 (len data))) data) ::
      (if len data >? 65515 then band_packets fuel' channel (drop (Z.to_nat 65515) data) else [])
  end.

Definition band (channel : Z) (data : list Z) : list packet := band_packets (S (length data)) channel data.

Lemma band_loop_emits fd i channel fuel : forall data, (length data < fuel)%nat ->
  emits fd i (band_loop fuel fd channel data) (encodes (band_packets fuel channel data)).
Proof.
  induction fuel as [|fuel IH]; intros data Hf; [lia|]. cbn [band_loop band_packets]. unfold encodes. cbn [map concat].
  set (n := if len data >? 65515 then 65515 else len data). pose proof (len_nonneg data).
  assert (En : n = Z.min 65515 (len data)) by (unfold n; case_if; lia). rewrite <- En.
  apply emits_seq.
  - refine (proj2 (proto_write_emits fd i (bgit_pkt_from_fd 0) _ _)). rewrite len_cons, len_take. lia.
  - rewrite len_drop. destruct (Z.gtb_spec (len data) 65515) as [Hgt|Hle].
    + replace n with 65515 in * by lia. replace (negb (Z.max 0 (len data - Z.of_nat (Z.to_nat 65515)) =? 0)) with true
        by (symmetry; apply negb_true_iff, Z.eqb_neq; lia).
      apply IH. rewrite length_drop. unfold len in *. lia.
    + replace (negb (Z.max 0 (len data - Z.of_nat (Z.to_nat n)) =? 0)) with false by (symmetry; apply negb_false_iff, Z.eqb_eq; lia).
      apply emits_nil.
Qed.

(* ------------------------------------------------------------------ *)
(** ** Reading a run of packets *)

Lemma pkt_read_packet r p R w x w' : packet_ok p -> streams r (encode p ++ R) w -> cooperative w ->
  bgit_pkt_read r w = (x, w') ->
  moves w w' /\ cooperative w' /\ exists r', x = Ret (packet_code p, packet_data p, r') /\ streams r' R w'.
Proof.
  intros Hp Hs Hc HR. apply (pkt_read_spec r (encode p ++ R)) in HR as (Hmv & code & data & r' & -> & Hres); [|done].
  split; [done|]. split; [by eapply moves_cooperative|]. destruct Hres as [(R' & E & Hs')|(Hnc & _)]; [|done].
  rewrite next_encode in E by done. injection E as <- <- <-. by exists r'.
Qed.

Lemma encodes_cons p ps R : encodes (p :: ps) ++ R = encode p ++ encodes ps ++ R.
Proof. unfold encodes. cbn [map concat]. by rewrite <- app_assoc. Qed.

Lemma encodes_app ps qs : encodes (ps ++ qs) = encodes ps ++ encodes qs.
Proof. unfold encodes. by rewrite map_app, concat_app. Qed.

Lemma encodes_bytes ps : Forall packet_ok ps -> bytes (encodes ps).
Proof.
  induction 1 as [|p ps Hp _ IH]; [constructor|]. unfold encodes. cbn [map concat]. apply Forall_app. split; [|exact IH].
  destruct p as [payload| | |]; [|solve_bytes..]. apply Forall_app. split; [apply hex4_bytes|apply Hp].
Qed.

(** [n] packets read one after another: codes and payloads. *)
Fixpoint read_packets (n : nat) (r : bgit_pkt_reader) : io (list (Z * list Z) * bgit_pkt_reader) :=
  match n with
  | O => iret ([], r)
  | S n' =>
      let! x := bgit_pkt_read r in
      let '(code, data, r) := x in
      let! y := read_packets n' r in
      let '(rest, r) := y in
      iret ((code, data) :: rest, r)
  end.

Lemma read_packets_spec ps R : Forall packet_ok ps -> forall r w x w', streams r (encodes ps ++ R) w -> cooperative w ->
  read_packets (length ps) r w = (x, w') ->
  cooperative w' /\ exists r', x = Ret (map (fun p => (packet_code p, packet_data p)) ps, r') /\ streams r' R w'.
Proof.
  induction 1 as [|p ps Hp _ IH]; intros r w x w' Hs Hc HR.
  { injection HR as <- <-. split; [done|]. by exists r. }
  rewrite encodes_cons in Hs. cbn [length read_packets] in HR. unfold ibind at 1 in HR.
  destruct (bgit_pkt_read r w) as [r1 w1] eqn:E.
  destruct (pkt_read_packet r p _ w r1 w1 Hp Hs Hc E) as (_ & Hc1 & r' & -> & Hs1).
  unfold ibind in HR. destruct (read_packets (length ps) r' w1) as [r2 w2] eqn:E2.
  apply IH in E2 as (Hc2 & r'' & -> & Hs2); [|done..]. injection HR as <- <-. split; [done|]. by exists r''.
Qed.

(** Writing a run of packets. *)
Fixpoint write_packets (fd : Z) (ps : list packet) : io Z :=
  match ps with
  | [] => iret 0
  | p :: ps' =>
      let! r := match p with
                | Data payload => bgit_pkt_write fd payload
                | Flush => bgit_pkt_flush fd
                | Delim => bgit_pkt_delim fd
                | End_ => bgit_pkt_write_raw fd (str "0002")
                end in
      if r <? 0 then iret (-1) else write_packets fd ps'
  end.

Lemma write_packets_emits fd i ps : Forall packet_ok ps -> emits fd i (write_packets fd ps) (encodes ps).
Proof.
  induction 1 as [|p ps Hp _ IH]; [apply emits_nil|]. cbn [write_packets]. unfold encodes. cbn [map concat].
  apply emits_seq; [|exact IH]. destruct p as [payload| | |]; [|apply write_all_emits..].
  exact (proj2 (proto_write_emits fd i (bgit_pkt_from_fd 0) payload (proj2 Hp))).
Qed.

(** A reader of another file is not disturbed by the writes. *)
Definition apart (r : bgit_pkt_reader) (fd : Z) (j : N) (w : world) : Prop :=
  pr_fd r <> fd /\ (forall i pos, w_fds w !! Z.to_N (pr_fd r) = Some (i, pos) -> i <> j).

Lemma streams_aside r R fd j w w' : 0 <= fd -> apart r fd j w -> streams r R w -> aside_from fd j w w' -> streams r R w'.
Proof.
  intros Hfd [Hne Hj] (H1 & H2 & H3 & H4 & H5) (A1 & A2 & _). unfold streams.
  split; [done|]. split; [done|]. split; [done|]. split; [done|]. destruct (pr_fd r <? 0) eqn:E; [done|]. simpl_bool. destruct H5 as (Hr & Hb & i & pos & nd & Hw & Hpos & Hi & Hrest).
  split; [done|]. split; [done|]. exists i, pos, nd. rewrite A1 by lia. rewrite A2 by (by eapply Hj). destruct Hrest. by split_and!.
Qed.

(* ------------------------------------------------------------------ *)
(** ** Properties of the framing *)

(** [C18] (roundtrip) Packets written to a file, by a kernel that interrupts and
    cuts short but does not fail, are the packets a reader of that file gets:
    each with its kind and its payload, empty payloads included, in order, and
    then the end; however the reads are cut up. *)
Theorem pkt_write_read fd rfd i d ps w x w1 : Forall packet_ok ps -> sends fd i d w -> cooperative w ->
  rfd <> fd -> 0 <= rfd -> w_fds w !! Z.to_N rfd = Some (i, len d) -> len (encodes ps) <= UINT_MAX ->
  write_packets fd ps w = (x, w1) ->
  x = Ret 0 /\ exists r' w2, read_packets (length ps) (bgit_pkt_from_fd rfd) w1 =
      (Ret (map (fun p => (packet_code p, packet_data p)) ps, r'), w2) /\
    exists r'', fst (bgit_pkt_read r' w2) = Ret (BGIT_PKT_EOF, [], r'').
Proof.
  intros Hps Hs Hc Hne Hr0 Hrw Hm HR. pose proof (encodes_bytes ps Hps) as Hb.
  destruct (write_packets_emits fd i ps Hps _ _ _ _ Hs HR) as (rc & d' & -> & Hs' & Ho & Hres).
  destruct Hres as [[-> ->]|[_ Hnc]]; [|done]. split; [done|]. pose proof (aside_from_cooperative _ _ _ _ Ho Hc) as Hc1.
  destruct Ho as (A1 & _ & _). destruct Hs' as (Hfd & _ & n & Hi & Hdir & Hd).
  assert (Hst : streams (bgit_pkt_from_fd rfd) (encodes ps ++ []) w1).
  { rewrite app_nil_r. apply (streams_file rfd i (len d) n); try done; [rewrite A1; [done|lia]|apply len_nonneg|].
    rewrite Hd. replace (Z.to_nat (len d)) with (length d) by (unfold len; lia). apply drop_app_length. }
  destruct (read_packets (length ps) (bgit_pkt_from_fd rfd) w1) as [r2 w2] eqn:E.
  apply (read_packets_spec ps []) in E as (Hc2 & r' & -> & Hs2); [|done..].
  exists r', w2. split; [done|]. destruct (bgit_pkt_read r' w2) as [r3 w3] eqn:E3.
  apply (pkt_read_spec r' []) in E3 as (_ & code & data & r'' & -> & [(R' & En & Hs3)|(Hnc & _)]); [|done..].
  injection En as <- <- <-. by exists r''.
Qed.

(* ------------------------------------------------------------------ *)
(** ** Fetching *)

(** What may come before the pack: section headers and acknowledgments. *)
Definition lead_ok (p : packet) : Prop :=
  match p with
  | Data x => packet_ok p /\ (8 <= len x -> starts (str "packfile") x = false)
  | Delim => True
  | _ => False
  end.

(** What the far end sends down a band. *)
Definition part_ok (x : Z * list Z) : Prop := (fst x = 1 \/ fst x = 2) /\ bytes (snd x).

Definition pack_of (parts : list (Z * list Z)) : list Z :=
  concat (map (fun x => if fst x =? 1 then snd x else []) parts).

Definition aside_of (a : aside) (parts : list (Z * list Z)) : aside :=
  foldl (fun a x => if fst x =? 2 then bgit_proto_aside_say a (snd x) else a) a parts.

Definition bands (parts : list (Z * list Z)) : list packet := concat (map (fun x => band (fst x) (snd x)) parts).

Lemma fetch_loop_lead lead R : Forall lead_ok lead -> forall fuel r w body a x w', streams r (encodes lead ++ R) w -> cooperative w ->
  (length lead < fuel)%nat -> fetch_loop fuel r false body a w = (x, w') ->
  exists r1 w1, streams r1 R w1 /\ moves w w1 /\ fetch_loop (fuel - length lead) r1 false body a w1 = (x, w').
Proof.
  induction 1 as [|p lead Hp _ IH]; intros fuel r w body a x w' Hs Hc Hf HR.
  { exists r, w. split; [done|]. split; [apply moves_refl|]. by rewrite Nat.sub_0_r. }
  destruct fuel as [|fuel]; [cbn in Hf; lia|]. cbn [length] in *. rewrite encodes_cons in Hs. cbn [fetch_loop] in HR.
  unfold ibind at 1 in HR. destruct (bgit_pkt_read r w) as [r1 w1] eqn:E.
  assert (Hok : packet_ok p) by (destruct p; [apply Hp|done..]).
  destruct (pkt_read_packet r p _ w r1 w1 Hok Hs Hc E) as (Hmv & Hc1 & r' & -> & Hs1).
  assert (Hgo : fetch_loop fuel r' false body a w1 = (x, w')).
  { destruct p as [payload| | |]; cbn [packet_code packet_data] in HR; try done.
    destruct Hp as [_ Hst]. pose proof (len_nonneg payload).
    rewrite !(proj2 (Z.eqb_neq (len payload) _)) in HR by (unfold BGIT_PKT_FLUSH, BGIT_PKT_EOF, BGIT_PKT_DELIM; lia).
    cbn [orb] in HR. rewrite (proj2 (Z.ltb_ge (len payload) 0)) in HR by lia. cbn [negb] in HR.
    replace ((len payload >=? 8) && starts (str "packfile") payload) with false in HR; [exact HR|].
    symmetry. destruct (Z.geb_spec (len payload) 8); [|done]. apply Hst. lia. }
  destruct (IH fuel r' w1 body a x w' Hs1 Hc1 ltac:(lia) Hgo) as (r2 & w2 & H1 & H2 & H3).
  exists r2, w2. split; [done|]. split; [by eapply moves_trans|done].
Qed.

(** One band's packets, once in the pack. *)
Lemma fetch_loop_band channel R k : (channel = 1 \/ channel = 2) -> forall data fuel r w body a x w', bytes data -> (length data < k)%nat ->
  streams r (encodes (band_packets k channel data) ++ R) w -> cooperative w ->
  (length (band_packets k channel data) < fuel)%nat -> fetch_loop fuel r true body a w = (x, w') ->
  exists r1 w1, streams r1 R w1 /\ moves w w1 /\
    fetch_loop (fuel - length (band_packets k channel data)) r1 true (body ++ if channel =? 1 then data else [])
      (if channel =? 2 then bgit_proto_aside_say a data else a) w1 = (x, w').
Proof.
  intros Hch. induction k as [|k IH]; intros data fuel r w body a x w' Hb Hk Hs Hc Hf HR; [lia|].
  cbn [band_packets] in *. set (n := Z.min 65515 (len data)) in *. pose proof (len_nonneg data).
  set (piece := take (Z.to_nat n) data) in *. assert (Hlp : len piece = n) by (unfold piece; rewrite len_take; lia).
  rewrite encodes_cons in Hs. destruct fuel as [|fuel]; [cbn in Hf; lia|]. cbn [length] in *.
  cbn [fetch_loop] in HR. unfold ibind at 1 in HR. destruct (bgit_pkt_read r w) as [r1 w1] eqn:E.
  assert (Hok : packet_ok (Data (u8 channel :: piece))).
  { split; [|rewrite len_cons; lia]. constructor; [apply u8_range|]. by apply Forall_take. }
  destruct (pkt_read_packet r _ _ w r1 w1 Hok Hs Hc E) as (Hmv & Hc1 & r' & -> & Hs1). cbn [packet_code packet_data] in HR.
  rewrite len_cons, Hlp in HR.
  rewrite !(proj2 (Z.eqb_neq (1 + n) _)) in HR by (unfold BGIT_PKT_FLUSH, BGIT_PKT_EOF, BGIT_PKT_DELIM; lia).
  cbn [orb] in HR. rewrite (proj2 (Z.ltb_ge (1 + n) 0)) in HR by lia. cbn [negb] in HR.
  assert (Eu : u8 channel = channel) by (destruct Hch as [-> | ->]; reflexivity). rewrite Eu in HR.
  assert (Hsay : forall l1 l2, bgit_proto_aside_say a (l1 ++ l2) = bgit_proto_aside_say (bgit_proto_aside_say a l1) l2).
  { intros. unfold bgit_proto_aside_say. apply foldl_app. }
  assert (Hsplit : data = piece ++ drop (Z.to_nat n) data) by (unfold piece; by rewrite take_drop).
  destruct (Z.gtb_spec (len data) 65515) as [Hgt|Hle].
  - assert (En : n = 65515) by lia. rewrite En in *.
    assert (Hgo : fetch_loop fuel r' true (body ++ if channel =? 1 then piece else [])
      (if channel =? 2 then bgit_proto_aside_say a piece else a) w1 = (x, w')).
    { destruct Hch as [-> | ->]; [exact HR|]. cbn in HR |- *. by rewrite app_nil_r. }
    apply (IH (drop (Z.to_nat 65515) data)) in Hgo as (r2 & w2 & H1 & H2 & H3); [|by apply Forall_drop|rewrite length_drop; unfold len in Hgt; lia|exact Hs1|done|lia].
    exists r2, w2. split; [done|]. split; [by eapply moves_trans|]. cbn [Nat.sub]. rewrite <- H3. rewrite Hsplit at 2 3. f_equal.
    + rewrite <- app_assoc. f_equal. by destruct (channel =? 1).
    + destruct (channel =? 2); [apply Hsay|done].
  - cbn [length] in *. assert (En : piece = data) by (unfold piece; apply take_ge; unfold len in *; lia). rewrite En in *.
    exists r', w1. unfold encodes in Hs1. cbn [map concat app] in Hs1. split; [done|]. split; [done|].
    replace (S fuel - 1)%nat with fuel by lia. destruct Hch as [-> | ->]; [exact HR|]. cbn in HR |- *. by rewrite app_nil_r.
Qed.

Lemma fetch_loop_bands R parts : Forall part_ok parts -> forall fuel r w body a x w', streams r (encodes (bands parts) ++ R) w ->
  cooperative w -> (length (bands parts) < fuel)%nat -> fetch_loop fuel r true body a w = (x, w') ->
  exists r1 w1, streams r1 R w1 /\ moves w w1 /\
    fetch_loop (fuel - length (bands parts)) r1 true (body ++ pack_of parts) (aside_of a parts) w1 = (x, w').
Proof.
  induction 1 as [|[channel data] parts [Hch Hb] _ IH]; intros fuel r w body a x w' Hs Hc Hf HR.
  { exists r, w. split; [done|]. split; [apply moves_refl|]. unfold pack_of. cbn. by rewrite app_nil_r, Nat.sub_0_r. }
  cbn [fst snd] in *. unfold bands in *. cbn [map concat] in *. cbn [fst snd] in *. rewrite encodes_app, <- app_assoc in Hs.
  rewrite length_app in *.
  apply (fetch_loop_band channel (encodes (bands parts) ++ R) (S (length data)) Hch data) in HR
    as (r1 & w1 & Hs1 & Hmv1 & HR1); try done; [|lia|unfold band in *; lia].
  apply IH in HR1 as (r2 & w2 & Hs2 & Hmv2 & HR2); try done; [|by eapply moves_cooperative|unfold band in *; lia].
  exists r2, w2. split; [done|]. split; [by eapply moves_trans|]. rewrite <- HR2. unfold pack_of. cbn [map concat aside_of foldl fst snd].
  rewrite app_assoc. f_equal. unfold band. lia.
Qed.

(** A command of the second protocol: its head, its arguments. *)
Definition v2_request (head texts : list (list Z)) : list packet :=
  map Data head ++ Delim :: map Data texts ++ [Flush].

Lemma request_go {B} fd i r head texts (none : B) (k : io B) d w x w' :
  Forall (fun t => len t < 4096) head -> Forall (fun t => len t < 4096) texts -> sends fd i d w -> cooperative w ->
  (let! rc := writef_each (bgit_proto_io_fd r fd) head in if rc <? 0 then iret none else
   let! rc := bgit_proto_delim (bgit_proto_io_fd r fd) in if rc <? 0 then iret none else
   let! rc := writef_each (bgit_proto_io_fd r fd) texts in if rc <? 0 then iret none else
   let! rc := bgit_proto_flush (bgit_proto_io_fd r fd) in if rc <? 0 then iret none else k) w = (x, w') ->
  exists w1, (sends fd i (d ++ encodes (v2_request head texts)) w1 /\ aside_from fd i w w1 /\ cooperative w1) /\ k w1 = (x, w').
Proof.
  intros Hh Ht Hsend Hc HR.
  eapply (emits_go fd i _ _ _ _ d w w) in HR as (w1 & G1 & HR);
    [|by apply writef_each_emits|split; [exact Hsend|]; split; [apply aside_from_refl|exact Hc]].
  eapply emits_go in HR as (w2 & G2 & HR); [|apply write_all_emits|exact G1].
  eapply emits_go in HR as (w3 & G3 & HR); [|by apply writef_each_emits|exact G2].
  eapply emits_go in HR as (w4 & G4 & HR); [|apply write_all_emits|exact G3].
  exists w4. split; [|done]. unfold v2_request. rewrite encodes_app.
  change (Delim :: ?l) with ([Delim] ++ l). rewrite !encodes_app, !app_assoc. exact G4.
Qed.

Definition fetch_texts (wants haves : list (list Z)) : list (list Z) :=
  [str "ofs-delta" ++ [10]; str "no-progress" ++ [10]; str "include-tag" ++ [10]] ++
  map (fun x => str "want " ++ x ++ [10]) wants ++ map (fun x => str "have " ++ x ++ [10]) haves ++ [str "done" ++ [10]].

Definition fetch_request (wants haves : list (list Z)) : list packet :=
  v2_request [str "command=fetch" ++ [10]; str "object-format=sha1" ++ [10]] (fetch_texts wants haves).

Lemma text_fits (p x : list Z) : len p <= 90 -> len x < 4000 -> len (p ++ x ++ [10]) < 4096.
Proof. intros Hp Hx. rewrite !len_app. change (len [10]) with 1. lia. Qed.

Lemma fetch_texts_fit wants haves : Forall (fun x => len x < 4000) wants -> Forall (fun x => len x < 4000) haves ->
  Forall (fun t => len t < 4096) (fetch_texts wants haves).
Proof.
  intros Hw Hh. unfold fetch_texts. rewrite !Forall_app, !Forall_map. split; [by repeat constructor|]. split; [|split; [|by repeat constructor]].
  - eapply Forall_impl; [exact Hw|]. intros x Hx. apply text_fits; [by vm_compute|exact Hx].
  - eapply Forall_impl; [exact Hh|]. intros x Hx. apply text_fits; [by vm_compute|exact Hx].
Qed.

(** The far end's answer: what leads up to the pack, the line that announces
    it, the bands and the flush. *)
Definition fetch_answer (lead : list packet) (line : list Z) (parts : list (Z * list Z)) : list packet :=
  lead ++ Data line :: bands parts ++ [Flush].

Lemma fetch_loop_answer fuel r lead line parts R w x w' : Forall lead_ok lead -> bytes line -> 8 <= len line <= 65516 ->
  starts (str "packfile") line = true -> Forall part_ok parts ->
  streams r (encodes (fetch_answer lead line parts) ++ R) w -> cooperative w -> (length (fetch_answer lead line parts) < fuel)%nat ->
  fetch_loop fuel r false [] ([], []) w = (x, w') ->
  moves w w' /\ exists r', x = Ret (Some (pack_of parts), bgit_proto_aside_flush (aside_of ([], []) parts), r') /\ streams r' R w'.
Proof.
  intros Hlead Hlb Hll Hst Hparts Hs Hc Hf HR. unfold fetch_answer in Hs, Hf. rewrite encodes_app, <- app_assoc in Hs.
  rewrite length_app in Hf. cbn [length] in Hf. rewrite length_app in Hf. cbn [length] in Hf.
  apply (fetch_loop_lead lead (encodes (Data line :: bands parts ++ [Flush]) ++ R)) in HR as (r2 & w2 & Hs2 & Hmv2 & HR); try done; [|lia].
  pose proof (moves_cooperative _ _ Hmv2 Hc) as Hc2. rewrite encodes_cons in Hs2.
  destruct (fuel - length lead)%nat as [|fuel'] eqn:Ef; [lia|]. cbn [fetch_loop] in HR. unfold ibind at 1 in HR.
  destruct (bgit_pkt_read r2 w2) as [y w3] eqn:E3.
  destruct (pkt_read_packet r2 (Data line) _ w2 y w3 ltac:(split; [done|lia]) Hs2 Hc2 E3) as (Hmv3 & Hc3 & r3 & -> & Hs3).
  cbn [packet_code packet_data] in HR.
  rewrite !(proj2 (Z.eqb_neq (len line) _)) in HR by (unfold BGIT_PKT_FLUSH, BGIT_PKT_EOF, BGIT_PKT_DELIM; lia).
  cbn [orb] in HR. rewrite (proj2 (Z.ltb_ge (len line) 0)) in HR by lia. cbn [negb] in HR.
  rewrite (proj2 (Z.geb_le (len line) 8)), Hst in HR by lia. cbn [andb] in HR.
  rewrite encodes_app, <- app_assoc in Hs3.
  apply (fetch_loop_bands (encodes [Flush] ++ R) parts) in HR as (r4 & w4 & Hs4 & Hmv4 & HR); try done; [|lia].
  pose proof (moves_cooperative _ _ Hmv4 Hc3) as Hc4. unfold encodes in Hs4. cbn [map concat] in Hs4. rewrite app_nil_r in Hs4.
  destruct (fuel' - length (bands parts))%nat as [|fuel2] eqn:Ef2; [lia|]. cbn [fetch_loop] in HR. unfold ibind at 1 in HR.
  destruct (bgit_pkt_read r4 w4) as [z w5] eqn:E5.
  destruct (pkt_read_packet r4 Flush _ w4 z w5 I Hs4 Hc4 E5) as (Hmv5 & _ & r5 & -> & Hs5).
  injection HR as <- <-. split; [|by exists r5]. repeat (eapply moves_trans; [eassumption|]). apply moves_refl.
Qed.

(** The request went out, and reading the answer changed nothing. *)
Lemma sent_after fd j d w1 w' : sends fd j d w1 -> moves w1 w' -> exists n, inodes (w_fs w') !! j = Some n /\ i_data n = d.
Proof. intros (_ & _ & n & Hi & _ & Hd) [(Hfs & _) _]. exists n. by rewrite Hfs. Qed.


(* ------------------------------------------------------------------ *)
(** ** Listing references *)

(** The bytes a word of a listing is made of. *)
Definition bare (s : list Z) : Prop := Forall (fun c => is_byte c /\ c <> 0 /\ c <> 10 /\ c <> 13 /\ c <> 32) s.

Definition ref_ok (ref : bgit_proto_ref) : Prop :=
  bare (ref_id ref) /\ len (ref_id ref) = 40 /\ bare (ref_name ref) /\
  match ref_symref ref with Some t => bare t | None => True end /\
  bare (ref_peeled ref) /\ (ref_peeled ref = [] \/ len (ref_peeled ref) = 40).

(** The words of a reference's line, after its id. *)
Definition ref_words (ref : bgit_proto_ref) : list (list Z) :=
  ref_name ref ::
  match ref_symref ref with Some t => [str "symref-target:" ++ t] | None => [] end ++
  match ref_peeled ref with [] => [] | p => [str "peeled:" ++ p] end.

Definition ref_line (ref : bgit_proto_ref) : list Z :=
  ref_id ref ++ concat (map (fun s => 32 :: s) (ref_words ref)).

Lemma bare_find c s : bare s -> c = 0 \/ c = 10 \/ c = 13 \/ c = 32 -> find_byte c s = None.
Proof. intros Hs Hc. apply find_byte_None. eapply Forall_impl; [exact Hs|]. cbn. intros x Hx. lia. Qed.

Lemma cut_space_word s rest : bare s -> cut_space (s ++ 32 :: rest) = (s, Some rest).
Proof.
  intros Hs. unfold cut_space. rewrite find_byte_app by (eapply Forall_impl; [exact Hs|]; cbn; intros; lia).
  rewrite take_app_length. f_equal. f_equal. replace (S (length s)) with (length s + 1)%nat by lia.
  by rewrite drop_app_add.
Qed.

Lemma cut_space_last s : bare s -> cut_space s = (s, None).
Proof. intros Hs. unfold cut_space. rewrite bare_find; [done|done|lia]. Qed.

Lemma cut_space_words s ws : bare s -> cut_space (s ++ concat (map (fun s => 32 :: s) ws)) =
  (s, match ws with [] => None | t :: ws' => Some (t ++ concat (map (fun s => 32 :: s) ws')) end).
Proof.
  intros Hs. destruct ws as [|t ws]; cbn [map concat]; [rewrite app_nil_r; by apply cut_space_last|]. by apply cut_space_word.
Qed.

Lemma starts_no p s : (exists i x y, p !! i = Some x /\ s !! i = Some y /\ x <> y) -> starts p s = false.
Proof.
  intros (i & x & y & Hp & Hs & Hne). unfold starts, beq. apply bool_decide_false. intros E. apply Hne.
  assert (Hl : (i < length p)%nat) by (by apply lookup_lt_is_Some; exists x).
  apply (f_equal (fun l => l !! i)) in E. rewrite lookup_take_lt in E by done. congruence.
Qed.

Lemma bare_app (p s : list Z) : bare p -> bare s -> bare (p ++ s).
Proof. intros. by apply Forall_app. Qed.

Ltac solve_word := unfold bare, is_byte; vm_compute; repeat constructor; discriminate.

Lemma symref_tag : bare (str "symref-target:"). Proof. solve_word. Qed.
Lemma peeled_tag : bare (str "peeled:"). Proof. solve_word. Qed.

(** One attribute, when more follow and when none do. *)
Lemma attribute_step fuel s ws ref : bare s -> s <> [] ->
  attribute_loop (S fuel) (Some (s ++ concat (map (fun s => 32 :: s) ws))) ref =
  attribute_loop fuel (match ws with [] => None | t :: ws' => Some (t ++ concat (map (fun s => 32 :: s) ws')) end)
    (if starts (str "symref-target:") s then
       {| ref_id := ref_id ref; ref_name := ref_name ref; ref_symref := Some (drop 14 s); ref_peeled := ref_peeled ref |}
     else if starts (str "peeled:") s && (len (drop 7 s) =? 40) then
       {| ref_id := ref_id ref; ref_name := ref_name ref; ref_symref := ref_symref ref; ref_peeled := drop 7 s |}
     else ref).
Proof.
  intros Hs Hne. destruct s as [|c s]; [done|]. pose proof (cut_space_words _ ws Hs) as E.
  set (rest := concat _) in *. cbn [app attribute_loop] in E |- *. by rewrite E.
Qed.

Lemma attribute_none fuel ref : attribute_loop fuel None ref = ref.
Proof. by destruct fuel. Qed.

(** A reference's line is read back. *)
Lemma ls_line_ref ref : ref_ok ref -> ls_line (ref_line ref) = Some ref.
Proof.
  destruct ref as [id name symref peeled]. intros (Hid & Hl & Hname & Hsym & Hp & Hpl). cbn [ref_id ref_name ref_symref ref_peeled] in *.
  unfold ls_line. assert (Hlen : exists f, length (ref_line {| ref_id := id; ref_name := name; ref_symref := symref; ref_peeled := peeled |}) = S (S f)).
  { unfold ref_line. cbn [ref_id]. rewrite length_app. unfold len in Hl. set (n := length (concat _)).
    exists (length id - 2 + n)%nat. lia. }
  destruct Hlen as [f ->]. unfold ref_line, ref_words. cbn [ref_id ref_name ref_symref ref_peeled]. rewrite cut_space_words by done.
  rewrite Hl. cbn [Z.eqb Pos.eqb negb]. rewrite cut_space_words by done. f_equal.
  assert (Hpe : forall fuel p t, p <> [] -> bare p -> len p = 40 ->
    attribute_loop (S fuel) (Some (str "peeled:" ++ p)) {| ref_id := id; ref_name := name; ref_symref := t; ref_peeled := [] |} =
    {| ref_id := id; ref_name := name; ref_symref := t; ref_peeled := p |}).
  { intros fuel p t Hn Hw Hlp. pose proof (attribute_step fuel (str "peeled:" ++ p) []
      {| ref_id := id; ref_name := name; ref_symref := t; ref_peeled := [] |} (bare_app _ _ peeled_tag Hw) ltac:(done)) as E.
    cbn [map concat] in E. rewrite app_nil_r in E. rewrite E, attribute_none, starts_app.
    replace (starts (str "symref-target:") (str "peeled:" ++ p)) with false
      by (symmetry; apply starts_no; exists 0%nat; do 2 eexists; split; [vm_compute; reflexivity|split; [vm_compute; reflexivity|done]]).
    change (drop 7 (str "peeled:" ++ p)) with p. rewrite Hlp. reflexivity. }
  destruct symref as [t|].
  - cbn [app]. rewrite attribute_step by (done || by apply bare_app, Hsym; apply symref_tag). rewrite starts_app.
    cbn [ref_id ref_name ref_peeled ref_symref]. change (drop 14 (str "symref-target:" ++ t)) with t.
    destruct peeled as [|c p]; [apply attribute_none|]. cbn [map concat]. rewrite app_nil_r. apply Hpe; [done|done|by destruct Hpl].
  - cbn [app]. destruct peeled as [|c p]; [apply attribute_none|]. cbn [map concat]. rewrite app_nil_r. apply Hpe; [done|done|by destruct Hpl].
Qed.

(** Text with no line ends and no zeros is what its packet's line is. *)
Definition text (s : list Z) : Prop := Forall (fun c => is_byte c /\ c <> 0 /\ c <> 10 /\ c <> 13) s.

Lemma trim_eol_text l : text l -> trim_eol (l ++ [10]) = l.
Proof. intros Hl. apply trim_eol_line. eapply Forall_impl; [exact Hl|]. cbn. tauto. Qed.

Lemma c_text_text l : text l -> c_text l = l.
Proof. intros Hl. apply c_text_plain. eapply Forall_impl; [exact Hl|]. cbn. tauto. Qed.

Lemma read_line_text r l R w x w' : text l -> len l <= 65515 -> streams r (encode (Data (l ++ [10])) ++ R) w -> cooperative w ->
  bgit_pkt_read_line r w = (x, w') ->
  moves w w' /\ cooperative w' /\ exists r', x = Ret (len l, l, r') /\ streams r' R w'.
Proof.
  intros Hl Hle Hs Hc HR. unfold bgit_pkt_read_line in HR. unfold ibind in HR.
  destruct (bgit_pkt_read r w) as [y w1] eqn:E.
  assert (Hok : packet_ok (Data (l ++ [10]))).
  { split; [|rewrite len_app; change (len [10]) with 1; lia]. apply Forall_app. split; [|solve_bytes].
    eapply Forall_impl; [exact Hl|]. cbn. tauto. }
  destruct (pkt_read_packet r _ R w y w1 Hok Hs Hc E) as (Hmv & Hc1 & r' & -> & Hs1). cbn [packet_code packet_data] in HR.
  rewrite (proj2 (Z.ltb_ge (len (l ++ [10])) 0)) in HR by apply len_nonneg. rewrite trim_eol_text in HR by done.
  injection HR as <- <-. split; [done|]. split; [done|]. by exists r'.
Qed.

(** The markers come through as they are. *)
Lemma read_line_flush r R w x w' : streams r (encode Flush ++ R) w -> cooperative w -> bgit_pkt_read_line r w = (x, w') ->
  moves w w' /\ exists r', x = Ret (BGIT_PKT_FLUSH, [], r') /\ streams r' R w'.
Proof.
  intros Hs Hc HR. unfold bgit_pkt_read_line in HR. unfold ibind in HR. destruct (bgit_pkt_read r w) as [y w1] eqn:E.
  destruct (pkt_read_packet r Flush R w y w1 I Hs Hc E) as (Hmv & _ & r' & -> & Hs1). injection HR as <- <-.
  split; [done|]. by exists r'.
Qed.

Definition line_packet (l : list Z) : packet := Data (l ++ [10]).

(** A listing gives the references its lines name, in order. *)
Lemma ls_loop_lines R lines : Forall (fun l => text l /\ len l <= 65515) lines -> forall fuel r w refs x w',
  streams r (encodes (map line_packet lines ++ [Flush]) ++ R) w -> cooperative w -> (length lines < fuel)%nat ->
  ls_loop fuel r refs w = (x, w') ->
  moves w w' /\ exists r', x = Ret (Some (refs ++ omap ls_line lines), r') /\ streams r' R w'.
Proof.
  induction 1 as [|l lines [Hl Hle] _ IH]; intros fuel r w refs x w' Hs Hc Hf HR; (destruct fuel as [|fuel]; [cbn in Hf; lia|]);
    cbn [ls_loop] in HR; unfold ibind at 1 in HR; destruct (bgit_pkt_read_line r w) as [y w1] eqn:E.
  - apply (read_line_flush r R) in E as (Hmv & r' & -> & Hs1); [|exact Hs|done].
    injection HR as <- <-. split; [done|]. exists r'. split; [|done]. by rewrite app_nil_r.
  - cbn [map app] in Hs. rewrite encodes_cons in Hs.
    apply (read_line_text r l (encodes (map line_packet lines ++ [Flush]) ++ R)) in E as (Hmv & Hc1 & r' & -> & Hs1); [|done..]. pose proof (len_nonneg l).
    rewrite (proj2 (Z.eqb_neq (len l) _)) in HR by (unfold BGIT_PKT_FLUSH; lia).
    rewrite (proj2 (Z.ltb_ge (len l) 0)), c_text_text in HR by (done || lia). cbn [length] in Hf.
    assert (Hgo : ls_loop fuel r' (refs ++ omap ls_line [l]) w1 = (x, w')).
    { cbn. destruct (ls_line l); [exact HR|]. by rewrite app_nil_r. }
    apply IH in Hgo as (Hmv2 & r2 & -> & Hs2); [|done|done|lia]. split; [by eapply moves_trans|]. exists r2. split; [|done].
    rewrite <- app_assoc. do 3 f_equal. cbn. by destruct (ls_line l).
Qed.

Lemma caps_loop_lines R lines : Forall (fun l => text l /\ len l <= 65515) lines -> forall fuel r w acc x w',
  (acc <> [] \/ exists first rest, lines = first :: rest /\ starts (str "# service=") first = false) ->
  streams r (encodes (map line_packet lines ++ [Flush]) ++ R) w -> cooperative w -> (length lines < fuel)%nat ->
  caps_loop fuel r acc false w = (x, w') ->
  moves w w' /\ exists r', x = Ret (Some (acc ++ lines), r') /\ streams r' R w'.
Proof.
  induction 1 as [|l lines [Hl Hle] _ IH]; intros fuel r w acc x w' Hacc Hs Hc Hf HR; (destruct fuel as [|fuel]; [cbn in Hf; lia|]);
    cbn [caps_loop] in HR; unfold ibind at 1 in HR; destruct (bgit_pkt_read_line r w) as [y w1] eqn:E.
  - apply (read_line_flush r R) in E as (Hmv & r' & -> & Hs1); [|exact Hs|done].
    injection HR as <- <-. split; [done|]. exists r'. split; [|done]. by rewrite app_nil_r.
  - cbn [map app] in Hs. rewrite encodes_cons in Hs.
    apply (read_line_text r l (encodes (map line_packet lines ++ [Flush]) ++ R)) in E as (Hmv & Hc1 & r' & -> & Hs1); [|done..].
    pose proof (len_nonneg l).
    rewrite (proj2 (Z.eqb_neq (len l) _)) in HR by (unfold BGIT_PKT_FLUSH; lia).
    rewrite (proj2 (Z.ltb_ge (len l) 0)), c_text_text in HR by (done || lia). cbn [length] in Hf.
    replace ((len acc =? 0) && starts (str "# service=") l) with false in HR.
    2:{ symmetry. destruct Hacc as [Hne|(first & rest & [= <- <-] & ->)]; [|apply andb_false_r].
        destruct acc as [|a acc]; [done|]. rewrite len_cons. pose proof (len_nonneg acc). by rewrite (proj2 (Z.eqb_neq _ _)) by lia. }
    apply IH in HR as (Hmv2 & r2 & -> & Hs2); [|left; by destruct acc|done|done|lia]. split; [by eapply moves_trans|]. exists r2.
    split; [|done]. by rewrite <- app_assoc.
Qed.

(** The capabilities of a far end that speaks the second protocol. *)
Lemma read_caps_lines R lines fuel r w x w' : Forall (fun l => text l /\ len l <= 65515) lines ->
  streams r (encodes (map line_packet (str "version 2" :: lines) ++ [Flush]) ++ R) w -> cooperative w -> (S (length lines) < fuel)%nat ->
  bgit_proto_read_caps fuel r w = (x, w') ->
  moves w w' /\ exists r', x = Ret (Some (str "version 2" :: lines), r') /\ streams r' R w'.
Proof.
  intros Hl Hs Hc Hf HR. unfold bgit_proto_read_caps in HR. unfold ibind in HR. destruct (caps_loop fuel r [] false w) as [y w1] eqn:E.
  apply (caps_loop_lines R (str "version 2" :: lines)) in E as (Hmv & r' & -> & Hs1); try done.
  - cbn [app] in HR. injection HR as <- <-. split; [done|]. by exists r'.
  - constructor; [|done]. split; [|by vm_compute]. unfold text, is_byte. vm_compute. repeat constructor; discriminate.
  - right. exists (str "version 2"), lines. by split.
Qed.

(** A capability asked for by name: among lines that have no other name
    starting with it, its value. *)
Lemma cap_found before name value after :
  Forall (fun l => starts name l = false) before ->
  bgit_proto_cap (str "version 2" :: before ++ (name ++ 61 :: value) :: after) name = Some value.
Proof.
  intros Hb. unfold bgit_proto_cap. change (drop 1 (?v :: ?l)) with l. induction Hb as [|l before Hl _ IH]; cbn [app cap_loop].
  - rewrite starts_app. cbn [negb]. by rewrite drop_app_length.
  - by rewrite Hl.
Qed.

Definition ls_texts (prefixes : list (list Z)) (want_symrefs want_peeled : bool) : list (list Z) :=
  (if want_peeled then [str "peel" ++ [10]] else []) ++ (if want_symrefs then [str "symrefs" ++ [10]] else []) ++
  map (fun p => str "ref-prefix " ++ p ++ [10]) prefixes.

Lemma ls_texts_fit prefixes s p : Forall (fun x => len x < 4000) prefixes -> Forall (fun t => len t < 4096) (ls_texts prefixes s p).
Proof.
  intros Hp. unfold ls_texts. rewrite !Forall_app, Forall_map. split; [destruct p; by repeat constructor|].
  split; [destruct s; by repeat constructor|].
  eapply Forall_impl; [exact Hp|]. intros x Hx. apply text_fits; [by vm_compute|exact Hx].
Qed.

(** The lines of a listing: references, and lines that are of none, such as
    that of an unborn branch. *)
Definition listed_line (e : bgit_proto_ref + list Z) : list Z := match e with inl ref => ref_line ref | inr l => l end.

Definition entry_ok (e : bgit_proto_ref + list Z) : Prop :=
  len (listed_line e) <= 65515 /\ match e with inl ref => ref_ok ref | inr l => text l /\ ls_line l = None end.

Definition entry_ref (e : bgit_proto_ref + list Z) : option bgit_proto_ref := match e with inl ref => Some ref | inr _ => None end.

Lemma bare_text s : bare s -> text s.
Proof. intros Hs. eapply Forall_impl; [exact Hs|]. cbn. tauto. Qed.

Lemma ref_line_text ref : ref_ok ref -> text (ref_line ref).
Proof.
  intros (Hid & _ & Hname & Hsym & Hp & _). unfold ref_line. apply Forall_app. split; [by apply bare_text|].
  apply Forall_concat, Forall_map.
  assert (Hs : forall s, bare s -> text (32 :: s)) by (intros; constructor; [unfold is_byte; lia|by apply bare_text]).
  unfold ref_words. constructor; [by apply Hs|]. apply Forall_app. split.
  - destruct (ref_symref ref); [|constructor]. apply Forall_singleton, Hs, bare_app; [apply symref_tag|done].
  - destruct (ref_peeled ref); [constructor|]. apply Forall_singleton, Hs, bare_app; [apply peeled_tag|done].
Qed.

(** Asking a far end for its references over a pipe sends
    exactly the request, and the listing it answers with, each line as the
    protocol prints a reference, gives back those references, ids, names,
    symbolic targets and peeled ids, in order, without the lines that are of
    no reference; however the kernel cuts up the reads and writes. *)
Theorem ls_refs_exact fuel r fd j d prefixes want_symrefs want_peeled entries R w x w' :
  Forall entry_ok entries -> Forall (fun x => len x < 4000) prefixes ->
  streams r (encodes (map (fun e => line_packet (listed_line e)) entries ++ [Flush]) ++ R) w ->
  sends fd j d w -> apart r fd j w -> cooperative w -> (length entries < fuel)%nat ->
  bgit_proto_ls_refs fuel (bgit_proto_io_fd r fd) prefixes want_symrefs want_peeled w = (x, w') ->
  exists r', x = Ret (Some (omap entry_ref entries), r') /\ streams r' R w' /\
    (exists n, inodes (w_fs w') !! j = Some n /\
      i_data n = d ++ encodes (v2_request [str "command=ls-refs" ++ [10]; str "object-format=sha1" ++ [10]]
                                 (ls_texts prefixes want_symrefs want_peeled))).
Proof.
  intros He Hp Hs Hsend Hap Hc Hf HR. unfold bgit_proto_ls_refs in HR. pose proof (proj1 Hsend) as Hfd.
  cbn [bgit_proto_io_fd io_reader] in HR.
  apply (request_go fd j r _ (ls_texts prefixes want_symrefs want_peeled) _ _ d) in HR as (w1 & (Hs1 & Ho1 & Hc1) & HR); try done;
    [|by repeat constructor|by apply ls_texts_fit].
  cbn [io_done bgit_proto_io_fd] in HR. unfold ibind at 1, iret in HR. cbn -[ls_loop] in HR.
  rewrite <- map_map in Hs.
  apply (ls_loop_lines R (map listed_line entries)) in HR as (Hmv & r' & -> & Hs'); try done.
  - exists r'. split; [|split; [done|by eapply sent_after]]. do 3 f_equal. cbn [app].
    clear - He. induction He as [|e l [_ He] _ IH]; [done|]. cbn. destruct e as [ref|l']; cbn [listed_line entry_ref].
    + rewrite ls_line_ref by done. cbn. by f_equal.
    + destruct He as [_ ->]. exact IH.
  - apply Forall_map. eapply Forall_impl; [exact He|]. intros e [Hl Hok]. split; [|exact Hl].
    destruct e; [by apply ref_line_text|apply Hok].
  - by eapply streams_aside.
  - by rewrite length_map.
Qed.

(* ------------------------------------------------------------------ *)
(** ** Witnesses *)

(** A pipe to read from and one to write to, with a kernel that interrupts and
    gives a few bytes at a time. *)
Definition pipe_world (data : list Z) : world :=
  {| w_fs := {| names := ∅; inodes := {[1%N := {| i_dir := false; i_data := data; i_mtime := (0, 0) |};
                                        2%N := {| i_dir := false; i_data := []; i_mtime := (0, 0) |}]} |};
     w_fds := {[3%N := (1%N, 0); 4%N := (2%N, 0); 5%N := (2%N, 0)]}; w_errno := 0;
     w_answers := [Short 2; Errno EINTR; Short 1; Short 3; Errno EINTR; Short 5]; w_temps := [];
     w_now := (0, 0); w_log := []; w_reports := [] |}.

Lemma pipe_sends data : sends 4 2 [] (pipe_world data).
Proof. split; [done|]. split; [reflexivity|]. by eexists. Qed.

Lemma pipe_cooperative data : cooperative (pipe_world data).
Proof. repeat constructor. Qed.

Lemma pipe_streams data : bytes data -> len data <= UINT_MAX -> streams (bgit_pkt_from_fd 3) data (pipe_world data).
Proof. intros. by apply (streams_file 3 1 0 {| i_dir := false; i_data := data; i_mtime := (0, 0) |}). Qed.

Lemma pipe_apart data : apart (bgit_pkt_from_fd 3) 4 2 (pipe_world data).
Proof. split; [done|]. intros i pos. vm_compute. congruence. Qed.

Definition demo_packets : list packet := [Data (str "hello"); Delim; Data []; End_; Flush].

Lemma pkt_write_read_witness :
  fst (write_packets 4 demo_packets (pipe_world [])) = Ret 0 /\
  exists r' w2, read_packets 5 (bgit_pkt_from_fd 5) (snd (write_packets 4 demo_packets (pipe_world []))) =
    (Ret ([(5, str "hello"); (-2, []); (0, []); (-3, []); (-1, [])], r'), w2).
Proof.
  destruct (write_packets 4 demo_packets (pipe_world [])) as [x w1] eqn:E.
  destruct (pkt_write_read 4 5 2 [] demo_packets (pipe_world []) x w1) as (-> & r' & w2 & E2 & _);
    [repeat constructor; try (by vm_compute)|apply pipe_sends|apply pipe_cooperative|done|done|reflexivity|by vm_compute|exact E|].
  split; [done|]. exists r', w2. exact E2.
Defined.

Definition demo_lead : list packet := [Data (str "acknowledgments" ++ [10]); Delim].
Definition demo_parts : list (Z * list Z) := [(2, str "Counting" ++ [10]); (1, str "PA"); (2, str "half"); (1, str "CK")].
Definition demo_answer : list Z := encodes (fetch_answer demo_lead (str "packfile" ++ [10]) demo_parts) ++ str "more".

Lemma demo_answer_bytes : bytes demo_answer /\ len demo_answer <= UINT_MAX.
Proof. split; [unfold demo_answer; solve_bytes|by vm_compute]. Qed.


Definition demo_id : list Z := repeat 97 40.
Definition demo_refs : list (bgit_proto_ref + list Z) :=
  [inl {| ref_id := demo_id; ref_name := str "HEAD"; ref_symref := Some (str "refs/heads/main"); ref_peeled := [] |};
   inr (str "unborn x symref-target:y");
   inl {| ref_id := demo_id; ref_name := str "refs/tags/v1"; ref_symref := None; ref_peeled := repeat 98 40 |}].
Definition demo_listing : list Z := encodes (map (fun e => line_packet (listed_line e)) demo_refs ++ [Flush]).

Lemma demo_refs_ok : Forall entry_ok demo_refs.
Proof.
  assert (Hw : forall s, forallb (fun c => (32 <? c) && (c <? 256)) s = true -> bare s).
  { intros s Hs. apply Forall_forall. intros c Hc. rewrite forallb_forall in Hs. apply list_elem_of_In, Hs in Hc.
    simpl_bool. unfold is_byte. lia. }
  unfold demo_refs, entry_ok, ref_ok. repeat apply Forall_cons_2; [| | |apply Forall_nil_2]; (split; [by vm_compute|]).
  - split_and!; try (by apply Hw); [done|by left].
  - split; [|reflexivity]. unfold text, is_byte. vm_compute. repeat constructor; discriminate.
  - split_and!; try (by apply Hw); [done|done|by right].
Qed.

Lemma ls_refs_exact_witness : exists r' w',
  bgit_proto_ls_refs 9 (bgit_proto_io_fd (bgit_pkt_from_fd 3) 4) [str "refs/"] true true (pipe_world demo_listing) =
  (Ret (Some (omap entry_ref demo_refs), r'), w').
Proof.
  destruct (bgit_proto_ls_refs 9 _ _ _ _ _) as [x w'] eqn:E.
  destruct (ls_refs_exact 9 (bgit_pkt_from_fd 3) 4 2 [] [str "refs/"] true true demo_refs [] (pipe_world demo_listing) x w')
    as (r' & -> & _).
  - clear E. apply demo_refs_ok.
  - clear E. repeat constructor.
  - clear E. rewrite app_nil_r. apply pipe_streams; [unfold demo_listing; solve_bytes|by vm_compute].
  - clear E. apply pipe_sends.
  - clear E. apply pipe_apart.
  - clear E. apply pipe_cooperative.
  - clear E. vm_compute. lia.
  - exact E.
  - by exists r', w'.
Defined.
