(* ===== verification/Ignore.v ===== *)
(** * Ignore rules (ignore.c)

    The glob matcher of exclude patterns, the rules a .gitignore file makes,
    and which rule decides about a path.  The matcher is proved to accept
    exactly the language of its pattern, read as a list of tokens. *)

From stdpp Require Import list.
From S2P Require Import Prelude CLib.

#[local] Open Scope Z_scope.

(* ------------------------------------------------------------------ *)
(** ** Matching a pattern *)

(** The members of a bracket expression: whether one is [x], and what is left
    of the pattern, from the bracket that ends it. *)
Fixpoint class_loop (class : list Z) (x : Z) (matched first : bool) : bool * list Z :=
  match class with
  | [] => (matched, [])
  | a :: class1 =>
      if (a =? 93) && negb first then (matched, class)
      else
        let one := class_loop class1 x (if a =? x then true else matched) false in
        match class1 with
        | d :: b :: class3 =>
            if (d =? 45) && negb (b =? 93) then
              class_loop class3 x (if (x >=? a) && (x <=? b) then true else matched) false
            else one
        | _ => one
        end
  end.

(** A single star, before a pattern that matches as [wild] says. *)
Fixpoint star_loop (wild : list Z -> bool) (t : list Z) : bool :=
  if wild t then true
  else match t with
       | [] => false
       | c :: t' => if c =? 47 then false else star_loop wild t'
       end.

(** From here, or from after any slash to come. *)
Fixpoint components_loop (fuel : nat) (wild : list Z -> bool) (t : list Z) : bool :=
  match fuel with
  | O => false
  | S fuel' =>
      if wild t then true
      else match find_byte 47 t with
           | None => false
           | Some n => components_loop fuel' wild (drop (S n) t)
           end
  end.

Fixpoint wild_loop (fuel : nat) (p s : list Z) : bool :=
  match fuel with
  | O => false
  | S fuel' =>
      match p with
      | [] => match s with [] => true | _ => false end
      | c :: p1 =>
          if c =? 42 then
            if next_is 42 p1 then
              let rest := drop 1 p1 in
              let rest := if next_is 47 rest then drop 1 rest else rest in
              match rest with
              | [] => true
              | _ => components_loop (S (length s)) (wild_loop fuel' rest) s
              end
            else star_loop (wild_loop fuel' p1) s
          else if c =? 63 then
            match s with
            | [] => false
            | x :: s1 => if x =? 47 then false else wild_loop fuel' p1 s1
            end
          else if c =? 91 then
            match s with
            | [] => false
            | x :: s1 =>
                if x =? 47 then false
                else
                  let negate := next_is 33 p1 || next_is 94 p1 in
                  let class := if negate then drop 1 p1 else p1 in
                  let '(matched, class) := class_loop class x false true in
                  if negb (next_is 93 class) then false
                  else if Bool.eqb matched negate then false
                  else wild_loop fuel' (drop 1 class) s1
            end
          else
            let '(c, p1) := match p1 with d :: p2 => if c =? 92 then (d, p2) else (c, p1) | [] => (c, p1) end in
            match s with
            | x :: s1 => if negb (c =? x) then false else wild_loop fuel' p1 s1
            | [] => false
            end
      end
  end.

Definition bgit_wild (p s : list Z) : bool := wild_loop (S (length p)) p s.

(* ------------------------------------------------------------------ *)
(** ** Rules *)

Record bgit_ignore_rule := {
  rule_pattern : list Z;
  rule_text : list Z;
  rule_source : list Z;
  rule_number : Z;
  rule_base : list Z;
  negated : bool;
  directory_only : bool;
  anchored : bool }.

(** The length of a line without its trailing blanks, unless escaped. *)
Fixpoint trim_blanks (fuel : nat) (pattern : list Z) : list Z :=
  match fuel with
  | O => pattern
  | S fuel' =>
      let full := len pattern in
      if (full >? 1) && ((nth (Z.to_nat (full - 1)) pattern 0 =? 32) || (nth (Z.to_nat (full - 1)) pattern 0 =? 9)) &&
         negb (nth (Z.to_nat (full - 2)) pattern 0 =? 92)
      then trim_blanks fuel' (take (Z.to_nat (full - 1)) pattern)
      else pattern
  end.

(** The rule of a line, if it makes one. *)
Definition line_rule (line source : list Z) (number : Z) (base : list Z) : option bgit_ignore_rule :=
  let pattern := take 4095 line in
  let pattern := trim_blanks (length pattern) pattern in
  let raw := pattern in
  let neg := next_is 33 pattern in
  let p := if neg then drop 1 pattern else pattern in
  let dir := match last p with Some c => c =? 47 | None => false end in
  let p := if dir then take (length p - 1) p else p in
  match p with
  | [] => None
  | _ =>
      let anch := match find_byte 47 p with Some _ => true | None => false end in
      let p := if next_is 47 p then drop 1 p else p in
      match p with
      | [] => None
      | _ => Some {| rule_pattern := p; rule_text := raw; rule_source := source; rule_number := number;
                     rule_base := base; negated := neg; directory_only := dir; anchored := anch |}
      end
  end.

Definition bgit_ignore_push (rules : list bgit_ignore_rule) (line source : list Z) (number : Z) (base : list Z)
    : list bgit_ignore_rule :=
  match line_rule line source number base with Some rule => rules ++ [rule] | None => rules end.

Fixpoint read_loop (fuel : nat) (data : list Z) (number : Z) (rules : list bgit_ignore_rule) (source base : list Z)
    : list bgit_ignore_rule :=
  match fuel, data with
  | S fuel', _ :: _ =>
      let '(line, data) := fgets 4096 data in
      let number := number + 1 in
      let line := trim_eol (c_text line) in
      match line with
      | [] => read_loop fuel' data number rules source base
      | c :: _ =>
          if c =? 35 then read_loop fuel' data number rules source base
          else read_loop fuel' data number (bgit_ignore_push rules line source number base) source base
      end
  | _, _ => rules
  end.

(** [file] is what reading a path gives, when it can be opened. *)
Definition bgit_ignore_read (file : list Z -> option (list Z)) (rules : list bgit_ignore_rule) (path source base : list Z)
    : list bgit_ignore_rule :=
  match file path with
  | None => rules
  | Some data => read_loop (length data) data 0 rules source base
  end.

(** [snprintf] into a path buffer, cut short when it does not fit. *)
Definition cut (s : list Z) : list Z := take 4095 s.

Definition bgit_ignore_add_dir (file : list Z -> option (list Z)) (rules : list bgit_ignore_rule)
    (work_tree : option (list Z)) (relative : list Z) : list bgit_ignore_rule :=
  match work_tree with
  | None => rules
  | Some top =>
      match relative with
      | [] => bgit_ignore_read file rules (cut (top ++ str "/.gitignore")) (str ".gitignore") []
      | _ => bgit_ignore_read file rules (cut (top ++ str "/" ++ relative ++ str "/.gitignore"))
               (cut (relative ++ str "/.gitignore")) relative
      end
  end.

(** [excludes] is core.excludesFile, [home] the HOME of the environment. *)
Definition bgit_ignore_load (file : list Z -> option (list Z)) (excludes home : option (list Z))
    (common_dir : list Z) (work_tree : option (list Z)) : list bgit_ignore_rule :=
  let rules :=
    match excludes with
    | Some ((_ :: rest) as ex) =>
        let path :=
          match home with
          | Some h => if next_is 126 ex && next_is 47 rest then cut (h ++ str "/" ++ drop 1 rest) else cut ex
          | None => cut ex
          end in
        bgit_ignore_read file [] path path []
    | _ => []
    end in
  let path := cut (common_dir ++ str "/info/exclude") in
  let rules := bgit_ignore_read file rules path (str ".git/info/exclude") [] in
  bgit_ignore_add_dir file rules work_tree [].

(* ------------------------------------------------------------------ *)
(** ** Deciding about a path *)

Definition relative_path (base path : list Z) : option (list Z) :=
  match base with
  | [] => Some path
  | _ => if negb (starts base path) || negb (next_is 47 (drop (length base) path)) then None
         else Some (drop (length base + 1) path)
  end.

Definition bgit_ignore_rule_matches (rule : bgit_ignore_rule) (path : list Z) (is_dir : bool) : bool :=
  if directory_only rule && negb is_dir then false
  else
    match relative_path (rule_base rule) path with
    | None => false
    | Some relative =>
        if anchored rule then bgit_wild (rule_pattern rule) relative
        else components_loop (S (length relative)) (bgit_wild (rule_pattern rule)) relative
    end.

Definition bgit_ignore_last (rules : list bgit_ignore_rule) (path : list Z) (is_dir : bool) : option bgit_ignore_rule :=
  foldl (fun last rule => if bgit_ignore_rule_matches rule path is_dir then Some rule else last) None rules.

(** The directories on the way down: the rule that excludes one. *)
Fixpoint above_loop (fuel : nat) (rules : list bgit_ignore_rule) (path : list Z) (from : nat) : option bgit_ignore_rule :=
  match fuel with
  | O => None
  | S fuel' =>
      match find_byte 47 (drop from path) with
      | None => None
      | Some n =>
          match bgit_ignore_last rules (take (from + n) path) true with
          | Some above => if negb (negated above) then Some above else above_loop fuel' rules path (from + n + 1)
          | None => above_loop fuel' rules path (from + n + 1)
          end
      end
  end.

(** The rule that decided, and whether the path is ignored. *)
Definition bgit_ignore_match (rules : list bgit_ignore_rule) (path : list Z) (is_dir : bool)
    : option bgit_ignore_rule * bool :=
  match if len path <? 4096 then above_loop (S (length path)) rules path 0 else None with
  | Some above => (Some above, true)
  | None =>
      let last := bgit_ignore_last rules path is_dir in
      (last, match last with Some rule => negb (negated rule) | None => false end)
  end.

(* ------------------------------------------------------------------ *)
(** ** The language of a pattern *)

(** A pattern as tokens.  [Never] stands for a bracket that is not closed. *)
Inductive token :=
  | Lit (c : Z) | Any | Star | Deep | Class_ (negate : bool) (ranges : list (Z * Z)) | Never.

Definition in_ranges (ranges : list (Z * Z)) (x : Z) : Prop := Exists (fun r => fst r <= x <= snd r) ranges.

(** The strings tokens stand for.  [Deep] is any run of whole directories. *)
Fixpoint lang (ts : list token) (s : list Z) : Prop :=
  match ts with
  | [] => s = []
  | Lit c :: ts' => exists s', s = c :: s' /\ lang ts' s'
  | Any :: ts' => exists x s', s = x :: s' /\ x <> 47 /\ lang ts' s'
  | Class_ negate ranges :: ts' =>
      exists x s', s = x :: s' /\ x <> 47 /\ (if negate then ~ in_ranges ranges x else in_ranges ranges x) /\ lang ts' s'
  | Star :: ts' => exists a s', s = a ++ s' /\ Forall (fun c => c <> 47) a /\ lang ts' s'
  | Deep :: ts' => ts' = [] \/ lang ts' s \/ exists a s', s = a ++ 47 :: s' /\ lang ts' s'
  | Never :: _ => False
  end.

(** The ranges of a bracket expression, a single byte being one of its own. *)
Fixpoint class_ranges (class : list Z) (first : bool) : list (Z * Z) * list Z :=
  match class with
  | [] => ([], [])
  | a :: class1 =>
      if (a =? 93) && negb first then ([], class)
      else
        let one := let '(rs, rest) := class_ranges class1 false in ((a, a) :: rs, rest) in
        match class1 with
        | d :: b :: class3 =>
            if (d =? 45) && negb (b =? 93) then let '(rs, rest) := class_ranges class3 false in ((a, b) :: rs, rest)
            else one
        | _ => one
        end
  end.

Fixpoint tokens_loop (fuel : nat) (p : list Z) : list token :=
  match fuel, p with
  | S fuel', c :: p1 =>
      if c =? 42 then
        if next_is 42 p1 then
          let rest := drop 1 p1 in
          Deep :: tokens_loop fuel' (if next_is 47 rest then drop 1 rest else rest)
        else Star :: tokens_loop fuel' p1
      else if c =? 63 then Any :: tokens_loop fuel' p1
      else if c =? 91 then
        let negate := next_is 33 p1 || next_is 94 p1 in
        let '(ranges, rest) := class_ranges (if negate then drop 1 p1 else p1) true in
        if next_is 93 rest then Class_ negate ranges :: tokens_loop fuel' (drop 1 rest) else [Never]
      else match p1 with
           | d :: p2 => if c =? 92 then Lit d :: tokens_loop fuel' p2 else Lit c :: tokens_loop fuel' p1
           | [] => [Lit c]
           end
  | _, _ => []
  end.

Definition tokens (p : list Z) : list token := tokens_loop (S (length p)) p.

Lemma tokens_nil fuel p : (length p < fuel)%nat -> tokens_loop fuel p = [] <-> p = [].
Proof.
  intros Hf. destruct fuel as [|fuel]; [lia|]. destruct p as [|c p]; [done|]. cbn [tokens_loop]. split; [|done].
  case_if; [case_if; done|]. case_if; [done|]. case_if; [|destruct p; [done|case_if; done]].
  cbn zeta. destruct (class_ranges _ _). case_if; done.
Qed.

Lemma class_ranges_rest n : forall class first, (length class < n)%nat -> (length (snd (class_ranges class first)) <= length class)%nat.
Proof.
  induction n as [|n IH]; intros class first Hn; [lia|]. destruct class as [|a class1]; [done|]. cbn [class_ranges length] in *.
  case_if; [done|]. pose proof (IH class1 false ltac:(lia)) as H1.
  destruct (class_ranges class1 false) as [rs1 rest1]. cbn [snd] in H1.
  destruct class1 as [|d [|b class3]]; [cbn in *; lia..|]. cbn [length] in *. case_if; [|cbn [snd]; lia].
  pose proof (IH class3 false ltac:(lia)) as H3. destruct (class_ranges class3 false). cbn [snd] in *. lia.
Qed.

(** The scan of a bracket expression finds what its ranges hold. *)
Lemma class_loop_spec n : forall class x matched first, (length class < n)%nat ->
  class_loop class x matched first =
  (matched || bool_decide (in_ranges (fst (class_ranges class first)) x), snd (class_ranges class first)).
Proof.
  assert (Hcons : forall m (a b : Z) rs x, (if (x >=? a) && (x <=? b) then true else m) || bool_decide (in_ranges rs x) =
    m || bool_decide (in_ranges ((a, b) :: rs) x)).
  { intros m a b rs x. assert (E : bool_decide (in_ranges ((a, b) :: rs) x) = ((x >=? a) && (x <=? b)) || bool_decide (in_ranges rs x)).
    { apply eq_true_iff_eq. rewrite bool_decide_eq_true, orb_true_iff, bool_decide_eq_true. unfold in_ranges. rewrite Exists_cons.
      cbn [fst snd]. split; (intros [?|?]; [left|by right]); simpl_bool; lia. }
    rewrite E. destruct ((x >=? a) && (x <=? b)), m, (bool_decide (in_ranges rs x)); done. }
  induction n as [|n IH]; intros class x matched first Hn; [lia|]. destruct class as [|a class1].
  { cbn [class_loop class_ranges fst snd]. f_equal. rewrite bool_decide_false; [by rewrite orb_false_r|]. by intros ?%Exists_nil. }
  cbn [class_loop class_ranges length] in *. case_if; [|].
  { cbn [fst snd]. f_equal. rewrite bool_decide_false; [by rewrite orb_false_r|]. by intros ?%Exists_nil. }
  assert (Hone : class_loop class1 x (if a =? x then true else matched) false =
    (matched || bool_decide (in_ranges ((a, a) :: fst (class_ranges class1 false)) x), snd (class_ranges class1 false))).
  { rewrite IH by lia. f_equal. rewrite <- Hcons. f_equal. destruct (Z.eqb_spec a x) as [->|Hne].
    - by rewrite Z.geb_leb, Z.leb_refl.
    - destruct ((x >=? a) && (x <=? a)) eqn:E; [|done]. simpl_bool. lia. }
  rewrite Hone. destruct (class_ranges class1 false) as [rs1 rest1] eqn:E1. cbn [fst snd] in *.
  destruct class1 as [|d [|b class3]]; [done..|]. case_if; [|done]. cbn [length] in Hn. rewrite IH by lia.
  destruct (class_ranges class3 false) as [rs3 rest3]. cbn [fst snd]. f_equal. apply Hcons.
Qed.

Lemma star_loop_spec W s : star_loop W s = true <-> exists a s', s = a ++ s' /\ Forall (fun c => c <> 47) a /\ W s' = true.
Proof.
  induction s as [|c s IH]; cbn [star_loop];
    match goal with |- context [W ?l] => destruct (W l) eqn:E; [split; [|done]; intros _; by exists [], l|] end.
  - split; [done|]. intros ([|] & s' & Es & _ & Hw); [|done]. cbn in Es. subst. congruence.
  - destruct (Z.eqb_spec c 47) as [->|Hne].
    + split; [done|]. intros ([|] & s' & Es & Ha & Hw); cbn in Es; [subst; congruence|]. injection Es as <- _. by inversion Ha.
    + rewrite IH. split.
      * intros (a & s' & -> & Ha & Hw). exists (c :: a), s'. split; [done|]. by split; [constructor|].
      * intros ([|c' a] & s' & Es & Ha & Hw); cbn in Es; [subst; congruence|]. injection Es as <- ->. inversion Ha; subst. by exists a, s'.
Qed.

Lemma components_loop_spec W fuel : forall s, (length s < fuel)%nat ->
  components_loop fuel W s = true <-> W s = true \/ exists a s', s = a ++ 47 :: s' /\ W s' = true.
Proof.
  induction fuel as [|fuel IH]; intros s Hf; [lia|]. cbn [components_loop]. destruct (W s) eqn:E; [tauto|].
  destruct (find_byte 47 s) as [n|] eqn:Ef.
  - apply find_byte_Some in Ef as (a & b & -> & <- & Ha).
    replace (drop (S (length a)) (a ++ 47 :: b)) with b by (replace (S (length a)) with (length a + 1)%nat by lia; by rewrite drop_app_add).
    rewrite length_app in Hf. cbn in Hf. rewrite IH by lia. split.
    + intros [Hw|(a' & s' & -> & Hw)]; right; [by exists a, b|]. exists (a ++ 47 :: a'), s'. by rewrite <- app_assoc.
    + intros [|(a' & s' & Es & Hw)]; [done|]. apply app_eq_app in Es as (l & [[E1 E2]|[E1 E2]]).
      * destruct l as [|x l]; [injection E2 as <-; by left|]. injection E2 as <- ->. exfalso. subst a.
        apply Forall_app in Ha as [_ Ha]. by inversion Ha.
      * destruct l as [|x l]; [injection E2 as <-; by left|]. injection E2 as <- E2. right. by exists l, s'.
  - split; [done|]. intros [|(a & s' & -> & _)]; [done|]. apply find_byte_None in Ef. apply Forall_app in Ef as [_ Ef]. by inversion Ef.
Qed.

Lemma next_is_cons c p : next_is c p = true <-> exists p', p = c :: p'.
Proof.
  destruct p as [|d p]; cbn [next_is]; [split; [done|by intros [? ?]]|]. rewrite Z.eqb_eq.
  split; [intros ->; by exists p|by intros [? [= <- _]]].
Qed.

(** A byte that stands for itself, at the front of the string. *)
Lemma lit_spec fuel c p1 s : (forall s, wild_loop fuel p1 s = true <-> lang (tokens_loop fuel p1) s) ->
  match s with x :: s1 => if negb (c =? x) then false else wild_loop fuel p1 s1 | [] => false end = true <->
  lang (Lit c :: tokens_loop fuel p1) s.
Proof.
  intros IH. cbn [lang]. destruct s as [|x s1]; [split; [done|by intros (? & ? & _)]|].
  destruct (Z.eqb_spec c x) as [->|Hne]; cbn [negb].
  - rewrite IH. split; [intros; by exists s1|by intros (? & [= <-] & ?)].
  - split; [done|]. by intros (? & [= <- _] & _).
Qed.

Lemma wild_loop_spec fuel : forall p s, (length p < fuel)%nat -> wild_loop fuel p s = true <-> lang (tokens_loop fuel p) s.
Proof.
  induction fuel as [|fuel IH]; intros p s Hf; [lia|]. destruct p as [|c p1].
  { cbn. by destruct s. }
  cbn [wild_loop tokens_loop length] in *. case_if; [|case_if; [|case_if]].
  - destruct (next_is 42 p1) eqn:En; cbn zeta.
    + set (rest := if next_is 47 _ then _ else _). apply next_is_cons in En as [p2 ->]. cbn [length] in *.
      assert (Hr : (length rest < fuel)%nat) by (unfold rest; case_if; rewrite ?length_drop; cbn [drop length]; lia).
      pose proof (tokens_nil fuel rest Hr) as Hnil. destruct rest as [|r rest'] eqn:Er.
      * cbn [lang]. split; [intros _; left; by apply Hnil|done].
      * rewrite components_loop_spec by lia. cbn [lang]. rewrite <- Er in *. split.
        -- intros [Hw|(a & s' & -> & Hw)]; right; [left; by apply IH|right; exists a, s'; split; [done|by apply IH]].
        -- intros [E0|[Hw|(a & s' & -> & Hw)]]; [apply Hnil in E0; congruence|left; by apply IH|].
           right. exists a, s'. split; [done|by apply IH].
    + rewrite star_loop_spec. cbn [lang]. split; intros (a & s' & -> & Ha & Hw); exists a, s'; (split; [done|]; split; [done|]); apply IH; (done || lia).
  - cbn [lang]. destruct s as [|x s1]; [split; [done|by intros (? & ? & ? & _)]|]. destruct (Z.eqb_spec x 47) as [->|Hx].
    + split; [done|]. by intros (? & ? & [= <- _] & ? & _).
    + rewrite IH by lia. split; [intros; by exists x, s1|by intros (? & ? & [= <- <-] & _ & ?)].
  - set (negate := next_is 33 p1 || next_is 94 p1). set (class := if negate then drop 1 p1 else p1).
    assert (Hc : (length class <= length p1)%nat) by (unfold class; case_if; [rewrite length_drop; lia|done]).
    pose proof (class_ranges_rest (S (length class)) class true ltac:(lia)) as Hrest.
    destruct s as [|x s1].
    { split; [done|]. destruct (class_ranges class true) as [rs rest]. case_if; cbn [lang]; [by intros (? & ? & ? & _)|done]. }
    destruct (Z.eqb_spec x 47) as [->|Hx].
    { split; [done|]. destruct (class_ranges class true) as [rs rest]. case_if; cbn [lang]; [by intros (? & ? & [= <- _] & ? & _)|done]. }
    rewrite (class_loop_spec (S (length class))) by lia. destruct (class_ranges class true) as [rs rest]. cbn [fst snd orb] in *.
    destruct (next_is 93 rest) eqn:En; cbn [negb]; [|by cbn [lang]]. apply next_is_cons in En as [rest' ->].
    cbn [drop length lang] in *. rewrite drop_0 in *.
    destruct (Bool.eqb (bool_decide (in_ranges rs x)) negate) eqn:Eb.
    + apply eqb_prop in Eb. split; [done|]. intros (? & ? & [= <- <-] & _ & Hin & _). destruct negate.
      * by apply bool_decide_eq_true in Eb.
      * by apply bool_decide_eq_false in Eb.
    + apply eqb_false_iff in Eb. rewrite IH by lia. split.
      * intros Hl. exists x, s1. split; [done|]. split; [done|]. split; [|done].
        destruct negate; [intros Hin; by rewrite bool_decide_true in Eb|].
        destruct (decide (in_ranges rs x)); [done|]. by rewrite bool_decide_false in Eb.
      * by intros (? & ? & [= <- <-] & _ & _ & ?).
  - destruct p1 as [|d p2]; [|case_if].
    + pose proof (lit_spec fuel c [] s (fun s => IH [] s ltac:(cbn in *; lia))) as H. destruct fuel; [cbn in *; lia|]. exact H.
    + apply lit_spec. intros. apply IH. cbn in *. lia.
    + apply lit_spec. intros. apply IH. cbn in *. lia.
Qed.

Lemma wild_spec p s : bgit_wild p s = true <-> lang (tokens p) s.
Proof. apply wild_loop_spec. lia. Qed.


(* ------------------------------------------------------------------ *)
(** ** Which rule decides *)

(** The path as a rule of that directory sees it. *)
Definition relative_to (base path rel : list Z) : Prop :=
  match base with [] => rel = path | _ => path = base ++ 47 :: rel end.

Definition covers (rule : bgit_ignore_rule) (path : list Z) (is_dir : bool) : Prop :=
  (directory_only rule = true -> is_dir = true) /\
  exists rel, relative_to (rule_base rule) path rel /\
    let ts := tokens (rule_pattern rule) in
    lang ts rel \/ (anchored rule = false /\ exists a name, rel = a ++ 47 :: name /\ lang ts name).

(** The last of the rules that covers the path. *)
Inductive decided (rules : list bgit_ignore_rule) (path : list Z) (is_dir : bool) : option bgit_ignore_rule -> Prop :=
  | decided_none : Forall (fun r => ~ covers r path is_dir) rules -> decided rules path is_dir None
  | decided_some before r after : rules = before ++ r :: after -> covers r path is_dir ->
      Forall (fun r => ~ covers r path is_dir) after -> decided rules path is_dir (Some r).

Lemma starts_spec p s : starts p s = true <-> exists t, s = p ++ t.
Proof.
  unfold starts, beq. rewrite bool_decide_eq_true. split.
  - intros E. exists (drop (length p) s). rewrite <- E at 1. by rewrite take_drop.
  - intros [t ->]. apply take_app_length.
Qed.

Lemma relative_spec base path :
  (exists rel, relative_path base path = Some rel /\ relative_to base path rel) \/
  (relative_path base path = None /\ forall rel, ~ relative_to base path rel).
Proof.
  destruct base as [|b base]; [left; by exists path|]. cbn [relative_to relative_path]. set (d := b :: base).
  destruct (starts d path) eqn:Es; cbn [negb orb].
  - apply starts_spec in Es as [t ->]. rewrite drop_app_length. destruct (next_is 47 t) eqn:En; cbn [negb].
    + apply next_is_cons in En as [rel ->]. left. exists rel. split; [|done]. f_equal. by rewrite drop_app_add.
    + right. split; [done|]. intros rel E. apply app_inv_head in E. subst t. cbn in En. done.
  - right. split; [done|]. intros rel ->. assert (starts d (d ++ 47 :: rel) = true) by (apply starts_spec; by eexists). congruence.
Qed.

Lemma rule_matches_spec rule path is_dir : bgit_ignore_rule_matches rule path is_dir = true <-> covers rule path is_dir.
Proof.
  unfold bgit_ignore_rule_matches, covers. destruct (directory_only rule && negb is_dir) eqn:Ed.
  { apply andb_true_iff in Ed as [E1 E2]. apply negb_true_iff in E2. split; [done|]. intros [H _]. by rewrite H in E2. }
  apply andb_false_iff in Ed. rewrite negb_false_iff in Ed.
  destruct (relative_spec (rule_base rule) path) as [(rel & -> & Hrel)|(-> & Hno)].
  - assert (Hall : (exists rel', relative_to (rule_base rule) path rel' /\
      let ts := tokens (rule_pattern rule) in
      lang ts rel' \/ (anchored rule = false /\ exists a name, rel' = a ++ 47 :: name /\ lang ts name)) <->
      (let ts := tokens (rule_pattern rule) in
       lang ts rel \/ (anchored rule = false /\ exists a name, rel = a ++ 47 :: name /\ lang ts name))).
    { split; [|intros; by exists rel]. intros (rel' & Hrel' & H). replace rel with rel'; [done|].
      destruct (rule_base rule); cbn in *; [congruence|]. rewrite Hrel in Hrel'. injection Hrel' as E. apply app_inv_head in E. congruence. }
    rewrite Hall. cbn zeta. destruct (anchored rule).
    + rewrite wild_spec. split; [intros; split; [by intros; destruct Ed; congruence|by left]|by intros (_ & [?|(? & _)])].
    + rewrite components_loop_spec, wild_spec by lia. split.
      * intros H. split; [by intros; destruct Ed; congruence|]. destruct H as [?|(a & s' & -> & H)]; [by left|right].
        split; [done|]. exists a, s'. split; [done|]. by apply wild_spec.
      * intros (_ & [?|(_ & a & s' & -> & H)]); [by left|right]. exists a, s'. split; [done|]. by apply wild_spec.
  - split; [done|]. intros (_ & rel & Hrel & _). by apply Hno in Hrel.
Qed.

Lemma last_decided rules path is_dir : decided rules path is_dir (bgit_ignore_last rules path is_dir).
Proof.
  unfold bgit_ignore_last. induction rules as [|r rules IH] using rev_ind; [by constructor|].
  rewrite foldl_app. cbn [foldl]. destruct (bgit_ignore_rule_matches r path is_dir) eqn:Em.
  - apply rule_matches_spec in Em. by apply (decided_some _ _ _ rules r []).
  - assert (Hn : ~ covers r path is_dir) by (intros H; apply rule_matches_spec in H; congruence).
    inversion IH as [Hall|before r' after E Hc Hall E2].
    + constructor. apply Forall_app. split; [done|by repeat constructor].
    + apply (decided_some _ _ _ before r' (after ++ [r])); [by rewrite E, <- app_assoc|done|apply Forall_app; split; [done|by repeat constructor]].
Qed.

Lemma decided_unique rules path is_dir o : decided rules path is_dir o -> o = bgit_ignore_last rules path is_dir.
Proof.
  intros Ho. pose proof (last_decided rules path is_dir) as Hl. remember (bgit_ignore_last rules path is_dir) as o'. clear Heqo'.
  assert (Hex : forall before r after, rules = before ++ r :: after -> Forall (fun r => ~ covers r path is_dir) rules -> covers r path is_dir -> False).
  { intros before r after -> Hall. apply Forall_app in Hall as [_ Hall]. by inversion Hall. }
  inversion Ho as [Ha|b1 r1 a1 E1 C1 A1]; inversion Hl as [Ha'|b2 r2 a2 E2 C2 A2]; subst o o'; [done|by edestruct Hex..|].
  rewrite E1 in E2. apply app_eq_app in E2 as (l & [[-> E]|[-> E]]); (destruct l as [|x l]; [by injection E as ->|]); injection E as -> ->.
  - apply Forall_app in A2 as [_ A2]. by inversion A2.
  - apply Forall_app in A1 as [_ A1]. by inversion A1.
Qed.

(** A directory on the way down to the path. *)
Definition ancestor (d path : list Z) : Prop := exists rest, path = d ++ 47 :: rest.

(** A rule excludes a directory: it decides about it, and does not bring back. *)
Definition excludes_dir (rules : list bgit_ignore_rule) (d : list Z) (r : bgit_ignore_rule) : Prop :=
  decided rules d true (Some r) /\ negated r = false.

Lemma ancestor_at d path : ancestor d path <-> path !! length d = Some 47 /\ d = take (length d) path.
Proof.
  split.
  - intros [rest ->]. by rewrite list_lookup_middle, take_app_length.
  - intros [Hl E]. exists (drop (S (length d)) path). rewrite E at 1. symmetry. by apply take_drop_middle.
Qed.

Lemma next_slash from path n : find_byte 47 (drop from path) = Some n ->
  path !! (from + n)%nat = Some 47 /\ forall k, (from <= k < from + n)%nat -> path !! k <> Some 47.
Proof.
  intros (a & b & E & <- & Ha)%find_byte_Some. split.
  - rewrite <- lookup_drop, E. by apply list_lookup_middle.
  - intros k Hk Hl. replace k with (from + (k - from))%nat in Hl by lia. rewrite <- lookup_drop, E, lookup_app_l in Hl by lia.
    by apply (Forall_lookup_1 _ _ _ _ Ha) in Hl.
Qed.

Lemma above_loop_spec rules path fuel : forall from, (length path < from + fuel)%nat ->
  match above_loop fuel rules path from with
  | Some r => exists d, ancestor d path /\ (from <= length d)%nat /\ excludes_dir rules d r /\
      forall d' r', ancestor d' path -> (from <= length d' < length d)%nat -> ~ excludes_dir rules d' r'
  | None => forall d r, ancestor d path -> (from <= length d)%nat -> ~ excludes_dir rules d r
  end.
Proof.
  induction fuel as [|fuel IH]; intros from Hf; cbn [above_loop].
  { intros d r [Hl _]%ancestor_at Hd. apply lookup_lt_Some in Hl. lia. }
  destruct (find_byte 47 (drop from path)) as [n|] eqn:Ef.
  2:{ intros d r [Hl _]%ancestor_at Hd. apply find_byte_None in Ef. replace (length d) with (from + (length d - from))%nat in Hl by lia.
      rewrite <- lookup_drop in Hl. by apply (Forall_lookup_1 _ _ _ _ Ef) in Hl. }
  destruct (next_slash _ _ _ Ef) as [Hat Hbefore]. pose proof (lookup_lt_Some _ _ _ Hat) as Hlt.
  set (d := take (from + n) path). assert (Hdl : length d = (from + n)%nat) by (unfold d; rewrite length_take; lia).
  assert (Hd : ancestor d path) by (apply ancestor_at; rewrite Hdl; done).
  assert (Hcase : forall d', ancestor d' path -> (from <= length d')%nat -> d' = d \/ (from + n + 1 <= length d')%nat).
  { intros d' [Hl E]%ancestor_at Hd'. destruct (decide (length d' < from + n)%nat); [by destruct (Hbefore (length d')); [lia|]|].
    destruct (decide (length d' = from + n)%nat) as [E2|]; [left; by rewrite E, E2|right; lia]. }
  pose proof (last_decided rules d true) as Hdec.
  assert (Hgo : (forall r, ~ excludes_dir rules d r) ->
    match above_loop fuel rules path (from + n + 1) with
    | Some r => exists d, ancestor d path /\ (from <= length d)%nat /\ excludes_dir rules d r /\
        forall d' r', ancestor d' path -> (from <= length d' < length d)%nat -> ~ excludes_dir rules d' r'
    | None => forall d r, ancestor d path -> (from <= length d)%nat -> ~ excludes_dir rules d r
    end).
  { intros Hno. specialize (IH (from + n + 1)%nat ltac:(lia)). destruct (above_loop fuel rules path (from + n + 1)) as [r|].
    - destruct IH as (d2 & H1 & H2 & H3 & H4). exists d2. split; [done|]. split; [lia|]. split; [done|].
      intros d' r' Hd' Hb. destruct (Hcase d' Hd' ltac:(lia)) as [->|Hge]; [apply Hno|]. apply H4; [done|lia].
    - intros d' r' Hd' Hb. destruct (Hcase d' Hd' Hb) as [->|Hge]; [apply Hno|]. by apply IH. }
  destruct (bgit_ignore_last rules d true) as [above|] eqn:El.
  - destruct (negated above) eqn:En; cbn [negb].
    + apply Hgo. intros r [Hr Hn]. apply decided_unique in Hr. congruence.
    + exists d. split; [done|]. split; [lia|]. split; [done|]. intros d' r' Hd' Hb.
      destruct (Hcase d' Hd' ltac:(lia)) as [->|?]; lia.
  - apply Hgo. intros r [Hr Hn]. apply decided_unique in Hr. congruence.
Qed.

(** [C21] (functional) A path is ignored when a directory on the way down to it
    is excluded, and then the rule named is the one that excludes the topmost
    such directory, which no later rule brings back; otherwise the last rule
    that covers the path itself decides, and ignores it unless it is negated.
    A rule covers a path under its directory when its pattern stands for the
    path there or, if it is not anchored, for what follows some slash of it. *)
Theorem ignore_match_exact rules path is_dir o res : len path < 4096 ->
  bgit_ignore_match rules path is_dir = (o, res) ->
  (exists d r, ancestor d path /\ excludes_dir rules d r /\
     (forall d' r', ancestor d' path -> len d' < len d -> ~ excludes_dir rules d' r') /\ o = Some r /\ res = true) \/
  ((forall d r, ancestor d path -> ~ excludes_dir rules d r) /\ decided rules path is_dir o /\
   res = match o with Some r => negb (negated r) | None => false end).
Proof.
  intros Hl HR. unfold bgit_ignore_match in HR. rewrite (proj2 (Z.ltb_lt _ _) Hl) in HR.
  pose proof (above_loop_spec rules path (S (length path)) 0 ltac:(lia)) as Ha.
  destruct (above_loop _ rules path 0) as [r|].
  - injection HR as <- <-. destruct Ha as (d & H1 & _ & H2 & H3). left. exists d, r. split; [done|]. split; [done|].
    split; [|done]. intros d' r' Hd' Hb. apply H3; [done|]. unfold len in Hb. lia.
  - injection HR as <- <-. right. split; [|split; [apply last_decided|done]]. intros d r Hd. apply Ha; [done|lia].
Qed.

(* ------------------------------------------------------------------ *)
(** ** Reading a file of rules *)

(** A rule as a line of an exclude file. *)
Definition rule_line (neg dir anch : bool) (p : list Z) : list Z :=
  (if neg then [33] else []) ++
  (if anch && bool_decide (find_byte 47 p = None) then [47] else []) ++ p ++ (if dir then [47] else []).

(** The patterns a line can say: text with no line ends, that starts as no
    comment, negation or root does and ends in no blank or slash. *)
Definition pattern_ok (anch : bool) (p : list Z) : Prop :=
  Forall (fun c => c <> 0 /\ c <> 10 /\ c <> 13) p /\ len p < 4000 /\ (anch = false -> find_byte 47 p = None) /\
  match p with [] => False | c :: _ => c <> 33 /\ c <> 35 /\ c <> 47 end /\
  match last p with Some c => c <> 32 /\ c <> 9 /\ c <> 47 | None => False end.

Lemma trim_blanks_none fuel p : match last p with Some c => c <> 32 /\ c <> 9 | None => True end -> trim_blanks fuel p = p.
Proof.
  intros Hl. destruct fuel as [|fuel]; [done|]. cbn [trim_blanks]. case_if; [|done].
  destruct (last p) as [c|] eqn:E; [|apply last_None in E; subst; done]. apply last_Some in E as [q ->].
  rewrite len_app in *. change (len [c]) with 1 in *. replace (Z.to_nat (len q + 1 - 1)) with (length q) in * by (unfold len; lia).
  rewrite nth_middle in *. simpl_bool. lia.
Qed.

Lemma last_app_ne {A} (a b : list A) : b <> [] -> last (a ++ b) = last b.
Proof. intros Hb. destruct (exists_last Hb) as (q & x & ->). by rewrite app_assoc, !last_snoc. Qed.

(** The line of a rule makes that rule. *)
Lemma line_rule_line neg dir anch p source number base : pattern_ok anch p ->
  line_rule (rule_line neg dir anch p) source number base =
  Some {| rule_pattern := p; rule_text := rule_line neg dir anch p; rule_source := source; rule_number := number;
          rule_base := base; negated := neg; directory_only := dir; anchored := anch |}.
Proof.
  intros (Ht & Hlen & Han & Hhd & Hla). unfold line_rule. destruct p as [|c p']; [done|]. set (p := c :: p') in *.
  set (lead := if anch && bool_decide (find_byte 47 p = None) then [47] else []).
  set (tail := if dir then [47] else []).
  assert (E : rule_line neg dir anch p = (if neg then [33] else []) ++ lead ++ p ++ tail) by done.
  assert (Hpl : forall b, last (b ++ p ++ tail) = if dir then Some 47 else last p).
  { intros b. unfold tail. destruct dir; [by rewrite app_assoc, last_snoc|]. rewrite app_nil_r. by apply last_app_ne. }
  assert (Hlast : last (rule_line neg dir anch p) = if dir then Some 47 else last p) by (rewrite E, app_assoc; apply Hpl).
  assert (Hl4 : len (rule_line neg dir anch p) <= 4095).
  { rewrite E, !len_app. assert (len lead <= 1) by (unfold lead; by destruct (anch && _)). assert (len tail <= 1) by (unfold tail; by destruct dir).
    assert (len (if neg then [33] else []) <= 1) by (by destruct neg). lia. }
  rewrite take_ge by (unfold len in Hl4; lia).
  rewrite trim_blanks_none by (rewrite Hlast; destruct dir; [lia|]; destruct (last p); [tauto|done]). cbn zeta.
  assert (En : next_is 33 (rule_line neg dir anch p) = neg).
  { rewrite E. destruct neg; [done|]. unfold lead. cbn [app]. case_if; [done|]. cbn. apply Z.eqb_neq. tauto. }
  rewrite En. replace (if neg then drop 1 _ else _) with (lead ++ p ++ tail) by (rewrite E; by destruct neg).
  rewrite Hpl. replace (match (if dir then Some 47 else last p) with Some c => c =? 47 | None => false end) with dir.
  2:{ destruct dir; [done|]. destruct (last p) as [x|]; [|done]. symmetry. apply Z.eqb_neq. tauto. }
  replace (if dir then take _ _ else _) with (lead ++ p).
  2:{ unfold tail. destruct dir; [|by rewrite app_nil_r]. rewrite app_assoc, length_app. cbn [length].
      replace (length (lead ++ p) + 1 - 1)%nat with (length (lead ++ p)) by lia. by rewrite take_app_length. }
  assert (Hne : exists x l, lead ++ p = x :: l) by (unfold lead; case_if; eauto). destruct Hne as (x & l & Ex). rewrite Ex, <- Ex.
  assert (Hd : (if next_is 47 (lead ++ p) then drop 1 (lead ++ p) else lead ++ p) = p).
  { unfold lead. case_if; [done|]. cbn [app]. unfold p. cbn [next_is]. by rewrite (proj2 (Z.eqb_neq c 47)) by tauto. }
  rewrite Hd. unfold p at 1. fold p. do 2 f_equal.
  - unfold lead. destruct anch; cbn [andb].
    + case_bool_decide; cbn [app]; [done|]. by destruct (find_byte 47 p).
    + cbn [app]. by rewrite Han.
Qed.

(** Rules as a file gives them, numbered by line. *)
Fixpoint file_rules (specs : list (bool * bool * bool * list Z)) (number : Z) (source base : list Z) : list bgit_ignore_rule :=
  match specs with
  | [] => []
  | (neg, dir, anch, p) :: specs' =>
      {| rule_pattern := p; rule_text := rule_line neg dir anch p; rule_source := source; rule_number := number + 1;
         rule_base := base; negated := neg; directory_only := dir; anchored := anch |} :: file_rules specs' (number + 1) source base
  end.

Definition spec_ok (spec : bool * bool * bool * list Z) : Prop := let '(_, _, anch, p) := spec in pattern_ok anch p.

Definition spec_line (spec : bool * bool * bool * list Z) : list Z := let '(neg, dir, anch, p) := spec in rule_line neg dir anch p.

Definition file_text (specs : list (bool * bool * bool * list Z)) : list Z :=
  concat (map (fun s => spec_line s ++ [10]) specs).

Lemma rule_line_text neg dir anch p : pattern_ok anch p ->
  Forall (fun c => c <> 0 /\ c <> 10 /\ c <> 13) (rule_line neg dir anch p) /\ len (rule_line neg dir anch p) <= 4094 /\
  exists c l, rule_line neg dir anch p = c :: l /\ c <> 35.
Proof.
  intros (Ht & Hlen & _ & Hhd & _). unfold rule_line. set (slash := anch && _). split; [|split].
  - rewrite !Forall_app. split_and!; [by destruct neg; repeat constructor|by destruct slash; repeat constructor|done|by destruct dir; repeat constructor].
  - rewrite !len_app. assert (forall (b : bool) (c : Z), len (if b then [c] else []) <= 1) as Hb by (by intros []).
    pose proof (Hb neg 33). pose proof (Hb slash 47). pose proof (Hb dir 47). lia.
  - destruct p as [|c p]; [done|]. destruct neg; cbn [app]; [by eexists _, _|]. destruct slash; cbn [app]; [by eexists _, _|].
    eexists _, _. split; [done|]. lia.
Qed.

Lemma read_loop_lines source base specs : Forall spec_ok specs -> forall fuel number rules,
  (length (file_text specs) <= fuel)%nat ->
  read_loop fuel (file_text specs) number rules source base =
  rules ++ file_rules specs number source base.
Proof.
  induction 1 as [|[[[neg dir] anch] p] specs Hp _ IH]; intros fuel number rules Hf.
  { cbn. rewrite app_nil_r. by destruct fuel. }
  unfold file_text in *. cbn [spec_ok map concat] in *. cbn [spec_line file_rules] in *. destruct (rule_line_text neg dir anch p Hp) as (Ht & Hl & c & l & El & Hc).
  rewrite !length_app in Hf. cbn [length] in Hf. set (line := rule_line neg dir anch p) in *. set (rest := concat _) in *.
  destruct fuel as [|fuel]; [lia|]. cbn [read_loop].
  assert (Efg : fgets 4096 ((line ++ [10]) ++ rest) = (line ++ [10], rest)).
  { rewrite <- app_assoc. apply fgets_line; [|unfold len in *; lia]. eapply Forall_impl; [exact Ht|]. cbn. tauto. }
  rewrite Efg. replace ((line ++ [10]) ++ rest) with (c :: l ++ [10] ++ rest) by (rewrite El, <- app_assoc; done). cbn iota.
  rewrite c_text_plain by (apply Forall_app; split; [|by repeat constructor]; eapply Forall_impl; [exact Ht|]; cbn; tauto).
  rewrite trim_eol_line by (eapply Forall_impl; [exact Ht|]; cbn; tauto). rewrite El. rewrite <- El.
  rewrite (proj2 (Z.eqb_neq c 35)) by done. unfold bgit_ignore_push, line. rewrite line_rule_line by done.
  rewrite IH by lia. by rewrite <- app_assoc.
Qed.

(** A file of rules, one to a line, gives back those rules in
    order, numbered from one, under the directory of the file: what each
    pattern is, and whether it is negated, for directories only or anchored. *)
Theorem ignore_read_exact file path source base specs rules : Forall spec_ok specs ->
  file path = Some (file_text specs) ->
  bgit_ignore_read file rules path source base = rules ++ file_rules specs 0 source base.
Proof. intros Hs Hf. unfold bgit_ignore_read. rewrite Hf. by apply read_loop_lines. Qed.

(* ------------------------------------------------------------------ *)
(** ** Witnesses *)

Definition demo_specs : list (bool * bool * bool * list Z) :=
  [(false, false, false, str "*.o"); (true, false, false, str "keep.o"); (false, true, false, str "build");
   (false, false, true, str "docs/**"); (false, false, true, str "[a-c]?x")].

Lemma demo_specs_ok : Forall spec_ok demo_specs.
Proof.
  unfold demo_specs, spec_ok, pattern_ok. repeat apply Forall_cons_2; [| | | | |apply Forall_nil_2];
    (split; [vm_compute; repeat constructor; discriminate|]); (split; [by vm_compute|]);
    (split; [by vm_compute|]); vm_compute; repeat split; discriminate.
Qed.

Definition demo_file (path : list Z) : option (list Z) :=
  if beq path (str "/w/.gitignore") then Some (file_text demo_specs) else None.

Definition demo_rules : list bgit_ignore_rule := bgit_ignore_add_dir demo_file [] (Some (str "/w")) [].

Lemma ignore_read_exact_witness : demo_rules = file_rules demo_specs 0 (str ".gitignore") [].
Proof.
  unfold demo_rules, bgit_ignore_add_dir.
  exact (ignore_read_exact demo_file (str "/w/.gitignore") (str ".gitignore") [] demo_specs [] demo_specs_ok eq_refl).
Defined.

(** What they say about some paths. *)
Definition demo_says (path : list Z) (is_dir : bool) : option (list Z) * bool :=
  let '(o, res) := bgit_ignore_match demo_rules path is_dir in (option_map rule_text o, res).

Lemma ignore_match_exact_witness :
  demo_says (str "src/a.o") false = (Some (str "*.o"), true) /\
  demo_says (str "src/keep.o") false = (Some (str "!keep.o"), false) /\
  demo_says (str "build/keep.o") false = (Some (str "build/"), true) /\
  demo_says (str "build") false = (None, false) /\
  demo_says (str "docs/x/y") false = (Some (str "docs/**"), true) /\
  demo_says (str "b1x") false = (Some (str "/[a-c]?x"), true) /\
  exists r, fst (bgit_ignore_match demo_rules (str "build/keep.o") false) = Some r /\ negated r = false.
Proof.
  split; [by vm_compute|]. split; [by vm_compute|]. split; [by vm_compute|]. split; [by vm_compute|]. split; [by vm_compute|].
  split; [by vm_compute|].
  assert (Hres : snd (bgit_ignore_match demo_rules (str "build/keep.o") false) = true) by (by vm_compute).
  pose proof (ignore_match_exact demo_rules (str "build/keep.o") false) as H.
  destruct (bgit_ignore_match demo_rules _ false) as [o res]. cbn [fst snd] in *.
  destruct (H o res ltac:(by vm_compute) eq_refl) as [(d & r & _ & [_ Hn] & _ & -> & _)|(_ & _ & Hr)].
  - exists r. split; [reflexivity|exact Hn].
  - rewrite Hres in Hr. destruct o as [r|]; [|discriminate Hr]. exists r. split; [reflexivity|].
    symmetry in Hr. apply negb_true_iff in Hr. exact Hr.
Defined.
