(* ===== verification/Config.v ===== *)
(** * Configuration files (loadables/_git/config.c, lines 28-617)

    Reading git's configuration syntax, looking keys up, and setting, adding and
    removing a key in a file while the rest of it stays as it is.  What reading
    a path gives, when it can be opened, and the environment are arguments.  The
    theorems show that reading ends, that a value survives being quoted and
    read, and that editing a file does to what it says exactly what was asked,
    atomically on disk. *)

From S2P Require Import Prelude Sys CLib Lock.
#[local] Open Scope Z_scope.

(* ------------------------------------------------------------------ *)
(** ** Data *)

(** [c_value] is [None] for a key with no value. *)
Record bgit_config_entry := { c_key : list Z; c_value : option (list Z); c_level : Z }.

Definition bgit_config : Type := list bgit_config_entry.

Definition BGIT_CONFIG_INCLUDE_DEPTH : nat := 10.

Definition bgit_config_add (cfg : bgit_config) (key : list Z) (value : option (list Z)) (level : Z) : bgit_config :=
  cfg ++ [{| c_key := key; c_value := value; c_level := level |}].

(* ------------------------------------------------------------------ *)
(** ** Reading *)

Definition isblank (c : Z) : bool := (c =? 32) || (c =? 9).

Fixpoint skip_while (f : Z -> bool) (p : list Z) : list Z :=
  match p with
  | c :: p' => if f c then skip_while f p' else p
  | [] => []
  end.

Definition skip_ws (p : list Z) : list Z := skip_while (fun c => isblank c || (c =? 10) || (c =? 13)) p.

(** To the end of the line, its newline excluded. *)
Definition skip_line (p : list Z) : list Z := skip_while (fun c => negb (c =? 10)) p.

(** One more byte in an array of [room], if it fits. *)
Definition put_byte (room : Z) (s : list Z) (c : Z) : list Z := if len s + 1 <? room then s ++ [c] else s.

Fixpoint name_loop (p name : list Z) : list Z * list Z :=
  match p with
  | c :: p' => if (c =? 93) || (c =? 34) || isspace c then (name, p) else name_loop p' (put_byte 512 name (tolower c))
  | [] => (name, [])
  end.

Fixpoint subsection_loop (p subsection : list Z) : list Z * list Z :=
  match p with
  | [] => (subsection, [])
  | c :: p' =>
      if c =? 34 then (subsection, p)
      else if c =? 92 then
        match p' with
        | c' :: p'' => subsection_loop p'' (put_byte 512 subsection c')
        | [] => (put_byte 512 subsection c, [])
        end
      else subsection_loop p' (put_byte 512 subsection c)
  end.

(** After a bracket: the prefix of the section's keys, and what follows. *)
Definition section_header (p : list Z) : option (list Z * list Z) :=
  let '(name, p) := name_loop p [] in
  let p := skip_while isblank p in
  let '(subsection, p) :=
    (if next_is 34 p then
       let '(subsection, p) := subsection_loop (drop 1 p) [] in
       let p := if next_is 34 p then drop 1 p else p in
       (subsection, skip_while isblank p)
     else ([], p)) in
  if negb (next_is 93 p) then None
  else
    let section := match subsection with [] => name ++ str "." | _ => name ++ str "." ++ subsection ++ str "." end in
    Some (take 511 section, drop 1 p).

Fixpoint key_loop (p key : list Z) : list Z * list Z :=
  match p with
  | c :: p' => if isalnum c || (c =? 45) then key_loop p' (put_byte 512 key (tolower c)) else (key, p)
  | [] => (key, [])
  end.

Definition decoded (c : Z) : Z := if c =? 110 then 10 else if c =? 116 then 9 else if c =? 98 then 8 else c.

(** The value, after the equals sign and blanks; [trailing] blanks are held back
    until more follows. *)
Fixpoint value_loop (p : list Z) (quoted : bool) (trailing : nat) (value : list Z) : list Z * list Z :=
  match p with
  | [] => (value, [])
  | c :: p' =>
      if c =? 10 then (value, p')
      else if c =? 92 then
        match p' with
        | [] => (value, [])
        | c' :: p'' =>
            if c' =? 10 then value_loop p'' quoted trailing value
            else value_loop p'' quoted 0 (value ++ replicate trailing 32 ++ [decoded c'])
        end
      else if c =? 34 then value_loop p' (negb quoted) trailing value
      else if negb quoted && ((c =? 35) || (c =? 59)) then (value, skip_line p)
      else if negb quoted && isblank c then value_loop p' quoted (S trailing) value
      else value_loop p' quoted 0 (value ++ replicate trailing 32 ++ [c])
  end.

(** A key alone on its line; [None] where more stands there. *)
Fixpoint alone_loop (p : list Z) : option (list Z) :=
  match p with
  | [] => Some []
  | c :: p' =>
      if c =? 10 then Some p
      else if (c =? 35) || (c =? 59) then Some (skip_line p)
      else if isspace c then alone_loop p'
      else None
  end.

(** The status, the entries, and the paths of the files complained of. *)
Definition parsed : Type := Z * bgit_config * list path.

Section Config.
Context (getenv : list Z -> option (list Z)) (file : path -> option (list Z)).

(** The file an [include.path] in [p] names. *)
Definition included (p : path) (value : list Z) : path :=
  if next_is 47 value then value
  else
    let home := if next_is 126 value && next_is 47 (drop 1 value) then getenv (str "HOME") else None in
    match home with
    | Some home => home ++ str "/" ++ drop 2 value
    | None =>
        let dir := take 4095 p in
        let dir := match find_last 47 dir with Some slash => take slash dir | None => str "." end in
        dir ++ str "/" ++ value
    end.

(** [include] reads another file into the entries. *)
Fixpoint parse_loop (fuel : nat) (include : list Z -> bgit_config -> outcome (bgit_config * list path)) (at_ : path) (level : Z)
    (p section : list Z) (cfg : bgit_config) : outcome parsed :=
  match fuel with
  | O => Fault
  | S fuel' =>
      let bad := Ret (-1, cfg, [at_]) in
      match skip_ws p with
      | [] => Ret (0, cfg, [])
      | c :: p' =>
          if (c =? 35) || (c =? 59) then parse_loop fuel' include at_ level (skip_line p') section cfg
          else if c =? 91 then
            match section_header p' with
            | None => bad
            | Some (section, p) => parse_loop fuel' include at_ level p section cfg
            end
          else
            let '(key, p) := key_loop (c :: p') [] in
            match key with
            | [] => bad
            | _ =>
                let p := skip_while isblank p in
                let r := (if next_is 61 p then
                            let '(value, p) := value_loop (skip_while isblank (drop 1 p)) false 0 [] in Some (Some value, p)
                          else option_map (fun p => (None, p)) (alone_loop p)) in
                match r with
                | None => bad
                | Some (value, p) =>
                    let full := section ++ key in
                    let cfg := bgit_config_add cfg full value level in
                    let* r := (match value with
                               | Some (c :: v) => if beq full (str "include.path") then include (c :: v) cfg else Ret (cfg, [])
                               | _ => Ret (cfg, [])
                               end) in
                    let '(cfg, said) := r in
                    let* r := parse_loop fuel' include at_ level p section cfg in
                    let '(rc, cfg, more) := r in
                    Ret (rc, cfg, said ++ more)
                end
            end
      end
  end.

(** [n] is how much deeper files may be included. *)
Fixpoint bgit_config_parse (n : nat) (cfg : bgit_config) (at_ : path) (text : list Z) (level : Z) : outcome parsed :=
  parse_loop (S (length text)) (fun value cfg =>
    match n with
    | O => Ret (cfg, [])
    | S n' =>
        match file (included at_ value) with
        | None => Ret (cfg, [])
        | Some data =>
            let* r := bgit_config_parse n' cfg (included at_ value) (c_text data) level in
            let '(_, cfg, said) := r in Ret (cfg, said)
        end
    end) at_ level text [] cfg.

(** 1 when there is no such file. *)
Definition bgit_config_read_file (cfg : bgit_config) (p : path) (level : Z) : outcome parsed :=
  match file p with
  | None => Ret (1, cfg, [])
  | Some data => bgit_config_parse BGIT_CONFIG_INCLUDE_DEPTH cfg p (c_text data) level
  end.

Definition bgit_env (name : list Z) : option (list Z) :=
  match getenv name with
  | Some (c :: v) => Some (take 4095 (c :: v))
  | _ => None
  end.

Definition bgit_config_global_file : option path :=
  match getenv (str "GIT_CONFIG_GLOBAL") with
  | Some (c :: env) => if len (c :: env) <? 4096 then Some (c :: env) else None
  | _ =>
      match getenv (str "HOME") with
      | Some (c :: home) => let out := (c :: home) ++ str "/.gitconfig" in if len out <? 4096 then Some out else None
      | _ => None
      end
  end.

(** [common_dir] is the repository's, when there is one. *)
Definition bgit_config_repo_file (common_dir : option path) : option path :=
  match common_dir with
  | Some d => let out := d ++ str "/config" in if len out <? 4096 then Some out else None
  | None => None
  end.

(** A file that cannot be read, or not in full, leaves what was read of it. *)
Definition load_file (cfg : bgit_config) (p : option path) (level : Z) : outcome (bgit_config * list path) :=
  match p with
  | None => Ret (cfg, [])
  | Some p => let* r := bgit_config_read_file cfg p level in let '(_, cfg, said) := r in Ret (cfg, said)
  end.

(** Lower case up to the first quote. *)
Fixpoint fold_key (key : list Z) : list Z :=
  match key with
  | c :: key' => if c =? 34 then key else tolower c :: fold_key key'
  | [] => []
  end.

Definition override (o : list Z) : list Z * option (list Z) :=
  match find_byte 61 o with
  | Some n => (fold_key (take (Nat.min n 1099) o), Some (drop (S n) o))
  | None => (fold_key (take 1099 o), None)
  end.

Definition bgit_config_load (common_dir : option path) (overrides : list (list Z)) : outcome (bgit_config * list path) :=
  let* r := (match getenv (str "GIT_CONFIG_NOSYSTEM") with
             | None => load_file [] (Some (str "/etc/gitconfig")) 0
             | Some _ => Ret ([], [])
             end) in
  let '(cfg, said) := r in
  let* r := load_file cfg bgit_config_global_file 1 in
  let '(cfg, said1) := r in
  let* r := (match bgit_env (str "GIT_CONFIG_GLOBAL"), bgit_env (str "XDG_CONFIG_HOME"), bgit_env (str "HOME") with
             | Some _, _, _ => Ret (cfg, [])
             | None, Some xdg, _ => load_file cfg (Some (take 4095 (xdg ++ str "/git/config"))) 1
             | None, None, Some home => load_file cfg (Some (take 4095 (home ++ str "/.config/git/config"))) 1
             | None, None, None => Ret (cfg, [])
             end) in
  let '(cfg, said2) := r in
  let* r := load_file cfg (bgit_config_repo_file common_dir) 2 in
  let '(cfg, said3) := r in
  let cfg := fold_left (fun cfg o => let '(key, value) := override o in bgit_config_add cfg key value 3) overrides cfg in
  Ret (cfg, said ++ said1 ++ said2 ++ said3).
End Config.

Definition bgit_config_release (cfg : bgit_config) : bgit_config := [].

(* ------------------------------------------------------------------ *)
(** ** Looking keys up *)

(** A key as it is stored: only a subsection keeps its case. *)
Definition bgit_config_fold (key : list Z) : list Z :=
  let out := take 4095 key in
  match find_byte 46 out, find_last 46 out with
  | Some first, Some last =>
      map tolower (take first out) ++ take (last - first) (drop first out) ++ map tolower (drop last out)
  | _, _ => map tolower out
  end.

Fixpoint find_loop (cfg : bgit_config) (wanted : list Z) (found : option bgit_config_entry) : option bgit_config_entry :=
  match cfg with
  | [] => found
  | e :: cfg' => find_loop cfg' wanted (if beq (c_key e) wanted then Some e else found)
  end.

Definition bgit_config_find (cfg : bgit_config) (key : list Z) : option bgit_config_entry :=
  find_loop cfg (bgit_config_fold key) None.

Definition bgit_config_get (cfg : bgit_config) (key : list Z) : option (list Z) :=
  match bgit_config_find cfg key with
  | Some e => Some (match c_value e with Some v => v | None => [] end)
  | None => None
  end.

Fixpoint all_loop (cfg : bgit_config) (wanted : list Z) : list (list Z) :=
  match cfg with
  | [] => []
  | e :: cfg' =>
      if beq (c_key e) wanted then (match c_value e with Some v => v | None => [] end) :: all_loop cfg' wanted
      else all_loop cfg' wanted
  end.

Definition bgit_config_get_all (cfg : bgit_config) (key : list Z) : list (list Z) := all_loop cfg (bgit_config_fold key).

Definition bgit_config_bool (cfg : bgit_config) (key : list Z) (fallback : Z) : Z :=
  match bgit_config_find cfg key with
  | None => fallback
  | Some e =>
      match c_value e with
      | None => 1
      | Some [] => 0
      | Some v =>
          if same_case v (str "true") || same_case v (str "yes") || same_case v (str "on") || beq v (str "1") then 1
          else if same_case v (str "false") || same_case v (str "no") || same_case v (str "off") || beq v (str "0") then 0
          else fallback
      end
  end.

(* ------------------------------------------------------------------ *)
(** ** Editing *)

(** Section, subsection and name of a key. *)
Definition bgit_config_split (key : list Z) : option (list Z * list Z * list Z) :=
  match find_byte 46 key, find_last 46 key with
  | Some first, Some last =>
      let name := drop (S last) key in
      if Nat.eqb first 0 || (len name =? 0) then None
      else if Z.of_nat first >=? 256 then None
      else
        let section := map tolower (take first key) in
        if Nat.eqb first last then Some (section, [], take 255 name)
        else if Z.of_nat (last - first - 1) >=? 512 then None
        else Some (section, take (last - first - 1) (drop (S first) key), take 255 name)
  | _, _ => None
  end.

Definition special (c : Z) : bool := existsb (Z.eqb c) [35; 59; 34; 92; 10; 9].

Definition escaped (c : Z) : list Z :=
  if (c =? 34) || (c =? 92) then [92; c] else if c =? 10 then [92; 110] else if c =? 9 then [92; 116] else [c].

Fixpoint quote_loop (value out : list Z) : list Z :=
  match value with
  | c :: value' => if len out + 3 <? 8192 then quote_loop value' (out ++ escaped c) else out
  | [] => out
  end.

Definition needs_quotes (value : list Z) : bool :=
  match value with
  | [] => true
  | c :: _ => isspace c || isspace (List.last value 0) || existsb special value
  end.

Definition bgit_config_quote (value : list Z) : list Z :=
  if negb (needs_quotes value) then take (Z.to_nat 8191) value
  else
    let out := quote_loop value [34] in
    if len out + 1 <? 8192 then out ++ [34] else out.

(** Is the line the header of the section? *)
Definition bgit_config_is_section (line section subsection : list Z) : bool :=
  let p := skip_while isblank line in
  if negb (next_is 91 p) then false
  else
    let p := drop 1 p in
    if negb (starts_case section p) then false
    else
      let p := skip_while isblank (drop (length section) p) in
      match subsection with
      | [] => next_is 93 p
      | _ =>
          if negb (next_is 34 p) then false
          else
            let p := drop 1 p in
            if negb (starts subsection p) then false
            else
              let p := drop (length subsection) p in
              if negb (next_is 34 p) then false else next_is 93 (skip_while isblank (drop 1 p))
      end.

(** Is the line a setting of the key? *)
Definition bgit_config_is_key (line name : list Z) : bool :=
  let p := skip_while isblank line in
  if negb (starts_case name p) then false
  else
    match skip_while isblank (drop (length name) p) with
    | [] => true
    | c :: _ => (c =? 61) || (c =? 10)
    end.

(** The lines [fgets] takes from a file. *)
Fixpoint file_lines (fuel : nat) (data : list Z) : list (list Z) :=
  match fuel, data with
  | S fuel', _ :: _ => let '(line, data) := fgets (Z.to_nat 8192) data in c_text line :: file_lines fuel' data
  | _, _ => []
  end.

Section Edit.
Context (section subsection name : list Z) (setting : list Z) (multiple remove : bool).

(** Over the lines from the [i]-th on: what they become, whether one was changed,
    and where the section ends, if it was seen. *)
Fixpoint edit_loop (lines : list (list Z)) (i : nat) (in_section : bool) (done : bool) (at_ : option nat)
    : list (list Z) * bool * option nat :=
  match lines with
  | [] => ([], done, at_)
  | line :: lines' =>
      if next_is 91 (skip_while isblank line) then
        let in_section := bgit_config_is_section line section subsection in
        let '(out, done, at_) := edit_loop lines' (S i) in_section done (if in_section then Some (S i) else at_) in
        (line :: out, done, at_)
      else if negb in_section then
        let '(out, done, at_) := edit_loop lines' (S i) in_section done at_ in (line :: out, done, at_)
      else
        let at_ := Some (S i) in
        if negb (bgit_config_is_key line name) then
          let '(out, done, at_) := edit_loop lines' (S i) in_section done at_ in (line :: out, done, at_)
        else if remove then edit_loop lines' i in_section true at_
        else if multiple then
          let '(out, done, at_) := edit_loop lines' (S i) in_section done at_ in (line :: out, done, at_)
        else
          let '(out, done, at_) := edit_loop lines' (S i) in_section true at_ in (setting :: out, done, at_)
  end.

Definition section_line : list Z :=
  take 1023 (match subsection with
             | [] => str "[" ++ section ++ str "]" ++ [10]
             | _ => str "[" ++ section ++ str " " ++ [34] ++ subsection ++ [34] ++ str "]" ++ [10]
             end).

Definition edit_lines (lines : list (list Z)) : list (list Z) :=
  let '(lines, done, at_) := edit_loop lines 0 false false None in
  if negb remove && (negb done || multiple) then
    let '(lines, at_) := (match at_ with
                          | Some k => (lines, k)
                          | None => (lines ++ [section_line], S (length lines))
                          end) in
    take at_ lines ++ setting :: drop at_ lines
  else lines.
End Edit.

Definition setting_line (name quoted : list Z) : list Z := take (Z.to_nat 8191) ([9] ++ name ++ str " = " ++ quoted ++ [10]).

Fixpoint write_lines (id : N) (lines : list (list Z)) (s : locks) : io Z :=
  match lines with
  | [] => iret 0
  | line :: lines' =>
      let! rc := bgit_lock_write id line s in
      if rc <? 0 then iret (-1) else write_lines id lines' s
  end.

(** [data] is what the file held when it was read, if it could be; it is read
    before its lock is taken. *)
Definition bgit_config_edit (id : N) (data : option (list Z)) (p : path) (key : list Z) (value : option (list Z))
    (multiple remove : bool) (s : locks) : io (Z * locks) :=
  match bgit_config_split key with
  | None => let! _ := builtin_error "invalid key: %s" in iret (-1, s)
  | Some (section, subsection, name) =>
      let lines := match data with Some data => file_lines (length data) data | None => [] end in
      let quoted := match value with Some v => bgit_config_quote v | None => [] end in
      let lines := edit_lines section subsection name (setting_line name quoted) multiple remove lines in
      let! r := bgit_lock_acquire id p s in
      let '(rc, s) := r in
      if rc <? 0 then iret (-1, s)
      else
        let! rc := write_lines id lines s in
        if rc <? 0 then let! s := bgit_lock_rollback id s in iret (-1, s)
        else bgit_lock_commit id s
  end.

Definition bgit_config_set_file (id : N) (data : option (list Z)) (p : path) (key value : list Z) (multiple : bool) (s : locks)
    : io (Z * locks) := bgit_config_edit id data p key (Some value) multiple false s.

Definition bgit_config_unset_file (id : N) (data : option (list Z)) (p : path) (key : list Z) (s : locks) : io (Z * locks) :=
  bgit_config_edit id data p key None false true s.

(** The lines a file keeps when a section is taken out of it, and whether it had
    the section. *)
Fixpoint remove_section_loop (lines : list (list Z)) (section subsection : list Z) (inside : bool) : list (list Z) * bool :=
  match lines with
  | [] => ([], false)
  | line :: lines' =>
      let header := next_is 91 (skip_while isblank line) in
      let inside := if header then bgit_config_is_section line section subsection else inside in
      let '(kept, found) := remove_section_loop lines' section subsection inside in
      (if inside then kept else line :: kept, (header && inside) || found)
  end.

(** What [bgit_config_remove_section_file] writes over the file, and whether it
    does. *)
Definition remove_section (data name : list Z) : list Z * bool :=
  let name := take 255 name in
  let '(section, subsection) := (match find_byte 46 name with
                                 | Some dot => (take dot name, take 511 (drop (S dot) name))
                                 | None => (name, [])
                                 end) in
  let '(kept, found) := remove_section_loop (file_lines (length data) data) (map tolower section) subsection false in
  (concat kept, found).

(* ------------------------------------------------------------------ *)
(** ** Reading ends *)

Lemma skip_while_len f p : (length (skip_while f p) <= length p)%nat.
Proof. induction p as [|c p IH]; cbn; [done|]. destruct (f c); cbn; lia. Qed.

Lemma name_loop_len p : forall name, (length (name_loop p name).2 <= length p)%nat.
Proof. induction p as [|c p IH]; intros name; cbn; [done|]. destruct (_ || _); cbn; [done|]. specialize (IH (put_byte 512 name (tolower c))). lia. Qed.

Lemma key_loop_len p : forall key, (length (key_loop p key).2 <= length p)%nat.
Proof. induction p as [|c p IH]; intros key; cbn; [done|]. destruct (_ || _); cbn; [|done]. specialize (IH (put_byte 512 key (tolower c))). lia. Qed.

Lemma subsection_loop_len p sub : (length (subsection_loop p sub).2 <= length p)%nat.
Proof.
  assert (Hgo : forall n p, (length p <= n)%nat -> forall sub, (length (subsection_loop p sub).2 <= length p)%nat); [|by eapply Hgo].
  clear. induction n as [|n IH]; intros [|c p] Hn sub; cbn in Hn |- *; try lia. case_if; [cbn; lia|]. case_if.
  - destruct p as [|c' p]; cbn; [lia|]. cbn in Hn. specialize (IH p ltac:(lia) (put_byte 512 sub c')). lia.
  - specialize (IH p ltac:(lia) (put_byte 512 sub c)). lia.
Qed.

Lemma section_header_len p sec rest : section_header p = Some (sec, rest) -> (length rest <= length p)%nat.
Proof.
  unfold section_header. pose proof (name_loop_len p []) as Hn. destruct (name_loop p []) as [name p1]. cbn in Hn.
  pose proof (skip_while_len isblank p1) as H1. set (p2 := skip_while isblank p1) in *.
  destruct (next_is 34 p2) eqn:E34.
  - pose proof (subsection_loop_len (drop 1 p2) []) as Hs. destruct (subsection_loop _ _) as [sub p3]. cbn in Hs.
    rewrite length_drop in Hs. set (p4 := if next_is 34 p3 then drop 1 p3 else p3).
    assert (length p4 <= length p3)%nat by (unfold p4; case_if; rewrite ?length_drop; lia).
    pose proof (skip_while_len isblank p4). case_if; [done|]. intros [= _ <-]. rewrite length_drop. lia.
  - case_if; [done|]. intros [= _ <-]. rewrite length_drop. lia.
Qed.

Lemma value_loop_len p quoted trailing value : (length (value_loop p quoted trailing value).2 <= length p)%nat.
Proof.
  assert (Hgo : forall n p, (length p <= n)%nat -> forall q t v, (length (value_loop p q t v).2 <= length p)%nat); [|by eapply Hgo].
  clear. induction n as [|n IH]; intros [|c p] Hn q t v; cbn [length] in Hn; try (cbn; lia). cbn [value_loop length].
  assert (Hp : (length p <= n)%nat) by lia.
  case_if; [cbn; lia|]. case_if.
  - destruct p as [|c' p]; [cbn; lia|]. cbn [length] in *.
    case_if; [pose proof (IH p ltac:(lia) q t v)|pose proof (IH p ltac:(lia) q 0%nat (v ++ replicate t 32 ++ [decoded c']))]; lia.
  - case_if; [pose proof (IH p Hp (negb q) t v); lia|]. case_if; [apply (skip_while_len _ (c :: p))|].
    case_if; [pose proof (IH p Hp q (S t) v)|pose proof (IH p Hp q 0%nat (v ++ replicate t 32 ++ [c]))]; lia.
Qed.

Lemma alone_loop_len p rest : alone_loop p = Some rest -> (length rest <= length p)%nat.
Proof.
  induction p as [|c p IH]; cbn [alone_loop]; [by intros [= <-]|]. repeat case_if; try done.
  - by intros [= <-].
  - intros [= <-]. apply skip_while_len.
  - intros Hr%IH. cbn. lia.
Qed.

(** It returns, and what it returns is so. *)
Definition ends {A} (P : A -> Prop) (x : outcome A) : Prop := match x with Ret a => P a | _ => False end.

Lemma ends_bind {A B} (P : A -> Prop) (Q : B -> Prop) x (k : A -> outcome B) :
  ends P x -> (forall a, P a -> ends Q (k a)) -> ends Q (obind x k).
Proof. destruct x; simpl; [auto|done..]. Qed.

(** What a reading may end in: the entries only grow. *)
Definition reads (cfg : bgit_config) (r : parsed) : Prop :=
  (r.1.1 = 0 \/ r.1.1 = -1) /\ exists more, r.1.2 = cfg ++ more.

Lemma reads_bind cfg cfg' (x : outcome parsed) said : (exists more, cfg' = cfg ++ more) -> ends (reads cfg') x ->
  ends (reads cfg) (let* r := x in let '(rc, cfg, more) := r in Ret (rc, cfg, said ++ more)).
Proof.
  intros [m1 ->] Hx. eapply ends_bind; [exact Hx|]. intros [[rc cfg2] more] [Hrc [m2 E]]. cbn in *. subst cfg2.
  split; [done|]. exists (m1 ++ m2). cbn. by rewrite app_assoc.
Qed.

Section Ends.
Context (include : list Z -> bgit_config -> outcome (bgit_config * list path)) (at_ : path) (level : Z).
Context (Hinclude : forall v cfg, ends (fun r => exists more, r.1 = cfg ++ more) (include v cfg)).

Lemma parse_loop_ends fuel : forall p section cfg, (length p < fuel)%nat ->
  ends (reads cfg) (parse_loop fuel include at_ level p section cfg).
Proof using Hinclude.
  induction fuel as [|fuel IH]; intros p section cfg Hf; [lia|]. cbn [parse_loop]. cbv zeta.
  assert (Hbad : reads cfg (-1, cfg, [at_])) by (split; [by right|exists []; by rewrite app_nil_r]).
  pose proof (skip_while_len (fun c => isblank c || (c =? 10) || (c =? 13)) p) as Hws. fold (skip_ws p) in Hws.
  destruct (skip_ws p) as [|c p'] eqn:Ews.
  { split; [by left|]. exists []. by rewrite app_nil_r. }
  cbn [length] in Hws. case_if.
  { apply IH. pose proof (skip_while_len (fun c => negb (c =? 10)) p'). unfold skip_line. lia. }
  case_if.
  { destruct (section_header p') as [[sec p1]|] eqn:Es; [|exact Hbad]. apply section_header_len in Es. apply IH. lia. }
  pose proof (key_loop_len p' (put_byte 512 [] (tolower c))) as Hk.
  assert (Hkey : key_loop (c :: p') [] = if isalnum c || (c =? 45) then key_loop p' (put_byte 512 [] (tolower c)) else ([], c :: p')) by done.
  rewrite Hkey. clear Hkey. destruct (isalnum c || (c =? 45)); [|exact Hbad].
  destruct (key_loop p' (put_byte 512 [] (tolower c))) as [key p1]. cbn in Hk. destruct key as [|k key]; [exact Hbad|].
  pose proof (skip_while_len isblank p1) as Hb1. set (p2 := skip_while isblank p1) in *.
  assert (Hgo : forall value p3, (length p3 <= length p')%nat -> ends (reads cfg)
    (let* r := match value with
       | Some (c :: v) => if beq (section ++ k :: key) (str "include.path") then include (c :: v) (bgit_config_add cfg (section ++ k :: key) value level)
                          else Ret (bgit_config_add cfg (section ++ k :: key) value level, [])
       | _ => Ret (bgit_config_add cfg (section ++ k :: key) value level, []) end in
     let '(cfg, said) := r in
     let* r := parse_loop fuel include at_ level p3 section cfg in let '(rc, cfg, more) := r in Ret (rc, cfg, said ++ more))).
  { intros value p3 Hp3. apply (ends_bind (fun r => exists more, r.1 = bgit_config_add cfg (section ++ k :: key) value level ++ more)).
    - assert (Hsame : forall said : list path, exists more,
        (bgit_config_add cfg (section ++ k :: key) value level, said).1 = bgit_config_add cfg (section ++ k :: key) value level ++ more)
        by (intros said; exists []; by rewrite app_nil_r).
      destruct value as [[|c0 v]|]; [apply Hsame| |apply Hsame]. case_if; [apply Hinclude|apply Hsame].
    - intros [cfg1 said] [more E]. cbn in E. apply (reads_bind cfg cfg1); [|by apply IH; lia].
      unfold bgit_config_add in E. exists ([{| c_key := section ++ k :: key; c_value := value; c_level := level |}] ++ more). by rewrite E, app_assoc. }
  destruct (next_is 61 p2) eqn:E61.
  - pose proof (skip_while_len isblank (drop 1 p2)) as Hb2. rewrite length_drop in Hb2.
    pose proof (value_loop_len (skip_while isblank (drop 1 p2)) false 0 []) as Hv.
    destruct (value_loop _ _ _ _) as [value p3]. cbn in Hv. exact (Hgo (Some value) p3 ltac:(lia)).
  - destruct (alone_loop p2) as [p3|] eqn:Ea; [|exact Hbad]. apply alone_loop_len in Ea. exact (Hgo None p3 ltac:(lia)).
Qed.
End Ends.

Lemma config_parse_ends getenv file n : forall cfg at_ text level,
  ends (reads cfg) (bgit_config_parse getenv file n cfg at_ text level).
Proof.
  induction n as [|n IH]; intros cfg at_ text level; cbn [bgit_config_parse]; (apply parse_loop_ends; [|lia]);
    intros v cfg1; [exists []; by rewrite app_nil_r|].
  destruct (file _) as [data|]; [|exists []; by rewrite app_nil_r].
  eapply ends_bind; [apply IH|]. intros [[rc cfg2] said] [_ Hm]. exact Hm.
Qed.

(* ------------------------------------------------------------------ *)
(** ** A value survives being written and read *)

Lemma escaped_read c p trailing value : value_loop (escaped c ++ p) true trailing value = value_loop p true 0 (value ++ replicate trailing 32 ++ [c]).
Proof.
  unfold escaped. destruct (Z.eqb_spec c 34) as [->|H34]; [done|]. destruct (Z.eqb_spec c 92) as [->|H92]; [done|]. cbn [orb].
  destruct (Z.eqb_spec c 10) as [->|H10]; [done|]. destruct (Z.eqb_spec c 9) as [->|H9]; [done|]. cbn [app value_loop negb andb].
  by rewrite !(proj2 (Z.eqb_neq c _)) by done.
Qed.

Lemma escaped_len c : len (escaped c) <= 2.
Proof. unfold escaped. repeat case_if; unfold len; cbn; lia. Qed.

Lemma quoted_read v p : forall value, value_loop (flat_map escaped v ++ p) true 0 value = value_loop p true 0 (value ++ v).
Proof.
  induction v as [|c v IH]; intros value; cbn [flat_map app]; [by rewrite app_nil_r|].
  rewrite <- app_assoc, escaped_read, IH. cbn [replicate app]. by rewrite <- app_assoc.
Qed.

Lemma quote_loop_all v : forall out, len out + 2 * len v <= 8188 -> quote_loop v out = out ++ flat_map escaped v.
Proof.
  induction v as [|c v IH]; intros out Hl; cbn [quote_loop flat_map]; [by rewrite app_nil_r|]. rewrite len_cons in Hl. pose proof (len_nonneg v).
  if_true. pose proof (escaped_len c).
  rewrite IH by (rewrite len_app; lia). by rewrite app_assoc.
Qed.

(** Bare: no special byte, and no white space at its ends. *)
Lemma bare_read v rest : Forall (fun c => special c = false) v -> isblank (List.last v 0) = false -> forall trailing value,
  v <> [] -> value_loop (v ++ 10 :: rest) false trailing value = (value ++ replicate trailing 32 ++ v, rest).
Proof.
  intros Hv Hlast. induction Hv as [|c v Hc Hv IH]; intros trailing value Hne; [done|]. cbn [app value_loop].
  assert (Hn : c <> 35 /\ c <> 59 /\ c <> 34 /\ c <> 92 /\ c <> 10 /\ c <> 9) by (unfold special in Hc; cbn [existsb] in Hc; simpl_bool; lia).
  rewrite !(proj2 (Z.eqb_neq c _)) by apply Hn. cbn [negb andb orb].
  destruct (isblank c) eqn:Eb.
  - assert (c = 32) as -> by (unfold isblank in Eb; simpl_bool; lia).
    destruct v as [|c' v]; [by cbn in Hlast|]. rewrite IH by done. f_equal.
    rewrite replicate_S_end. by rewrite <- !app_assoc.
  - destruct v as [|c' v]; [cbn; by rewrite <- ?app_assoc|]. rewrite IH by done. cbn [replicate app]. f_equal. by rewrite <- !app_assoc.
Qed.

Lemma space_blank c : isspace c = false -> isblank c = false.
Proof.
  unfold isspace, isblank. intros [E32 Hr]%orb_false_iff. rewrite E32. cbn [orb]. apply Z.eqb_neq. by intros ->.
Qed.

Lemma quote_read v rest : len v <= 4000 ->
  value_loop (skip_while isblank (bgit_config_quote v ++ 10 :: rest)) false 0 [] = (v, rest).
Proof.
  intros Hl. unfold bgit_config_quote. destruct (needs_quotes v) eqn:Eq; cbn [negb].
  - rewrite quote_loop_all by (change (len [34]) with 1; lia).
    assert (Hlen : len ([34] ++ flat_map escaped v) <= 8001).
    { rewrite len_app. change (len [34]) with 1. enough (len (flat_map escaped v) <= 2 * len v) by lia. clear.
      induction v as [|c v IH]; [done|]. cbn [flat_map]. rewrite len_app, len_cons.
      pose proof (escaped_len c). lia. }
    if_true. rewrite <- !app_assoc. change (value_loop (flat_map escaped v ++ [34] ++ 10 :: rest) true 0 [] = (v, rest)).
    by rewrite quoted_read.
  - destruct v as [|c v]; [done|]. unfold needs_quotes in Eq. rewrite !orb_false_iff in Eq. destruct Eq as [[Hc Hlast] Hs].
    rewrite take_ge by (change (len (c :: v)) with (Z.of_nat (length (c :: v))) in Hl; lia).
    cbn [app skip_while]. rewrite (space_blank _ Hc). apply (bare_read (c :: v)); [|by apply space_blank|done].
    rewrite Forall_forall. intros x Hx. apply list_elem_of_In in Hx. apply not_true_iff_false. intros Hsx.
    assert (existsb special (c :: v) = true) by (apply existsb_exists; eauto). congruence.
Qed.

(* ------------------------------------------------------------------ *)
(** ** Files of whole lines *)

(** The lines a configuration file is made of, as far as one line says one
    thing: no value goes on in the next line, nothing follows a header. *)
Inductive cline :=
| Blank (s : list Z)
| Comment (pre : list Z) (c : Z) (s : list Z)
| Header (pre name subsection : list Z)
| Setting (pre key mid text value : list Z)
| Alone (pre key post : list Z).

(** [text] is what stands after the equals sign, for [value]. *)
Definition body (l : cline) : list Z :=
  match l with
  | Blank s => s
  | Comment pre c s => pre ++ c :: s
  | Header pre name [] => pre ++ str "[" ++ name ++ str "]"
  | Header pre name subsection => pre ++ str "[" ++ name ++ str " " ++ [34] ++ subsection ++ [34] ++ str "]"
  | Setting pre key mid text _ => pre ++ key ++ mid ++ 61 :: text
  | Alone pre key post => pre ++ key ++ post
  end.

Definition render (l : cline) : list Z := body l ++ [10].
Definition doc_text (doc : list cline) : list Z := concat (map render doc).

Definition blanks (s : list Z) : Prop := Forall (fun c => isblank c = true) s.

(** The bytes of a section's name, a subsection and a key. *)
Definition name_byte (c : Z) : Prop := c <> 93 /\ c <> 34 /\ c <> 46 /\ isspace c = false.
Definition sub_byte (c : Z) : Prop := c <> 34 /\ c <> 92.
Definition key_byte (c : Z) : Prop := (isalnum c || (c =? 45)) = true.

(** The prefix of a section's keys. *)
Definition prefix (name subsection : list Z) : list Z :=
  map tolower name ++ str "." ++ match subsection with [] => [] | _ => subsection ++ str "." end.

Definition wf_header (name subsection : list Z) : Prop :=
  Forall name_byte name /\ Forall sub_byte subsection /\ len name + len subsection + 2 <= 511.

Definition wf_key (key : list Z) : Prop := key <> [] /\ Forall key_byte key /\ len key <= 511.

(** A comment after the value leaves the newline to be read. *)
Definition reads_as (text value : list Z) : Prop :=
  forall rest, let r := value_loop (skip_while isblank (text ++ 10 :: rest)) false 0 [] in r = (value, rest) \/ r = (value, 10 :: rest).

Definition wf_line (l : cline) : Prop :=
  Forall (fun c => c <> 10 /\ c <> 0) (body l) /\ len (body l) <= 8190 /\
  match l with
  | Blank s => blanks s
  | Comment pre c _ => blanks pre /\ (c = 35 \/ c = 59)
  | Header pre name subsection => blanks pre /\ wf_header name subsection
  | Setting pre key mid text value => blanks pre /\ wf_key key /\ blanks mid /\ reads_as text value
  | Alone pre key post => blanks pre /\ wf_key key /\ blanks post
  end.

(** What the lines say, below the section with this prefix. *)
Fixpoint meaning (section : list Z) (doc : list cline) : list (list Z * option (list Z)) :=
  match doc with
  | [] => []
  | Header _ name subsection :: doc' => meaning (prefix name subsection) doc'
  | Setting _ key _ _ value :: doc' => (section ++ map tolower key, Some value) :: meaning section doc'
  | Alone _ key _ :: doc' => (section ++ map tolower key, None) :: meaning section doc'
  | _ :: doc' => meaning section doc'
  end.

Definition entry (level : Z) (kv : list Z * option (list Z)) : bgit_config_entry :=
  {| c_key := fst kv; c_value := snd kv; c_level := level |}.

Lemma skip_while_app f a b : Forall (fun c => f c = true) a -> skip_while f (a ++ b) = skip_while f b.
Proof. induction 1 as [|c a Hc _ IH]; cbn; [done|]. by rewrite Hc. Qed.

Lemma skip_while_stop f c p : f c = false -> skip_while f (c :: p) = c :: p.
Proof. intros E. cbn. by rewrite E. Qed.

Lemma blank_ws s : blanks s -> Forall (fun c => isblank c || (c =? 10) || (c =? 13) = true) s.
Proof. intros Hs. eapply Forall_impl; [exact Hs|]. cbn. intros c ->. done. Qed.

Lemma skip_line_all s rest : Forall (fun c => c <> 10) s -> skip_line (s ++ 10 :: rest) = 10 :: rest.
Proof. intros Hs. unfold skip_line. rewrite skip_while_app; [done|]. eapply Forall_impl; [exact Hs|]. cbn. intros c Hc. by rewrite (proj2 (Z.eqb_neq c 10) Hc). Qed.

Lemma name_loop_all s : Forall name_byte s -> forall t acc, (forall c t', t = c :: t' -> (c =? 93) || (c =? 34) || isspace c = true) ->
  len acc + len s <= 511 -> name_loop (s ++ t) acc = (acc ++ map tolower s, t).
Proof.
  induction 1 as [|c s (H93 & H34 & _ & Hsp) _ IH]; intros t acc Ht Hl; cbn [app name_loop map].
  - rewrite app_nil_r. destruct t as [|c t]; [done|]. cbn [name_loop key_loop]. by rewrite (Ht c t eq_refl).
  - rewrite len_cons in Hl. pose proof (len_nonneg s). rewrite (proj2 (Z.eqb_neq c 93) H93), (proj2 (Z.eqb_neq c 34) H34), Hsp. cbn [orb].
    unfold put_byte. if_true. rewrite IH; [by rewrite <- app_assoc|done|]. rewrite len_app. change (len [tolower c]) with 1. lia.
Qed.

Lemma key_loop_all s : Forall key_byte s -> forall t acc, (forall c t', t = c :: t' -> isalnum c || (c =? 45) = false) ->
  len acc + len s <= 511 -> key_loop (s ++ t) acc = (acc ++ map tolower s, t).
Proof.
  induction 1 as [|c s Hc _ IH]; intros t acc Ht Hl; cbn [app key_loop map].
  - rewrite app_nil_r. destruct t as [|c t]; [done|]. cbn [name_loop key_loop]. by rewrite (Ht c t eq_refl).
  - rewrite len_cons in Hl. pose proof (len_nonneg s). unfold key_byte in Hc. rewrite Hc.
    unfold put_byte. if_true. rewrite IH; [by rewrite <- app_assoc|done|]. rewrite len_app. change (len [tolower c]) with 1. lia.
Qed.

Lemma subsection_loop_all s : Forall sub_byte s -> forall t acc, len acc + len s <= 511 ->
  subsection_loop (s ++ 34 :: t) acc = (acc ++ s, 34 :: t).
Proof.
  induction 1 as [|c s (H34 & H92) _ IH]; intros t acc Hl; cbn [app subsection_loop]; [by rewrite app_nil_r|].
  rewrite len_cons in Hl. pose proof (len_nonneg s). rewrite (proj2 (Z.eqb_neq c 34) H34), (proj2 (Z.eqb_neq c 92) H92).
  unfold put_byte. if_true. rewrite IH; [by rewrite <- app_assoc|]. rewrite len_app. change (len [c]) with 1. lia.
Qed.

Lemma prefix_len name subsection : len (prefix name subsection) <= len name + len subsection + 2.
Proof.
  unfold prefix. rewrite !len_app. unfold len at 1. rewrite length_map. fold (len name). change (len (str ".")) with 1.
  destruct subsection; [change (len (@nil Z)) with 0; lia|]. rewrite len_app. change (len (str ".")) with 1. lia.
Qed.

Lemma section_header_all name subsection rest : wf_header name subsection ->
  section_header (drop 1 (body (Header [] name subsection)) ++ rest) = Some (prefix name subsection, rest).
Proof.
  intros (Hn & Hs & Hl). pose proof (prefix_len name subsection) as Hp. pose proof (len_nonneg name). pose proof (len_nonneg subsection).
  assert (Htake : take 511 (prefix name subsection) = prefix name subsection) by (apply take_ge; unfold len in *; lia).
  rewrite <- Htake. unfold section_header. destruct subsection as [|c subsection].
  - change (drop 1 _ ++ rest) with ((name ++ str "]") ++ rest). rewrite <- app_assoc.
    rewrite (name_loop_all name Hn (str "]" ++ rest) []); [done|by intros c t' [= <- <-]|change (len (@nil Z)) with 0; lia].
  - change (drop 1 _ ++ rest) with ((name ++ str " " ++ [34] ++ (c :: subsection) ++ [34] ++ str "]") ++ rest). rewrite <- !app_assoc.
    rewrite (name_loop_all name Hn); [|by intros c' t' [= <- <-]|change (len (@nil Z)) with 0; lia]. cbv beta iota zeta.
    change (skip_while isblank (str " " ++ [34] ++ (c :: subsection) ++ [34] ++ str "]" ++ rest))
      with (34 :: (c :: subsection) ++ 34 :: 93 :: rest).
    change (next_is 34 (34 :: ?x)) with true. cbv iota. change (drop 1 (34 :: ?x)) with x.
    by rewrite (subsection_loop_all (c :: subsection) Hs) by (change (len (@nil Z)) with 0; lia).
Qed.

Lemma key_byte_plain c : key_byte c -> isblank c = false /\ c <> 10 /\ c <> 13 /\ c <> 35 /\ c <> 59 /\ c <> 91 /\ c <> 61.
Proof. unfold key_byte, isalnum, isblank. intros Hc. simpl_bool. lia. Qed.

(** What may follow a key: it is not taken for more of the key. *)
Lemma after_key mid d t : blanks mid -> (isalnum d || (d =? 45)) = false ->
  forall c t', mid ++ d :: t = c :: t' -> isalnum c || (c =? 45) = false.
Proof.
  intros Hm Hd c t' E. destruct mid as [|b mid]; cbn in E; injection E as <- _; [done|].
  inversion Hm as [|? ? Hb _]; subst. unfold isblank in Hb. unfold isalnum. lia.
Qed.

Section Reading.
Context (include : list Z -> bgit_config -> outcome (bgit_config * list path)) (at_ : path) (level : Z).

#[local] Abbreviation parse fuel := (parse_loop fuel include at_ level).

Lemma parse_ws fuel w p section cfg : Forall (fun c => isblank c || (c =? 10) || (c =? 13) = true) w ->
  parse fuel (w ++ p) section cfg = parse fuel p section cfg.
Proof using. intros Hw. destruct fuel as [|fuel]; [done|]. cbn [parse_loop]. unfold skip_ws. by rewrite (skip_while_app _ w p Hw). Qed.

Lemma parse_newline fuel p section cfg : parse fuel (10 :: p) section cfg = parse fuel p section cfg.
Proof using. apply (parse_ws fuel [10]). by repeat constructor. Qed.

(** A key and what follows it on its line. *)
Lemma parse_key fuel pre key p value rest section cfg : blanks pre -> wf_key key ->
  (forall c t', p = c :: t' -> isalnum c || (c =? 45) = false) ->
  (if next_is 61 (skip_while isblank p) then
     let '(value, p) := value_loop (skip_while isblank (drop 1 (skip_while isblank p))) false 0 [] in Some (Some value, p)
   else option_map (fun p => (None, p)) (alone_loop (skip_while isblank p))) = Some (value, rest) ->
  section ++ map tolower key <> str "include.path" ->
  parse (S fuel) (pre ++ key ++ p) section cfg =
  let* r := parse fuel rest section (cfg ++ [entry level (section ++ map tolower key, value)]) in let '(rc, cfg, more) := r in Ret (rc, cfg, more).
Proof using.
  intros Hpre (Hne & Hk & Hl) Hp Hv Hinc. rewrite parse_ws by (by apply blank_ws). cbn [parse_loop]. cbv zeta.
  destruct key as [|c key]; [done|]. pose proof Hk as Hk'. apply Forall_cons in Hk' as [Hc _].
  pose proof (key_byte_plain c Hc) as (Hb & H10 & H13 & H35 & H59 & H91 & _).
  unfold skip_ws. cbn [app]. rewrite skip_while_stop.
  2:{ rewrite Hb, (proj2 (Z.eqb_neq c 10) H10), (proj2 (Z.eqb_neq c 13) H13). done. }
  rewrite (proj2 (Z.eqb_neq c 35) H35), (proj2 (Z.eqb_neq c 59) H59), (proj2 (Z.eqb_neq c 91) H91). cbn [orb].
  change (c :: key ++ p) with ((c :: key) ++ p). rewrite (key_loop_all (c :: key) Hk p []) by (done || (change (len (@nil Z)) with 0; lia)).
  cbv beta iota. change ([] ++ map tolower (c :: key)) with (map tolower (c :: key)). destruct (map tolower (c :: key)) as [|k ks] eqn:Ek; [done|].
  rewrite Hv. unfold bgit_config_add. change {| c_key := section ++ k :: ks; c_value := value; c_level := level |} with (entry level (section ++ k :: ks, value)).
  assert (Eb : beq (section ++ k :: ks) (str "include.path") = false) by (unfold beq; by apply bool_decide_eq_false).
  destruct value as [[|v0 v]|]; rewrite ?Eb; done.
Qed.

Lemma parse_doc doc : Forall wf_line doc -> forall fuel section cfg, (length doc < fuel)%nat ->
  Forall (fun kv => fst kv <> str "include.path") (meaning section doc) ->
  parse fuel (doc_text doc) section cfg = Ret (0, cfg ++ map (entry level) (meaning section doc), []).
Proof using.
  induction 1 as [|l doc (Hb & _ & Hl) _ IH]; intros fuel section cfg Hf Hinc.
  { destruct fuel; [lia|]. cbn. by rewrite app_nil_r. }
  destruct fuel as [|fuel]; [lia|]. cbn [length] in Hf. unfold doc_text. cbn [map concat]. fold (doc_text doc).
  unfold render. rewrite <- app_assoc. cbn [app]. destruct l as [s|pre c s|pre name sub|pre key mid text value|pre key post]; cbn [meaning] in *.
  - cbn [body]. rewrite parse_ws by (by apply blank_ws). rewrite parse_newline. apply IH; [lia|done].
  - destruct Hl as [Hpre Hc]. cbn [body]. rewrite <- app_assoc, parse_ws by (by apply blank_ws). cbn [app parse_loop]. cbv zeta.
    unfold skip_ws. rewrite skip_while_stop by (by destruct Hc as [-> | ->]).
    replace ((c =? 35) || (c =? 59)) with true by (by destruct Hc as [-> | ->]).
    rewrite skip_line_all; [rewrite parse_newline; apply IH; [lia|done]|].
    apply Forall_app in Hb as [_ Hb]. apply Forall_cons in Hb as [_ Hb]. eapply Forall_impl; [exact Hb|]. cbn. tauto.
  - destruct Hl as [Hpre Hh].
    assert (Ebody : body (Header pre name sub) = pre ++ 91 :: drop 1 (body (Header [] name sub))) by (by destruct sub).
    rewrite Ebody, <- app_assoc, parse_ws by (by apply blank_ws). cbn [app parse_loop]. cbv zeta. unfold skip_ws.
    rewrite skip_while_stop by done. change ((91 =? 35) || (91 =? 59)) with false. change (91 =? 91) with true. cbv iota.
    rewrite section_header_all by done. rewrite parse_newline. apply IH; [lia|done].
  - destruct Hl as (Hpre & Hk & Hmid & Ht). apply Forall_cons in Hinc as [Hi Hinc]. cbn [body]. rewrite <- !app_assoc.
    assert (Hrest : exists rest, value_loop (skip_while isblank (text ++ 10 :: doc_text doc)) false 0 [] = (value, rest) /\
      forall section cfg, parse fuel rest section cfg = parse fuel (doc_text doc) section cfg).
    { destruct (Ht (doc_text doc)) as [E|E]; rewrite E; (eexists; split; [done|]); [done|]. intros sec' cfg'. apply parse_newline. }
    destruct Hrest as (rest & Ev & Hrest). erewrite (parse_key fuel pre key _ (Some value) rest); [|done..| | |done].
    + rewrite Hrest, IH by (done || lia). cbn [obind map]. by rewrite <- app_assoc.
    + by apply after_key.
    + rewrite skip_while_app by done. cbn [app]. rewrite skip_while_stop by done. cbn [next_is]. rewrite Z.eqb_refl.
      change (drop 1 (61 :: ?x)) with x. by rewrite Ev.
  - destruct Hl as (Hpre & Hk & Hpost). apply Forall_cons in Hinc as [Hi Hinc]. cbn [body]. rewrite <- !app_assoc.
    erewrite (parse_key fuel pre key _ None (10 :: doc_text doc)); [|done..| | |done].
    + rewrite parse_newline, IH by (done || lia). cbn [obind map]. by rewrite <- app_assoc.
    + by apply after_key.
    + by rewrite skip_while_app by done.
Qed.
End Reading.

(** Reading a file of such lines gives what they say. *)
Lemma doc_no_zero doc : Forall wf_line doc -> Forall (fun c => c <> 0) (doc_text doc).
Proof.
  induction 1 as [|l doc (Hb & _) _ IH]; [constructor|]. unfold doc_text. cbn. apply Forall_app. split; [|exact IH].
  unfold render. apply Forall_app. split; [|by repeat constructor]. eapply Forall_impl; [exact Hb|]. cbn. tauto.
Qed.

Lemma doc_text_long doc : (length doc <= length (doc_text doc))%nat.
Proof.
  induction doc as [|l doc IH]; [done|]. unfold doc_text. cbn [map concat]. fold (doc_text doc). unfold render. rewrite !length_app. cbn. lia.
Qed.

Lemma read_doc getenv file p doc level : file p = Some (doc_text doc) -> Forall wf_line doc ->
  Forall (fun kv => fst kv <> str "include.path") (meaning [] doc) ->
  bgit_config_read_file getenv file [] p level = Ret (0, map (entry level) (meaning [] doc), []).
Proof.
  intros Hf Hwf Hinc. unfold bgit_config_read_file. rewrite Hf, c_text_plain by (by apply doc_no_zero).
  cbn [BGIT_CONFIG_INCLUDE_DEPTH bgit_config_parse]. rewrite parse_doc; [done|done| |done]. pose proof (doc_text_long doc). lia.
Qed.

(* ------------------------------------------------------------------ *)
(** ** Finding sections and keys in lines *)

(** A word that is a prefix of a longer text of such words and what ends them
    is no longer than the first of them. *)
Lemma word_prefix (g : Z -> Z) (P : Z -> Prop) k t : forall name, Forall P name ->
  (forall c t', t = c :: t' -> forall d, P d -> g c <> g d) -> map g (take (length name) (k ++ t)) = map g name -> (length name <= length k)%nat.
Proof.
  induction k as [|c k IH]; intros [|d name] Hn Ht E; cbn [length app take map] in *; try lia.
  - apply Forall_cons in Hn as [Hd _]. destruct t as [|c t]; [done|]. injection E as E _. by apply (Ht c t eq_refl) in E.
  - apply Forall_cons in Hn as [_ Hn]. injection E as _ E. specialize (IH name Hn Ht E). lia.
Qed.

(** The word at the front is exactly this one, or what follows is more of it. *)
Lemma word_cases (g : Z -> Z) (P : Z -> Prop) k t name : Forall P k -> Forall P name ->
  (forall c t', t = c :: t' -> forall d, P d -> g c <> g d) ->
  if beq (map g (take (length name) (k ++ t))) (map g name) then
    (map g k = map g name /\ drop (length name) (k ++ t) = t) \/
    (map g k <> map g name /\ exists d r, P d /\ drop (length name) (k ++ t) = d :: r)
  else map g k <> map g name.
Proof.
  intros Hk Hn Ht. unfold beq. case_bool_decide as E.
  - pose proof (word_prefix g P k t name Hn Ht E) as Hl. rewrite drop_app_le by done.
    destruct (drop (length name) k) as [|d r] eqn:Ed.
    + left. assert (length k = length name) as El by (apply (f_equal length) in Ed; rewrite length_drop in Ed; cbn in Ed; lia).
      split; [|done]. rewrite <- El, take_app_length in E. done.
    + right. split.
      * intros Em. apply (f_equal length) in Em. rewrite !length_map in Em. apply (f_equal length) in Ed. rewrite length_drop in Ed. cbn in Ed. lia.
      * exists d, (r ++ t). split; [|done]. apply (Forall_drop P (length name)) in Hk. rewrite Ed in Hk. by inversion Hk.
  - intros Em. apply E. assert (length k = length name) as <- by (apply (f_equal length) in Em; by rewrite !length_map in Em).
    by rewrite take_app_length.
Qed.

Lemma tolower_same c d : tolower c = tolower d -> ~ (65 <= c <= 90) -> ~ (97 <= c <= 122) -> c = d.
Proof. unfold tolower. intros E H1 H2. repeat case_if_in E; simpl_bool; lia. Qed.

Lemma beq_neq (a b : list Z) : a <> b -> beq a b = false.
Proof. intros Hne. unfold beq. by apply bool_decide_eq_false. Qed.

Lemma beq_eq (a b : list Z) : a = b -> beq a b = true.
Proof. intros ->. unfold beq. by apply bool_decide_true. Qed.

Lemma is_key_line pre key t name : blanks pre -> wf_key key -> wf_key name ->
  (forall c t', t = c :: t' -> isalnum c || (c =? 45) = false) ->
  match skip_while isblank t with [] => true | c :: _ => (c =? 61) || (c =? 10) end = true ->
  bgit_config_is_key (pre ++ key ++ t) name = same_case key name.
Proof.
  intros Hpre (Hne & Hk & _) (_ & Hn & _) Ht Hend. unfold bgit_config_is_key. rewrite skip_while_app by done.
  assert (Hstop : skip_while isblank (key ++ t) = key ++ t).
  { destruct key as [|c key]; [done|]. apply Forall_cons in Hk as [Hc _]. apply (skip_while_stop isblank c (key ++ t)). exact (proj1 (key_byte_plain c Hc)). }
  rewrite Hstop.
  pose proof (word_cases tolower key_byte key t name Hk Hn) as Hw. unfold starts_case, same_case in *.
  assert (Hdiff : forall c t', t = c :: t' -> forall d, key_byte d -> tolower c <> tolower d).
  { intros c t' E d Hd Ec. specialize (Ht c t' E). unfold key_byte in Hd. unfold isalnum in Ht.
    assert (c = d) as -> by (apply tolower_same; [done|intros ?; simpl_bool; lia..]). unfold isalnum in Hd. congruence. }
  specialize (Hw Hdiff). destruct (beq (map tolower (take (length name) (key ++ t))) (map tolower name)); cbn [negb].
  - destruct Hw as [[E ->]|[E (d & r & Hd & ->)]].
    + rewrite (beq_eq _ _ E). exact Hend.
    + apply key_byte_plain in Hd as (Hb & H10 & _ & _ & _ & _ & H61). rewrite (beq_neq _ _ E), skip_while_stop by done.
      by rewrite (proj2 (Z.eqb_neq d 61) H61), (proj2 (Z.eqb_neq d 10) H10).
  - by rewrite (beq_neq _ _ Hw).
Qed.

(** The section looked for, as a key is split. *)
Definition wf_target (section subsection : list Z) : Prop :=
  Forall name_byte section /\ map tolower section = section /\ Forall sub_byte subsection.

Lemma is_section_line pre name sub section subsection : blanks pre -> wf_header name sub -> wf_target section subsection ->
  bgit_config_is_section (render (Header pre name sub)) section subsection = beq (map tolower name) section && beq sub subsection.
Proof.
  intros Hpre (Hn & Hs & _) (Hsec & Hlow & Hsub). unfold bgit_config_is_section.
  set (t := match sub with [] => [93; 10] | _ => 32 :: 34 :: sub ++ [34; 93; 10] end).
  assert (Er : render (Header pre name sub) = pre ++ 91 :: name ++ t).
  { unfold render, t. destruct sub; cbn [body]; rewrite <- !app_assoc; cbn; rewrite <- ?app_assoc; done. }
  rewrite Er, skip_while_app, skip_while_stop by done. cbn [next_is]. rewrite Z.eqb_refl. cbn [negb]. change (drop 1 (91 :: ?x)) with x. cbv zeta.
  pose proof (word_cases tolower name_byte name t section Hn Hsec) as Hw. unfold starts_case, same_case.
  assert (Hdiff : forall c t', t = c :: t' -> forall d, name_byte d -> tolower c <> tolower d).
  { intros c t' E d (H93 & _ & _ & Hsp) Ec. assert (Hc : c = 93 \/ c = 32) by (unfold t in E; destruct sub; injection E as <- _; auto).
    apply tolower_same in Ec as <-; [|lia..]. destruct Hc as [-> | ->]; done. }
  specialize (Hw Hdiff). destruct (beq (map tolower (take (length section) (name ++ t))) (map tolower section)); cbn [negb].
  2:{ rewrite Hlow in Hw. by rewrite (beq_neq _ _ Hw). }
  destruct Hw as [[E ->]|[E (d & r & (H93 & H34 & _ & Hsp) & ->)]]; rewrite Hlow in E.
  2:{ rewrite (beq_neq _ _ E). cbn [andb]. rewrite skip_while_stop by (by apply space_blank). cbn [next_is].
      rewrite (proj2 (Z.eqb_neq d 93) H93), (proj2 (Z.eqb_neq d 34) H34). by destruct subsection. }
  rewrite (beq_eq _ _ E). cbn [andb]. unfold t. destruct sub as [|c sub], subsection as [|c' subsection]; try done.
  change (skip_while isblank (32 :: 34 :: (c :: sub) ++ [34; 93; 10])) with (34 :: (c :: sub) ++ [34; 93; 10]).
  cbn [next_is]. rewrite Z.eqb_refl. cbn [negb]. change (drop 1 (34 :: ?x)) with x. unfold starts.
  pose proof (word_cases id sub_byte (c :: sub) [34; 93; 10] (c' :: subsection) Hs Hsub) as Hw. rewrite !map_id in Hw.
  assert (Hd2 : forall x t', [34; 93; 10] = x :: t' -> forall d, sub_byte d -> id x <> id d) by (intros x t' [= <- _] d [H34 _] Ex; by apply H34).
  specialize (Hw Hd2). destruct (beq (take _ _) (c' :: subsection)); cbn [negb]; [|by rewrite (beq_neq _ _ Hw)].
  destruct Hw as [[E2 ->]|[E2 (d & r & [H34 _] & ->)]]; [by rewrite (beq_eq _ _ E2)|].
  rewrite (beq_neq _ _ E2). cbn [next_is]. by rewrite (proj2 (Z.eqb_neq d 34) H34).
Qed.

(* ------------------------------------------------------------------ *)
(** ** Editing lines *)

Definition is_header (l : cline) : bool := match l with Header _ _ _ => true | _ => false end.

(** What a list of settings says of a key, and of all others. *)
Definition values (m : list (list Z * option (list Z))) (key : list Z) : list (option (list Z)) :=
  map snd (List.filter (fun kv => beq (fst kv) key) m).

Definition others (m : list (list Z * option (list Z))) (key : list Z) : list (list Z * option (list Z)) :=
  List.filter (fun kv => negb (beq (fst kv) key)) m.

Lemma values_app m1 m2 key : values (m1 ++ m2) key = values m1 key ++ values m2 key.
Proof. unfold values. by rewrite List.filter_app, map_app. Qed.

Lemma others_app m1 m2 key : others (m1 ++ m2) key = others m1 key ++ others m2 key.
Proof. unfold others. by rewrite List.filter_app. Qed.

Section Editing.
Context (section subsection name : list Z) (Htarget : wf_target section subsection) (Hname : wf_key name).

(** The line is the section's header; it sets the key. *)
Definition target (l : cline) : bool :=
  match l with Header _ n s => beq (map tolower n) section && beq s subsection | _ => false end.

Definition sets (l : cline) : bool :=
  match l with Setting _ key _ _ _ | Alone _ key _ => same_case key name | _ => false end.

(** The lines that set the key in the section become what [g] makes of them. *)
Fixpoint rewrite_doc (g : cline -> list cline) (inside : bool) (doc : list cline) : list cline :=
  match doc with
  | [] => []
  | l :: doc' =>
      if is_header l then l :: rewrite_doc g (target l) doc'
      else (if inside && sets l then g l else [l]) ++ rewrite_doc g inside doc'
  end.

Fixpoint has (inside : bool) (doc : list cline) : bool :=
  match doc with
  | [] => false
  | l :: doc' => if is_header l then has (target l) doc' else (inside && sets l) || has inside doc'
  end.

(** Where the last such section ends. *)
Fixpoint section_end (i : nat) (inside : bool) (doc : list cline) (at_ : option nat) : option nat :=
  match doc with
  | [] => at_
  | l :: doc' => let inside := if is_header l then target l else inside in section_end (S i) inside doc' (if inside then Some (S i) else at_)
  end.

Lemma not_key x p : isalnum x || (x =? 45) = false -> starts_case name (x :: p) = false.
Proof using Hname.
  intros Hx. destruct Hname as (Hne & Hn & _). destruct name as [|d n]; [done|]. apply Forall_cons in Hn as [Hd _].
  unfold starts_case, same_case. apply beq_neq. cbn [length take map]. intros [= E _]. unfold key_byte in Hd. unfold isalnum in Hx.
  assert (x = d) as -> by (apply tolower_same; [done|intros ?; simpl_bool; lia..]). unfold isalnum in Hd. congruence.
Qed.

Lemma render_header l : wf_line l -> next_is 91 (skip_while isblank (render l)) = is_header l.
Proof using.
  intros (_ & _ & Hl). unfold render. destruct l as [s|pre c s|pre n s|pre key mid text v|pre key post]; cbn [is_header body].
  - by rewrite skip_while_app.
  - destruct Hl as [Hpre Hc]. rewrite <- app_assoc, skip_while_app by done. by destruct Hc as [-> | ->].
  - destruct Hl as [Hpre _]. destruct s; rewrite <- !app_assoc, skip_while_app by done; done.
  - destruct Hl as (Hpre & (Hne & Hk & _) & _). rewrite <- app_assoc, skip_while_app by done.
    destruct key as [|c key]; [done|]. apply Forall_cons in Hk as [Hc _]. apply key_byte_plain in Hc as (Hb & _ & _ & _ & _ & H91 & _).
    cbn [app]. rewrite skip_while_stop by done. cbn. by apply Z.eqb_neq.
  - destruct Hl as (Hpre & (Hne & Hk & _) & _). rewrite <- app_assoc, skip_while_app by done.
    destruct key as [|c key]; [done|]. apply Forall_cons in Hk as [Hc _]. apply key_byte_plain in Hc as (Hb & _ & _ & _ & _ & H91 & _).
    cbn [app]. rewrite skip_while_stop by done. cbn. by apply Z.eqb_neq.
Qed.

Lemma render_section l : wf_line l -> is_header l = true -> bgit_config_is_section (render l) section subsection = target l.
Proof using Htarget. intros (_ & _ & Hl) Hh. destruct l as [| |pre n s| |]; try done. destruct Hl as [Hpre Hw]. by apply is_section_line. Qed.

Lemma render_sets l : wf_line l -> is_header l = false -> bgit_config_is_key (render l) name = sets l.
Proof using Hname.
  intros (_ & _ & Hl) Hh. unfold render. destruct l as [s|pre c s| |pre key mid text v|pre key post]; try done; cbn [sets body].
  - unfold bgit_config_is_key. rewrite skip_while_app, skip_while_stop by done. by rewrite (not_key 10 []).
  - destruct Hl as [Hpre Hc]. unfold bgit_config_is_key. rewrite <- app_assoc, skip_while_app by done. cbn [app].
    rewrite skip_while_stop by (by destruct Hc as [-> | ->]). by rewrite not_key by (by destruct Hc as [-> | ->]).
  - destruct Hl as (Hpre & Hk & Hmid & _). rewrite <- !app_assoc. apply is_key_line; try done; [by apply after_key|].
    by rewrite skip_while_app.
  - destruct Hl as (Hpre & Hk & Hpost). rewrite <- !app_assoc. apply is_key_line; try done; [by apply after_key|].
    by rewrite skip_while_app.
Qed.

Definition change (new : cline) (multiple : bool) (l : cline) : list cline := if multiple then [l] else [new].

Lemma edit_loop_doc new multiple doc : Forall wf_line doc -> forall i inside done at_,
  edit_loop section subsection name (render new) multiple false (map render doc) i inside done at_ =
  (map render (rewrite_doc (change new multiple) inside doc), done || (negb multiple && has inside doc), section_end i inside doc at_).
Proof using Htarget Hname.
  induction 1 as [|l doc Hl _ IH]; intros i inside dn at_; cbn [map edit_loop rewrite_doc has section_end].
  { by rewrite andb_false_r, orb_false_r. }
  rewrite render_header by done. destruct (is_header l) eqn:Eh.
  { rewrite render_section by done. rewrite IH. by destruct (target l). }
  destruct inside; cbn [negb andb].
  2:{ rewrite IH. done. }
  rewrite render_sets by done. destruct (sets l); cbn [negb orb].
  - unfold change. destruct multiple; cbn [negb andb]; rewrite IH; cbn [negb andb]; [done|].
    by rewrite orb_true_r.
  - rewrite IH. done.
Qed.

Lemma unset_loop_doc setting doc : Forall wf_line doc -> forall i inside done at_,
  (edit_loop section subsection name setting false true (map render doc) i inside done at_).1.1 = map render (rewrite_doc (fun _ => []) inside doc).
Proof using Htarget Hname.
  induction 1 as [|l doc Hl _ IH]; intros i inside dn at_; cbn [map edit_loop rewrite_doc]; [done|].
  rewrite render_header by done. destruct (is_header l) eqn:Eh.
  { rewrite render_section by done. specialize (IH (S i) (target l) dn (if target l then Some (S i) else at_)).
    destruct (edit_loop _ _ _ _ _ _ _ _ _ _ _) as [[out d] a]. cbn in *. by rewrite IH. }
  destruct inside; cbn [negb andb].
  2:{ specialize (IH (S i) false dn at_). destruct (edit_loop _ _ _ _ _ _ _ _ _ _ _) as [[out d] a]. cbn in *. by rewrite IH. }
  rewrite render_sets by done. destruct (sets l); cbn [negb].
  - apply IH.
  - specialize (IH (S i) true dn (Some (S i))). destruct (edit_loop _ _ _ _ _ _ _ _ _ _ _) as [[out d] a]. cbn in *. by rewrite IH.
Qed.

Lemma has_none g inside doc : has inside doc = false -> rewrite_doc g inside doc = doc.
Proof using.
  revert inside. induction doc as [|l doc IH]; intros inside Hh; cbn in *; [done|]. destruct (is_header l); [by rewrite IH|].
  apply orb_false_iff in Hh as [-> Hh]. by rewrite IH.
Qed.

Lemma rewrite_same inside doc : rewrite_doc (fun l => [l]) inside doc = doc.
Proof using. revert inside. induction doc as [|l doc IH]; intros inside; cbn; [done|]. destruct (is_header l); rewrite IH; [done|by destruct (inside && sets l)]. Qed.

(** *** What the edited lines say *)

(** The key as it is stored. *)
Definition full : list Z := prefix section subsection ++ map tolower name.

Lemma first_dot (a b r r' : list Z) : Forall (fun c => c <> 46) a -> Forall (fun c => c <> 46) b -> a ++ 46 :: r = b ++ 46 :: r' -> a = b /\ r = r'.
Proof using.
  intros Ha. revert b. induction Ha as [|c a Hc _ IH]; intros [|d b] Hb E; cbn in E.
  - by injection E as ->.
  - injection E as <- _. by apply Forall_cons in Hb as [? _].
  - by injection E as -> _.
  - injection E as -> E. apply Forall_cons in Hb as [_ Hb]. by destruct (IH b Hb E) as [-> ->].
Qed.

Lemma last_dot (a b k k' : list Z) : Forall (fun c => c <> 46) k -> Forall (fun c => c <> 46) k' -> a ++ 46 :: k = b ++ 46 :: k' -> a = b /\ k = k'.
Proof using.
  intros Hk Hk' E. apply (f_equal (@rev Z)) in E. rewrite !rev_app_distr in E. cbn in E. rewrite <- !app_assoc in E. cbn in E.
  apply first_dot in E as [E1 E2]; [|by apply Forall_rev..].
  apply (f_equal (@rev Z)) in E1. apply (f_equal (@rev Z)) in E2. rewrite !rev_involutive in *. done.
Qed.

Lemma lower_no_dot (s : list Z) : Forall (fun c => c <> 46) s -> Forall (fun c => c <> 46) (map tolower s).
Proof using. induction 1 as [|c s Hc _ IH]; cbn; constructor; [|done]. unfold tolower. case_if; simpl_bool; lia. Qed.

Lemma key_no_dot k : Forall key_byte k -> Forall (fun c => c <> 46) (map tolower k).
Proof using. intros Hk. apply lower_no_dot. eapply Forall_impl; [exact Hk|]. intros c Hc. unfold key_byte, isalnum in Hc. simpl_bool. lia. Qed.

Lemma name_no_dot n : Forall name_byte n -> Forall (fun c => c <> 46) n.
Proof using. intros Hn. eapply Forall_impl; [exact Hn|]. unfold name_byte. tauto. Qed.

Lemma lower_idem (s : list Z) : map tolower (map tolower s) = map tolower s.
Proof using. rewrite map_map. apply map_ext. intros c. unfold tolower. repeat case_if; simpl_bool; lia. Qed.

(** A key says which section it is in. *)
Lemma full_key n s k : wf_header n s -> Forall key_byte k ->
  prefix n s ++ map tolower k = full <-> map tolower n = section /\ s = subsection /\ map tolower k = map tolower name.
Proof using Htarget Hname.
  intros (Hn & _ & _) Hk. destruct Htarget as (Hsec & Hlow & _). destruct Hname as (_ & Hnm & _).
  pose proof (key_no_dot _ Hk) as Hk'. pose proof (key_no_dot _ Hnm) as Hnm'. unfold full, prefix. rewrite Hlow. split.
  - rewrite <- !app_assoc. change (str "." ++ ?x) with (46 :: x). intros E.
    apply first_dot in E as [-> E]; [|by apply lower_no_dot, name_no_dot|by apply name_no_dot].
    destruct s as [|c s], subsection as [|c' sub]; cbn [app] in E.
    + done.
    + exfalso. rewrite E in Hk'. apply (Forall_cons (fun c => c <> 46) c') in Hk' as [_ Hk']. rewrite <- app_assoc in Hk'.
      apply Forall_app in Hk' as [_ Hk']. by apply Forall_cons in Hk' as [? _].
    + exfalso. rewrite <- E in Hnm'. apply (Forall_cons (fun c => c <> 46) c) in Hnm' as [_ Hnm']. rewrite <- app_assoc in Hnm'.
      apply Forall_app in Hnm' as [_ Hnm']. by apply Forall_cons in Hnm' as [? _].
    + rewrite <- !app_assoc in E.
      assert (E' : (c :: s) ++ 46 :: map tolower k = (c' :: sub) ++ 46 :: map tolower name) by exact E.
      apply last_dot in E' as [-> ->]; done.
  - by intros (-> & -> & ->).
Qed.

(** Below a header, a key is the one looked for when the section is and its name
    is. *)
Definition inside_ok (inside : bool) (sec : list Z) : Prop :=
  if inside then sec = prefix section subsection else forall k, Forall key_byte k -> sec ++ map tolower k <> full.

Lemma inside_start : inside_ok false [].
Proof using Htarget.
  intros k Hk E. pose proof (key_no_dot _ Hk) as Hk'. cbn [app] in E. rewrite E in Hk'. unfold full, prefix in Hk'. rewrite <- !app_assoc in Hk'.
  apply Forall_app in Hk' as [_ Hk']. by apply Forall_cons in Hk' as [? _].
Qed.

Lemma inside_header pre n s : wf_header n s -> inside_ok (target (Header pre n s)) (prefix n s).
Proof using Htarget Hname.
  intros Hw. unfold inside_ok, target. destruct (beq (map tolower n) section && beq s subsection) eqn:E.
  - apply andb_true_iff in E as [E1 E2]. unfold beq in *. apply bool_decide_eq_true in E1, E2. subst s.
    unfold prefix. destruct Htarget as (_ & -> & _). by rewrite E1.
  - intros k Hk Ek. apply full_key in Ek as (E1 & E2 & _); [|done..]. by rewrite (beq_eq _ _ E1), (beq_eq _ _ E2) in E.
Qed.

Lemma inside_key inside sec k : inside_ok inside sec -> Forall key_byte k ->
  beq (sec ++ map tolower k) full = inside && same_case k name.
Proof using.
  intros Hin Hk. unfold inside_ok in Hin. destruct inside; cbn [andb].
  - subst sec. unfold full, same_case, beq. apply bool_decide_ext. split; [by intros ?%app_inv_head|by intros ->].
  - apply beq_neq. by apply Hin.
Qed.

Lemma values_cons kv m key : values (kv :: m) key = (if beq (fst kv) key then [snd kv] else []) ++ values m key.
Proof using. unfold values. cbn [List.filter]. by destruct (beq (fst kv) key). Qed.

Lemma others_cons kv m key : others (kv :: m) key = (if beq (fst kv) key then [] else [kv]) ++ others m key.
Proof using. unfold others. cbn [List.filter]. by destruct (beq (fst kv) key). Qed.

(** What a line says by itself, below a section. *)
Definition says (sec : list Z) (l : cline) : list (list Z * option (list Z)) := meaning sec [l].

Lemma meaning_cons sec l doc : is_header l = false -> meaning sec (l :: doc) = says sec l ++ meaning sec doc.
Proof using. by destruct l. Qed.

(** It says something of the key exactly when it sets it, and then only that. *)
Lemma says_key inside sec l : wf_line l -> is_header l = false -> inside_ok inside sec ->
  if inside && sets l then exists v, says sec l = [(full, v)] else values (says sec l) full = [] /\ others (says sec l) full = says sec l.
Proof using.
  intros (_ & _ & Hl) Hh Hin.
  assert (Hkey : forall key v, wf_key key -> if inside && same_case key name then exists v', [(sec ++ map tolower key, v)] = [(full, v')]
    else values [(sec ++ map tolower key, v)] full = [] /\ others [(sec ++ map tolower key, v)] full = [(sec ++ map tolower key, v)]).
  { intros key v (_ & Hk & _). pose proof (inside_key inside sec key Hin Hk) as E. destruct (inside && same_case key name).
    - exists v. unfold beq in E. apply bool_decide_eq_true in E. by rewrite E.
    - rewrite values_cons, others_cons. cbn [fst]. by rewrite E. }
  unfold says. destruct l as [s|pre c s|pre n s|pre key mid t v|pre key post]; cbn [sets meaning]; rewrite ?andb_false_r; try done.
  - destruct Hl as (_ & Hk & _). by apply Hkey.
  - destruct Hl as (_ & Hk & _). by apply Hkey.
Qed.

Lemma wf_headers l : wf_line l -> is_header l = true -> exists pre n s, l = Header pre n s /\ wf_header n s.
Proof using. intros (_ & _ & Hl) Hh. destruct l as [| |pre n s| |]; try done. destruct Hl as [_ Hw]. eauto. Qed.

Context (text value : list Z).

Definition new_line : cline := Setting [9] name [32] text value.

Lemma says_new : says (prefix section subsection) new_line = [(full, Some value)].
Proof using. done. Qed.

Lemma full_values v : values [(full, v)] full = [v] /\ others [(full, v)] full = [].
Proof using. rewrite values_cons, others_cons. cbn [fst]. by rewrite beq_eq. Qed.

Lemma set_meaning doc : Forall wf_line doc -> forall inside sec, inside_ok inside sec ->
  let m := meaning sec doc in let m' := meaning sec (rewrite_doc (change new_line false) inside doc) in
  values m' full = map (fun _ => Some value) (values m full) /\ others m' full = others m full /\
  (has inside doc = false -> values m full = []).
Proof using Htarget Hname.
  induction 1 as [|l doc Hl _ IH]; intros inside sec Hin; cbn [rewrite_doc has]; [done|]. destruct (is_header l) eqn:Eh.
  { destruct (wf_headers l Hl Eh) as (pre & n & s & -> & Hw). cbn [meaning]. apply IH. by apply inside_header. }
  pose proof (says_key inside sec l Hl Eh Hin) as Hs. rewrite (meaning_cons sec l) by done. destruct (IH inside sec Hin) as (I1 & I2 & I3).
  destruct (inside && sets l) eqn:Es; cbn [orb].
  - destruct Hs as [v Hs]. apply andb_true_iff in Es as [-> _]. cbn [inside_ok] in Hin. subst sec. unfold change. cbn [app].
    rewrite (meaning_cons _ new_line), says_new, Hs by done. rewrite !values_app, !others_app, !(proj1 (full_values _)), !(proj2 (full_values _)).
    cbn [app map]. split; [f_equal; exact I1|]. split; [exact I2|done].
  - destruct Hs as [Hv Ho]. cbn [app]. rewrite (meaning_cons _ l) by done. rewrite !values_app, !others_app, Hv, Ho. cbn [app].
    split; [exact I1|]. split; [by rewrite I2|exact I3].
Qed.

Lemma unset_meaning doc : Forall wf_line doc -> forall inside sec, inside_ok inside sec ->
  let m := meaning sec doc in let m' := meaning sec (rewrite_doc (fun _ => []) inside doc) in
  values m' full = [] /\ others m' full = others m full.
Proof using Htarget Hname.
  induction 1 as [|l doc Hl _ IH]; intros inside sec Hin; cbn [rewrite_doc]; [done|]. destruct (is_header l) eqn:Eh.
  { destruct (wf_headers l Hl Eh) as (pre & n & s & -> & Hw). cbn [meaning]. apply IH. by apply inside_header. }
  pose proof (says_key inside sec l Hl Eh Hin) as Hs. rewrite (meaning_cons sec l) by done. destruct (IH inside sec Hin) as (I1 & I2).
  destruct (inside && sets l).
  - destruct Hs as [v Hs]. cbn [app]. rewrite Hs, others_app, (proj2 (full_values _)). done.
  - destruct Hs as [Hv Ho]. cbn [app]. rewrite (meaning_cons _ l) by done. rewrite !values_app, !others_app, Hv, Ho. cbn [app].
    split; [exact I1|by rewrite I2].
Qed.

(** A line put_byte where the section ends comes after all that set the key. *)
Definition put_at (k : nat) (doc : list cline) : list cline := take k doc ++ new_line :: drop k doc.

Definition one_more (m m' : list (list Z * option (list Z))) : Prop :=
  values m' full = values m full ++ [Some value] /\ others m' full = others m full.

Lemma place_spec doc : Forall wf_line doc -> forall i inside sec at_, inside_ok inside sec ->
  match section_end i inside doc at_ with
  | None => at_ = None /\ values (meaning sec doc) full = []
  | Some k => (at_ = Some k /\ values (meaning sec doc) full = []) \/
      (exists j, k = (i + j)%nat /\ (1 <= j)%nat /\ one_more (meaning sec doc) (meaning sec (put_at j doc)))
  end.
Proof using Htarget Hname.
  induction 1 as [|l doc Hl Hdoc IH]; intros i inside sec at_ Hin; cbn [section_end].
  { destruct at_ as [k|]; [by left|done]. }
  assert (Hstep : forall inside' sec', inside_ok inside' sec' ->
    (forall doc', meaning sec (l :: doc') = (if is_header l then [] else says sec l) ++ meaning sec' doc') ->
    (inside' = false -> values (if is_header l then [] else says sec l) full = []) ->
    (inside' = true -> sec' = prefix section subsection) ->
    match section_end (S i) inside' doc (if inside' then Some (S i) else at_) with
    | None => at_ = None /\ values (meaning sec (l :: doc)) full = []
    | Some k => (at_ = Some k /\ values (meaning sec (l :: doc)) full = []) \/
        (exists j, k = (i + j)%nat /\ (1 <= j)%nat /\ one_more (meaning sec (l :: doc)) (meaning sec (put_at j (l :: doc))))
    end).
  { intros inside' sec' Hin' Hm Hno Htg. rewrite Hm, values_app.
    assert (Hput : forall j, meaning sec (put_at (S j) (l :: doc)) = (if is_header l then [] else says sec l) ++ meaning sec' (put_at j doc)).
    { intros j. unfold put_at. cbn [take drop app]. apply Hm. }
    specialize (IH (S i) inside' sec' (if inside' then Some (S i) else at_) Hin').
    assert (Hone : forall j, one_more (meaning sec' doc) (meaning sec' (put_at j doc)) ->
      one_more ((if is_header l then [] else says sec l) ++ meaning sec' doc) ((if is_header l then [] else says sec l) ++ meaning sec' (put_at j doc))).
    { intros j [O1 O2]. unfold one_more. by rewrite !values_app, !others_app, O1, O2, app_assoc. }
    destruct (section_end (S i) inside' doc _) as [k|].
    - destruct IH as [[Ea Ev]|(j & -> & Hj & Ho)].
      + destruct inside'.
        * injection Ea as <-. right. exists 1%nat. split; [lia|]. split; [lia|]. rewrite Hput. apply Hone.
          specialize (Htg eq_refl). subst sec'. unfold put_at. rewrite take_0, drop_0. cbn [app]. rewrite (meaning_cons _ new_line), says_new by done.
          unfold one_more. rewrite values_app, others_app, (proj1 (full_values _)), (proj2 (full_values _)), Ev. done.
        * left. split; [done|]. by rewrite Hno, Ev.
      + right. exists (S j). split; [lia|]. split; [lia|]. rewrite Hput. by apply Hone.
    - destruct IH as [Ea Ev]. destruct inside'; [done|]. split; [done|]. by rewrite Hno, Ev. }
  destruct (is_header l) eqn:Eh.
  - destruct (wf_headers l Hl Eh) as (pre & n & s & -> & Hw). apply (Hstep _ (prefix n s)); [by apply inside_header|done|done|].
    intros Ht. pose proof (inside_header pre n s Hw) as Hi. by rewrite Ht in Hi.
  - apply (Hstep inside sec); [done|intros doc'; by apply meaning_cons| |].
    + intros ->. pose proof (says_key false sec l Hl Eh Hin) as Hs. exact (proj1 Hs).
    + intros ->. exact Hin.
Qed.

(** The edit of a file, in terms of its lines. *)
Definition edit_doc (multiple remove : bool) (doc : list cline) : list cline :=
  if remove then rewrite_doc (fun _ => []) false doc
  else if negb multiple && has false doc then rewrite_doc (change new_line false) false doc
  else match section_end 0 false doc None with
       | Some k => put_at k doc
       | None => doc ++ [Header [] section subsection; new_line]
       end.

(** What an edit asks for. *)
Definition edited (multiple remove : bool) (old : list (option (list Z))) : list (option (list Z)) :=
  if remove then [] else if multiple then old ++ [Some value]
  else match old with [] => [Some value] | _ => map (fun _ => Some value) old end.

Lemma edit_doc_meaning multiple remove doc : Forall wf_line doc -> wf_header section subsection ->
  values (meaning [] (edit_doc multiple remove doc)) full = edited multiple remove (values (meaning [] doc) full) /\
  others (meaning [] (edit_doc multiple remove doc)) full = others (meaning [] doc) full.
Proof using Htarget Hname.
  intros Hdoc Hh. unfold edit_doc, edited. destruct remove; [by apply unset_meaning, inside_start|].
  pose proof (set_meaning doc Hdoc false [] inside_start) as (S1 & S2 & S3). cbv zeta in *.
  pose proof (place_spec doc Hdoc 0 false [] None inside_start) as Hplace.
  assert (Hins : one_more (meaning [] doc) (meaning [] (match section_end 0 false doc None with
      | Some k => put_at k doc | None => doc ++ [Header [] section subsection; new_line] end))).
  { destruct (section_end 0 false doc None) as [k|]; [destruct Hplace as [[? _]|(j & -> & _ & Ho)]; [done|exact Ho]|].
    assert (Happ : forall sec, meaning sec (doc ++ [Header [] section subsection; new_line]) = meaning sec doc ++ [(full, Some value)]).
    { clear -Htarget. intros sec. revert sec. induction doc as [|l doc IH]; intros sec; [done|]. destruct l; cbn [app meaning]; by rewrite IH. }
    rewrite Happ. unfold one_more. rewrite values_app, others_app, (proj1 (full_values _)), (proj2 (full_values _)), app_nil_r. done. }
  destruct Hins as [O1 O2]. destruct multiple; cbn [negb andb]; [done|]. destruct (has false doc) eqn:Eh.
  - rewrite S1. split; [|exact S2]. destruct (values (meaning [] doc) full) eqn:Ev; [|done].
    exfalso. clear -Htarget Hname Hdoc Eh Ev. pose proof inside_start as Hin. revert Hin Eh Ev. generalize false at 1 2. generalize (@nil Z).
    induction Hdoc as [|l doc Hl _ IH]; intros sec inside Hin Eh Ev; [done|]. cbn [has] in Eh. destruct (is_header l) eqn:El.
    + destruct (wf_headers l Hl El) as (pre & n & s & -> & Hw). cbn [meaning] in Ev. eapply IH; [by apply inside_header|done|done].
    + rewrite (meaning_cons sec l), values_app in Ev by done. apply app_eq_nil in Ev as [Ev1 Ev2].
      pose proof (says_key inside sec l Hl El Hin) as Hs. destruct (inside && sets l).
      * destruct Hs as [v Hs]. by rewrite Hs, (proj1 (full_values _)) in Ev1.
      * by eapply IH.
  - rewrite O1, (S3 eq_refl). split; [done|exact O2].
Qed.

Lemma edit_doc_wf multiple remove doc : Forall wf_line doc -> wf_line new_line -> wf_line (Header [] section subsection) ->
  Forall wf_line (edit_doc multiple remove doc).
Proof using.
  intros Hdoc Hnew Hh.
  assert (Hrw : forall g, (forall l, Forall wf_line (g l)) -> forall inside, Forall wf_line (rewrite_doc g inside doc)).
  { intros g Hg. induction Hdoc as [|l doc Hl _ IH]; intros inside; cbn; [done|]. destruct (is_header l); [by constructor|].
    apply Forall_app. split; [destruct (inside && sets l); [apply Hg|by constructor]|apply IH]. }
  unfold edit_doc. destruct remove; [by apply Hrw|]. destruct (negb multiple && has false doc).
  { apply Hrw. intros l. unfold change. by apply Forall_singleton. }
  destruct (section_end 0 false doc None) as [k|].
  - unfold put_at. apply Forall_app. split; [by apply Forall_take|]. constructor; [done|by apply Forall_drop].
  - apply Forall_app. split; [done|]. constructor; [done|]. by apply Forall_singleton.
Qed.

Lemma section_line_header : wf_header section subsection -> section_line section subsection = render (Header [] section subsection).
Proof using.
  clear. intros (_ & _ & Hl). pose proof (len_nonneg section). pose proof (len_nonneg subsection). unfold section_line, render.
  destruct subsection as [|c sub]; rewrite take_ge; rewrite ?length_app; unfold len in *; cbn in *; rewrite ?length_app; cbn; try lia;
    rewrite <- ?app_assoc; cbn; rewrite <- ?app_assoc; done.
Qed.

Lemma edit_lines_doc multiple remove doc setting : Forall wf_line doc -> wf_header section subsection ->
  (remove = false -> setting = render new_line) ->
  edit_lines section subsection name setting (multiple && negb remove) remove (map render doc) = map render (edit_doc multiple remove doc).
Proof using Htarget Hname.
  intros Hdoc Hh Hset. unfold edit_lines, edit_doc. destruct remove.
  { rewrite andb_false_r. pose proof (unset_loop_doc setting doc Hdoc 0 false false None) as E.
    destruct (edit_loop _ _ _ _ _ _ _ _ _ _ _) as [[out d] a]. cbn in *. by rewrite E. }
  rewrite (Hset eq_refl), edit_loop_doc by done. cbn [negb andb orb]. rewrite andb_true_r.
  assert (Hput : forall k, take k (map render doc) ++ render new_line :: drop k (map render doc) = map render (put_at k doc)).
  { intros k. unfold put_at. rewrite map_app. cbn [map]. by rewrite firstn_map, skipn_map. }
  assert (Hnew : map render doc ++ [section_line section subsection] = map render (doc ++ [Header [] section subsection])).
  { by rewrite map_app, section_line_header. }
  assert (Hins : forall r, r = map render doc -> (let '(lines, k) := match section_end 0 false doc None with
      | Some k => (r, k) | None => (r ++ [section_line section subsection], S (length r)) end in
      take k lines ++ render new_line :: drop k lines) =
    map render match section_end 0 false doc None with Some k => put_at k doc | None => doc ++ [Header [] section subsection; new_line] end).
  { intros r ->. destruct (section_end 0 false doc None) as [k|]; [apply Hput|]. rewrite Hnew, take_ge, drop_ge.
    - rewrite !map_app, <- app_assoc. done.
    - rewrite !length_map, length_app. cbn. lia.
    - rewrite !length_map, length_app. cbn. lia. }
  destruct multiple; cbn [negb andb orb].
  - apply Hins. unfold change. by rewrite rewrite_same.
  - destruct (has false doc) eqn:Eh; cbn [negb orb andb]; [done|]. apply Hins. by rewrite has_none.
Qed.
End Editing.

(* ------------------------------------------------------------------ *)
(** ** The file as the editor reads and writes it *)

Lemma lines_doc doc : Forall wf_line doc -> forall fuel, (length (doc_text doc) <= fuel)%nat ->
  file_lines fuel (doc_text doc) = map render doc.
Proof.
  induction 1 as [|l doc (Hb & Hlen & Hl) Hdoc IH]; intros fuel Hf; [by destruct fuel|].
  assert (E : doc_text (l :: doc) = body l ++ 10 :: doc_text doc).
  { unfold doc_text. cbn [map concat]. unfold render. by rewrite <- app_assoc. }
  rewrite E in *. rewrite length_app in Hf. cbn [length] in Hf. destruct fuel as [|fuel]; [lia|].
  assert (Hne : exists c r, body l ++ 10 :: doc_text doc = c :: r) by (destruct (body l); eauto).
  destruct Hne as (c & r & Ec). cbn [file_lines map]. rewrite Ec, <- Ec, fgets_line.
  - rewrite IH by lia. f_equal. unfold render. apply c_text_plain. apply Forall_app. split; [|by repeat constructor].
    eapply Forall_impl; [exact Hb|]. cbn. tauto.
  - eapply Forall_impl; [exact Hb|]. cbn. tauto.
  - unfold len in Hlen. lia.
Qed.

Lemma escaped_bytes c : c <> 0 -> Forall (fun d => d <> 10 /\ d <> 0) (escaped c).
Proof.
  intros Hc. unfold escaped. destruct (Z.eqb_spec c 34) as [->|]; [by repeat constructor|]. destruct (Z.eqb_spec c 92) as [->|]; [by repeat constructor|].
  cbn [orb]. destruct (Z.eqb_spec c 10) as [->|]; [by repeat constructor|]. destruct (Z.eqb_spec c 9) as [->|]; by repeat constructor.
Qed.

(** A value that is quoted takes one line, of bounded length. *)
Lemma quote_bytes v : Forall (fun c => c <> 0) v -> len v <= 3900 ->
  Forall (fun c => c <> 10 /\ c <> 0) (bgit_config_quote v) /\ len (bgit_config_quote v) <= 7802.
Proof.
  intros Hv Hl. unfold bgit_config_quote. destruct (needs_quotes v) eqn:Eq; cbn [negb].
  - rewrite quote_loop_all by (change (len [34]) with 1; lia).
    assert (Hlen : len (flat_map escaped v) <= 2 * len v).
    { clear. induction v as [|c v IH]; [done|]. cbn [flat_map]. rewrite len_app, len_cons. pose proof (escaped_len c). lia. }
    assert (Hout : len ([34] ++ flat_map escaped v) <= 7801) by (rewrite len_app; change (len [34]) with 1; lia).
    if_true. split; [|rewrite len_app; change (len [34]) with 1; lia].
    apply Forall_app; split; [apply Forall_app; split|]; [by repeat constructor| |by repeat constructor].
    apply Forall_flat_map. eapply Forall_impl; [exact Hv|]. apply escaped_bytes.
  - destruct v as [|c v]; [done|]. unfold needs_quotes in Eq. rewrite !orb_false_iff in Eq. destruct Eq as [_ Hs].
    rewrite take_ge by (change (len (c :: v)) with (Z.of_nat (length (c :: v))) in Hl; lia). split; [|lia].
    rewrite Forall_forall. intros x Hx. split; [|by apply (proj1 (Forall_forall _ _) Hv x)]. intros ->. apply list_elem_of_In in Hx.
    assert (existsb special (c :: v) = true) by (apply existsb_exists; eauto). congruence.
Qed.

Definition quoted_text (v : list Z) : list Z := str " " ++ bgit_config_quote v.

Lemma setting_doc name v : wf_key name -> len name <= 255 -> Forall (fun c => c <> 0) v -> len v <= 3900 ->
  setting_line name (bgit_config_quote v) = render (new_line name (quoted_text v) v) /\ wf_line (new_line name (quoted_text v) v).
Proof.
  intros (Hne & Hk & Hkl) Hn Hv Hl. destruct (quote_bytes v Hv Hl) as [Hq Hql].
  assert (Eb : body (new_line name (quoted_text v) v) = [9] ++ name ++ str " = " ++ bgit_config_quote v) by done.
  assert (Hlen : len (body (new_line name (quoted_text v) v)) <= 8190).
  { rewrite Eb, !len_app. change (len [9]) with 1. change (len (str " = ")) with 3. lia. }
  split; [|split; [|split; [exact Hlen|]]].
  - unfold setting_line, render. rewrite Eb in *. rewrite take_ge; [by rewrite <- !app_assoc|].
    unfold len in Hlen. rewrite !length_app in *. cbn [length] in *. lia.
  - rewrite Eb. apply Forall_app; split; [by repeat constructor|]. apply Forall_app; split; [|apply Forall_app; split; [by repeat constructor|exact Hq]].
    eapply Forall_impl; [exact Hk|]. intros c Hc. apply key_byte_plain in Hc as Hp. split; [apply Hp|]. by intros ->.
  - split; [by repeat constructor|]. split; [done|]. split; [by repeat constructor|]. intros rest.
    change (quoted_text v ++ 10 :: rest) with (32 :: (bgit_config_quote v ++ 10 :: rest)). cbn [skip_while isblank].
    left. by apply quote_read; lia.
Qed.

(* ------------------------------------------------------------------ *)
(** ** The file is replaced at once *)

(** In every state that can be seen from one world to a later one, the file at
    [p] holds its old bytes or its new ones. *)
Definition seen (p : path) (old new : list Z) (w w' : world) : Prop :=
  exists fs, w_log w' = fs ++ w_log w /\ Forall (fun f => content f p = Some old \/ content f p = Some new) fs.

Lemma seen_trans p old new w w1 w2 : seen p old new w w1 -> seen p old new w1 w2 -> seen p old new w w2.
Proof.
  intros (n1 & L1 & A1) (n2 & L2 & A2). exists (n2 ++ n1). rewrite L2, L1, app_assoc. split; [done|]. by apply Forall_app.
Qed.

Lemma seen_log p old new w w' fs : w_log w' = fs ++ w_log w -> Forall (fun f => content f p = Some old) fs -> seen p old new w w'.
Proof. intros L A. exists fs. split; [done|]. eapply Forall_impl; [exact A|]. by left. Qed.

Lemma content_grows f f' p d : grows f f' -> content f p = Some d -> content f' p = Some d.
Proof.
  intros [Hn Hi]. unfold content, lookup_inode. destruct (names f !! p) as [i|] eqn:En; [|done].
  rewrite (lookup_weaken _ _ _ _ En Hn). cbn. destruct (inodes f !! i) as [n|] eqn:Ei; [|done]. by rewrite (lookup_weaken _ _ _ _ Ei Hi).
Qed.

(** Taking the lock leaves the file, and makes a new inode for the new bytes. *)
Lemma acquire_leaves id p s l w o w' old new : proc_inv nobody (w_fs w) (w_fds w) s l -> id ∉ l -> ~ lock_name p ->
  content (w_fs w) p = Some old -> bgit_lock_acquire id p s w = (o, w') ->
  exists rc s' l', o = Ret (rc, s') /\ proc_inv nobody (w_fs w') (w_fds w') s' l' /\ content (w_fs w') p = Some old /\
    seen p old new w w' /\
    (rc = -1 \/ rc = 0 /\ exists r i, id ∈ l' /\ store s' !! id = Some r /\ holding (w_fs w') (w_fds w') r p i [] /\ names (w_fs w') !! p <> Some i).
Proof.
  intros HI Hid Hp Hold Ha.
  assert (Hlog : grows (w_fs w) (w_fs w') /\ exists fs, w_log w' = fs ++ w_log w /\ Forall (grows (w_fs w)) fs).
  { pose proof Ha as Hb. unfold bgit_lock_acquire in Hb. apply ibind_cases in Hb as [(rc & w1 & H1 & H2)|[(m & H1 & _)|[H1 _]]].
    2,3: apply only_grows_mkdir_parents in H1 as ([? ?] & _); done.
    apply only_grows_mkdir_parents in H1 as (_ & _ & G & fs & L & A). destruct (rc <? 0).
    { unfold builtin_error, ibind, iret in H2. injection H2 as _ <-. cbn. eauto. }
    unfold ibind at 1 in H2. destruct (open_excl (p ++ dot_lock) w1) as [r2 w2] eqn:H3.
    apply open_excl_cases in H3 as [(-> & E & L2 & _)|(z & -> & i & k & -> & Hn & Hi & _ & _ & E & L2)].
    - cbn in H2. unfold iret in H2. injection H2 as _ <-. cbn. rewrite E, L2. eauto.
    - rewrite (proj2 (Z.ltb_ge _ _)) in H2 by lia. unfold iret in H2. injection H2 as _ <-.
      assert (G2 : grows (w_fs w) (w_fs w2)) by (eapply grows_trans; [exact G|]; rewrite E; by apply grows_insert).
      split; [done|]. exists (w_fs w2 :: fs). rewrite L2, L. split; [done|]. by constructor. }
  destruct Hlog as (G & fs & L & A).
  assert (Hseen : seen p old new w w').
  { eapply seen_log; [exact L|]. eapply Forall_impl; [exact A|]. intros f Hf. by eapply content_grows. }
  pose proof (content_grows _ _ _ _ G Hold) as Hold'. pose proof Ha as Hc. apply acquire_cases in Hc as [(-> & _)|(w1 & fd & -> & G1 & F1 & Hc)].
  - destruct (acquire_ok _ _ _ _ _ _ _ _ Ha HI Hid Hp) as (l' & HI' & _). do 3 eexists. do 4 (split; [done|]). by left.
  - destruct (acquire_ok _ _ _ _ _ _ _ _ Ha HI Hid Hp) as (l' & HI' & _). pose proof Hc as (i & k & -> & Hn & Hi & _ & F2 & E & _).
    do 3 eexists. do 4 (split; [done|]). right. split; [done|]. do 2 eexists.
    assert (Hh : holding (w_fs w') (w_fds w') {| l_path := Some p; l_lock_path := Some (p ++ dot_lock); l_fd := Z.of_N k; l_next := bgit_locks_held s |} p i []).
    { rewrite E, F2. by apply created_holding. }
    assert (Hst : store (acquired s id p (Z.of_N k)) !! id =
      Some {| l_path := Some p; l_lock_path := Some (p ++ dot_lock); l_fd := Z.of_N k; l_next := bgit_locks_held s |}).
    { cbn. by rewrite lookup_insert_eq. }
    destruct (open_held _ _ _ _ _ _ HI' Hst) as [Hl' _]; [cbn; lia|]. do 3 (split; [done|]).
    pose proof (content_grows _ _ _ _ G1 Hold) as H1. unfold content, lookup_inode in H1. intros En. rewrite E in En. cbn in En.
    rewrite lookup_insert_ne in En.
    + rewrite En in H1. cbn in H1. by rewrite Hi in H1.
    + intros Ep. apply Hp. by exists p.
Qed.

Lemma write_leaves id p r i s l old new : id ∈ l -> store s !! id = Some r -> 0 <= l_fd r -> forall lines d w o w',
  proc_inv nobody (w_fs w) (w_fds w) s l -> holding (w_fs w) (w_fds w) r p i d -> names (w_fs w) !! p <> Some i ->
  content (w_fs w) p = Some old -> write_lines id lines s w = (o, w') ->
  exists d', proc_inv nobody (w_fs w') (w_fds w') s l /\ holding (w_fs w') (w_fds w') r p i d' /\ content (w_fs w') p = Some old /\
    seen p old new w w' /\ (o = Ret 0 /\ d' = d ++ concat lines \/ o = Ret (-1)).
Proof.
  intros Hid Hr Hfd. induction lines as [|line lines IH]; intros d w o w' HI Hh Hne Hold H; cbn [write_lines concat] in *.
  { injection H as <- <-. exists d. rewrite app_nil_r. do 3 (split; [done|]). split; [by exists []|]. by left. }
  unfold ibind in H. destruct (bgit_lock_write id line s w) as [o1 w1] eqn:H1.
  pose proof Hh as (_ & _ & _ & _ & n & Hf & Hi & Hdir & Hd). pose proof H1 as H1'.
  unfold bgit_lock_write, load_lock, ibind, lift, get_world in H1. rewrite Hr, (proj2 (Z.ltb_ge _ _) Hfd) in H1.
  eapply write_loop_spec in H1 as (k & Hap & Hres); [|lia|done..].
  destruct (appended_holding _ _ _ _ _ _ _ _ _ _ _ HI Hid Hr Hh Hap) as [Hself _]. pose proof Hap as (N & _ & (n1 & I & _) & fs & L & A).
  assert (Hold1 : content (w_fs w1) p = Some old).
  { rewrite <- Hold. eapply content_but_inode; [split; [exact N|by exists n1]|done]. }
  assert (Hseen : seen p old new w w1).
  { eapply seen_log; [exact L|]. eapply Forall_impl; [exact A|]. intros f Hb. rewrite <- Hold. by eapply content_but_inode. }
  assert (HI1 : proc_inv nobody (w_fs w1) (w_fds w1) s l) by (destruct Hres as [(-> & _)|(-> & _)]; by apply (write_ok _ _ _ _ _ _ _ H1')).
  destruct Hres as [(-> & Hk & _)|(-> & _)]; cbn in H.
  - rewrite take_ge in Hself by done. eapply IH in H as (d' & HI' & Hh' & Hold' & Hs' & Hr'); [|done|exact Hself|by rewrite N|done].
    exists d'. do 3 (split; [done|]). split; [by eapply seen_trans|]. by rewrite app_assoc.
  - injection H as <- <-. eexists. do 2 (split; [done|]). split; [done|]. split; [done|]. by right.
Qed.

(** The key is set or taken out and the file replaced, or it stays as it was. *)
Lemma edit_replaces id data p key value multiple remove section subsection name s l w o w' old :
  bgit_config_split key = Some (section, subsection, name) ->
  proc_inv nobody (w_fs w) (w_fds w) s l -> id ∉ l -> ~ lock_name p -> content (w_fs w) p = Some old ->
  bgit_config_edit id data p key value multiple remove s w = (o, w') ->
  let new := concat (edit_lines section subsection name
    (setting_line name match value with Some v => bgit_config_quote v | None => [] end) multiple remove
    match data with Some data => file_lines (length data) data | None => [] end) in
  exists rc s' l', o = Ret (rc, s') /\ proc_inv nobody (w_fs w') (w_fds w') s' l' /\ seen p old new w w' /\
    ((rc = 0 /\ content (w_fs w') p = Some new) \/ (rc = -1 /\ content (w_fs w') p = Some old)).
Proof.
  intros Hsplit HI Hid Hp Hold H. cbv zeta. unfold bgit_config_edit in H. rewrite Hsplit in H. cbv zeta in H.
  set (lines := edit_lines _ _ _ _ _ _ _) in *. unfold ibind at 1 in H.
  destruct (bgit_lock_acquire id p s w) as [o1 w1] eqn:Ha.
  eapply acquire_leaves in Ha as (rc & s1 & l1 & -> & HI1 & Hold1 & Hs1 & Hrc); [|done..].
  destruct Hrc as [->|(-> & r & i & Hid1 & Hr & Hh & Hne)]; cbn in H.
  { injection H as <- <-. do 3 eexists. do 3 (split; [done|]). by right. }
  pose proof Hh as (_ & Elp & Hfd & _). unfold ibind at 1 in H. destruct (write_lines id lines s1 w1) as [o2 w2] eqn:Hw.
  eapply write_leaves in Hw as (d' & HI2 & Hh2 & Hold2 & Hs2 & Hres); [|done..].
  pose proof (seen_trans _ _ _ _ _ _ Hs1 Hs2) as Hs. destruct Hres as [(-> & ->)| ->]; cbn in H.
  - eapply commit_spec in H as (rc & s' & l' & -> & (HI' & _) & _ & Hc & fs & L & A); [|done..]. cbn in Hc, A. rewrite Hold2 in *.
    do 3 eexists. split; [done|]. split; [done|]. split; [|by destruct Hc as [(? & ? & _)|?]; [left|right]].
    eapply seen_trans; [exact Hs|]. exists fs. by split.
  - unfold ibind in H. destruct (bgit_lock_rollback id s1 w2) as [o3 w3] eqn:Hb.
    eapply rollback_cases in Hb as (s' & l' & -> & HI' & _ & _ & Hn & (fs & L & A) & _);
      [|exact Hr|by apply proc_inv_only|by eapply held_unshared]. injection H as <- <-.
    assert (Hnp : l_lock_path r <> Some p) by (rewrite Elp; intros [= E]; apply Hp; by exists p).
    do 3 eexists. split; [done|]. split; [done|]. split; [|right; split; [done|]; rewrite <- Hold2; by eapply content_but_name].
    eapply seen_trans; [exact Hs|]. eapply seen_log; [exact L|]. eapply Forall_impl; [exact A|]. intros f Hf. cbn. rewrite <- Hold2.
    by eapply content_but_name.
Qed.

(* ------------------------------------------------------------------ *)
(** ** Keys *)

Lemma find_last_app c a b : Forall (fun x => x <> c) b -> find_last c (a ++ c :: b) = Some (length a).
Proof.
  intros Hb. assert (Hnone : find_last c b = None).
  { induction Hb as [|x b Hx _ IH]; [done|]. cbn. by rewrite IH, (proj2 (Z.eqb_neq x c) Hx). }
  induction a as [|x a IH]; cbn; [by rewrite Hnone, Z.eqb_refl|]. by rewrite IH.
Qed.

(** A key's parts, joined as they are typed. *)
Definition config_key (section subsection name : list Z) : list Z :=
  section ++ str "." ++ match subsection with [] => [] | _ => subsection ++ str "." end ++ name.

Definition wf_config_key (section subsection name : list Z) : Prop :=
  section <> [] /\ len section <= 255 /\ wf_line (Header [] (map tolower section) subsection) /\ wf_key name /\ len name <= 255.

Section Key.
Context (section subsection name : list Z) (Hwf : wf_config_key section subsection name).

Lemma section_plain : Forall (fun c => c <> 46) section.
Proof using Hwf.
  destruct Hwf as (_ & _ & (_ & _ & _ & Hn & _) & _). apply (proj1 (Forall_map tolower _ _)) in Hn. eapply Forall_impl; [exact Hn|].
  intros c (_ & _ & H46 & _) ->. by apply H46.
Qed.

Lemma name_plain : Forall (fun c => c <> 46) name.
Proof using Hwf.
  destruct Hwf as (_ & _ & _ & (_ & Hk & _) & _). eapply Forall_impl; [exact Hk|]. intros c Hc. unfold key_byte, isalnum in Hc. simpl_bool. lia.
Qed.

Lemma key_target : wf_target (map tolower section) subsection.
Proof using Hwf. destruct Hwf as (_ & _ & (_ & _ & _ & Hn & Hs & _) & _). split; [done|]. split; [apply lower_idem|done]. Qed.

(** Where its dots are, and what stands between them. *)
Definition middle : list Z := match subsection with [] => [] | _ => str "." ++ subsection end.

Lemma key_shape : config_key section subsection name = section ++ middle ++ 46 :: name.
Proof using. clear. unfold config_key, middle. destruct subsection as [|c s]; [done|]. by rewrite <- !app_assoc. Qed.

Lemma key_dots : find_byte 46 (config_key section subsection name) = Some (length section) /\
  find_last 46 (config_key section subsection name) = Some (length (section ++ middle)).
Proof using Hwf.
  pose proof section_plain as Hs. pose proof name_plain as Hn. clear Hwf. rewrite key_shape. split.
  - unfold middle. destruct subsection as [|c s]; [by apply find_byte_app|].
    change (str "." ++ c :: s) with (46 :: c :: s). cbn [app]. by apply find_byte_app.
  - rewrite app_assoc. by apply find_last_app.
Qed.

Lemma key_len : len section + len subsection <= 509.
Proof using Hwf.
  destruct Hwf as (_ & _ & (_ & _ & _ & _ & _ & Hl) & _). unfold len in *. rewrite length_map in Hl. lia.
Qed.

Lemma split_key : bgit_config_split (config_key section subsection name) = Some (map tolower section, subsection, name).
Proof using Hwf.
  unfold bgit_config_split. destruct key_dots as [-> ->]. pose proof key_len as Hl. destruct Hwf as (Hne & Hs & _ & (Hnn & _) & Hn).
  rewrite key_shape. rewrite app_assoc. replace (S (length (section ++ middle))) with (length ((section ++ middle) ++ [46])) by (rewrite length_app; cbn; lia).
  change (46 :: name) with ([46] ++ name). rewrite !app_assoc, drop_app_length. rewrite <- !app_assoc, take_app_length.
  assert (Ez : (length section =? 0)%nat = false) by (by destruct section).
  assert (En : (len name =? 0) = false) by (destruct name; [done|]; apply Z.eqb_neq; rewrite len_cons; pose proof (len_nonneg l); lia).
  rewrite Ez, En. cbn [orb]. unfold len in *. rewrite (take_ge name) by lia. if_false. unfold middle. destruct subsection as [|c s].
  - by rewrite app_nil_r, Nat.eqb_refl.
  - change (str "." ++ c :: s) with (46 :: c :: s). rewrite length_app. cbn [length] in *.
    rewrite (proj2 (Nat.eqb_neq _ _)) by lia. replace (length section + S (S (length s)) - length section - 1)%nat with (length (c :: s)) by (cbn; lia).
    assert (Hsub : Z.of_nat (length (c :: s)) < 512) by (cbn [length]; lia). if_false. replace (S (length section)) with (length (section ++ [46])) by (rewrite length_app; cbn; lia).
    change ((46 :: c :: s) ++ [46] ++ name) with ([46] ++ (c :: s) ++ [46] ++ name). rewrite (app_assoc section), drop_app_length, take_app_length. done.
Qed.

Lemma fold_full : bgit_config_fold (config_key section subsection name) = full (map tolower section) subsection name.
Proof using Hwf.
  pose proof key_len as Hl. pose proof (proj1 key_dots) as D1. pose proof (proj2 key_dots) as D2. destruct Hwf as (_ & Hs & _ & _ & Hn).
  assert (Htake : take 4095 (config_key section subsection name) = config_key section subsection name).
  { apply take_ge. rewrite key_shape. unfold middle, len in *. rewrite !length_app. cbn [length]. destruct subsection; cbn [length app str] in *; lia. }
  unfold bgit_config_fold. rewrite Htake, D1, D2, key_shape, take_app_length, drop_app_length.
  replace (length (section ++ middle) - length section)%nat with (length middle) by (rewrite length_app; lia). rewrite take_app_length.
  rewrite (app_assoc section middle), drop_app_length. unfold full, prefix, middle. rewrite lower_idem. cbn [map].
  change (tolower 46) with 46. destruct subsection as [|c s]; [by rewrite <- app_assoc|]. by rewrite <- !app_assoc.
Qed.
End Key.

(** What a program reading the configuration gets. *)
Lemma get_all_values level m key : bgit_config_get_all (map (entry level) m) key =
  map (fun v => match v with Some v => v | None => [] end) (values m (bgit_config_fold key)).
Proof.
  unfold bgit_config_get_all. generalize (bgit_config_fold key). intros k. induction m as [|[k' v] m IH]; [done|].
  cbn [map all_loop]. rewrite values_cons. cbn [c_key c_value entry fst snd]. destruct (beq k' k); [cbn; by rewrite IH|exact IH].
Qed.

(** The entries for other keys. *)
Definition other_keys (cfg : bgit_config) (key : list Z) : bgit_config :=
  List.filter (fun e => negb (beq (c_key e) (bgit_config_fold key))) cfg.

Lemma apart_others level m key : other_keys (map (entry level) m) key = map (entry level) (others m (bgit_config_fold key)).
Proof.
  unfold other_keys, others. induction m as [|[k' v] m IH]; [done|]. cbn [map List.filter c_key entry fst].
  by destruct (beq k' _); cbn [negb map]; rewrite IH.
Qed.

(** The last value set is the one that counts. *)
Lemma get_last cfg key : bgit_config_get cfg key = last (bgit_config_get_all cfg key).
Proof.
  unfold bgit_config_get, bgit_config_find, bgit_config_get_all. generalize (bgit_config_fold key). intros k.
  set (val := fun e => match c_value e with Some v => v | None => [] end).
  assert (Hgo : forall found, match find_loop cfg k found with Some e => Some (val e) | None => None end =
    last (match found with Some e => [val e] | None => [] end ++ all_loop cfg k)).
  { induction cfg as [|e cfg IH]; intros found; cbn [find_loop all_loop].
    - rewrite app_nil_r. by destruct found.
    - rewrite IH. destruct (beq (c_key e) k); [|done]. fold (val e). by destruct found. }
  exact (Hgo None).
Qed.

(** What reading the edited lines gives, beside what reading the old ones gave. *)
Lemma edit_reads section subsection name v multiple remove doc : wf_config_key section subsection name -> Forall wf_line doc ->
  Forall (fun c => c <> 0) v -> len v <= 3900 ->
  Forall (fun kv => fst kv <> str "include.path") (meaning [] doc) ->
  bgit_config_fold (config_key section subsection name) <> str "include.path" ->
  let key := config_key section subsection name in
  let doc' := edit_doc (map tolower section) subsection name (quoted_text v) v multiple remove doc in
  forall getenv file1 file2 p level, file1 p = Some (doc_text doc) -> file2 p = Some (doc_text doc') ->
  exists cfg1 cfg2,
    bgit_config_read_file getenv file1 [] p level = Ret (0, cfg1, []) /\ bgit_config_read_file getenv file2 [] p level = Ret (0, cfg2, []) /\
    bgit_config_get_all cfg2 key =
      (if remove then [] else if multiple then bgit_config_get_all cfg1 key ++ [v]
       else match bgit_config_get_all cfg1 key with [] => [v] | all => map (fun _ => v) all end) /\
    other_keys cfg2 key = other_keys cfg1 key.
Proof.
  intros Hk Hdoc Hv Hl Hinc Hfull key doc' getenv file1 file2 p level F1 F2.
  pose proof (key_target _ _ _ Hk) as Ht. pose proof (fold_full _ _ _ Hk) as Ef. pose proof Hk as (_ & _ & Hh & Hn & Hnl).
  destruct (setting_doc name v Hn Hnl Hv Hl) as [_ Hnew]. pose proof Hh as (_ & _ & _ & Hwh).
  destruct (edit_doc_meaning _ _ _ Ht Hn (quoted_text v) v multiple remove doc Hdoc Hwh) as [M1 M2]. fold doc' in M1, M2.
  rewrite <- Ef in M1, M2. fold key in M1, M2, Hfull.
  assert (Hdoc' : Forall wf_line doc') by (by apply edit_doc_wf).
  assert (Hinc' : Forall (fun kv => fst kv <> str "include.path") (meaning [] doc')).
  { rewrite Forall_forall in *. intros kv Hkv. destruct (beq (fst kv) (bgit_config_fold key)) eqn:E.
    - unfold beq in E. apply bool_decide_eq_true in E. by rewrite E.
    - apply Hinc. enough (Hin : kv ∈ others (meaning [] doc) (bgit_config_fold key)).
      { apply list_elem_of_In in Hin. apply List.filter_In in Hin as [Hin _]. by apply list_elem_of_In. }
      rewrite <- M2. apply list_elem_of_In, List.filter_In. split; [by apply list_elem_of_In|by rewrite E]. }
  exists (map (entry level) (meaning [] doc)), (map (entry level) (meaning [] doc')).
  split; [by apply read_doc|]. split; [by apply read_doc|]. rewrite !apart_others, !get_all_values, M2. split; [|done]. rewrite M1.
  unfold edited. destruct remove; [done|]. destruct multiple; [by rewrite map_app|]. generalize (values (meaning [] doc) (bgit_config_fold key)).
  intros [|x xs]; cbn [map]; [reflexivity|]. f_equal. by rewrite !map_map.
Qed.

(** A key as it is edited in a file of such lines. *)
Lemma edit_file id p section subsection name v value multiple remove doc s l w o w' : wf_config_key section subsection name -> Forall wf_line doc ->
  Forall (fun c => c <> 0) v -> len v <= 3900 -> (remove = false -> value = Some v) -> (remove = true -> multiple = false) ->
  proc_inv nobody (w_fs w) (w_fds w) s l -> id ∉ l -> ~ lock_name p -> content (w_fs w) p = Some (doc_text doc) ->
  bgit_config_edit id (content (w_fs w) p) p (config_key section subsection name) value multiple remove s w = (o, w') ->
  let new := doc_text (edit_doc (map tolower section) subsection name (quoted_text v) v multiple remove doc) in
  exists rc s' l', o = Ret (rc, s') /\ proc_inv nobody (w_fs w') (w_fds w') s' l' /\ seen p (doc_text doc) new w w' /\
    ((rc = 0 /\ content (w_fs w') p = Some new) \/ (rc = -1 /\ content (w_fs w') p = Some (doc_text doc))).
Proof.
  intros Hk Hdoc Hv Hl Hval Hrem HI Hid Hp Hold H.
  eapply edit_replaces in H; [|by apply split_key|done..]. rewrite Hold in H. cbv zeta beta iota in H. rewrite lines_doc in H by done.
  pose proof Hk as (_ & _ & (_ & _ & _ & Hwh) & Hn & Hnl). replace multiple with (multiple && negb remove) in H.
  2:{ destruct remove; [by rewrite Hrem|by rewrite andb_true_r]. }
  rewrite (edit_lines_doc _ _ _ (key_target _ _ _ Hk) Hn (quoted_text v) v) in H; [exact H|done|done|].
  intros Hf. rewrite (Hval Hf). by apply setting_doc.
Qed.

(* ------------------------------------------------------------------ *)
(** ** Theorems *)

Lemma last_repeat (v : list Z) (x : list (list Z)) : last (map (fun _ => v) x) = match x with [] => None | _ => Some v end.
Proof.
  induction x as [|a x IH]; [done|]. cbn [map]. destruct x as [|b x]; [done|]. cbn [map] in *. rewrite last_cons_cons. exact IH.
Qed.

(** [C?] (roundtrip) Setting a key in a file of whole lines replaces the file at
    once by one that reads back, whatever the rest of it holds: every value the
    key had, or the one it had not, is now the new value, [--add] puts it after
    the old ones, a look at the key finds it, and no other key's values change;
    or the call fails and the file is as it was. *)
Theorem config_set_read id doc p section subsection name v multiple s l w o w' :
  let key := config_key section subsection name in
  wf_config_key section subsection name -> bgit_config_fold key <> str "include.path" ->
  Forall wf_line doc -> Forall (fun kv => fst kv <> str "include.path") (meaning [] doc) ->
  Forall (fun c => c <> 0) v -> len v <= 3900 ->
  proc_inv nobody (w_fs w) (w_fds w) s l -> id ∉ l -> ~ lock_name p -> content (w_fs w) p = Some (doc_text doc) ->
  bgit_config_set_file id (content (w_fs w) p) p key v multiple s w = (o, w') ->
  exists rc s' l' new, o = Ret (rc, s') /\ proc_inv nobody (w_fs w') (w_fds w') s' l' /\ seen p (doc_text doc) new w w' /\
    ((rc = 0 /\ content (w_fs w') p = Some new) \/ (rc = -1 /\ content (w_fs w') p = Some (doc_text doc))) /\
    forall getenv before after level, before p = Some (doc_text doc) -> after p = Some new ->
    exists cfg cfg', bgit_config_read_file getenv before [] p level = Ret (0, cfg, []) /\
      bgit_config_read_file getenv after [] p level = Ret (0, cfg', []) /\
      bgit_config_get_all cfg' key =
        (if multiple then bgit_config_get_all cfg key ++ [v]
         else match bgit_config_get_all cfg key with [] => [v] | all => map (fun _ => v) all end) /\
      bgit_config_get cfg' key = Some v /\ other_keys cfg' key = other_keys cfg key.
Proof.
  intros key Hk Hfull Hdoc Hinc Hv Hl HI Hid Hp Hold H.
  eapply (edit_file _ _ _ _ _ v) in H as (rc & s' & l' & -> & HI' & Hs & Hc); [|done..].
  do 4 eexists. split; [done|]. do 3 (split; [done|]). intros getenv before after level F1 F2.
  destruct (edit_reads section subsection name v multiple false doc Hk Hdoc Hv Hl Hinc Hfull getenv before after p level F1 F2)
    as (cfg & cfg' & R1 & R2 & Hall & Hap). cbv iota in Hall. fold key in Hall, Hap. exists cfg, cfg'.
  do 3 (split; [done|]). split; [|done]. rewrite get_last, Hall. destruct multiple; [by rewrite last_snoc|].
  destruct (bgit_config_get_all cfg key) as [|x xs]; [done|]. by rewrite last_repeat.
Qed.

(** [C?] (functional) Taking a key out of a file of whole lines leaves it without
    a value, and every other key with the values it had, in order; or the call
    fails and the file is as it was. *)
Theorem config_unset_read id doc p section subsection name s l w o w' :
  let key := config_key section subsection name in
  wf_config_key section subsection name -> bgit_config_fold key <> str "include.path" ->
  Forall wf_line doc -> Forall (fun kv => fst kv <> str "include.path") (meaning [] doc) ->
  proc_inv nobody (w_fs w) (w_fds w) s l -> id ∉ l -> ~ lock_name p -> content (w_fs w) p = Some (doc_text doc) ->
  bgit_config_unset_file id (content (w_fs w) p) p key s w = (o, w') ->
  exists rc s' l' new, o = Ret (rc, s') /\ proc_inv nobody (w_fs w') (w_fds w') s' l' /\ seen p (doc_text doc) new w w' /\
    ((rc = 0 /\ content (w_fs w') p = Some new) \/ (rc = -1 /\ content (w_fs w') p = Some (doc_text doc))) /\
    forall getenv before after level, before p = Some (doc_text doc) -> after p = Some new ->
    exists cfg cfg', bgit_config_read_file getenv before [] p level = Ret (0, cfg, []) /\
      bgit_config_read_file getenv after [] p level = Ret (0, cfg', []) /\
      bgit_config_get cfg' key = None /\ other_keys cfg' key = other_keys cfg key.
Proof.
  intros key Hk Hfull Hdoc Hinc HI Hid Hp Hold H.
  eapply (edit_file _ _ _ _ _ []) in H as (rc & s' & l' & -> & HI' & Hs & Hc); [|done..].
  do 4 eexists. split; [done|]. do 3 (split; [done|]). intros getenv before after level F1 F2.
  destruct (edit_reads section subsection name [] false true doc Hk Hdoc ltac:(constructor) ltac:(done) Hinc Hfull getenv before after p level F1 F2)
    as (cfg & cfg' & R1 & R2 & Hall & Hap). cbv iota in Hall. fold key in Hall, Hap. exists cfg, cfg'.
  do 2 (split; [done|]). split; [|done]. by rewrite get_last, Hall.
Qed.

Lemma load_file_ends getenv file cfg p level : exists r, load_file getenv file cfg p level = Ret r.
Proof.
  destruct p as [p|]; [|by eexists]. cbn [load_file]. unfold bgit_config_read_file. destruct (file p) as [data|]; [|by eexists].
  pose proof (config_parse_ends getenv file BGIT_CONFIG_INCLUDE_DEPTH cfg p (c_text data) level) as Hy.
  destruct (bgit_config_parse _ _ _ _ _ _ _) as [[[rc cfg'] said]|m|]; [by eexists|done..].
Qed.

(** [C?] (termination) Loading the configuration of all its files ends, whatever
    they hold and however they include one another, and the overrides come after
    all that was read, in order. *)
Theorem config_load_ends getenv file common_dir overrides :
  exists cfg said, bgit_config_load getenv file common_dir [] = Ret (cfg, said) /\
    bgit_config_load getenv file common_dir overrides =
      Ret (cfg ++ map (fun o => {| c_key := fst (override o); c_value := snd (override o); c_level := 3 |}) overrides, said).
Proof.
  assert (Hover : forall cfg, fold_left (fun cfg o => let '(key, value) := override o in bgit_config_add cfg key value 3) overrides cfg =
    cfg ++ map (fun o => {| c_key := fst (override o); c_value := snd (override o); c_level := 3 |}) overrides).
  { induction overrides as [|o overrides IH]; intros cfg; cbn [fold_left map]; [by rewrite app_nil_r|].
    destruct (override o) as [key value] eqn:E. rewrite IH. unfold bgit_config_add. by rewrite <- app_assoc. }
  unfold bgit_config_load.
  assert (E1 : exists r, match getenv (str "GIT_CONFIG_NOSYSTEM") with
    | None => load_file getenv file [] (Some (str "/etc/gitconfig")) 0 | Some _ => Ret ([], []) end = Ret r)
    by (destruct (getenv _); [by eexists|apply load_file_ends]).
  destruct E1 as [[cfg1 said1] ->]. cbn [obind].
  destruct (load_file_ends getenv file cfg1 (bgit_config_global_file getenv) 1) as [[cfg2 said2] ->]. cbn [obind].
  assert (E3 : exists r, match bgit_env getenv (str "GIT_CONFIG_GLOBAL"), bgit_env getenv (str "XDG_CONFIG_HOME"), bgit_env getenv (str "HOME") with
    | Some _, _, _ => Ret (cfg2, [])
    | None, Some xdg, _ => load_file getenv file cfg2 (Some (take 4095 (xdg ++ str "/git/config"))) 1
    | None, None, Some home => load_file getenv file cfg2 (Some (take 4095 (home ++ str "/.config/git/config"))) 1
    | None, None, None => Ret (cfg2, []) end = Ret r).
  { destruct (bgit_env _ (str "GIT_CONFIG_GLOBAL")); [by eexists|]. destruct (bgit_env _ (str "XDG_CONFIG_HOME")); [apply load_file_ends|].
    destruct (bgit_env _ (str "HOME")); [apply load_file_ends|by eexists]. }
  destruct E3 as [[cfg3 said3] ->]. cbn [obind].
  destruct (load_file_ends getenv file cfg3 (bgit_config_repo_file common_dir) 2) as [[cfg4 said4] ->]. cbn [obind].
  do 2 eexists. split; [done|]. by rewrite Hover.
Qed.

(* ------------------------------------------------------------------ *)
(** ** Concrete runs *)

Definition demo_doc : list cline :=
  [Comment [] 35 (str " settings"); Header [] (str "core") []; Setting [9] (str "bare") [32] (str " false") (str "false");
   Header [] (str "remote") (str "Origin"); Setting [9] (str "url") [32] (str " /a # here") (str "/a"); Alone [9] (str "prune") []].

Definition config_fs : fs :=
  {| names := {[ str "config" := 1%N ]}; inodes := {[ 1%N := {| i_dir := false; i_data := doc_text demo_doc; i_mtime := (0, 0) |} ]} |}.

(** The kernel interrupts a write and cuts one short. *)
Definition config_world : world :=
  {| w_fs := config_fs; w_fds := ∅; w_errno := 0; w_answers := [Proceed; Errno EINTR; Short 2]; w_temps := []; w_now := (0, 0);
     w_log := []; w_reports := [] |}.

(** Bytes checked one by one. *)
Lemma checked (P : Z -> Prop) (f : Z -> bool) s : (forall c, f c = true -> P c) -> forallb f s = true -> Forall P s.
Proof. intros Hf Hs. rewrite forallb_forall in Hs. apply Forall_forall. intros c Hc%list_elem_of_In%Hs. auto. Qed.

Ltac check_bytes :=
  match goal with
  | |- Forall (fun c => _ <> 10 /\ _ <> 0) _ => apply (checked _ (fun c => negb (c =? 10) && negb (c =? 0))); [intros ?; lia|reflexivity]
  | |- Forall (fun c => _ <> 0) _ => apply (checked _ (fun c => negb (c =? 0))); [intros ?; lia|reflexivity]
  | |- Forall name_byte _ =>
      apply (checked _ (fun c => negb (c =? 93) && negb (c =? 34) && negb (c =? 46) && negb (isspace c)));
        [unfold name_byte; intros c; destruct (isspace c); cbn [negb]; [lia|intros ?; simpl_bool; split_and!; lia || done]|reflexivity]
  | |- Forall sub_byte _ => apply (checked _ (fun c => negb (c =? 34) && negb (c =? 92))); [unfold sub_byte; intros ?; lia|reflexivity]
  | |- Forall key_byte _ => apply (checked _ (fun c => isalnum c || (c =? 45))); [done|reflexivity]
  | |- blanks _ => apply (checked _ isblank); [done|reflexivity]
  end.

Lemma demo_doc_wf : Forall wf_line demo_doc.
Proof.
  unfold demo_doc. repeat apply Forall_cons_2; [..|apply Forall_nil_2]; (split; [check_bytes|split; [done|]]);
    unfold wf_header, wf_key; repeat match goal with |- _ /\ _ => split end; try done; try check_bytes; try (intros rest; (by left) || by right); try (by left).
Qed.

Lemma demo_key_wf : wf_config_key (str "Remote") (str "Origin") (str "URL").
Proof.
  unfold wf_config_key, wf_line, wf_header, wf_key. repeat match goal with |- _ /\ _ => split end; try done; check_bytes.
Qed.

Definition demo_set : outcome (Z * locks) * world :=
  bgit_config_set_file 7 (content config_fs (str "config")) (str "config") (config_key (str "Remote") (str "Origin") (str "URL"))
    (str "/b;c ") false demo_locks config_world.

Lemma config_not_lock : ~ lock_name (str "config").
Proof. intros [q E]. apply (f_equal (@last Z)) in E. rewrite last_app in E. by vm_compute in E. Qed.

Lemma demo_no_include : Forall (fun kv => fst kv <> str "include.path") (meaning [] demo_doc).
Proof. cbn. repeat apply Forall_cons_2; [by intros E; vm_compute in E..|apply Forall_nil_2]. Qed.

Lemma config_set_read_witness :
  content (w_fs demo_set.2) (str "config") =
    Some (doc_text [Comment [] 35 (str " settings"); Header [] (str "core") []; Setting [9] (str "bare") [32] (str " false") (str "false");
      Header [] (str "remote") (str "Origin"); Setting [9] (str "URL") [32] ([32; 34] ++ str "/b;c " ++ [34]) (str "/b;c "); Alone [9] (str "prune") []]) /\
  exists text cfg, content (w_fs demo_set.2) (str "config") = Some text /\
    bgit_config_read_file (fun _ => None) (fun _ => Some text) [] (str "config") 2 = Ret (0, cfg, []) /\
    bgit_config_get cfg (str "remote.Origin.url") = Some (str "/b;c ") /\ bgit_config_get cfg (str "core.bare") = Some (str "false").
Proof.
  split; [by vm_compute|].
  destruct (config_set_read 7 demo_doc (str "config") (str "Remote") (str "Origin") (str "URL") (str "/b;c ") false demo_locks [] config_world _ _
    demo_key_wf ltac:(by intros E; vm_compute in E) demo_doc_wf demo_no_include ltac:(check_bytes) ltac:(done) (empty_proc_inv _)
    ltac:(by intros ?%elem_of_nil) config_not_lock eq_refl (surjective_pairing demo_set)) as (rc & s' & l' & new & E & _ & _ & Hc & Hread).
  assert (Hnew : content (w_fs demo_set.2) (str "config") = Some new).
  { destruct Hc as [[_ Hc]|[-> _]]; [exact Hc|]. by vm_compute in E. }
  destruct (Hread (fun _ => None) (fun _ => Some (doc_text demo_doc)) (fun _ => Some new) 2 eq_refl eq_refl) as (cfg & cfg' & R1 & R2 & _ & Hget & _).
  exists new, cfg'. split; [exact Hnew|]. split; [exact R2|]. split; [exact Hget|].
  vm_compute in Hnew. injection Hnew as <-. vm_compute in R2. injection R2 as <-. by vm_compute.
Defined.

Definition demo_unset : outcome (Z * locks) * world :=
  bgit_config_unset_file 7 (content config_fs (str "config")) (str "config") (config_key (str "Remote") (str "Origin") (str "URL")) demo_locks config_world.

Lemma config_unset_read_witness :
  exists text cfg, content (w_fs demo_unset.2) (str "config") = Some text /\
    bgit_config_read_file (fun _ => None) (fun _ => Some text) [] (str "config") 2 = Ret (0, cfg, []) /\
    bgit_config_get cfg (str "remote.Origin.url") = None /\ bgit_config_bool cfg (str "remote.Origin.prune") 0 = 1.
Proof.
  destruct (config_unset_read 7 demo_doc (str "config") (str "Remote") (str "Origin") (str "URL") demo_locks [] config_world _ _
    demo_key_wf ltac:(by intros E; vm_compute in E) demo_doc_wf demo_no_include (empty_proc_inv _)
    ltac:(by intros ?%elem_of_nil) config_not_lock eq_refl (surjective_pairing demo_unset)) as (rc & s' & l' & new & E & _ & _ & Hc & Hread).
  assert (Hnew : content (w_fs demo_unset.2) (str "config") = Some new).
  { destruct Hc as [[_ Hc]|[-> _]]; [exact Hc|]. by vm_compute in E. }
  destruct (Hread (fun _ => None) (fun _ => Some (doc_text demo_doc)) (fun _ => Some new) 2 eq_refl eq_refl) as (cfg & cfg' & R1 & R2 & Hget & _).
  exists new, cfg'. split; [exact Hnew|]. split; [exact R2|]. split; [exact Hget|].
  vm_compute in Hnew. injection Hnew as <-. vm_compute in R2. injection R2 as <-. by vm_compute.
Defined.

(** ** Files the editor spoils *)

(** What a file holds after a key is set in it. *)
Definition set_text (data key value : list Z) : list Z :=
  match bgit_config_split key with
  | Some (section, subsection, name) =>
      concat (edit_lines section subsection name (setting_line name (bgit_config_quote value)) false false (file_lines (length data) data))
  | None => data
  end.

Definition read_text (text : list Z) : outcome parsed := bgit_config_read_file (fun _ => None) (fun _ => Some text) [] (str "config") 2.

(** A last line without its newline runs into the setting put_byte after it. *)
Lemma set_joins_last_line : let text := set_text (str "[a]" ++ [10] ++ str "x = 1") (str "a.y") (str "2") in
  text = str "[a]" ++ [10] ++ str "x = 1" ++ [9] ++ str "y = 2" ++ [10] /\
  read_text text = Ret (0, [{| c_key := str "a.x"; c_value := Some (str "1 y = 2"); c_level := 2 |}], []).
Proof. by vm_compute. Qed.

(** A name no reader takes is written, and the file is then refused from there
    on. *)
Lemma set_bad_name : let text := set_text [] (str "a.b_c") (str "2") in
  text = str "[a]" ++ [10; 9] ++ str "b_c = 2" ++ [10] /\ read_text text = Ret (-1, [], [str "config"]).
Proof. by vm_compute. Qed.

(** A quote in a subsection is written as it is, and read as its end. *)
Lemma set_quoted_subsection : let text := set_text [] (str "a.x" ++ [34] ++ str "y.b") (str "2") in
  read_text text = Ret (-1, [], [str "config"]).
Proof. by vm_compute. Qed.

(** The rest of a value that goes on in the next line stays behind as a key. *)
Lemma set_keeps_continuation : let text := set_text (str "[a]" ++ [10] ++ str "x = 1" ++ [92; 10] ++ str "y" ++ [10]) (str "a.x") (str "2") in
  read_text text = Ret (0, [{| c_key := str "a.x"; c_value := Some (str "2"); c_level := 2 |};
    {| c_key := str "a.y"; c_value := None; c_level := 2 |}], []).
Proof. by vm_compute. Qed.

(** A setting on the line of its header is read, but not found to be replaced or
    taken out. *)
Lemma header_line_setting : let data := str "[a] x = 1" ++ [10] in
  read_text data = Ret (0, [{| c_key := str "a.x"; c_value := Some (str "1"); c_level := 2 |}], []) /\
  edit_lines (str "a") [] (str "x") [] false true (file_lines (length data) data) = [data].
Proof. by vm_compute. Qed.

(** An override's subsection is put_byte in lower case, so the key is not found. *)
Lemma override_subsection : let o := str "remote.Origin.url=x" in
  let cfg := bgit_config_add [] (fst (override o)) (snd (override o)) 3 in
  bgit_config_get cfg (str "remote.Origin.url") = None /\ bgit_config_get cfg (str "remote.origin.url") = Some (str "x").
Proof. by vm_compute. Qed.

(** What another process has put_byte in the file since it was read is lost. *)
Lemma set_loses_update : let data := doc_text demo_doc in let key := str "core.bare" in
  let now := set_text data (str "core.editor") (str "vi") in
  let w := {| w_fs := {| names := {[ str "config" := 1%N ]}; inodes := {[ 1%N := {| i_dir := false; i_data := now; i_mtime := (0, 0) |} ]} |};
     w_fds := ∅; w_errno := 0; w_answers := []; w_temps := []; w_now := (0, 0); w_log := []; w_reports := [] |} in
  let r := bgit_config_set_file 7 (Some data) (str "config") key (str "true") false demo_locks w in
  match r.1 with Ret (rc, _) => rc | _ => -2 end = 0 /\ content (w_fs r.2) (str "config") = Some (set_text data key (str "true")) /\
  now <> data.
Proof. split; [by vm_compute|]. split; [by vm_compute|]. intros E. by vm_compute in E. Qed.
