(* ===== verification/XLines.v ===== *)
(** * Lines of a file to compare (xdiff.c)

    Splitting a text into lines, the canonical form of a line when white space
    is overlooked, when two lines are the same, how often each line occurs in
    the other file, and the tests that leave lines out of the search. *)

From stdpp Require Import list.
From S2P Require Import Prelude CLib.

#[local] Open Scope Z_scope.

(* ------------------------------------------------------------------ *)
(** ** Arrays *)

(** [b[i] = v]. *)
Definition wr (b : list Z) (i v : Z) : outcome (list Z) :=
  if (0 <=? i) && (i <? len b) then Ret (<[Z.to_nat i := v]> b) else Fault.

(* ------------------------------------------------------------------ *)
(** ** A file of lines *)

(** A line is where it starts in the text and its bytes. *)
Record bgit_xdiff_file := {
  xf_text : list Z;
  xf_starts : list Z;
  xf_lines : list (list Z);
  xf_hashes : list Z;
  xf_missing_newline : bool;
  xf_binary : bool }.

Definition xf_n (file : bgit_xdiff_file) : Z := len (xf_lines file).

Definition line_hash (line : list Z) : Z := foldl (fun hash c => u64 (hash * 33 + c)) 5381 line.

Definition count_byte (c : Z) (text : list Z) : Z := len (filter (fun x => x = c) text).

(** The lines from the byte at [i] on, [line] being what there is of the one
    that starts at [start]; no more than [n]. *)
Fixpoint lines_loop (rest : list Z) (i start : Z) (line : list Z) (n : Z) : list (Z * list Z) :=
  match rest with
  | [] => if 0 <? n then [(start, line)] else []
  | c :: rest' =>
      if 0 <? n then
        if c =? 10 then (start, line) :: lines_loop rest' (i + 1) (i + 1) [] (n - 1)
        else lines_loop rest' (i + 1) start (line ++ [c]) n
      else []
  end.

Definition bgit_xdiff_load (text : list Z) : bgit_xdiff_file :=
  if bool_decide (0 ∈ take (Z.to_nat 8000) text) then
    {| xf_text := text; xf_starts := []; xf_lines := []; xf_hashes := []; xf_missing_newline := false; xf_binary := true |}
  else
    let missing := match last text with Some c => negb (c =? 10) | None => false end in
    let n := count_byte 10 text + (if missing then 1 else 0) in
    let found := lines_loop text 0 0 [] n in
    {| xf_text := text; xf_starts := map fst found; xf_lines := map snd found;
       xf_hashes := map (fun x => line_hash (snd x)) found; xf_missing_newline := missing; xf_binary := false |}.

Definition line_at (file : bgit_xdiff_file) (i : Z) : outcome (list Z) :=
  if (0 <=? i) && (i <? xf_n file) then Ret (nth (Z.to_nat i) (xf_lines file) []) else Fault.

(** Is line [i] of one file the same line as line [j] of the other? *)
Definition bgit_line_same (a : bgit_xdiff_file) (i : Z) (b : bgit_xdiff_file) (j : Z) : outcome bool :=
  let* ha := rd (xf_hashes a) i in
  let* hb := rd (xf_hashes b) j in
  let* la := line_at a i in
  let* lb := line_at b j in
  Ret ((ha =? hb) && (len la =? len lb) && beq la lb).

Definition bgit_lines_match (file : bgit_xdiff_file) (i j : Z) : outcome bool := bgit_line_same file i file j.

(* ------------------------------------------------------------------ *)
(** ** Overlooking white space *)

Definition BGIT_XDIFF_INDENT_HEURISTIC : Z := 1.
Definition BGIT_XDIFF_TRIM_TAIL : Z := 2.
Definition BGIT_XDIFF_IGNORE_WS : Z := 4.
Definition BGIT_XDIFF_IGNORE_WS_CHANGE : Z := 8.
Definition BGIT_XDIFF_IGNORE_WS_AT_EOL : Z := 16.
Definition BGIT_XDIFF_IGNORE_CR_AT_EOL : Z := 32.
Definition BGIT_XDIFF_WS_MASK : Z :=
  Z.lor (Z.lor BGIT_XDIFF_IGNORE_WS BGIT_XDIFF_IGNORE_WS_CHANGE) (Z.lor BGIT_XDIFF_IGNORE_WS_AT_EOL BGIT_XDIFF_IGNORE_CR_AT_EOL).
Definition BGIT_XDIFF_FUNCTION_CONTEXT : Z := 64.
Definition BGIT_XDIFF_IGNORE_BLANK_LINES : Z := 128.
Definition BGIT_XDIFF_MINIMAL : Z := 256.
Definition BGIT_XDIFF_PATIENCE : Z := 512.
Definition BGIT_XDIFF_HISTOGRAM : Z := 1024.

Definition flag (flags bit : Z) : bool := negb (Z.land flags bit =? 0).

(** Each run of white space down to one space, and none at the end. *)
Fixpoint ws_change_loop (line : list Z) : list Z :=
  match line with
  | [] => []
  | c :: line' =>
      if negb (isspace c) then c :: ws_change_loop line'
      else match line' with
           | [] => []
           | d :: _ => if isspace d then ws_change_loop line' else 32 :: ws_change_loop line'
           end
  end.

Fixpoint trim_space_rev (line : list Z) : list Z :=
  match line with
  | c :: line' => if isspace c then trim_space_rev line' else line
  | [] => []
  end.

Definition bgit_line_canonical (line : list Z) (complete : bool) (flags : Z) : list Z :=
  if flag flags BGIT_XDIFF_IGNORE_WS then filter (fun c => isspace c = false) line
  else if flag flags BGIT_XDIFF_IGNORE_WS_CHANGE then ws_change_loop line
  else if flag flags BGIT_XDIFF_IGNORE_WS_AT_EOL then rev (trim_space_rev (rev line))
  else match last line with
       | Some c => if complete && (c =? 13) then take (length line - 1) line else line
       | None => line
       end.

Fixpoint canonical_loop (lines : list (list Z)) (missing : bool) (flags : Z) : list Z :=
  match lines with
  | [] => []
  | line :: lines' =>
      let complete := negb (match lines' with [] => missing | _ => false end) in
      bgit_line_canonical line complete flags ++ [10] ++ canonical_loop lines' missing flags
  end.

Definition bgit_canonical_file (file : bgit_xdiff_file) (flags : Z) : option bgit_xdiff_file :=
  let out := bgit_xdiff_load (canonical_loop (xf_lines file) (xf_missing_newline file) flags) in
  if xf_binary out || negb (xf_n out =? xf_n file) then None else Some out.

(* ------------------------------------------------------------------ *)
(** ** Leaving lines out *)

Definition BGIT_MAX_EQLIMIT : Z := 1024.
Definition BGIT_KPDIS_RUN : Z := 4.
Definition BGIT_SIMSCAN_WINDOW : Z := 100.

Fixpoint bogo_loop (fuel : nat) (n i : Z) : Z :=
  match fuel with
  | O => i
  | S fuel' => if n >? 0 then bogo_loop fuel' (Z.shiftr n 2) (Z.shiftl i 1) else i
  end.

Definition bgit_bogosqrt (n : Z) : Z := bogo_loop 32 n 1.

(** A line of one of the two files, with what the comparison looks up. *)
Record bgit_line_ref := {
  lr_hash : Z;
  lr_line : list Z;
  lr_position : Z;
  lr_side : bool }.

Definition bgit_line_ref_cmp (a b : bgit_line_ref) : Z :=
  if negb (lr_hash a =? lr_hash b) then (if lr_hash a <? lr_hash b then -1 else 1)
  else
    let shorter := Z.to_nat (Z.min (len (lr_line a)) (len (lr_line b))) in
    let order := bcmp (take shorter (lr_line a)) (take shorter (lr_line b)) in
    if negb (order =? 0) then order
    else if len (lr_line a) >? len (lr_line b) then 1 else if len (lr_line a) <? len (lr_line b) then -1 else 0.

Definition bgit_line_ref_sort_cmp (a b : bgit_line_ref) : Z :=
  let order := bgit_line_ref_cmp a b in
  if negb (order =? 0) then order
  else if negb (Bool.eqb (lr_side a) (lr_side b)) then Z.b2z (lr_side a) - Z.b2z (lr_side b)
  else if lr_position a >? lr_position b then 1 else if lr_position a <? lr_position b then -1 else 0.

(** The lines of one side, by index, at positions from [position]. *)
Fixpoint side_refs (file : bgit_xdiff_file) (index : list Z) (position : Z) (side : bool) : outcome (list bgit_line_ref) :=
  match index with
  | [] => Ret []
  | i :: index' =>
      let* h := rd (xf_hashes file) i in
      let* l := line_at file i in
      let* rest := side_refs file index' (position + 1) side in
      Ret ({| lr_hash := h; lr_line := l; lr_position := position; lr_side := side |} :: rest)
  end.

(** The lines equal to the first of a sorted run, and the rest. *)
Fixpoint same_run (r : bgit_line_ref) (refs : list bgit_line_ref) : list bgit_line_ref * list bgit_line_ref :=
  match refs with
  | x :: refs' => if bgit_line_ref_cmp r x =? 0 then let '(run, rest) := same_run r refs' in (x :: run, rest) else ([], refs)
  | [] => ([], [])
  end.

Definition on_side (side : bool) (run : list bgit_line_ref) : list bgit_line_ref :=
  filter (fun r => lr_side r = side) run.

Fixpoint mark_counts (run : list bgit_line_ref) (in_a in_b : Z) (ca cb : list Z) : outcome (list Z * list Z) :=
  match run with
  | [] => Ret (ca, cb)
  | r :: run' =>
      if lr_side r then let* cb := wr cb (lr_position r) in_a in mark_counts run' in_a in_b ca cb
      else let* ca := wr ca (lr_position r) in_b in mark_counts run' in_a in_b ca cb
  end.

Fixpoint counts_loop (fuel : nat) (refs : list bgit_line_ref) (ca cb : list Z) : outcome (list Z * list Z) :=
  match fuel, refs with
  | S fuel', r :: refs' =>
      let '(run, rest) := same_run r refs' in
      let group := r :: run in
      let* c := mark_counts group (len (on_side false group)) (len (on_side true group)) ca cb in
      let '(ca, cb) := c in
      counts_loop fuel' rest ca cb
  | _, _ => Ret (ca, cb)
  end.

(** [seq] over integers, the index of a file that is all there. *)
Definition count_up (from n : Z) : list Z := map (fun k => from + Z.of_nat k) (seq 0 (Z.to_nat n)).

Definition zeros (n : Z) : list Z := replicate (Z.to_nat n) 0.

Definition bgit_match_counts `{Qsort} (a b : bgit_xdiff_file) (index_a index_b : list Z) : outcome (list Z * list Z) :=
  let* ra := side_refs a index_a 0 false in
  let* rb := side_refs b index_b 0 true in
  let refs := qsort bgit_line_ref_sort_cmp (ra ++ rb) in
  counts_loop (length refs) refs (zeros (len index_a + 1)) (zeros (len index_b + 1)).

(** How many of a file's lines start before [bytes]. *)
Fixpoint lines_within_loop (starts : list Z) (bytes n : Z) : Z :=
  match starts with
  | s :: starts' => if s <? bytes then lines_within_loop starts' bytes (n + 1) else n
  | [] => n
  end.

Definition bgit_lines_within (file : bgit_xdiff_file) (bytes : Z) : Z := lines_within_loop (xf_starts file) bytes 0.

(** The unmatched lines and the frequent ones next to [i], one way or the
    other, up to a line of few matches or the limit. *)
Fixpoint company_loop (fuel : nat) (dis : list Z) (i step limit r rdis rpdis : Z) : outcome (Z * Z) :=
  match fuel with
  | O => Ret (rdis, rpdis)
  | S fuel' =>
      if r <=? limit then
        let* x := rd dis (i + step * r) in
        if x =? 0 then company_loop fuel' dis i step limit (r + 1) (rdis + 1) rpdis
        else if x =? 2 then company_loop fuel' dis i step limit (r + 1) rdis (rpdis + 1)
        else Ret (rdis, rpdis)
      else Ret (rdis, rpdis)
  end.

Definition bgit_clean_mmatch (dis : list Z) (i s e : Z) : outcome bool :=
  let s := if i - s >? BGIT_SIMSCAN_WINDOW then i - BGIT_SIMSCAN_WINDOW else s in
  let e := if e - i >? BGIT_SIMSCAN_WINDOW then i + BGIT_SIMSCAN_WINDOW else e in
  let* above := company_loop 101 dis i (-1) (i - s) 1 0 1 in
  let '(rdis0, rpdis0) := above in
  if rdis0 =? 0 then Ret false
  else
    let* below := company_loop 101 dis i 1 (e - i) 1 0 1 in
    let '(rdis1, rpdis1) := below in
    if rdis1 =? 0 then Ret false
    else
      let rdis1 := rdis1 + rdis0 in
      let rpdis1 := rpdis1 + rpdis0 in
      Ret (rpdis1 * BGIT_KPDIS_RUN <? rpdis1 + rdis1).

(** What a count says of a line: no match, few, or so many as to mean little. *)
Definition dis_of (limit matches : Z) : Z := if matches =? 0 then 0 else if matches >=? limit then 2 else 1.

Definition eq_limit (n : Z) : Z :=
  let limit := bgit_bogosqrt n in
  if limit >? BGIT_MAX_EQLIMIT then BGIT_MAX_EQLIMIT else limit.

(** Is the line still worth searching for? *)
Definition searched (dis : list Z) (i s e : Z) : outcome bool :=
  let* d := rd dis i in
  if d =? 1 then Ret true
  else if d =? 2 then let* alone := bgit_clean_mmatch dis i s e in Ret (negb alone)
  else Ret false.

(* ------------------------------------------------------------------ *)
(** ** Arrays, as the loops use them *)

(** [b[i]] of an index in range. *)
Definition get (b : list Z) (i : Z) : Z := nth (Z.to_nat i) b 0.

Lemma rd_get b i : 0 <= i < len b -> rd b i = Ret (get b i).
Proof. apply rd_ok. Qed.

Lemma wr_ok b i v : 0 <= i < len b -> exists b', wr b i v = Ret b' /\ len b' = len b /\ get b' i = v /\
  forall k, 0 <= k -> k <> i -> get b' k = get b k.
Proof.
  intros Hi. unfold wr. replace ((0 <=? i) && (i <? len b)) with true by (symmetry; solve_true).
  eexists. split; [done|]. unfold get, len in *. rewrite length_insert. split; [done|].
  split.
  - apply nth_lookup_Some with (d := 0). apply list_lookup_insert_eq. lia.
  - intros k Hk Hne. rewrite !nth_lookup. rewrite list_lookup_insert_ne by lia. done.
Qed.

Lemma len_zeros n : 0 <= n -> len (zeros n) = n.
Proof. intros. unfold zeros. rewrite len_replicate. lia. Qed.

Lemma get_zeros n i : get (zeros n) i = 0.
Proof. unfold get, zeros. rewrite nth_lookup. destruct (_ !! _) eqn:E; [|done]. by apply lookup_replicate in E as [-> _]. Qed.

Lemma len_count_up from n : 0 <= n -> len (count_up from n) = n.
Proof. intros. unfold count_up, len. rewrite length_map, length_seq. lia. Qed.

Lemma get_count_up from n i : 0 <= i < n -> get (count_up from n) i = from + i.
Proof.
  intros Hi. unfold get, count_up. apply nth_lookup_Some. rewrite list_lookup_fmap, lookup_seq_lt by lia. cbn. f_equal. lia.
Qed.

(** An index into [n] lines. *)
Definition index_of (n : Z) (index : list Z) : Prop := Forall (fun i => 0 <= i < n) index.

Lemma count_up_index from n m : 0 <= from -> from + n <= m -> index_of m (count_up from n).
Proof.
  intros Hf Hm. unfold index_of, count_up. apply Forall_map, Forall_forall. intros k Hk. apply elem_of_seq in Hk. lia.
Qed.

Lemma get_index n index i : index_of n index -> 0 <= i < len index -> 0 <= get index i < n.
Proof.
  intros Hx Hi. unfold get. unfold index_of in Hx. rewrite Forall_lookup in Hx. apply (Hx (Z.to_nat i)).
  destruct (lookup_lt_is_Some_2 index (Z.to_nat i)) as [x E]; [unfold len in Hi; lia|]. rewrite E. f_equal. symmetry. by apply nth_lookup_Some.
Qed.

(* ------------------------------------------------------------------ *)
(** ** Files as they are loaded *)

(** Each line has its hash, and starts somewhere. *)
Definition wf_file (file : bgit_xdiff_file) : Prop :=
  xf_hashes file = map line_hash (xf_lines file) /\ len (xf_starts file) = len (xf_lines file).

Lemma load_wf text : wf_file (bgit_xdiff_load text).
Proof.
  unfold bgit_xdiff_load. case_if; [by split|]. split; cbn; [by rewrite map_map|]. unfold len. by rewrite !length_map.
Qed.

Definition line_of (file : bgit_xdiff_file) (i : Z) : list Z := nth (Z.to_nat i) (xf_lines file) [].

Lemma line_at_ok file i : 0 <= i < xf_n file -> line_at file i = Ret (line_of file i).
Proof. intros Hi. unfold line_at. by replace ((0 <=? i) && (i <? xf_n file)) with true by (symmetry; solve_true). Qed.

Lemma hash_at_ok file i : wf_file file -> 0 <= i < xf_n file -> rd (xf_hashes file) i = Ret (line_hash (line_of file i)).
Proof.
  intros [Hh _] Hi. unfold xf_n in Hi. rewrite rd_get; unfold get.
  - f_equal. rewrite Hh. rewrite (nth_indep _ 0 (line_hash [])) by (rewrite length_map; unfold len in Hi; lia). by rewrite map_nth.
  - rewrite Hh. unfold len in *. rewrite length_map. lia.
Qed.

(** Equal hashes and lengths decide nothing that the bytes do not. *)
Lemma line_same_ok a b i j : wf_file a -> wf_file b -> 0 <= i < xf_n a -> 0 <= j < xf_n b ->
  bgit_line_same a i b j = Ret (bool_decide (line_of a i = line_of b j)).
Proof.
  intros Ha Hb Hi Hj. unfold bgit_line_same. rewrite !hash_at_ok, !line_at_ok by done. cbn [obind]. f_equal.
  unfold beq. destruct (decide (line_of a i = line_of b j)) as [->|Hne].
  - rewrite !Z.eqb_refl. by rewrite !bool_decide_true.
  - rewrite !(bool_decide_false (line_of a i = line_of b j)) by done. by rewrite andb_false_r.
Qed.

(* ------------------------------------------------------------------ *)
(** ** Counting matches *)

Definition line_ref_ok (na nb : Z) (r : bgit_line_ref) : Prop := 0 <= lr_position r < (if lr_side r then nb else na).

Lemma side_refs_ok file index side : wf_file file -> index_of (xf_n file) index -> forall position,
  exists refs, side_refs file index position side = Ret refs /\
    map (fun r => lr_position r) refs = count_up position (len index) /\
    Forall (fun r => lr_side r = side /\ lr_hash r = line_hash (lr_line r) /\
                     lr_line r = line_of file (get index (lr_position r - position))) refs.
Proof.
  intros Hwf Hx. induction Hx as [|i index Hi _ IH]; intros position; [by exists []|].
  cbn [side_refs]. rewrite hash_at_ok, line_at_ok by done. cbn [obind]. destruct (IH (position + 1)) as (refs & -> & Hp & Hr).
  eexists. split; [done|]. split.
  - cbn [map]. rewrite Hp. cbn [lr_position]. unfold count_up. rewrite len_cons. pose proof (len_nonneg index).
    replace (Z.to_nat (1 + len index)) with (S (Z.to_nat (len index))) by lia. cbn [seq map]. f_equal; [lia|].
    rewrite <- seq_shift, map_map. apply map_ext. intros k. lia.
  - constructor; [cbn; by rewrite Z.sub_diag|]. apply Forall_forall. intros r Hin. rewrite Forall_forall in Hr.
    destruct (Hr r Hin) as (H1 & H2 & H3). split; [done|]. split; [done|]. rewrite H3. f_equal.
    assert (Hq : lr_position r ∈ count_up (position + 1) (len index)) by (rewrite <- Hp; by apply list_elem_of_fmap_2).
    unfold count_up in Hq. apply list_elem_of_fmap in Hq as (k & -> & Hk). unfold get.
    replace (Z.to_nat (position + 1 + Z.of_nat k - position)) with (S (Z.to_nat (position + 1 + Z.of_nat k - (position + 1)))) by lia. done.
Qed.

Lemma same_run_split r refs run rest : same_run r refs = (run, rest) -> refs = run ++ rest.
Proof.
  revert run rest. induction refs as [|x refs IH]; intros run rest E; cbn in E; [by injection E as <- <-|].
  destruct (bgit_line_ref_cmp r x =? 0); [|by injection E as <- <-]. destruct (same_run r refs) as [run' rest'].
  injection E as <- <-. cbn. by rewrite (IH run' rest').
Qed.

Lemma mark_counts_ok na nb in_a in_b run : Forall (line_ref_ok na nb) run -> forall ca cb, na <= len ca -> nb <= len cb ->
  exists ca' cb', mark_counts run in_a in_b ca cb = Ret (ca', cb') /\ len ca' = len ca /\ len cb' = len cb.
Proof.
  induction 1 as [|r run Hr _ IH]; intros ca cb Ha Hb; [by exists ca, cb|]. cbn [mark_counts]. unfold line_ref_ok in Hr.
  destruct (lr_side r).
  - destruct (wr_ok cb (lr_position r) in_a) as (cb' & -> & Hl & _); [lia|]. cbn [obind].
    destruct (IH ca cb' Ha ltac:(lia)) as (ca2 & cb2 & -> & ? & ?). exists ca2, cb2. split; [done|]. lia.
  - destruct (wr_ok ca (lr_position r) in_b) as (ca' & -> & Hl & _); [lia|]. cbn [obind].
    destruct (IH ca' cb ltac:(lia) Hb) as (ca2 & cb2 & -> & ? & ?). exists ca2, cb2. split; [done|]. lia.
Qed.

Lemma counts_loop_ok na nb fuel : forall refs ca cb, Forall (line_ref_ok na nb) refs -> na <= len ca -> nb <= len cb ->
  exists ca' cb', counts_loop fuel refs ca cb = Ret (ca', cb') /\ len ca' = len ca /\ len cb' = len cb.
Proof.
  induction fuel as [|fuel IH]; intros refs ca cb Hr Ha Hb; [by exists ca, cb|]. destruct refs as [|r refs]; [by exists ca, cb|].
  cbn [counts_loop]. destruct (same_run r refs) as [run rest] eqn:E. apply same_run_split in E as ->.
  inversion Hr as [|? ? Hr0 Hr1]; subst. apply Forall_app in Hr1 as [Hrun Hrest].
  edestruct (mark_counts_ok na nb) as (ca' & cb' & -> & H1 & H2); [by constructor|done..|]. cbn [obind].
  destruct (IH rest ca' cb' Hrest ltac:(lia) ltac:(lia)) as (ca2 & cb2 & -> & ? & ?). exists ca2, cb2. split; [done|]. lia.
Qed.

Lemma match_counts_ok `{Qsort} a b ia ib : wf_file a -> wf_file b -> index_of (xf_n a) ia -> index_of (xf_n b) ib ->
  exists ca cb, bgit_match_counts a b ia ib = Ret (ca, cb) /\ len ca = len ia + 1 /\ len cb = len ib + 1.
Proof.
  intros Ha Hb Hia Hib. unfold bgit_match_counts.
  destruct (side_refs_ok a ia false Ha Hia 0) as (ra & -> & Pa & Ra). destruct (side_refs_ok b ib true Hb Hib 0) as (rb & -> & Pb & Rb).
  cbn [obind]. pose proof (len_nonneg ia). pose proof (len_nonneg ib).
  assert (Hpos : forall side refs (n : Z), map (fun r => lr_position r) refs = count_up 0 n -> Forall (fun r => lr_side r = side /\ True) refs ->
    n = (if side then len ib else len ia) -> Forall (line_ref_ok (len ia) (len ib)) refs).
  { intros side refs n Hp Hs Hn. apply Forall_forall. intros r Hr. rewrite Forall_forall in Hs. destruct (Hs r Hr) as [Hside _].
    assert (Hq : lr_position r ∈ count_up 0 n) by (rewrite <- Hp; by apply list_elem_of_fmap_2).
    pose proof (count_up_index 0 n n ltac:(lia) ltac:(lia)) as Hx. unfold index_of in Hx. rewrite Forall_forall in Hx.
    specialize (Hx _ Hq). unfold line_ref_ok. rewrite Hside. subst n. done. }
  destruct (counts_loop_ok (len ia) (len ib) (length (qsort bgit_line_ref_sort_cmp (ra ++ rb)))
    (qsort bgit_line_ref_sort_cmp (ra ++ rb)) (zeros (len ia + 1)) (zeros (len ib + 1))) as (ca & cb & E & L1 & L2).
  - rewrite (qsort_perm _ bgit_line_ref_sort_cmp). apply Forall_app. split.
    + eapply (Hpos false); [exact Pa| |done]. eapply Forall_impl; [exact Ra|]. cbn. tauto.
    + eapply (Hpos true); [exact Pb| |done]. eapply Forall_impl; [exact Rb|]. cbn. tauto.
  - rewrite len_zeros; lia.
  - rewrite len_zeros; lia.
  - exists ca, cb. rewrite len_zeros in L1, L2 by lia. done.
Qed.

Lemma company_loop_ok dis i step limit fuel : forall r rdis rpdis,
  (forall k, r <= k <= limit -> 0 <= i + step * k < len dis) ->
  exists x, company_loop fuel dis i step limit r rdis rpdis = Ret x.
Proof.
  induction fuel as [|fuel IH]; intros r rdis rpdis Hr; cbn [company_loop]; [by eexists|]. case_if; [|by eexists].
  rewrite rd_get by (apply Hr; lia). cbn [obind]. case_if; [apply IH; intros; apply Hr; lia|].
  case_if; [apply IH; intros; apply Hr; lia|by eexists].
Qed.

Lemma searched_ok dis i s e : 0 <= s -> e < len dis -> s <= i <= e -> exists x, searched dis i s e = Ret x.
Proof.
  intros Hs He Hi. unfold searched. rewrite rd_get by lia. cbn [obind]. case_if; [by eexists|]. case_if; [|by eexists].
  unfold bgit_clean_mmatch. set (s' := if i - s >? BGIT_SIMSCAN_WINDOW then i - BGIT_SIMSCAN_WINDOW else s).
  set (e' := if e - i >? BGIT_SIMSCAN_WINDOW then i + BGIT_SIMSCAN_WINDOW else e).
  assert (s <= s' /\ e' <= e) as [Hs' He'] by (unfold s', e'; unfold BGIT_SIMSCAN_WINDOW; split; case_if; lia).
  destruct (company_loop_ok dis i (-1) (i - s') 101 1 0 1) as [[x1 x2] ->]; [intros; lia|]. cbn [obind].
  case_if; [by eexists|]. destruct (company_loop_ok dis i 1 (e' - i) 101 1 0 1) as [[y1 y2] ->]; [intros; lia|]. cbn [obind].
  case_if; by eexists.
Qed.
