(* ===== verification/Sweep.v ===== *)
(** * The two searches of Myers' algorithm (xdiff.c, [bgit_xd_find_split])

    What keeps the search for a split inside its box.  The search from the
    front and the one from the back are the same process seen from two corners:
    on a box of [N] lines by [M], after [e] steps the process holds for every
    diagonal [k] of its band how far it got, [f k], which may lie past the far
    walls.  The facts here are about any such process: it makes progress, and
    while it has not met the other one it crosses a wall only on diagonals the
    other one has not reached.  So where the two first meet is in the box, and
    they meet before [N + M] steps. *)

From S2P Require Import Prelude.
#[local] Open Scope Z_scope.

Set Default Proof Using "All".

Section Sweep.
Context (N M : Z) (HN : 1 <= N) (HM : 1 <= M).

(** The diagonal [k] of one process is [N - M - k] of the other. *)
Definition par (e k : Z) : Prop := (k - e) mod 2 = 0.

(** The band after [e] steps: one diagonal wider each way, but narrower at a
    side where that would leave the box. *)
Definition wider (lo hi : Z) : Z * Z :=
  ((if lo >? - M then lo - 1 else lo + 1), (if hi <? N then hi + 1 else hi - 1)).

Definition band_ok (e lo hi : Z) : Prop :=
  - M <= lo <= 0 /\ 0 <= hi <= N /\ par e lo /\ par e hi /\
  (lo = - e \/ lo <= - M + 1) /\ (hi = e \/ N - 1 <= hi) /\ - e <= lo /\ hi <= e.

Lemma band_start : band_ok 0 0 0.
Proof. unfold band_ok, par. change ((0 - 0) mod 2) with 0. lia. Qed.

Lemma band_wider e lo hi : band_ok e lo hi -> band_ok (e + 1) (fst (wider lo hi)) (snd (wider lo hi)).
Proof.
  unfold band_ok, wider, par. cbn [fst snd]. intros H.
  destruct (Z.gtb_spec lo (- M)), (Z.ltb_spec hi N); Z.div_mod_to_equations; lia.
Qed.

(** How far a process is after [e] steps. *)
Definition lower (e : Z) (f : Z -> Z) (lo hi : Z) : Prop :=
  forall k, lo <= k <= hi -> par e k ->
    0 <= f k /\ 0 <= f k - k /\ e <= 2 * f k - k /\ f k <= N + e /\ f k - k <= M + e.

(** One step: from the diagonal below or the one above, whichever is further,
    and then along a diagonal while in the box. *)
Definition moved_at (f : Z -> Z) (lo hi k v : Z) : Prop :=
  (lo <= k - 1 -> f (k - 1) + 1 <= v) /\ (k + 1 <= hi -> f (k + 1) <= v) /\
  ((v <= N /\ v - k <= M) \/ (lo <= k - 1 /\ v = f (k - 1) + 1) \/ (k + 1 <= hi /\ v = f (k + 1))).

Definition moved (e : Z) (f : Z -> Z) (lo hi : Z) (f' : Z -> Z) (lo' hi' : Z) : Prop :=
  forall k, lo' <= k <= hi' -> par (e + 1) k -> moved_at f lo hi k (f' k).

(** The further of the two diagonals next to [k], of which one may be outside
    the band, with a value that loses. *)
Lemma further e f lo hi k L R v : lower e f lo hi -> lo <= hi -> par e lo -> par (e + 1) k -> lo - 1 <= k <= hi + 1 ->
  (lo <= k - 1 -> L = f (k - 1)) -> (k - 1 < lo -> L < 0) -> (k + 1 <= hi -> R = f (k + 1)) -> (hi < k + 1 -> R < 0) ->
  let s := if L >=? R then L + 1 else R in
  s <= v -> v = s \/ (v <= N /\ v - k <= M) -> moved_at f lo hi k v /\ 0 <= s /\ 0 <= s - k.
Proof.
  intros Hl Hlh Hpl Hp Hk L1 L2 R1 R2 s Hs Hv. unfold par in *.
  assert (P1 : lo <= k - 1 -> 0 <= f (k - 1) /\ 0 <= f (k - 1) - (k - 1)).
  { intros. destruct (Hl (k - 1)) as (A & B & _); [lia|unfold par; Z.div_mod_to_equations; lia|by split]. }
  assert (P2 : k + 1 <= hi -> 0 <= f (k + 1) /\ 0 <= f (k + 1) - (k + 1)).
  { intros. destruct (Hl (k + 1)) as (A & B & _); [lia|unfold par; Z.div_mod_to_equations; lia|by split]. }
  unfold moved_at, s in *. destruct (Z_le_dec lo (k - 1)) as [a|a], (Z_le_dec (k + 1) hi) as [c|c];
    [..|exfalso; Z.div_mod_to_equations; lia]; destruct (Z.geb_spec L R); lia.
Qed.

(** The two have not met. *)
Definition unmet (e : Z) (f : Z -> Z) (lo hi : Z) (g : Z -> Z) (glo ghi : Z) : Prop :=
  forall k, lo <= k <= hi -> par e k -> glo <= N - M - k <= ghi -> f k + g (N - M - k) < N.

(** A far wall is reached only on diagonals the other has not. *)
Definition touching (e : Z) (f : Z -> Z) (lo hi : Z) : Prop :=
  forall k, lo <= k <= hi -> par e k -> (M <= f k - k -> k <= N - M - e - 1) /\ (N <= f k -> N - M + e + 1 <= k).

(** Past a wall, there is a diagonal nearer to the corner that touches it. *)
Definition escaping (e : Z) (f : Z -> Z) (lo hi : Z) : Prop :=
  forall k, lo <= k <= hi -> par e k ->
    (M + 1 <= f k - k -> exists k', k + 2 <= k' <= hi /\ par e k' /\ M <= f k' - k') /\
    (N + 1 <= f k -> exists k', lo <= k' <= k - 2 /\ par e k' /\ N <= f k').

Lemma wider_bounds lo hi : let '(lo', hi') := wider lo hi in lo - 1 <= lo' <= lo + 1 /\ hi - 1 <= hi' <= hi + 1.
Proof. unfold wider. destruct (lo >? - M), (hi <? N); lia. Qed.

Lemma lower_at e f lo hi lo' hi' k v : wider lo hi = (lo', hi') -> band_ok e lo hi -> lower e f lo hi ->
  lo' <= k <= hi' -> par (e + 1) k -> moved_at f lo hi k v ->
  0 <= v /\ 0 <= v - k /\ e + 1 <= 2 * v - k /\ v <= N + (e + 1) /\ v - k <= M + (e + 1).
Proof.
  intros Hw Hb Hl Hk Hp (H1 & H2 & H3). pose proof (wider_bounds lo hi) as B. rewrite Hw in B.
  unfold band_ok, par in *.
  assert (P1 : lo <= k - 1 -> 0 <= f (k - 1) /\ 0 <= f (k - 1) - (k - 1) /\ e <= 2 * f (k - 1) - (k - 1) /\ f (k - 1) <= N + e /\
    f (k - 1) - (k - 1) <= M + e) by (intros; apply Hl; [lia|unfold par; Z.div_mod_to_equations; lia]).
  assert (P2 : k + 1 <= hi -> 0 <= f (k + 1) /\ 0 <= f (k + 1) - (k + 1) /\ e <= 2 * f (k + 1) - (k + 1) /\ f (k + 1) <= N + e /\
    f (k + 1) - (k + 1) <= M + e) by (intros; apply Hl; [lia|unfold par; Z.div_mod_to_equations; lia]).
  destruct (Z_le_dec lo (k - 1)) as [L|L], (Z_le_dec (k + 1) hi) as [R|R]; [..|exfalso; Z.div_mod_to_equations; lia]; lia.
Qed.

Lemma lower_step e f lo hi f' lo' hi' : wider lo hi = (lo', hi') -> band_ok e lo hi ->
  lower e f lo hi -> moved e f lo hi f' lo' hi' -> lower (e + 1) f' lo' hi'.
Proof. intros Hw Hb Hl Hm k Hk Hp. eapply lower_at; eauto. Qed.

(** When the two have not met, a wall is touched only where the other is not. *)
Lemma unmet_touching e q f lo hi g glo ghi : band_ok e lo hi -> band_ok q glo ghi -> e - 1 <= q <= e -> par (e + q) (N - M) ->
  lower e f lo hi -> lower q g glo ghi -> unmet e f lo hi g glo ghi -> touching e f lo hi.
Proof.
  intros Hb Hg Hq Hpar Hf Hgl Hu k Hk Hp. destruct (Hf k Hk Hp) as (F1 & F2 & _ & F4 & F5).
  assert (Hpg : par q (N - M - k)) by (unfold par in *; Z.div_mod_to_equations; lia).
  assert (Hin : glo <= N - M - k <= ghi -> f k < N /\ f k - k < M).
  { intros Hi. specialize (Hu k Hk Hp Hi). destruct (Hgl _ Hi Hpg) as (G1 & G2 & _). lia. }
  unfold band_ok, par in *.
  destruct (Z_lt_dec (N - M - k) glo) as [L|L]; [|destruct (Z_lt_dec ghi (N - M - k)) as [R|R]];
    (split; intros H; [|]); first [exfalso; lia|idtac]; Z.div_mod_to_equations; lia.
Qed.

(** What is past a wall at the next step comes from what touched it before. *)
Lemma escaping_step e f lo hi f' lo' hi' : wider lo hi = (lo', hi') -> band_ok e lo hi ->
  touching e f lo hi -> escaping e f lo hi -> moved e f lo hi f' lo' hi' -> escaping (e + 1) f' lo' hi'.
Proof.
  intros Hw Hb Ht He Hm k Hk Hp. unfold wider in Hw. injection Hw as Elo Ehi.
  assert (Hnext : forall j, lo <= j <= hi -> par e j -> j + 1 <= N -> lo' <= j + 1 /\ (j + 1 <= N - 1 -> j + 1 <= hi')).
  { intros j Hj Hpj HjN. unfold band_ok, par in *. destruct (Z.gtb_spec lo (- M)), (Z.ltb_spec hi N); lia. }
  assert (Hprev : forall j, lo <= j <= hi -> par e j -> - M <= j - 1 -> j - 1 <= hi' /\ (- M + 1 <= j - 1 -> lo' <= j - 1)).
  { intros j Hj Hpj HjM. unfold band_ok, par in *. destruct (Z.gtb_spec lo (- M)), (Z.ltb_spec hi N); lia. }
  assert (Hup : forall j, lo <= j <= hi -> par e j -> M <= f j - j -> j + 1 <= hi' /\ par (e + 1) (j + 1) /\ M <= f' (j + 1) - (j + 1)).
  { intros j Hj Hpj Htj. destruct (Ht j Hj Hpj) as [T _]. specialize (T Htj). unfold band_ok in Hb.
    destruct (Hnext j Hj Hpj ltac:(lia)) as [L1 L2]. assert (Hpj' : par (e + 1) (j + 1)) by (unfold par in *; Z.div_mod_to_equations; lia).
    destruct (Hm (j + 1) ltac:(lia) Hpj') as (S1 & _). rewrite Z.add_simpl_r in S1. split; [lia|]. split; [done|]. lia. }
  assert (Hdown : forall j, lo <= j <= hi -> par e j -> N <= f j -> lo' <= j - 1 /\ par (e + 1) (j - 1) /\ N <= f' (j - 1)).
  { intros j Hj Hpj Htj. destruct (Ht j Hj Hpj) as [_ T]. specialize (T Htj). unfold band_ok in Hb.
    destruct (Hprev j Hj Hpj ltac:(lia)) as [L1 L2]. assert (Hpj' : par (e + 1) (j - 1)) by (unfold par in *; Z.div_mod_to_equations; lia).
    destruct (Hm (j - 1) ltac:(lia) Hpj') as (_ & S2 & _). rewrite Z.sub_simpl_r in S2. split; [lia|]. split; [done|]. lia. }
  assert (Hpm : par e (k - 1)) by (unfold par in *; Z.div_mod_to_equations; lia).
  assert (Hpp : par e (k + 1)) by (unfold par in *; Z.div_mod_to_equations; lia).
  assert (Hk1 : k - 1 <= hi /\ lo <= k + 1) by (destruct (Z.gtb_spec lo (- M)), (Z.ltb_spec hi N); lia).
  destruct (Hm k Hk Hp) as (_ & _ & [[B1 B2]|[[Hlo E]|[Hhi E]]]).
  - split; intros; lia.
  - split; intros H.
    + destruct (He (k - 1) ltac:(lia) Hpm) as [V _]. destruct (V ltac:(lia)) as (j & Hj & Hpj & Htj).
      destruct (Hup j ltac:(lia) Hpj Htj) as (U1 & U2 & U3). exists (j + 1). split; [lia|]. by split.
    + destruct (Hdown (k - 1) ltac:(lia) Hpm ltac:(lia)) as (U1 & U2 & U3). exists (k - 1 - 1). split; [lia|]. by split.
  - split; intros H.
    + destruct (Hup (k + 1) ltac:(lia) Hpp ltac:(lia)) as (U1 & U2 & U3). exists (k + 1 + 1). split; [lia|]. by split.
    + destruct (He (k + 1) ltac:(lia) Hpp) as [_ V]. destruct (V ltac:(lia)) as (j & Hj & Hpj & Htj).
      destruct (Hdown j ltac:(lia) Hpj Htj) as (U1 & U2 & U3). exists (j - 1). split; [lia|]. by split.
Qed.

(** On a diagonal the other has reached, the next step stays in the box. *)
Lemma meeting_in_box e q f lo hi lo' hi' glo ghi k v : wider lo hi = (lo', hi') ->
  touching e f lo hi -> escaping e f lo hi -> moved_at f lo hi k v ->
  band_ok q glo ghi -> q <= e + 1 -> lo' <= k <= hi' -> par (e + 1) k -> glo <= N - M - k <= ghi -> v <= N /\ v - k <= M.
Proof.
  intros Hw Ht He Hm Hg Hq Hk Hp Hin. pose proof (wider_bounds lo hi) as B. rewrite Hw in B. unfold band_ok in Hg.
  assert (Hpm : par e (k - 1)) by (unfold par in *; Z.div_mod_to_equations; lia).
  assert (Hpp : par e (k + 1)) by (unfold par in *; Z.div_mod_to_equations; lia).
  destruct Hm as (_ & _ & [?|[[Hlo E]|[Hhi E]]]); [done|..].
  - assert (f (k - 1) < N /\ f (k - 1) - (k - 1) <= M); [|lia]. destruct (Ht (k - 1) ltac:(lia) Hpm) as [_ T2]. split.
    + destruct (Z_lt_dec (f (k - 1)) N); [done|]. specialize (T2 ltac:(lia)). lia.
    + destruct (Z_le_dec (f (k - 1) - (k - 1)) M); [done|]. destruct (He (k - 1) ltac:(lia) Hpm) as [V _].
      destruct (V ltac:(lia)) as (j & Hj & Hpj & Htj). destruct (Ht j ltac:(lia) Hpj) as [T1 _]. specialize (T1 Htj). lia.
  - assert (f (k + 1) <= N /\ f (k + 1) - (k + 1) < M); [|lia]. destruct (Ht (k + 1) ltac:(lia) Hpp) as [T1 _]. split.
    + destruct (Z_le_dec (f (k + 1)) N); [done|]. destruct (He (k + 1) ltac:(lia) Hpp) as [_ V].
      destruct (V ltac:(lia)) as (j & Hj & Hpj & Htj). destruct (Ht j ltac:(lia) Hpj) as [_ T2]. specialize (T2 Htj). lia.
    + destruct (Z_lt_dec (f (k + 1) - (k + 1)) M); [done|]. specialize (T1 ltac:(lia)). lia.
Qed.

(** The two meet before there have been as many steps as lines. *)
Lemma must_meet e q f lo hi g glo ghi : band_ok e lo hi -> band_ok q glo ghi -> e - 1 <= q <= e -> par (e + q) (N - M) ->
  lower e f lo hi -> lower q g glo ghi -> unmet e f lo hi g glo ghi -> e < N + M.
Proof.
  intros Hb Hg Hq Hpar Hf Hgl Hu. destruct (Z_lt_dec e (N + M)) as [|Hge]; [done|exfalso].
  unfold band_ok in *. assert (Hp : par e lo) by tauto.
  assert (Hin : glo <= N - M - lo <= ghi) by (unfold par in *; Z.div_mod_to_equations; lia).
  assert (Hpg : par q (N - M - lo)) by (unfold par in *; Z.div_mod_to_equations; lia).
  specialize (Hu lo ltac:(lia) Hp Hin). destruct (Hf lo ltac:(lia) Hp) as (_ & _ & F & _).
  destruct (Hgl _ Hin Hpg) as (_ & _ & G & _). lia.
Qed.

Lemma escaping_start f : f 0 = 0 -> escaping 0 f 0 0 /\ touching 0 f 0 0 /\ lower 0 f 0 0.
Proof. intros E. split; [|split]; intros k Hk _; replace k with 0 by lia; rewrite E; lia. Qed.
End Sweep.
