(* ===== verification/Myers.v ===== *)
(** * Myers' algorithm (xdiff.c)

    Where a box of lines is split, with the heuristics that give up on an
    exact answer.  The theorem: the search always ends, touches nothing outside
    its arrays, and splits at a point of the box. *)

From stdpp Require Import list.
From S2P Require Import Prelude XLines Sweep.

#[local] Open Scope Z_scope.

Definition BGIT_SNAKE_CNT : Z := 20.
Definition BGIT_HEUR_MIN_COST : Z := 256.
Definition BGIT_MAX_COST_MIN : Z := 256.
Definition BGIT_K_HEUR : Z := 4.

(** What is being compared: the files, the lines still in the search, by
    index, and where the diagonal through the origin is in the arrays. *)
Record bgit_xd := {
  x_a : bgit_xdiff_file;
  x_b : bgit_xdiff_file;
  x_ia : list Z;
  x_ib : list Z;
  x_base : Z;
  x_mxcost : Z;
  x_algorithm : Z }.

Record bgit_xd_split := { spl_i1 : Z; spl_i2 : Z; min_lo : bool; min_hi : bool }.

Definition bgit_xd_eq (x : bgit_xd) (i j : Z) : outcome bool :=
  let* ii := rd (x_ia x) i in
  let* jj := rd (x_ib x) j in
  bgit_line_same (x_a x) ii (x_b x) jj.

(** Along a diagonal while the lines match: how far. *)
Fixpoint snake_forward (fuel : nat) (x : bgit_xd) (i1 i2 lim1 lim2 : Z) : outcome Z :=
  match fuel with
  | O => Ret i1
  | S fuel' =>
      if (i1 <? lim1) && (i2 <? lim2) then
        let* e := bgit_xd_eq x i1 i2 in
        if e then snake_forward fuel' x (i1 + 1) (i2 + 1) lim1 lim2 else Ret i1
      else Ret i1
  end.

Fixpoint snake_back (fuel : nat) (x : bgit_xd) (i1 i2 off1 off2 : Z) : outcome Z :=
  match fuel with
  | O => Ret i1
  | S fuel' =>
      if (i1 >? off1) && (i2 >? off2) then
        let* e := bgit_xd_eq x (i1 - 1) (i2 - 1) in
        if e then snake_back fuel' x (i1 - 1) (i2 - 1) off1 off2 else Ret i1
      else Ret i1
  end.

(** The box, and the search from the front over the diagonals of its band:
    where it meets the other search, if it does. *)
Record box := { off1 : Z; lim1 : Z; off2 : Z; lim2 : Z }.

Fixpoint forward_loop (fuel : nat) (x : bgit_xd) (b : box) (d fmin : Z) (odd : bool) (bmin bmax : Z)
    (vf vb : list Z) (got_snake : bool) : outcome (option (Z * Z) * list Z * bool) :=
  match fuel with
  | O => Ret (None, vf, got_snake)
  | S fuel' =>
      if d >=? fmin then
        let* l := rd vf (x_base x + (d - 1)) in
        let* r := rd vf (x_base x + (d + 1)) in
        let prev1 := if l >=? r then l + 1 else r in
        let* i1 := snake_forward (Z.to_nat (lim1 b - prev1)) x prev1 (prev1 - d) (lim1 b) (lim2 b) in
        let got_snake := if i1 - prev1 >? BGIT_SNAKE_CNT then true else got_snake in
        let* vf := wr vf (x_base x + d) i1 in
        let* met := if odd && (bmin <=? d) && (d <=? bmax) then let* v := rd vb (x_base x + d) in Ret (v <=? i1)
                    else Ret false in
        if met then Ret (Some (i1, i1 - d), vf, got_snake)
        else forward_loop fuel' x b (d - 2) fmin odd bmin bmax vf vb got_snake
      else Ret (None, vf, got_snake)
  end.

Fixpoint backward_loop (fuel : nat) (x : bgit_xd) (b : box) (d bmin : Z) (odd : bool) (fmin fmax : Z)
    (vf vb : list Z) (got_snake : bool) : outcome (option (Z * Z) * list Z * bool) :=
  match fuel with
  | O => Ret (None, vb, got_snake)
  | S fuel' =>
      if d >=? bmin then
        let* l := rd vb (x_base x + (d - 1)) in
        let* r := rd vb (x_base x + (d + 1)) in
        let prev1 := if l <? r then l else r - 1 in
        let* i1 := snake_back (Z.to_nat (prev1 - off1 b)) x prev1 (prev1 - d) (off1 b) (off2 b) in
        let got_snake := if prev1 - i1 >? BGIT_SNAKE_CNT then true else got_snake in
        let* vb := wr vb (x_base x + d) i1 in
        let* met := if negb odd && (fmin <=? d) && (d <=? fmax) then let* v := rd vf (x_base x + d) in Ret (i1 <=? v)
                    else Ret false in
        if met then Ret (Some (i1, i1 - d), vb, got_snake)
        else backward_loop fuel' x b (d - 2) bmin odd fmin fmax vf vb got_snake
      else Ret (None, vb, got_snake)
  end.

(** Do the [n] lines before a point match, or those from it on? *)
Fixpoint run_before (n : nat) (x : bgit_xd) (i1 i2 k : Z) : outcome bool :=
  match n with
  | O => Ret true
  | S n' => let* e := bgit_xd_eq x (i1 - k) (i2 - k) in if e then run_before n' x i1 i2 (k + 1) else Ret false
  end.

Fixpoint run_after (n : nat) (x : bgit_xd) (i1 i2 k : Z) : outcome bool :=
  match n with
  | O => Ret true
  | S n' => let* e := bgit_xd_eq x (i1 + k) (i2 + k) in if e then run_after n' x i1 i2 (k + 1) else Ret false
  end.

(** The most promising diagonal of the search from the front. *)
Fixpoint forward_best (fuel : nat) (x : bgit_xd) (b : box) (d fmin fmid ec : Z) (vf : list Z) (best : Z) (spl : Z * Z)
    : outcome (Z * (Z * Z)) :=
  match fuel with
  | O => Ret (best, spl)
  | S fuel' =>
      if d >=? fmin then
        let dd := if d >? fmid then d - fmid else fmid - d in
        let* i1 := rd vf (x_base x + d) in
        let i2 := i1 - d in
        let v := (i1 - off1 b) + (i2 - off2 b) - dd in
        let* better :=
          if (v >? BGIT_K_HEUR * ec) && (v >? best) && (off1 b + BGIT_SNAKE_CNT <=? i1) && (i1 <? lim1 b) &&
             (off2 b + BGIT_SNAKE_CNT <=? i2) && (i2 <? lim2 b)
          then run_before (Z.to_nat BGIT_SNAKE_CNT) x i1 i2 1 else Ret false in
        if better then forward_best fuel' x b (d - 2) fmin fmid ec vf v (i1, i2)
        else forward_best fuel' x b (d - 2) fmin fmid ec vf best spl
      else Ret (best, spl)
  end.

Fixpoint backward_best (fuel : nat) (x : bgit_xd) (b : box) (d bmin bmid ec : Z) (vb : list Z) (best : Z) (spl : Z * Z)
    : outcome (Z * (Z * Z)) :=
  match fuel with
  | O => Ret (best, spl)
  | S fuel' =>
      if d >=? bmin then
        let dd := if d >? bmid then d - bmid else bmid - d in
        let* i1 := rd vb (x_base x + d) in
        let i2 := i1 - d in
        let v := (lim1 b - i1) + (lim2 b - i2) - dd in
        let* better :=
          if (v >? BGIT_K_HEUR * ec) && (v >? best) && (off1 b <? i1) && (i1 <=? lim1 b - BGIT_SNAKE_CNT) &&
             (off2 b <? i2) && (i2 <=? lim2 b - BGIT_SNAKE_CNT)
          then run_after (Z.to_nat BGIT_SNAKE_CNT) x i1 i2 0 else Ret false in
        if better then backward_best fuel' x b (d - 2) bmin bmid ec vb v (i1, i2)
        else backward_best fuel' x b (d - 2) bmin bmid ec vb best spl
      else Ret (best, spl)
  end.

(** The furthest point of each search, brought back into the box. *)
Fixpoint forward_furthest (fuel : nat) (x : bgit_xd) (b : box) (d fmin : Z) (vf : list Z) (fbest fbest1 : Z) : outcome (Z * Z) :=
  match fuel with
  | O => Ret (fbest, fbest1)
  | S fuel' =>
      if d >=? fmin then
        let* v := rd vf (x_base x + d) in
        let i1 := if v <? lim1 b then v else lim1 b in
        let i2 := i1 - d in
        let '(i1, i2) := if lim2 b <? i2 then (lim2 b + d, lim2 b) else (i1, i2) in
        if fbest <? i1 + i2 then forward_furthest fuel' x b (d - 2) fmin vf (i1 + i2) i1
        else forward_furthest fuel' x b (d - 2) fmin vf fbest fbest1
      else Ret (fbest, fbest1)
  end.

Fixpoint backward_furthest (fuel : nat) (x : bgit_xd) (b : box) (d bmin : Z) (vb : list Z) (bbest bbest1 : Z) : outcome (Z * Z) :=
  match fuel with
  | O => Ret (bbest, bbest1)
  | S fuel' =>
      if d >=? bmin then
        let* v := rd vb (x_base x + d) in
        let i1 := if v >? off1 b then v else off1 b in
        let i2 := i1 - d in
        let '(i1, i2) := if i2 <? off2 b then (off2 b + d, off2 b) else (i1, i2) in
        if i1 + i2 <? bbest then backward_furthest fuel' x b (d - 2) bmin vb (i1 + i2) i1
        else backward_furthest fuel' x b (d - 2) bmin vb bbest bbest1
      else Ret (bbest, bbest1)
  end.

(** The first heuristic, then the ceiling on cost: a split, or go on. *)
Definition cut_short (x : bgit_xd) (b : box) (fmin fmax bmin bmax fmid bmid ec : Z) (vf vb : list Z) (got_snake : bool)
    : outcome (option bgit_xd_split) :=
  let* promising :=
    if got_snake && (ec >? BGIT_HEUR_MIN_COST) then
      let* f := forward_best (S (Z.to_nat (fmax - fmin))) x b fmax fmin fmid ec vf 0 (0, 0) in
      let '(best, (i1, i2)) := f in
      if best >? 0 then Ret (Some {| spl_i1 := i1; spl_i2 := i2; min_lo := true; min_hi := false |})
      else
        let* g := backward_best (S (Z.to_nat (bmax - bmin))) x b bmax bmin bmid ec vb 0 (0, 0) in
        let '(best, (i1, i2)) := g in
        if best >? 0 then Ret (Some {| spl_i1 := i1; spl_i2 := i2; min_lo := false; min_hi := true |}) else Ret None
    else Ret None in
  match promising with
  | Some spl => Ret (Some spl)
  | None =>
      if ec >=? x_mxcost x then
        let* f := forward_furthest (S (Z.to_nat (fmax - fmin))) x b fmax fmin vf (-1) (-1) in
        let '(fbest, fbest1) := f in
        let* g := backward_furthest (S (Z.to_nat (bmax - bmin))) x b bmax bmin vb LONG_MAX LONG_MAX in
        let '(bbest, bbest1) := g in
        if (lim1 b + lim2 b) - bbest <? fbest - (off1 b + off2 b) then
          Ret (Some {| spl_i1 := fbest1; spl_i2 := fbest - fbest1; min_lo := true; min_hi := false |})
        else Ret (Some {| spl_i1 := bbest1; spl_i2 := bbest - bbest1; min_lo := false; min_hi := true |})
      else Ret None
  end.

(** Widen a band, with a value that always loses outside it; or narrow it. *)
Definition widen (x : bgit_xd) (v : list Z) (lo hi dmin dmax loses : Z) : outcome (Z * Z * list Z) :=
  let* s := if lo >? dmin then let* v := wr v (x_base x + (lo - 1 - 1)) loses in Ret (lo - 1, v) else Ret (lo + 1, v) in
  let '(lo, v) := s in
  let* s := if hi <? dmax then let* v := wr v (x_base x + (hi + 1 + 1)) loses in Ret (hi + 1, v) else Ret (hi - 1, v) in
  let '(hi, v) := s in
  Ret (lo, hi, v).

Fixpoint split_loop (fuel : nat) (x : bgit_xd) (b : box) (need_min : bool) (ec fmin fmax bmin bmax : Z) (vf vb : list Z)
    : outcome (bgit_xd_split * list Z * list Z) :=
  match fuel with
  | O => Fault
  | S fuel' =>
      let dmin := off1 b - lim2 b in
      let dmax := lim1 b - off2 b in
      let fmid := off1 b - off2 b in
      let bmid := lim1 b - lim2 b in
      let odd := Z.odd (fmid - bmid) in
      let* w := widen x vf fmin fmax dmin dmax (-1) in
      let '(fmin, fmax, vf) := w in
      let* f := forward_loop (S (Z.to_nat (fmax - fmin))) x b fmax fmin odd bmin bmax vf vb false in
      let '(met, vf, got_snake) := f in
      match met with
      | Some (i1, i2) => Ret ({| spl_i1 := i1; spl_i2 := i2; min_lo := true; min_hi := true |}, vf, vb)
      | None =>
          let* w := widen x vb bmin bmax dmin dmax LONG_MAX in
          let '(bmin, bmax, vb) := w in
          let* g := backward_loop (S (Z.to_nat (bmax - bmin))) x b bmax bmin odd fmin fmax vf vb got_snake in
          let '(met, vb, got_snake) := g in
          match met with
          | Some (i1, i2) => Ret ({| spl_i1 := i1; spl_i2 := i2; min_lo := true; min_hi := true |}, vf, vb)
          | None =>
              let* spl := if need_min then Ret None else cut_short x b fmin fmax bmin bmax fmid bmid ec vf vb got_snake in
              match spl with
              | Some spl => Ret (spl, vf, vb)
              | None => split_loop fuel' x b need_min (ec + 1) fmin fmax bmin bmax vf vb
              end
          end
      end
  end.

Definition bgit_xd_find_split (x : bgit_xd) (b : box) (need_min : bool) (vf vb : list Z)
    : outcome (bgit_xd_split * list Z * list Z) :=
  let fmid := off1 b - off2 b in
  let bmid := lim1 b - lim2 b in
  let* vf := wr vf (x_base x + fmid) (off1 b) in
  let* vb := wr vb (x_base x + bmid) (lim1 b) in
  split_loop (Z.to_nat (lim1 b - off1 b + (lim2 b - off2 b))) x b need_min 1 fmid fmid bmid bmid vf vb.

(* ------------------------------------------------------------------ *)
(** ** The comparison in its arrays *)

Definition xd_ok (x : bgit_xd) : Prop :=
  wf_file (x_a x) /\ wf_file (x_b x) /\ index_of (xf_n (x_a x)) (x_ia x) /\ index_of (xf_n (x_b x)) (x_ib x) /\
  x_base x = len (x_ib x) + 1 /\ len (x_ia x) + len (x_ib x) < LONG_MAX.

(** A box with lines on both sides. *)
Definition box_ok (x : bgit_xd) (b : box) : Prop :=
  0 <= off1 b < lim1 b /\ lim1 b <= len (x_ia x) /\ 0 <= off2 b < lim2 b /\ lim2 b <= len (x_ib x).

Definition diags (x : bgit_xd) : Z := len (x_ia x) + len (x_ib x) + 3.

(** The line at a place of the search. *)
Definition la (x : bgit_xd) (i : Z) : list Z := line_of (x_a x) (get (x_ia x) i).
Definition lb (x : bgit_xd) (j : Z) : list Z := line_of (x_b x) (get (x_ib x) j).

Definition in_box (b : box) (i1 i2 : Z) : Prop := off1 b <= i1 <= lim1 b /\ off2 b <= i2 <= lim2 b.

(** [v[d]], where the arrays are indexed by diagonal. *)
Definition vat (x : bgit_xd) (v : list Z) (d : Z) : Z := get v (x_base x + d).

Lemma xd_eq_ok x i j : xd_ok x -> 0 <= i < len (x_ia x) -> 0 <= j < len (x_ib x) ->
  bgit_xd_eq x i j = Ret (bool_decide (la x i = lb x j)).
Proof.
  intros (Ha & Hb & Hia & Hib & _) Hi Hj. unfold bgit_xd_eq. rewrite !rd_get by done. cbn [obind].
  apply line_same_ok; try done; by apply get_index.
Qed.

Section Search.
Context (x : bgit_xd) (b : box) (Hx : xd_ok x) (Hbox : box_ok x b).

Lemma snake_forward_ok fuel : forall i1 i2, off1 b <= i1 -> off2 b <= i2 ->
  exists r, snake_forward fuel x i1 i2 (lim1 b) (lim2 b) = Ret r /\ i1 <= r /\
    (r = i1 \/ (r <= lim1 b /\ i2 + (r - i1) <= lim2 b)).
Proof.
  unfold box_ok in Hbox. induction fuel as [|fuel IH]; intros i1 i2 H1 H2; cbn [snake_forward]; [exists i1; split; [done|lia]|].
  destruct ((i1 <? lim1 b) && (i2 <? lim2 b)) eqn:E; [|exists i1; split; [done|lia]]. simpl_bool.
  rewrite xd_eq_ok by (done || lia). cbn [obind]. case_bool_decide; [|exists i1; split; [done|lia]].
  destruct (IH (i1 + 1) (i2 + 1)) as (r & -> & Hr & Hc); [lia..|]. exists r. split; [done|]. lia.
Qed.

Lemma snake_back_ok fuel : forall i1 i2, i1 <= lim1 b -> i2 <= lim2 b ->
  exists r, snake_back fuel x i1 i2 (off1 b) (off2 b) = Ret r /\ r <= i1 /\
    (r = i1 \/ (off1 b <= r /\ off2 b <= i2 + (r - i1))).
Proof.
  unfold box_ok in Hbox. induction fuel as [|fuel IH]; intros i1 i2 H1 H2; cbn [snake_back]; [exists i1; split; [done|lia]|].
  destruct ((i1 >? off1 b) && (i2 >? off2 b)) eqn:E; [|exists i1; split; [done|lia]]. simpl_bool.
  rewrite xd_eq_ok by (done || lia). cbn [obind]. case_bool_decide; [|exists i1; split; [done|lia]].
  destruct (IH (i1 - 1) (i2 - 1)) as (r & -> & Hr & Hc); [lia..|]. exists r. split; [done|]. lia.
Qed.

Lemma run_before_ok n : forall i1 i2 k, 1 <= k -> off1 b + (k + Z.of_nat n - 1) <= i1 <= lim1 b -> off2 b + (k + Z.of_nat n - 1) <= i2 <= lim2 b ->
  exists r, run_before n x i1 i2 k = Ret r.
Proof.
  unfold box_ok in Hbox. induction n as [|n IH]; intros i1 i2 k Hk H1 H2; cbn [run_before]; [by eexists|].
  rewrite xd_eq_ok by (done || lia). cbn [obind]. case_bool_decide; [apply IH; lia|by eexists].
Qed.

Lemma run_after_ok n : forall i1 i2 k, 0 <= k -> off1 b <= i1 <= lim1 b - (k + Z.of_nat n) -> off2 b <= i2 <= lim2 b - (k + Z.of_nat n) ->
  exists r, run_after n x i1 i2 k = Ret r.
Proof.
  unfold box_ok in Hbox. induction n as [|n IH]; intros i1 i2 k Hk H1 H2; cbn [run_after]; [by eexists|].
  rewrite xd_eq_ok by (done || lia). cbn [obind]. case_bool_decide; [apply IH; lia|by eexists].
Qed.

(** The diagonals of the box, and one more either way, are in the arrays. *)
Definition diag (d : Z) : Prop := off1 b - lim2 b <= d <= lim1 b - off2 b.

Lemma diag_in d (v : list Z) : diag d -> len v = diags x -> 0 <= x_base x + (d - 1) /\ x_base x + (d + 1) < len v.
Proof. unfold diag, diags, box_ok, xd_ok in *. destruct Hx as (_ & _ & _ & _ & -> & _). lia. Qed.

Lemma rd_diag (v : list Z) d d' : diag d -> len v = diags x -> d - 1 <= d' <= d + 1 -> rd v (x_base x + d') = Ret (vat x v d').
Proof. intros Hd Hv Hd'. destruct (diag_in d v Hd Hv). apply rd_get. lia. Qed.

Lemma wr_diag (v : list Z) d val : diag d -> len v = diags x -> exists v', wr v (x_base x + d) val = Ret v' /\ len v' = diags x /\
  vat x v' d = val /\ forall d', 0 <= x_base x + d' -> d' <> d -> vat x v' d' = vat x v d'.
Proof.
  intros Hd Hv. destruct (diag_in d v Hd Hv). destruct (wr_ok v (x_base x + d) val) as (v' & E & L & G & O); [lia|].
  exists v'. split; [done|]. split; [lia|]. split; [done|]. intros d' H1 H2. apply O; lia.
Qed.

(** Where the next step on a diagonal starts. *)
Definition fstart (v : list Z) (d : Z) : Z := let l := vat x v (d - 1) in let r := vat x v (d + 1) in if l >=? r then l + 1 else r.
Definition bstart (v : list Z) (d : Z) : Z := let l := vat x v (d - 1) in let r := vat x v (d + 1) in if l <? r then l else r - 1.

Definition fstep (v : list Z) (d w : Z) : Prop :=
  fstart v d <= w /\ (w = fstart v d \/ (w <= lim1 b /\ w - d <= lim2 b)).
Definition bstep (v : list Z) (d w : Z) : Prop :=
  w <= bstart v d /\ (w = bstart v d \/ (off1 b <= w /\ off2 b <= w - d)).

(** The diagonals a loop goes over: down from [d] by two. *)
Definition visits (lo d d' : Z) : Prop := lo <= d' <= d /\ (d - d') mod 2 = 0.

Lemma visits_next lo d d' : visits lo d d' <-> (d' = d /\ lo <= d) \/ visits lo (d - 2) d'.
Proof. unfold visits. split; [intros [H1 H2]; destruct (Z.eq_dec d' d); [left; lia|right; Z.div_mod_to_equations; lia]|intros [[-> ?]|[H1 H2]]; Z.div_mod_to_equations; lia]. Qed.

Lemma forward_loop_ok odd bmin bmax vb fmin : off1 b - lim2 b <= fmin -> len vb = diags x -> forall fuel d vf got, d <= lim1 b - off2 b -> len vf = diags x ->
  d - fmin < 2 * Z.of_nat fuel -> (forall d', visits fmin d d' -> off1 b <= fstart vf d' /\ off2 b <= fstart vf d' - d') ->
  exists met vf' got', forward_loop fuel x b d fmin odd bmin bmax vf vb got = Ret (met, vf', got') /\ len vf' = diags x /\
    (forall d', 0 <= x_base x + d' -> ~ visits fmin d d' -> vat x vf' d' = vat x vf d') /\
    match met with
    | None => forall d', visits fmin d d' -> fstep vf d' (vat x vf' d') /\ (odd = true -> bmin <= d' <= bmax -> vat x vf' d' < vat x vb d')
    | Some (i1, i2) => exists d', visits fmin d d' /\ i2 = i1 - d' /\ fstep vf d' i1 /\ odd = true /\ bmin <= d' <= bmax
    end.
Proof.
  intros Hfm Hvb. induction fuel as [|fuel IH]; intros d vf got Hd Hv Hf Hst; cbn [forward_loop].
  { exists None, vf, got. split; [done|]. split; [done|]. split; [done|]. intros d' [H _]. lia. }
  destruct (Z.geb_spec d fmin) as [Hge|Hlt].
  2:{ exists None, vf, got. split; [done|]. split; [done|]. split; [done|]. intros d' [H _]. lia. }
  assert (Hdg : diag d) by (unfold diag; lia). assert (Hvd : visits fmin d d) by (unfold visits; rewrite Z.sub_diag; split; [lia|done]).
  rewrite !(rd_diag vf d) by (done || lia). cbn [obind]. cbn zeta. destruct (Hst d Hvd) as [S1 S2].
  change (if vat x vf (d - 1) >=? vat x vf (d + 1) then vat x vf (d - 1) + 1 else vat x vf (d + 1)) with (fstart vf d).
  destruct (snake_forward_ok (Z.to_nat (lim1 b - fstart vf d)) (fstart vf d) (fstart vf d - d) S1 S2) as (i1 & E1 & H1 & H2).
  rewrite E1. cbn [obind]. clear E1.
  destruct (wr_diag vf d i1 Hdg Hv) as (vf1 & -> & L1 & G1 & O1). cbn [obind].
  set (got1 := if _ >? BGIT_SNAKE_CNT then true else got).
  assert (Hstep : fstep vf d i1) by (unfold fstep; lia).
  assert (Hmet : exists m, (if odd && (bmin <=? d) && (d <=? bmax) then let* v := rd vb (x_base x + d) in Ret (v <=? i1) else Ret false) = Ret m /\
    (m = true -> odd = true /\ bmin <= d <= bmax) /\ (m = false -> odd = true -> bmin <= d <= bmax -> i1 < vat x vb d)).
  { destruct (odd && (bmin <=? d) && (d <=? bmax)) eqn:E.
    - rewrite (rd_diag vb d) by (done || lia). cbn [obind]. eexists. split; [done|]. simpl_bool. split; [by split|]. intros; simpl_bool; lia.
    - eexists. split; [done|]. split; [done|]. intros _ -> Hr. cbn in E. exfalso. apply andb_false_iff in E as [E|E]; simpl_bool; lia. }
  destruct Hmet as (m & -> & Hm1 & Hm2). cbn [obind]. destruct m.
  - exists (Some (i1, i1 - d)), vf1, got1. split; [done|]. split; [done|]. split.
    + intros d' Hp Hnv. apply O1; [done|]. intros ->. done.
    + exists d. split; [done|]. split; [done|]. split; [done|]. by apply Hm1.
  - assert (Hsame : forall d', visits fmin (d - 2) d' -> fstart vf1 d' = fstart vf d').
    { intros d' [Hr Hpar]. assert (diag d') by (unfold diag; lia). destruct (diag_in d' vf1 ltac:(done) L1). unfold fstart.
      rewrite !O1 by (Z.div_mod_to_equations; lia). done. }
    destruct (IH (d - 2) vf1 got1) as (met & vf' & got' & -> & L2 & O2 & Hres); [lia|done|lia|intros d' Hv'; rewrite Hsame by done; apply Hst; by apply visits_next; right|].
    exists met, vf', got'. split; [done|]. split; [done|]. split.
    + intros d' Hp Hnv. rewrite O2, O1; [done|done|intros ->; done|done|]. intros Hv'. apply Hnv. by apply visits_next; right.
    + destruct met as [[j1 j2]|].
      * destruct Hres as (d' & V & E & S & R). exists d'. split; [by apply visits_next; right|]. split; [done|]. split; [|done].
        unfold fstep in *. by rewrite <- Hsame.
      * intros d' V. apply visits_next in V as [[-> _]|V].
        -- rewrite O2; [|destruct (diag_in d vf Hdg Hv); lia|unfold visits; lia]. rewrite G1. split; [done|]. by apply Hm2.
        -- destruct (Hres d' V) as [S R]. split; [|done]. unfold fstep in *. by rewrite <- Hsame.
Qed.

Lemma backward_loop_ok odd fmin fmax vf bmin : off1 b - lim2 b <= bmin -> len vf = diags x -> forall fuel d vb got, d <= lim1 b - off2 b -> len vb = diags x ->
  d - bmin < 2 * Z.of_nat fuel -> (forall d', visits bmin d d' -> bstart vb d' <= lim1 b /\ bstart vb d' - d' <= lim2 b) ->
  exists met vb' got', backward_loop fuel x b d bmin odd fmin fmax vf vb got = Ret (met, vb', got') /\ len vb' = diags x /\
    (forall d', 0 <= x_base x + d' -> ~ visits bmin d d' -> vat x vb' d' = vat x vb d') /\
    match met with
    | None => forall d', visits bmin d d' -> bstep vb d' (vat x vb' d') /\ (odd = false -> fmin <= d' <= fmax -> vat x vf d' < vat x vb' d')
    | Some (i1, i2) => exists d', visits bmin d d' /\ i2 = i1 - d' /\ bstep vb d' i1 /\ odd = false /\ fmin <= d' <= fmax
    end.
Proof.
  intros Hbm Hvf. induction fuel as [|fuel IH]; intros d vb got Hd Hv Hf Hst; cbn [backward_loop].
  { exists None, vb, got. split; [done|]. split; [done|]. split; [done|]. intros d' [H _]. lia. }
  destruct (Z.geb_spec d bmin) as [Hge|Hlt].
  2:{ exists None, vb, got. split; [done|]. split; [done|]. split; [done|]. intros d' [H _]. lia. }
  assert (Hdg : diag d) by (unfold diag; lia). assert (Hvd : visits bmin d d) by (unfold visits; rewrite Z.sub_diag; split; [lia|done]).
  rewrite !(rd_diag vb d) by (done || lia). cbn [obind]. cbn zeta. destruct (Hst d Hvd) as [S1 S2].
  change (if vat x vb (d - 1) <? vat x vb (d + 1) then vat x vb (d - 1) else vat x vb (d + 1) - 1) with (bstart vb d).
  destruct (snake_back_ok (Z.to_nat (bstart vb d - off1 b)) (bstart vb d) (bstart vb d - d) S1 S2) as (i1 & E1 & H1 & H2).
  rewrite E1. cbn [obind]. clear E1.
  destruct (wr_diag vb d i1 Hdg Hv) as (vb1 & -> & L1 & G1 & O1). cbn [obind].
  set (got1 := if _ >? BGIT_SNAKE_CNT then true else got).
  assert (Hstep : bstep vb d i1) by (unfold bstep; lia).
  assert (Hmet : exists m, (if negb odd && (fmin <=? d) && (d <=? fmax) then let* v := rd vf (x_base x + d) in Ret (i1 <=? v) else Ret false) = Ret m /\
    (m = true -> odd = false /\ fmin <= d <= fmax) /\ (m = false -> odd = false -> fmin <= d <= fmax -> vat x vf d < i1)).
  { destruct (negb odd && (fmin <=? d) && (d <=? fmax)) eqn:E.
    - rewrite (rd_diag vf d) by (done || lia). cbn [obind]. eexists. split; [done|]. simpl_bool. split; [by split|]. intros; simpl_bool; lia.
    - eexists. split; [done|]. split; [done|]. intros _ -> Hr. cbn in E. exfalso. apply andb_false_iff in E as [E|E]; simpl_bool; lia. }
  destruct Hmet as (m & -> & Hm1 & Hm2). cbn [obind]. destruct m.
  - exists (Some (i1, i1 - d)), vb1, got1. split; [done|]. split; [done|]. split.
    + intros d' Hp Hnv. apply O1; [done|]. intros ->. done.
    + exists d. split; [done|]. split; [done|]. split; [done|]. by apply Hm1.
  - assert (Hsame : forall d', visits bmin (d - 2) d' -> bstart vb1 d' = bstart vb d').
    { intros d' [Hr Hpar]. assert (diag d') by (unfold diag; lia). destruct (diag_in d' vb1 ltac:(done) L1). unfold bstart.
      rewrite !O1 by (Z.div_mod_to_equations; lia). done. }
    destruct (IH (d - 2) vb1 got1) as (met & vb' & got' & -> & L2 & O2 & Hres); [lia|done|lia|intros d' Hv'; rewrite Hsame by done; apply Hst; by apply visits_next; right|].
    exists met, vb', got'. split; [done|]. split; [done|]. split.
    + intros d' Hp Hnv. rewrite O2, O1; [done|done|intros ->; done|done|]. intros Hv'. apply Hnv. by apply visits_next; right.
    + destruct met as [[j1 j2]|].
      * destruct Hres as (d' & V & E & S & R). exists d'. split; [by apply visits_next; right|]. split; [done|]. split; [|done].
        unfold bstep in *. by rewrite <- Hsame.
      * intros d' V. apply visits_next in V as [[-> _]|V].
        -- rewrite O2; [|destruct (diag_in d vb Hdg Hv); lia|unfold visits; lia]. rewrite G1. split; [done|]. by apply Hm2.
        -- destruct (Hres d' V) as [S R]. split; [|done]. unfold bstep in *. by rewrite <- Hsame.
Qed.

(** The heuristics only ever take a point of the box. *)
Lemma forward_best_ok fmid ec vf fmin : off1 b - lim2 b <= fmin -> len vf = diags x -> forall fuel d best spl, d <= lim1 b - off2 b ->
  exists best' spl', forward_best fuel x b d fmin fmid ec vf best spl = Ret (best', spl') /\
    (best' = best /\ spl' = spl \/ in_box b (fst spl') (snd spl')).
Proof.
  intros Hfm Hv. induction fuel as [|fuel IH]; intros d best spl Hd; cbn [forward_best]; [exists best, spl; auto|].
  destruct (Z.geb_spec d fmin) as [Hge|]; [|exists best, spl; auto]. assert (Hdg : diag d) by (unfold diag; lia).
  rewrite (rd_diag vf d) by (done || lia). cbn [obind]. cbn zeta. set (i1 := vat x vf d). set (v := i1 - off1 b + _ - _).
  destruct (_ && _) eqn:E; simpl_bool.
  - unfold BGIT_SNAKE_CNT in *. destruct (run_before_ok (Z.to_nat 20) i1 (i1 - d) 1) as ([] & ->); [lia..| |]; cbn [obind].
    + destruct (IH (d - 2) v (i1, i1 - d)) as (best' & spl' & -> & [[-> ->]|Hin]); [lia| |]; eexists _, _; (split; [done|]); right; [|done].
      unfold in_box. cbn [fst snd]. lia.
    + apply IH. lia.
  - cbn [obind]. apply IH. lia.
Qed.

Lemma backward_best_ok bmid ec vb bmin : off1 b - lim2 b <= bmin -> len vb = diags x -> forall fuel d best spl, d <= lim1 b - off2 b ->
  exists best' spl', backward_best fuel x b d bmin bmid ec vb best spl = Ret (best', spl') /\
    (best' = best /\ spl' = spl \/ in_box b (fst spl') (snd spl')).
Proof.
  intros Hbm Hv. induction fuel as [|fuel IH]; intros d best spl Hd; cbn [backward_best]; [exists best, spl; auto|].
  destruct (Z.geb_spec d bmin) as [Hge|]; [|exists best, spl; auto]. assert (Hdg : diag d) by (unfold diag; lia).
  rewrite (rd_diag vb d) by (done || lia). cbn [obind]. cbn zeta. set (i1 := vat x vb d). set (v := lim1 b - i1 + _ - _).
  destruct (_ && _) eqn:E; simpl_bool.
  - unfold BGIT_SNAKE_CNT in *. destruct (run_after_ok (Z.to_nat 20) i1 (i1 - d) 0) as ([] & ->); [lia..| |]; cbn [obind].
    + destruct (IH (d - 2) v (i1, i1 - d)) as (best' & spl' & -> & [[-> ->]|Hin]); [lia| |]; eexists _, _; (split; [done|]); right; [|done].
      unfold in_box. cbn [fst snd]. lia.
    + apply IH. lia.
  - cbn [obind]. apply IH. lia.
Qed.

Lemma forward_furthest_ok vf fmin : off1 b - lim2 b <= fmin -> len vf = diags x -> forall fuel d fb fb1, d <= lim1 b - off2 b ->
  (forall d', visits fmin d d' -> off1 b <= vat x vf d' /\ off2 b <= vat x vf d' - d') ->
  in_box b fb1 (fb - fb1) \/ (fb = -1 /\ fmin <= d /\ (0 < fuel)%nat) ->
  exists fb' fb1', forward_furthest fuel x b d fmin vf fb fb1 = Ret (fb', fb1') /\ in_box b fb1' (fb' - fb1').
Proof.
  intros Hfm Hv. induction fuel as [|fuel IH]; intros d fb fb1 Hd Hl Hin; cbn [forward_furthest].
  { exists fb, fb1. split; [done|]. destruct Hin as [?|(_ & _ & ?)]; [done|lia]. }
  destruct (Z.geb_spec d fmin) as [Hge|]; [|exists fb, fb1; split; [done|]; destruct Hin as [?|(_ & ? & _)]; [done|lia]].
  assert (Hdg : diag d) by (unfold diag; lia). assert (Hvd : visits fmin d d) by (unfold visits; rewrite Z.sub_diag; split; [lia|done]).
  rewrite (rd_diag vf d) by (done || lia). cbn [obind]. cbn zeta. destruct (Hl d Hvd) as [L1 L2].
  assert (Hl' : forall d', visits fmin (d - 2) d' -> off1 b <= vat x vf d' /\ off2 b <= vat x vf d' - d')
    by (intros; apply Hl, visits_next; by right).
  set (i1 := if _ <? lim1 b then _ else _). assert (Hi : off1 b <= i1 <= lim1 b /\ off2 b <= i1 - d)
    by (unfold diag, box_ok in *; unfold i1; case_if; lia).
  set (p := if lim2 b <? i1 - d then _ else _). assert (Hp : in_box b (fst p) (snd p)).
  { unfold in_box, p, diag, box_ok in *. case_if; cbn [fst snd]; lia. }
  destruct p as [j1 j2]. cbn [fst snd] in Hp. unfold in_box, box_ok in *.
  destruct (Z.ltb_spec fb (j1 + j2)); apply IH; try done; try lia; left; lia.
Qed.

Lemma backward_furthest_ok vb bmin : off1 b - lim2 b <= bmin -> len vb = diags x -> forall fuel d bb bb1, d <= lim1 b - off2 b ->
  (forall d', visits bmin d d' -> vat x vb d' <= lim1 b /\ vat x vb d' - d' <= lim2 b) ->
  in_box b bb1 (bb - bb1) \/ (bb = LONG_MAX /\ bmin <= d /\ (0 < fuel)%nat) ->
  exists bb' bb1', backward_furthest fuel x b d bmin vb bb bb1 = Ret (bb', bb1') /\ in_box b bb1' (bb' - bb1').
Proof.
  intros Hbm Hv. induction fuel as [|fuel IH]; intros d bb bb1 Hd Hl Hin; cbn [backward_furthest].
  { exists bb, bb1. split; [done|]. destruct Hin as [?|(_ & _ & ?)]; [done|lia]. }
  destruct (Z.geb_spec d bmin) as [Hge|]; [|exists bb, bb1; split; [done|]; destruct Hin as [?|(_ & ? & _)]; [done|lia]].
  assert (Hdg : diag d) by (unfold diag; lia). assert (Hvd : visits bmin d d) by (unfold visits; rewrite Z.sub_diag; split; [lia|done]).
  rewrite (rd_diag vb d) by (done || lia). cbn [obind]. cbn zeta. destruct (Hl d Hvd) as [L1 L2].
  assert (Hl' : forall d', visits bmin (d - 2) d' -> vat x vb d' <= lim1 b /\ vat x vb d' - d' <= lim2 b)
    by (intros; apply Hl, visits_next; by right).
  set (i1 := if _ >? off1 b then _ else _). assert (Hi : off1 b <= i1 <= lim1 b /\ i1 - d <= lim2 b)
    by (unfold diag, box_ok in *; unfold i1; case_if; lia).
  set (p := if i1 - d <? off2 b then _ else _). assert (Hp : in_box b (fst p) (snd p)).
  { unfold in_box, p, diag, box_ok in *. case_if; cbn [fst snd]; lia. }
  destruct p as [j1 j2]. cbn [fst snd] in Hp. destruct Hx as (_ & _ & _ & _ & _ & Hlm). unfold in_box, box_ok in *.
  destruct (Z.ltb_spec (j1 + j2) bb); apply IH; try done; try lia; left; lia.
Qed.

(** ** The two searches, from their corners *)

Let N := lim1 b - off1 b.
Let M := lim2 b - off2 b.
Let fmid := off1 b - off2 b.
Let bmid := lim1 b - lim2 b.

Definition fn (vf : list Z) (k : Z) : Z := vat x vf (fmid + k) - off1 b.
Definition gn (vb : list Z) (k : Z) : Z := lim1 b - vat x vb (bmid - k).

Lemma widen_ok (v : list Z) lo hi loses : diag lo -> diag hi -> lo <= hi -> len v = diags x ->
  let lo' := if lo >? off1 b - lim2 b then lo - 1 else lo + 1 in
  let hi' := if hi <? lim1 b - off2 b then hi + 1 else hi - 1 in
  exists v', widen x v lo hi (off1 b - lim2 b) (lim1 b - off2 b) loses = Ret (lo', hi', v') /\ len v' = diags x /\
    (forall d, lo <= d <= hi -> vat x v' d = vat x v d) /\
    (lo' < lo -> vat x v' (lo' - 1) = loses) /\ (hi < hi' -> vat x v' (hi' + 1) = loses).
Proof.
  intros Hlo Hhi Hle Hv lo' hi'. unfold widen, diag in *.
  assert (Hw1 : exists v1, (if lo >? off1 b - lim2 b then let* v := wr v (x_base x + (lo - 1 - 1)) loses in Ret (lo - 1, v) else Ret (lo + 1, v)) = Ret (lo', v1) /\
    len v1 = diags x /\ (forall d, lo <= d <= hi -> vat x v1 d = vat x v d) /\ (lo' < lo -> vat x v1 (lo' - 1) = loses)).
  { unfold lo'. destruct (Z.gtb_spec lo (off1 b - lim2 b)); [|exists v; split; [done|]; split; [done|]; split; [done|lia]].
    destruct (diag_in (lo - 1) v) as [B1 B2]; [unfold diag; lia|done|].
    destruct (wr_ok v (x_base x + (lo - 1 - 1)) loses) as (v1 & -> & L & G & O); [lia|]. exists v1. split; [done|]. split; [lia|].
    split; [intros; apply O; lia|intros; exact G]. }
  destruct Hw1 as (v1 & -> & L1 & K1 & S1). cbn [obind].
  assert (Hw2 : exists v2, (if hi <? lim1 b - off2 b then let* v := wr v1 (x_base x + (hi + 1 + 1)) loses in Ret (hi + 1, v) else Ret (hi - 1, v1)) = Ret (hi', v2) /\
    len v2 = diags x /\ (forall d, lo - 2 <= d <= hi -> 0 <= x_base x + d -> vat x v2 d = vat x v1 d) /\ (hi < hi' -> vat x v2 (hi' + 1) = loses)).
  { unfold hi'. destruct (Z.ltb_spec hi (lim1 b - off2 b)); [|exists v1; split; [done|]; split; [done|]; split; [done|lia]].
    destruct (diag_in (hi + 1) v1) as [B1 B2]; [unfold diag; lia|done|].
    destruct (wr_ok v1 (x_base x + (hi + 1 + 1)) loses) as (v2 & -> & L & G & O); [lia|]. exists v2. split; [done|]. split; [lia|].
    split; [intros; apply O; lia|intros; exact G]. }
  destruct Hw2 as (v2 & -> & L2 & K2 & S2). cbn [obind]. exists v2. split; [done|]. split; [done|]. split; [|split; [|done]].
  - intros d Hd. destruct (diag_in lo v) as [B1 _]; [done|done|]. rewrite K2 by lia. by apply K1.
  - intros Hl. unfold lo' in *. destruct (Z.gtb_spec lo (off1 b - lim2 b)); [|lia].
    destruct (diag_in (lo - 1) v) as [B1 _]; [unfold diag; lia|done|]. rewrite K2 by lia. by apply S1.
Qed.

Lemma NM : 1 <= N /\ 1 <= M.
Proof. unfold N, M, box_ok in *. lia. Qed.

Lemma forward_step odd e lo hi lo' hi' vf vb : wider N M lo hi = (lo', hi') -> band_ok N M e lo hi -> len vf = diags x -> len vb = diags x ->
  lower N M e (fn vf) lo hi ->
  exists vf1 met vf' got, widen x vf (fmid + lo) (fmid + hi) (off1 b - lim2 b) (lim1 b - off2 b) (-1) = Ret (fmid + lo', fmid + hi', vf1) /\
    forward_loop (S (Z.to_nat (fmid + hi' - (fmid + lo')))) x b (fmid + hi') (fmid + lo') odd (bmid - hi) (bmid - lo) vf1 vb false = Ret (met, vf', got) /\
    len vf' = diags x /\
    match met with
    | None => moved N M e (fn vf) lo hi (fn vf') lo' hi' /\ (odd = true -> unmet N M (e + 1) (fn vf') lo' hi' (gn vb) lo hi)
    | Some (i1, i2) => exists k, lo' <= k <= hi' /\ par (e + 1) k /\ moved_at N M (fn vf) lo hi k (i1 - off1 b) /\ i2 = i1 - (fmid + k) /\
        odd = true /\ lo <= N - M - k <= hi
    end.
Proof.
  intros Hw Hb Hvf Hvb Hl. destruct NM as [HN HM]. pose proof (wider_bounds N M HN HM lo hi) as Bw. rewrite Hw in Bw.
  pose proof (band_wider N M HN HM e lo hi Hb) as Hb'. rewrite Hw in Hb'. cbn [fst snd] in Hb'.
  unfold wider in Hw. injection Hw as Elo Ehi. unfold band_ok in Hb, Hb'.
  destruct (widen_ok vf (fmid + lo) (fmid + hi) (-1)) as (vf1 & Ew & L1 & K1 & S1 & S2); [unfold diag, fmid, N, M in *; lia..|done|].
  assert (E1 : (if fmid + lo >? off1 b - lim2 b then fmid + lo - 1 else fmid + lo + 1) = fmid + lo').
  { rewrite <- Elo. unfold fmid, M. destruct (Z.gtb_spec lo (- (lim2 b - off2 b))), (Z.gtb_spec (off1 b - off2 b + lo) (off1 b - lim2 b)); lia. }
  assert (E2 : (if fmid + hi <? lim1 b - off2 b then fmid + hi + 1 else fmid + hi - 1) = fmid + hi').
  { rewrite <- Ehi. unfold fmid, N. destruct (Z.ltb_spec hi (lim1 b - off1 b)), (Z.ltb_spec (off1 b - off2 b + hi) (lim1 b - off2 b)); lia. }
  rewrite E1 in *. rewrite E2 in *.
  assert (Hfur : forall k w, lo' <= k <= hi' -> par (e + 1) k -> fstart vf1 (fmid + k) <= w ->
    w = fstart vf1 (fmid + k) \/ (w <= lim1 b /\ w - (fmid + k) <= lim2 b) ->
    moved_at N M (fn vf) lo hi k (w - off1 b) /\ off1 b <= fstart vf1 (fmid + k) /\ off2 b <= fstart vf1 (fmid + k) - (fmid + k)).
  { intros k w Hk Hp Hs Hc.
    destruct (further N M HN HM e (fn vf) lo hi k (vat x vf1 (fmid + k - 1) - off1 b) (vat x vf1 (fmid + k + 1) - off1 b) (w - off1 b)) as (R1 & R2 & R3);
      try done; try lia; try tauto; unfold fn.
    - intros. rewrite <- K1 by lia. do 2 f_equal. lia.
    - intros. assert (k = lo' /\ lo' < lo) as [-> ?] by (unfold par in *; Z.div_mod_to_equations; lia). rewrite S1 by lia.
      unfold box_ok in *. lia.
    - intros. rewrite <- K1 by lia. do 2 f_equal. lia.
    - intros. assert (k = hi' /\ hi < hi') as [-> ?] by (unfold par in *; Z.div_mod_to_equations; lia). rewrite S2 by lia.
      unfold box_ok in *. lia.
    - unfold fstart in Hs. destruct (Z.geb_spec (vat x vf1 (fmid + k - 1)) (vat x vf1 (fmid + k + 1))),
        (Z.geb_spec (vat x vf1 (fmid + k - 1) - off1 b) (vat x vf1 (fmid + k + 1) - off1 b)); lia.
    - unfold fstart in Hc. unfold fmid, N, M in *. destruct (Z.geb_spec (vat x vf1 (off1 b - off2 b + k - 1)) (vat x vf1 (off1 b - off2 b + k + 1))),
        (Z.geb_spec (vat x vf1 (off1 b - off2 b + k - 1) - off1 b) (vat x vf1 (off1 b - off2 b + k + 1) - off1 b)); lia.
    - split; [done|]. unfold fstart, fmid in *. destruct (Z.geb_spec (vat x vf1 (off1 b - off2 b + k - 1)) (vat x vf1 (off1 b - off2 b + k + 1))),
        (Z.geb_spec (vat x vf1 (off1 b - off2 b + k - 1) - off1 b) (vat x vf1 (off1 b - off2 b + k + 1) - off1 b)); lia. }
  assert (Hvis : forall d', visits (fmid + lo') (fmid + hi') d' <-> exists k, d' = fmid + k /\ lo' <= k <= hi' /\ par (e + 1) k).
  { intros d'. unfold visits, par in *. split; [intros [H1 H2]; exists (d' - fmid); Z.div_mod_to_equations; lia|intros (k & -> & H1 & H2); Z.div_mod_to_equations; lia]. }
  destruct (forward_loop_ok odd (bmid - hi) (bmid - lo) vb (fmid + lo') ltac:(unfold fmid, M in *; lia) Hvb
    (S (Z.to_nat (fmid + hi' - (fmid + lo')))) (fmid + hi') vf1 false) as (met & vf' & got & E & L & O & Hres);
    [unfold fmid, N in *; lia|done|lia| |].
  { intros d' V. apply Hvis in V as (k & -> & Hk & Hp). destruct (Hfur k (fstart vf1 (fmid + k)) Hk Hp) as (_ & ? & ?); [lia|by left|done]. }
  exists vf1, met, vf', got. split; [done|]. split; [done|]. split; [done|]. destruct met as [[i1 i2]|].
  - destruct Hres as (d' & V & Ei & [S3 S4] & Ho & Hr). apply Hvis in V as (k & -> & Hk & Hp). exists k. split; [done|]. split; [done|].
    destruct (Hfur k i1 Hk Hp S3 S4) as (Hm & _). split; [done|]. split; [done|]. split; [done|]. unfold bmid, fmid, N, M in *. lia.
  - split.
    + intros k Hk Hp. destruct (Hres (fmid + k)) as [[S3 S4] _]; [apply Hvis; eauto|]. by apply (Hfur k).
    + intros Ho k Hk Hp Hin. destruct (Hres (fmid + k)) as [_ R]; [apply Hvis; eauto|]. specialize (R Ho ltac:(unfold bmid, fmid, N, M in *; lia)).
      unfold fn, gn. replace (bmid - (N - M - k)) with (fmid + k) by (unfold bmid, fmid, N, M; lia). unfold N in *. lia.
Qed.

Lemma backward_step odd e lo hi lo' hi' vf vb got0 : wider N M lo hi = (lo', hi') -> band_ok N M e lo hi -> len vf = diags x -> len vb = diags x ->
  lower N M e (gn vb) lo hi ->
  exists vb1 met vb' got, widen x vb (bmid - hi) (bmid - lo) (off1 b - lim2 b) (lim1 b - off2 b) LONG_MAX = Ret (bmid - hi', bmid - lo', vb1) /\
    backward_loop (S (Z.to_nat (bmid - lo' - (bmid - hi')))) x b (bmid - lo') (bmid - hi') odd (fmid + lo') (fmid + hi') vf vb1 got0 = Ret (met, vb', got) /\
    len vb' = diags x /\
    match met with
    | None => moved N M e (gn vb) lo hi (gn vb') lo' hi' /\ (odd = false -> unmet N M (e + 1) (gn vb') lo' hi' (fn vf) lo' hi')
    | Some (i1, i2) => exists k, lo' <= k <= hi' /\ par (e + 1) k /\ moved_at N M (gn vb) lo hi k (lim1 b - i1) /\ i2 = i1 - (bmid - k) /\
        odd = false /\ lo' <= N - M - k <= hi'
    end.
Proof.
  intros Hw Hb Hvf Hvb Hl. destruct NM as [HN HM]. pose proof (wider_bounds N M HN HM lo hi) as Bw. rewrite Hw in Bw.
  pose proof (band_wider N M HN HM e lo hi Hb) as Hb'. rewrite Hw in Hb'. cbn [fst snd] in Hb'.
  unfold wider in Hw. injection Hw as Elo Ehi. unfold band_ok in Hb, Hb'.
  destruct (widen_ok vb (bmid - hi) (bmid - lo) LONG_MAX) as (vb1 & Ew & L1 & K1 & S1 & S2); [unfold diag, bmid, N, M in *; lia..|done|].
  assert (E1 : (if bmid - hi >? off1 b - lim2 b then bmid - hi - 1 else bmid - hi + 1) = bmid - hi').
  { rewrite <- Ehi. unfold bmid, N. destruct (Z.ltb_spec hi (lim1 b - off1 b)), (Z.gtb_spec (lim1 b - lim2 b - hi) (off1 b - lim2 b)); lia. }
  assert (E2 : (if bmid - lo <? lim1 b - off2 b then bmid - lo + 1 else bmid - lo - 1) = bmid - lo').
  { rewrite <- Elo. unfold bmid, M. destruct (Z.gtb_spec lo (- (lim2 b - off2 b))), (Z.ltb_spec (lim1 b - lim2 b - lo) (lim1 b - off2 b)); lia. }
  rewrite E1 in *. rewrite E2 in *. assert (Hmax : lim1 b < LONG_MAX) by (destruct Hx as (_ & _ & _ & _ & _ & ?); unfold box_ok in *; lia).
  assert (Hfur : forall k w, lo' <= k <= hi' -> par (e + 1) k -> w <= bstart vb1 (bmid - k) ->
    w = bstart vb1 (bmid - k) \/ (off1 b <= w /\ off2 b <= w - (bmid - k)) ->
    moved_at N M (gn vb) lo hi k (lim1 b - w) /\ bstart vb1 (bmid - k) <= lim1 b /\ bstart vb1 (bmid - k) - (bmid - k) <= lim2 b).
  { intros k w Hk Hp Hs Hc.
    destruct (further N M HN HM e (gn vb) lo hi k (lim1 b - vat x vb1 (bmid - k + 1)) (lim1 b - vat x vb1 (bmid - k - 1)) (lim1 b - w)) as (R1 & R2 & R3);
      try done; try lia; try tauto; unfold gn.
    - intros. rewrite <- K1 by lia. do 2 f_equal. lia.
    - intros. assert (k = lo' /\ lo' < lo) as [-> ?] by (unfold par in *; Z.div_mod_to_equations; lia). rewrite S2 by lia. lia.
    - intros. rewrite <- K1 by lia. do 2 f_equal. lia.
    - intros. assert (k = hi' /\ hi < hi') as [-> ?] by (unfold par in *; Z.div_mod_to_equations; lia). rewrite S1 by lia. lia.
    - unfold bstart in Hs. destruct (Z.ltb_spec (vat x vb1 (bmid - k - 1)) (vat x vb1 (bmid - k + 1))),
        (Z.geb_spec (lim1 b - vat x vb1 (bmid - k + 1)) (lim1 b - vat x vb1 (bmid - k - 1))); lia.
    - unfold bstart in Hc. unfold bmid, N, M in *. destruct (Z.ltb_spec (vat x vb1 (lim1 b - lim2 b - k - 1)) (vat x vb1 (lim1 b - lim2 b - k + 1))),
        (Z.geb_spec (lim1 b - vat x vb1 (lim1 b - lim2 b - k + 1)) (lim1 b - vat x vb1 (lim1 b - lim2 b - k - 1))); lia.
    - split; [done|]. unfold bstart, bmid in *. destruct (Z.ltb_spec (vat x vb1 (lim1 b - lim2 b - k - 1)) (vat x vb1 (lim1 b - lim2 b - k + 1))),
        (Z.geb_spec (lim1 b - vat x vb1 (lim1 b - lim2 b - k + 1)) (lim1 b - vat x vb1 (lim1 b - lim2 b - k - 1))); lia. }
  assert (Hvis : forall d', visits (bmid - hi') (bmid - lo') d' <-> exists k, d' = bmid - k /\ lo' <= k <= hi' /\ par (e + 1) k).
  { intros d'. unfold visits, par in *. split; [intros [H1 H2]; exists (bmid - d'); Z.div_mod_to_equations; lia|intros (k & -> & H1 & H2); Z.div_mod_to_equations; lia]. }
  destruct (backward_loop_ok odd (fmid + lo') (fmid + hi') vf (bmid - hi') ltac:(unfold bmid, N in *; lia) Hvf
    (S (Z.to_nat (bmid - lo' - (bmid - hi')))) (bmid - lo') vb1 got0) as (met & vb' & got & E & L & O & Hres);
    [unfold bmid, M in *; lia|done|lia| |].
  { intros d' V. apply Hvis in V as (k & -> & Hk & Hp). destruct (Hfur k (bstart vb1 (bmid - k)) Hk Hp) as (_ & ? & ?); [lia|by left|done]. }
  exists vb1, met, vb', got. split; [done|]. split; [done|]. split; [done|]. destruct met as [[i1 i2]|].
  - destruct Hres as (d' & V & Ei & [S3 S4] & Ho & Hr). apply Hvis in V as (k & -> & Hk & Hp). exists k. split; [done|]. split; [done|].
    destruct (Hfur k i1 Hk Hp S3 S4) as (Hm & _). split; [done|]. split; [done|]. split; [done|]. unfold bmid, fmid, N, M in *. lia.
  - split.
    + intros k Hk Hp. destruct (Hres (bmid - k)) as [[S3 S4] _]; [apply Hvis; eauto|]. by apply (Hfur k).
    + intros Ho k Hk Hp Hin. destruct (Hres (bmid - k)) as [_ R]; [apply Hvis; eauto|]. specialize (R Ho ltac:(unfold bmid, fmid, N, M in *; lia)).
      unfold fn, gn. replace (fmid + (N - M - k)) with (bmid - k) by (unfold bmid, fmid, N, M; lia). unfold N in *. lia.
Qed.

Lemma cut_short_ok e lo hi ec vf vb got : band_ok N M e lo hi -> len vf = diags x -> len vb = diags x ->
  lower N M e (fn vf) lo hi -> lower N M e (gn vb) lo hi ->
  exists o, cut_short x b (fmid + lo) (fmid + hi) (bmid - hi) (bmid - lo) fmid bmid ec vf vb got = Ret o /\
    match o with Some spl => in_box b (spl_i1 spl) (spl_i2 spl) | None => True end.
Proof.
  intros Hb Hvf Hvb Hlf Hlg. unfold cut_short. unfold band_ok in Hb. destruct NM as [HN HM].
  assert (Hf1 : off1 b - lim2 b <= fmid + lo /\ fmid + hi <= lim1 b - off2 b) by (unfold fmid, N, M in *; lia).
  assert (Hb1 : off1 b - lim2 b <= bmid - hi /\ bmid - lo <= lim1 b - off2 b) by (unfold bmid, N, M in *; lia).
  assert (Hpro : exists o, (if got && (ec >? BGIT_HEUR_MIN_COST) then
      let* f := forward_best (S (Z.to_nat (fmid + hi - (fmid + lo)))) x b (fmid + hi) (fmid + lo) fmid ec vf 0 (0, 0) in
      let '(best, (i1, i2)) := f in
      if best >? 0 then Ret (Some {| spl_i1 := i1; spl_i2 := i2; min_lo := true; min_hi := false |})
      else
        let* g := backward_best (S (Z.to_nat (bmid - lo - (bmid - hi)))) x b (bmid - lo) (bmid - hi) bmid ec vb 0 (0, 0) in
        let '(best, (i1, i2)) := g in
        if best >? 0 then Ret (Some {| spl_i1 := i1; spl_i2 := i2; min_lo := false; min_hi := true |}) else Ret None
    else Ret None) = Ret o /\ match o with Some spl => in_box b (spl_i1 spl) (spl_i2 spl) | None => True end).
  { case_if; [|by eexists].
    destruct (forward_best_ok fmid ec vf (fmid + lo) (proj1 Hf1) Hvf (S (Z.to_nat (fmid + hi - (fmid + lo)))) (fmid + hi) 0 (0, 0) (proj2 Hf1))
      as (best & [i1 i2] & -> & Hc). cbn [obind]. cbn [fst snd] in Hc. destruct (Z.gtb_spec best 0) as [Hg|Hg].
    { eexists. split; [done|]. destruct Hc as [[-> _]|?]; [lia|done]. }
    destruct (backward_best_ok bmid ec vb (bmid - hi) (proj1 Hb1) Hvb (S (Z.to_nat (bmid - lo - (bmid - hi)))) (bmid - lo) 0 (0, 0) (proj2 Hb1))
      as (best2 & [j1 j2] & -> & Hc2). cbn [obind]. cbn [fst snd] in Hc2. destruct (Z.gtb_spec best2 0) as [Hg2|Hg2]; [|by eexists].
    eexists. split; [done|]. destruct Hc2 as [[-> _]|?]; [lia|done]. }
  destruct Hpro as (o & -> & Ho). cbn [obind]. destruct o as [spl|]; [by exists (Some spl)|]. case_if; [|by exists None].
  destruct (forward_furthest_ok vf (fmid + lo) (proj1 Hf1) Hvf (S (Z.to_nat (fmid + hi - (fmid + lo)))) (fmid + hi) (-1) (-1) (proj2 Hf1))
    as (fb & fb1 & -> & Hif); [|right; split; [done|]; lia|].
  { intros d' V. assert (Hk : lo <= d' - fmid <= hi /\ par e (d' - fmid)) by (unfold visits, par in *; Z.div_mod_to_equations; lia).
    destruct (Hlf (d' - fmid) (proj1 Hk) (proj2 Hk)) as (A & B & _). unfold fn in A, B. replace (fmid + (d' - fmid)) with d' in * by lia. unfold fmid in *. lia. }
  cbn [obind].
  destruct (backward_furthest_ok vb (bmid - hi) (proj1 Hb1) Hvb (S (Z.to_nat (bmid - lo - (bmid - hi)))) (bmid - lo) LONG_MAX LONG_MAX (proj2 Hb1))
    as (bb & bb1 & -> & Hib); [|right; split; [done|]; lia|].
  { intros d' V. assert (Hk : lo <= bmid - d' <= hi /\ par e (bmid - d')) by (unfold visits, par in *; Z.div_mod_to_equations; lia).
    destruct (Hlg (bmid - d') (proj1 Hk) (proj2 Hk)) as (A & B & _). unfold gn in A, B. replace (bmid - (bmid - d')) with d' in * by lia. unfold bmid in *. lia. }
  cbn [obind]. case_if; eexists; split; done.
Qed.
(** What holds between two rounds: of the two, the one that moves before they
    are compared has not gone past where the other could be. *)
Definition between (e lo hi : Z) (vf vb : list Z) : Prop :=
  band_ok N M e lo hi /\ len vf = diags x /\ len vb = diags x /\ lower N M e (fn vf) lo hi /\ lower N M e (gn vb) lo hi /\
  let f := if Z.odd (fmid - bmid) then fn vf else gn vb in touching N M e f lo hi /\ escaping N M e f lo hi.

Lemma split_loop_ok need_min fuel : forall e lo hi vf vb, between e lo hi vf vb -> e < N + M -> N + M - e <= Z.of_nat fuel ->
  exists spl vf' vb', split_loop fuel x b need_min (e + 1) (fmid + lo) (fmid + hi) (bmid - hi) (bmid - lo) vf vb = Ret (spl, vf', vb') /\
    in_box b (spl_i1 spl) (spl_i2 spl) /\ len vf' = diags x /\ len vb' = diags x.
Proof.
  destruct NM as [HN HM]. induction fuel as [|fuel IH]; intros e lo hi vf vb (Hb & Hvf & Hvb & Hlf & Hlg & Ht & He) Hlt Hfuel; [lia|].
  cbn [split_loop]. fold fmid bmid. set (odd := Z.odd (fmid - bmid)) in *.
  assert (Hodd : odd = Z.odd (N - M)).
  { unfold odd. replace (fmid - bmid) with (- (N - M)) by (unfold fmid, bmid, N, M; lia). by rewrite Z.odd_opp. }
  destruct (wider N M lo hi) as [lo' hi'] eqn:Hw.
  pose proof (band_wider N M HN HM e lo hi Hb) as Hb'. rewrite Hw in Hb'. cbn [fst snd] in Hb'.
  destruct (forward_step odd e lo hi lo' hi' vf vb Hw Hb Hvf Hvb Hlf) as (vf1 & met & vf' & got & -> & E & Hvf' & Hmet).
  cbn [obind]. rewrite E. cbn [obind]. clear E. destruct met as [[i1 i2]|].
  { destruct Hmet as (k & Hk & Hp & Hm & -> & Ho & Hin). rewrite Ho in Ht, He. eexists _, vf', vb. split; [done|]. split; [|done].
    destruct (meeting_in_box N M HN HM e e _ lo hi lo' hi' lo hi k _ Hw Ht He Hm Hb) as [B1 B2]; [lia|done..|].
    destruct (lower_at N M HN HM e _ lo hi lo' hi' k _ Hw Hb Hlf Hk Hp Hm) as (B3 & B4 & _).
    unfold in_box, N, M, fmid in *. cbn [spl_i1 spl_i2]. lia. }
  destruct Hmet as [Hmf Huf]. pose proof (lower_step N M HN HM e _ lo hi _ lo' hi' Hw Hb Hlf Hmf) as Hlf'.
  destruct (backward_step odd e lo hi lo' hi' vf' vb got Hw Hb Hvf' Hvb Hlg) as (vb1 & met & vb' & got' & -> & E & Hvb' & Hmet).
  cbn [obind]. rewrite E. cbn [obind]. clear E. destruct met as [[i1 i2]|].
  { destruct Hmet as (k & Hk & Hp & Hm & -> & Ho & Hin). rewrite Ho in Ht, He. eexists _, vf', vb'. split; [done|]. split; [|done].
    destruct (meeting_in_box N M HN HM e (e + 1) _ lo hi lo' hi' lo' hi' k _ Hw Ht He Hm Hb') as [B1 B2]; [lia|done..|].
    destruct (lower_at N M HN HM e _ lo hi lo' hi' k _ Hw Hb Hlg Hk Hp Hm) as (B3 & B4 & _).
    unfold in_box, N, M, bmid in *. cbn [spl_i1 spl_i2]. lia. }
  destruct Hmet as [Hmg Hug]. pose proof (lower_step N M HN HM e _ lo hi _ lo' hi' Hw Hb Hlg Hmg) as Hlg'.
  assert (Hnext : e + 1 < N + M /\ between (e + 1) lo' hi' vf' vb').
  { unfold between. fold odd. destruct odd.
    - assert (Hpar : par (e + 1 + e) (N - M)) by (unfold par; rewrite Zodd_mod in Hodd; symmetry in Hodd; apply Z.eqb_eq in Hodd; Z.div_mod_to_equations; lia).
      specialize (Huf eq_refl). split; [exact (must_meet N M HN HM (e + 1) e _ lo' hi' _ lo hi Hb' Hb ltac:(lia) Hpar Hlf' Hlg Huf)|].
      do 5 (split; [done|]). split; [exact (unmet_touching N M HN HM (e + 1) e _ lo' hi' _ lo hi Hb' Hb ltac:(lia) Hpar Hlf' Hlg Huf)|].
      exact (escaping_step N M HN HM e _ lo hi _ lo' hi' Hw Hb Ht He Hmf).
    - assert (Hpar : par (e + 1 + (e + 1)) (N - M)) by (unfold par; rewrite Zodd_mod in Hodd; symmetry in Hodd; apply Z.eqb_neq in Hodd; Z.div_mod_to_equations; lia).
      specialize (Hug eq_refl). split; [exact (must_meet N M HN HM (e + 1) (e + 1) _ lo' hi' _ lo' hi' Hb' Hb' ltac:(lia) Hpar Hlg' Hlf' Hug)|].
      do 5 (split; [done|]). split; [exact (unmet_touching N M HN HM (e + 1) (e + 1) _ lo' hi' _ lo' hi' Hb' Hb' ltac:(lia) Hpar Hlg' Hlf' Hug)|].
      exact (escaping_step N M HN HM e _ lo hi _ lo' hi' Hw Hb Ht He Hmg). }
  destruct Hnext as [Hlt' Hbt].
  assert (Hgu : exists o, (if need_min then Ret None else cut_short x b (fmid + lo') (fmid + hi') (bmid - hi') (bmid - lo') fmid bmid (e + 1) vf' vb' got') = Ret o /\
    match o with Some spl => in_box b (spl_i1 spl) (spl_i2 spl) | None => True end).
  { destruct need_min; [by exists None|]. destruct (cut_short_ok (e + 1) lo' hi' (e + 1) vf' vb' got') as (o & -> & Ho); try done. by exists o. }
  destruct Hgu as (o & -> & Ho). cbn [obind]. destruct o as [spl|]; [by exists spl, vf', vb'|].
  apply IH; [done|lia|lia].
Qed.

(** The search for a split always ends, reads and writes only inside the
    arrays, and ends at a point of the box. *)
Lemma find_split_ok need_min vf vb : len vf = diags x -> len vb = diags x ->
  exists spl vf' vb', bgit_xd_find_split x b need_min vf vb = Ret (spl, vf', vb') /\
    in_box b (spl_i1 spl) (spl_i2 spl) /\ len vf' = diags x /\ len vb' = diags x.
Proof.
  intros Hvf Hvb. destruct NM as [HN HM]. unfold bgit_xd_find_split. fold fmid bmid.
  destruct (wr_diag vf fmid (off1 b)) as (vf1 & -> & L1 & G1 & _); [unfold diag, fmid, N, M in *; lia|done|]. cbn [obind].
  destruct (wr_diag vb bmid (lim1 b)) as (vb1 & -> & L2 & G2 & _); [unfold diag, bmid, N, M in *; lia|done|]. cbn [obind].
  destruct (split_loop_ok need_min (Z.to_nat (lim1 b - off1 b + (lim2 b - off2 b))) 0 0 0 vf1 vb1) as (spl & vf' & vb' & E & R).
  - assert (F0 : fn vf1 0 = 0) by (unfold fn; rewrite Z.add_0_r; lia). assert (G0 : gn vb1 0 = 0) by (unfold gn; rewrite Z.sub_0_r; lia).
    destruct (escaping_start N M HN HM (fn vf1) F0) as (A1 & A2 & A3). destruct (escaping_start N M HN HM (gn vb1) G0) as (B1 & B2 & B3).
    split; [exact (band_start N M HN HM)|]. do 4 (split; [done|]). cbn zeta. destruct (Z.odd (fmid - bmid)); by split.
  - lia.
  - unfold N, M. lia.
  - rewrite !Z.add_0_r, !Z.sub_0_r in E. exists spl, vf', vb'. by split.
Qed.
End Search.

(** [C26] (bounds) Where Myers' algorithm splits a box with lines on both sides:
    the two searches meet, or one of the heuristics gives up, before there have
    been as many rounds as lines; every diagonal read or written is inside the
    arrays; and the split is a point of the box. *)
Theorem find_split_in_box x b need_min vf vb : xd_ok x -> box_ok x b -> len vf = diags x -> len vb = diags x ->
  exists spl vf' vb', bgit_xd_find_split x b need_min vf vb = Ret (spl, vf', vb') /\
    in_box b (spl_i1 spl) (spl_i2 spl) /\ len vf' = diags x /\ len vb' = diags x.
Proof. intros Hx Hb. by apply find_split_ok. Qed.

Theorem find_split_in_box_witness :
  let x := {| x_a := bgit_xdiff_load [97; 10; 98; 10; 99]; x_b := bgit_xdiff_load [98; 10; 99; 10; 97; 10; 98; 10];
              x_ia := [0; 1; 2]; x_ib := [0; 1; 2; 3]; x_base := 5; x_mxcost := 256; x_algorithm := 0 |} in
  let b := {| off1 := 0; lim1 := 3; off2 := 0; lim2 := 4 |} in
  exists spl vf' vb', bgit_xd_find_split x b false (zeros 10) (zeros 10) = Ret (spl, vf', vb') /\
    in_box b (spl_i1 spl) (spl_i2 spl) /\ len vf' = 10 /\ len vb' = 10.
Proof.
  intros x b. apply (find_split_in_box x b false (zeros 10) (zeros 10)); [|repeat split; vm_compute; congruence|reflexivity|reflexivity].
  split; [apply load_wf|]. split; [apply load_wf|]. split; [|split; [|by split]]; repeat constructor; vm_compute; congruence.
Defined.
