(* ===== verification/XAlt.v ===== *)
(** * Comparing two files of lines (xdiff.c)

    Divide and conquer with the selected algorithm: Myers', with its split,
    patience, which goes between lines unique on both sides, and histogram,
    which goes around a run of rare lines.  The theorem is about all three: the
    comparison ends, stays in its arrays, and leaves unmarked on either side
    the same lines in the same order. *)

From stdpp Require Import list.
From Stdlib Require Import Sorting.Sorted.
From S2P Require Import Prelude XLines Sweep Myers.

#[local] Open Scope Z_scope.

(** The arrays a comparison writes: what is changed on each side, with a zero
    either side of it, and the furthest-reaching paths. *)
Record xd_arrays := { xd_ca : list Z; xd_cb : list Z; xd_vf : list Z; xd_vb : list Z }.

Definition with_ca (s : xd_arrays) (ca : list Z) : xd_arrays :=
  {| xd_ca := ca; xd_cb := xd_cb s; xd_vf := xd_vf s; xd_vb := xd_vb s |}.
Definition with_cb (s : xd_arrays) (cb : list Z) : xd_arrays :=
  {| xd_ca := xd_ca s; xd_cb := cb; xd_vf := xd_vf s; xd_vb := xd_vb s |}.

(** The lines of [index] from [i] up to [e] are changed. *)
Fixpoint mark_changed (fuel : nat) (index c : list Z) (i e : Z) : outcome (list Z) :=
  match fuel with
  | O => Ret c
  | S fuel' =>
      if i <? e then
        let* k := rd index i in
        let* c := wr c (k + 1) 1 in
        mark_changed fuel' index c (i + 1) e
      else Ret c
  end.

Definition mark_a (x : bgit_xd) (s : xd_arrays) (a0 a1 : Z) : outcome xd_arrays :=
  let* ca := mark_changed (Z.to_nat (a1 - a0)) (x_ia x) (xd_ca s) a0 a1 in Ret (with_ca s ca).
Definition mark_b (x : bgit_xd) (s : xd_arrays) (b0 b1 : Z) : outcome xd_arrays :=
  let* cb := mark_changed (Z.to_nat (b1 - b0)) (x_ib x) (xd_cb s) b0 b1 in Ret (with_cb s cb).

(** Of the lines [src], those worth searching for; the others are changed. *)
Fixpoint discard_loop (src : list Z) (i : Z) (dis c : list Z) (s e : Z) : outcome (list Z * list Z) :=
  match src with
  | [] => Ret ([], c)
  | k :: src' =>
      let* keep := searched dis i s e in
      if keep then
        let* r := discard_loop src' (i + 1) dis c s e in
        let '(index, c) := r in
        Ret (k :: index, c)
      else
        let* c := wr c (k + 1) 1 in
        discard_loop src' (i + 1) dis c s e
  end.

(** The comparison itself, as the algorithms call it on parts of a box: a
    status, negative when there was not memory enough. *)
Definition comparison : Type := bgit_xd -> xd_arrays -> Z -> Z -> Z -> Z -> bool -> outcome (Z * xd_arrays).

Definition mxcost_of (ndiags : Z) : Z := Z.max (bgit_bogosqrt ndiags) BGIT_MAX_COST_MIN.

Definition bgit_xd_myers_fallback `{Qsort} (bgit_xd_compare : comparison)
    (x : bgit_xd) (s : xd_arrays) (a0 a1 b0 b1 : Z) (need_min : bool) : outcome (Z * xd_arrays) :=
  let cap_a := a1 - a0 in
  let cap_b := b1 - b0 in
  let* src_a := rdn (x_ia x) a0 cap_a in
  let* src_b := rdn (x_ib x) b0 cap_b in
  let* m := bgit_match_counts (x_a x) (x_b x) src_a src_b in
  let '(matches_a, matches_b) := m in
  let dis_a := map (dis_of (eq_limit cap_a)) (take (Z.to_nat cap_a) matches_a) in
  let dis_b := map (dis_of (eq_limit cap_b)) (take (Z.to_nat cap_b) matches_b) in
  let* r := discard_loop src_a 0 dis_a (xd_ca s) 0 (cap_a - 1) in
  let '(ia, ca) := r in
  let* r := discard_loop src_b 0 dis_b (xd_cb s) 0 (cap_b - 1) in
  let '(ib, cb) := r in
  let ndiags := len ia + len ib + 3 in
  let fallback := {| x_a := x_a x; x_b := x_b x; x_ia := ia; x_ib := ib; x_base := len ib + 1;
                     x_mxcost := mxcost_of ndiags; x_algorithm := 0 |} in
  let* r := bgit_xd_compare fallback {| xd_ca := ca; xd_cb := cb; xd_vf := zeros ndiags; xd_vb := zeros ndiags |}
              0 (len ia) 0 (len ib) need_min in
  let '(status, s') := r in
  Ret (status, {| xd_ca := xd_ca s'; xd_cb := xd_cb s'; xd_vf := xd_vf s; xd_vb := xd_vb s |}).

(* ------------------------------------------------------------------ *)
(** ** Patience *)

Definition sizeof_line_ref : Z := 32.

(** Not enough room to number the lines of both sides? *)
Definition refs_overflow (na nb : Z) : bool := (na >? SIZE_MAX - nb) || (na + nb >? SIZE_MAX / sizeof_line_ref).

(** The lines of both sides of a box. *)
Definition box_refs (x : bgit_xd) (a0 a1 b0 b1 : Z) : outcome (list bgit_line_ref) :=
  let* ia := rdn (x_ia x) a0 (a1 - a0) in
  let* ib := rdn (x_ib x) b0 (b1 - b0) in
  let* ra := side_refs (x_a x) ia a0 false in
  let* rb := side_refs (x_b x) ib b0 true in
  Ret (ra ++ rb).

Record bgit_xd_anchor := { an_a : Z; an_b : Z }.

Definition bgit_xd_anchor_cmp (a b : bgit_xd_anchor) : Z :=
  if an_a a >? an_a b then 1 else if an_a a <? an_a b then -1 else 0.

(** An array of [cap] that is filled from its start. *)
Definition put {A} (cap : Z) (l : list A) (i : Z) (v : A) : outcome (list A) :=
  if (0 <=? i) && (i <=? len l) && (i <? cap) then
    Ret (if i =? len l then l ++ [v] else <[Z.to_nat i := v]> l)
  else Fault.

(** Where the lines are that occur once on each side. *)
Fixpoint anchors_loop (fuel : nat) (refs : list bgit_line_ref) (cap : Z) (anchors : list bgit_xd_anchor)
    : outcome (list bgit_xd_anchor) :=
  match fuel, refs with
  | S fuel', r :: refs' =>
      let '(run, rest) := same_run r refs' in
      let group := r :: run in
      match on_side false group, on_side true group with
      | [ra], [rb] =>
          let* anchors := put cap anchors (len anchors) {| an_a := lr_position ra; an_b := lr_position rb |} in
          anchors_loop fuel' rest cap anchors
      | _, _ => anchors_loop fuel' rest cap anchors
      end
  | _, _ => Ret anchors
  end.

Definition anchor_at (anchors : list bgit_xd_anchor) (i : Z) : outcome bgit_xd_anchor :=
  if 0 <=? i then match anchors !! Z.to_nat i with Some a => Ret a | None => Fault end else Fault.

(** The first of the ends of chains that is not below [b]. *)
Fixpoint tails_search (fuel : nat) (anchors : list bgit_xd_anchor) (tails : list Z) (b lo hi : Z) : outcome Z :=
  match fuel with
  | O => Ret lo
  | S fuel' =>
      if lo <? hi then
        let mid := lo + (hi - lo) / 2 in
        let* t := rd tails mid in
        let* a := anchor_at anchors t in
        if an_b a <? b then tails_search fuel' anchors tails b (mid + 1) hi
        else tails_search fuel' anchors tails b lo mid
      else Ret lo
  end.

(** The longest increasing sequence: how each anchor is reached, and where the
    chain of each length ends. *)
Fixpoint lis_loop (fuel : nat) (anchors : list bgit_xd_anchor) (cap i : Z) (tails previous : list Z)
    : outcome (list Z * list Z) :=
  match fuel with
  | O => Ret (tails, previous)
  | S fuel' =>
      if i <? len anchors then
        let* a := anchor_at anchors i in
        let* lo := tails_search (length tails) anchors tails (an_b a) 0 (len tails) in
        let* p := if negb (lo =? 0) then rd tails (lo - 1) else Ret SIZE_MAX in
        let* previous := put cap previous i p in
        let* tails := put cap tails lo i in
        lis_loop fuel' anchors cap (i + 1) tails previous
      else Ret (tails, previous)
  end.

(** The sequence, from its end. *)
Fixpoint pick_loop (n : nat) (anchors : list bgit_xd_anchor) (previous : list Z) (pick : Z) (sequence : list bgit_xd_anchor)
    : outcome (list bgit_xd_anchor) :=
  match n with
  | O => Ret sequence
  | S n' =>
      let* a := anchor_at anchors pick in
      let* p := rd previous pick in
      pick_loop n' anchors previous p (a :: sequence)
  end.

(** From anchor to anchor: the lines around each that match, and the
    comparison of what is between. *)
Fixpoint between_loop (bgit_xd_compare : comparison) (x : bgit_xd) (s : xd_arrays) (sequence : list bgit_xd_anchor)
    (old_at new_at a1 b1 : Z) : outcome (Z * xd_arrays) :=
  match sequence with
  | [] =>
      let* i := snake_forward (Z.to_nat (a1 - old_at)) x old_at new_at a1 b1 in
      bgit_xd_compare x s i a1 (new_at + (i - old_at)) b1 false
  | anchor :: sequence' =>
      let* next_a := snake_back (Z.to_nat (an_a anchor - old_at)) x (an_a anchor) (an_b anchor) old_at new_at in
      let next_b := an_b anchor - (an_a anchor - next_a) in
      let* i := snake_forward (Z.to_nat (next_a - old_at)) x old_at new_at next_a next_b in
      let* r := bgit_xd_compare x s i next_a (new_at + (i - old_at)) next_b false in
      let '(status, s) := r in
      if status <? 0 then Ret (status, s)
      else between_loop bgit_xd_compare x s sequence' (an_a anchor + 1) (an_b anchor + 1) a1 b1
  end.

Definition bgit_xd_patience `{Qsort} (bgit_xd_compare : comparison)
    (x : bgit_xd) (s : xd_arrays) (a0 a1 b0 b1 : Z) : outcome (Z * xd_arrays) :=
  let na := a1 - a0 in
  let nb := b1 - b0 in
  if refs_overflow na nb then Ret (-1, s)
  else
    let* refs := box_refs x a0 a1 b0 b1 in
    let refs := qsort bgit_line_ref_sort_cmp refs in
    let* anchors := anchors_loop (length refs) refs (Z.max na 1) [] in
    if len anchors =? 0 then Ret (-2, s)
    else
      let anchors := qsort bgit_xd_anchor_cmp anchors in
      let* c := lis_loop (length anchors) anchors (Z.max na 1) 0 [] [] in
      let '(tails, previous) := c in
      let* pick := rd tails (len tails - 1) in
      let* sequence := pick_loop (length tails) anchors previous pick [] in
      between_loop bgit_xd_compare x s sequence a0 b0 a1 b1.

(* ------------------------------------------------------------------ *)
(** ** Histogram *)

(** How often each line of the box's old side occurs there. *)
Fixpoint set_counts (run : list bgit_line_ref) (a0 count : Z) (a_counts : list Z) : outcome (list Z) :=
  match run with
  | [] => Ret a_counts
  | r :: run' =>
      if lr_side r then set_counts run' a0 count a_counts
      else let* a_counts := wr a_counts (lr_position r - a0) count in set_counts run' a0 count a_counts
  end.

Fixpoint a_counts_loop (fuel : nat) (refs : list bgit_line_ref) (a0 : Z) (a_counts : list Z) : outcome (list Z) :=
  match fuel, refs with
  | S fuel', r :: refs' =>
      let '(run, rest) := same_run r refs' in
      let* a_counts := set_counts (r :: run) a0 (len (on_side false (r :: run))) a_counts in
      a_counts_loop fuel' rest a0 a_counts
  | _, _ => Ret a_counts
  end.

Definition ref_at (refs : list bgit_line_ref) (i : Z) : outcome bgit_line_ref :=
  if 0 <=? i then match refs !! Z.to_nat i with Some r => Ret r | None => Fault end else Fault.

(** Where the lines equal to [key] start. *)
Fixpoint key_search (fuel : nat) (refs : list bgit_line_ref) (key : bgit_line_ref) (lo hi : Z) : outcome Z :=
  match fuel with
  | O => Ret lo
  | S fuel' =>
      if lo <? hi then
        let mid := lo + (hi - lo) / 2 in
        let* r := ref_at refs mid in
        if bgit_line_ref_cmp r key <? 0 then key_search fuel' refs key (mid + 1) hi
        else key_search fuel' refs key lo mid
      else Ret lo
  end.

Fixpoint key_run (refs : list bgit_line_ref) (key : bgit_line_ref) : list bgit_line_ref :=
  match refs with
  | r :: refs' => if bgit_line_ref_cmp r key =? 0 then r :: key_run refs' key else []
  | [] => []
  end.

(** How far the lines above a pair match, and those below; and the rarest of
    the lines met. *)
Fixpoint left_loop (fuel : nat) (x : bgit_xd) (a_counts : list Z) (a b a0 b0 lft frequency : Z) : outcome (Z * Z) :=
  match fuel with
  | O => Ret (lft, frequency)
  | S fuel' =>
      if (a - lft - 1 >=? a0) && (b - lft - 1 >=? b0) then
        let* e := bgit_xd_eq x (a - lft - 1) (b - lft - 1) in
        if e then
          let lft := lft + 1 in
          let* frequency :=
            if frequency >? 1 then
              let* c := rd a_counts (a - lft - a0) in
              Ret (if c <? frequency then c else frequency)
            else Ret frequency in
          left_loop fuel' x a_counts a b a0 b0 lft frequency
        else Ret (lft, frequency)
      else Ret (lft, frequency)
  end.

Fixpoint right_loop (fuel : nat) (x : bgit_xd) (a_counts : list Z) (a b a0 a1 b1 rgt frequency : Z) : outcome (Z * Z) :=
  match fuel with
  | O => Ret (rgt, frequency)
  | S fuel' =>
      if (a + rgt <? a1) && (b + rgt <? b1) then
        let* e := bgit_xd_eq x (a + rgt) (b + rgt) in
        if e then
          let* frequency :=
            if frequency >? 1 then
              let* c := rd a_counts (a + rgt - a0) in
              Ret (if c <? frequency then c else frequency)
            else Ret frequency in
          right_loop fuel' x a_counts a b a0 a1 b1 (rgt + 1) frequency
        else Ret (rgt, frequency)
      else Ret (rgt, frequency)
  end.

(** The best run so far. *)
Record best_run := { best_a : Z; best_b : Z; best_len : Z; best_frequency : Z }.

(** The runs through the lines of the old side equal to the one at [b_ptr]. *)
Fixpoint places_loop (x : bgit_xd) (a_counts : list Z) (places : list bgit_line_ref) (acount a0 a1 b0 b1 b_ptr a_next b_next : Z)
    (best : best_run) : outcome (Z * best_run) :=
  match places with
  | [] => Ret (b_next, best)
  | r :: places' =>
      if lr_side r then places_loop x a_counts places' acount a0 a1 b0 b1 b_ptr a_next b_next best
      else
        let a := lr_position r in
        if a <? a_next then places_loop x a_counts places' acount a0 a1 b0 b1 b_ptr a_next b_next best
        else
          let* l := left_loop (Z.to_nat (a - a0)) x a_counts a b_ptr a0 b0 0 acount in
          let '(lft, frequency) := l in
          let* q := right_loop (Z.to_nat (a1 - a)) x a_counts a b_ptr a0 a1 b1 1 frequency in
          let '(rgt, frequency) := q in
          let run := lft + rgt in
          let b_next := if b_ptr + rgt >? b_next then b_ptr + rgt else b_next in
          let a_next := if a + rgt >? a_next then a + rgt else a_next in
          let best :=
            if (run >? best_len best) || (frequency <? best_frequency best) then
              {| best_a := a - lft; best_b := b_ptr - lft; best_len := run; best_frequency := frequency |}
            else best in
          places_loop x a_counts places' acount a0 a1 b0 b1 b_ptr a_next b_next best
  end.

Fixpoint histogram_loop (fuel : nat) (x : bgit_xd) (refs : list bgit_line_ref) (a_counts : list Z) (a0 a1 b0 b1 b_ptr : Z)
    (has_common : bool) (best : best_run) : outcome (bool * best_run) :=
  match fuel with
  | O => Ret (has_common, best)
  | S fuel' =>
      if b_ptr <? b1 then
        let* k := rd (x_ib x) b_ptr in
        let* h := rd (xf_hashes (x_b x)) k in
        let* l := line_at (x_b x) k in
        let key := {| lr_hash := h; lr_line := l; lr_position := b_ptr; lr_side := true |} in
        let* start := key_search (length refs) refs key 0 (len refs) in
        let places := key_run (drop (Z.to_nat start) refs) key in
        let acount := len (on_side false places) in
        let bcount := len (on_side true places) in
        let b_next := b_ptr + 1 in
        if negb (acount =? 0) && negb (bcount =? 0) then
          if acount <=? best_frequency best then
            let* r := places_loop x a_counts places acount a0 a1 b0 b1 b_ptr a0 b_next best in
            let '(b_next, best) := r in
            histogram_loop fuel' x refs a_counts a0 a1 b0 b1 b_next true best
          else histogram_loop fuel' x refs a_counts a0 a1 b0 b1 b_next true best
        else histogram_loop fuel' x refs a_counts a0 a1 b0 b1 b_next has_common best
      else Ret (has_common, best)
  end.

Definition bgit_xd_histogram `{Qsort} (bgit_xd_compare : comparison)
    (x : bgit_xd) (s : xd_arrays) (a0 a1 b0 b1 : Z) (need_min : bool) : outcome (Z * xd_arrays) :=
  let na := a1 - a0 in
  let nb := b1 - b0 in
  if refs_overflow na nb then Ret (-1, s)
  else
    let* refs := box_refs x a0 a1 b0 b1 in
    let refs := qsort bgit_line_ref_sort_cmp refs in
    let* a_counts := a_counts_loop (length refs) refs a0 (zeros (Z.max na 1)) in
    let* r := histogram_loop (Z.to_nat nb) x refs a_counts a0 a1 b0 b1 b0 false
                {| best_a := -1; best_b := -1; best_len := 0; best_frequency := 65 |} in
    let '(has_common, best) := r in
    if best_a best <? 0 then
      if negb has_common then
        let* s := mark_a x s a0 a1 in
        let* s := mark_b x s b0 b1 in
        Ret (0, s)
      else bgit_xd_myers_fallback bgit_xd_compare x s a0 a1 b0 b1 need_min
    else
      let* r := bgit_xd_compare x s a0 (best_a best) b0 (best_b best) need_min in
      let '(status, s) := r in
      if status =? 0 then bgit_xd_compare x s (best_a best + best_len best) a1 (best_b best + best_len best) b1 need_min
      else Ret (status, s).

(* ------------------------------------------------------------------ *)
(** ** The comparison *)

Fixpoint bgit_xd_compare `{Qsort} (fuel : nat) (x : bgit_xd) (s : xd_arrays) (a0 a1 b0 b1 : Z) (need_min : bool)
    : outcome (Z * xd_arrays) :=
  match fuel with
  | O => Fault
  | S fuel' =>
      if a0 =? a1 then let* s := mark_b x s b0 b1 in Ret (0, s)
      else if b0 =? b1 then let* s := mark_a x s a0 a1 in Ret (0, s)
      else if x_algorithm x =? BGIT_XDIFF_PATIENCE then
        let* r := bgit_xd_patience (bgit_xd_compare fuel') x s a0 a1 b0 b1 in
        let '(status, s) := r in
        if negb (status =? -2) then Ret (status, s)
        else bgit_xd_myers_fallback (bgit_xd_compare fuel') x s a0 a1 b0 b1 need_min
      else if x_algorithm x =? BGIT_XDIFF_HISTOGRAM then
        bgit_xd_histogram (bgit_xd_compare fuel') x s a0 a1 b0 b1 need_min
      else
        let* i := snake_forward (Z.to_nat (a1 - a0)) x a0 b0 a1 b1 in
        let b0 := b0 + (i - a0) in
        let a0 := i in
        let* i := snake_back (Z.to_nat (a1 - a0)) x a1 b1 a0 b0 in
        let b1 := b1 - (a1 - i) in
        let a1 := i in
        if a0 =? a1 then let* s := mark_b x s b0 b1 in Ret (0, s)
        else if b0 =? b1 then let* s := mark_a x s a0 a1 in Ret (0, s)
        else
          let* r := bgit_xd_find_split x {| off1 := a0; lim1 := a1; off2 := b0; lim2 := b1 |} need_min (xd_vf s) (xd_vb s) in
          let '(spl, vf, vb) := r in
          let s := {| xd_ca := xd_ca s; xd_cb := xd_cb s; xd_vf := vf; xd_vb := vb |} in
          if ((spl_i1 spl =? a0) && (spl_i2 spl =? b0)) || ((spl_i1 spl =? a1) && (spl_i2 spl =? b1)) then
            let* s := mark_a x s a0 a1 in
            let* s := mark_b x s b0 b1 in
            Ret (0, s)
          else
            let* r := bgit_xd_compare fuel' x s a0 (spl_i1 spl) b0 (spl_i2 spl) (min_lo spl) in
            let '(status, s) := r in
            if status <? 0 then Ret (status, s)
            else bgit_xd_compare fuel' x s (spl_i1 spl) a1 (spl_i2 spl) b1 (min_hi spl)
  end.

(* ------------------------------------------------------------------ *)
(** ** What is left unmarked *)

(** The part of an index from [i] up to [e]. *)
Definition span (index : list Z) (i e : Z) : list Z := slice index i (e - i).

(** The lines of [index] that [c] does not say are changed. *)
Definition kept (file : bgit_xdiff_file) (c index : list Z) : list (list Z) :=
  map (line_of file) (filter (fun i => get c (i + 1) = 0) index).

Definition clear (c index : list Z) : Prop := Forall (fun i => get c (i + 1) = 0) index.

(** [c'] is [c] but for the lines of [index]. *)
Definition only (c c' index : list Z) : Prop := len c' = len c /\ forall k, 0 <= k -> ~ (k - 1) ∈ index -> get c' k = get c k.

Lemma span_split index i m e : 0 <= i -> i <= m <= e -> span index i e = span index i m ++ span index m e.
Proof.
  intros Hi Hm. unfold span. rewrite (slice_split index i (e - i) (m - i)) by lia. do 2 f_equal; lia.
Qed.

Lemma span_nil index i : span index i i = [].
Proof. unfold span. apply slice_nil. lia. Qed.

Lemma span_cons index i e : 0 <= i < e -> e <= len index -> span index i e = get index i :: span index (i + 1) e.
Proof.
  intros Hi He. rewrite (span_split index i (i + 1) e) by lia. unfold span at 1. replace (i + 1 - i) with 1 by lia.
  unfold slice, get, len in *. change (Z.to_nat 1) with 1%nat.
  destruct (drop (Z.to_nat i) index) as [|x l] eqn:E.
  - apply (f_equal length) in E. rewrite length_drop in E. cbn in E. lia.
  - cbn [take]. f_equal. rewrite <- (Nat.add_0_r (Z.to_nat i)) at 1. by rewrite <- nth_skipn, E.
Qed.

Lemma span_in index i e k : k ∈ span index i e -> k ∈ index.
Proof. unfold span, slice. intros H. apply elem_of_take in H as (n & H & _). rewrite lookup_drop in H. by eapply list_elem_of_lookup_2. Qed.

Lemma len_span index i e : 0 <= i <= e -> e <= len index -> len (span index i e) = e - i.
Proof. intros. unfold span. rewrite len_slice; lia. Qed.

Lemma span_index n index i e : index_of n index -> index_of n (span index i e).
Proof. unfold index_of. rewrite !Forall_forall. intros H k Hk. apply H. by apply span_in in Hk. Qed.

Lemma span_NoDup index i e : NoDup index -> NoDup (span index i e).
Proof. intros H. unfold span, slice. apply (NoDup_app (take _ _) (drop (Z.to_nat (e - i)) (drop (Z.to_nat i) index))). rewrite take_drop.
  apply (NoDup_app (take (Z.to_nat i) index)). by rewrite take_drop.
Qed.

Lemma span_disjoint index i m e k : k ∈ span index i m -> k ∈ span index m e -> NoDup index -> 0 <= i -> i <= m <= e -> False.
Proof.
  intros H1 H2 Hn Hi Hm. apply (span_NoDup index i e) in Hn. rewrite (span_split index i m e) in Hn by lia.
  apply NoDup_app in Hn as (_ & Hd & _). by apply (Hd k).
Qed.

Lemma span_mono index i i' e' e k : k ∈ span index i' e' -> 0 <= i -> i <= i' -> i' <= e' -> e' <= e -> k ∈ span index i e.
Proof.
  intros Hk H0 H1 H2 H3. rewrite (span_split index i i' e), (span_split index i' e' e) by lia. apply elem_of_app. right. apply elem_of_app. by left.
Qed.

Lemma only_refl c index : only c c index.
Proof. by split. Qed.

Lemma only_trans c c1 c2 index1 index2 index : only c c1 index1 -> only c1 c2 index2 ->
  (forall k, k ∈ index1 -> k ∈ index) -> (forall k, k ∈ index2 -> k ∈ index) -> only c c2 index.
Proof.
  intros [L1 H1] [L2 H2] S1 S2. split; [lia|]. intros k Hk Hn. rewrite H2, H1; try done; auto.
Qed.

Lemma kept_only file c c' index index' : only c c' index' -> Forall (fun i => 0 <= i) index -> (forall k, k ∈ index -> k ∈ index' -> False) ->
  kept file c' index = kept file c index.
Proof.
  intros [_ Ho] Hi Hd. unfold kept. f_equal. induction Hi as [|i index Hi _ IH]; [done|].
  assert (E : get c' (i + 1) = get c (i + 1)).
  { apply Ho; [lia|]. replace (i + 1 - 1) with i by lia. intros Hin. apply (Hd i); [by left|done]. }
  rewrite !filter_cons, E, IH; [done|]. intros k Hk. apply Hd. by right.
Qed.

Lemma clear_only c c' index index' : only c c' index' -> Forall (fun i => 0 <= i) index -> (forall k, k ∈ index -> k ∈ index' -> False) ->
  clear c index -> clear c' index.
Proof.
  intros [_ Ho] Hi Hd Hc. unfold clear in *. rewrite Forall_forall in *. intros i Hin. rewrite Ho; [auto|specialize (Hi i Hin); lia|].
  replace (i + 1 - 1) with i by lia. eauto.
Qed.

Lemma kept_app file c i1 i2 : kept file c (i1 ++ i2) = kept file c i1 ++ kept file c i2.
Proof. unfold kept. by rewrite filter_app, map_app. Qed.

Lemma kept_clear file c index : clear c index -> kept file c index = map (line_of file) index.
Proof.
  unfold kept, clear. induction 1 as [|i index Hi _ IH]; [done|]. rewrite filter_cons_True by done. cbn. by rewrite IH.
Qed.

Lemma kept_none file c index : Forall (fun i => get c (i + 1) <> 0) index -> kept file c index = [].
Proof. unfold kept. induction 1 as [|i index Hi _ IH]; [done|]. by rewrite filter_cons_False. Qed.

Lemma index_nonneg n index : index_of n index -> Forall (fun i => 0 <= i) index.
Proof. unfold index_of. intros H. eapply Forall_impl; [exact H|]. cbn. lia. Qed.

Lemma mark_changed_ok n index c fuel : index_of n index -> forall i e, (Z.to_nat (e - i) <= fuel)%nat -> 0 <= i <= e -> e <= len index -> n + 2 <= len c ->
  exists c', mark_changed fuel index c i e = Ret c' /\ only c c' (span index i e) /\ Forall (fun i => get c' (i + 1) <> 0) (span index i e).
Proof.
  intros Hx. revert c. induction fuel as [|fuel IH]; intros c i e Hf Hi He Hn; cbn [mark_changed].
  { assert (i = e) as -> by lia. exists c. split; [done|]. rewrite span_nil. split; [apply only_refl|constructor]. }
  destruct (Z.ltb_spec i e).
  2:{ assert (i = e) as -> by lia. exists c. split; [done|]. rewrite span_nil. split; [apply only_refl|constructor]. }
  rewrite rd_get by lia. cbn [obind]. pose proof (get_index n index i Hx ltac:(lia)) as Hk.
  destruct (wr_ok c (get index i + 1) 1) as (c1 & -> & L1 & G1 & O1); [lia|]. cbn [obind].
  destruct (IH c1 (i + 1) e) as (c2 & -> & [L2 O2] & A2); [lia..|]. exists c2. split; [done|]. rewrite (span_cons index i e) by lia. split.
  - split; [lia|]. intros k Hk0 Hnin. apply not_elem_of_cons in Hnin as [N1 N2]. rewrite O2, O1; [done|lia|lia|lia|done].
  - constructor; [|done]. destruct (decide (get index i ∈ span index (i + 1) e)) as [Hin|Hnin].
    + rewrite Forall_forall in A2. by apply A2.
    + rewrite O2, G1; [done|lia|]. by replace (get index i + 1 - 1) with (get index i) by lia.
Qed.

(* ------------------------------------------------------------------ *)
(** ** Parts of a box compared *)

(** A comparison as it is set up: indices without repeats, and few enough
    lines to be numbered. *)
Definition search_ok (x : bgit_xd) : Prop :=
  xd_ok x /\ NoDup (x_ia x) /\ NoDup (x_ib x) /\ refs_overflow (len (x_ia x)) (len (x_ib x)) = false.

Definition fits (x : bgit_xd) (s : xd_arrays) : Prop :=
  len (xd_ca s) = xf_n (x_a x) + 2 /\ len (xd_cb s) = xf_n (x_b x) + 2 /\ len (xd_vf s) = diags x /\ len (xd_vb s) = diags x.

(** A box none of whose lines is marked yet. *)
Definition ready (x : bgit_xd) (s : xd_arrays) (a0 a1 b0 b1 : Z) : Prop :=
  0 <= a0 <= a1 /\ a1 <= len (x_ia x) /\ 0 <= b0 <= b1 /\ b1 <= len (x_ib x) /\ fits x s /\
  clear (xd_ca s) (span (x_ia x) a0 a1) /\ clear (xd_cb s) (span (x_ib x) b0 b1).

(** The box from [a0], [b0] to [a1], [b1] is compared: only its lines are
    marked, and what is left unmarked on both sides is the same. *)
Definition part (x : bgit_xd) (s s' : xd_arrays) (a0 a1 b0 b1 : Z) : Prop :=
  fits x s' /\ only (xd_ca s) (xd_ca s') (span (x_ia x) a0 a1) /\ only (xd_cb s) (xd_cb s') (span (x_ib x) b0 b1) /\
  kept (x_a x) (xd_ca s') (span (x_ia x) a0 a1) = kept (x_b x) (xd_cb s') (span (x_ib x) b0 b1).

Definition compared (x : bgit_xd) (s : xd_arrays) (a0 a1 b0 b1 : Z) (r : outcome (Z * xd_arrays)) : Prop :=
  exists s', r = Ret (0, s') /\ part x s s' a0 a1 b0 b1.

Section Parts.
Context (x : bgit_xd) (Hx : search_ok x).

Lemma Hxd : xd_ok x.
Proof. apply Hx. Qed.

Lemma spans_nonneg i e : Forall (fun k => 0 <= k) (span (x_ia x) i e) /\ Forall (fun k => 0 <= k) (span (x_ib x) i e).
Proof. destruct Hx as [(_ & _ & Ha & Hb & _) _]. split; eapply index_nonneg, span_index; eauto. Qed.

Lemma part_refl s a0 b0 : fits x s -> part x s s a0 a0 b0 b0.
Proof. intros Hs. split; [done|]. rewrite !span_nil. split; [apply only_refl|]. split; [apply only_refl|done]. Qed.

Lemma part_trans s s1 s2 a0 i a1 b0 j b1 : 0 <= a0 <= i -> i <= a1 -> 0 <= b0 <= j -> j <= b1 ->
  part x s s1 a0 i b0 j -> part x s1 s2 i a1 j b1 -> part x s s2 a0 a1 b0 b1.
Proof.
  intros Ha Hi Hb Hj (F1 & A1 & B1 & K1) (F2 & A2 & B2 & K2). destruct Hx as (_ & Na & Nb & _). split; [done|].
  split; [|split].
  - eapply only_trans; [exact A1|exact A2|..]; intros k Hk; apply (span_mono _ _ _ _ _ _ Hk); lia.
  - eapply only_trans; [exact B1|exact B2|..]; intros k Hk; apply (span_mono _ _ _ _ _ _ Hk); lia.
  - rewrite (span_split (x_ia x) a0 i a1), (span_split (x_ib x) b0 j b1), !kept_app by lia. rewrite <- K2. f_equal.
    rewrite (kept_only _ _ _ _ _ A2), (kept_only _ _ _ _ _ B2); [done|apply spans_nonneg| |apply spans_nonneg|];
      intros k H1 H2; apply (span_disjoint _ _ _ _ _ H1 H2); done || lia.
Qed.

Lemma part_ready s s1 a0 i a1 b0 j b1 : a0 <= i <= a1 -> b0 <= j <= b1 -> ready x s a0 a1 b0 b1 -> part x s s1 a0 i b0 j -> ready x s1 i a1 j b1.
Proof.
  intros Hi Hj (H1 & H2 & H3 & H4 & F & Ca & Cb) (F1 & A1 & B1 & _). destruct Hx as (_ & Na & Nb & _).
  rewrite (span_split (x_ia x) a0 i a1) in Ca by lia. rewrite (span_split (x_ib x) b0 j b1) in Cb by lia.
  apply Forall_app in Ca as [_ Ca]. apply Forall_app in Cb as [_ Cb].
  do 4 (split; [lia|]). split; [done|].
  split; (eapply clear_only; [eassumption|apply spans_nonneg| |eassumption]);
    intros k K1 K2; apply (span_disjoint _ _ _ _ _ K2 K1); done || lia.
Qed.

Lemma ready_sub s a0 a1 b0 b1 a0' a1' b0' b1' : ready x s a0 a1 b0 b1 -> a0 <= a0' -> a0' <= a1' -> a1' <= a1 -> b0 <= b0' -> b0' <= b1' -> b1' <= b1 ->
  ready x s a0' a1' b0' b1'.
Proof.
  intros (H1 & H2 & H3 & H4 & F & Ca & Cb) ? ? ? ? ? ?. do 4 (split; [lia|]). split; [done|]. unfold clear in *.
  split; apply Forall_forall; intros k Hk; rewrite Forall_forall in Ca, Cb; [apply Ca|apply Cb]; apply (span_mono _ _ _ _ _ _ Hk); lia.
Qed.

(** Lines that match, one by one. *)
Definition matching (i j n : Z) : Prop := forall t, 0 <= t < n -> la x (i + t) = lb x (j + t).

Lemma part_diag s i j n : 0 <= n -> ready x s i (i + n) j (j + n) -> matching i j n -> part x s s i (i + n) j (j + n).
Proof.
  intros Hn (H1 & H2 & H3 & H4 & F & Ca & Cb) Hm. split; [done|]. split; [apply only_refl|]. split; [apply only_refl|].
  rewrite !kept_clear by done. clear Ca Cb. revert i j H1 H2 H3 H4 Hm. pattern n. apply natlike_ind; [| |done].
  - intros i j ? ? ? ? _. by rewrite !Z.add_0_r, !span_nil.
  - intros m Hm0 IH i j ? ? ? ? Hm. rewrite (span_cons (x_ia x) i), (span_cons (x_ib x) j) by lia. cbn [map]. f_equal.
    + specialize (Hm 0 ltac:(lia)). by rewrite !Z.add_0_r in Hm.
    + replace (i + Z.succ m) with (i + 1 + m) by lia. replace (j + Z.succ m) with (j + 1 + m) by lia. apply IH; try lia.
      intros t Ht. specialize (Hm (t + 1) ltac:(lia)). by replace (i + 1 + t) with (i + (t + 1)) by lia; replace (j + 1 + t) with (j + (t + 1)) by lia.
Qed.

Lemma mark_a_ok s a0 a1 b0 b1 : ready x s a0 a1 b0 b1 ->
  exists s', mark_a x s a0 a1 = Ret s' /\ part x s s' a0 a1 b0 b0 /\ xd_cb s' = xd_cb s.
Proof.
  intros (H1 & H2 & H3 & H4 & (F1 & F2 & F3) & _). destruct Hxd as (_ & _ & Ha & _). unfold mark_a.
  destruct (mark_changed_ok _ (x_ia x) (xd_ca s) (Z.to_nat (a1 - a0)) Ha a0 a1) as (c & -> & O & A); [lia..|]. cbn [obind].
  eexists. split; [done|]. split; [|done]. destruct O as [L O]. split; [by split; [cbn; lia|]|]. split; [by split|]. rewrite !span_nil.
  split; [apply only_refl|]. by rewrite kept_none.
Qed.

Lemma mark_b_ok s a0 a1 b0 b1 : ready x s a0 a1 b0 b1 ->
  exists s', mark_b x s b0 b1 = Ret s' /\ part x s s' a1 a1 b0 b1.
Proof.
  intros (H1 & H2 & H3 & H4 & (F1 & F2 & F3) & _). destruct Hxd as (_ & _ & _ & Hb & _). unfold mark_b.
  destruct (mark_changed_ok _ (x_ib x) (xd_cb s) (Z.to_nat (b1 - b0)) Hb b0 b1) as (c & -> & O & A); [lia..|]. cbn [obind].
  eexists. split; [done|]. destruct O as [L O]. split; [by split; [done|split; [cbn; lia|]]|]. rewrite !span_nil. split; [apply only_refl|].
  split; [by split|]. by rewrite (kept_none (x_b x)).
Qed.

(** All of a box is changed. *)
Lemma mark_both_ok s a0 a1 b0 b1 : ready x s a0 a1 b0 b1 ->
  exists s', (let* s := mark_a x s a0 a1 in mark_b x s b0 b1) = Ret s' /\ part x s s' a0 a1 b0 b1.
Proof.
  intros Hr. destruct (mark_a_ok s a0 a1 b0 b1 Hr) as (s1 & -> & P1 & _). cbn [obind].
  assert (Hb := Hr). destruct Hb as (H1 & H2 & H3 & H4 & _).
  destruct (mark_b_ok s1 a1 a1 b0 b1) as (s2 & -> & P2); [eapply part_ready; [..|exact Hr|exact P1]; lia|].
  exists s2. split; [done|]. eapply part_trans; [..|exact P1|exact P2]; lia.
Qed.

(** The runs of matching lines at either end. *)
Lemma run_forward fuel : forall i1 i2 l1 l2, 0 <= i1 <= l1 -> 0 <= i2 <= l2 -> l1 <= len (x_ia x) -> l2 <= len (x_ib x) ->
  exists r, snake_forward fuel x i1 i2 l1 l2 = Ret r /\ i1 <= r <= l1 /\ i2 + (r - i1) <= l2 /\ matching i1 i2 (r - i1).
Proof.
  induction fuel as [|fuel IH]; intros i1 i2 l1 l2 H1 H2 H3 H4; cbn [snake_forward].
  { exists i1. split; [done|]. split; [lia|]. split; [lia|]. intros t Ht. lia. }
  destruct ((i1 <? l1) && (i2 <? l2)) eqn:E.
  2:{ exists i1. split; [done|]. split; [lia|]. split; [lia|]. intros t Ht. lia. }
  simpl_bool. rewrite xd_eq_ok by (apply Hxd || lia). cbn [obind]. case_bool_decide as Heq.
  2:{ exists i1. split; [done|]. split; [lia|]. split; [lia|]. intros t Ht. lia. }
  destruct (IH (i1 + 1) (i2 + 1) l1 l2) as (r & -> & Hr & Hl & Hm); [lia..|]. exists r. split; [done|]. split; [lia|]. split; [lia|].
  intros t Ht. destruct (Z.eq_dec t 0) as [->|]; [by rewrite !Z.add_0_r|]. specialize (Hm (t - 1) ltac:(lia)).
  by replace (i1 + t) with (i1 + 1 + (t - 1)) by lia; replace (i2 + t) with (i2 + 1 + (t - 1)) by lia.
Qed.

Lemma run_back fuel : forall i1 i2 o1 o2, 0 <= o1 <= i1 -> 0 <= o2 <= i2 -> i1 <= len (x_ia x) -> i2 <= len (x_ib x) ->
  exists r, snake_back fuel x i1 i2 o1 o2 = Ret r /\ o1 <= r <= i1 /\ o2 <= i2 - (i1 - r) /\ matching r (i2 - (i1 - r)) (i1 - r).
Proof.
  induction fuel as [|fuel IH]; intros i1 i2 o1 o2 H1 H2 H3 H4; cbn [snake_back].
  { exists i1. split; [done|]. split; [lia|]. split; [lia|]. intros t Ht. lia. }
  destruct ((i1 >? o1) && (i2 >? o2)) eqn:E.
  2:{ exists i1. split; [done|]. split; [lia|]. split; [lia|]. intros t Ht. lia. }
  simpl_bool. rewrite xd_eq_ok by (apply Hxd || lia). cbn [obind]. case_bool_decide as Heq.
  2:{ exists i1. split; [done|]. split; [lia|]. split; [lia|]. intros t Ht. lia. }
  destruct (IH (i1 - 1) (i2 - 1) o1 o2) as (r & -> & Hr & Hl & Hm); [lia..|]. exists r. split; [done|]. split; [lia|]. split; [lia|].
  intros t Ht. destruct (Z.eq_dec t (i1 - 1 - r)) as [->|].
  - by replace (r + (i1 - 1 - r)) with (i1 - 1) by lia; replace (i2 - (i1 - r) + (i1 - 1 - r)) with (i2 - 1) by lia.
  - specialize (Hm t ltac:(lia)). by replace (i2 - (i1 - r)) with (i2 - 1 - (i1 - 1 - r)) by lia.
Qed.
End Parts.

(* ------------------------------------------------------------------ *)
(** ** Falling back to a classic search of part of a box *)

Lemma kept_sublist file c index src : index `sublist_of` src -> NoDup src ->
  (forall k, k ∈ src -> ~ k ∈ index -> get c (k + 1) <> 0) -> kept file c src = kept file c index.
Proof.
  unfold kept. intros Hs Hn Hc. f_equal. induction Hs as [|k index src Hs IH|k index src Hs IH]; [done|..].
  - apply NoDup_cons in Hn as [Hk Hn]. rewrite !filter_cons, IH; [done|done|].
    intros j Hj Hji. apply Hc; [by right|]. intros [->|]%elem_of_cons; [by apply Hk|done].
  - apply NoDup_cons in Hn as [Hk Hn]. rewrite filter_cons_False.
    + apply IH; [done|]. intros j Hj. apply Hc. by right.
    + apply Hc; [by left|]. intros Hin. apply Hk. by eapply elem_of_sublist.
Qed.

Lemma discard_loop_ok n dis s e : 0 <= s -> e < len dis -> forall src i c, index_of n src -> NoDup src -> clear c src ->
  s <= i -> i + len src <= e + 1 -> n + 2 <= len c ->
  exists index c', discard_loop src i dis c s e = Ret (index, c') /\ index `sublist_of` src /\ only c c' src /\ clear c' index /\
    forall k, k ∈ src -> ~ k ∈ index -> get c' (k + 1) <> 0.
Proof.
  intros Hs He. induction src as [|k src IH]; intros i c Hx Hn Hc Hi Hle Hl; cbn [discard_loop].
  { exists [], c. split; [done|]. split; [constructor|]. split; [apply only_refl|]. split; [constructor|]. intros j Hj. by apply elem_of_nil in Hj. }
  unfold index_of in Hx. apply Forall_cons in Hx as [Hk Hx]. apply NoDup_cons in Hn as [Hnk Hn]. unfold clear in Hc. apply Forall_cons in Hc as [Hck Hc].
  rewrite len_cons in Hle. pose proof (len_nonneg src). destruct (searched_ok dis i s e Hs He) as (keep & ->); [lia|]. cbn [obind]. destruct keep.
  - destruct (IH (i + 1) c Hx Hn Hc ltac:(lia) ltac:(lia) Hl) as (index & c' & -> & Hsub & [Lo Ho] & Hcl & Hm). cbn [obind].
    assert (Hkc : get c' (k + 1) = 0). { rewrite Ho; [done|lia|]. by replace (k + 1 - 1) with k by lia. }
    eexists _, c'. split; [done|]. split; [by constructor|]. split; [|split; [by constructor|]].
    + split; [done|]. intros j Hj Hjn. apply Ho; [done|]. intros Hin. apply Hjn. by right.
    + intros j [->|Hj]%elem_of_cons Hji; [exfalso; apply Hji; by left|]. apply Hm; [done|]. intros Hin. apply Hji. by right.
  - destruct (wr_ok c (k + 1) 1) as (c1 & -> & L1 & G1 & O1); [lia|]. cbn [obind].
    assert (Hc1 : clear c1 src).
    { unfold clear. apply Forall_forall. intros j Hj. rewrite Forall_forall in Hc, Hx. rewrite O1; [by apply Hc|specialize (Hx j Hj); lia|]. intros E. apply Hnk. by replace k with j by lia. }
    destruct (IH (i + 1) c1 Hx Hn Hc1 ltac:(lia) ltac:(lia) ltac:(lia)) as (index & c' & -> & Hsub & [Lo Ho] & Hcl & Hm).
    exists index, c'. split; [done|]. split; [by constructor|]. split; [|split; [done|]].
    + split; [lia|]. intros j Hj Hjn. apply not_elem_of_cons in Hjn as [N1 N2]. rewrite Ho, O1; [done|done|lia|done|done].
    + intros j [->|Hj]%elem_of_cons Hji; [|by apply Hm]. rewrite Ho, G1; [done|lia|]. by replace (k + 1 - 1) with k by lia.
Qed.

Definition measure (x : bgit_xd) (a0 a1 b0 b1 : Z) : Z := 2 * (a1 - a0 + (b1 - b0)) + (if x_algorithm x =? 0 then 0 else 1).

(** A comparison that is right on boxes smaller than [m]. *)
Definition works (m : Z) (cmp : comparison) : Prop := forall x s a0 a1 b0 b1 need_min, search_ok x -> ready x s a0 a1 b0 b1 ->
  measure x a0 a1 b0 b1 < m -> compared x s a0 a1 b0 b1 (cmp x s a0 a1 b0 b1 need_min).

Lemma sublist_len {A} (l k : list A) : l `sublist_of` k -> len l <= len k.
Proof. intros H%sublist_length. unfold len. lia. Qed.

Lemma sublist_index n l k : l `sublist_of` k -> index_of n k -> index_of n l.
Proof. unfold index_of. rewrite !Forall_forall. intros H Hk i Hi. apply Hk. by eapply elem_of_sublist. Qed.

Lemma refs_overflow_mono na nb na' nb' : 0 <= na' <= na -> 0 <= nb' <= nb -> refs_overflow na nb = false -> refs_overflow na' nb' = false.
Proof. unfold refs_overflow. intros Ha Hb H. simpl_bool. solve_false. Qed.

Lemma fallback_ok `{Qsort} cmp x s a0 a1 b0 b1 need_min : search_ok x -> ready x s a0 a1 b0 b1 -> x_algorithm x <> 0 ->
  works (measure x a0 a1 b0 b1) cmp -> compared x s a0 a1 b0 b1 (bgit_xd_myers_fallback cmp x s a0 a1 b0 b1 need_min).
Proof.
  intros Hx Hr Halg Hw. destruct Hx as ((Wa & Wb & Ia & Ib & Hbase & Hlen) & Na & Nb & Hov). destruct Hr as (H1 & H2 & H3 & H4 & (F1 & F2 & F3 & F4) & Ca & Cb).
  unfold bgit_xd_myers_fallback. rewrite !rdn_slice by lia. cbn [obind]. fold (span (x_ia x) a0 a1) (span (x_ib x) b0 b1).
  destruct (match_counts_ok (x_a x) (x_b x) (span (x_ia x) a0 a1) (span (x_ib x) b0 b1) Wa Wb) as (ma & mb & -> & L1 & L2); [by apply span_index..|].
  cbn [obind]. rewrite len_span in L1, L2 by lia.
  set (dis_a := map _ (take (Z.to_nat (a1 - a0)) ma)). set (dis_b := map _ (take (Z.to_nat (b1 - b0)) mb)).
  assert (len dis_a = a1 - a0 /\ len dis_b = b1 - b0) as [La Lb].
  { unfold dis_a, dis_b, len in *. rewrite !length_map, !length_take. lia. }
  destruct (discard_loop_ok (xf_n (x_a x)) dis_a 0 (a1 - a0 - 1) ltac:(lia) ltac:(lia) (span (x_ia x) a0 a1) 0 (xd_ca s)) as (ia & ca & -> & Sa & Oa & Cla & Ma);
    [by apply span_index|by apply span_NoDup|done|lia|rewrite len_span; lia|lia|]. cbn [obind].
  destruct (discard_loop_ok (xf_n (x_b x)) dis_b 0 (b1 - b0 - 1) ltac:(lia) ltac:(lia) (span (x_ib x) b0 b1) 0 (xd_cb s)) as (ib & cb & -> & Sb & Ob & Clb & Mb);
    [by apply span_index|by apply span_NoDup|done|lia|rewrite len_span; lia|lia|]. cbn [obind].
  pose proof (sublist_len _ _ Sa) as Lsa. pose proof (sublist_len _ _ Sb) as Lsb. rewrite len_span in Lsa, Lsb by lia.
  pose proof (len_nonneg ia). pose proof (len_nonneg ib).
  match goal with |- context [cmp ?f ?t _ _ _ _ _] => set (x' := f); set (s1 := t) end.
  assert (Hx' : search_ok x').
  { split; [|split; [|split]]; cbn.
    - unfold xd_ok. cbn [x_a x_b x_ia x_ib x_base x']. split; [done|]. split; [done|]. split; [|split; [|split; [done|lia]]]; (eapply sublist_index; [eassumption|by apply span_index]).
    - eapply sublist_NoDup; [exact (span_NoDup _ a0 a1 Na)|done].
    - eapply sublist_NoDup; [exact (span_NoDup _ b0 b1 Nb)|done].
    - eapply refs_overflow_mono; [..|exact Hov]; lia. }
  assert (Hfull : forall l, span l 0 (len l) = l) by (intros l; unfold span; apply slice_full; lia).
  destruct (Hw x' s1 0 (len ia) 0 (len ib) need_min Hx') as (s' & -> & (P1 & P2 & P3 & P4) & P5 & P6 & P7).
  - split; [lia|]. split; [cbn; lia|]. split; [lia|]. split; [cbn; lia|]. split; [|by cbn; rewrite !Hfull].
    destruct Oa as [Oa _], Ob as [Ob _]. split; [cbn; lia|]. split; [cbn; lia|]. unfold diags. cbn. rewrite len_zeros by lia. lia.
  - unfold measure. cbn [x_algorithm x']. rewrite Z.eqb_refl. rewrite (proj2 (Z.eqb_neq _ _) Halg). lia.
  - cbn [obind]. eexists. split; [done|]. cbn in P5, P6, P7. rewrite (Hfull ia) in P5, P7. rewrite (Hfull ib) in P6, P7.
    assert (Ina : forall k, k ∈ ia -> k ∈ span (x_ia x) a0 a1) by (intros k Hk; by eapply elem_of_sublist).
    assert (Inb : forall k, k ∈ ib -> k ∈ span (x_ib x) b0 b1) by (intros k Hk; by eapply elem_of_sublist).
    split; [by split|]. cbn [xd_ca xd_cb]. split; [by eapply only_trans|]. split; [by eapply only_trans|].
    rewrite (kept_sublist (x_a x) (xd_ca s') ia), (kept_sublist (x_b x) (xd_cb s') ib); [done|done|by apply span_NoDup| |done|by apply span_NoDup|].
    + intros k Hk Hki. destruct P6 as [_ P6]. pose proof (proj1 (Forall_forall _ _) (index_nonneg _ _ (span_index _ _ b0 b1 Ib)) k Hk) as Hk0. cbn in Hk0.
      rewrite P6; [by apply Mb|lia|]. by replace (k + 1 - 1) with k by lia.
    + intros k Hk Hki. destruct P5 as [_ P5]. pose proof (proj1 (Forall_forall _ _) (index_nonneg _ _ (span_index _ _ a0 a1 Ia)) k Hk) as Hk0. cbn in Hk0.
      rewrite P5; [by apply Ma|lia|]. by replace (k + 1 - 1) with k by lia.
Qed.

(* ------------------------------------------------------------------ *)
(** ** Lines in order, and the anchors among them *)

Lemma ref_cmp_line a b : bgit_line_ref_cmp a b = 0 -> lr_line a = lr_line b.
Proof.
  unfold bgit_line_ref_cmp. case_if; [case_if; lia|]. set (n := Z.to_nat _). case_if; [intros E; simpl_bool; lia|]. simpl_bool.
  case_if; [lia|]. case_if; [lia|]. intros _. simpl_bool. assert (L : len (lr_line a) = len (lr_line b)) by lia.
  match goal with Hb : bcmp _ _ = 0 |- _ => apply bcmp_eq in Hb; rename Hb into Ht end. unfold n, len in *.
  rewrite !take_ge in Ht by lia. done.
Qed.

Lemma same_run_equal r refs run rest : same_run r refs = (run, rest) -> Forall (fun m => lr_line m = lr_line r) run.
Proof.
  revert run rest. induction refs as [|m refs IH]; intros run rest E; cbn in E; [by injection E as <- <-|].
  destruct (Z.eqb_spec (bgit_line_ref_cmp r m) 0) as [E0|]; [|by injection E as <- <-]. destruct (same_run r refs) as [run' rest'].
  injection E as <- <-. constructor; [|by eapply IH]. symmetry. by apply ref_cmp_line.
Qed.

(** A line of the box, as it is in the files. *)
Definition box_ref (x : bgit_xd) (a0 a1 b0 b1 : Z) (r : bgit_line_ref) : Prop :=
  if lr_side r then b0 <= lr_position r < b1 /\ lr_line r = lb x (lr_position r)
  else a0 <= lr_position r < a1 /\ lr_line r = la x (lr_position r).

Definition positions (refs : list bgit_line_ref) : list Z := map (fun r => lr_position r) refs.

Lemma count_up_NoDup from n : NoDup (count_up from n).
Proof. unfold count_up. apply NoDup_fmap_2; [intros i j; lia|]. apply NoDup_seq. Qed.

Lemma count_up_in from n k : 0 <= n -> k ∈ count_up from n -> from <= k < from + n.
Proof. unfold count_up. intros Hn. rewrite list_elem_of_fmap. intros (j & -> & Hj). apply elem_of_seq in Hj. lia. Qed.

Lemma get_span index i e k : 0 <= i -> 0 <= k < e - i -> e <= len index -> get (span index i e) k = get index (i + k).
Proof.
  intros Hi Hk He. unfold span, slice, get. rewrite nth_lookup, lookup_take_lt, lookup_drop, <- nth_lookup by lia. f_equal. lia.
Qed.

Lemma on_side_all side refs : Forall (fun r => lr_side r = side) refs -> on_side side refs = refs /\ on_side (negb side) refs = [].
Proof.
  unfold on_side. induction 1 as [|r refs Hr _ [IH1 IH2]]; [done|]. rewrite filter_cons_True by done. rewrite filter_cons_False by (rewrite Hr; by destruct side).
  by rewrite IH1.
Qed.

Lemma box_refs_ok x s a0 a1 b0 b1 : search_ok x -> ready x s a0 a1 b0 b1 ->
  exists refs, box_refs x a0 a1 b0 b1 = Ret refs /\ Forall (box_ref x a0 a1 b0 b1) refs /\ positions (on_side false refs) = count_up a0 (a1 - a0).
Proof.
  intros ((Wa & Wb & Ia & Ib & _) & _) (H1 & H2 & H3 & H4 & _). unfold box_refs. rewrite !rdn_slice by lia. cbn [obind].
  fold (span (x_ia x) a0 a1) (span (x_ib x) b0 b1).
  destruct (side_refs_ok (x_a x) (span (x_ia x) a0 a1) false Wa (span_index _ _ _ _ Ia) a0) as (ra & -> & Pa & Ra).
  destruct (side_refs_ok (x_b x) (span (x_ib x) b0 b1) true Wb (span_index _ _ _ _ Ib) b0) as (rb & -> & Pb & Rb).
  cbn [obind]. exists (ra ++ rb). split; [done|]. rewrite !len_span in Pa, Pb by lia.
  assert (Hpos : forall refs from n, 0 <= n -> map (fun r => lr_position r) refs = count_up from n -> Forall (fun r => from <= lr_position r < from + n) refs).
  { intros refs from n Hn Hm. apply Forall_forall. intros r Hr. apply count_up_in; [done|]. rewrite <- Hm. by apply list_elem_of_fmap_2. }
  pose proof (Hpos ra a0 (a1 - a0) ltac:(lia) Pa) as Qa. pose proof (Hpos rb b0 (b1 - b0) ltac:(lia) Pb) as Qb. rewrite Forall_forall in Ra, Rb, Qa, Qb. split.
  - apply Forall_app. split; apply Forall_forall; intros r Hr; unfold box_ref.
    + destruct (Ra r Hr) as (-> & _ & ->). specialize (Qa r Hr). split; [lia|]. unfold la. rewrite get_span by lia. do 2 f_equal. lia.
    + destruct (Rb r Hr) as (-> & _ & ->). specialize (Qb r Hr). split; [lia|]. unfold lb. rewrite get_span by lia. do 2 f_equal. lia.
  - unfold on_side. rewrite filter_app. fold (on_side false ra) (on_side false rb).
    destruct (on_side_all false ra) as [-> _]; [apply Forall_forall; intros r Hr; by destruct (Ra r Hr)|].
    destruct (on_side_all true rb) as [_ E]; [apply Forall_forall; intros r Hr; by destruct (Rb r Hr)|]. cbn in E. by rewrite E, app_nil_r.
Qed.

(** An anchor pairs two equal lines of the box. *)
Definition anchor_ok (x : bgit_xd) (a0 a1 b0 b1 : Z) (a : bgit_xd_anchor) : Prop :=
  a0 <= an_a a < a1 /\ b0 <= an_b a < b1 /\ la x (an_a a) = lb x (an_b a).

Lemma put_end {A} cap (l : list A) v : len l < cap -> put cap l (len l) v = Ret (l ++ [v]).
Proof.
  intros Hc. unfold put. pose proof (len_nonneg l). replace ((0 <=? len l) && (len l <=? len l) && (len l <? cap)) with true by (symmetry; solve_true).
  by rewrite Z.eqb_refl.
Qed.

Lemma anchors_loop_ok x a0 a1 b0 b1 cap fuel : forall refs anchors, Forall (box_ref x a0 a1 b0 b1) refs ->
  len anchors + len (on_side false refs) <= cap ->
  exists found, anchors_loop fuel refs cap anchors = Ret (anchors ++ found) /\ Forall (anchor_ok x a0 a1 b0 b1) found /\
    map an_a found `sublist_of` positions (on_side false refs).
Proof.
  induction fuel as [|fuel IH]; intros refs anchors Hr Hc.
  { exists []. rewrite app_nil_r. split; [done|]. split; [constructor|apply sublist_nil_l]. }
  destruct refs as [|r refs].
  { exists []. rewrite app_nil_r. split; [done|]. split; [constructor|constructor]. }
  cbn [anchors_loop]. destruct (same_run r refs) as [run rest] eqn:E. pose proof (same_run_equal _ _ _ _ E) as Heq.
  apply same_run_split in E as ->. rewrite app_comm_cons in Hr, Hc |- *. apply Forall_app in Hr as [Hg Hrest].
  assert (Heq' : Forall (fun m => lr_line m = lr_line r) (r :: run)) by by constructor. set (group := r :: run) in *. clearbody group. clear Heq run.
  unfold on_side in Hc |- *. rewrite filter_app in Hc. rewrite filter_app. fold (on_side false group) (on_side false rest) (on_side true group) in *.
  unfold positions. rewrite map_app. fold (positions (on_side false rest)). rewrite len_app in Hc. pose proof (len_nonneg (on_side false group)).
  assert (Hskip : exists found, anchors_loop fuel rest cap anchors = Ret (anchors ++ found) /\ Forall (anchor_ok x a0 a1 b0 b1) found /\
    map an_a found `sublist_of` map (fun r => lr_position r) (on_side false group) ++ positions (on_side false rest)).
  { destruct (IH rest anchors Hrest ltac:(lia)) as (found & -> & F & S). exists found. split; [done|]. split; [done|]. by apply sublist_inserts_l. }
  destruct (on_side false group) as [|ra [|]] eqn:Ea; [exact Hskip| |exact Hskip].
  destruct (on_side true group) as [|rb [|]] eqn:Eb; [exact Hskip| |exact Hskip]. clear Hskip.
  pose proof (len_nonneg (on_side false rest)). rewrite len_cons, len_nil in Hc. rewrite put_end by lia. cbn [obind].
  destruct (IH rest (anchors ++ [{| an_a := lr_position ra; an_b := lr_position rb |}]) Hrest) as (found & -> & F & S).
  { rewrite len_app, len_cons, len_nil. lia. }
  eexists. split; [by rewrite <- app_assoc|]. split; [|cbn; by constructor].
  constructor; [|done]. rewrite Forall_forall in Hg, Heq'.
  assert (Ia : ra ∈ group /\ lr_side ra = false) by (assert (I : ra ∈ on_side false group) by (rewrite Ea; by left); unfold on_side in I; apply list_elem_of_filter in I; tauto).
  assert (Ib : rb ∈ group /\ lr_side rb = true) by (assert (I : rb ∈ on_side true group) by (rewrite Eb; by left); unfold on_side in I; apply list_elem_of_filter in I; tauto).
  destruct Ia as [Ia Sa], Ib as [Ib Sb]. pose proof (Hg ra Ia) as Ga. pose proof (Hg rb Ib) as Gb. unfold box_ref in Ga, Gb. rewrite Sa in Ga. rewrite Sb in Gb.
  destruct Ga as [Ga1 Ga2], Gb as [Gb1 Gb2]. split; [done|]. split; [done|]. cbn. rewrite <- Ga2, <- Gb2. by rewrite (Heq' ra Ia), (Heq' rb Ib).
Qed.

(* ------------------------------------------------------------------ *)
(** ** The chain of anchors *)

Section Chain.
Context (anchors : list bgit_xd_anchor).

Definition anch (i : Z) : bgit_xd_anchor := nth (Z.to_nat i) anchors {| an_a := 0; an_b := 0 |}.

Lemma anchor_at_ok i : 0 <= i < len anchors -> anchor_at anchors i = Ret (anch i).
Proof.
  intros Hi. unfold anchor_at, anch, len in *. replace (0 <=? i) with true by (symmetry; solve_true).
  destruct (lookup_lt_is_Some_2 anchors (Z.to_nat i)) as [a E]; [lia|]. rewrite E. f_equal. symmetry. by apply nth_lookup_Some.
Qed.

(** The anchors sorted, no two at a place. *)
Definition rising (u v : bgit_xd_anchor) : Prop := an_a u < an_a v /\ an_b u < an_b v.

Lemma tails_search_ok tails b : (forall m, 0 <= m < len tails -> 0 <= get tails m < len anchors) -> forall fuel lo hi, 0 <= lo <= hi -> hi <= len tails ->
  (lo = 0 \/ an_b (anch (get tails (lo - 1))) < b) ->
  exists r, tails_search fuel anchors tails b lo hi = Ret r /\ lo <= r <= hi /\ (r = 0 \/ an_b (anch (get tails (r - 1))) < b).
Proof.
  intros Ht. induction fuel as [|fuel IH]; intros lo hi Hlo Hhi Hinv; cbn [tails_search]; [exists lo; split; [done|]; split; [lia|done]|].
  destruct (Z.ltb_spec lo hi); [|exists lo; split; [done|]; split; [lia|done]]. set (mid := lo + (hi - lo) / 2).
  assert (Hmid : lo <= mid < hi) by (unfold mid; Z.div_mod_to_equations; lia).
  rewrite rd_get by lia. cbn [obind]. rewrite anchor_at_ok by (apply Ht; lia). cbn [obind].
  destruct (Z.ltb_spec (an_b (anch (get tails mid))) b).
  - destruct (IH (mid + 1) hi) as (r & -> & R1 & R2); [lia|lia|right; by replace (mid + 1 - 1) with mid by lia|]. exists r. split; [done|]. split; [lia|done].
  - destruct (IH lo mid) as (r & -> & R1 & R2); [lia|lia|done|]. exists r. split; [done|]. split; [lia|done].
Qed.

(** Each anchor is the end of a chain of [lv + 1], or what it says is before it
    is, with one less. *)
Definition chained (i : Z) (tails previous : list Z) (lv : Z -> Z) : Prop :=
  len previous = i /\ len tails <= i /\ (0 < i -> 0 < len tails) /\
  (forall j, 0 <= j < i -> 0 <= lv j /\ (0 < lv j -> 0 <= get previous j < j /\ lv (get previous j) = lv j - 1 /\
     an_b (anch (get previous j)) < an_b (anch j))) /\
  forall m, 0 <= m < len tails -> 0 <= get tails m < i /\ lv (get tails m) = m.

Lemma get_app_l l k i : 0 <= i < len l -> get (l ++ k) i = get l i.
Proof. intros Hi. unfold get, len in *. apply app_nth1. lia. Qed.

Lemma get_app_end l v : get (l ++ [v]) (len l) = v.
Proof. unfold get, len. rewrite app_nth2 by lia. by replace (Z.to_nat (Z.of_nat (length l)) - length l)%nat with 0%nat by lia. Qed.

Lemma put_ok cap l i v : 0 <= i <= len l -> i < cap -> exists l', put cap l i v = Ret l' /\ len l' = Z.max (len l) (i + 1) /\ get l' i = v /\
  forall k, 0 <= k < len l -> k <> i -> get l' k = get l k.
Proof.
  intros Hi Hc. unfold put. replace ((0 <=? i) && (i <=? len l) && (i <? cap)) with true by (symmetry; solve_true).
  eexists. split; [done|]. destruct (Z.eqb_spec i (len l)) as [->|Hne].
  - rewrite len_app, len_cons, len_nil, get_app_end. split; [lia|]. split; [done|]. intros k Hk _. by apply get_app_l.
  - destruct (wr_ok l i v) as (l' & E & L & G & O); [lia|]. unfold wr in E.
    replace ((0 <=? i) && (i <? len l)) with true in E by (symmetry; solve_true). injection E as ->.
    split; [lia|]. split; [done|]. intros k Hk Hki. apply O; lia.
Qed.

Lemma lis_loop_ok cap : len anchors <= cap -> forall fuel i tails previous lv, chained i tails previous lv -> 0 <= i ->
  len anchors <= i + Z.of_nat fuel -> i <= len anchors ->
  exists tails' previous' lv', lis_loop fuel anchors cap i tails previous = Ret (tails', previous') /\ chained (len anchors) tails' previous' lv'.
Proof.
  intros Hcap. induction fuel as [|fuel IH]; intros i tails previous lv Hch Hi0 Hf Hin; cbn [lis_loop].
  { assert (i = len anchors) as -> by lia. by exists tails, previous, lv. }
  destruct (Z.ltb_spec i (len anchors)); [|assert (i = len anchors) as -> by lia; by exists tails, previous, lv].
  destruct Hch as (Hp & Ht & Hpos & Hlv & Hends). rewrite anchor_at_ok by lia. cbn [obind].
  destruct (tails_search_ok tails (an_b (anch i))) with (fuel := length tails) (lo := 0) (hi := len tails) as (lo & -> & Hlo & Hb);
    [intros m Hm; specialize (Hends m Hm); lia|pose proof (len_nonneg tails); lia|lia|by left|]. cbn [obind].
  assert (Hpr : exists p, (if negb (lo =? 0) then rd tails (lo - 1) else Ret SIZE_MAX) = Ret p /\
    (0 < lo -> p = get tails (lo - 1))).
  { destruct (Z.eqb_spec lo 0) as [->|]; [by exists SIZE_MAX; split|]. cbn. rewrite rd_get by lia. by eexists. }
  destruct Hpr as (p & -> & Hpv). cbn [obind].
  destruct (put_ok cap previous i p) as (pr' & -> & Lp & Gp & Op); [lia|lia|]. cbn [obind].
  destruct (put_ok cap tails lo i) as (tl' & -> & Lt & Gt & Ot); [lia|lia|]. cbn [obind].
  apply (IH _ _ _ (fun j => if j =? i then lo else lv j)); [|lia|lia|lia].
  split; [lia|]. split; [lia|]. split; [lia|]. split.
  - intros j Hj. destruct (Z.eqb_spec j i) as [->|Hne].
    + split; [lia|]. intros Hl. rewrite Gp, (Hpv Hl). destruct (Hends (lo - 1) ltac:(lia)) as [E1 E2]. split; [lia|].
      destruct (Z.eqb_spec (get tails (lo - 1)) i); [lia|]. split; [done|]. destruct Hb; [lia|done].
    + destruct (Hlv j ltac:(lia)) as [V1 V2]. split; [done|]. intros Hl. rewrite Op by lia. specialize (V2 Hl).
      destruct (Z.eqb_spec (get previous j) i); [lia|]. split; [lia|]. tauto.
  - intros m Hm. destruct (Z.eq_dec m lo) as [->|Hml].
    + rewrite Gt, Z.eqb_refl. lia.
    + destruct (Hends m ltac:(lia)) as [E1 E2]. rewrite Ot by lia. destruct (Z.eqb_spec (get tails m) i); [lia|]. split; [lia|done].
Qed.

Lemma pick_loop_ok previous lv (tails : list Z) (P : bgit_xd_anchor -> Prop) : chained (len anchors) tails previous lv -> Forall P anchors ->
  (forall j k, 0 <= j -> j < k -> k < len anchors -> an_a (anch j) < an_a (anch k)) ->
  forall n pick sequence, (0 < Z.of_nat n -> 0 <= pick < len anchors /\ lv pick = Z.of_nat n - 1) -> StronglySorted rising sequence -> Forall P sequence ->
  (0 < Z.of_nat n -> Forall (rising (anch pick)) sequence) ->
  exists sequence', pick_loop n anchors previous pick sequence = Ret sequence' /\ StronglySorted rising sequence' /\ Forall P sequence' /\
    length sequence' = (n + length sequence)%nat.
Proof.
  intros (Hp & _ & _ & Hlv & _) HP Hord. induction n as [|n IH]; intros pick sequence Hpick Hs Hq Hr; cbn [pick_loop]; [by exists sequence|].
  destruct (Hpick ltac:(lia)) as [Hin Hl]. rewrite anchor_at_ok by done. cbn [obind]. rewrite rd_get by lia. cbn [obind].
  destruct (Hlv pick Hin) as [_ V]. destruct (IH (get previous pick) (anch pick :: sequence)) as (s' & -> & S1 & S2 & S3).
  - intros Hn. specialize (V ltac:(lia)). lia.
  - constructor; [done|]. apply Hr. lia.
  - constructor; [|done]. rewrite Forall_forall in HP. apply HP. unfold anch. apply list_elem_of_In, nth_In. unfold len in Hin. lia.
  - intros Hn. specialize (V ltac:(lia)). assert (R : rising (anch (get previous pick)) (anch pick)) by (split; [apply Hord; lia|lia]).
    constructor; [done|]. eapply Forall_impl; [exact (Hr ltac:(lia))|]. intros a. unfold rising in *. lia.
  - exists s'. split; [done|]. split; [done|]. split; [done|]. cbn in S3. lia.
Qed.
End Chain.

(* ------------------------------------------------------------------ *)
(** ** Patience is right when what it calls is *)

(** A run of lines that match, and then a part. *)
Lemma part_run x s s' i a i' b b1 a1 : search_ok x -> ready x s i a1 b b1 -> i <= a <= i' -> i' <= a1 -> b + (a - i) <= b1 -> 
  matching x i b (a - i) -> forall b', b + (a - i) <= b' <= b1 -> part x s s' a i' (b + (a - i)) b' -> part x s s' i i' b b'.
Proof.
  intros Hx Hr Hi Hi' Hb Hm b' Hb' Hp.
  pose proof (part_diag x s i b (a - i) ltac:(lia)) as Hd. replace (i + (a - i)) with a in Hd by lia.
  destruct Hr as (H1 & H2 & H3 & H4 & Hr). eapply (part_trans x Hx s s s' i a i' b (b + (a - i)) b'); [lia..| |exact Hp].
  apply Hd; [|done]. eapply ready_sub; [split; [exact H1|]; split; [exact H2|]; split; [exact H3|]; split; [exact H4|exact Hr]|lia..].
Qed.

(** How big what is left to compare is. *)
Definition room (x : bgit_xd) : Z := if x_algorithm x =? 0 then 0 else 1.

Lemma between_loop_ok cmp x m a1 b1 sequence : search_ok x -> works m cmp -> StronglySorted rising sequence ->
  forall old_at new_at s, ready x s old_at a1 new_at b1 -> Forall (anchor_ok x old_at a1 new_at b1) sequence ->
  2 * (a1 - old_at + (b1 - new_at)) + room x < m + (match sequence with [] => 0 | _ => 1 end) ->
  compared x s old_at a1 new_at b1 (between_loop cmp x s sequence old_at new_at a1 b1).
Proof.
  intros Hx Hw Hs. induction Hs as [|anchor sequence Hs IH Hhd]; intros old_at new_at s Hr Ha Hm; cbn [between_loop];
    pose proof Hr as (H1 & H2 & H3 & H4 & _).
  - destruct (run_forward x Hx (Z.to_nat (a1 - old_at)) old_at new_at a1 b1) as (i & -> & Hi & Hj & Hrun); [lia..|]. cbn [obind].
    destruct (Hw x s i a1 (new_at + (i - old_at)) b1 false Hx) as (s' & -> & Hp).
    { eapply ready_sub; [exact Hr|lia..]. }
    { unfold measure. fold (room x). lia. }
    exists s'. split; [done|]. eapply (part_run x s s' old_at i a1 new_at b1 a1 Hx Hr); [lia..|done|lia|done].
  - apply Forall_cons in Ha as [(Ha1 & Ha2 & Ha3) Ha].
    destruct (run_back x Hx (Z.to_nat (an_a anchor - old_at)) (an_a anchor) (an_b anchor) old_at new_at) as (na & -> & Hna & Hnb & Hback); [lia..|].
    cbn [obind]. set (nb := an_b anchor - (an_a anchor - na)) in *.
    destruct (run_forward x Hx (Z.to_nat (na - old_at)) old_at new_at na nb) as (i & -> & Hi & Hj & Hrun); [lia..|]. cbn [obind].
    destruct (Hw x s i na (new_at + (i - old_at)) nb false Hx) as (s1 & -> & Hp).
    { eapply ready_sub; [exact Hr|lia..]. }
    { unfold measure. fold (room x). lia. }
    cbn [obind]. change (0 <? 0) with false. cbn iota.
    assert (Hp1 : part x s s1 old_at na new_at nb) by (eapply (part_run x s s1 old_at i na new_at b1 a1 Hx Hr); [lia..|done|lia|done]).
    assert (Hr1 : ready x s1 na a1 nb b1) by (eapply (part_ready x Hx s s1 old_at na a1 new_at nb b1); [lia|lia|exact Hr|exact Hp1]).
    assert (Hp2 : part x s1 s1 na (an_a anchor + 1) nb (an_b anchor + 1)).
    { replace (an_a anchor + 1) with (na + (an_a anchor + 1 - na)) by lia. replace (an_b anchor + 1) with (nb + (an_a anchor + 1 - na)) by lia.
      apply part_diag; [lia|eapply ready_sub; [exact Hr1|lia..]|]. intros t Ht. destruct (Z.eq_dec t (an_a anchor - na)) as [->|Hne].
      - replace (na + (an_a anchor - na)) with (an_a anchor) by lia. by replace (nb + (an_a anchor - na)) with (an_b anchor) by lia.
      - apply Hback. lia. }
    assert (Hr2 : ready x s1 (an_a anchor + 1) a1 (an_b anchor + 1) b1) by (eapply (part_ready x Hx s1 s1 na _ a1 nb _ b1); [lia|lia|exact Hr1|exact Hp2]).
    destruct (IH (an_a anchor + 1) (an_b anchor + 1) s1 Hr2) as (s2 & -> & Hp3).
    { rewrite !Forall_forall in *. intros a Hin. destruct (Ha a Hin) as (A1 & A2 & A3). destruct (Hhd a Hin) as [R1 R2]. split; [lia|]. split; [lia|done]. }
    { destruct sequence; lia. }
    exists s2. split; [done|]. eapply (part_trans x Hx s s1 s2 old_at na a1 new_at nb b1); [lia..|exact Hp1|].
    eapply (part_trans x Hx s1 s1 s2 na (an_a anchor + 1) a1 nb (an_b anchor + 1) b1); [lia..|exact Hp2|exact Hp3].
Qed.

Lemma anchor_cmp_total : total_preorder bgit_xd_anchor_cmp.
Proof.
  split; unfold bgit_xd_anchor_cmp; intros; repeat match goal with H : context [if ?c then _ else _] |- _ => destruct c eqn:? | |- context [if ?c then _ else _] => destruct c eqn:? end;
    simpl_bool; lia.
Qed.

Lemma strongly_sorted_at {A} (R : A -> A -> Prop) l i j u v : StronglySorted R l -> (i < j)%nat -> l !! i = Some u -> l !! j = Some v -> R u v.
Proof.
  intros Hs. revert i j. induction Hs as [|x l _ IH Hx]; intros i j Hij Ei Ej; [done|]. destruct j as [|j]; [lia|]. cbn in Ej. destruct i as [|i].
  - injection Ei as ->. rewrite Forall_forall in Hx. apply Hx. by eapply list_elem_of_lookup_2.
  - apply (IH i j); [lia|done..].
Qed.

(** In order, and no two at one place of the old side. *)
Lemma anchors_sorted `{Qsort} l : NoDup (map an_a l) ->
  forall j k, 0 <= j -> j < k -> k < len l -> an_a (anch (qsort bgit_xd_anchor_cmp l) j) < an_a (anch (qsort bgit_xd_anchor_cmp l) k).
Proof.
  intros Hn j k Hj Hjk Hk. pose proof (qsort_perm _ bgit_xd_anchor_cmp l) as Hperm. pose proof (qsort_sorted _ bgit_xd_anchor_cmp l anchor_cmp_total) as Hs.
  set (q := qsort bgit_xd_anchor_cmp l) in *. assert (Hnq : NoDup (map an_a q)) by (by rewrite Hperm).
  assert (Hl : length q = length l) by (by rewrite Hperm). unfold len in Hk. rewrite <- Hl in Hk. clearbody q. clear Hperm Hl Hn l.
  destruct (lookup_lt_is_Some_2 q (Z.to_nat j)) as [u Eu]; [lia|]. destruct (lookup_lt_is_Some_2 q (Z.to_nat k)) as [v Ev]; [lia|].
  unfold anch. rewrite !nth_lookup, Eu, Ev. cbn.
  assert (Hle : bgit_xd_anchor_cmp u v <= 0) by (apply (strongly_sorted_at _ q (Z.to_nat j) (Z.to_nat k) u v Hs); [lia|done..]).
  assert (Hne : an_a u <> an_a v).
  { intros E. assert (Z.to_nat j = Z.to_nat k); [|lia]. apply (NoDup_lookup (map an_a q) _ _ (an_a u)); [done|..]; rewrite list_lookup_fmap; [by rewrite Eu|rewrite Ev; cbn; by rewrite E]. }
  unfold bgit_xd_anchor_cmp in Hle. case_if_in Hle; [lia|]. lia.
Qed.

Lemma patience_ok `{Qsort} cmp x s a0 a1 b0 b1 : search_ok x -> ready x s a0 a1 b0 b1 -> works (measure x a0 a1 b0 b1) cmp ->
  bgit_xd_patience cmp x s a0 a1 b0 b1 = Ret (-2, s) \/ compared x s a0 a1 b0 b1 (bgit_xd_patience cmp x s a0 a1 b0 b1).
Proof.
  intros Hx Hr Hw. pose proof Hr as (H1 & H2 & H3 & H4 & _). unfold bgit_xd_patience.
  rewrite (refs_overflow_mono (len (x_ia x)) (len (x_ib x)) (a1 - a0) (b1 - b0)) by (lia || apply Hx).
  destruct (box_refs_ok x s a0 a1 b0 b1 Hx Hr) as (refs & -> & Hrefs & Hpos). cbn [obind].
  set (q := qsort bgit_line_ref_sort_cmp refs). assert (Hq : q ≡ₚ refs) by (apply (qsort_perm _ bgit_line_ref_sort_cmp)).
  assert (Hcount : positions (on_side false q) ≡ₚ count_up a0 (a1 - a0)) by (rewrite <- Hpos; unfold positions, on_side; by rewrite Hq).
  assert (Hlen : len (on_side false q) = a1 - a0).
  { apply Permutation_length in Hcount. unfold positions in Hcount. rewrite length_map in Hcount. unfold len. rewrite Hcount. apply len_count_up. lia. }
  destruct (anchors_loop_ok x a0 a1 b0 b1 (Z.max (a1 - a0) 1) (length q) q []) as (found & -> & Hok & Hsub).
  { by rewrite Hq. }
  { rewrite len_nil. lia. }
  cbn [obind app]. destruct (Z.eqb_spec (len found) 0) as [|Hne]; [by left|right].
  assert (Hnd : NoDup (map an_a found)) by (eapply sublist_NoDup; [|exact Hsub]; rewrite Hcount; apply count_up_NoDup).
  pose proof (anchors_sorted found Hnd) as Hord. pose proof (qsort_perm _ bgit_xd_anchor_cmp found) as Hp.
  set (anchors := qsort bgit_xd_anchor_cmp found) in *. clearbody anchors.
  assert (Hla : len anchors = len found) by (unfold len; by rewrite Hp). assert (Hoka : Forall (anchor_ok x a0 a1 b0 b1) anchors) by (by rewrite Hp).
  assert (Hcap : len anchors <= Z.max (a1 - a0) 1).
  { apply sublist_len in Hsub. unfold positions, len in *. rewrite !length_map in Hsub. lia. }
  destruct (lis_loop_ok anchors (Z.max (a1 - a0) 1) Hcap (length anchors) 0 [] [] (fun _ => 0)) as (tails & previous & lv & -> & Hch); [|lia|unfold len; lia|pose proof (len_nonneg anchors); lia|].
  { split; [done|]. rewrite len_nil. split; [lia|]. split; [lia|]. split; intros; lia. }
  cbn [obind]. pose proof Hch as (_ & _ & Hpos0 & _ & Hends). pose proof (len_nonneg found). specialize (Hpos0 ltac:(lia)).
  rewrite rd_get by lia. cbn [obind].
  destruct (Hends (len tails - 1) ltac:(lia)) as [Hpick Hlv].
  destruct (pick_loop_ok anchors previous lv tails (anchor_ok x a0 a1 b0 b1) Hch Hoka) with (n := length tails) (pick := get tails (len tails - 1)) (sequence := @nil bgit_xd_anchor)
    as (sequence & -> & Hss & Hsok & Hsl); [intros; apply Hord; lia|intros _; split; [lia|unfold len in *; lia]|constructor|constructor|intros _; constructor|].
  cbn [obind]. eapply (between_loop_ok cmp x _ a1 b1 sequence Hx Hw Hss a0 b0 s Hr Hsok). unfold measure. fold (room x).
  destruct sequence; [|lia]. cbn in Hsl. unfold len in Hpos0. lia.
Qed.

(* ------------------------------------------------------------------ *)
(** ** Histogram is right when what it calls is *)

Section Histogram.
Context (x : bgit_xd) (a0 a1 b0 b1 : Z) (Hx : search_ok x).
Context (Ha : 0 <= a0 <= a1) (Ha1 : a1 <= len (x_ia x)) (Hb : 0 <= b0 <= b1) (Hb1 : b1 <= len (x_ib x)).

Lemma set_counts_ok count run : Forall (box_ref x a0 a1 b0 b1) run -> forall c, a1 - a0 <= len c ->
  exists c', set_counts run a0 count c = Ret c' /\ len c' = len c.
Proof.
  induction 1 as [|r run Hr _ IH]; intros c Hc; cbn [set_counts]; [by exists c|]. unfold box_ref in Hr. destruct (lr_side r); [by apply IH|].
  destruct (wr_ok c (lr_position r - a0) count) as (c1 & -> & L & _); [lia|]. cbn [obind]. destruct (IH c1) as (c2 & -> & L2); [lia|].
  exists c2. split; [done|lia].
Qed.

Lemma a_counts_loop_ok fuel : forall refs c, Forall (box_ref x a0 a1 b0 b1) refs -> a1 - a0 <= len c ->
  exists c', a_counts_loop fuel refs a0 c = Ret c' /\ len c' = len c.
Proof.
  induction fuel as [|fuel IH]; intros refs c Hr Hc; [by exists c|]. destruct refs as [|r refs]; [by exists c|].
  cbn [a_counts_loop]. destruct (same_run r refs) as [run rest] eqn:E. apply same_run_split in E as ->.
  apply Forall_cons in Hr as [H0 Hr]. apply Forall_app in Hr as [Hrun Hrest].
  edestruct (set_counts_ok (len (on_side false (r :: run))) (r :: run)) as (c1 & -> & L); [by constructor|exact Hc|]. cbn [obind].
  destruct (IH rest c1 Hrest) as (c2 & -> & L2); [lia|]. exists c2. split; [done|lia].
Qed.

Lemma key_search_ok refs key fuel : forall lo hi, 0 <= lo <= hi -> hi <= len refs ->
  exists r, key_search fuel refs key lo hi = Ret r /\ lo <= r <= hi.
Proof.
  induction fuel as [|fuel IH]; intros lo hi Hlo Hhi; cbn [key_search]; [exists lo; split; [done|lia]|].
  destruct (Z.ltb_spec lo hi); [|exists lo; split; [done|lia]]. set (mid := lo + (hi - lo) / 2).
  assert (Hmid : lo <= mid < hi) by (unfold mid; Z.div_mod_to_equations; lia).
  unfold ref_at. replace (0 <=? mid) with true by (symmetry; solve_true).
  destruct (lookup_lt_is_Some_2 refs (Z.to_nat mid)) as [r ->]; [unfold len in Hhi; lia|]. cbn [obind].
  case_if; [destruct (IH (mid + 1) hi) as (r' & -> & R)|destruct (IH lo mid) as (r' & -> & R)]; try lia; exists r'; (split; [done|lia]).
Qed.

Lemma key_run_ok refs key : Forall (fun r => r ∈ refs /\ lr_line r = lr_line key) (key_run refs key).
Proof.
  induction refs as [|r refs IH]; cbn [key_run]; [constructor|]. destruct (Z.eqb_spec (bgit_line_ref_cmp r key) 0) as [E|]; [|constructor].
  constructor; [split; [by left|by apply ref_cmp_line]|]. eapply Forall_impl; [exact IH|]. intros r' [H1 H2]. split; [by right|done].
Qed.

Lemma counts_rd c i frequency : a1 - a0 <= len c -> a0 <= i < a1 ->
  exists f, (if frequency >? 1 then let* n := rd c (i - a0) in Ret (if n <? frequency then n else frequency) else Ret frequency) = Ret f.
Proof. intros Hc Hi. case_if; [|by eexists]. rewrite rd_get by lia. by eexists. Qed.

Lemma left_loop_ok c a b fuel : a1 - a0 <= len c -> a < a1 -> b < b1 -> forall lft frequency, 0 <= lft -> a0 <= a - lft -> b0 <= b - lft ->
  matching x (a - lft) (b - lft) lft ->
  exists lft' f', left_loop fuel x c a b a0 b0 lft frequency = Ret (lft', f') /\ 0 <= lft' /\ a0 <= a - lft' /\ b0 <= b - lft' /\
    matching x (a - lft') (b - lft') lft'.
Proof.
  intros Hc Haa Hbb. induction fuel as [|fuel IH]; intros lft frequency Hl Hla Hlb Hm; cbn [left_loop]; [by exists lft, frequency|].
  destruct ((a - lft - 1 >=? a0) && (b - lft - 1 >=? b0)) eqn:E; [|by exists lft, frequency]. simpl_bool.
  rewrite xd_eq_ok by (apply Hx || lia). cbn [obind]. case_bool_decide as Heq; [|by exists lft, frequency].
  destruct (counts_rd c (a - (lft + 1)) frequency Hc) as (f & ->); [lia|]. cbn [obind]. apply IH; [lia..|].
  intros t Ht. destruct (Z.eq_dec t 0) as [->|].
  - rewrite !Z.add_0_r. by replace (a - (lft + 1)) with (a - lft - 1) by lia; replace (b - (lft + 1)) with (b - lft - 1) by lia.
  - specialize (Hm (t - 1) ltac:(lia)). replace (a - (lft + 1) + t) with (a - lft + (t - 1)) by lia. by replace (b - (lft + 1) + t) with (b - lft + (t - 1)) by lia.
Qed.

Lemma right_loop_ok c a b fuel : a1 - a0 <= len c -> a0 <= a -> b0 <= b -> forall rgt frequency, 0 <= rgt -> a + rgt <= a1 -> b + rgt <= b1 ->
  matching x a b rgt ->
  exists rgt' f', right_loop fuel x c a b a0 a1 b1 rgt frequency = Ret (rgt', f') /\ rgt <= rgt' /\ a + rgt' <= a1 /\ b + rgt' <= b1 /\ matching x a b rgt'.
Proof.
  intros Hc Haa Hbb. induction fuel as [|fuel IH]; intros rgt frequency Hl Hla Hlb Hm; cbn [right_loop]; [exists rgt, frequency; split; [done|]; split; [lia|done]|].
  destruct ((a + rgt <? a1) && (b + rgt <? b1)) eqn:E; [|exists rgt, frequency; split; [done|]; split; [lia|done]]. simpl_bool.
  rewrite xd_eq_ok by (apply Hx || lia). cbn [obind]. case_bool_decide as Heq; [|exists rgt, frequency; split; [done|]; split; [lia|done]].
  destruct (counts_rd c (a + rgt) frequency Hc) as (f & ->); [lia|]. cbn [obind].
  destruct (IH (rgt + 1) f) as (r' & f' & -> & R1 & R2); [lia..| |exists r', f'; split; [done|]; split; [lia|done]].
  intros t Ht. destruct (Z.eq_dec t rgt) as [->|]; [done|]. apply Hm. lia.
Qed.

(** A best run pairs equal lines of the box. *)
Definition best_ok (best : best_run) : Prop :=
  best_a best < 0 \/
  (a0 <= best_a best /\ best_a best + best_len best <= a1 /\ b0 <= best_b best /\ best_b best + best_len best <= b1 /\ 1 <= best_len best /\
   matching x (best_a best) (best_b best) (best_len best)).

Lemma places_loop_ok c acount b_ptr places : a1 - a0 <= len c -> b0 <= b_ptr < b1 ->
  Forall (fun r => box_ref x a0 a1 b0 b1 r /\ lr_line r = lb x b_ptr) places -> forall a_next b_next best, best_ok best ->
  exists b_next' best', places_loop x c places acount a0 a1 b0 b1 b_ptr a_next b_next best = Ret (b_next', best') /\ best_ok best'.
Proof.
  intros Hc Hp. induction 1 as [|r places [Hr Hl] _ IH]; intros a_next b_next best Hbest; cbn [places_loop]; [by exists b_next, best|].
  unfold box_ref in Hr. destruct (lr_side r); [by apply IH|]. case_if; [by apply IH|]. destruct Hr as [Hr Hla]. set (a := lr_position r) in *.
  destruct (left_loop_ok c a b_ptr (Z.to_nat (a - a0)) Hc ltac:(lia) ltac:(lia) 0 acount) as (lft & f & -> & L1 & L2 & L3 & L4); [lia..|intros t Ht; lia|].
  cbn [obind].
  destruct (right_loop_ok c a b_ptr (Z.to_nat (a1 - a)) Hc ltac:(lia) ltac:(lia) 1 f) as (rgt & f' & -> & R1 & R2 & R3 & R4); [lia..| |].
  { intros t Ht. assert (t = 0) as -> by lia. rewrite !Z.add_0_r. by rewrite <- Hla. }
  cbn [obind]. apply IH. case_if; [|done]. right. cbn [best_a best_b best_len]. do 5 (split; [lia|]). intros t Ht.
  destruct (Z_lt_dec t lft); [apply L4; lia|]. replace (a - lft + t) with (a + (t - lft)) by lia. replace (b_ptr - lft + t) with (b_ptr + (t - lft)) by lia.
  apply R4. lia.
Qed.

Lemma histogram_loop_ok refs c fuel : Forall (box_ref x a0 a1 b0 b1) refs -> a1 - a0 <= len c -> forall b_ptr has_common best, b0 <= b_ptr -> best_ok best ->
  exists has' best', histogram_loop fuel x refs c a0 a1 b0 b1 b_ptr has_common best = Ret (has', best') /\ best_ok best'.
Proof.
  intros Hr Hc. induction fuel as [|fuel IH]; intros b_ptr has best Hp Hbest; cbn [histogram_loop]; [by exists has, best|].
  destruct (Z.ltb_spec b_ptr b1); [|by exists has, best]. destruct (Hx) as ((_ & Wb & _ & Ib & _) & _).
  rewrite rd_get by lia. cbn [obind]. pose proof (get_index _ _ b_ptr Ib ltac:(lia)) as Hk. rewrite hash_at_ok, line_at_ok by done. cbn [obind].
  set (key := {| lr_hash := _; lr_line := _; lr_position := _; lr_side := _ |}).
  destruct (key_search_ok refs key (length refs) 0 (len refs)) as (start & -> & Hs); [pose proof (len_nonneg refs); lia|lia|]. cbn [obind].
  set (places := key_run (drop (Z.to_nat start) refs) key).
  assert (Hpl : Forall (fun r => box_ref x a0 a1 b0 b1 r /\ lr_line r = lb x b_ptr) places).
  { eapply Forall_impl; [apply key_run_ok|]. intros r [H1 H2]. rewrite Forall_forall in Hr. split; [|exact H2]. apply Hr.
    eapply elem_of_sublist; [exact H1|apply sublist_drop]. }
  destruct (negb _ && negb _); [|apply IH; [lia|done]]. case_if; [|apply IH; [lia|done]].
  destruct (places_loop_ok c (len (on_side false places)) b_ptr places Hc ltac:(lia) Hpl a0 (b_ptr + 1) best Hbest) as (b_next & best' & E & Hb').
  rewrite E. cbn [obind]. destruct (Z_le_dec b0 b_next); [by apply IH|]. exfalso.
  assert (Hmono : forall places a_next bn best r, places_loop x c places (len (on_side false (key_run (drop (Z.to_nat start) refs) key))) a0 a1 b0 b1 b_ptr a_next bn best = Ret r -> bn <= fst r).
  { clear. induction places as [|p places IH]; intros a_next bn best r E; cbn [places_loop] in E; [injection E as <-; cbn; lia|].
    destruct (lr_side p); [by eapply IH|]. destruct (lr_position p <? a_next); [by eapply IH|].
    apply obind_Ret_inv in E as ([l1 f1] & _ & E). apply obind_Ret_inv in E as ([l2 f2] & _ & E). apply IH in E.
    destruct (Z.gtb_spec (b_ptr + l2) bn); lia. }
  apply Hmono in E. cbn in E. lia.
Qed.
End Histogram.

Lemma histogram_ok `{Qsort} cmp x s a0 a1 b0 b1 need_min : search_ok x -> ready x s a0 a1 b0 b1 -> x_algorithm x <> 0 ->
  works (measure x a0 a1 b0 b1) cmp -> compared x s a0 a1 b0 b1 (bgit_xd_histogram cmp x s a0 a1 b0 b1 need_min).
Proof.
  intros Hx Hr Halg Hw. pose proof Hr as (H1 & H2 & H3 & H4 & _). unfold bgit_xd_histogram.
  rewrite (refs_overflow_mono (len (x_ia x)) (len (x_ib x)) (a1 - a0) (b1 - b0)) by (lia || apply Hx).
  destruct (box_refs_ok x s a0 a1 b0 b1 Hx Hr) as (refs & -> & Hrefs & _). cbn [obind].
  set (q := qsort bgit_line_ref_sort_cmp refs). assert (Hq : Forall (box_ref x a0 a1 b0 b1) q) by (unfold q; by rewrite (qsort_perm _ bgit_line_ref_sort_cmp)).
  destruct (a_counts_loop_ok x a0 a1 b0 b1 (length q) q (zeros (Z.max (a1 - a0) 1)) Hq) as (c & -> & Lc); [rewrite len_zeros; lia|].
  rewrite len_zeros in Lc by lia. cbn [obind].
  destruct (histogram_loop_ok x a0 a1 b0 b1 Hx H1 H2 H3 H4 q c (Z.to_nat (b1 - b0)) Hq ltac:(lia) b0 false
    {| best_a := -1; best_b := -1; best_len := 0; best_frequency := 65 |}) as (has & best & -> & Hbest); [lia|by left; cbn; lia|].
  cbn [obind]. destruct (Z.ltb_spec (best_a best) 0) as [|Hge].
  { destruct has; cbn [negb]; [by apply fallback_ok|]. destruct (mark_both_ok x Hx s a0 a1 b0 b1 Hr) as (s' & E & Hp).
    apply obind_Ret_inv in E as (s1 & E1 & E2). rewrite E1. cbn [obind]. rewrite E2. by exists s'. }
  destruct Hbest as [|(B1 & B2 & B3 & B4 & B5 & Bm)]; [lia|].
  destruct (Hw x s a0 (best_a best) b0 (best_b best) need_min Hx) as (s1 & -> & Hp1).
  { eapply ready_sub; [exact Hr|lia..]. }
  { unfold measure. lia. }
  cbn [obind]. change (0 =? 0) with true. cbn iota.
  assert (Hr1 : ready x s1 (best_a best) a1 (best_b best) b1) by (eapply (part_ready x Hx s s1 a0 _ a1 b0 _ b1); [lia|lia|exact Hr|exact Hp1]).
  assert (Hp2 : part x s1 s1 (best_a best) (best_a best + best_len best) (best_b best) (best_b best + best_len best)).
  { apply part_diag; [lia|eapply ready_sub; [exact Hr1|lia..]|done]. }
  assert (Hr2 : ready x s1 (best_a best + best_len best) a1 (best_b best + best_len best) b1) by (eapply (part_ready x Hx s1 s1 _ _ a1 _ _ b1); [| |exact Hr1|exact Hp2]; lia).
  destruct (Hw x s1 (best_a best + best_len best) a1 (best_b best + best_len best) b1 need_min Hx Hr2) as (s2 & -> & Hp3).
  { unfold measure. lia. }
  exists s2. split; [done|]. eapply (part_trans x Hx s s1 s2 a0 (best_a best) a1 b0 (best_b best) b1); [lia..|exact Hp1|].
  eapply (part_trans x Hx s1 s1 s2 _ (best_a best + best_len best) a1 _ (best_b best + best_len best) b1); [lia..|exact Hp2|exact Hp3].
Qed.

(* ------------------------------------------------------------------ *)
(** ** The comparison is right *)

Lemma compare_ok `{Qsort} fuel : works (Z.of_nat fuel) (bgit_xd_compare fuel).
Proof.
  induction fuel as [|fuel IH]; intros x s a0 a1 b0 b1 need_min Hx Hr Hm; pose proof Hr as (H1 & H2 & H3 & H4 & Hf & Hcl).
  { unfold measure in Hm. exfalso. destruct (x_algorithm x =? 0); lia. }
  assert (Hw : works (measure x a0 a1 b0 b1) (bgit_xd_compare fuel)) by (intros x1 s1 c0 c1 d0 d1 nm X R M; apply IH; [done|done|lia]).
  cbn [bgit_xd_compare]. destruct (Z.eqb_spec a0 a1) as [<-|Hna].
  { destruct (mark_b_ok x Hx s a0 a0 b0 b1 Hr) as (s' & -> & Hp). by exists s'. }
  destruct (Z.eqb_spec b0 b1) as [<-|Hnb].
  { destruct (mark_a_ok x Hx s a0 a1 b0 b0 Hr) as (s' & -> & Hp & _). by exists s'. }
  destruct (Z.eqb_spec (x_algorithm x) BGIT_XDIFF_PATIENCE) as [Epat|_].
  { assert (x_algorithm x <> 0) by (rewrite Epat; done). destruct (patience_ok (bgit_xd_compare fuel) x s a0 a1 b0 b1 Hx Hr Hw) as [->|(s' & -> & Hp)].
    - cbn [obind]. change (negb (-2 =? -2)) with false. cbn iota. by apply fallback_ok.
    - by exists s'. }
  destruct (Z.eqb_spec (x_algorithm x) BGIT_XDIFF_HISTOGRAM) as [Ehis|_].
  { apply histogram_ok; try done. by rewrite Ehis. }
  destruct (run_forward x Hx (Z.to_nat (a1 - a0)) a0 b0 a1 b1) as (a0' & -> & Ha0 & Hb0 & Hfw); [lia..|]. cbn [obind].
  set (b0' := b0 + (a0' - a0)) in *.
  destruct (run_back x Hx (Z.to_nat (a1 - a0')) a1 b1 a0' b0') as (a1' & -> & Ha1 & Hb1 & Hbk); [lia..|]. cbn [obind].
  set (b1' := b1 - (a1 - a1')) in *.
  (* what is found for the middle is right for the whole *)
  assert (Hmid : forall s0 r, fits x s0 -> xd_ca s0 = xd_ca s -> xd_cb s0 = xd_cb s -> compared x s0 a0' a1' b0' b1' r -> compared x s a0 a1 b0 b1 r).
  { intros s0 r F0 E1 E2 (s' & -> & Hp). exists s'. split; [done|].
    assert (Hp' : part x s s' a0' a1' b0' b1') by (unfold part in *; rewrite <- E1, <- E2; exact Hp).
    assert (Hp1 : part x s s' a0 a1' b0 b1') by (eapply (part_run x s s' a0 a0' a1' b0 b1 a1 Hx Hr); [lia..|done|lia|exact Hp']).
    eapply (part_trans x Hx s s' s' a0 a1' a1 b0 b1' b1); [lia..|exact Hp1|].
    replace a1 with (a1' + (a1 - a1')) at 1 by lia. replace b1 with (b1' + (a1 - a1')) at 1 by lia.
    apply part_diag; [lia| |done]. replace (a1' + (a1 - a1')) with a1 by lia. replace (b1' + (a1 - a1')) with b1 by lia.
    eapply (part_ready x Hx s s' a0 a1' a1 b0 b1' b1); [lia|lia|exact Hr|exact Hp1]. }
  assert (Hrm : ready x s a0' a1' b0' b1') by (eapply ready_sub; [exact Hr|lia..]).
  destruct (Z.eqb_spec a0' a1') as [E|Hna'].
  { apply (Hmid s); try done. rewrite <- E in *. destruct (mark_b_ok x Hx s a0' a0' b0' b1' Hrm) as (s' & -> & Hp). by exists s'. }
  destruct (Z.eqb_spec b0' b1') as [E|Hnb'].
  { apply (Hmid s); try done. rewrite <- E in *. destruct (mark_a_ok x Hx s a0' a1' b0' b0' Hrm) as (s' & -> & Hp & _). by exists s'. }
  destruct Hf as (F1 & F2 & F3 & F4).
  destruct (find_split_ok x {| off1 := a0'; lim1 := a1'; off2 := b0'; lim2 := b1' |} (proj1 Hx) ltac:(unfold box_ok; cbn; lia) need_min (xd_vf s) (xd_vb s) F3 F4)
    as (spl & vf & vb & -> & Hin & Lf & Lb). cbn [obind]. unfold in_box in Hin. cbn [off1 off2 lim1 lim2] in Hin.
  set (s0 := {| xd_ca := xd_ca s; xd_cb := xd_cb s; xd_vf := vf; xd_vb := vb |}).
  assert (F0 : fits x s0) by by split.
  assert (Hr0 : ready x s0 a0' a1' b0' b1') by (destruct Hrm as (R1 & R2 & R3 & R4 & _ & R5); by do 5 (split; [done|])).
  apply (Hmid s0); try done.
  case_if.
  { destruct (mark_both_ok x Hx s0 a0' a1' b0' b1' Hr0) as (s' & E & Hp).
    apply obind_Ret_inv in E as (s1 & E1 & E2). rewrite E1. cbn [obind]. rewrite E2. by exists s'. }
  assert (C1 : ~ (spl_i1 spl = a0' /\ spl_i2 spl = b0')) by (intros [E1 E2]; rewrite E1, E2, !Z.eqb_refl in *; done).
  assert (C2 : ~ (spl_i1 spl = a1' /\ spl_i2 spl = b1')) by (intros [E1 E2]; rewrite E1, E2, !Z.eqb_refl in *; done).
  destruct (Hw x s0 a0' (spl_i1 spl) b0' (spl_i2 spl) (min_lo spl) Hx) as (s1 & -> & Hp1).
  { eapply ready_sub; [exact Hr0|lia..]. }
  { unfold measure. lia. }
  cbn [obind]. change (0 <? 0) with false. cbn iota.
  destruct (Hw x s1 (spl_i1 spl) a1' (spl_i2 spl) b1' (min_hi spl) Hx) as (s2 & -> & Hp2).
  { eapply (part_ready x Hx s0 s1 a0' _ a1' b0' _ b1'); [lia|lia|exact Hr0|exact Hp1]. }
  { unfold measure. lia. }
  exists s2. split; [done|]. eapply (part_trans x Hx s0 s1 s2 a0' (spl_i1 spl) a1' b0' (spl_i2 spl) b1'); [lia..|exact Hp1|exact Hp2].
Qed.
