(* ===== verification/XCompact.v ===== *)
(** * Moving runs of changes to where they read best (xdiff.c)

    The groups of changed lines of a file, sliding one up or down past lines
    equal to those it ends with, and [bgit_compact], which chooses where each
    one stays.  The theorem: compaction ends, and what is left unmarked is the
    same lines in the same order as before. *)

From stdpp Require Import list.
From S2P Require Import Prelude CLib XLines Sweep Myers XAlt.

#[local] Open Scope Z_scope.

Definition BGIT_MAX_INDENT : Z := 200.
Definition BGIT_MAX_BLANKS : Z := 20.
Definition BGIT_INDENT_MAX_SLIDING : Z := 100.
Definition BGIT_INDENT_WEIGHT : Z := 60.
Definition BGIT_START_OF_FILE_PENALTY : Z := 1.
Definition BGIT_END_OF_FILE_PENALTY : Z := 21.
Definition BGIT_TOTAL_BLANK_WEIGHT : Z := -30.
Definition BGIT_POST_BLANK_WEIGHT : Z := 6.
Definition BGIT_RELATIVE_INDENT_PENALTY : Z := -4.
Definition BGIT_RELATIVE_INDENT_WITH_BLANK_PENALTY : Z := 10.
Definition BGIT_RELATIVE_OUTDENT_PENALTY : Z := 24.
Definition BGIT_RELATIVE_OUTDENT_WITH_BLANK_PENALTY : Z := 17.
Definition BGIT_RELATIVE_DEDENT_PENALTY : Z := 23.
Definition BGIT_RELATIVE_DEDENT_WITH_BLANK_PENALTY : Z := 17.

(* ------------------------------------------------------------------ *)
(** ** How a place reads *)

Fixpoint indent_loop (line : list Z) (indent : Z) : Z :=
  match line with
  | [] => -1
  | c :: line' =>
      if negb (isspace c) then indent
      else
        let indent := if c =? 32 then indent + 1 else if c =? 9 then indent + (8 - indent mod 8) else indent in
        if indent >=? BGIT_MAX_INDENT then BGIT_MAX_INDENT else indent_loop line' indent
  end.

(** How far a line is indented; -1 when there is nothing on it. *)
Definition bgit_indent_of (line : list Z) : Z := indent_loop line 0.

Record bgit_split_measure := {
  end_of_file : bool;
  m_indent : Z;
  pre_blank : Z;
  pre_indent : Z;
  post_blank : Z;
  post_indent : Z }.

Record bgit_split_score := { effective_indent : Z; penalty : Z }.

(** The blank lines from [i] on, going by [step], and how far the line after
    them is indented. *)
Fixpoint blanks_loop (fuel : nat) (file : bgit_xdiff_file) (n i step blank : Z) : outcome (Z * Z) :=
  match fuel with
  | O => Ret (blank, -1)
  | S fuel' =>
      if (if step <? 0 then i >=? 0 else i <? n) then
        let* line := line_at file i in
        let indent := bgit_indent_of line in
        if negb (indent =? -1) then Ret (blank, indent)
        else if blank + 1 =? BGIT_MAX_BLANKS then Ret (blank + 1, 0)
        else blanks_loop fuel' file n (i + step) step (blank + 1)
      else Ret (blank, -1)
  end.

Definition bgit_measure_split (file : bgit_xdiff_file) (n split : Z) : outcome bgit_split_measure :=
  let* here := if split >=? n then Ret (true, -1) else let* line := line_at file split in Ret (false, bgit_indent_of line) in
  let '(end_of_file, indent) := here in
  let* pre := blanks_loop 20 file n (split - 1) (-1) 0 in
  let* post := blanks_loop 20 file n (split + 1) 1 0 in
  Ret {| end_of_file := end_of_file; m_indent := indent; pre_blank := fst pre; pre_indent := snd pre;
         post_blank := fst post; post_indent := snd post |}.

Definition bgit_score_add_split (m : bgit_split_measure) (s : bgit_split_score) : bgit_split_score :=
  let p := penalty s in
  let p := if (pre_indent m =? -1) && (pre_blank m =? 0) then p + BGIT_START_OF_FILE_PENALTY else p in
  let p := if end_of_file m then p + BGIT_END_OF_FILE_PENALTY else p in
  let post := if m_indent m =? -1 then 1 + post_blank m else 0 in
  let total_blank := pre_blank m + post in
  let p := p + BGIT_TOTAL_BLANK_WEIGHT * total_blank in
  let p := p + BGIT_POST_BLANK_WEIGHT * post in
  let indent := if negb (m_indent m =? -1) then m_indent m else post_indent m in
  let any_blanks := negb (total_blank =? 0) in
  let p :=
    if (indent =? -1) || (pre_indent m =? -1) || (indent =? pre_indent m) then p
    else if indent >? pre_indent m then
      p + (if any_blanks then BGIT_RELATIVE_INDENT_WITH_BLANK_PENALTY else BGIT_RELATIVE_INDENT_PENALTY)
    else if negb (post_indent m =? -1) && (post_indent m >? m_indent m) then
      p + (if any_blanks then BGIT_RELATIVE_OUTDENT_WITH_BLANK_PENALTY else BGIT_RELATIVE_OUTDENT_PENALTY)
    else
      p + (if any_blanks then BGIT_RELATIVE_DEDENT_WITH_BLANK_PENALTY else BGIT_RELATIVE_DEDENT_PENALTY) in
  {| effective_indent := effective_indent s + indent; penalty := p |}.

Definition bgit_score_cmp (a b : bgit_split_score) : Z :=
  let indents := Z.b2z (effective_indent a >? effective_indent b) - Z.b2z (effective_indent a <? effective_indent b) in
  BGIT_INDENT_WEIGHT * indents + (penalty a - penalty b).

(* ------------------------------------------------------------------ *)
(** ** Groups *)

Record bgit_group := { g_start : Z; g_end : Z }.

(** [changed[i]]: there is a zero either side of what it says of the lines. *)
Definition changed_at (changed : list Z) (i : Z) : outcome bool := let* v := rd changed (i + 1) in Ret (negb (v =? 0)).
Definition set_changed (changed : list Z) (i v : Z) : outcome (list Z) := wr changed (i + 1) v.

Fixpoint run_end (fuel : nat) (changed : list Z) (i : Z) : outcome Z :=
  match fuel with
  | O => Fault
  | S fuel' => let* c := changed_at changed i in if c then run_end fuel' changed (i + 1) else Ret i
  end.

Fixpoint run_start (fuel : nat) (changed : list Z) (i : Z) : outcome Z :=
  match fuel with
  | O => Fault
  | S fuel' => let* c := changed_at changed (i - 1) in if c then run_start fuel' changed (i - 1) else Ret i
  end.

Definition bgit_group_init (changed : list Z) : outcome bgit_group :=
  let* e := run_end (length changed) changed 0 in Ret {| g_start := 0; g_end := e |}.

(** [None] when there is no group that way. *)
Definition bgit_group_next (changed : list Z) (n : Z) (g : bgit_group) : outcome (option bgit_group) :=
  if g_end g =? n then Ret None
  else
    let start := g_end g + 1 in
    let* e := run_end (length changed) changed start in
    Ret (Some {| g_start := start; g_end := e |}).

Definition bgit_group_previous (changed : list Z) (g : bgit_group) : outcome (option bgit_group) :=
  if g_start g =? 0 then Ret None
  else
    let e := g_start g - 1 in
    let* start := run_start (length changed) changed e in
    Ret (Some {| g_start := start; g_end := e |}).

Definition bgit_group_slide_up (file : bgit_xdiff_file) (changed : list Z) (g : bgit_group) : outcome (option (list Z * bgit_group)) :=
  let* slides := if g_start g >? 0 then bgit_lines_match file (g_start g - 1) (g_end g - 1) else Ret false in
  if slides then
    let* changed := set_changed changed (g_start g - 1) 1 in
    let* changed := set_changed changed (g_end g - 1) 0 in
    let* start := run_start (length changed) changed (g_start g - 1) in
    Ret (Some (changed, {| g_start := start; g_end := g_end g - 1 |}))
  else Ret None.

Definition bgit_group_slide_down (file : bgit_xdiff_file) (n : Z) (changed : list Z) (g : bgit_group) : outcome (option (list Z * bgit_group)) :=
  let* slides := if g_end g <? n then bgit_lines_match file (g_start g) (g_end g) else Ret false in
  if slides then
    let* changed := set_changed changed (g_start g) 0 in
    let* changed := set_changed changed (g_end g) 1 in
    let* e := run_end (length changed) changed (g_end g + 1) in
    Ret (Some (changed, {| g_start := g_start g + 1; g_end := e |}))
  else Ret None.

(* ------------------------------------------------------------------ *)
(** ** Compaction *)

Record slide := { sl_changed : list Z; sl_g : bgit_group; sl_go : bgit_group }.

Definition empty (g : bgit_group) : bool := g_end g =? g_start g.

(** As far up as it goes, the other file's group with it. *)
Fixpoint up_loop (fuel : nat) (file : bgit_xdiff_file) (other_changed : list Z) (s : slide) : outcome slide :=
  match fuel with
  | O => Fault
  | S fuel' =>
      let* r := bgit_group_slide_up file (sl_changed s) (sl_g s) in
      match r with
      | None => Ret s
      | Some (changed, g) =>
          let* p := bgit_group_previous other_changed (sl_go s) in
          match p with
          | None => Ret {| sl_changed := changed; sl_g := g; sl_go := sl_go s |}
          | Some go => up_loop fuel' file other_changed {| sl_changed := changed; sl_g := g; sl_go := go |}
          end
      end
  end.

(** As far down as it goes, and the last place beside a group of the other. *)
Fixpoint down_loop (fuel : nat) (file : bgit_xdiff_file) (n other_n : Z) (other_changed : list Z) (s : slide) (matching_other : Z)
    : outcome (slide * Z) :=
  match fuel with
  | O => Fault
  | S fuel' =>
      let* r := bgit_group_slide_down file n (sl_changed s) (sl_g s) in
      match r with
      | None => Ret (s, matching_other)
      | Some (changed, g) =>
          let* p := bgit_group_next other_changed other_n (sl_go s) in
          match p with
          | None => Ret ({| sl_changed := changed; sl_g := g; sl_go := sl_go s |}, matching_other)
          | Some go =>
              down_loop fuel' file n other_n other_changed {| sl_changed := changed; sl_g := g; sl_go := go |}
                (if g_end go >? g_start go then g_end g else matching_other)
          end
      end
  end.

(** Up and down until the group no longer grows by the groups it meets. *)
Fixpoint settle_loop (fuel : nat) (file : bgit_xdiff_file) (n other_n : Z) (other_changed : list Z) (s : slide)
    : outcome (slide * Z * Z * Z) :=
  match fuel with
  | O => Fault
  | S fuel' =>
      let size := g_end (sl_g s) - g_start (sl_g s) in
      let* s := up_loop (length (sl_changed s)) file other_changed s in
      let earliest_end := g_end (sl_g s) in
      let matching_other := if g_end (sl_go s) >? g_start (sl_go s) then g_end (sl_g s) else -1 in
      let* d := down_loop (length (sl_changed s)) file n other_n other_changed s matching_other in
      let '(s, matching_other) := d in
      if negb (size =? g_end (sl_g s) - g_start (sl_g s)) then settle_loop fuel' file n other_n other_changed s
      else Ret (s, size, earliest_end, matching_other)
  end.

(** Back up to a group of the other file. *)
Fixpoint align_loop (fuel : nat) (file : bgit_xdiff_file) (other_changed : list Z) (s : slide) : outcome slide :=
  match fuel with
  | O => Fault
  | S fuel' =>
      if empty (sl_go s) then
        let* r := bgit_group_slide_up file (sl_changed s) (sl_g s) in
        match r with
        | None => Ret s
        | Some (changed, g) =>
            let* p := bgit_group_previous other_changed (sl_go s) in
            match p with
            | None => Ret {| sl_changed := changed; sl_g := g; sl_go := sl_go s |}
            | Some go => align_loop fuel' file other_changed {| sl_changed := changed; sl_g := g; sl_go := go |}
            end
        end
      else Ret s
  end.

(** The place, of those from [shift] up to [g_end], that reads best. *)
Fixpoint score_loop (fuel : nat) (text : bgit_xdiff_file) (n size shift last best_shift : Z) (best : bgit_split_score) : outcome Z :=
  match fuel with
  | O => Ret best_shift
  | S fuel' =>
      if shift <=? last then
        let* m := bgit_measure_split text n shift in
        let score := bgit_score_add_split m {| effective_indent := 0; penalty := 0 |} in
        let* m := bgit_measure_split text n (shift - size) in
        let score := bgit_score_add_split m score in
        if (best_shift =? -1) || (bgit_score_cmp score best <=? 0) then score_loop fuel' text n size (shift + 1) last shift score
        else score_loop fuel' text n size (shift + 1) last best_shift best
      else Ret best_shift
  end.

Fixpoint shift_loop (fuel : nat) (file : bgit_xdiff_file) (other_changed : list Z) (best_shift : Z) (s : slide) : outcome slide :=
  match fuel with
  | O => Fault
  | S fuel' =>
      if g_end (sl_g s) >? best_shift then
        let* r := bgit_group_slide_up file (sl_changed s) (sl_g s) in
        match r with
        | None => Ret s
        | Some (changed, g) =>
            let* p := bgit_group_previous other_changed (sl_go s) in
            match p with
            | None => Ret {| sl_changed := changed; sl_g := g; sl_go := sl_go s |}
            | Some go => shift_loop fuel' file other_changed best_shift {| sl_changed := changed; sl_g := g; sl_go := go |}
            end
        end
      else Ret s
  end.

Definition place (file text : bgit_xdiff_file) (n : Z) (other_changed : list Z) (indent_heuristic : bool)
    (s : slide) (size earliest_end matching_other : Z) : outcome slide :=
  let last := g_end (sl_g s) in
  if last =? earliest_end then Ret s
  else if negb (matching_other =? -1) then align_loop (length (sl_changed s)) file other_changed s
  else if indent_heuristic then
    let shift := earliest_end in
    let shift := if last - size - 1 >? shift then last - size - 1 else shift in
    let shift := if last - BGIT_INDENT_MAX_SLIDING >? shift then last - BGIT_INDENT_MAX_SLIDING else shift in
    let* best_shift := score_loop (S (Z.to_nat (last - shift))) text n size shift last (-1) {| effective_indent := 0; penalty := 0 |} in
    shift_loop (length (sl_changed s)) file other_changed best_shift s
  else Ret s.

Fixpoint compact_loop (fuel : nat) (file text : bgit_xdiff_file) (n other_n : Z) (other_changed : list Z) (indent_heuristic : bool) (s : slide)
    : outcome (list Z) :=
  match fuel with
  | O => Fault
  | S fuel' =>
      let* s :=
        if empty (sl_g s) then Ret s
        else
          let* r := settle_loop (length (sl_changed s)) file n other_n other_changed s in
          let '(s, size, earliest_end, matching_other) := r in
          place file text n other_changed indent_heuristic s size earliest_end matching_other in
      let* next := bgit_group_next (sl_changed s) n (sl_g s) in
      match next with
      | None => Ret (sl_changed s)
      | Some g =>
          let* other_next := bgit_group_next other_changed other_n (sl_go s) in
          match other_next with
          | None => Ret (sl_changed s)
          | Some go =>
              compact_loop fuel' file text n other_n other_changed indent_heuristic {| sl_changed := sl_changed s; sl_g := g; sl_go := go |}
          end
      end
  end.

Definition bgit_compact (file text : bgit_xdiff_file) (n : Z) (changed : list Z) (other_n : Z) (other_changed : list Z) (indent_heuristic : bool)
    : outcome (list Z) :=
  let* g := bgit_group_init changed in
  let* go := bgit_group_init other_changed in
  compact_loop (length changed * length changed) file text n other_n other_changed indent_heuristic
    {| sl_changed := changed; sl_g := g; sl_go := go |}.

(* ------------------------------------------------------------------ *)
(** ** Marks, groups, and what is left unmarked *)

(** Marks of the first [n] lines of a file, the others unmarked. *)
Definition tracked (n : Z) (c : list Z) : Prop := 0 <= n /\ n + 2 <= len c /\ get c 0 = 0 /\ forall i, n <= i -> get c (i + 1) = 0.

(** A longest run of marked lines, perhaps of none. *)
Definition group_ok (n : Z) (c : list Z) (g : bgit_group) : Prop :=
  0 <= g_start g <= g_end g /\ g_end g <= n /\ (forall i, g_start g <= i < g_end g -> get c (i + 1) <> 0) /\
  get c (g_start g) = 0 /\ get c (g_end g + 1) = 0.

(** How many lines after [e] are marked. *)
Definition later (c : list Z) (e : Z) : Z := len (filter (fun v => v <> 0) (drop (Z.to_nat (e + 2)) c)).

Lemma get_drop c i k : 0 <= i -> 0 <= k -> get (drop (Z.to_nat i) c) k = get c (i + k).
Proof. intros Hi Hk. unfold get. rewrite nth_skipn. f_equal. lia. Qed.

Lemma later_step c e : 0 <= e + 2 -> e + 2 < len c -> later c e = (if get c (e + 2) =? 0 then 0 else 1) + later c (e + 1).
Proof.
  intros H1 H2. unfold later. destruct (drop (Z.to_nat (e + 2)) c) as [|v l] eqn:E.
  { apply (f_equal length) in E. rewrite length_drop in E. cbn in E. unfold len in H2. lia. }
  assert (Hv : get c (e + 2) = v) by (rewrite <- (Z.add_0_r (e + 2)), <- get_drop by lia; by rewrite E).
  assert (Hl : drop (Z.to_nat (e + 1 + 2)) c = l).
  { replace (Z.to_nat (e + 1 + 2)) with (Z.to_nat (e + 2) + 1)%nat by lia. rewrite <- drop_drop, E. done. }
  rewrite Hl, Hv. destruct (Z.eqb_spec v 0) as [->|Hne]; [by rewrite filter_cons_False by tauto|rewrite filter_cons_True by done; by rewrite len_cons].
Qed.

Lemma later_mono c e e' : 0 <= e + 2 -> e <= e' -> e' + 2 <= len c -> later c e' <= later c e.
Proof.
  intros H0 He Hl. destruct (Z.le_exists_sub e e' He) as (d & -> & Hd). rewrite (Z.add_comm d e) in *. clear He.
  revert Hl. pattern d. apply natlike_ind; [by rewrite Z.add_0_r|intros m Hm IH Hl|done].
  pose proof (later_step c (e + m) ltac:(lia) ltac:(lia)) as Hs. replace (e + Z.succ m) with (e + m + 1) by lia. specialize (IH ltac:(lia)).
  destruct (get c (e + m + 2) =? 0); lia.
Qed.

Lemma later_bound c e : 0 <= e + 2 -> e + 2 <= len c -> 0 <= later c e <= len c - (e + 2).
Proof.
  intros H1 H2. unfold later. pose proof (len_nonneg (filter (fun v => v <> 0) (drop (Z.to_nat (e + 2)) c))).
  pose proof (length_filter (fun v => v <> 0) (drop (Z.to_nat (e + 2)) c)) as Hf. rewrite length_drop in Hf. unfold len in *. lia.
Qed.

Lemma get_ext (l l' : list Z) : len l = len l' -> (forall k, 0 <= k -> get l k = get l' k) -> l = l'.
Proof.
  intros Hl Hg. apply (nth_ext _ _ 0 0); [unfold len in Hl; lia|]. intros k Hk. specialize (Hg (Z.of_nat k) ltac:(lia)). unfold get in Hg. by rewrite Nat2Z.id in Hg.
Qed.

Lemma later_same c c' e : len c' = len c -> 0 <= e + 2 -> (forall k, e + 2 <= k -> get c' k = get c k) -> later c' e = later c e.
Proof.
  intros Hl H0 Hg. unfold later. do 2 f_equal. apply get_ext.
  - unfold len in *. rewrite !length_drop. lia.
  - intros k Hk. rewrite !get_drop by lia. apply Hg. lia.
Qed.

Lemma later_flagged c s e : 0 <= s <= e -> e + 2 <= len c -> (forall i, s <= i < e -> get c (i + 1) <> 0) -> get c (e + 1) = 0 ->
  later c (s - 1) = e - s + later c e.
Proof.
  intros Hs He Hf Hz. destruct (Z.le_exists_sub s e ltac:(lia)) as (d & E & Hd). assert (s = e - d) as -> by lia.
  replace (e - (e - d)) with d by lia. assert (Hde : d <= e) by lia. clear Hs E. revert Hf Hde. pattern d. apply natlike_ind; [|intros m Hm IH Hf Hde|done].
  - intros _ H0. rewrite later_step by lia. replace (e - 0 - 1 + 2) with (e + 1) by lia. rewrite Hz. replace (e - 0 - 1 + 1) with e by lia. done.
  - rewrite later_step by lia. replace (e - Z.succ m - 1 + 1) with (e - m - 1) by lia. rewrite IH; [|intros i Hi; apply Hf; lia|lia].
    assert (Hn : get c (e - Z.succ m + 1) <> 0) by (apply Hf; lia). replace (e - Z.succ m - 1 + 2) with (e - Z.succ m + 1) by lia.
    destruct (Z.eqb_spec (get c (e - Z.succ m + 1)) 0); lia.
Qed.

Lemma count_up_split from a b : 0 <= a -> 0 <= b -> count_up from (a + b) = count_up from a ++ count_up (from + a) b.
Proof.
  intros Ha Hb. unfold count_up. rewrite Z2Nat.inj_add, seq_app, map_app by done. f_equal. cbn.
  replace (seq (Z.to_nat a) (Z.to_nat b)) with (map (Nat.add (Z.to_nat a)) (seq 0 (Z.to_nat b))) by (etransitivity; [apply fmap_add_seq|f_equal; lia]).
  rewrite map_map. apply map_ext. intros k. lia.
Qed.

Lemma kept_ext file c c' index : (forall i, i ∈ index -> get c' (i + 1) = get c (i + 1)) -> kept file c' index = kept file c index.
Proof.
  unfold kept. intros H. f_equal. induction index as [|i index IH]; [done|]. rewrite !filter_cons, H by by left. rewrite IH; [done|].
  intros j Hj. apply H. by right.
Qed.

(** A mark moves from the end of a run to the equal line before it. *)
Lemma kept_swap file c c' n p q : 0 <= p < q -> q < n -> line_of file p = line_of file q -> get c (p + 1) = 0 ->
  (forall i, p < i <= q -> get c (i + 1) <> 0) -> get c' (p + 1) <> 0 -> get c' (q + 1) = 0 ->
  (forall i, 0 <= i -> i <> p -> i <> q -> get c' (i + 1) = get c (i + 1)) ->
  kept file c' (count_up 0 n) = kept file c (count_up 0 n).
Proof.
  intros Hp Hq Hl Hcp Hcr Hcp' Hcq' Ho.
  assert (E : count_up 0 n = count_up 0 p ++ [p] ++ count_up (p + 1) (q - p - 1) ++ [q] ++ count_up (q + 1) (n - q - 1)).
  { replace n with (p + (1 + ((q - p - 1) + (1 + (n - q - 1))))) at 1 by lia. rewrite !count_up_split by lia.
    assert (H1 : forall k, count_up k 1 = [k]) by (intros k; unfold count_up; change (Z.to_nat 1) with 1%nat; cbn [seq map]; f_equal; lia). rewrite !H1.
    repeat f_equal; lia. }
  rewrite E, !kept_app.
  rewrite (kept_ext file c c' (count_up 0 p)) by (intros i Hi%count_up_in; [apply Ho; lia|lia]).
  rewrite (kept_ext file c c' (count_up (q + 1) (n - q - 1))) by (intros i Hi%count_up_in; [apply Ho; lia|lia]).
  rewrite (kept_none file c (count_up (p + 1) (q - p - 1))) by (apply Forall_forall; intros i Hi%count_up_in; [apply Hcr; lia|lia]).
  rewrite (kept_none file c' (count_up (p + 1) (q - p - 1))) by (apply Forall_forall; intros i Hi%count_up_in; [rewrite Ho by lia; apply Hcr; lia|lia]).
  f_equal. rewrite (kept_none file c' [p]), (kept_none file c [q]) by (constructor; [|constructor]; first [done|apply Hcr; lia]).
  rewrite (kept_clear file c' [q]), (kept_clear file c [p]) by (by constructor). cbn. by rewrite Hl.
Qed.

(* ------------------------------------------------------------------ *)
(** ** Moving between groups *)

Lemma changed_at_ok n c i : tracked n c -> -1 <= i <= n -> changed_at c i = Ret (negb (get c (i + 1) =? 0)).
Proof. intros (H1 & H2 & _) Hi. unfold changed_at. by rewrite rd_get by lia. Qed.

Lemma run_end_ok n c fuel : tracked n c -> forall i, 0 <= i <= n -> n - i < Z.of_nat fuel ->
  exists e, run_end fuel c i = Ret e /\ i <= e <= n /\ (forall k, i <= k < e -> get c (k + 1) <> 0) /\ get c (e + 1) = 0.
Proof.
  intros Ht. induction fuel as [|fuel IH]; intros i Hi Hf; [lia|]. cbn [run_end]. rewrite (changed_at_ok n) by (done || lia). cbn [obind].
  destruct (Z.eqb_spec (get c (i + 1)) 0) as [E|E]; cbn [negb].
  - exists i. split; [done|]. split; [lia|]. split; [intros; lia|done].
  - destruct (Z.eq_dec i n) as [->|]; [destruct Ht as (_ & _ & _ & Ht); by rewrite Ht in E|].
    destruct (IH (i + 1)) as (e & -> & H1 & H2 & H3); [lia..|]. exists e. split; [done|]. split; [lia|]. split; [|done].
    intros k Hk. destruct (Z.eq_dec k i) as [->|]; [done|]. apply H2. lia.
Qed.

Lemma run_start_ok n c fuel : tracked n c -> forall i, 0 <= i <= n -> i < Z.of_nat fuel ->
  exists s, run_start fuel c i = Ret s /\ 0 <= s <= i /\ (forall k, s <= k < i -> get c (k + 1) <> 0) /\ get c s = 0.
Proof.
  intros Ht. induction fuel as [|fuel IH]; intros i Hi Hf; [lia|]. cbn [run_start]. rewrite (changed_at_ok n) by (done || lia). cbn [obind].
  replace (i - 1 + 1) with i by lia. destruct (Z.eqb_spec (get c i) 0) as [E|E]; cbn [negb].
  - exists i. split; [done|]. split; [lia|]. split; [intros; lia|done].
  - destruct (Z.eq_dec i 0) as [->|]; [destruct Ht as (_ & _ & Ht & _); by rewrite Ht in E|].
    destruct (IH (i - 1)) as (s & -> & H1 & H2 & H3); [lia..|]. exists s. split; [done|]. split; [lia|]. split; [|done].
    intros k Hk. destruct (Z.eq_dec k (i - 1)) as [->|]; [by replace (i - 1 + 1) with i by lia|]. apply H2. lia.
Qed.

Lemma fuel_len n c : tracked n c -> n + 2 <= Z.of_nat (length c).
Proof. intros (_ & H & _). exact H. Qed.

Lemma group_init_ok n c : tracked n c -> exists g, bgit_group_init c = Ret g /\ group_ok n c g.
Proof.
  intros Ht. pose proof (fuel_len n c Ht). pose proof Ht as (H0 & _ & Hz & _). unfold bgit_group_init.
  destruct (run_end_ok n c (length c) Ht 0) as (e & -> & H1 & H2 & H3); [lia..|]. cbn [obind]. eexists. split; [done|].
  split; [cbn; lia|]. split; [cbn; lia|]. by split.
Qed.

Lemma group_next_ok n c g : tracked n c -> group_ok n c g ->
  exists r, bgit_group_next c n g = Ret r /\ match r with None => g_end g = n | Some g' => group_ok n c g' /\ g_start g' = g_end g + 1 end.
Proof.
  intros Ht (G1 & G2 & G3 & G4 & G5). pose proof (fuel_len n c Ht). unfold bgit_group_next. destruct (Z.eqb_spec (g_end g) n); [by eexists|].
  destruct (run_end_ok n c (length c) Ht (g_end g + 1)) as (e & -> & H1 & H2 & H3); [lia..|]. cbn [obind]. eexists. split; [done|]. split; [|done].
  split; [cbn; lia|]. split; [cbn; lia|]. by split.
Qed.

Lemma group_previous_ok n c g : tracked n c -> group_ok n c g ->
  exists r, bgit_group_previous c g = Ret r /\ match r with None => True | Some g' => group_ok n c g' end.
Proof.
  intros Ht (G1 & G2 & G3 & G4 & G5). pose proof (fuel_len n c Ht). unfold bgit_group_previous. destruct (Z.eqb_spec (g_start g) 0); [by eexists|].
  destruct (run_start_ok n c (length c) Ht (g_start g - 1)) as (s & -> & H1 & H2 & H3); [lia..|]. cbn [obind]. eexists. split; [done|].
  split; [cbn; lia|]. split; [cbn; lia|]. split; [done|]. split; [done|]. cbn. by replace (g_start g - 1 + 1) with (g_start g) by lia.
Qed.

(* ------------------------------------------------------------------ *)
(** ** Compaction keeps what is unmarked *)

Section Compact.
Context (file text : bgit_xdiff_file) (n : Z) (other_n : Z) (other_changed : list Z).
Context (Hwf : wf_file file) (Hn : n <= xf_n file) (Hnt : n <= xf_n text) (Hother : tracked other_n other_changed).

(** What a slide does to the marks: some lines move between the group and its
    sides, and nothing else changes. *)
Definition slid (c c' : list Z) (g g' : bgit_group) : Prop :=
  tracked n c' /\ len c' = len c /\ group_ok n c' g' /\ kept file c' (count_up 0 n) = kept file c (count_up 0 n) /\
  later c' (g_end g') <= later c (g_end g) /\ g_end g - g_start g <= g_end g' - g_start g'.

Lemma set_changed_ok c i v : tracked n c -> 0 <= i < n -> exists c', set_changed c i v = Ret c' /\ len c' = len c /\ get c' (i + 1) = v /\
  (forall k, 0 <= k -> k <> i + 1 -> get c' k = get c k) /\ tracked n c'.
Proof.
  intros (H0 & H1 & H2 & H3) Hi. unfold set_changed. destruct (wr_ok c (i + 1) v) as (c' & -> & L & G & O); [lia|]. exists c'. split; [done|].
  split; [done|]. split; [done|]. split; [done|]. split; [done|]. split; [lia|]. split; [rewrite O; [done|lia|lia]|]. intros k Hk. rewrite O; [by apply H3|lia|lia].
Qed.

Lemma lines_match_ok i j : 0 <= i < n -> 0 <= j < n -> bgit_lines_match file i j = Ret (bool_decide (line_of file i = line_of file j)).
Proof. intros Hi Hj. apply line_same_ok; done || lia. Qed.

Lemma slide_up_ok c g : tracked n c -> group_ok n c g -> g_start g < g_end g ->
  exists r, bgit_group_slide_up file c g = Ret r /\
    match r with None => True | Some (c', g') => slid c c' g g' /\ g_start g' < g_start g /\ g_end g' = g_end g - 1 end.
Proof.
  intros Ht (G1 & G2 & G3 & G4 & G5) Hne. unfold bgit_group_slide_up. destruct (Z.gtb_spec (g_start g) 0) as [Hs|]; [|by eexists].
  rewrite lines_match_ok by lia. cbn [obind]. case_bool_decide as Heq; [|by eexists]. set (p := g_start g - 1) in *. set (q := g_end g - 1) in *.
  destruct (set_changed_ok c p 1 Ht) as (c1 & -> & L1 & V1 & O1 & T1); [lia|]. cbn [obind].
  destruct (set_changed_ok c1 q 0 T1) as (c2 & -> & L2 & V2 & O2 & T2); [lia|]. cbn [obind].
  pose proof (fuel_len n c2 T2). assert (Hz : get c (p + 1) = 0) by (unfold p; by replace (g_start g - 1 + 1) with (g_start g) by lia).
  destruct (run_start_ok n c2 (length c2) T2 p) as (s & -> & S1 & S2 & S3); [lia|lia|]. cbn [obind].
  eexists. split; [done|]. cbn [g_start g_end]. split; [|lia]. pose proof Ht as (_ & Hlen & _). split; [done|]. split; [lia|]. split; [|split; [|split]].
  - split; [cbn; lia|]. split; [cbn; lia|]. cbn [g_start g_end]. split; [|by split].
    intros i Hi. destruct (Z_lt_dec i p) as [|Hip]; [apply S2; lia|]. rewrite O2 by lia. destruct (Z.eq_dec i p) as [->|]; [by rewrite V1|].
    rewrite O1 by lia. apply G3. lia.
  - apply (kept_swap file c c2 n p q); try lia; try done.
    + intros i Hi. apply G3. lia.
    + rewrite O2 by lia. by rewrite V1.
    + intros i H0 H1 H2. rewrite O2, O1; lia.
  - cbn [g_end]. rewrite later_step by lia. replace (q + 2) with (g_end g + 1) by lia. rewrite O2, O1, G5 by lia. cbn.
    rewrite (later_same c c2); [by replace (q + 1) with (g_end g) by lia|lia|lia|]. intros k Hk. rewrite O2, O1; lia.
  - cbn [g_start g_end]. lia.
Qed.

Lemma slide_down_ok c g : tracked n c -> group_ok n c g -> g_start g < g_end g ->
  exists r, bgit_group_slide_down file n c g = Ret r /\
    match r with None => True | Some (c', g') => slid c c' g g' /\ g_end g < g_end g' end.
Proof.
  intros Ht (G1 & G2 & G3 & G4 & G5) Hne. unfold bgit_group_slide_down. destruct (Z.ltb_spec (g_end g) n) as [Hs|]; [|by eexists].
  rewrite lines_match_ok by lia. cbn [obind]. case_bool_decide as Heq; [|by eexists]. set (p := g_start g) in *. set (q := g_end g) in *.
  destruct (set_changed_ok c p 0 Ht) as (c1 & -> & L1 & V1 & O1 & T1); [lia|]. cbn [obind].
  destruct (set_changed_ok c1 q 1 T1) as (c2 & -> & L2 & V2 & O2 & T2); [lia|]. cbn [obind].
  pose proof (fuel_len n c2 T2).
  destruct (run_end_ok n c2 (length c2) T2 (q + 1)) as (e & -> & S1 & S2 & S3); [lia|lia|]. cbn [obind].
  eexists. split; [done|]. cbn [g_start g_end]. split; [|lia]. pose proof Ht as (_ & Hlen & _). split; [done|]. split; [lia|]. split; [|split; [|split]].
  - split; [cbn; lia|]. split; [cbn; lia|]. cbn [g_start g_end]. split; [|split; [|done]].
    + intros i Hi. destruct (Z_lt_dec q i) as [|Hip]; [apply S2; lia|]. destruct (Z.eq_dec i q) as [->|]; [by rewrite V2|].
      rewrite O2, O1 by lia. apply G3. lia.
    + rewrite O2 by lia. done.
  - symmetry. apply (kept_swap file c2 c n p q); try lia; try done.
    + rewrite O2 by lia. done.
    + intros i Hi. destruct (Z.eq_dec i q) as [->|]; [by rewrite V2|]. rewrite O2, O1 by lia. apply G3. lia.
    + apply G3. lia.
    + intros i H0 H1 H2. rewrite O2, O1; lia.
  - cbn [g_end]. etransitivity; [apply (later_mono c2 q e); lia|]. rewrite (later_same c c2); [done|lia|lia|]. intros k Hk. rewrite O2, O1; lia.
  - cbn [g_start g_end]. lia.
Qed.

Definition good (s : slide) : Prop :=
  tracked n (sl_changed s) /\ group_ok n (sl_changed s) (sl_g s) /\ g_start (sl_g s) < g_end (sl_g s) /\ group_ok other_n other_changed (sl_go s).

Definition moved_to (s s' : slide) : Prop := good s' /\ slid (sl_changed s) (sl_changed s') (sl_g s) (sl_g s').

Lemma moved_refl s : good s -> moved_to s s.
Proof. intros Hs. split; [done|]. destruct Hs as (H1 & H2 & H3 & H4). split; [done|]. split; [done|]. split; [done|]. split; [done|lia]. Qed.

Lemma moved_trans s1 s2 s3 : moved_to s1 s2 -> moved_to s2 s3 -> moved_to s1 s3.
Proof.
  intros [_ (_ & L1 & _ & K1 & A1 & Z1)] [G (T & L2 & O & K2 & A2 & Z2)]. split; [done|]. split; [done|]. split; [lia|]. split; [done|].
  split; [by rewrite K2|lia].
Qed.

(** A slide of a state, the other group going or staying. *)
Lemma moved_slid s c g go : good s -> slid (sl_changed s) c (sl_g s) g -> group_ok other_n other_changed go ->
  moved_to s {| sl_changed := c; sl_g := g; sl_go := go |}.
Proof.
  intros (H1 & H2 & H3 & H4) Hsl Hgo. split; [|done]. destruct Hsl as (T & L & G & K & A & Z). split; [done|]. split; [done|]. split; [cbn; lia|done].
Qed.

Lemma up_loop_ok fuel : forall s, good s -> g_start (sl_g s) < Z.of_nat fuel ->
  exists s', up_loop fuel file other_changed s = Ret s' /\ moved_to s s'.
Proof.
  induction fuel as [|fuel IH]; intros s Hs Hf; [destruct Hs as (_ & (? & _) & _); lia|]. cbn [up_loop]. pose proof Hs as (H1 & H2 & H3 & H4).
  destruct (slide_up_ok _ _ H1 H2 H3) as (r & -> & Hr). cbn [obind]. destruct r as [[c g]|]; [|exists s; split; [done|by apply moved_refl]].
  destruct Hr as (Hsl & Hst & _). destruct (group_previous_ok other_n other_changed (sl_go s) Hother H4) as (p & -> & Hp). cbn [obind].
  destruct p as [go|]; [|eexists; split; [done|by apply moved_slid]].
  destruct (IH {| sl_changed := c; sl_g := g; sl_go := go |}) as (s' & -> & Hm); [by apply (moved_slid s)|cbn; lia|].
  exists s'. split; [done|]. eapply moved_trans; [|exact Hm]. by apply moved_slid.
Qed.

Lemma down_loop_ok fuel : forall s m, good s -> n - g_end (sl_g s) < Z.of_nat fuel ->
  exists s' m', down_loop fuel file n other_n other_changed s m = Ret (s', m') /\ moved_to s s'.
Proof.
  induction fuel as [|fuel IH]; intros s m Hs Hf; [destruct Hs as (_ & (? & ? & _) & _); lia|]. cbn [down_loop]. pose proof Hs as (H1 & H2 & H3 & H4).
  destruct (slide_down_ok _ _ H1 H2 H3) as (r & -> & Hr). cbn [obind]. destruct r as [[c g]|]; [|exists s, m; split; [done|by apply moved_refl]].
  destruct Hr as (Hsl & Hst). destruct (group_next_ok other_n other_changed (sl_go s) Hother H4) as (p & -> & Hp). cbn [obind].
  destruct p as [go|]; [|eexists _, m; split; [done|by apply moved_slid]]. destruct Hp as [Hp _].
  destruct (IH {| sl_changed := c; sl_g := g; sl_go := go |} (if g_end go >? g_start go then g_end g else m)) as (s' & m' & -> & Hm);
    [by apply (moved_slid s)|cbn; lia|].
  exists s', m'. split; [done|]. eapply moved_trans; [|exact Hm]. by apply moved_slid.
Qed.

Lemma settle_loop_ok fuel : forall s, good s -> n - (g_end (sl_g s) - g_start (sl_g s)) < Z.of_nat fuel ->
  exists s' size earliest m, settle_loop fuel file n other_n other_changed s = Ret (s', size, earliest, m) /\ moved_to s s' /\
    size = g_end (sl_g s') - g_start (sl_g s') /\ size <= earliest.
Proof.
  induction fuel as [|fuel IH]; intros s Hs Hf; [destruct Hs as (_ & (? & ? & _) & _); lia|]. cbn [settle_loop]. pose proof Hs as (H1 & H2 & H3 & H4).
  pose proof (fuel_len _ _ H1). pose proof H2 as (G1 & G2 & _).
  destruct (up_loop_ok (length (sl_changed s)) s Hs) as (s1 & -> & M1); [lia|]. cbn [obind]. pose proof M1 as [Gd1 (T1 & L1 & O1 & _ & _ & Z1)].
  pose proof (fuel_len _ _ T1). pose proof O1 as (P1 & P2 & _).
  destruct (down_loop_ok (length (sl_changed s1)) s1 (if g_end (sl_go s1) >? g_start (sl_go s1) then g_end (sl_g s1) else -1) Gd1) as (s2 & m & -> & M2); [lia|].
  cbn [obind]. pose proof M2 as [Gd2 (T2 & L2 & O2 & _ & _ & Z2)]. pose proof O2 as (Q1 & Q2 & _). pose proof (moved_trans _ _ _ M1 M2) as M.
  destruct (Z.eqb_spec (g_end (sl_g s) - g_start (sl_g s)) (g_end (sl_g s2) - g_start (sl_g s2))) as [E|E]; cbn [negb].
  - eexists s2, _, _, m. split; [done|]. split; [done|]. split; [done|]. lia.
  - destruct (IH s2 Gd2) as (s3 & size & earliest & m' & -> & M3 & E1 & E2); [lia|]. exists s3, size, earliest, m'. split; [done|].
    split; [by eapply moved_trans|done].
Qed.

Lemma align_loop_ok fuel : forall s, good s -> g_start (sl_g s) < Z.of_nat fuel ->
  exists s', align_loop fuel file other_changed s = Ret s' /\ moved_to s s'.
Proof.
  induction fuel as [|fuel IH]; intros s Hs Hf; [destruct Hs as (_ & (? & _) & _); lia|]. cbn [align_loop]. pose proof Hs as (H1 & H2 & H3 & H4).
  destruct (empty (sl_go s)); [|exists s; split; [done|by apply moved_refl]].
  destruct (slide_up_ok _ _ H1 H2 H3) as (r & -> & Hr). cbn [obind]. destruct r as [[c g]|]; [|exists s; split; [done|by apply moved_refl]].
  destruct Hr as (Hsl & Hst & _). destruct (group_previous_ok other_n other_changed (sl_go s) Hother H4) as (p & -> & Hp). cbn [obind].
  destruct p as [go|]; [|eexists; split; [done|by apply moved_slid]].
  destruct (IH {| sl_changed := c; sl_g := g; sl_go := go |}) as (s' & -> & Hm); [by apply (moved_slid s)|cbn; lia|].
  exists s'. split; [done|]. eapply moved_trans; [|exact Hm]. by apply moved_slid.
Qed.

Lemma shift_loop_ok best fuel : forall s, good s -> g_start (sl_g s) < Z.of_nat fuel ->
  exists s', shift_loop fuel file other_changed best s = Ret s' /\ moved_to s s'.
Proof.
  induction fuel as [|fuel IH]; intros s Hs Hf; [destruct Hs as (_ & (? & _) & _); lia|]. cbn [shift_loop]. pose proof Hs as (H1 & H2 & H3 & H4).
  destruct (g_end (sl_g s) >? best); [|exists s; split; [done|by apply moved_refl]].
  destruct (slide_up_ok _ _ H1 H2 H3) as (r & -> & Hr). cbn [obind]. destruct r as [[c g]|]; [|exists s; split; [done|by apply moved_refl]].
  destruct Hr as (Hsl & Hst & _). destruct (group_previous_ok other_n other_changed (sl_go s) Hother H4) as (p & -> & Hp). cbn [obind].
  destruct p as [go|]; [|eexists; split; [done|by apply moved_slid]].
  destruct (IH {| sl_changed := c; sl_g := g; sl_go := go |}) as (s' & -> & Hm); [by apply (moved_slid s)|cbn; lia|].
  exists s'. split; [done|]. eapply moved_trans; [|exact Hm]. by apply moved_slid.
Qed.

Lemma blanks_loop_ok step fuel : step = 1 \/ step = -1 -> forall i blank, (step = -1 -> i < n) -> (step = 1 -> 0 <= i) ->
  exists r, blanks_loop fuel text n i step blank = Ret r.
Proof.
  intros Hstep. induction fuel as [|fuel IH]; intros i blank H1 H2; cbn [blanks_loop]; [by eexists|].
  destruct (if step <? 0 then i >=? 0 else i <? n) eqn:E; [|by eexists].
  assert (0 <= i < n) by (destruct Hstep as [->| ->]; cbn in E; simpl_bool; lia).
  rewrite line_at_ok by lia. cbn [obind]. case_if; [by eexists|]. case_if; [by eexists|]. apply IH; lia.
Qed.

Lemma measure_split_ok split : 0 <= split <= n -> exists m, bgit_measure_split text n split = Ret m.
Proof.
  intros Hs. unfold bgit_measure_split.
  assert (Hh : exists h, (if split >=? n then Ret (true, -1) else let* line := line_at text split in Ret (false, bgit_indent_of line)) = Ret h).
  { destruct (Z.geb_spec split n); [by eexists|]. rewrite line_at_ok by lia. by eexists. }
  destruct Hh as ([eof ind] & ->). cbn [obind].
  destruct (blanks_loop_ok (-1) 20 ltac:(by right) (split - 1) 0) as (pre & ->); [lia|lia|]. cbn [obind].
  destruct (blanks_loop_ok 1 20 ltac:(by left) (split + 1) 0) as (post & ->); [lia|lia|]. by eexists.
Qed.

Lemma score_loop_ok size last fuel : 0 <= size -> last <= n -> forall shift best_shift best, size <= shift ->
  exists r, score_loop fuel text n size shift last best_shift best = Ret r.
Proof.
  intros Hsz Hl. induction fuel as [|fuel IH]; intros shift best_shift best Hs; cbn [score_loop]; [by eexists|].
  destruct (Z.leb_spec shift last); [|by eexists]. destruct (measure_split_ok shift) as (m & ->); [lia|]. cbn [obind].
  destruct (measure_split_ok (shift - size)) as (m' & ->); [lia|]. cbn [obind]. case_if; apply IH; lia.
Qed.

Lemma place_ok heuristic s size earliest m : good s -> size = g_end (sl_g s) - g_start (sl_g s) -> size <= earliest ->
  exists s', place file text n other_changed heuristic s size earliest m = Ret s' /\ moved_to s s'.
Proof.
  intros Hs Hsz He. pose proof Hs as (H1 & H2 & H3 & H4). pose proof H2 as (G1 & G2 & _). pose proof (fuel_len _ _ H1). unfold place.
  case_if; [exists s; split; [done|by apply moved_refl]|]. case_if; [apply align_loop_ok; [done|lia]|].
  destruct heuristic; [|exists s; split; [done|by apply moved_refl]]. cbn zeta.
  set (a := if _ >? earliest then _ else earliest). assert (Ha : earliest <= a) by (unfold a; case_if; lia).
  set (b := if _ >? a then _ else a). assert (Hb : a <= b) by (unfold b; case_if; lia).
  destruct (score_loop_ok size (g_end (sl_g s)) (S (Z.to_nat (g_end (sl_g s) - b))) ltac:(lia) G2 b (-1) {| effective_indent := 0; penalty := 0 |}) as (r & ->); [lia|].
  cbn [obind]. apply shift_loop_ok; [done|lia].
Qed.

(** The marked lines from the group on: how much there is left to look at. *)
Definition ahead (s : slide) : Z := later (sl_changed s) (g_end (sl_g s)) + (g_end (sl_g s) - g_start (sl_g s)).

Lemma compact_loop_ok heuristic fuel : forall s, tracked n (sl_changed s) -> group_ok n (sl_changed s) (sl_g s) -> group_ok other_n other_changed (sl_go s) ->
  ahead s * (n + 1) + (n - g_start (sl_g s)) < Z.of_nat fuel ->
  exists c', compact_loop fuel file text n other_n other_changed heuristic s = Ret c' /\ tracked n c' /\ len c' = len (sl_changed s) /\
    kept file c' (count_up 0 n) = kept file (sl_changed s) (count_up 0 n).
Proof.
  induction fuel as [|fuel IH]; intros s H1 H2 H4 Hf; pose proof H2 as (G1 & G2 & _); pose proof H1 as (N0 & N1 & _).
  { pose proof (later_bound (sl_changed s) (g_end (sl_g s)) ltac:(lia) ltac:(lia)). unfold ahead in Hf. nia. }
  cbn [compact_loop].
  assert (Hstep : exists s', (if empty (sl_g s) then Ret s
        else
          let* r := settle_loop (length (sl_changed s)) file n other_n other_changed s in
          let '(s, size, earliest_end, matching_other) := r in
          place file text n other_changed heuristic s size earliest_end matching_other) = Ret s' /\
    tracked n (sl_changed s') /\ group_ok n (sl_changed s') (sl_g s') /\ group_ok other_n other_changed (sl_go s') /\ len (sl_changed s') = len (sl_changed s) /\
    kept file (sl_changed s') (count_up 0 n) = kept file (sl_changed s) (count_up 0 n) /\
    ((s' = s /\ g_start (sl_g s) = g_end (sl_g s)) \/ (g_start (sl_g s) < g_end (sl_g s) /\ later (sl_changed s') (g_end (sl_g s')) <= later (sl_changed s) (g_end (sl_g s))))).
  { unfold empty. destruct (Z.eqb_spec (g_end (sl_g s)) (g_start (sl_g s))) as [E|E]; [exists s; split; [done|]; do 5 (split; [done|]); by left|].
    assert (Hs : good s) by (split; [done|]; split; [done|]; split; [lia|done]). pose proof (fuel_len _ _ H1).
    destruct (settle_loop_ok (length (sl_changed s)) s Hs) as (s1 & size & earliest & m & -> & M1 & E1 & E2); [lia|]. cbn [obind].
    destruct (place_ok heuristic s1 size earliest m (proj1 M1) E1 E2) as (s2 & -> & M2).
    destruct (moved_trans _ _ _ M1 M2) as [(P1 & P2 & P3 & P4) (Q1 & Q2 & Q3 & Q4 & Q5 & Q6)]. exists s2. split; [done|]. do 5 (split; [done|]). right. split; [lia|done]. }
  destruct Hstep as (s' & -> & T & Go & Goo & L & K & Hc). cbn [obind].
  destruct (group_next_ok n _ _ T Go) as (r & -> & Hr). cbn [obind]. destruct r as [g|]; [|by exists (sl_changed s')]. destruct Hr as [Hg Hgs].
  destruct (group_next_ok other_n _ _ Hother Goo) as (r & -> & Hr2). cbn [obind]. destruct r as [go|]; [|by exists (sl_changed s')]. destruct Hr2 as [Hgo _].
  destruct (IH {| sl_changed := sl_changed s'; sl_g := g; sl_go := go |}) as (c' & -> & T' & L' & K'); [done|done|done| |exists c'; cbn in L', K'; split; [done|]; split; [done|]; split; [lia|by rewrite K']].
  pose proof Hg as (P1 & P2 & P3 & _ & P5). pose proof T as (_ & Nl & _).
  pose proof (later_flagged (sl_changed s') (g_start g) (g_end g) ltac:(lia) ltac:(lia) P3 P5) as Hlf.
  assert (Hah : ahead {| sl_changed := sl_changed s'; sl_g := g; sl_go := go |} = later (sl_changed s') (g_end (sl_g s'))).
  { unfold ahead. cbn [sl_changed sl_g]. rewrite Hgs in Hlf. replace (g_end (sl_g s') + 1 - 1) with (g_end (sl_g s')) in Hlf by lia. lia. }
  rewrite Hah. cbn [sl_g]. unfold ahead in Hf. pose proof Go as (R1 & R2 & _).
  pose proof (later_bound (sl_changed s') (g_end (sl_g s')) ltac:(lia) ltac:(lia)).
  destruct Hc as [[-> E]|[Hlt Hle]]; [lia|]. nia.
Qed.

(** Compaction ends, and leaves unmarked lines that read the same. *)
Lemma compact_ok heuristic c : tracked n c ->
  exists c', bgit_compact file text n c other_n other_changed heuristic = Ret c' /\ tracked n c' /\ len c' = len c /\
    kept file c' (count_up 0 n) = kept file c (count_up 0 n).
Proof.
  intros Ht. unfold bgit_compact. destruct (group_init_ok n c Ht) as (g & -> & Hg). cbn [obind].
  destruct (group_init_ok other_n other_changed Hother) as (go & -> & Hgo). cbn [obind].
  apply compact_loop_ok; [done|done|done|]. pose proof Hg as (G1 & G2 & _). pose proof Ht as (N0 & N1 & _).
  pose proof (later_bound c (g_end g) ltac:(lia) ltac:(lia)). unfold ahead. cbn [sl_changed sl_g]. unfold len in *. nia.
Qed.
End Compact.

Lemma tracked_check n c : 0 <= n -> len c = n + 2 -> get c 0 = 0 -> get c (n + 1) = 0 -> tracked n c.
Proof.
  intros H0 Hl Hs He. split; [done|]. split; [lia|]. split; [done|]. intros i Hi. destruct (Z.eq_dec i n) as [->|]; [done|].
  unfold get. apply nth_overflow. unfold len in Hl. lia.
Qed.

(** [C25] (invariant) Compaction ends whatever the marks are and whatever the other
    file's marks say, never reads or writes outside its arrays, moves no mark
    out of the lines it is given, and leaves unmarked the same lines in the
    same order: moving a run of changes is the same edit. *)
Theorem compact_keeps_lines file text n c other_n other_changed heuristic :
  wf_file file -> n <= xf_n file -> n <= xf_n text -> tracked n c -> tracked other_n other_changed ->
  exists c', bgit_compact file text n c other_n other_changed heuristic = Ret c' /\ tracked n c' /\ len c' = len c /\
    kept file c' (count_up 0 n) = kept file c (count_up 0 n).
Proof. intros Hw Hn Hnt Hc Ho. by apply (compact_ok file text n other_n other_changed). Qed.

Theorem compact_keeps_lines_witness :
  let file := bgit_xdiff_load [97; 10; 98; 10; 97; 10; 98; 10; 99; 10] in
  exists c', bgit_compact file file 5 [0; 0; 1; 1; 0; 0; 0] 0 [0; 0] true = Ret c' /\ tracked 5 c' /\ len c' = 7 /\
    kept file c' (count_up 0 5) = kept file [0; 0; 1; 1; 0; 0; 0] (count_up 0 5).
Proof.
  intros file. apply (compact_keeps_lines file file 5 [0; 0; 1; 1; 0; 0; 0] 0 [0; 0] true); [apply load_wf|by vm_compute|by vm_compute|..].
  - by apply tracked_check.
  - by apply tracked_check.
Defined.
