(* ===== verification/Xdiff.v ===== *)
(** * The changed lines of two files (xdiff.c)

    The first part of [bgit_xdiff_full]: what is set aside before the search,
    the search, and compaction; and [bgit_xdiff_changes], the runs of change.
    The lines left unmarked are the same on both sides, and the runs applied to
    the old file give the new one. *)

From stdpp Require Import list.
From S2P Require Import Prelude CLib XLines Sweep Myers XAlt XCompact.

#[local] Open Scope Z_scope.

(* ------------------------------------------------------------------ *)
(** ** What is set aside *)

Definition BGIT_TRIM_BLOCK : Z := 1024.

(** The blocks the two texts share at their ends. *)
Fixpoint tail_loop (fuel : nat) (old new : list Z) (trimmed smaller : Z) : outcome Z :=
  match fuel with
  | O => Ret trimmed
  | S fuel' =>
      if BGIT_TRIM_BLOCK + trimmed <=? smaller then
        let* o := rdn old (len old - trimmed - BGIT_TRIM_BLOCK) BGIT_TRIM_BLOCK in
        let* n := rdn new (len new - trimmed - BGIT_TRIM_BLOCK) BGIT_TRIM_BLOCK in
        if beq o n then tail_loop fuel' old new (trimmed + BGIT_TRIM_BLOCK) smaller else Ret trimmed
      else Ret trimmed
  end.

(** Enough of them back to start on a line. *)
Fixpoint recover_loop (fuel : nat) (old : list Z) (trimmed recovered : Z) : outcome Z :=
  match fuel with
  | O => Ret recovered
  | S fuel' =>
      if recovered <? trimmed then
        let* c := rd old (len old - trimmed + recovered) in
        if c =? 10 then Ret (recovered + 1) else recover_loop fuel' old trimmed (recovered + 1)
      else Ret recovered
  end.

(** How many lines of each file are left to compare. *)
Definition trim_tail (old new : bgit_xdiff_file) (flags : Z) : outcome (Z * Z) :=
  if flag flags BGIT_XDIFF_TRIM_TAIL then
    let to := xf_text old in
    let tn := xf_text new in
    let smaller := if len to <? len tn then len to else len tn in
    let* trimmed := tail_loop (Z.to_nat smaller) to tn 0 smaller in
    let* recovered := recover_loop (Z.to_nat trimmed) to trimmed 0 in
    let cut := trimmed - recovered in
    if negb (cut =? 0) then Ret (bgit_lines_within old (len to - cut), bgit_lines_within new (len tn - cut))
    else Ret (xf_n old, xf_n new)
  else Ret (xf_n old, xf_n new).

(** The files of lines that are compared. *)
Definition key_files (old new : bgit_xdiff_file) (flags : Z) : bgit_xdiff_file * bgit_xdiff_file :=
  if flag flags BGIT_XDIFF_WS_MASK then
    match bgit_canonical_file old flags, bgit_canonical_file new flags with
    | Some canon_old, Some canon_new => (canon_old, canon_new)
    | _, _ => (old, new)
    end
  else (old, new).

Fixpoint shared_start (fuel : nat) (a b : bgit_xdiff_file) (dstart shared : Z) : outcome Z :=
  match fuel with
  | O => Ret dstart
  | S fuel' =>
      if dstart <? shared then
        let* e := bgit_line_same a dstart b dstart in
        if e then shared_start fuel' a b (dstart + 1) shared else Ret dstart
      else Ret dstart
  end.

Fixpoint shared_end (fuel : nat) (a b : bgit_xdiff_file) (n_old n_new tail limit : Z) : outcome Z :=
  match fuel with
  | O => Ret tail
  | S fuel' =>
      if tail <? limit then
        let* e := bgit_line_same a (n_old - 1 - tail) b (n_new - 1 - tail) in
        if e then shared_end fuel' a b n_old n_new (tail + 1) limit else Ret tail
      else Ret tail
  end.

(** [dis] from the counts, for the lines from [i] to [e]. *)
Fixpoint dis_loop (fuel : nat) (matches dis : list Z) (limit i e : Z) : outcome (list Z) :=
  match fuel with
  | O => Ret dis
  | S fuel' =>
      if i <=? e then
        let* m := rd matches i in
        let* dis := wr dis i (dis_of limit m) in
        dis_loop fuel' matches dis limit (i + 1) e
      else Ret dis
  end.

(* ------------------------------------------------------------------ *)
(** ** The changed lines *)

Definition bgit_changed_lines `{Qsort} (old new : bgit_xdiff_file) (flags : Z) : outcome (Z * list Z * list Z) :=
  let ca := zeros (xf_n old + 2) in
  let cb := zeros (xf_n new + 2) in
  let* trimmed := trim_tail old new flags in
  let '(n_old, n_new) := trimmed in
  let '(key_old, key_new) := key_files old new flags in
  let algorithm := Z.land flags (Z.lor BGIT_XDIFF_MINIMAL (Z.lor BGIT_XDIFF_PATIENCE BGIT_XDIFF_HISTOGRAM)) in
  let alternate := flag algorithm (Z.lor BGIT_XDIFF_PATIENCE BGIT_XDIFF_HISTOGRAM) in
  let* ends :=
    if negb alternate then
      let shared := if n_old <? n_new then n_old else n_new in
      let* dstart := shared_start (Z.to_nat shared) key_old key_new 0 shared in
      let* tail := shared_end (Z.to_nat shared) key_old key_new n_old n_new 0 (shared - dstart) in
      Ret (dstart, tail)
    else Ret (0, 0) in
  let '(dstart, tail) := ends in
  let dend_old := n_old - tail - 1 in
  let dend_new := n_new - tail - 1 in
  let* counts := bgit_match_counts key_old key_new (count_up 0 n_old) (count_up 0 n_new) in
  let '(count_in_new, count_in_old) := counts in
  let* dis_old := dis_loop (Z.to_nat n_old) count_in_new (zeros (n_old + 1)) (eq_limit n_old) dstart dend_old in
  let* dis_new := dis_loop (Z.to_nat n_new) count_in_old (zeros (n_new + 1)) (eq_limit n_new) dstart dend_new in
  let lines_old := count_up dstart (dend_old - dstart + 1) in
  let lines_new := count_up dstart (dend_new - dstart + 1) in
  let* r := if alternate then Ret (lines_old, ca) else discard_loop lines_old dstart dis_old ca dstart dend_old in
  let '(ia, ca) := r in
  let* r := if alternate then Ret (lines_new, cb) else discard_loop lines_new dstart dis_new cb dstart dend_new in
  let '(ib, cb) := r in
  let ndiags := len ia + len ib + 3 in
  let x := {| x_a := key_old; x_b := key_new; x_ia := ia; x_ib := ib; x_base := len ib + 1;
              x_mxcost := mxcost_of ndiags; x_algorithm := algorithm |} in
  let* r := bgit_xd_compare (Z.to_nat (2 * (len ia + len ib) + 2)) x
              {| xd_ca := ca; xd_cb := cb; xd_vf := zeros ndiags; xd_vb := zeros ndiags |}
              0 (len ia) 0 (len ib) (flag flags BGIT_XDIFF_MINIMAL) in
  let '(compared, s) := r in
  if compared <? 0 then Ret (-1, ca, cb)
  else
    let heuristic := flag flags BGIT_XDIFF_INDENT_HEURISTIC in
    let* ca := bgit_compact key_old old n_old (xd_ca s) n_new (xd_cb s) heuristic in
    let* cb := bgit_compact key_new new n_new (xd_cb s) n_old ca heuristic in
    Ret (0, ca, cb).

(* ------------------------------------------------------------------ *)
(** ** The runs of change *)

Record bgit_xdiff_change := { ch_old_start : Z; ch_old_count : Z; ch_new_start : Z; ch_new_count : Z }.

Definition old_end (run : bgit_xdiff_change) : Z := ch_old_start run + ch_old_count run.
Definition new_end (run : bgit_xdiff_change) : Z := ch_new_start run + ch_new_count run.

(** Past the marked lines, of which there are no more than [n]. *)
Fixpoint past_changed (fuel : nat) (changed : list Z) (n i : Z) : outcome Z :=
  match fuel with
  | O => Ret i
  | S fuel' =>
      if i <? n then
        let* c := changed_at changed i in
        if c then past_changed fuel' changed n (i + 1) else Ret i
      else Ret i
  end.

Definition changed_in (changed : list Z) (n i : Z) : outcome bool := if i <? n then changed_at changed i else Ret false.

Fixpoint changes_loop (fuel : nat) (old_changed new_changed : list Z) (n_old n_new i j : Z) : outcome (list bgit_xdiff_change) :=
  match fuel with
  | O => Ret []
  | S fuel' =>
      if (i <? n_old) || (j <? n_new) then
        let* co := changed_in old_changed n_old i in
        let* changed := if co then Ret true else changed_in new_changed n_new j in
        if negb changed then changes_loop fuel' old_changed new_changed n_old n_new (i + 1) (j + 1)
        else
          let* i' := past_changed (Z.to_nat (n_old - i)) old_changed n_old i in
          let* j' := past_changed (Z.to_nat (n_new - j)) new_changed n_new j in
          let* rest := changes_loop fuel' old_changed new_changed n_old n_new i' j' in
          Ret ({| ch_old_start := i; ch_old_count := i' - i; ch_new_start := j; ch_new_count := j' - j |} :: rest)
      else Ret []
  end.

Definition bgit_xdiff_changes (old_changed new_changed : list Z) (n_old n_new : Z) : outcome (list bgit_xdiff_change) :=
  changes_loop (Z.to_nat (n_old + n_new)) old_changed new_changed n_old n_new 0 0.

(* ------------------------------------------------------------------ *)
(** ** The lines of a text *)

(** Where each line starts and what is on it. *)
Fixpoint lines_all (rest : list Z) (i start : Z) (line : list Z) : list (Z * list Z) :=
  match rest with
  | [] => match line with [] => [] | _ => [(start, line)] end
  | c :: rest' =>
      if c =? 10 then (start, line) :: lines_all rest' (i + 1) (i + 1) [] else lines_all rest' (i + 1) start (line ++ [c])
  end.

(** Does the text end in the middle of a line? *)
Definition open_end (line rest : list Z) : bool :=
  match last rest with Some c => negb (c =? 10) | None => match line with [] => false | _ => true end end.

Lemma count_byte_cons c x l : count_byte c (x :: l) = (if x =? c then 1 else 0) + count_byte c l.
Proof. unfold count_byte. rewrite filter_cons. destruct (Z.eqb_spec x c); [rewrite decide_True by done; by rewrite len_cons|by rewrite decide_False]. Qed.

Lemma count_byte_nonneg c l : 0 <= count_byte c l.
Proof. apply len_nonneg. Qed.

Lemma open_end_cons line c rest : open_end line (c :: rest) = open_end (if c =? 10 then [] else line ++ [c]) rest.
Proof.
  unfold open_end. destruct rest as [|d rest].
  - cbn. destruct (c =? 10); [done|]. by destruct line.
  - change (last (c :: d :: rest)) with (last (d :: rest)). destruct (last (d :: rest)) eqn:E; [done|]. by apply last_None in E.
Qed.

Lemma last_newline rest : last rest = Some 10 -> 1 <= count_byte 10 rest.
Proof.
  induction rest as [|c rest IH]; [done|]. rewrite count_byte_cons. pose proof (count_byte_nonneg 10 rest). destruct rest as [|d rest].
  - cbn. intros [= ->]. cbn. lia.
  - cbn [last] in *. intros H1%IH. destruct (c =? 10); lia.
Qed.

Lemma lines_loop_all rest : forall i start line n, n = count_byte 10 rest + Z.b2z (open_end line rest) ->
  lines_loop rest i start line n = lines_all rest i start line.
Proof.
  induction rest as [|c rest IH]; intros i start line n ->; cbn [lines_loop lines_all].
  - unfold open_end. cbn. by destruct line.
  - rewrite open_end_cons, count_byte_cons. pose proof (count_byte_nonneg 10 rest) as Hc. destruct (Z.eqb_spec c 10) as [->|Hne].
    + replace (0 <? _) with true by (symmetry; destruct (open_end [] rest); cbn [Z.b2z]; solve_true). rewrite IH; [done|lia].
    + replace (0 <? _) with true.
      * apply IH. lia.
      * symmetry. apply Z.ltb_lt. unfold open_end. destruct (last rest) as [d|] eqn:E; [|destruct (line ++ [c]) eqn:E2; [by apply app_nil in E2 as [_ ?]|cbn; lia]].
        destruct (Z.eqb_spec d 10) as [->|]; [apply last_newline in E; cbn; lia|cbn; lia].
Qed.

Lemma load_text text : ~ 0 ∈ take (Z.to_nat 8000) text ->
  let file := bgit_xdiff_load text in
  xf_text file = text /\ xf_binary file = false /\ xf_missing_newline file = open_end [] text /\
  xf_starts file = map fst (lines_all text 0 0 []) /\ xf_lines file = map snd (lines_all text 0 0 []).
Proof.
  intros Hb. unfold bgit_xdiff_load. rewrite bool_decide_false by done. cbn zeta. cbn [xf_text xf_binary xf_missing_newline xf_starts xf_lines].
  split; [done|]. split; [done|]. split; [done|]. rewrite lines_loop_all; [done|]. by f_equal.
Qed.

Lemma lines_all_app a : forall b i start line,
  lines_all (a ++ 10 :: b) i start line = lines_all (a ++ [10]) i start line ++ lines_all b (i + len a + 1) (i + len a + 1) [].
Proof.
  induction a as [|c a IH]; intros b i start line; cbn [app lines_all].
  - change (10 =? 10) with true. cbn iota. rewrite len_nil. cbn. by rewrite Z.add_0_r.
  - rewrite len_cons. replace (i + (1 + len a) + 1) with (i + 1 + len a + 1) by lia. destruct (c =? 10); by rewrite (IH b).
Qed.

(** The lines do not depend on where the text is, only where they start does. *)
Lemma lines_all_shift rest : forall i j start start' line, map snd (lines_all rest i start line) = map snd (lines_all rest j start' line).
Proof.
  induction rest as [|c rest IH]; intros i j start start' line; cbn [lines_all]; [by destruct line|].
  destruct (c =? 10); [cbn; f_equal; apply IH|apply IH].
Qed.

Lemma lines_all_starts rest : forall i start line, start <= i -> Forall (fun s => start <= s <= i + len rest) (map fst (lines_all rest i start line)).
Proof.
  induction rest as [|c rest IH]; intros i start line Hi; cbn [lines_all]; [destruct line; [constructor|constructor; [rewrite len_nil; cbn; lia|constructor]]|].
  rewrite len_cons. pose proof (len_nonneg rest). destruct (c =? 10).
  - cbn. constructor; [lia|]. eapply Forall_impl; [apply IH; lia|]. cbn. lia.
  - eapply Forall_impl; [apply IH; lia|]. cbn. lia.
Qed.

(** Full lines start before their newline. *)
Lemma lines_all_full a : forall i start line, start <= i -> Forall (fun s => s <= i + len a) (map fst (lines_all (a ++ [10]) i start line)).
Proof.
  induction a as [|c a IH]; intros i start line Hi; cbn [app lines_all].
  - change (10 =? 10) with true. cbn. constructor; [rewrite len_nil; lia|constructor].
  - rewrite len_cons. pose proof (len_nonneg a). destruct (c =? 10).
    + cbn. constructor; [lia|]. eapply Forall_impl; [apply IH; lia|]. cbn. lia.
    + eapply Forall_impl; [apply IH; lia|]. cbn. lia.
Qed.

Lemma lines_all_no_newline rest : forall i start line, Forall (fun c => c <> 10) line -> Forall (fun l => Forall (fun c => c <> 10) (snd l)) (lines_all rest i start line).
Proof.
  induction rest as [|c rest IH]; intros i start line Hl; cbn [lines_all]; [destruct line; constructor; [done|constructor]|].
  destruct (Z.eqb_spec c 10); [constructor; [done|by apply IH; constructor]|]. apply IH. apply Forall_app. split; [done|by constructor].
Qed.

Lemma lines_within_ok a : forall b bound n, Forall (fun s => s < bound) a -> Forall (fun s => bound <= s) b ->
  lines_within_loop (a ++ b) bound n = n + len a.
Proof.
  induction a as [|s a IH]; intros b bound n Ha Hb; cbn [app lines_within_loop].
  - rewrite len_nil. destruct Hb as [|s b Hs _]; cbn [lines_within_loop]; [lia|]. destruct (Z.ltb_spec s bound); lia.
  - apply Forall_cons in Ha as [Hs Ha]. destruct (Z.ltb_spec s bound); [|lia]. rewrite IH, len_cons by done. lia.
Qed.

(* ------------------------------------------------------------------ *)
(** ** A shared tail *)

(** From some line on, the two files are the same. *)
Definition same_tail (a b : bgit_xdiff_file) (na nb : Z) : Prop :=
  0 <= na <= xf_n a /\ 0 <= nb <= xf_n b /\ drop (Z.to_nat na) (xf_lines a) = drop (Z.to_nat nb) (xf_lines b) /\
  (na < xf_n a -> xf_missing_newline a = xf_missing_newline b).

Lemma same_tail_all a b : same_tail a b (xf_n a) (xf_n b).
Proof.
  pose proof (len_nonneg (xf_lines a)). pose proof (len_nonneg (xf_lines b)). unfold same_tail, xf_n, len in *. split; [lia|]. split; [lia|].
  split; [|lia]. by rewrite !Nat2Z.id, !drop_all.
Qed.

Lemma tail_loop_ok old new smaller fuel : smaller <= len old -> smaller <= len new -> forall trimmed, 0 <= trimmed -> trimmed <= smaller ->
  drop (Z.to_nat (len old - trimmed)) old = drop (Z.to_nat (len new - trimmed)) new ->
  exists r, tail_loop fuel old new trimmed smaller = Ret r /\ trimmed <= r <= smaller /\
    drop (Z.to_nat (len old - r)) old = drop (Z.to_nat (len new - r)) new.
Proof.
  intros Ho Hn. induction fuel as [|fuel IH]; intros trimmed H0 H1 Heq; cbn [tail_loop]; [exists trimmed; split; [done|]; split; [lia|done]|].
  unfold BGIT_TRIM_BLOCK. destruct (Z.leb_spec (1024 + trimmed) smaller); [|exists trimmed; split; [done|]; split; [lia|done]].
  rewrite !rdn_slice by lia. cbn [obind]. unfold beq. case_bool_decide as E; [|exists trimmed; split; [done|]; split; [lia|done]].
  assert (Hsplit : forall l, trimmed + 1024 <= len l -> drop (Z.to_nat (len l - (trimmed + 1024))) l = slice l (len l - trimmed - 1024) 1024 ++ drop (Z.to_nat (len l - trimmed)) l).
  { intros l Hl. unfold slice. rewrite <- (take_drop (Z.to_nat 1024) (drop (Z.to_nat (len l - (trimmed + 1024))) l)) at 1. rewrite drop_drop.
    f_equal; [do 2 f_equal; lia|f_equal; lia]. }
  destruct (IH (trimmed + 1024)) as (r & -> & R1 & R2); [lia|lia| |exists r; split; [done|]; split; [lia|done]].
  rewrite !Hsplit by lia. by rewrite E, Heq.
Qed.

Lemma recover_loop_ok old trimmed fuel : 0 <= trimmed <= len old -> forall recovered, 0 <= recovered <= trimmed -> trimmed - recovered <= Z.of_nat fuel ->
  exists r, recover_loop fuel old trimmed recovered = Ret r /\ recovered <= r <= trimmed /\
    (r < trimmed -> recovered < r /\ get old (len old - trimmed + r - 1) = 10).
Proof.
  intros Ht. induction fuel as [|fuel IH]; intros recovered Hr Hf; cbn [recover_loop]; [exists recovered; split; [done|]; lia|].
  destruct (Z.ltb_spec recovered trimmed); [|exists recovered; split; [done|]; lia]. rewrite rd_get by lia. cbn [obind].
  destruct (Z.eqb_spec (get old (len old - trimmed + recovered)) 10) as [E|E].
  - exists (recovered + 1). split; [done|]. split; [lia|]. intros _. split; [lia|]. by replace (len old - trimmed + (recovered + 1) - 1) with (len old - trimmed + recovered) by lia.
  - destruct (IH (recovered + 1)) as (r & -> & R1 & R2); [lia|lia|]. exists r. split; [done|]. split; [lia|]. intros Hlt. destruct (R2 Hlt). split; [lia|done].
Qed.

(** A text cut after a newline: the lines of the first part, and of the rest. *)
Lemma lines_cut text cut : ~ 0 ∈ take (Z.to_nat 8000) text -> 0 < cut -> cut < len text -> get text (len text - cut - 1) = 10 ->
  let file := bgit_xdiff_load text in
  let n := bgit_lines_within file (len text - cut) in
  0 <= n <= xf_n file /\ drop (Z.to_nat n) (xf_lines file) = map snd (lines_all (drop (Z.to_nat (len text - cut)) text) 0 0 []).
Proof.
  intros Hb Hc Hl Hg file n. destruct (load_text text Hb) as (_ & _ & _ & Es & El). fold file in Es, El.
  set (a := take (Z.to_nat (len text - cut - 1)) text). set (b := drop (Z.to_nat (len text - cut)) text).
  assert (Et : text = a ++ 10 :: b).
  { unfold a, b. rewrite <- (take_drop (Z.to_nat (len text - cut - 1)) text) at 1. f_equal.
    unfold get in Hg. destruct (drop (Z.to_nat (len text - cut - 1)) text) as [|x l] eqn:E.
    - apply (f_equal length) in E. rewrite length_drop in E. cbn in E. unfold len in *. lia.
    - rewrite <- (Nat.add_0_r (Z.to_nat _)), <- nth_skipn, E in Hg. cbn in Hg. subst x. f_equal.
      replace (Z.to_nat (len text - cut)) with (Z.to_nat (len text - cut - 1) + 1)%nat by lia. by rewrite <- drop_drop, E. }
  assert (La : len a = len text - cut - 1) by (unfold a; rewrite len_take; lia).
  pose proof (lines_all_app a b 0 0 []) as Happ. rewrite <- Et in Happ. rewrite Happ in Es, El. rewrite map_app in Es, El.
  set (first := lines_all (a ++ [10]) 0 0 []) in *. set (rest := lines_all b (0 + len a + 1) (0 + len a + 1) []) in *.
  assert (En : n = len first).
  { unfold n, bgit_lines_within. rewrite Es, lines_within_ok; [unfold len; rewrite length_map; lia| |].
    - eapply Forall_impl; [apply lines_all_full; lia|]. cbn. intros. lia.
    - eapply Forall_impl; [apply lines_all_starts; lia|]. cbn. intros. lia. }
  split.
  - rewrite En. unfold xf_n. rewrite El, len_app. pose proof (len_nonneg (map snd rest)). unfold len. rewrite length_map. lia.
  - rewrite El, En. unfold len. rewrite Nat2Z.id, <- (length_map snd first), drop_app_length. apply lines_all_shift.
Qed.

(** A file of lines as [bgit_xdiff_load] makes it of a text. *)
Definition loaded (file : bgit_xdiff_file) : Prop := exists text, file = bgit_xdiff_load text /\ ~ 0 ∈ take (Z.to_nat 8000) text.

Lemma last_drop (l : list Z) k : (k < length l)%nat -> last (drop k l) = last l.
Proof. intros Hk. rewrite !last_lookup, lookup_drop, length_drop. f_equal. lia. Qed.

Lemma drop_same_last (a b : list Z) cut : 0 < cut -> cut <= len a -> cut <= len b ->
  drop (Z.to_nat (len a - cut)) a = drop (Z.to_nat (len b - cut)) b -> open_end [] a = open_end [] b.
Proof.
  intros Hc Ha Hb E. unfold open_end, len in *. rewrite <- (last_drop a (Z.to_nat (Z.of_nat (length a) - cut))) by lia.
  rewrite <- (last_drop b (Z.to_nat (Z.of_nat (length b) - cut))) by lia. by rewrite E.
Qed.

Lemma trim_tail_loaded old new flags : loaded old -> loaded new ->
  exists na nb, trim_tail old new flags = Ret (na, nb) /\ same_tail old new na nb.
Proof.
  intros (to & -> & Ho) (tn & -> & Hn). unfold trim_tail. destruct (flag flags BGIT_XDIFF_TRIM_TAIL); [|eexists _, _; split; [done|apply same_tail_all]].
  destruct (load_text to Ho) as (Eto & _ & Emo & _). destruct (load_text tn Hn) as (Etn & _ & Emn & _). rewrite Eto, Etn.
  set (smaller := if len to <? len tn then len to else len tn). assert (Hs : smaller <= len to /\ smaller <= len tn /\ 0 <= smaller).
  { pose proof (len_nonneg to). pose proof (len_nonneg tn). unfold smaller. destruct (Z.ltb_spec (len to) (len tn)); lia. }
  destruct Hs as (S1 & S2 & S3).
  destruct (tail_loop_ok to tn smaller (Z.to_nat smaller) S1 S2 0) as (t & -> & T1 & T2); [lia|lia| |].
  { rewrite !Z.sub_0_r. unfold len. by rewrite !Nat2Z.id, !drop_all. }
  cbn [obind]. destruct (recover_loop_ok to t (Z.to_nat t) ltac:(lia) 0) as (r & -> & R1 & R2); [lia|lia|]. cbn [obind].
  destruct (Z.eqb_spec (t - r) 0); cbn [negb]; [eexists _, _; split; [done|apply same_tail_all]|].
  destruct (R2 ltac:(lia)) as [R3 R4]. set (cut := t - r) in *. assert (Hcut : 0 < cut) by lia.
  assert (Hdrop : forall l : list Z, t <= len l -> drop (Z.to_nat (len l - cut)) l = drop (Z.to_nat r) (drop (Z.to_nat (len l - t)) l)).
  { intros l Hl. rewrite drop_drop. f_equal. lia. }
  assert (Eq : drop (Z.to_nat (len to - cut)) to = drop (Z.to_nat (len tn - cut)) tn) by (rewrite !Hdrop by lia; by rewrite T2).
  assert (Gn : get tn (len tn - cut - 1) = 10).
  { assert (Hg : forall l : list Z, t <= len l -> get l (len l - cut - 1) = get (drop (Z.to_nat (len l - t)) l) (r - 1)).
    { intros l Hl. rewrite get_drop by lia. f_equal. lia. }
    rewrite Hg, <- T2, <- Hg by lia. replace (len to - cut - 1) with (len to - t + r - 1) by lia. done. }
  assert (Go : get to (len to - cut - 1) = 10) by (replace (len to - cut - 1) with (len to - t + r - 1) by lia; done).
  destruct (lines_cut to cut Ho Hcut ltac:(lia) Go) as [Na Da]. destruct (lines_cut tn cut Hn Hcut ltac:(lia) Gn) as [Nb Db].
  eexists _, _. split; [done|]. split; [done|]. split; [done|]. split; [by rewrite Da, Db, Eq|]. intros _. rewrite Emo, Emn.
  eapply (drop_same_last to tn cut); [done|lia|lia|done].
Qed.

(* ------------------------------------------------------------------ *)
(** ** The files compared when white space is overlooked *)

(** The canonical form of each line. *)
Fixpoint canonical_lines (lines : list (list Z)) (missing : bool) (flags : Z) : list (list Z) :=
  match lines with
  | [] => []
  | line :: lines' =>
      bgit_line_canonical line (negb (match lines' with [] => missing | _ => false end)) flags :: canonical_lines lines' missing flags
  end.

Definition no_newline (l : list Z) : Prop := Forall (fun c => c <> 10) l.

Lemma ws_change_no_newline l : no_newline l -> no_newline (ws_change_loop l).
Proof.
  unfold no_newline. induction 1 as [|c l Hc Hl IH]; [constructor|]. cbn [ws_change_loop]. destruct (isspace c); cbn [negb]; [|by constructor].
  destruct l as [|d l]; [constructor|]. destruct (isspace d); [exact IH|]. constructor; [done|exact IH].
Qed.

Lemma trim_space_no_newline l : no_newline l -> no_newline (trim_space_rev l).
Proof. unfold no_newline. induction 1 as [|c l Hc Hl IH]; [constructor|]. cbn. destruct (isspace c); [done|by constructor]. Qed.

Lemma Forall_filter_keep {A} (P Q : A -> Prop) `{forall x, Decision (Q x)} l : Forall P l -> Forall P (filter Q l).
Proof. rewrite !Forall_forall. intros Hl x Hx. apply list_elem_of_filter in Hx as [_ Hx]. by apply Hl. Qed.

Lemma canonical_no_newline line complete flags : no_newline line -> no_newline (bgit_line_canonical line complete flags).
Proof.
  intros Hl. unfold bgit_line_canonical. case_if; [by apply Forall_filter_keep|]. case_if; [by apply ws_change_no_newline|].
  case_if; [apply Forall_rev, trim_space_no_newline; by apply Forall_rev|]. destruct (last line); [|done]. case_if; [by apply Forall_take|done].
Qed.

Lemma lines_all_line l : no_newline l -> forall rest i start line, lines_all (l ++ [10] ++ rest) i start line = (start, line ++ l) :: lines_all rest (i + len l + 1) (i + len l + 1) [].
Proof.
  unfold no_newline. induction 1 as [|c l Hc Hl IH]; intros rest i start line; cbn [app lines_all].
  - change (10 =? 10) with true. cbn iota. rewrite app_nil_r, len_nil. by rewrite Z.add_0_r.
  - rewrite (proj2 (Z.eqb_neq c 10) Hc). cbn [app] in IH. rewrite IH, <- app_assoc, len_cons. cbn. by replace (i + 1 + len l + 1) with (i + (1 + len l) + 1) by lia.
Qed.

Lemma canonical_loop_lines lines missing flags : Forall no_newline lines -> forall i,
  map snd (lines_all (canonical_loop lines missing flags) i i []) = canonical_lines lines missing flags.
Proof.
  induction 1 as [|line lines Hl _ IH]; intros i; cbn [canonical_loop canonical_lines]; [done|]. cbn zeta.
  rewrite lines_all_line by by apply canonical_no_newline. cbn. f_equal. apply IH.
Qed.

Lemma load_no_newline text : Forall no_newline (xf_lines (bgit_xdiff_load text)).
Proof.
  destruct (decide (0 ∈ take (Z.to_nat 8000) text)) as [Hb|Hb].
  - unfold bgit_xdiff_load. rewrite bool_decide_true by done. constructor.
  - destruct (load_text text Hb) as (_ & _ & _ & _ & ->). apply Forall_map. apply lines_all_no_newline. constructor.
Qed.

(** A canonical file is the file's lines in canonical form, one for one. *)
Lemma canonical_file_ok file flags out : Forall no_newline (xf_lines file) -> bgit_canonical_file file flags = Some out ->
  wf_file out /\ xf_n out = xf_n file /\ xf_lines out = canonical_lines (xf_lines file) (xf_missing_newline file) flags.
Proof.
  intros Hl. unfold bgit_canonical_file. set (text := canonical_loop _ _ _). destruct (xf_binary (bgit_xdiff_load text)) eqn:Eb; [done|].
  destruct (Z.eqb_spec (xf_n (bgit_xdiff_load text)) (xf_n file)) as [En|]; [|done]. cbn [negb orb]. intros [= <-].
  split; [apply load_wf|]. split; [done|]. assert (Hb : ~ 0 ∈ take (Z.to_nat 8000) text).
  { intros Hin. unfold bgit_xdiff_load in Eb. by rewrite bool_decide_true in Eb. }
  destruct (load_text text Hb) as (_ & _ & _ & _ & ->). by apply canonical_loop_lines.
Qed.

Lemma canonical_drop k : forall lines missing flags, drop k (canonical_lines lines missing flags) = canonical_lines (drop k lines) missing flags.
Proof. induction k as [|k IH]; intros [|line lines] missing flags; cbn; [done..|]. apply IH. Qed.

Lemma key_files_loaded old new flags na nb : loaded old -> loaded new -> same_tail old new na nb ->
  let '(ko, kn) := key_files old new flags in
  wf_file ko /\ wf_file kn /\ xf_n ko = xf_n old /\ xf_n kn = xf_n new /\
  drop (Z.to_nat na) (xf_lines ko) = drop (Z.to_nat nb) (xf_lines kn).
Proof.
  intros (to & -> & Ho) (tn & -> & Hn) (T1 & T2 & T3 & T4). set (old := bgit_xdiff_load to) in *. set (new := bgit_xdiff_load tn) in *.
  pose proof (load_wf to) as Wo. pose proof (load_wf tn) as Wn. unfold key_files.
  destruct (flag flags BGIT_XDIFF_WS_MASK); [|done]. destruct (bgit_canonical_file old flags) as [co|] eqn:Eo; [|done].
  destruct (bgit_canonical_file new flags) as [cn|] eqn:En; [|done].
  destruct (canonical_file_ok old flags co (load_no_newline to) Eo) as (W1 & N1 & L1).
  destruct (canonical_file_ok new flags cn (load_no_newline tn) En) as (W2 & N2 & L2).
  do 4 (split; [done|]). rewrite L1, L2, !canonical_drop, T3. destruct (Z_lt_dec na (xf_n old)) as [Hlt|Hge]; [by rewrite T4|].
  assert (E : drop (Z.to_nat nb) (xf_lines new) = []) by (rewrite <- T3; apply drop_ge; unfold xf_n, len in *; lia). by rewrite E.
Qed.

(** Files that can be compared: texts that were loaded, or, where neither the
    texts nor the forms of lines are asked for, any files of lines. *)
Definition comparable (old new : bgit_xdiff_file) (flags : Z) : Prop :=
  wf_file old /\ wf_file new /\
  (loaded old /\ loaded new \/ flag flags BGIT_XDIFF_TRIM_TAIL = false /\ flag flags BGIT_XDIFF_WS_MASK = false).

Lemma loaded_comparable old new flags : loaded old -> loaded new -> comparable old new flags.
Proof. intros Ho Hn. pose proof Ho as (? & -> & _). pose proof Hn as (? & -> & _). split; [apply load_wf|]. split; [apply load_wf|]. by left. Qed.

Lemma trim_tail_ok old new flags : comparable old new flags ->
  exists na nb, trim_tail old new flags = Ret (na, nb) /\ same_tail old new na nb.
Proof.
  intros (_ & _ & [[Ho Hn]|[Ht _]]); [by apply trim_tail_loaded|]. unfold trim_tail. rewrite Ht. eexists _, _. split; [done|]. apply same_tail_all.
Qed.

Lemma key_files_ok old new flags na nb : comparable old new flags -> same_tail old new na nb ->
  let '(ko, kn) := key_files old new flags in
  wf_file ko /\ wf_file kn /\ xf_n ko = xf_n old /\ xf_n kn = xf_n new /\
  drop (Z.to_nat na) (xf_lines ko) = drop (Z.to_nat nb) (xf_lines kn).
Proof.
  intros (Wo & Wn & [[Ho Hn]|[_ Hw]]) Ht; [by apply key_files_loaded|]. unfold key_files. rewrite Hw. destruct Ht as (_ & _ & Hd & _). done.
Qed.

(** The lines of an index that is all of a file, or its end. *)
Lemma map_line_of file from n : 0 <= from -> 0 <= n -> from + n <= xf_n file -> map (line_of file) (count_up from n) = take (Z.to_nat n) (drop (Z.to_nat from) (xf_lines file)).
Proof.
  intros Hf Hn Hle. unfold count_up. rewrite map_map. apply list_eq_same_length with (n := Z.to_nat n).
  - rewrite length_take, length_drop. unfold xf_n, len in Hle. lia.
  - by rewrite length_map, length_seq.
  - intros k x y Hk Hx Hy. rewrite list_lookup_fmap, lookup_seq_lt in Hx by done. cbn in Hx. injection Hx as <-.
    rewrite lookup_take_lt, lookup_drop in Hy by done. unfold line_of. apply nth_lookup_Some with (d := []) in Hy. rewrite <- Hy. f_equal. lia.
Qed.

(* ------------------------------------------------------------------ *)
(** ** What is left unmarked is the same on both sides *)

Lemma shared_start_ok a b shared fuel : wf_file a -> wf_file b -> shared <= xf_n a -> shared <= xf_n b -> forall i, 0 <= i <= shared ->
  (forall t, 0 <= t < i -> line_of a t = line_of b t) ->
  exists r, shared_start fuel a b i shared = Ret r /\ i <= r <= shared /\ (forall t, 0 <= t < r -> line_of a t = line_of b t) /\
    (shared - i <= Z.of_nat fuel -> r < shared -> line_of a r <> line_of b r).
Proof.
  intros Ha Hb Hna Hnb. induction fuel as [|fuel IH]; intros i Hi Hm; cbn [shared_start]; [exists i; split_and!; done || lia|].
  destruct (Z.ltb_spec i shared); [|exists i; split_and!; done || lia]. rewrite line_same_ok by (done || lia). cbn [obind].
  case_bool_decide as E; [|exists i; split_and!; done || lia].
  destruct (IH (i + 1)) as (r & -> & R1 & R2 & R3); [lia| |exists r; split_and!; try done; try lia; intros; apply R3; lia].
  intros t Ht. destruct (Z.eq_dec t i) as [->|]; [done|]. apply Hm. lia.
Qed.

Lemma shared_end_ok a b na nb limit fuel : wf_file a -> wf_file b -> na <= xf_n a -> nb <= xf_n b -> limit <= na -> limit <= nb -> forall i, 0 <= i <= limit ->
  (forall t, 0 <= t < i -> line_of a (na - 1 - t) = line_of b (nb - 1 - t)) ->
  exists r, shared_end fuel a b na nb i limit = Ret r /\ i <= r <= limit /\ forall t, 0 <= t < r -> line_of a (na - 1 - t) = line_of b (nb - 1 - t).
Proof.
  intros Ha Hb Hna Hnb Hla Hlb. induction fuel as [|fuel IH]; intros i Hi Hm; cbn [shared_end]; [exists i; split; [done|]; split; [lia|done]|].
  destruct (Z.ltb_spec i limit); [|exists i; split; [done|]; split; [lia|done]]. rewrite line_same_ok by (done || lia). cbn [obind].
  case_bool_decide as E; [|exists i; split; [done|]; split; [lia|done]].
  destruct (IH (i + 1)) as (r & -> & R1 & R2); [lia| |exists r; split; [done|]; split; [lia|done]].
  intros t Ht. destruct (Z.eq_dec t i) as [->|]; [done|]. apply Hm. lia.
Qed.

Lemma dis_loop_ok matches limit e fuel : e < len matches -> forall dis i, 0 <= i -> e < len dis ->
  exists dis', dis_loop fuel matches dis limit i e = Ret dis' /\ len dis' = len dis.
Proof.
  intros Hm. induction fuel as [|fuel IH]; intros dis i Hi Hd; cbn [dis_loop]; [by exists dis|].
  destruct (Z.leb_spec i e); [|by exists dis]. rewrite rd_get by lia. cbn [obind].
  destruct (wr_ok dis i (dis_of limit (get matches i))) as (d & -> & L & _); [lia|]. cbn [obind].
  destruct (IH d (i + 1)) as (d' & -> & L'); [lia|lia|]. exists d'. split; [done|lia].
Qed.

(** Marks only on the lines from [from] on, [n] of them. *)
Definition marks_in (c : list Z) (from n : Z) : Prop := forall k, 0 <= k -> ~ (k - 1) ∈ count_up from n -> get c k = 0.

Lemma not_in_count_up from n k : 0 <= n -> k < from \/ from + n <= k -> ~ k ∈ count_up from n.
Proof. intros Hn Hk Hin. apply count_up_in in Hin; lia. Qed.

Lemma kept_sides file c d m tail N : 0 <= d -> 0 <= m -> 0 <= tail -> d + m + tail <= N -> marks_in c d m ->
  kept file c (count_up 0 N) = map (line_of file) (count_up 0 d) ++ kept file c (count_up d m) ++
    map (line_of file) (count_up (d + m) tail) ++ map (line_of file) (count_up (d + m + tail) (N - (d + m + tail))).
Proof.
  intros Hd Hm Ht HN Hc. replace N with (d + (m + (tail + (N - (d + m + tail))))) at 1 by lia.
  rewrite !count_up_split by lia. rewrite !kept_app. rewrite Z.add_0_l.
  assert (Hcl : forall from n, 0 <= n -> 0 <= from -> from + n <= d \/ d + m <= from -> kept file c (count_up from n) = map (line_of file) (count_up from n)).
  { intros from n Hn Hf Hout. apply kept_clear. unfold clear. apply Forall_forall. intros i Hi%count_up_in; [|done]. apply Hc; [lia|].
    apply not_in_count_up; lia. }
  rewrite (Hcl 0 d), (Hcl (d + m) tail), (Hcl (d + m + tail)) by lia. done.
Qed.

Lemma marks_tracked c d m N0 n : 0 <= d -> 0 <= m -> d + m <= N0 -> N0 <= n -> len c = n + 2 -> marks_in c d m -> tracked N0 c.
Proof.
  intros Hd Hm H0 Hn Hl Hc. split; [lia|]. split; [lia|]. split; [apply Hc; [lia|apply not_in_count_up; lia]|].
  intros i Hi. apply Hc; [lia|]. apply not_in_count_up; lia.
Qed.

(** Marks moved among the first [n] lines leave what they were if the others
    are unmarked. *)
Lemma kept_tracked file c c' n N : n <= N -> tracked n c -> tracked n c' -> kept file c' (count_up 0 n) = kept file c (count_up 0 n) ->
  kept file c' (count_up 0 N) = kept file c (count_up 0 N).
Proof.
  intros HN (N0 & _ & _ & Hc) (_ & _ & _ & Hc') E. replace N with (n + (N - n)) by lia. rewrite count_up_split, !kept_app, E by lia. f_equal.
  apply kept_ext. intros i Hi%count_up_in; [|lia]. by rewrite Hc, Hc' by lia.
Qed.

Lemma tracked_mono n N c : n <= N -> N + 2 <= len c -> tracked n c -> tracked N c.
Proof. intros Hn Hl (H0 & H1 & H2 & H3). split; [lia|]. split; [done|]. split; [done|]. intros i Hi. apply H3. lia. Qed.

(** What the search starts from on one side: some lines left out as changed. *)
Lemma discard_or_all file (alternate : bool) dis d m N0 : 0 <= d -> 0 <= m -> d + m <= N0 -> N0 <= xf_n file -> len dis = N0 + 1 ->
  exists index c, (if alternate then Ret (count_up d m, zeros (xf_n file + 2))
                   else discard_loop (count_up d m) d dis (zeros (xf_n file + 2)) d (d + m - 1)) = Ret (index, c) /\
    index `sublist_of` count_up d m /\ only (zeros (xf_n file + 2)) c (count_up d m) /\ clear c index /\
    forall k, k ∈ count_up d m -> ~ k ∈ index -> get c (k + 1) <> 0.
Proof.
  intros Hd Hm H0 HN Hl.
  assert (Hz : forall l, clear (zeros (xf_n file + 2)) l) by (intros l; apply Forall_forall; intros i _; apply get_zeros).
  destruct alternate.
  - eexists _, _. split; [done|]. split; [done|]. split; [apply only_refl|]. split; [done|]. done.
  - apply (discard_loop_ok (xf_n file) dis d (d + m - 1)); try lia; [by apply count_up_index; lia|apply count_up_NoDup|done|rewrite len_count_up by lia; lia|rewrite len_zeros; lia].
Qed.

Lemma only_zeros n c d m index : only (zeros n) c (count_up d m) -> forall c', only c c' index -> index `sublist_of` count_up d m -> marks_in c' d m.
Proof.
  intros [_ H1] c' [_ H2] Hs k Hk Hin. rewrite H2, H1; [apply get_zeros|done|done|done|].
  intros Hi. apply Hin. by eapply elem_of_sublist.
Qed.

Lemma no_overflow_lt na nb : 0 <= na -> 0 <= nb -> refs_overflow na nb = false -> na + nb < LONG_MAX.
Proof.
  unfold refs_overflow. intros Ha Hb H. simpl_bool. assert (SIZE_MAX / sizeof_line_ref < LONG_MAX) by (vm_compute; done). lia.
Qed.

(** The search, from where the shared lines at either end leave it. *)
Lemma search_ok_sides `{Qsort} ko kn ia ib ca cb d ma mb algorithm need_min : wf_file ko -> wf_file kn -> 0 <= d -> 0 <= ma -> 0 <= mb ->
  d + ma <= xf_n ko -> d + mb <= xf_n kn -> refs_overflow (xf_n ko) (xf_n kn) = false ->
  ia `sublist_of` count_up d ma -> ib `sublist_of` count_up d mb ->
  only (zeros (xf_n ko + 2)) ca (count_up d ma) -> only (zeros (xf_n kn + 2)) cb (count_up d mb) -> clear ca ia -> clear cb ib ->
  (forall k, k ∈ count_up d ma -> ~ k ∈ ia -> get ca (k + 1) <> 0) -> (forall k, k ∈ count_up d mb -> ~ k ∈ ib -> get cb (k + 1) <> 0) ->
  let ndiags := len ia + len ib + 3 in
  exists s, bgit_xd_compare (Z.to_nat (2 * (len ia + len ib) + 2))
      {| x_a := ko; x_b := kn; x_ia := ia; x_ib := ib; x_base := len ib + 1; x_mxcost := mxcost_of ndiags; x_algorithm := algorithm |}
      {| xd_ca := ca; xd_cb := cb; xd_vf := zeros ndiags; xd_vb := zeros ndiags |} 0 (len ia) 0 (len ib) need_min = Ret (0, s) /\
    len (xd_ca s) = xf_n ko + 2 /\ len (xd_cb s) = xf_n kn + 2 /\ marks_in (xd_ca s) d ma /\ marks_in (xd_cb s) d mb /\
    kept ko (xd_ca s) (count_up d ma) = kept kn (xd_cb s) (count_up d mb).
Proof.
  intros Wo Wn Hd Hma Hmb Hna Hnb Hov Sa Sb Oa Ob Ca Cb Ma Mb ndiags.
  set (x := {| x_a := ko; x_b := kn; x_ia := ia; x_ib := ib; x_base := _; x_mxcost := _; x_algorithm := _ |}).
  set (s0 := {| xd_ca := ca; xd_cb := cb; xd_vf := _; xd_vb := _ |}).
  pose proof (sublist_len _ _ Sa) as La. pose proof (sublist_len _ _ Sb) as Lb. rewrite len_count_up in La, Lb by lia.
  pose proof (len_nonneg ia). pose proof (len_nonneg ib).
  assert (Ia : index_of (xf_n ko) ia) by (eapply sublist_index; [exact Sa|apply count_up_index; lia]).
  assert (Ib : index_of (xf_n kn) ib) by (eapply sublist_index; [exact Sb|apply count_up_index; lia]).
  assert (Hx : search_ok x).
  { split; [|split; [|split]].
    - split; [done|]. split; [done|]. split; [done|]. split; [done|]. split; [done|]. cbn [x_ia x_ib x].
      pose proof (no_overflow_lt (xf_n ko) (xf_n kn) ltac:(lia) ltac:(lia) Hov). lia.
    - eapply sublist_NoDup; [apply count_up_NoDup|exact Sa].
    - eapply sublist_NoDup; [apply count_up_NoDup|exact Sb].
    - eapply refs_overflow_mono; [..|exact Hov]; cbn; lia. }
  assert (Hfull : forall l, span l 0 (len l) = l) by (intros l; unfold span; apply slice_full; lia).
  assert (Hr : ready x s0 0 (len ia) 0 (len ib)).
  { split; [lia|]. split; [cbn; lia|]. split; [lia|]. split; [cbn; lia|]. split.
    - destruct Oa as [Oa _], Ob as [Ob _]. rewrite len_zeros in Oa, Ob by lia. split; [done|]. split; [done|]. unfold diags, ndiags. cbn. rewrite len_zeros by lia. done.
    - cbn. by rewrite !Hfull. }
  destruct (compare_ok (Z.to_nat (2 * (len ia + len ib) + 2)) x s0 0 (len ia) 0 (len ib) need_min Hx Hr) as (s & E & (F1 & F2 & _) & Pa & Pb & Pk).
  { unfold measure. destruct (x_algorithm x =? 0); lia. }
  exists s. split; [exact E|]. clear E. split; [exact F1|]. split; [exact F2|]. cbn [x_ia x_ib x_a x_b x xd_ca xd_cb s0] in Pa, Pb, Pk.
  rewrite (Hfull ia) in Pa, Pk. rewrite (Hfull ib) in Pb, Pk.
  split; [by eapply only_zeros|]. split; [by eapply only_zeros|].
  rewrite (kept_sublist ko (xd_ca s) ia), (kept_sublist kn (xd_cb s) ib); [done|done|apply count_up_NoDup| |done|apply count_up_NoDup|].
  - intros k Hk Hki. destruct Pb as [_ Pb]. pose proof (count_up_in _ _ _ Hmb Hk). rewrite Pb; [by apply Mb|lia|]. by replace (k + 1 - 1) with k by lia.
  - intros k Hk Hki. destruct Pa as [_ Pa]. pose proof (count_up_in _ _ _ Hma Hk). rewrite Pa; [by apply Ma|lia|]. by replace (k + 1 - 1) with k by lia.
Qed.

(** Two runs of equal lines read the same. *)
Lemma map_line_eq a b i j n : (forall t, 0 <= t < n -> line_of a (i + t) = line_of b (j + t)) -> map (line_of a) (count_up i n) = map (line_of b) (count_up j n).
Proof.
  intros H. unfold count_up. rewrite !map_map. apply map_ext_in. intros k Hk%list_elem_of_In%elem_of_seq. apply H. lia.
Qed.

(** What the two files share, as the comparison sees them. *)
Definition same_kept (old new : bgit_xdiff_file) (flags : Z) (ca cb : list Z) : Prop :=
  let '(ko, kn) := key_files old new flags in
  kept ko ca (count_up 0 (xf_n old)) = kept kn cb (count_up 0 (xf_n new)).

Lemma count_up_none from n : n <= 0 -> count_up from n = [].
Proof. intros Hn. unfold count_up. by replace (Z.to_nat n) with 0%nat by lia. Qed.

(** The lines compared are the same, and neither other search was asked for. *)
Definition same_keys (old new : bgit_xdiff_file) (flags : Z) : Prop :=
  let '(ko, kn) := key_files old new flags in
  xf_lines ko = xf_lines kn /\
  flag (Z.land flags (Z.lor BGIT_XDIFF_MINIMAL (Z.lor BGIT_XDIFF_PATIENCE BGIT_XDIFF_HISTOGRAM))) (Z.lor BGIT_XDIFF_PATIENCE BGIT_XDIFF_HISTOGRAM) = false.

(** When every line is kept, none is marked. *)
Lemma kept_all file c index : len (kept file c index) = len index -> clear c index.
Proof.
  unfold kept, clear, len. rewrite length_map. intros Hl. assert (Hl' : length (filter (fun i => get c (i + 1) = 0) index) = length index) by lia. clear Hl.
  induction index as [|i index IH]; [constructor|]. rewrite filter_cons in Hl'. case_decide as E.
  - constructor; [done|]. apply IH. cbn in Hl'. lia.
  - pose proof (length_filter (fun i => get c (i + 1) = 0) index). cbn in Hl'. lia.
Qed.

Lemma unmarked_clear file c c' d N : marks_in c d 0 -> 0 <= d -> kept file c' (count_up 0 N) = kept file c (count_up 0 N) -> clear c' (count_up 0 N).
Proof.
  intros Hc Hd Hk. apply (kept_all file). rewrite Hk, kept_clear; [unfold len; by rewrite length_map|].
  destruct (Z_le_dec N 0); [rewrite count_up_none by lia; constructor|].
  apply Forall_forall. intros i Hi%count_up_in; [|lia]. apply Hc; [lia|]. rewrite count_up_none by lia. apply not_elem_of_nil.
Qed.

Lemma changed_lines_ok `{Qsort} old new flags : comparable old new flags -> refs_overflow (xf_n old) (xf_n new) = false ->
  exists ca cb, bgit_changed_lines old new flags = Ret (0, ca, cb) /\ len ca = xf_n old + 2 /\ len cb = xf_n new + 2 /\
    tracked (xf_n old) ca /\ tracked (xf_n new) cb /\ same_kept old new flags ca cb /\
    (same_keys old new flags -> clear ca (count_up 0 (xf_n old)) /\ clear cb (count_up 0 (xf_n new))).
Proof.
  intros Hco Hov. unfold bgit_changed_lines, same_kept, same_keys. destruct (trim_tail_ok old new flags Hco) as (na & nb & -> & Ht). cbn [obind].
  pose proof (key_files_ok old new flags na nb Hco Ht) as Hkey. destruct (key_files old new flags) as [ko kn].
  destruct Hkey as (Wo & Wn & No & Nn & Hdrop). destruct Ht as (Ta & Tb & Tl & _). rewrite <- No, <- Nn in *.
  assert (Htl : xf_n ko - na = xf_n kn - nb).
  { apply (f_equal length) in Hdrop. rewrite !length_drop in Hdrop. unfold xf_n, len in *. lia. }
  set (algorithm := Z.land flags _). set (alternate := flag algorithm _).
  set (shared := if na <? nb then na else nb).
  assert (Hs : 0 <= shared /\ shared <= na /\ shared <= nb) by (unfold shared; destruct (Z.ltb_spec na nb); lia).
  assert (Hends : exists d tail, (if negb alternate then
      let* dstart := shared_start (Z.to_nat shared) ko kn 0 shared in
      let* tail := shared_end (Z.to_nat shared) ko kn na nb 0 (shared - dstart) in
      Ret (dstart, tail) else Ret (0, 0)) = Ret (d, tail) /\ 0 <= d /\ 0 <= tail /\ d + tail <= na /\ d + tail <= nb /\
      (forall t, 0 <= t < d -> line_of ko t = line_of kn t) /\ (forall t, 0 <= t < tail -> line_of ko (na - 1 - t) = line_of kn (nb - 1 - t)) /\
      (xf_lines ko = xf_lines kn -> alternate = false -> d = na /\ d = nb)).
  { destruct alternate; cbn [negb]; [exists 0, 0; split; [done|]; do 4 (split; [lia|]); split_and!; intros; done || lia|].
    destruct (shared_start_ok ko kn shared (Z.to_nat shared) Wo Wn ltac:(lia) ltac:(lia) 0) as (d & -> & D1 & D2 & D3); [lia|intros; lia|]. cbn [obind].
    destruct (shared_end_ok ko kn na nb (shared - d) (Z.to_nat shared) Wo Wn ltac:(lia) ltac:(lia) ltac:(lia) ltac:(lia) 0) as (tail & -> & E1 & E2); [lia|intros; lia|].
    exists d, tail. split; [done|]. do 4 (split; [lia|]). split; [done|]. split; [done|]. intros El _.
    assert (Hn : xf_n ko = xf_n kn) by (unfold xf_n; by rewrite El). assert (Hsh : shared = na /\ shared = nb) by (unfold shared; destruct (Z.ltb_spec na nb); lia).
    destruct (Z_lt_dec d shared) as [Hlt|]; [|lia]. exfalso. apply D3; [lia|done|]. unfold line_of. by rewrite El. }
  destruct Hends as (d & tail & -> & D0 & T0 & Da & Db & Hpre & Hsuf & Hfull). cbn [obind].
  destruct (match_counts_ok ko kn (count_up 0 na) (count_up 0 nb) Wo Wn) as (cin & cio & -> & Lci & Lco); [apply count_up_index; lia..|]. cbn [obind].
  rewrite len_count_up in Lci, Lco by lia.
  destruct (dis_loop_ok cin (eq_limit na) (na - tail - 1) (Z.to_nat na) ltac:(lia) (zeros (na + 1)) d D0) as (dis_a & -> & Lda); [rewrite len_zeros; lia|]. cbn [obind].
  destruct (dis_loop_ok cio (eq_limit nb) (nb - tail - 1) (Z.to_nat nb) ltac:(lia) (zeros (nb + 1)) d D0) as (dis_b & -> & Ldb); [rewrite len_zeros; lia|]. cbn [obind].
  rewrite len_zeros in Lda, Ldb by lia.
  set (ma := na - tail - d). set (mb := nb - tail - d).
  replace (na - tail - 1 - d + 1) with ma by (unfold ma; lia). replace (nb - tail - 1 - d + 1) with mb by (unfold mb; lia).
  replace (na - tail - 1) with (d + ma - 1) by (unfold ma; lia). replace (nb - tail - 1) with (d + mb - 1) by (unfold mb; lia).
  destruct (discard_or_all ko alternate dis_a d ma na) as (ia & ca & -> & Sa & Oa & Ca & Ma); [unfold ma; lia..|]. cbn [obind].
  destruct (discard_or_all kn alternate dis_b d mb nb) as (ib & cb & -> & Sb & Ob & Cb & Mb); [unfold mb; lia..|]. cbn [obind].
  destruct (search_ok_sides ko kn ia ib ca cb d ma mb algorithm (flag flags BGIT_XDIFF_MINIMAL) Wo Wn) as (s & -> & L1 & L2 & M1 & M2 & K); try done; try (unfold ma, mb; lia).
  cbn [obind]. change (0 <? 0) with false. cbn iota. clear Oa Ob Ca Cb Ma Mb Sa Sb.
  assert (Hwhole : kept ko (xd_ca s) (count_up 0 (xf_n ko)) = kept kn (xd_cb s) (count_up 0 (xf_n kn))).
  { rewrite (kept_sides ko (xd_ca s) d ma tail), (kept_sides kn (xd_cb s) d mb tail) by (done || (unfold ma, mb; lia)). f_equal; [|f_equal; [done|f_equal]].
    - apply map_line_eq. intros t Htt. rewrite !Z.add_0_l. by apply Hpre.
    - apply map_line_eq. intros t Htt. specialize (Hsuf (tail - 1 - t) ltac:(lia)).
      replace (d + ma + t) with (na - 1 - (tail - 1 - t)) by (unfold ma; lia). by replace (d + mb + t) with (nb - 1 - (tail - 1 - t)) by (unfold mb; lia).
    - replace (d + ma + tail) with na by (unfold ma; lia). replace (d + mb + tail) with nb by (unfold mb; lia).
      rewrite !map_line_of by lia. rewrite !take_ge, Hdrop; [done|..]; rewrite length_drop; unfold xf_n, len in *; lia. }
  assert (Tra : tracked na (xd_ca s)) by (apply (marks_tracked (xd_ca s) d ma na (xf_n ko)); done || (unfold ma; lia)).
  assert (Trb : tracked nb (xd_cb s)) by (apply (marks_tracked (xd_cb s) d mb nb (xf_n kn)); done || (unfold mb; lia)).
  destruct (compact_ok ko old na nb (xd_cb s) Wo ltac:(lia) ltac:(lia) Trb (flag flags BGIT_XDIFF_INDENT_HEURISTIC) (xd_ca s) Tra) as (ca' & -> & Ta' & La' & Ka').
  cbn [obind].
  destruct (compact_ok kn new nb na ca' Wn ltac:(lia) ltac:(lia) Ta' (flag flags BGIT_XDIFF_INDENT_HEURISTIC) (xd_cb s) Trb) as (cb' & -> & Tb' & Lb' & Kb').
  cbn [obind]. exists ca', cb'. split; [done|]. split; [lia|]. split; [lia|].
  split; [eapply tracked_mono; [..|exact Ta']; lia|]. split; [eapply tracked_mono; [..|exact Tb']; lia|].
  assert (Eka : kept ko ca' (count_up 0 (xf_n ko)) = kept ko (xd_ca s) (count_up 0 (xf_n ko))) by (apply (kept_tracked ko (xd_ca s) ca' na); done || lia).
  assert (Ekb : kept kn cb' (count_up 0 (xf_n kn)) = kept kn (xd_cb s) (count_up 0 (xf_n kn))) by (apply (kept_tracked kn (xd_cb s) cb' nb); done || lia).
  split; [congruence|]. intros [El Hal]. destruct (Hfull El Hal) as [F1 F2]. unfold ma, mb in *. replace (na - tail - d) with 0 in M1 by lia.
  replace (nb - tail - d) with 0 in M2 by lia. split; [exact (unmarked_clear ko _ _ d _ M1 D0 Eka)|exact (unmarked_clear kn _ _ d _ M2 D0 Ekb)].
Qed.

(* ------------------------------------------------------------------ *)
(** ** The runs describe the edit *)

Section Runs.
Context (old new : bgit_xdiff_file).

Definition same_lines (i j n : Z) : Prop := forall t, 0 <= t < n -> line_of old (i + t) = line_of new (j + t).

(** The runs, in order, from line [i] of the old file and [j] of the new one:
    what is between two runs is the same in both files. *)
Fixpoint edits (i j : Z) (runs : list bgit_xdiff_change) : Prop :=
  match runs with
  | [] => 0 <= i <= xf_n old /\ 0 <= j /\ xf_n old - i = xf_n new - j /\ same_lines i j (xf_n old - i)
  | run :: runs' =>
      0 <= i <= ch_old_start run /\ 0 <= j /\ ch_old_start run - i = ch_new_start run - j /\ same_lines i j (ch_old_start run - i) /\
      0 <= ch_old_count run /\ 0 <= ch_new_count run /\ 0 < ch_old_count run + ch_new_count run /\
      old_end run <= xf_n old /\ new_end run <= xf_n new /\ edits (old_end run) (new_end run) runs'
  end.

Definition lines_between (file : bgit_xdiff_file) (i e : Z) : list (list Z) :=
  take (Z.to_nat (e - i)) (drop (Z.to_nat i) (xf_lines file)).

(** The old file with each run replaced by what the new file has there. *)
Fixpoint patch_runs (runs : list bgit_xdiff_change) (i : Z) : list (list Z) :=
  match runs with
  | [] => lines_between old i (xf_n old)
  | run :: runs' =>
      lines_between old i (ch_old_start run) ++ lines_between new (ch_new_start run) (new_end run) ++ patch_runs runs' (old_end run)
  end.

(** And the new file with each run put back as it was. *)
Fixpoint revert_runs (runs : list bgit_xdiff_change) (j : Z) : list (list Z) :=
  match runs with
  | [] => lines_between new j (xf_n new)
  | run :: runs' =>
      lines_between new j (ch_new_start run) ++ lines_between old (ch_old_start run) (old_end run) ++ revert_runs runs' (new_end run)
  end.

Lemma lines_between_split file i m e : 0 <= i -> i <= m <= e -> lines_between file i e = lines_between file i m ++ lines_between file m e.
Proof.
  intros Hi Hm. unfold lines_between. rewrite <- (take_drop (Z.to_nat (m - i)) (take (Z.to_nat (e - i)) (drop (Z.to_nat i) (xf_lines file)))).
  rewrite take_take, skipn_firstn_comm, drop_drop. f_equal; [f_equal; lia|]. f_equal; [lia|]. f_equal. lia.
Qed.

Lemma lines_between_all file : lines_between file 0 (xf_n file) = xf_lines file.
Proof. unfold lines_between, xf_n, len. rewrite Z.sub_0_r, Nat2Z.id, drop_0. by apply take_ge. Qed.

Lemma same_lines_between i j n : 0 <= i -> 0 <= j -> i + n <= xf_n old -> j + n <= xf_n new -> same_lines i j n ->
  lines_between old i (i + n) = lines_between new j (j + n).
Proof.
  intros Hi Hj Ho Hn Hs. destruct (Z_lt_dec n 0) as [Hneg|Hpos].
  { unfold lines_between. replace (i + n - i) with n by lia. replace (j + n - j) with n by lia. by replace (Z.to_nat n) with 0%nat by lia. }
  unfold lines_between. replace (i + n - i) with n by lia. replace (j + n - j) with n by lia.
  rewrite <- (map_line_of old i n), <- (map_line_of new j n) by lia. by apply map_line_eq.
Qed.

Lemma patch_runs_ok runs : forall i j, edits i j runs -> patch_runs runs i = lines_between new j (xf_n new).
Proof.
  induction runs as [|run runs IH]; intros i j He; cbn [edits patch_runs] in *.
  - destruct He as (H1 & H2 & H3 & H4). replace (xf_n old) with (i + (xf_n old - i)) at 1 by lia. replace (xf_n new) with (j + (xf_n old - i)) by lia.
    apply same_lines_between; lia || done.
  - destruct He as (H1 & H2 & H3 & H4 & H5 & H6 & H7 & H8 & H9 & He). unfold old_end, new_end in *.
    rewrite (IH _ _ He). rewrite (lines_between_split new j (ch_new_start run) (xf_n new)) by lia.
    rewrite (lines_between_split new (ch_new_start run) (ch_new_start run + ch_new_count run) (xf_n new)) by lia. f_equal.
    replace (ch_old_start run) with (i + (ch_old_start run - i)) at 1 by lia. replace (ch_new_start run) with (j + (ch_old_start run - i)) by lia.
    apply same_lines_between; lia || done.
Qed.

Lemma revert_runs_ok runs : forall i j, edits i j runs -> revert_runs runs j = lines_between old i (xf_n old).
Proof.
  induction runs as [|run runs IH]; intros i j He; cbn [edits revert_runs] in *.
  - destruct He as (H1 & H2 & H3 & H4). symmetry. replace (xf_n old) with (i + (xf_n old - i)) at 1 by lia. replace (xf_n new) with (j + (xf_n old - i)) by lia.
    apply same_lines_between; lia || done.
  - destruct He as (H1 & H2 & H3 & H4 & H5 & H6 & H7 & H8 & H9 & He). unfold old_end, new_end in *.
    rewrite (IH _ _ He). rewrite (lines_between_split old i (ch_old_start run) (xf_n old)) by lia.
    rewrite (lines_between_split old (ch_old_start run) (ch_old_start run + ch_old_count run) (xf_n old)) by lia. f_equal. symmetry.
    replace (ch_old_start run) with (i + (ch_old_start run - i)) at 1 by lia. replace (ch_new_start run) with (j + (ch_old_start run - i)) by lia.
    apply same_lines_between; lia || done.
Qed.

Lemma past_changed_ok c n fuel : tracked n c -> forall i, 0 <= i -> n - i <= Z.of_nat fuel ->
  exists e, past_changed fuel c n i = Ret e /\ i <= e /\ (i <= n -> e <= n) /\ (forall k, i <= k < e -> get c (k + 1) <> 0) /\ (e < n -> get c (e + 1) = 0) /\
    (i < n -> get c (i + 1) <> 0 -> i < e).
Proof.
  intros Ht. induction fuel as [|fuel IH]; intros i Hi Hf; cbn [past_changed]; [exists i; split; [done|]; split; [lia|]; split; [lia|]; split; [intros; lia|]; split; intros; lia|].
  destruct (Z.ltb_spec i n); [|exists i; split; [done|]; split; [lia|]; split; [lia|]; split; [intros; lia|]; split; intros; lia].
  rewrite (changed_at_ok n) by (done || lia). cbn [obind]. destruct (Z.eqb_spec (get c (i + 1)) 0) as [E|E]; cbn [negb].
  - exists i. split; [done|]. split; [lia|]. split; [lia|]. split; [intros; lia|]. split; [done|]. intros _ Hne. done.
  - destruct (IH (i + 1)) as (e & -> & H1 & H2 & H3 & H4 & _); [lia|lia|]. exists e. split; [done|]. split; [lia|]. split; [lia|].
    split; [|split; [done|lia]]. intros k Hk. destruct (Z.eq_dec k i) as [->|]; [done|]. apply H3. lia.
Qed.

Lemma changed_in_ok c n i : tracked n c -> 0 <= i -> changed_in c n i = Ret (negb (get c (i + 1) =? 0)).
Proof.
  intros Ht Hi. unfold changed_in. destruct (Z.ltb_spec i n); [by apply (changed_at_ok n); [|lia]|]. destruct Ht as (_ & _ & _ & Ht). by rewrite Ht by lia.
Qed.

Lemma kept_from file c i n : 0 <= i < n -> kept file c (count_up i (n - i)) =
  (if get c (i + 1) =? 0 then [line_of file i] else []) ++ kept file c (count_up (i + 1) (n - (i + 1))).
Proof.
  intros Hi. replace (n - i) with (1 + (n - (i + 1))) by lia. rewrite count_up_split, kept_app by lia. f_equal.
  replace (count_up i 1) with [i] by (unfold count_up; change (Z.to_nat 1) with 1%nat; cbn [seq map]; f_equal; lia). unfold kept. rewrite filter_cons.
  destruct (Z.eqb_spec (get c (i + 1)) 0); [by rewrite decide_True|by rewrite decide_False].
Qed.

Lemma kept_skip file c i e n : 0 <= i <= e -> e <= n -> (forall k, i <= k < e -> get c (k + 1) <> 0) ->
  kept file c (count_up i (n - i)) = kept file c (count_up e (n - e)).
Proof.
  intros Hi He Hc. replace (n - i) with ((e - i) + (n - e)) by lia. rewrite count_up_split, kept_app by lia.
  rewrite kept_none by (apply Forall_forall; intros k Hk%count_up_in; [apply Hc; lia|lia]). cbn. do 2 f_equal. lia.
Qed.


(** The runs of two files with the same lines unmarked. *)
Lemma changes_loop_ok ca cb : tracked (xf_n old) ca -> tracked (xf_n new) cb -> forall fuel i j, 0 <= i <= xf_n old -> 0 <= j <= xf_n new ->
  xf_n old - i + (xf_n new - j) <= Z.of_nat fuel ->
  kept old ca (count_up i (xf_n old - i)) = kept new cb (count_up j (xf_n new - j)) ->
  exists runs, changes_loop fuel ca cb (xf_n old) (xf_n new) i j = Ret runs /\ edits i j runs.
Proof.
  intros Ta Tb. induction fuel as [|fuel IH]; intros i j Hi Hj Hf Hk.
  { exists []. split; [done|]. cbn. split; [lia|]. split; [lia|]. split; [lia|]. intros t Ht. lia. }
  cbn [changes_loop]. destruct ((i <? xf_n old) || (j <? xf_n new)) eqn:Eg.
  2:{ apply orb_false_iff in Eg as [E1 E2]. exists []. split; [done|]. simpl_bool. cbn. split; [lia|]. split; [lia|]. split; [lia|]. intros t Ht. lia. }
  rewrite (changed_in_ok ca) by (done || lia). cbn [obind].
  assert (Ech : (if negb (get ca (i + 1) =? 0) then Ret true else changed_in cb (xf_n new) j) = Ret (negb (get ca (i + 1) =? 0) || negb (get cb (j + 1) =? 0))).
  { destruct (get ca (i + 1) =? 0); [|done]. by rewrite (changed_in_ok cb) by (done || lia). }
  rewrite Ech. cbn [obind]. destruct (negb (get ca (i + 1) =? 0) || negb (get cb (j + 1) =? 0)) eqn:Ec; cbn [negb].
  - destruct (past_changed_ok ca (xf_n old) (Z.to_nat (xf_n old - i)) Ta i) as (i' & -> & I1 & I2 & I3 & I4 & I5); [lia|lia|]. cbn [obind].
    destruct (past_changed_ok cb (xf_n new) (Z.to_nat (xf_n new - j)) Tb j) as (j' & -> & J1 & J2 & J3 & J4 & J5); [lia|lia|]. cbn [obind].
    assert (Hprog : i < i' \/ j < j').
    { destruct Ta as (_ & _ & _ & Ta). destruct Tb as (_ & _ & _ & Tb). apply orb_true_iff in Ec as [Ec|Ec]; simpl_bool.
      - left. apply I5; [|done]. destruct (Z_lt_dec i (xf_n old)); [done|]. exfalso. apply Ec. apply Ta. lia.
      - right. apply J5; [|done]. destruct (Z_lt_dec j (xf_n new)); [done|]. exfalso. apply Ec. apply Tb. lia. }
    destruct (IH i' j') as (runs & -> & He); [lia|lia|lia| |].
    { rewrite <- (kept_skip old ca i i'), <- (kept_skip new cb j j'); done || lia. }
    cbn [obind]. eexists. split; [done|]. cbn [edits]. unfold old_end, new_end. cbn [ch_old_start ch_old_count ch_new_start ch_new_count].
    split; [lia|]. split; [lia|]. split; [lia|]. split; [intros t Ht; lia|]. do 5 (split; [lia|]).
    replace (i + (i' - i)) with i' by lia. by replace (j + (j' - j)) with j' by lia.
  - apply orb_false_iff in Ec as [E1 E2]. simpl_bool.
    assert (Hboth : i < xf_n old /\ j < xf_n new /\ line_of old i = line_of new j /\
      kept old ca (count_up (i + 1) (xf_n old - (i + 1))) = kept new cb (count_up (j + 1) (xf_n new - (j + 1)))).
    { destruct (Z_lt_dec i (xf_n old)) as [Li|Li], (Z_lt_dec j (xf_n new)) as [Lj|Lj].
      - rewrite (kept_from old), (kept_from new), E1, E2 in Hk by lia. cbn in Hk. injection Hk as Hk1 Hk2. by split; [|split].
      - exfalso. rewrite (kept_from old), E1, (count_up_none j) in Hk by lia. done.
      - exfalso. rewrite (kept_from new), E2, (count_up_none i) in Hk by lia. done.
      - exfalso. apply orb_true_iff in Eg as [Eg|Eg]; simpl_bool; lia. }
    destruct Hboth as (Li & Lj & El & Hk'). destruct (IH (i + 1) (j + 1)) as (runs & -> & He); [lia..|done|]. exists runs. split; [done|].
    assert (Hsl : forall n, same_lines (i + 1) (j + 1) n -> same_lines i j (n + 1)).
    { intros n Hs t Ht. destruct (Z.eq_dec t 0) as [->|]; [by rewrite !Z.add_0_r|]. specialize (Hs (t - 1) ltac:(lia)).
      replace (i + t) with (i + 1 + (t - 1)) by lia. by replace (j + t) with (j + 1 + (t - 1)) by lia. }
    destruct runs as [|run runs]; cbn [edits] in *.
    + destruct He as (H1 & H2 & H3 & H4). split; [lia|]. split; [lia|]. split; [lia|]. replace (xf_n old - i) with (xf_n old - (i + 1) + 1) by lia. by apply Hsl.
    + destruct He as (H1 & H2 & H3 & H4 & He). split; [lia|]. split; [lia|]. split; [lia|]. split; [|done].
      replace (ch_old_start run - i) with (ch_old_start run - (i + 1) + 1) by lia. by apply Hsl.
Qed.
End Runs.

(* ------------------------------------------------------------------ *)
(** ** Runs stand apart *)

(** Between a run and the next there is a line that did not change. *)
Fixpoint apart (runs : list bgit_xdiff_change) : Prop :=
  match runs with
  | a :: ((b :: _) as runs') => old_end a < ch_old_start b /\ apart runs'
  | _ => True
  end.

Lemma past_changed_stop c n fuel : forall i e, past_changed fuel c n i = Ret e -> n - i <= Z.of_nat fuel ->
  i <= e /\ changed_in c n e = Ret false.
Proof.
  induction fuel as [|fuel IH]; intros i e; cbn [past_changed].
  - intros [= <-] Hf. split; [lia|]. unfold changed_in. by if_false.
  - unfold changed_in. destruct (Z.ltb_spec i n) as [Hi|Hi].
    2:{ intros [= <-] _. split; [lia|]. by if_false. }
    intros H Hf. apply obind_Ret_inv in H as ([] & Hc & H).
    + apply IH in H as [? H]; [|lia]. split; [lia|exact H].
    + injection H as <-. split; [lia|]. by if_true.
Qed.

Lemma changes_loop_apart ca cb no nn fuel : forall i j runs, changes_loop fuel ca cb no nn i j = Ret runs ->
  apart runs /\ forall r rs, runs = r :: rs -> i <= ch_old_start r /\
    (changed_in ca no i = Ret false -> changed_in cb nn j = Ret false -> i < ch_old_start r).
Proof.
  induction fuel as [|fuel IH]; intros i j runs; cbn [changes_loop]; [by intros [= <-]|].
  destruct ((i <? no) || (j <? nn)); [|by intros [= <-]]. intros H. apply obind_Ret_inv in H as (co & Hco & H).
  apply obind_Ret_inv in H as (c & Hc & H). destruct c; cbn [negb] in H.
  - apply obind_Ret_inv in H as (i' & Hi & H). apply obind_Ret_inv in H as (j' & Hj & H). apply obind_Ret_inv in H as (rest & Hr & H).
    injection H as <-. apply past_changed_stop in Hi as [Hi Ei]; [|lia]. apply past_changed_stop in Hj as [Hj Ej]; [|lia].
    apply IH in Hr as [Ha Hr]. split.
    + destruct rest as [|r rest]; [done|]. split; [|done]. destruct (Hr _ _ eq_refl) as [_ Hlt]. unfold old_end. cbn. specialize (Hlt Ei Ej). lia.
    + intros r rs [= <- <-]. cbn. split; [lia|]. intros E1 E2. rewrite E1 in Hco. injection Hco as <-. congruence.
  - apply IH in H as [Ha Hr]. split; [done|]. intros r rs E. destruct (Hr _ _ E) as [? _]. lia.
Qed.

Lemma changes_apart ca cb no nn runs : bgit_xdiff_changes ca cb no nn = Ret runs -> apart runs.
Proof. intros H. by apply changes_loop_apart in H as [? _]. Qed.
