(* ===== verification/XHunks.v ===== *)
(** * The hunks of a patch (xdiff.c)

    The second part of [bgit_xdiff_full]: the hunks the runs of change are
    shown in, with their context, and the whole comparison.  The theorems: a
    comparison succeeds, its runs and its hunks applied to the old file give
    the new one, and three cases that go wrong. *)

From stdpp Require Import list.
From S2P Require Import Prelude CLib XLines Sweep Myers XAlt XCompact Xdiff.

#[local] Open Scope Z_scope.

Definition INT_MAX : Z := 2 ^ 31 - 1.

(* ------------------------------------------------------------------ *)
(** ** Lines that open a definition, and blank ones *)

Definition isalpha (c : Z) : bool := ((65 <=? c) && (c <=? 90)) || ((97 <=? c) && (c <=? 122)).

Definition opens_definition (line : list Z) : bool :=
  match line with
  | [] => false
  | first :: _ => isalpha first || (first =? 95) || (first =? 36)
  end.

Definition bgit_is_func_rec (file : bgit_xdiff_file) (i : Z) : bool :=
  if (i <? 0) || (i >=? xf_n file) then false else opens_definition (line_of file i).

(** [i] is not negative. *)
Definition bgit_blank_line (file : bgit_xdiff_file) (i flags : Z) : bool :=
  if i >=? xf_n file then true
  else if negb (flag flags BGIT_XDIFF_WS_MASK) then len (line_of file i) =? 0
  else forallb isspace (line_of file i).

Definition bgit_is_empty_rec (file : bgit_xdiff_file) (i : Z) : bool :=
  if (i <? 0) || (i >=? xf_n file) then true else forallb isspace (line_of file i).

Fixpoint func_loop (fuel : nat) (file : bgit_xdiff_file) (l limit step : Z) : Z :=
  match fuel with
  | O => -1
  | S fuel' =>
      if negb (l =? limit) && (l >=? 0) && (l <? xf_n file) then
        if bgit_is_func_rec file l then l else func_loop fuel' file (l + step) limit step
      else -1
  end.

Definition bgit_func_line (file : bgit_xdiff_file) (start limit : Z) : Z :=
  func_loop (S (Z.to_nat (xf_n file))) file start limit (if start >? limit then -1 else 1).

(* ------------------------------------------------------------------ *)
(** ** The hunks *)

Record bgit_xdiff_hunk := { hk_old_start : Z; hk_old_count : Z; hk_new_start : Z; hk_new_count : Z }.

Record bgit_xdiff_result := {
  old_changed : list Z;
  new_changed : list Z;
  hunks : list bgit_xdiff_hunk;
  added : Z;
  removed : Z }.

Definition run_at (runs : list bgit_xdiff_change) (k : Z) : outcome bgit_xdiff_change :=
  if 0 <=? k then match runs !! Z.to_nat k with Some run => Ret run | None => Fault end else Fault.

(** Is a run nothing but blank lines? *)
Definition blank_run (old new : bgit_xdiff_file) (flags : Z) (run : bgit_xdiff_change) : bool :=
  forallb (fun i => bgit_blank_line old i flags) (count_up (ch_old_start run) (ch_old_count run)) &&
  forallb (fun j => bgit_blank_line new j flags) (count_up (ch_new_start run) (ch_new_count run)).

(** [skippable && skippable[k]]. *)
Definition may_skip (skippable : option (list bool)) (k : Z) : bool :=
  match skippable with Some l => nth (Z.to_nat k) l false | None => false end.

Fixpoint skip_loop (fuel : nat) (runs : list bgit_xdiff_change) (skippable : option (list bool)) (max_ignorable k r : Z) : outcome Z :=
  match fuel with
  | O => Ret r
  | S fuel' =>
      if (k <? len runs) && may_skip skippable k then
        let next := k + 1 in
        let* far :=
          if next >=? len runs then Ret true
          else
            let* a := run_at runs next in
            let* b := run_at runs k in
            Ret (ch_old_start a - old_end b >=? max_ignorable) in
        skip_loop fuel' runs skippable max_ignorable (k + 1) (if far then next else r)
      else Ret r
  end.

(** The last run shown in one hunk with run [r]. *)
Fixpoint last_loop (fuel : nat) (runs : list bgit_xdiff_change) (skippable : option (list bool)) (max_ignorable max_common : Z)
    (prev k last ignored : Z) : outcome Z :=
  match fuel with
  | O => Ret last
  | S fuel' =>
      if k <? len runs then
        let* rk := run_at runs k in
        let* rp := run_at runs prev in
        let distance := ch_old_start rk - old_end rp in
        if distance >? max_common then Ret last
        else
          let blank := may_skip skippable k in
          let* rl := run_at runs last in
          if (distance <? max_ignorable) && (negb blank || (last =? prev)) then
            last_loop fuel' runs skippable max_ignorable max_common k (k + 1) k 0
          else if (distance <? max_ignorable) && blank then
            last_loop fuel' runs skippable max_ignorable max_common k (k + 1) last (ignored + ch_new_count rk)
          else if negb (last =? prev) && (ch_old_start rk + ignored - old_end rl >? max_common) then Ret last
          else if negb blank then last_loop fuel' runs skippable max_ignorable max_common k (k + 1) k 0
          else last_loop fuel' runs skippable max_ignorable max_common k (k + 1) last (ignored + ch_new_count rk)
      else Ret last
  end.

(** Above a definition, the lines that belong to it. *)
Fixpoint above_func (fuel : nat) (old : bgit_xdiff_file) (fs1 : Z) : Z :=
  match fuel with
  | O => fs1
  | S fuel' =>
      if (fs1 >? 0) && negb (bgit_is_empty_rec old (fs1 - 1)) && negb (bgit_is_func_rec old (fs1 - 1)) then above_func fuel' old (fs1 - 1)
      else fs1
  end.

Fixpoint above_blanks (fuel : nat) (old : bgit_xdiff_file) (fe1 : Z) : Z :=
  match fuel with
  | O => fe1
  | S fuel' => if (fe1 >? 0) && bgit_is_empty_rec old (fe1 - 1) then above_blanks fuel' old (fe1 - 1) else fe1
  end.

(** Where the hunk that begins with a run starts in both files. *)
Definition hunk_start (old new : bgit_xdiff_file) (context : Z) (whole_function : bool) (run : bgit_xdiff_change) : Z * Z :=
  let s1 := Z.max (ch_old_start run - context) 0 in
  let s2 := Z.max (ch_new_start run - context) 0 in
  if whole_function then
    let i1 := ch_old_start run in
    let past := i1 >=? xf_n old in
    let appended := past && existsb (bgit_is_func_rec new) (count_up (ch_new_start run) (xf_n new - ch_new_start run)) in
    let i1 := if past && negb appended then xf_n old - 1 else i1 in
    if negb appended then
      let fs1 := bgit_func_line old i1 (-1) in
      let fs1 := above_func (Z.to_nat fs1) old fs1 in
      let fs1 := if fs1 <? 0 then 0 else fs1 in
      if fs1 <? s1 then (fs1, Z.max (s2 - (s1 - fs1)) 0) else (s1, s2)
    else (s1, s2)
  else (s1, s2).

(** Where the hunk ends in both files, and the last run it takes in. *)
Fixpoint end_loop (fuel : nat) (old new : bgit_xdiff_file) (context : Z) (whole_function : bool) (runs : list bgit_xdiff_change) (last : Z)
    : outcome (Z * Z * Z) :=
  match fuel with
  | O => Fault
  | S fuel' =>
      let* run := run_at runs last in
      let end1 := old_end run in
      let end2 := new_end run in
      let lctx := context in
      let lctx := if lctx >? xf_n old - end1 then xf_n old - end1 else lctx in
      let lctx := if lctx >? xf_n new - end2 then xf_n new - end2 else lctx in
      let e1 := end1 + lctx in
      let e2 := end2 + lctx in
      if negb whole_function then Ret (e1, e2, last)
      else
        let fe1 := bgit_func_line old end1 (xf_n old) in
        let fe1 := above_blanks (Z.to_nat fe1) old fe1 in
        let fe1 := if fe1 <? 0 then xf_n old else fe1 in
        let '(e1, e2) := if fe1 >? e1 then (fe1, Z.min (e2 + (fe1 - e1)) (xf_n new)) else (e1, e2) in
        if last + 1 >=? len runs then Ret (e1, e2, last)
        else
          let* after := run_at runs (last + 1) in
          let next := ch_old_start after in
          let next := if next >? xf_n old - 1 then xf_n old - 1 else next in
          if (next - context <=? e1) || (bgit_func_line old next e1 <? 0) then end_loop fuel' old new context whole_function runs (last + 1)
          else Ret (e1, e2, last)
  end.

(** The lines of the runs from [r] up to [last]. *)
Definition counts_of (runs : list bgit_xdiff_change) (r last : Z) : Z * Z :=
  let shown := take (Z.to_nat (last + 1 - r)) (drop (Z.to_nat r) runs) in
  (foldr (fun run n => ch_old_count run + n) 0 shown, foldr (fun run n => ch_new_count run + n) 0 shown).

(** How far apart two runs may be and be shown as one hunk: an [int], whatever
    it is kept in. *)
Definition max_common_of (context inter_context : Z) : outcome Z :=
  let m := 2 * context + (if inter_context >? 0 then inter_context else 0) in
  if m >? INT_MAX then Fault else Ret m.

Fixpoint hunks_loop (fuel : nat) (old new : bgit_xdiff_file) (context max_common : Z) (whole_function : bool)
    (runs : list bgit_xdiff_change) (skippable : option (list bool)) (r kept_removed kept_added : Z)
    : outcome (list bgit_xdiff_hunk * Z * Z) :=
  match fuel with
  | O => Fault
  | S fuel' =>
      let max_ignorable := context in
      if r <? len runs then
        let* r := skip_loop (length runs) runs skippable max_ignorable r r in
        if r >=? len runs then Ret ([], kept_removed, kept_added)
        else
          let* last := last_loop (length runs) runs skippable max_ignorable max_common r (r + 1) r 0 in
          let* run := run_at runs r in
          let '(s1, s2) := hunk_start old new context whole_function run in
          let* e := end_loop (length runs) old new context whole_function runs last in
          let '(e1, e2, last) := e in
          let '(removed, added) := counts_of runs r last in
          let* rest := hunks_loop fuel' old new context max_common whole_function runs skippable (last + 1)
                         (kept_removed + removed) (kept_added + added) in
          let '(hunks, kept_removed, kept_added) := rest in
          Ret ({| hk_old_start := s1; hk_old_count := e1 - s1; hk_new_start := s2; hk_new_count := e2 - s2 |} :: hunks, kept_removed, kept_added)
      else Ret ([], kept_removed, kept_added)
  end.

(** How many of the lines are marked. *)
Definition count_changed (changed : list Z) (n : Z) : Z := len (filter (fun i => get changed (i + 1) <> 0) (count_up 0 n)).

(** [None] when there was not memory enough. *)
Definition bgit_xdiff_full `{Qsort} (old new : bgit_xdiff_file) (context inter_context flags : Z) : outcome (option bgit_xdiff_result) :=
  let context := if context <? 0 then 0 else context in
  let* lines := bgit_changed_lines old new flags in
  let '(compared, ca, cb) := lines in
  if compared <? 0 then Ret None
  else
    let removed := count_changed ca (xf_n old) in
    let added := count_changed cb (xf_n new) in
    if (added =? 0) && (removed =? 0) then
      Ret (Some {| old_changed := ca; new_changed := cb; hunks := []; added := 0; removed := 0 |})
    else
      let* runs := bgit_xdiff_changes ca cb (xf_n old) (xf_n new) in
      let skippable :=
        if flag flags BGIT_XDIFF_IGNORE_BLANK_LINES && negb (len runs =? 0) then Some (map (blank_run old new flags) runs) else None in
      let* max_common := max_common_of context inter_context in
      let* h := hunks_loop (S (length runs)) old new context max_common (flag flags BGIT_XDIFF_FUNCTION_CONTEXT) runs skippable 0 0 0 in
      let '(hunks, kept_removed, kept_added) := h in
      let '(removed, added) := match skippable with Some _ => (kept_removed, kept_added) | None => (removed, added) end in
      Ret (Some {| old_changed := ca; new_changed := cb; hunks := hunks; added := added; removed := removed |}).

Definition bgit_xdiff_opts `{Qsort} (old new : bgit_xdiff_file) (context flags : Z) : outcome (option bgit_xdiff_result) :=
  bgit_xdiff_full old new context 0 flags.

Definition bgit_xdiff `{Qsort} (old new : bgit_xdiff_file) (context : Z) : outcome (option bgit_xdiff_result) :=
  bgit_xdiff_opts old new context (Z.lor BGIT_XDIFF_INDENT_HEURISTIC (if context =? 0 then BGIT_XDIFF_TRIM_TAIL else 0)).

(** The text beside a hunk: the line that opens the definition it is in, what
    fits of it. *)
Fixpoint function_loop (fuel : nat) (file : bgit_xdiff_file) (i limit : Z) : option (Z * list Z) :=
  match fuel with
  | O => None
  | S fuel' =>
      if (i >? limit) && (i >=? 0) && (i <? xf_n file) then
        let line := line_of file i in
        if negb (opens_definition line) then function_loop fuel' file (i - 1) limit
        else Some (i, rev (trim_space_rev (rev (take 80 line))))
      else None
  end.

Definition bgit_xdiff_function (file : bgit_xdiff_file) (start limit : Z) : option (Z * list Z) :=
  function_loop (S (Z.to_nat (xf_n file))) file start limit.


(* ------------------------------------------------------------------ *)
(** ** Every hunk can be made *)

Section Hunks.
Context (old new : bgit_xdiff_file) (runs : list bgit_xdiff_change).

Lemma run_at_ok k : 0 <= k < len runs -> exists run, run_at runs k = Ret run /\ runs !! Z.to_nat k = Some run.
Proof.
  intros Hk. unfold run_at. replace (0 <=? k) with true by (symmetry; solve_true).
  destruct (lookup_lt_is_Some_2 runs (Z.to_nat k)) as [run E]; [unfold len in Hk; lia|]. rewrite E. by exists run.
Qed.

Lemma skip_loop_ok skippable m fuel : forall k r, 0 <= r -> r <= len runs -> 0 <= k ->
  exists r', skip_loop fuel runs skippable m k r = Ret r' /\ 0 <= r' <= len runs /\ (r <= k -> r <= r').
Proof.
  induction fuel as [|fuel IH]; intros k r Hr Hl Hk; cbn [skip_loop]; [exists r; split; [done|]; lia|].
  destruct (Z.ltb_spec k (len runs)); [|exists r; split; [done|]; lia]. destruct (may_skip skippable k); [|exists r; split; [done|]; lia]. cbn [andb].
  assert (Hfar : exists far, (if k + 1 >=? len runs then Ret true else
      let* a := run_at runs (k + 1) in let* b := run_at runs k in Ret (ch_old_start a - old_end b >=? m)) = Ret far).
  { destruct (Z.geb_spec (k + 1) (len runs)); [by eexists|]. destruct (run_at_ok (k + 1)) as (a & -> & _); [lia|].
    destruct (run_at_ok k) as (b & -> & _); [lia|]. by eexists. }
  destruct Hfar as (far & ->). cbn [obind].
  destruct (IH (k + 1) (if far then k + 1 else r)) as (r' & -> & R1 & R2); [destruct far; lia|destruct far; lia|lia|]. exists r'. split; [done|]. split; [lia|].
  intros Hrk. destruct far; lia.
Qed.

Lemma last_loop_ok skippable m mc fuel : forall prev k last ignored, 0 <= prev < len runs -> prev < k -> 0 <= last < k -> last < len runs ->
  exists l, last_loop fuel runs skippable m mc prev k last ignored = Ret l /\ last <= l < len runs.
Proof.
  induction fuel as [|fuel IH]; intros prev k last ignored Hp Hk Hl Hll; cbn [last_loop]; [exists last; split; [done|lia]|].
  destruct (Z.ltb_spec k (len runs)); [|exists last; split; [done|lia]].
  destruct (run_at_ok k) as (rk & -> & _); [lia|]. destruct (run_at_ok prev) as (rp & -> & _); [lia|]. cbn [obind].
  case_if; [exists last; split; [done|lia]|]. destruct (run_at_ok last) as (rl & -> & _); [lia|]. cbn [obind].
  assert (Hgo : forall last' i, last <= last' -> last' <= k -> exists l, last_loop fuel runs skippable m mc k (k + 1) last' i = Ret l /\ last <= l < len runs).
  { intros last' i H1 H2. destruct (IH k (k + 1) last' i) as (l & -> & L); [lia..|]. exists l. split; [done|lia]. }
  case_if; [apply Hgo; lia|]. case_if; [apply Hgo; lia|]. case_if; [exists last; split; [done|lia]|]. case_if; apply Hgo; lia.
Qed.

Lemma end_loop_ok context whole fuel : forall last, 0 <= last < len runs -> len runs - last <= Z.of_nat fuel ->
  exists e1 e2 l, end_loop fuel old new context whole runs last = Ret (e1, e2, l) /\ last <= l < len runs.
Proof.
  induction fuel as [|fuel IH]; intros last Hl Hf; [lia|]. cbn [end_loop]. destruct (run_at_ok last) as (run & -> & _); [done|]. cbn [obind]. cbn zeta.
  destruct whole; cbn [negb]; [|eexists _, _, last; split; [done|lia]].
  match goal with |- context [if ?c then (?a, Z.min ?b (xf_n new)) else ?e] => destruct (if c then (a, Z.min b (xf_n new)) else e) as [e1 e2] end.
  destruct (Z.geb_spec (last + 1) (len runs)); [eexists _, _, last; split; [done|lia]|]. destruct (run_at_ok (last + 1)) as (after & -> & _); [lia|]. cbn [obind].
  match goal with |- context [if ?c || ?d then _ else _] => destruct (c || d) end; [|eexists _, _, last; split; [done|lia]]. destruct (IH (last + 1)) as (f1 & f2 & l & -> & L); [lia|lia|]. exists f1, f2, l. split; [done|lia].
Qed.

Lemma hunks_loop_ok context mc whole skippable fuel : forall r kr ka, 0 <= r <= len runs -> len runs - r < Z.of_nat fuel ->
  exists hs kr' ka', hunks_loop fuel old new context mc whole runs skippable r kr ka = Ret (hs, kr', ka').
Proof.
  induction fuel as [|fuel IH]; intros r kr ka Hr Hf; [lia|]. cbn [hunks_loop].
  destruct (Z.ltb_spec r (len runs)); [|by eexists _, _, _].
  destruct (skip_loop_ok skippable context (length runs) r r) as (r' & -> & R1 & R2); [lia..|]. cbn [obind].
  destruct (Z.geb_spec r' (len runs)); [by eexists _, _, _|].
  destruct (last_loop_ok skippable context mc (length runs) r' (r' + 1) r' 0) as (l & -> & L); [lia..|]. cbn [obind].
  destruct (run_at_ok r') as (run & -> & _); [lia|]. cbn [obind]. destruct (hunk_start old new context whole run) as [s1 s2].
  destruct (end_loop_ok context whole (length runs) l) as (e1 & e2 & l' & -> & L'); [lia|unfold len; lia|]. cbn [obind].
  destruct (counts_of runs r' l') as [rm ad]. destruct (IH (l' + 1) (kr + rm) (ka + ad)) as (hs & kr' & ka' & ->); [lia|lia|]. by eexists _, _, _.
Qed.

(* ------------------------------------------------------------------ *)
(** ** The hunks describe the edit *)

(** A hunk as one replacement, its context included. *)
Definition hunk_change (h : bgit_xdiff_hunk) : bgit_xdiff_change :=
  {| ch_old_start := hk_old_start h; ch_old_count := hk_old_count h; ch_new_start := hk_new_start h; ch_new_count := hk_new_count h |}.

Lemma edits_at k : forall rs i j run, edits old new i j rs -> rs !! k = Some run ->
  0 <= i <= ch_old_start run /\ 0 <= j <= ch_new_start run /\ 0 <= ch_old_count run /\ 0 <= ch_new_count run /\
  old_end run <= xf_n old /\ new_end run <= xf_n new /\ edits old new (old_end run) (new_end run) (drop (S k) rs).
Proof.
  induction k as [|k IH]; intros [|r0 rs] i j run He E; try done; cbn [edits] in He; destruct He as (H1 & H2 & H3 & H4 & H5 & H6 & H7 & H8 & H9 & He).
  - cbn in E. injection E as ->. cbn [drop]. rewrite drop_0. do 6 (split; [lia|]). done.
  - cbn in E. destruct (IH rs _ _ run He E) as (G1 & G2 & G). unfold old_end, new_end in G1, G2. split; [lia|]. split; [lia|]. exact G.
Qed.

(** Where nothing is skipped, one hunk takes in every run near enough to the
    one before. *)
Lemma last_loop_near m mc fuel : forall last ignored, 0 <= last < len runs -> len runs - (last + 1) <= Z.of_nat fuel ->
  exists l, last_loop fuel runs None m mc last (last + 1) last ignored = Ret l /\ last <= l < len runs /\
    forall a b, runs !! Z.to_nat l = Some a -> runs !! Z.to_nat (l + 1) = Some b -> mc < ch_old_start b - old_end a.
Proof.
  assert (Hend : forall l (b : bgit_xdiff_change), len runs <= l + 1 -> runs !! Z.to_nat (l + 1) = Some b -> False).
  { intros l b Hl E. apply lookup_lt_Some in E. unfold len in Hl. lia. }
  induction fuel as [|fuel IH]; intros last ignored Hl Hf; cbn [last_loop].
  { exists last. split; [done|]. split; [lia|]. intros a b _ E. exfalso. eapply Hend; [|exact E]. lia. }
  destruct (Z.ltb_spec (last + 1) (len runs)).
  2:{ exists last. split; [done|]. split; [lia|]. intros a b _ E. exfalso. eapply Hend; [|exact E]. lia. }
  destruct (run_at_ok (last + 1)) as (rk & -> & Ek); [lia|]. destruct (run_at_ok last) as (rp & -> & Ep); [lia|]. cbn [obind].
  destruct (Z.gtb_spec (ch_old_start rk - old_end rp) mc) as [Hgt|Hle].
  { exists last. split; [done|]. split; [lia|]. intros a b Ea Eb. rewrite Ep in Ea. rewrite Ek in Eb. injection Ea as <-. injection Eb as <-. lia. }
  cbn [may_skip negb orb andb]. rewrite andb_true_r, andb_false_r, Z.eqb_refl. cbn [negb andb].
  destruct (IH (last + 1) 0) as (l & E & L & P); [lia|lia|]. rewrite E. case_if; exists l; (split; [done|]; split; [lia|done]).
Qed.

Lemma same_lines_sub i j n i' j' n' : same_lines old new i j n -> i <= i' -> i' - i = j' - j -> i' + n' <= i + n -> same_lines old new i' j' n'.
Proof.
  intros Hs Hi Hj Hn t Ht. specialize (Hs (i' - i + t) ltac:(lia)). replace (i' + t) with (i + (i' - i + t)) by lia. by replace (j' + t) with (j + (i' - i + t)) by lia.
Qed.

(** The hunks from run [r] on, when the one before ended [c] lines after the
    run before. *)
Lemma hunks_edits context mc fuel : 0 <= context -> 2 * context <= mc -> forall r i j c kr ka, 0 <= r <= len runs -> len runs - r < Z.of_nat fuel ->
  edits old new i j (drop (Z.to_nat r) runs) -> 0 <= c <= context -> i + c <= xf_n old -> j + c <= xf_n new ->
  (r = 0 /\ i = 0 /\ j = 0 /\ c = 0) \/ (forall run, runs !! Z.to_nat r = Some run -> 2 * context < ch_old_start run - i) ->
  exists hs kr' ka', hunks_loop fuel old new context mc false runs None r kr ka = Ret (hs, kr', ka') /\
    edits old new (i + c) (j + c) (map hunk_change hs).
Proof.
  intros Hctx Hmc. induction fuel as [|fuel IH]; intros r i j c kr ka Hr Hf He Hc Hio Hjn Hfar; [lia|]. cbn [hunks_loop].
  destruct (Z.ltb_spec r (len runs)) as [Hlt|Hge].
  2:{ eexists _, _, _. split; [done|]. rewrite drop_ge in He by (unfold len in Hge; lia). cbn [edits map] in *.
      destruct He as (H1 & H2 & H3 & H4). split; [lia|]. split; [lia|]. split; [lia|]. eapply same_lines_sub; [exact H4|lia..]. }
  assert (Hskip : skip_loop (length runs) runs None context r r = Ret r).
  { destruct (length runs); [done|]. cbn [skip_loop may_skip]. by rewrite andb_false_r. }
  rewrite Hskip. cbn [obind]. destruct (Z.geb_spec r (len runs)); [lia|].
  destruct (last_loop_near context mc (length runs) r 0) as (l & -> & L & Hnear); [lia|unfold len; lia|]. cbn [obind].
  destruct (run_at_ok r) as (run & -> & Er); [lia|]. cbn [obind]. unfold hunk_start.
  destruct (run_at_ok l) as (rl & El & El'); [lia|].
  assert (Hend : end_loop (length runs) old new context false runs l = Ret (let lctx := Z.min context (Z.min (xf_n old - old_end rl) (xf_n new - new_end rl)) in
    (old_end rl + lctx, new_end rl + lctx, l))).
  { destruct (length runs) eqn:E0; [unfold len in *; lia|]. cbn [end_loop]. rewrite El. cbn [obind negb]. cbn zeta.
    assert (Em : forall a b, (if (if context >? a then a else context) >? b then b else if context >? a then a else context) = Z.min context (Z.min a b)).
    { intros a b. destruct (Z.gtb_spec context a); [destruct (Z.gtb_spec a b); lia|destruct (Z.gtb_spec context b); lia]. }
    by rewrite Em. }
  rewrite Hend. cbn [obind]. cbn zeta.
  assert (Edrop : forall k, 0 <= k -> drop (Z.to_nat r) runs !! Z.to_nat k = runs !! Z.to_nat (r + k)).
  { intros k Hk. rewrite lookup_drop. f_equal. lia. }
  destruct (edits_at (Z.to_nat 0) (drop (Z.to_nat r) runs) i j run He) as (A1 & A2 & A3 & A4 & A5 & A6 & Aed); [rewrite Edrop by lia; by rewrite Z.add_0_r|].
  destruct (edits_at (Z.to_nat (l - r)) (drop (Z.to_nat r) runs) i j rl He) as (B1 & B2 & B3 & B4 & B5 & B6 & Bed).
  { rewrite Edrop by lia. by replace (r + (l - r)) with l by lia. }
  rewrite drop_drop in Bed. replace (Z.to_nat r + S (Z.to_nat (l - r)))%nat with (Z.to_nat (l + 1)) in Bed by lia.
  assert (Hord : ch_old_start run <= old_end rl /\ ch_new_start run <= new_end rl /\ 0 < old_end rl - ch_old_start run + (new_end rl - ch_new_start run)).
  { destruct (drop (Z.to_nat r) runs) as [|run0 rest] eqn:Ed; [specialize (Edrop 0 ltac:(lia)); rewrite Z.add_0_r, Er in Edrop; done|].
    assert (run0 = run) as ->. { specialize (Edrop 0 ltac:(lia)). rewrite Z.add_0_r, Er in Edrop. cbn in Edrop. by injection Edrop as ->. }
    cbn [edits] in He. destruct He as (_ & _ & _ & _ & P1 & P2 & P3 & P4 & P5 & P6).
    destruct (Z.eq_dec l r) as [->|Hne]; [rewrite Er in El'; injection El' as <-; unfold old_end, new_end in *; lia|].
    destruct (edits_at (Z.to_nat (l - r - 1)) rest (old_end run) (new_end run) rl P6) as (Q1 & Q2 & Q3 & Q4 & _).
    { transitivity ((run :: rest) !! S (Z.to_nat (l - r - 1))); [done|]. specialize (Edrop (l - r) ltac:(lia)).
      replace (S (Z.to_nat (l - r - 1))) with (Z.to_nat (l - r)) by lia. rewrite Edrop. by replace (r + (l - r)) with l by lia. }
    unfold old_end, new_end in *. lia. }
  set (lctx := Z.min context _). assert (Hlctx : 0 <= lctx <= context /\ old_end rl + lctx <= xf_n old /\ new_end rl + lctx <= xf_n new) by (unfold lctx; lia).
  destruct (counts_of runs r l) as [rm ad].
  destruct (IH (l + 1) (old_end rl) (new_end rl) lctx (kr + rm) (ka + ad)) as (hs & kr' & ka' & -> & Hed); [lia|lia|exact Bed|lia|lia|lia| |].
  { right. intros nr Enr. specialize (Hnear rl nr El' Enr). lia. }
  cbn [obind]. eexists _, _, _. split; [done|]. cbn [map edits hunk_change ch_old_start ch_old_count ch_new_start ch_new_count].
  cbn [hk_old_start hk_old_count hk_new_start hk_new_count].
  assert (Hgap : ch_old_start run - i = ch_new_start run - j /\ same_lines old new i j (ch_old_start run - i)).
  { destruct (drop (Z.to_nat r) runs) as [|run0 rest] eqn:Ed; [specialize (Edrop 0 ltac:(lia)); rewrite Z.add_0_r, Er in Edrop; done|].
    assert (run0 = run) as ->. { specialize (Edrop 0 ltac:(lia)). rewrite Z.add_0_r, Er in Edrop. cbn in Edrop. by injection Edrop as ->. }
    cbn [edits] in He. tauto. }
  destruct Hgap as [Hgap Hsame].
  assert (Hs : i + c <= Z.max (ch_old_start run - context) 0 /\ Z.max (ch_old_start run - context) 0 - (i + c) = Z.max (ch_new_start run - context) 0 - (j + c)).
  { destruct Hfar as [(-> & -> & -> & ->)|Hfar]; [lia|]. specialize (Hfar run Er). lia. }
  split; [lia|]. split; [lia|]. split; [lia|]. split; [eapply same_lines_sub; [exact Hsame|lia..]|].
  split; [lia|]. split; [lia|]. split; [lia|].
  unfold old_end, new_end in *. cbn [hunk_change ch_old_start ch_old_count ch_new_start ch_new_count hk_old_start hk_old_count hk_new_start hk_new_count].
  split; [lia|]. split; [lia|].
  replace (Z.max (ch_old_start run - context) 0 + (ch_old_start rl + ch_old_count rl + lctx - Z.max (ch_old_start run - context) 0)) with (ch_old_start rl + ch_old_count rl + lctx) by lia.
  replace (Z.max (ch_new_start run - context) 0 + (ch_new_start rl + ch_new_count rl + lctx - Z.max (ch_new_start run - context) 0)) with (ch_new_start rl + ch_new_count rl + lctx) by lia.
  exact Hed.
Qed.
End Hunks.

(* ------------------------------------------------------------------ *)
(** ** The whole comparison *)

(** A text with no NUL near its start: not a binary file. *)
Definition text_ok (text : list Z) : Prop := ~ 0 ∈ take (Z.to_nat 8000) text.

Lemma text_check text : forallb (fun c => negb (c =? 0)) text = true -> text_ok text.
Proof.
  intros Hf Hin. rewrite forallb_forall in Hf. apply elem_of_take in Hin as (i & E & _). apply list_elem_of_lookup_2, list_elem_of_In in E.
  by specialize (Hf 0 E).
Qed.

Lemma text_loaded text : text_ok text -> loaded (bgit_xdiff_load text).
Proof. intros Ht. by exists text. Qed.

Lemma same_kept_edits old new flags ca cb : flag flags BGIT_XDIFF_WS_MASK = false -> tracked (xf_n old) ca -> tracked (xf_n new) cb ->
  same_kept old new flags ca cb -> exists runs, bgit_xdiff_changes ca cb (xf_n old) (xf_n new) = Ret runs /\ edits old new 0 0 runs.
Proof.
  intros Hf Ta Tb Hk. unfold same_kept, key_files in Hk. rewrite Hf in Hk. pose proof Ta as (N1 & _). pose proof Tb as (N2 & _).
  apply (changes_loop_ok old new ca cb Ta Tb); [lia..|]. by rewrite !Z.sub_0_r.
Qed.

(** A context, and a distance between hunks, that an [int] has room for. *)
Definition context_ok (context inter_context : Z) : Prop := 2 * Z.max context 0 + Z.max inter_context 0 <= INT_MAX.

Lemma max_common_ok context inter : context_ok context inter ->
  let ctx := if context <? 0 then 0 else context in exists mc, max_common_of ctx inter = Ret mc /\ 2 * ctx <= mc.
Proof.
  intros Hc ctx. unfold context_ok in Hc. unfold max_common_of. assert (E : ctx = Z.max context 0) by (unfold ctx; destruct (Z.ltb_spec context 0); lia). rewrite E.
  destruct (Z.gtb_spec inter 0).
  - destruct (Z.gtb_spec (2 * Z.max context 0 + inter) INT_MAX); [lia|]. eexists. split; [done|lia].
  - destruct (Z.gtb_spec (2 * Z.max context 0 + 0) INT_MAX); [lia|]. eexists. split; [done|lia].
Qed.

Lemma changes_total old new ca cb : tracked (xf_n old) ca -> tracked (xf_n new) cb ->
  exists runs, bgit_xdiff_changes ca cb (xf_n old) (xf_n new) = Ret runs.
Proof.
  intros Ta Tb. unfold bgit_xdiff_changes. generalize (Z.to_nat (xf_n old + xf_n new)) as fuel. intros fuel.
  assert (H : forall i j, 0 <= i -> 0 <= j -> exists runs, changes_loop fuel ca cb (xf_n old) (xf_n new) i j = Ret runs); [|by apply H].
  induction fuel as [|fuel IH]; intros i j Hi Hj; cbn [changes_loop]; [by eexists|]. case_if; [|by eexists].
  rewrite (changed_in_ok ca), (changed_in_ok cb) by done. cbn [obind].
  assert (Hc : exists c, (if negb (get ca (i + 1) =? 0) then Ret true else Ret (negb (get cb (j + 1) =? 0))) = Ret c) by (case_if; by eexists).
  destruct Hc as (c & ->). cbn [obind]. destruct c; cbn [negb]; [|apply IH; lia].
  destruct (past_changed_ok ca (xf_n old) (Z.to_nat (xf_n old - i)) Ta i) as (i' & -> & I1 & _); [lia|lia|]. cbn [obind].
  destruct (past_changed_ok cb (xf_n new) (Z.to_nat (xf_n new - j)) Tb j) as (j' & -> & J1 & _); [lia|lia|]. cbn [obind].
  destruct (IH i' j') as (runs & ->); [lia|lia|]. by eexists.
Qed.

(** Without white space to overlook, the runs of the result are those of an
    edit; and the hunks too, when nothing is left out or added to them. *)
Lemma full_ok `{Qsort} old new context inter flags : comparable old new flags -> refs_overflow (xf_n old) (xf_n new) = false ->
  context_ok context inter ->
  flag flags BGIT_XDIFF_WS_MASK = false ->
  exists r runs, bgit_xdiff_full old new context inter flags = Ret (Some r) /\
    bgit_xdiff_changes (old_changed r) (new_changed r) (xf_n old) (xf_n new) = Ret runs /\ edits old new 0 0 runs /\
    (flag flags BGIT_XDIFF_FUNCTION_CONTEXT = false -> flag flags BGIT_XDIFF_IGNORE_BLANK_LINES = false ->
     edits old new 0 0 (map hunk_change (hunks r))).
Proof.
  intros Hcmp Hov Hco Hws. unfold bgit_xdiff_full. destruct (changed_lines_ok old new flags Hcmp Hov) as (ca & cb & -> & La & Lb & Ta & Tb & Hk & _).
  cbn [obind]. change (0 <? 0) with false. cbn iota. set (ctx := if context <? 0 then 0 else context). assert (Hctx : 0 <= ctx) by (unfold ctx; destruct (Z.ltb_spec context 0); lia).
  destruct (same_kept_edits old new flags ca cb Hws Ta Tb Hk) as (runs & Er & Hed).
  destruct ((count_changed cb (xf_n new) =? 0) && (count_changed ca (xf_n old) =? 0)) eqn:Ec.
  - eexists _, runs. split; [done|]. cbn [old_changed new_changed hunks map]. split; [done|]. split; [done|]. intros _ _.
    apply andb_true_iff in Ec as [E1 E2]. simpl_bool. unfold count_changed in E1, E2.
    assert (Hclear : forall file c n, len (filter (fun i => get c (i + 1) <> 0) (count_up 0 n)) = 0 -> kept file c (count_up 0 n) = map (line_of file) (count_up 0 n)).
    { intros file c n E. apply kept_clear. unfold clear. apply Forall_forall. intros i Hi. destruct (decide (get c (i + 1) = 0)) as [|Hne]; [done|]. exfalso.
      assert (Hin : i ∈ filter (fun i => get c (i + 1) <> 0) (count_up 0 n)) by by apply list_elem_of_filter.
      destruct (filter (fun i => get c (i + 1) <> 0) (count_up 0 n)); [by apply elem_of_nil in Hin|]. rewrite len_cons in E. pose proof (len_nonneg l). lia. }
    unfold same_kept, key_files in Hk. rewrite Hws in Hk. rewrite !Hclear in Hk by done. pose proof Ta as (N1 & _). pose proof Tb as (N2 & _).
    assert (El : xf_n old = xf_n new). { apply (f_equal len) in Hk. unfold len in Hk. rewrite !length_map in Hk. fold (len (count_up 0 (xf_n old))) (len (count_up 0 (xf_n new))) in Hk. rewrite !len_count_up in Hk by lia. done. }
    cbn [edits]. split; [lia|]. split; [lia|]. split; [lia|]. intros t Ht. rewrite !Z.add_0_l. rewrite <- El in Hk. unfold count_up in Hk. rewrite !map_map in Hk.
    apply (f_equal (fun l => l !! Z.to_nat t)) in Hk. rewrite !list_lookup_fmap, !lookup_seq_lt in Hk by lia. cbn in Hk. injection Hk as Hk. by rewrite !Z2Nat.id in Hk by lia.
  - rewrite Er. cbn [obind]. match goal with |- context [hunks_loop _ _ _ _ _ _ _ ?k _ _ _] => set (sk := k) end.
    destruct (max_common_ok context inter Hco) as (mc & Emc & Hmc). fold ctx in Emc, Hmc. rewrite Emc. cbn [obind].
    destruct (hunks_loop_ok old new runs ctx mc (flag flags BGIT_XDIFF_FUNCTION_CONTEXT) sk (S (length runs)) 0 0 0) as (hs & kr & ka & E);
      [pose proof (len_nonneg runs); lia|unfold len; lia|]. rewrite E. cbn [obind].
    match goal with |- context [match sk with Some _ => ?p | None => ?q end] => destruct (match sk with Some _ => p | None => q end) as [rm ad] end. eexists _, runs. split; [done|]. cbn [old_changed new_changed hunks]. split; [done|]. split; [done|].
    intros Hfc Hbl. unfold sk in E. rewrite Hfc, Hbl in E. cbn [andb] in E.
    destruct (hunks_edits old new runs ctx mc (S (length runs)) Hctx Hmc 0 0 0 0 0 0) as (hs' & kr' & ka' & E' & Hh);
      [pose proof (len_nonneg runs); lia|unfold len; lia|exact Hed|lia|pose proof Ta as (? & _); lia|pose proof Tb as (? & _); lia|left; lia|].
    rewrite E in E'. injection E' as <- _ _. exact Hh.
Qed.

Lemma edits_apply old new runs : edits old new 0 0 runs -> patch_runs old new runs 0 = xf_lines new /\ revert_runs old new runs 0 = xf_lines old.
Proof. intros He. split; [rewrite (patch_runs_ok _ _ _ _ _ He)|rewrite (revert_runs_ok _ _ _ _ _ He)]; apply lines_between_all. Qed.

(** [C24] (functional) Two files of lines can always be compared, whatever the
    flags, when an [int] has room for twice the context: the comparison ends, never reads or writes outside
    its arrays, and the lines it leaves unmarked in the old file read the same,
    in the same order, as those it leaves unmarked in the new one (as they are,
    or in canonical form where white space is overlooked). *)
Theorem diff_keeps_common `{Qsort} old_text new_text context inter_context flags :
  text_ok old_text -> text_ok new_text ->
  let old := bgit_xdiff_load old_text in
  let new := bgit_xdiff_load new_text in
  refs_overflow (xf_n old) (xf_n new) = false -> context_ok context inter_context ->
  exists r, bgit_xdiff_full old new context inter_context flags = Ret (Some r) /\
    len (old_changed r) = xf_n old + 2 /\ len (new_changed r) = xf_n new + 2 /\
    same_kept old new flags (old_changed r) (new_changed r).
Proof.
  intros Ho%text_loaded Hn%text_loaded old new Hov Hco. unfold bgit_xdiff_full.
  destruct (changed_lines_ok old new flags (loaded_comparable _ _ _ Ho Hn) Hov) as (ca & cb & -> & La & Lb & Ta & Tb & Hk & _). cbn [obind]. change (0 <? 0) with false. cbn iota.
  case_if; [by eexists|]. destruct (changes_total old new ca cb Ta Tb) as (runs & ->). cbn [obind]. match goal with |- context [hunks_loop _ _ _ _ _ _ _ ?k _ _ _] => set (sk := k) end.
  destruct (max_common_ok context inter_context Hco) as (mc & -> & _). cbn [obind].
  destruct (hunks_loop_ok old new runs (if context <? 0 then 0 else context) mc (flag flags BGIT_XDIFF_FUNCTION_CONTEXT) sk (S (length runs)) 0 0 0) as (hs & kr & ka & ->);
    [pose proof (len_nonneg runs); lia|unfold len; lia|]. cbn [obind].
  match goal with |- context [match sk with Some _ => ?p | None => ?q end] => destruct (match sk with Some _ => p | None => q end) as [rm ad] end. by eexists.
Qed.

Theorem diff_keeps_common_witness :
  exists r, bgit_xdiff_full (bgit_xdiff_load [97; 10; 98; 10; 99; 10]) (bgit_xdiff_load [97; 10; 32; 99; 10]) 3 0
      (Z.lor BGIT_XDIFF_INDENT_HEURISTIC BGIT_XDIFF_IGNORE_WS) = Ret (Some r) /\
    len (old_changed r) = 5 /\ len (new_changed r) = 4 /\
    same_kept (bgit_xdiff_load [97; 10; 98; 10; 99; 10]) (bgit_xdiff_load [97; 10; 32; 99; 10])
      (Z.lor BGIT_XDIFF_INDENT_HEURISTIC BGIT_XDIFF_IGNORE_WS) (old_changed r) (new_changed r).
Proof.
  apply (diff_keeps_common [97; 10; 98; 10; 99; 10] [97; 10; 32; 99; 10] 3 0); try apply text_check; vm_compute; congruence.
Defined.





(* ------------------------------------------------------------------ *)
(** ** Cases that go wrong *)

(** A newline added at the end of a file is not seen: lines are compared
    without it, and whether the last one has it is remembered and not asked. *)
Example newline_at_end_unseen :
  bgit_xdiff (bgit_xdiff_load [97]) (bgit_xdiff_load [97; 10]) 3 =
    Ret (Some {| old_changed := [0; 0; 0]; new_changed := [0; 0; 0]; hunks := []; added := 0; removed := 0 |}) /\
  xf_missing_newline (bgit_xdiff_load [97]) <> xf_missing_newline (bgit_xdiff_load [97; 10]).
Proof. vm_compute. done. Qed.

(** A file of three definitions of which the first and the last change, with no
    blank line anywhere. *)
Definition three_definitions (a b : Z) : list Z :=
  let body := fun l => concat (map (fun c => [32; c; 10]) l) in
  [102; 10] ++ body [48; 49; 50; 51; 52; 53; a] ++ [103; 10] ++ body [48; 49; 50; 51; 52; 53; 54; 55] ++ [104; 10] ++ body [48; 49; 50; 51; 52; 53; 54; b].

(** With the enclosing definitions shown, the second of the two hunks starts
    before the first one ends. *)
Example function_context_overlap :
  exists r h1 h2, bgit_xdiff_full (bgit_xdiff_load (three_definitions 97 97)) (bgit_xdiff_load (three_definitions 98 98)) 3 0
      (Z.lor BGIT_XDIFF_INDENT_HEURISTIC BGIT_XDIFF_FUNCTION_CONTEXT) = Ret (Some r) /\
    hunks r = [h1; h2] /\ hk_old_start h2 < hk_old_start h1 + hk_old_count h1.
Proof. eexists _, _, _. split; [vm_compute; reflexivity|]. cbn [hunks]. split; [reflexivity|]. reflexivity. Qed.

(** Twice a context of [2 ^ 30] lines does not fit an [int]. *)
Example context_overflows :
  bgit_xdiff (bgit_xdiff_load [97]) (bgit_xdiff_load [98]) (2 ^ 30) = Fault.
Proof. vm_compute. done. Qed.
