(* ===== verification/MergeText.v ===== *)
(** * Merging one file's three versions (merge.c)

    [bgit_merge_content] compares each side with the base (xdiff.c), splits the
    base into the stretches that one side, both or neither changed, and writes
    the merged text: what only one side changed is taken from it, what both
    changed alike is taken once, and the rest stands between conflict markers,
    refined by comparing the two sides with each other. *)

From stdpp Require Import list.
From S2P Require Import Prelude CLib XLines Sweep Myers XAlt XCompact Xdiff XHunks.

#[local] Open Scope Z_scope.

(* ------------------------------------------------------------------ *)
(** ** Text being built *)

Definition bgit_text_add (text bytes : list Z) : list Z := text ++ bytes.

(** The lines [from] to [to] of a file, each with the newline it had. *)
Fixpoint text_lines_loop (fuel : nat) (text : list Z) (file : bgit_xdiff_file) (i to : Z) : outcome (list Z) :=
  match fuel with
  | O => Ret text
  | S fuel' =>
      if (i <? to) && (i <? xf_n file) then
        let* line := line_at file i in
        let text := bgit_text_add text line in
        if (i + 1 =? xf_n file) && xf_missing_newline file then text_lines_loop fuel' text file (i + 1) to
        else text_lines_loop fuel' (bgit_text_add text [10]) file (i + 1) to
      else Ret text
  end.

Definition bgit_text_lines (text : list Z) (file : bgit_xdiff_file) (from to : Z) : outcome (list Z) :=
  text_lines_loop (Z.to_nat (to - from)) text file from to.

(* ------------------------------------------------------------------ *)
(** ** Regions *)

(** Where a line of the base sits in one side. *)
Fixpoint map_before_loop (changes : list bgit_xdiff_change) (base_line offset : Z) : Z :=
  match changes with
  | [] => offset
  | c :: changes' =>
      if ch_old_start c >=? base_line then offset
      else map_before_loop changes' base_line
             (if ch_old_start c + ch_old_count c <=? base_line then offset + (ch_new_count c - ch_old_count c) else offset)
  end.

Definition bgit_map_before (changes : list bgit_xdiff_change) (base_line : Z) : Z :=
  base_line + map_before_loop changes base_line 0.

(** How much longer one side is over its changes [from] to [to]. *)
Fixpoint over_loop (fuel : nat) (changes : list bgit_xdiff_change) (i to delta : Z) : outcome Z :=
  match fuel with
  | O => Ret delta
  | S fuel' =>
      if i <=? to then
        let* c := run_at changes i in
        over_loop fuel' changes (i + 1) to (delta + (ch_new_count c - ch_old_count c))
      else Ret delta
  end.

Definition bgit_delta_over (changes : list bgit_xdiff_change) (from to : Z) : outcome Z :=
  over_loop (Z.to_nat (to - from + 1)) changes from to 0.

Fixpoint lines_equal_loop (fuel : nat) (a : bgit_xdiff_file) (a0 : Z) (b : bgit_xdiff_file) (b0 : Z) : outcome bool :=
  match fuel with
  | O => Ret true
  | S fuel' =>
      let* la := line_at a a0 in
      let* lb := line_at b b0 in
      if negb (len la =? len lb) || negb (beq la lb) then Ret false
      else lines_equal_loop fuel' a (a0 + 1) b (b0 + 1)
  end.

Definition bgit_lines_equal (a : bgit_xdiff_file) (a0 a1 : Z) (b : bgit_xdiff_file) (b0 b1 : Z) : outcome bool :=
  if negb (a1 - a0 =? b1 - b0) then Ret false else lines_equal_loop (Z.to_nat (a1 - a0)) a a0 b b0.

Inductive region_kind := BGIT_TAKE_OURS | BGIT_TAKE_THEIRS | BGIT_TAKE_EITHER | BGIT_CONFLICT.

#[export] Instance region_kind_eq_dec : EqDecision region_kind.
Proof. solve_decision. Defined.

Record bgit_region := {
  base_start : Z; base_end : Z;
  our_start : Z; our_end : Z;
  their_start : Z; their_end : Z;
  kind : region_kind }.

(** Part of one side; the pointers are those of the file, moved on. *)
Definition bgit_view (file : bgit_xdiff_file) (from to : Z) : outcome bgit_xdiff_file :=
  if (0 <=? from) && (from <=? to) && (to <=? xf_n file) then
    let part {A} (l : list A) := take (Z.to_nat (to - from)) (drop (Z.to_nat from) l) in
    Ret {| xf_text := []; xf_starts := part (xf_starts file); xf_lines := part (xf_lines file); xf_hashes := part (xf_hashes file);
           xf_missing_newline := if to =? xf_n file then xf_missing_newline file else false; xf_binary := false |}
  else Fault.

(** Conflicts with three or fewer settled lines between them become one:
    [kept] is the last region kept so far. *)
Fixpoint simplify_loop (kept : bgit_region) (regions : list bgit_region) : list bgit_region :=
  match regions with
  | [] => [kept]
  | r :: regions' =>
      if bool_decide (kind kept = BGIT_CONFLICT) && bool_decide (kind r = BGIT_CONFLICT) && (base_start r - base_end kept <=? 3) then
        simplify_loop {| base_start := base_start kept; base_end := base_end r; our_start := our_start kept; our_end := our_end r;
                         their_start := their_start kept; their_end := their_end r; kind := kind kept |} regions'
      else kept :: simplify_loop r regions'
  end.

Definition bgit_simplify_conflicts (regions : list bgit_region) : list bgit_region :=
  match regions with [] => [] | r :: regions' => simplify_loop r regions' end.

(* ------------------------------------------------------------------ *)
(** ** Conflicts *)

(** Disputes with three or fewer agreed lines between them stay as one. *)
Fixpoint join_loop (kept : bgit_xdiff_change) (changes : list bgit_xdiff_change) : list bgit_xdiff_change :=
  match changes with
  | [] => [kept]
  | c :: changes' =>
      if ch_old_start c - (ch_old_start kept + ch_old_count kept) <=? 3 then
        join_loop {| ch_old_start := ch_old_start kept; ch_old_count := ch_old_start c + ch_old_count c - ch_old_start kept;
                     ch_new_start := ch_new_start kept; ch_new_count := ch_new_start c + ch_new_count c - ch_new_start kept |} changes'
      else kept :: join_loop c changes'
  end.

Definition join_changes (changes : list bgit_xdiff_change) : list bgit_xdiff_change :=
  match changes with [] => [] | c :: changes' => join_loop c changes' end.

(** One dispute between its markers. *)
Definition write_markers (text : list Z) (ours : bgit_xdiff_file) (our_from our_to : Z) (theirs : bgit_xdiff_file) (their_from their_to : Z)
    (our_label their_label : list Z) : outcome (list Z) :=
  let text := bgit_text_add (bgit_text_add (bgit_text_add text (str "<<<<<<< ")) our_label) [10] in
  let* text := bgit_text_lines text ours our_from our_to in
  let text := bgit_text_add text (str "=======" ++ [10]) in
  let* text := bgit_text_lines text theirs their_from their_to in
  Ret (bgit_text_add (bgit_text_add (bgit_text_add text (str ">>>>>>> ")) their_label) [10]).

(** The disputes, and what is agreed on before, between and after them. *)
Fixpoint disputes_loop (changes : list bgit_xdiff_change) (text : list Z) (conflicts : Z) (ours theirs : bgit_xdiff_file)
    (our_label their_label : list Z) (at_ : Z) : outcome (list Z * Z) :=
  match changes with
  | [] =>
      let* text := bgit_text_lines text ours at_ (xf_n ours) in
      Ret (text, conflicts)
  | c :: changes' =>
      let* text := bgit_text_lines text ours at_ (ch_old_start c) in
      let* text := write_markers text ours (ch_old_start c) (ch_old_start c + ch_old_count c)
                     theirs (ch_new_start c) (ch_new_start c + ch_new_count c) our_label their_label in
      disputes_loop changes' text (conflicts + 1) ours theirs our_label their_label (ch_old_start c + ch_old_count c)
  end.

Definition bgit_write_conflict `{Qsort} (text : list Z) (our_file their_file : bgit_xdiff_file) (region : bgit_region)
    (our_label their_label : list Z) (conflicts : Z) : outcome (list Z * Z) :=
  let* ours := bgit_view our_file (our_start region) (our_end region) in
  let* theirs := bgit_view their_file (their_start region) (their_end region) in
  let* changes :=
    if negb (xf_n ours =? 0) && negb (xf_n theirs =? 0) then
      let* refined := bgit_xdiff_opts ours theirs 0 BGIT_XDIFF_INDENT_HEURISTIC in
      match refined with
      | Some r => bgit_xdiff_changes (old_changed r) (new_changed r) (xf_n ours) (xf_n theirs)
      | None => Ret []
      end
    else Ret [] in
  if len changes =? 0 then
    let* text := write_markers text our_file (our_start region) (our_end region) their_file (their_start region) (their_end region)
                   our_label their_label in
    Ret (text, conflicts + 1)
  else disputes_loop (join_changes changes) text conflicts ours theirs our_label their_label 0.

(* ------------------------------------------------------------------ *)
(** ** The merge *)

(** Take in every change that reaches into the stretch from either side. *)
Fixpoint absorb_loop (fuel : nat) (ours theirs : list bgit_xdiff_change) (a b : Z) : outcome (Z * Z) :=
  match fuel with
  | O => Fault
  | S fuel' =>
      let* ca := run_at ours a in
      let* cb := run_at theirs b in
      let end_a := ch_old_start ca + ch_old_count ca in
      let end_b := ch_old_start cb + ch_old_count cb in
      let* more_a := if a + 1 <? len ours then let* c := run_at ours (a + 1) in Ret (ch_old_start c <=? end_b) else Ret false in
      if more_a : bool then absorb_loop fuel' ours theirs (a + 1) b
      else
        let* more_b := if b + 1 <? len theirs then let* c := run_at theirs (b + 1) in Ret (ch_old_start c <=? end_a) else Ret false in
        if more_b : bool then absorb_loop fuel' ours theirs a (b + 1) else Ret (a, b)
  end.

(** Is the next change ours, clear of the other side? *)
Definition only_ours (ours theirs : list bgit_xdiff_change) (a b : Z) : outcome bool :=
  if b =? len theirs then Ret true
  else if a <? len ours then
    let* ca := run_at ours a in
    let* cb := run_at theirs b in
    Ret (ch_old_start ca + ch_old_count ca <? ch_old_start cb)
  else Ret false.

Definition only_theirs (ours theirs : list bgit_xdiff_change) (a b : Z) : outcome bool :=
  if a =? len ours then Ret true
  else
    let* ca := run_at ours a in
    let* cb := run_at theirs b in
    Ret (ch_old_start cb + ch_old_count cb <? ch_old_start ca).

(** The stretch that our changes from [first_a] to [a] and theirs from
    [first_b] to [b] touched. *)
Definition both_region (our_file their_file : bgit_xdiff_file) (ours theirs : list bgit_xdiff_change) (first_a first_b a b : Z)
    : outcome bgit_region :=
  let* fa := run_at ours first_a in
  let* fb := run_at theirs first_b in
  let start := if ch_old_start fa <? ch_old_start fb then ch_old_start fa else ch_old_start fb in
  let* ca := run_at ours a in
  let* cb := run_at theirs b in
  let end_a := ch_old_start ca + ch_old_count ca in
  let end_b := ch_old_start cb + ch_old_count cb in
  let end_ := if end_a >? end_b then end_a else end_b in
  let our_start := bgit_map_before ours start in
  let their_start := bgit_map_before theirs start in
  let* our_delta := bgit_delta_over ours first_a a in
  let our_end := our_start + (end_ - start) + our_delta in
  let* their_delta := bgit_delta_over theirs first_b b in
  let their_end := their_start + (end_ - start) + their_delta in
  let* same := bgit_lines_equal our_file our_start our_end their_file their_start their_end in
  Ret {| base_start := start; base_end := end_; our_start := our_start; our_end := our_end;
         their_start := their_start; their_end := their_end;
         kind := if same : bool then BGIT_TAKE_EITHER else BGIT_CONFLICT |}.

(** [regions[n_regions]]; there is room for as many regions as there are
    changes, and one more. *)
Fixpoint regions_loop (room : nat) (our_file their_file : bgit_xdiff_file) (ours theirs : list bgit_xdiff_change) (a b : Z)
    : outcome (list bgit_region) :=
  match room with
  | O => Fault
  | S room' =>
      if (a <? len ours) || (b <? len theirs) then
        let* ours_only := only_ours ours theirs a b in
        if ours_only : bool then
          let* ca := run_at ours a in
          let* rest := regions_loop room' our_file their_file ours theirs (a + 1) b in
          Ret ({| base_start := ch_old_start ca; base_end := ch_old_start ca + ch_old_count ca;
                  our_start := ch_new_start ca; our_end := ch_new_start ca + ch_new_count ca;
                  their_start := 0; their_end := 0; kind := BGIT_TAKE_OURS |} :: rest)
        else
          let* theirs_only := only_theirs ours theirs a b in
          if theirs_only : bool then
            let* cb := run_at theirs b in
            let* rest := regions_loop room' our_file their_file ours theirs a (b + 1) in
            Ret ({| base_start := ch_old_start cb; base_end := ch_old_start cb + ch_old_count cb;
                    our_start := 0; our_end := 0;
                    their_start := ch_new_start cb; their_end := ch_new_start cb + ch_new_count cb; kind := BGIT_TAKE_THEIRS |} :: rest)
          else
            let first_a := a in
            let first_b := b in
            let* ab := absorb_loop (S (length ours + length theirs)) ours theirs a b in
            let '(a, b) := ab in
            let* region := both_region our_file their_file ours theirs first_a first_b a b in
            let* rest := regions_loop room' our_file their_file ours theirs (a + 1) (b + 1) in
            Ret (region :: rest)
      else Ret []
  end.

Fixpoint written_loop `{Qsort} (regions : list bgit_region) (text : list Z) (conflicts : Z) (base ours theirs : bgit_xdiff_file)
    (our_label their_label : list Z) (at_ : Z) : outcome (list Z * Z) :=
  match regions with
  | [] =>
      let* text := bgit_text_lines text base at_ (xf_n base) in
      Ret (text, conflicts)
  | r :: regions' =>
      let* text := bgit_text_lines text base at_ (base_start r) in
      let* w :=
        match kind r with
        | BGIT_TAKE_OURS | BGIT_TAKE_EITHER =>
            let* text := bgit_text_lines text ours (our_start r) (our_end r) in Ret (text, conflicts)
        | BGIT_TAKE_THEIRS =>
            let* text := bgit_text_lines text theirs (their_start r) (their_end r) in Ret (text, conflicts)
        | BGIT_CONFLICT => bgit_write_conflict text ours theirs r our_label their_label conflicts
        end in
      let '(text, conflicts) := w in
      written_loop regions' text conflicts base ours theirs our_label their_label (base_end r)
  end.

(** The merged text and how many conflicts are left in it; [None] when there
    was not memory enough. *)
Definition bgit_merge_content `{Qsort} (base ours theirs our_label their_label : list Z) : outcome (option (list Z * Z)) :=
  let base_file := bgit_xdiff_load base in
  let our_file := bgit_xdiff_load ours in
  let their_file := bgit_xdiff_load theirs in
  let* ours_diff := bgit_xdiff_opts base_file our_file 0 BGIT_XDIFF_INDENT_HEURISTIC in
  let* theirs_diff := bgit_xdiff_opts base_file their_file 0 BGIT_XDIFF_INDENT_HEURISTIC in
  match ours_diff, theirs_diff with
  | Some od, Some td =>
      let* ours_changes := bgit_xdiff_changes (old_changed od) (new_changed od) (xf_n base_file) (xf_n our_file) in
      let* theirs_changes := bgit_xdiff_changes (old_changed td) (new_changed td) (xf_n base_file) (xf_n their_file) in
      let* regions := regions_loop (S (length ours_changes + length theirs_changes)) our_file their_file ours_changes theirs_changes 0 0 in
      let* w := written_loop (bgit_simplify_conflicts regions) [] 0 base_file our_file their_file our_label their_label 0 in
      Ret (Some w)
  | _, _ => Ret None
  end.

(* ------------------------------------------------------------------ *)
(** ** What is written *)

(** Lines as a text, each with its newline. *)
Definition lines_text (lines : list (list Z)) : list Z := concat (map (fun l => l ++ [10]) lines).

Lemma lines_text_app a b : lines_text (a ++ b) = lines_text a ++ lines_text b.
Proof. unfold lines_text. by rewrite map_app, concat_app. Qed.

Lemma lines_between_none file i e : e <= i -> lines_between file i e = [].
Proof. intros He. unfold lines_between. by replace (Z.to_nat (e - i)) with 0%nat by lia. Qed.

Lemma lines_between_past file i e : xf_n file <= i -> lines_between file i e = [].
Proof. intros Hi. unfold lines_between. rewrite drop_ge; [apply take_nil|]. unfold xf_n, len in *. lia. Qed.

Lemma lines_between_cons file i e : 0 <= i < xf_n file -> i < e -> lines_between file i e = line_of file i :: lines_between file (i + 1) e.
Proof.
  intros Hi He. unfold lines_between, line_of. assert (Hl : (Z.to_nat i < length (xf_lines file))%nat) by (unfold xf_n, len in *; lia).
  destruct (lookup_lt_is_Some_2 (xf_lines file) _ Hl) as [l El]. rewrite (nth_lookup_Some _ _ [] _ El).
  rewrite (drop_S _ l _ El). replace (Z.to_nat (e - i)) with (S (Z.to_nat (e - (i + 1)))) by lia. cbn [firstn]. do 3 f_equal. lia.
Qed.

Lemma len_lines_between file i e : 0 <= i <= e -> e <= xf_n file -> len (lines_between file i e) = e - i.
Proof. intros Hi He. unfold lines_between. rewrite len_take, len_drop. unfold xf_n in *. lia. Qed.

Lemma text_lines_loop_ok file to fuel : xf_missing_newline file = false -> forall text i, 0 <= i -> to - i <= Z.of_nat fuel ->
  text_lines_loop fuel text file i to = Ret (text ++ lines_text (lines_between file i to)).
Proof.
  intros Hm. induction fuel as [|fuel IH]; intros text i Hi Hf; cbn [text_lines_loop].
  { rewrite lines_between_none by lia. by rewrite app_nil_r. }
  destruct (Z.ltb_spec i to); [|rewrite lines_between_none by lia; by rewrite app_nil_r].
  destruct (Z.ltb_spec i (xf_n file)); [|rewrite lines_between_past by lia; by rewrite app_nil_r]. cbn [andb].
  rewrite line_at_ok by lia. cbn [obind]. rewrite Hm, andb_false_r, IH by lia. rewrite (lines_between_cons file i to) by lia.
  unfold bgit_text_add. change (lines_text (?x :: ?r)) with ((x ++ [10]) ++ lines_text r). by rewrite <- !app_assoc.
Qed.

Lemma text_lines_ok text file from to : xf_missing_newline file = false -> 0 <= from ->
  bgit_text_lines text file from to = Ret (text ++ lines_text (lines_between file from to)).
Proof. intros Hm Hf. unfold bgit_text_lines. apply text_lines_loop_ok; [done|lia|lia]. Qed.

(** A stretch of the result: settled lines, or what the two sides say. *)
Inductive piece := Settled (lines : list (list Z)) | Dispute (our_lines their_lines : list (list Z)).

Definition our_side (ps : list piece) : list (list Z) := concat (map (fun p => match p with Settled l => l | Dispute o _ => o end) ps).
Definition their_side (ps : list piece) : list (list Z) := concat (map (fun p => match p with Settled l => l | Dispute _ t => t end) ps).
Fixpoint disputes (ps : list piece) : Z :=
  match ps with
  | [] => 0
  | Settled _ :: ps' => disputes ps'
  | Dispute _ _ :: ps' => 1 + disputes ps'
  end.

Definition piece_text (our_label their_label : list Z) (p : piece) : list Z :=
  match p with
  | Settled l => lines_text l
  | Dispute o t =>
      str "<<<<<<< " ++ our_label ++ [10] ++ lines_text o ++ str "=======" ++ [10] ++ lines_text t ++ str ">>>>>>> " ++ their_label ++ [10]
  end.

Definition pieces_text (our_label their_label : list Z) (ps : list piece) : list Z := concat (map (piece_text our_label their_label) ps).

Lemma pieces_text_app ol tl a b : pieces_text ol tl (a ++ b) = pieces_text ol tl a ++ pieces_text ol tl b.
Proof. unfold pieces_text. by rewrite map_app, concat_app. Qed.

Lemma disputes_app a b : disputes (a ++ b) = disputes a + disputes b.
Proof. induction a as [|[l|o t] a IH]; cbn [app disputes]; lia. Qed.

Lemma write_markers_ok text ours of_ ot theirs tf tt ol tl : xf_missing_newline ours = false -> xf_missing_newline theirs = false -> 0 <= of_ -> 0 <= tf ->
  write_markers text ours of_ ot theirs tf tt ol tl =
    Ret (text ++ piece_text ol tl (Dispute (lines_between ours of_ ot) (lines_between theirs tf tt))).
Proof.
  intros Ho Ht Hof Htf. unfold write_markers, bgit_text_add. rewrite !text_lines_ok by done. cbn [obind].
  rewrite text_lines_ok by done. cbn [obind piece_text]. by rewrite <- !app_assoc.
Qed.

(* ------------------------------------------------------------------ *)
(** ** A refined conflict *)

Lemma view_ok file from to : wf_file file -> xf_missing_newline file = false -> 0 <= from <= to -> to <= xf_n file ->
  exists v, bgit_view file from to = Ret v /\ wf_file v /\ xf_lines v = lines_between file from to /\ xf_missing_newline v = false.
Proof.
  intros [Hh Hs] Hm Hf Ht. unfold bgit_view. if_true. eexists. split; [done|]. split; [|split; [done|]].
  - split; cbn; [by rewrite Hh, skipn_map, firstn_map|]. unfold len in *. rewrite !length_take, !length_drop. lia.
  - cbn. by destruct (to =? xf_n file).
Qed.

Section Disputes.
Context (ours theirs : bgit_xdiff_file) (ol tl : list Z).
Hypothesis ours_ends : xf_missing_newline ours = false.
Hypothesis theirs_ends : xf_missing_newline theirs = false.

(** Runs joined are still an edit. *)
Lemma join_edits changes : forall i j kept, edits ours theirs i j (kept :: changes) -> edits ours theirs i j (join_loop kept changes).
Proof.
  induction changes as [|c changes IH]; intros i j kept He; [done|]. cbn [join_loop]. case_if.
  - apply IH. cbn [edits] in He |- *. unfold old_end, new_end in *. cbn [ch_old_start ch_old_count ch_new_start ch_new_count].
    destruct He as (H1 & H2 & H3 & H4 & H5 & H6 & H7 & H8 & H9 & G1 & G2 & G3 & G4 & G5 & G6 & G7 & G8 & G9 & He).
    replace (ch_old_start kept + (ch_old_start c + ch_old_count c - ch_old_start kept)) with (ch_old_start c + ch_old_count c) by lia.
    replace (ch_new_start kept + (ch_new_start c + ch_new_count c - ch_new_start kept)) with (ch_new_start c + ch_new_count c) by lia.
    split_and!; done || lia.
  - cbn [edits] in He |- *. destruct He as (H1 & H2 & H3 & H4 & H5 & H6 & H7 & H8 & H9 & He). split_and!; try done; try lia. by apply IH.
Qed.

Lemma disputes_loop_ok changes : forall text conflicts i j, edits ours theirs i j changes ->
  exists ps, disputes_loop changes text conflicts ours theirs ol tl i = Ret (text ++ pieces_text ol tl ps, conflicts + disputes ps) /\
    our_side ps = lines_between ours i (xf_n ours) /\ their_side ps = lines_between theirs j (xf_n theirs).
Proof.
  induction changes as [|c changes IH]; intros text conflicts i j He; cbn [disputes_loop edits] in *.
  - destruct He as (H1 & H2 & H3 & H4). rewrite text_lines_ok by (done || lia). cbn [obind]. exists [Settled (lines_between ours i (xf_n ours))].
    cbn. unfold pieces_text, our_side, their_side. cbn. rewrite !app_nil_r, Z.add_0_r. split_and!; try done.
    replace (xf_n ours) with (i + (xf_n ours - i)) by lia. replace (xf_n theirs) with (j + (xf_n ours - i)) by lia.
    replace (i + (xf_n ours - i)) with (i + (xf_n ours - i)) by lia. apply same_lines_between; done || lia.
  - destruct He as (H1 & H2 & H3 & H4 & H5 & H6 & H7 & H8 & H9 & He). rewrite text_lines_ok by (done || lia). cbn [obind].
    rewrite write_markers_ok by (done || lia). cbn [obind]. fold (old_end c) (new_end c).
    destruct (IH ((text ++ lines_text (lines_between ours i (ch_old_start c))) ++
        piece_text ol tl (Dispute (lines_between ours (ch_old_start c) (old_end c)) (lines_between theirs (ch_new_start c) (new_end c))))
        (conflicts + 1) (old_end c) (new_end c) He) as (ps & E & Ho & Ht).
    exists (Settled (lines_between ours i (ch_old_start c)) ::
        Dispute (lines_between ours (ch_old_start c) (old_end c)) (lines_between theirs (ch_new_start c) (new_end c)) :: ps).
    rewrite E. unfold old_end, new_end in *. split; [|split].
    + cbn [disputes]. unfold pieces_text. cbn [map concat piece_text]. rewrite <- !app_assoc. do 2 f_equal. lia.
    + unfold our_side in *. cbn [map concat]. rewrite Ho.
      rewrite (lines_between_split ours i (ch_old_start c) (xf_n ours)) by lia.
      by rewrite (lines_between_split ours (ch_old_start c) (ch_old_start c + ch_old_count c) (xf_n ours)) by lia.
    + unfold their_side in *. cbn [map concat]. rewrite Ht. rewrite (lines_between_split theirs j (ch_new_start c) (xf_n theirs)) by lia.
      rewrite (lines_between_split theirs (ch_new_start c) (ch_new_start c + ch_new_count c) (xf_n theirs)) by lia. f_equal.
      replace (ch_old_start c) with (i + (ch_old_start c - i)) by lia. replace (ch_new_start c) with (j + (ch_old_start c - i)) by lia.
      apply same_lines_between; done || lia.
Qed.
End Disputes.

(** The runs of the comparison of two files. *)
Definition compared `{Qsort} (old new : bgit_xdiff_file) (runs : list bgit_xdiff_change) : Prop :=
  exists r, bgit_xdiff_opts old new 0 BGIT_XDIFF_INDENT_HEURISTIC = Ret (Some r) /\
    bgit_xdiff_changes (old_changed r) (new_changed r) (xf_n old) (xf_n new) = Ret runs.

Lemma opts_runs `{Qsort} old new : wf_file old -> wf_file new -> refs_overflow (xf_n old) (xf_n new) = false ->
  exists r runs, bgit_xdiff_opts old new 0 BGIT_XDIFF_INDENT_HEURISTIC = Ret (Some r) /\
    bgit_xdiff_changes (old_changed r) (new_changed r) (xf_n old) (xf_n new) = Ret runs /\ edits old new 0 0 runs /\ apart runs.
Proof.
  intros Ho Hn Hov. destruct (full_ok old new 0 0 BGIT_XDIFF_INDENT_HEURISTIC) as (r & runs & E1 & E2 & He & _); try done.
  - split; [done|]. split; [done|]. right. by split; vm_compute.
  - exists r, runs. split_and!; try done. by apply changes_apart in E2.
Qed.

Lemma write_conflict_ok `{Qsort} text our_file their_file r ol tl conflicts :
  wf_file our_file -> wf_file their_file -> xf_missing_newline our_file = false -> xf_missing_newline their_file = false ->
  refs_overflow (xf_n our_file) (xf_n their_file) = false ->
  0 <= our_start r <= our_end r -> our_end r <= xf_n our_file -> 0 <= their_start r <= their_end r -> their_end r <= xf_n their_file ->
  exists ps, bgit_write_conflict text our_file their_file r ol tl conflicts = Ret (text ++ pieces_text ol tl ps, conflicts + disputes ps) /\
    our_side ps = lines_between our_file (our_start r) (our_end r) /\ their_side ps = lines_between their_file (their_start r) (their_end r).
Proof.
  intros Wo Wt Mo Mt Hov Ho1 Ho2 Ht1 Ht2. unfold bgit_write_conflict.
  destruct (view_ok our_file (our_start r) (our_end r)) as (vo & -> & Wvo & Lvo & Mvo); try done. cbn [obind].
  destruct (view_ok their_file (their_start r) (their_end r)) as (vt & -> & Wvt & Lvt & Mvt); try done. cbn [obind].
  assert (No : xf_n vo = our_end r - our_start r) by (unfold xf_n; rewrite Lvo; apply len_lines_between; lia).
  assert (Nt : xf_n vt = their_end r - their_start r) by (unfold xf_n; rewrite Lvt; apply len_lines_between; lia).
  assert (Hch : exists changes, (if negb (xf_n vo =? 0) && negb (xf_n vt =? 0) then
      let* refined := bgit_xdiff_opts vo vt 0 BGIT_XDIFF_INDENT_HEURISTIC in
      match refined with
      | Some r => bgit_xdiff_changes (old_changed r) (new_changed r) (xf_n vo) (xf_n vt)
      | None => Ret []
      end else Ret []) = Ret changes /\ (changes <> [] -> edits vo vt 0 0 changes)).
  { case_if; [|by exists []]. destruct (opts_runs vo vt Wvo Wvt) as (d & runs & -> & E & He & _).
    - eapply refs_overflow_mono; [..|exact Hov]; lia.
    - cbn [obind]. by exists runs. }
  destruct Hch as (changes & -> & He). cbn [obind]. case_if.
  - rewrite write_markers_ok by (done || lia). cbn [obind]. exists [Dispute (lines_between our_file (our_start r) (our_end r)) (lines_between their_file (their_start r) (their_end r))].
    unfold pieces_text, our_side, their_side. cbn [map concat disputes]. rewrite !app_nil_r. split_and!; done.
  - destruct changes as [|c changes]; [done|]. specialize (He ltac:(done)). cbn [join_changes].
    destruct (disputes_loop_ok vo vt ol tl Mvo Mvt (join_loop c changes) text conflicts 0 0) as (ps & E & H1 & H2); [by apply join_edits|].
    exists ps. split; [exact E|]. by rewrite H1, H2, !lines_between_all.
Qed.

(* ------------------------------------------------------------------ *)
(** ** What a merge is *)

Section Merged.
Context (base ours theirs : bgit_xdiff_file) (ra rb : list bgit_xdiff_change).

(** Changes of both sides meet between the lines [i] and [e] of the base. *)
Definition touched (i e : Z) : Prop :=
  exists a b, a ∈ ra /\ b ∈ rb /\ i <= ch_old_start a /\ old_end a <= e /\ i <= ch_old_start b /\ old_end b <= e /\
    ch_old_start a <= old_end b /\ ch_old_start b <= old_end a.

(** None of the changes meets [c]. *)
Definition clear_of (runs : list bgit_xdiff_change) (c : bgit_xdiff_change) : Prop :=
  Forall (fun d => old_end d < ch_old_start c \/ old_end c < ch_old_start d) runs.

(** The pieces merge the base from line [i] on with our side from [p] and
    theirs from [q]: what no side changed is kept, what one side changed clear
    of the other is taken from it, what both changed alike is taken once, and
    only where changes of both sides meet is anything left in dispute, each
    side with all of its lines. *)
Inductive merged : Z -> Z -> Z -> list piece -> Prop :=
| merged_end : merged (xf_n base) (xf_n ours) (xf_n theirs) []
| merged_same i p q n ps : 0 <= n ->
    lines_between ours p (p + n) = lines_between base i (i + n) -> lines_between theirs q (q + n) = lines_between base i (i + n) ->
    merged (i + n) (p + n) (q + n) ps -> merged i p q (Settled (lines_between base i (i + n)) :: ps)
| merged_ours q c ps : c ∈ ra -> clear_of rb c ->
    lines_between theirs q (q + ch_old_count c) = lines_between base (ch_old_start c) (old_end c) ->
    merged (old_end c) (new_end c) (q + ch_old_count c) ps ->
    merged (ch_old_start c) (ch_new_start c) q (Settled (lines_between ours (ch_new_start c) (new_end c)) :: ps)
| merged_theirs p c ps : c ∈ rb -> clear_of ra c ->
    lines_between ours p (p + ch_old_count c) = lines_between base (ch_old_start c) (old_end c) ->
    merged (old_end c) (p + ch_old_count c) (new_end c) ps ->
    merged (ch_old_start c) p (ch_new_start c) (Settled (lines_between theirs (ch_new_start c) (new_end c)) :: ps)
| merged_both i p q i' p' q' ps : i <= i' -> p <= p' -> q <= q' -> touched i i' ->
    lines_between ours p p' = lines_between theirs q q' -> merged i' p' q' ps ->
    merged i p q (Settled (lines_between ours p p') :: ps)
| merged_conflict i p q i' p' q' qs ps : i <= i' -> p <= p' -> q <= q' -> touched i i' ->
    our_side qs = lines_between ours p p' -> their_side qs = lines_between theirs q q' -> merged i' p' q' ps ->
    merged i p q (qs ++ ps).

(** The same of the regions the merge works with. *)
Definition agreed (i p q n : Z) : Prop :=
  0 <= i /\ 0 <= p /\ 0 <= q /\ 0 <= n /\ i + n <= xf_n base /\ p + n <= xf_n ours /\ q + n <= xf_n theirs /\
  same_lines base ours i p n /\ same_lines base theirs i q n.

Definition both_sides (p q : Z) (r : bgit_region) (p' q' : Z) : Prop :=
  touched (base_start r) (base_end r) /\ base_start r <= base_end r /\ our_start r = p /\ our_end r = p' /\ their_start r = q /\ their_end r = q' /\
  p <= p' /\ p' <= xf_n ours /\ q <= q' /\ q' <= xf_n theirs.

Definition fits (p q : Z) (r : bgit_region) (p' q' : Z) : Prop :=
  match kind r with
  | BGIT_TAKE_OURS => exists c, c ∈ ra /\ clear_of rb c /\ base_start r = ch_old_start c /\ base_end r = old_end c /\
      our_start r = ch_new_start c /\ our_end r = new_end c /\ p = ch_new_start c /\ p' = new_end c /\ q' = q + ch_old_count c /\
      0 <= ch_old_count c /\ old_end c <= xf_n base /\ q' <= xf_n theirs /\ same_lines base theirs (ch_old_start c) q (ch_old_count c)
  | BGIT_TAKE_THEIRS => exists c, c ∈ rb /\ clear_of ra c /\ base_start r = ch_old_start c /\ base_end r = old_end c /\
      their_start r = ch_new_start c /\ their_end r = new_end c /\ q = ch_new_start c /\ q' = new_end c /\ p' = p + ch_old_count c /\
      0 <= ch_old_count c /\ old_end c <= xf_n base /\ p' <= xf_n ours /\ same_lines base ours (ch_old_start c) p (ch_old_count c)
  | BGIT_TAKE_EITHER => both_sides p q r p' q' /\ lines_between ours p p' = lines_between theirs q q'
  | BGIT_CONFLICT => both_sides p q r p' q'
  end.

Inductive laid : Z -> Z -> Z -> list bgit_region -> Prop :=
| laid_end i p q : agreed i p q (xf_n base - i) -> xf_n base - i = xf_n ours - p -> xf_n base - i = xf_n theirs - q -> laid i p q []
| laid_region i p q n r p' q' rs : agreed i p q n -> base_start r = i + n -> fits (p + n) (q + n) r p' q' ->
    laid (base_end r) p' q' rs -> laid i p q (r :: rs).

Lemma touched_mono i e i' e' : i' <= i -> e <= e' -> touched i e -> touched i' e'.
Proof. intros Hi He (a & b & Ha & Hb & H). exists a, b. split; [done|]. split; [done|]. lia. Qed.

Lemma simplify_laid rs : forall i p q kept, laid i p q (kept :: rs) -> laid i p q (simplify_loop kept rs).
Proof.
  induction rs as [|r rs IH]; intros i p q kept Hl; [done|]. cbn [simplify_loop].
  inversion Hl as [|? ? ? n ? p1 q1 ? Ha Hs Hf Hr]; subst. inversion Hr as [|? ? ? m ? p2 q2 ? Ha2 Hs2 Hf2 Hr2]; subst. case_if.
  - match goal with H : kind kept = _ |- _ => rename H into K1 end. match goal with H : kind r = _ |- _ => rename H into K2 end.
    apply IH. unfold fits in Hf, Hf2. rewrite K1 in Hf. rewrite K2 in Hf2.
    destruct Hf as (F1 & F2 & F3 & F4 & F5 & F6 & F7 & F8 & F9 & F10). destruct Hf2 as (G1 & G2 & G3 & G4 & G5 & G6 & G7 & G8 & G9 & G10).
    destruct Ha2 as (A1 & A2 & A3 & A4 & A5 & A6 & A7 & _).
    apply (laid_region _ _ _ n _ p2 q2); [done|done| |done]. unfold fits. cbn [kind]. rewrite K1. unfold both_sides.
    cbn [base_start base_end our_start our_end their_start their_end]. split_and!; try lia. eapply touched_mono; [..|exact F1]; lia.
  - apply (laid_region _ _ _ n _ p1 q1); try done. by apply IH.
Qed.

Lemma simplify_conflicts_laid i p q rs : laid i p q rs -> laid i p q (bgit_simplify_conflicts rs).
Proof. destruct rs as [|r rs]; [done|]. apply simplify_laid. Qed.
End Merged.

(* ------------------------------------------------------------------ *)
(** ** Where a line of the base is on one side *)

(** How much longer a side is over some changes. *)
Fixpoint shift (runs : list bgit_xdiff_change) : Z :=
  match runs with [] => 0 | c :: runs' => ch_new_count c - ch_old_count c + shift runs' end.

Lemma shift_app a b : shift (a ++ b) = shift a + shift b.
Proof. induction a as [|c a IH]; cbn [app shift]; lia. Qed.

(** The first [k] runs end at line [i] or above, and the others start there or
    below. *)
Definition before (i : Z) (c : bgit_xdiff_change) : Prop := old_end c <= i.
Definition after (i : Z) (c : bgit_xdiff_change) : Prop := i <= ch_old_start c.
Definition around (runs : list bgit_xdiff_change) (k : nat) (i : Z) : Prop :=
  Forall (before i) (take k runs) /\ Forall (after i) (drop k runs).

Section Side.
Context (old new : bgit_xdiff_file).

Lemma edits_bounds i j runs : edits old new i j runs -> 0 <= i <= xf_n old /\ 0 <= j <= xf_n new.
Proof. destruct runs as [|r runs]; cbn [edits]; unfold old_end, new_end; intros; destruct_and?; lia. Qed.

(** No change before line [e]: the lines up to it are the same. *)
Lemma edits_gap i j e runs : edits old new i j runs -> i <= e <= xf_n old -> Forall (after e) runs ->
  same_lines old new i j (e - i) /\ j + (e - i) <= xf_n new /\ edits old new e (j + (e - i)) runs.
Proof.
  intros He Hi Ha. assert (Hsub : forall n, same_lines old new i j n -> e - i <= n ->
    same_lines old new i j (e - i) /\ same_lines old new e (j + (e - i)) (n - (e - i))).
  { intros n Hs Hn. split; intros t Ht; [apply Hs; lia|]. specialize (Hs (e - i + t) ltac:(lia)).
    replace (e + t) with (i + (e - i + t)) by lia. by replace (j + (e - i) + t) with (j + (e - i + t)) by lia. }
  destruct runs as [|r runs]; cbn [edits] in *.
  - destruct He as (H1 & H2 & H3 & H4). destruct (Hsub _ H4 ltac:(lia)) as [S1 S2]. split; [done|]. split; [lia|]. split_and!; try lia.
    by replace (xf_n old - e) with (xf_n old - i - (e - i)) by lia.
  - destruct He as (H1 & H2 & H3 & H4 & H5 & H6 & H7 & H8 & H9 & He). apply Forall_cons in Ha as [Ha _]. unfold after in Ha. unfold old_end, new_end in *.
    destruct (Hsub _ H4 ltac:(lia)) as [S1 S2]. split; [done|]. split; [lia|]. split_and!; try lia; [|done].
    by replace (ch_old_start r - e) with (ch_old_start r - i - (e - i)) by lia.
Qed.

Lemma edits_from k : forall i0 j0 i runs, edits old new i0 j0 runs -> i0 <= i <= xf_n old -> around runs k i ->
  edits old new i (i + (j0 - i0) + shift (take k runs)) (drop k runs).
Proof.
  induction k as [|k IH]; intros i0 j0 i runs He Hi [Hb Ha].
  - rewrite drop_0 in Ha. change (shift (take 0 runs)) with 0. rewrite drop_0. destruct (edits_gap i0 j0 i runs He Hi Ha) as (_ & _ & H).
    by replace (i + (j0 - i0) + 0) with (j0 + (i - i0)) by lia.
  - destruct runs as [|r runs]; cbn [take drop shift] in *.
    + destruct (edits_gap i0 j0 i [] He Hi) as (_ & _ & H); [constructor|]. by replace (i + (j0 - i0) + 0) with (j0 + (i - i0)) by lia.
    + apply Forall_cons in Hb as [Hr Hb]. unfold before in Hr. cbn [edits] in He. destruct He as (H1 & H2 & H3 & H4 & H5 & H6 & H7 & H8 & H9 & He).
      unfold old_end, new_end in *. specialize (IH _ _ i runs He ltac:(lia) (conj Hb Ha)).
      match type of IH with edits _ _ _ ?x _ => replace (i + (j0 - i0) + (ch_new_count r - ch_old_count r + shift (take k runs))) with x by lia end. done.
Qed.

Lemma edits_counts i j runs : edits old new i j runs -> Forall (fun c => 0 <= ch_old_count c /\ 0 <= ch_new_count c /\ old_end c <= xf_n old) runs.
Proof.
  revert i j. induction runs as [|r runs IH]; intros i j He; constructor; cbn [edits] in He; destruct_and?; [lia|]. by eapply IH.
Qed.

(** The runs after one start below it. *)
Lemma runs_later k : forall i j c runs, edits old new i j runs -> apart runs -> runs !! k = Some c ->
  Forall (fun d => old_end c < ch_old_start d) (drop (S k) runs) /\ Forall (fun d => old_end d < ch_old_start c) (take k runs).
Proof.
  assert (Hall : forall runs i j x, edits old new i j runs -> apart runs -> match runs with d :: _ => x < ch_old_start d | [] => True end ->
    Forall (fun d => x < ch_old_start d) runs).
  { clear. induction runs as [|d runs IH]; intros i j x He Ha Hx; [done|]. constructor; [done|]. cbn [edits] in He. destruct_and?.
    eapply IH; [eassumption| |]; destruct runs as [|e runs]; try done; destruct Ha as [Ha1 Ha2]; [done|]. unfold old_end in *. lia. }
  induction k as [|k IH]; intros i j c [|d runs] He Ha E; try done.
  - injection E as ->. cbn [drop take]. rewrite drop_0. split; [|done]. cbn [edits] in He. destruct_and?. eapply Hall; [eassumption| |];
      destruct runs; try done; by destruct Ha.
  - cbn [edits] in He. destruct_and?. assert (Ha' : apart runs) by (destruct runs; [done|by destruct Ha]).
    match goal with H : edits _ _ _ _ runs |- _ => destruct (IH _ _ c runs H Ha' E) as [L1 L2]; pose proof H as He end. split; [exact L1|]. cbn [take].
    constructor; [|done]. assert (Hd : Forall (fun e => old_end d < ch_old_start e) runs).
    { eapply Hall; [exact He|done|]. destruct runs; [done|]. by destruct Ha. }
    rewrite Forall_forall in Hd. apply Hd. by eapply list_elem_of_lookup_2.
Qed.
End Side.

Lemma map_before_ok pre post start : Forall (fun c => old_end c < start /\ 0 <= ch_old_count c) pre -> Forall (after start) post ->
  bgit_map_before (pre ++ post) start = start + shift pre.
Proof.
  intros Hpre Hpost. unfold bgit_map_before. f_equal.
  assert (H : forall offset, map_before_loop (pre ++ post) start offset = offset + shift pre); [|rewrite H; lia].
  induction Hpre as [|c pre [Hc1 Hc2] _ IH]; intros offset; cbn [app map_before_loop shift].
  - destruct post as [|c post]; cbn [map_before_loop]; [lia|]. apply Forall_cons in Hpost as [Hc _]. unfold after in Hc. if_true. lia.
  - unfold old_end in Hc1. if_false. if_true. rewrite IH. lia.
Qed.

Lemma delta_over_ok runs : forall m a : nat, (a + m <= length runs)%nat ->
  bgit_delta_over runs (Z.of_nat a) (Z.of_nat (a + m) - 1) = Ret (shift (take m (drop a runs))).
Proof.
  intros m a Hl. unfold bgit_delta_over. replace (Z.to_nat _) with m by lia.
  assert (H : forall (k i : nat) delta, (i + k = a + m)%nat -> over_loop k runs (Z.of_nat i) (Z.of_nat (a + m) - 1) delta = Ret (delta + shift (take k (drop i runs)))).
  { induction k as [|k IH]; intros i delta Hk; cbn [over_loop]; [change (shift (take 0 _)) with 0; f_equal; lia|]. if_true.
    destruct (run_at_ok runs (Z.of_nat i)) as (c & -> & E); [unfold len; lia|]. rewrite Nat2Z.id in E. cbn [obind].
    replace (Z.of_nat i + 1) with (Z.of_nat (S i)) by lia. rewrite IH by lia. rewrite (drop_S runs c i E). cbn [firstn shift]. f_equal. lia. }
  rewrite H by lia. done.
Qed.

Lemma lines_equal_ok a a0 a1 b b0 b1 : 0 <= a0 <= a1 -> a1 <= xf_n a -> 0 <= b0 <= b1 -> b1 <= xf_n b ->
  bgit_lines_equal a a0 a1 b b0 b1 = Ret (bool_decide (lines_between a a0 a1 = lines_between b b0 b1)).
Proof.
  intros Ha Ha1 Hb Hb1. unfold bgit_lines_equal. case_if.
  { rewrite bool_decide_false; [done|]. intros E. apply (f_equal len) in E. rewrite !len_lines_between in E by lia. lia. }
  assert (H : forall n a0 b0, 0 <= a0 -> 0 <= b0 -> a0 + Z.of_nat n <= xf_n a -> b0 + Z.of_nat n <= xf_n b -> lines_equal_loop n a a0 b b0 =
      Ret (bool_decide (lines_between a a0 (a0 + Z.of_nat n) = lines_between b b0 (b0 + Z.of_nat n)))).
  2:{ rewrite H by lia. by replace (a0 + Z.of_nat (Z.to_nat (a1 - a0))) with a1 by lia; replace (b0 + Z.of_nat (Z.to_nat (a1 - a0))) with b1 by lia. }
  clear. induction n as [|n IH]; intros a0 b0 Ha Hb Hra Hrb; cbn [lines_equal_loop].
  { rewrite !lines_between_none by lia. by rewrite bool_decide_true. }
  rewrite !line_at_ok by lia. cbn [obind]. rewrite (lines_between_cons a a0), (lines_between_cons b b0) by lia.
  destruct (decide (line_of a a0 = line_of b b0)) as [E|E].
  - rewrite E, Z.eqb_refl. unfold beq. rewrite (bool_decide_true (line_of b b0 = line_of b b0)) by done. cbn [negb orb].
    rewrite (IH (a0 + 1) (b0 + 1)) by lia. f_equal. replace (a0 + 1 + Z.of_nat n) with (a0 + Z.of_nat (S n)) by lia.
    replace (b0 + 1 + Z.of_nat n) with (b0 + Z.of_nat (S n)) by lia. apply bool_decide_ext. split; [by intros ->|congruence].
  - unfold beq. rewrite (bool_decide_false (line_of a a0 = _)) by done. rewrite orb_true_r.
    rewrite bool_decide_false; [done|congruence].
Qed.

(* ------------------------------------------------------------------ *)
(** ** The regions lie along the base *)

Lemma side_at old new runs k i : edits old new 0 0 runs -> 0 <= i <= xf_n old -> around runs k i ->
  edits old new i (i + shift (take k runs)) (drop k runs).
Proof. intros He Hi Ha. pose proof (edits_from old new k 0 0 i runs He Hi Ha) as H. by replace (i + (0 - 0) + _) with (i + shift (take k runs)) in H by lia. Qed.

Definition below (i : Z) (c : bgit_xdiff_change) : Prop := i < ch_old_start c.

Lemma below_after i e l : e <= i + 1 -> Forall (below i) l -> Forall (after e) l.
Proof. intros He H. eapply Forall_impl; [exact H|]. unfold below, after. intros x Hx. lia. Qed.

(** Past the [k]th run, up to a line above the next one. *)
Lemma past_run old new runs k c e : edits old new 0 0 runs -> apart runs -> runs !! k = Some c -> old_end c <= e ->
  (forall d, runs !! S k = Some d -> e < ch_old_start d) -> around runs (S k) e /\ Forall (below e) (drop (S k) runs).
Proof.
  intros He Ha E Hce Hd. destruct (runs_later old new k 0 0 c runs He Ha E) as [_ L2].
  pose proof (edits_counts _ _ _ _ _ He) as Hc. rewrite Forall_forall in Hc.
  assert (Hcc : 0 <= ch_old_count c) by (apply Hc; by eapply list_elem_of_lookup_2).
  assert (Hlow : Forall (below e) (drop (S k) runs)).
  { destruct (runs !! S k) as [d|] eqn:Ed.
    - rewrite (drop_S runs d (S k) Ed). destruct (runs_later old new (S k) 0 0 d runs He Ha Ed) as [L _]. specialize (Hd d eq_refl).
      assert (Hdc : 0 <= ch_old_count d) by (apply Hc; by eapply list_elem_of_lookup_2).
      constructor; [done|]. eapply Forall_impl; [exact L|]. intros x Hx. unfold below, old_end in *. lia.
    - apply lookup_ge_None in Ed. by rewrite drop_ge by lia. }
  split; [|done]. split; [|eapply below_after; [|exact Hlow]; lia].
  rewrite (take_S_r runs k c E). apply Forall_app. split; [|by constructor]. eapply Forall_impl; [exact L2|]. unfold before, old_end in *. intros x Hx. lia.
Qed.

(** The other side waits, its next run being below. *)
Lemma wait_run old new runs k i e : edits old new 0 0 runs -> apart runs -> around runs k i -> i <= e ->
  (forall d, runs !! k = Some d -> e < ch_old_start d) -> around runs k e /\ Forall (below e) (drop k runs).
Proof.
  intros He Ha [Hb _] Hie Hd. assert (Hlow : Forall (below e) (drop k runs)).
  { destruct (runs !! k) as [d|] eqn:Ed.
    - rewrite (drop_S runs d k Ed). destruct (runs_later old new k 0 0 d runs He Ha Ed) as [L _]. specialize (Hd d eq_refl).
      pose proof (edits_counts _ _ _ _ _ He) as Hc. rewrite Forall_forall in Hc.
      assert (Hdc : 0 <= ch_old_count d) by (apply Hc; by eapply list_elem_of_lookup_2).
      constructor; [done|]. eapply Forall_impl; [exact L|]. intros x Hx. unfold below, old_end in *. lia.
    - apply lookup_ge_None in Ed. by rewrite drop_ge by lia. }
  split; [|done]. split; [|eapply below_after; [|exact Hlow]; lia]. eapply Forall_impl; [exact Hb|]. unfold before. intros x Hx. lia.
Qed.

Lemma after_here old new runs k c : edits old new 0 0 runs -> apart runs -> runs !! k = Some c -> Forall (after (ch_old_start c)) (drop k runs).
Proof.
  intros He Ha E. rewrite (drop_S runs c k E). constructor; [unfold after; lia|]. destruct (runs_later old new k 0 0 c runs He Ha E) as [L _].
  pose proof (edits_counts _ _ _ _ _ He) as Hc. rewrite Forall_forall in Hc.
  assert (Hcc : 0 <= ch_old_count c) by (apply Hc; by eapply list_elem_of_lookup_2).
  eapply Forall_impl; [exact L|]. unfold after, old_end. intros x Hx. lia.
Qed.

(** A change of one side, clear of the next one of the other. *)
Lemma one_side base mine other rm ro k l i c : edits base mine 0 0 rm -> apart rm -> edits base other 0 0 ro -> apart ro ->
  0 <= i <= xf_n base -> around rm k i -> around ro l i -> l = 0%nat \/ Forall (below i) (drop k rm) ->
  rm !! k = Some c -> (forall d, ro !! l = Some d -> old_end c < ch_old_start d) ->
  let p := i + shift (take k rm) in
  let q := i + shift (take l ro) in
  i <= ch_old_start c /\ 0 <= ch_old_count c /\ old_end c <= xf_n base /\
  Forall (after (ch_old_start c)) (drop k rm) /\ Forall (after (ch_old_start c)) (drop l ro) /\
  ch_new_start c = p + (ch_old_start c - i) /\ new_end c = old_end c + shift (take (S k) rm) /\ clear_of ro c /\
  q + (old_end c - i) <= xf_n other /\ same_lines base other (ch_old_start c) (q + (ch_old_start c - i)) (ch_old_count c) /\
  (around rm (S k) (old_end c) /\ Forall (below (old_end c)) (drop (S k) rm)) /\
  (around ro l (old_end c) /\ Forall (below (old_end c)) (drop l ro)).
Proof.
  intros Hm Am Ho Ao Hi Rm Ro Hs E Hd p q. pose proof (side_at _ _ _ _ _ Hm Hi Rm) as Em. pose proof (side_at _ _ _ _ _ Ho Hi Ro) as Eo.
  rewrite (drop_S rm c k E) in Em. cbn [edits] in Em. destruct Em as (H1 & H2 & H3 & H4 & H5 & H6 & H7 & H8 & H9 & _).
  destruct (past_run _ _ rm k c (old_end c) Hm Am E ltac:(lia)) as [P1 P2].
  { intros d Ed. destruct (runs_later _ _ k 0 0 c rm Hm Am E) as [L _]. rewrite Forall_forall in L. apply L.
    rewrite (drop_S rm d (S k) Ed). left. }
  destruct (wait_run _ _ ro l i (old_end c) Ho Ao Ro ltac:(unfold old_end; lia) Hd) as [W1 W2].
  destruct (edits_gap _ _ _ _ (old_end c) _ Eo ltac:(unfold old_end in *; lia) ltac:(by destruct W1)) as (G1 & G2 & _).
  fold q in G1, G2. split_and!; try done; try lia.
  - by apply (after_here base mine).
  - eapply below_after; [|exact W2]. unfold old_end. lia.
  - rewrite (take_S_r rm k c E), shift_app. cbn [shift]. unfold new_end, old_end. unfold p in *. lia.
  - rewrite <- (take_drop l ro). apply Forall_app. split.
    + destruct Hs as [->|Hs]; [constructor|]. destruct Ro as [Ro _]. rewrite (drop_S rm c k E) in Hs. apply Forall_cons in Hs as [Hs _].
      eapply Forall_impl; [exact Ro|]. unfold before, below in *. intros x Hx. left. lia.
    + eapply Forall_impl; [exact W2|]. unfold below. intros x Hx. by right.
  - intros t Ht. specialize (G1 (ch_old_start c - i + t) ltac:(unfold old_end; lia)).
    replace (i + (ch_old_start c - i + t)) with (ch_old_start c + t) in G1 by lia.
    by replace (q + (ch_old_start c - i + t)) with (q + (ch_old_start c - i) + t) in G1 by lia.
Qed.

Lemma absorb_ok ra rb fuel : forall a b : nat, (a < length ra)%nat -> (b < length rb)%nat -> (length ra - a + (length rb - b) <= fuel)%nat ->
  exists (a' b' : nat) ca cb, absorb_loop fuel ra rb (Z.of_nat a) (Z.of_nat b) = Ret (Z.of_nat a', Z.of_nat b') /\ (a <= a')%nat /\ (b <= b')%nat /\
    ra !! a' = Some ca /\ rb !! b' = Some cb /\
    (forall d, ra !! S a' = Some d -> old_end cb < ch_old_start d) /\ (forall d, rb !! S b' = Some d -> old_end ca < ch_old_start d).
Proof.
  induction fuel as [|fuel IH]; intros a b Ha Hb Hf; [lia|]. cbn [absorb_loop].
  destruct (run_at_ok ra (Z.of_nat a)) as (ca & -> & Ea); [unfold len; lia|]. destruct (run_at_ok rb (Z.of_nat b)) as (cb & -> & Eb); [unfold len; lia|].
  rewrite Nat2Z.id in Ea, Eb. cbn [obind]. fold (old_end ca) (old_end cb).
  replace (Z.of_nat a + 1) with (Z.of_nat (S a)) by lia. replace (Z.of_nat b + 1) with (Z.of_nat (S b)) by lia.
  assert (Hnext : forall (runs : list bgit_xdiff_change) (k : nat) e, exists more, (if Z.of_nat (S k) <? len runs then
      let* c := run_at runs (Z.of_nat (S k)) in Ret (ch_old_start c <=? e) else Ret false) = Ret more /\
      (more = true -> (S k < length runs)%nat) /\ (more = false -> forall d, runs !! S k = Some d -> e < ch_old_start d)).
  { intros runs k e. destruct (Z.ltb_spec (Z.of_nat (S k)) (len runs)) as [Hk|Hk].
    - destruct (run_at_ok runs (Z.of_nat (S k))) as (c & -> & Ec); [lia|]. rewrite Nat2Z.id in Ec. cbn [obind]. eexists. split; [done|].
      split; [intros _; unfold len in Hk; lia|]. intros Hm d Ed. simpl_bool. congruence.
    - exists false. split; [done|]. split; [done|]. intros _ d Ed. apply lookup_lt_Some in Ed. unfold len in Hk. lia. }
  destruct (Hnext ra a (old_end cb)) as (ma & -> & Ma1 & Ma2). cbn [obind]. destruct ma.
  { specialize (Ma1 eq_refl). destruct (IH (S a) b) as (a' & b' & x & y & E & H1 & H2 & H); [lia..|]. exists a', b', x, y. split; [done|]. split; [lia|]. split; [lia|]. done. }
  destruct (Hnext rb b (old_end ca)) as (mb & -> & Mb1 & Mb2). cbn [obind]. destruct mb.
  { specialize (Mb1 eq_refl). destruct (IH a (S b)) as (a' & b' & x & y & E & H1 & H2 & H); [lia..|]. exists a', b', x, y. split; [done|]. split; [lia|]. split; [lia|]. done. }
  exists a, b, ca, cb. split_and!; try done; [by apply Ma2|by apply Mb2].
Qed.

Lemma edits_mono old new k : forall i0 j0 i runs, edits old new i0 j0 runs -> i0 <= i <= xf_n old -> around runs k i ->
  j0 <= i + (j0 - i0) + shift (take k runs).
Proof.
  induction k as [|k IH]; intros i0 j0 i runs He Hi [Hb Ha]; [change (shift (take 0 runs)) with 0; lia|].
  destruct runs as [|r runs]; cbn [take drop shift] in *; [lia|].
  apply Forall_cons in Hb as [Hr Hb]. unfold before in Hr. cbn [edits] in He. destruct He as (H1 & H2 & H3 & H4 & H5 & H6 & H7 & H8 & H9 & He).
  unfold old_end, new_end in *. specialize (IH _ _ i runs He ltac:(lia) (conj Hb Ha)). lia.
Qed.

(** The runs [k] to [k'] of one side, in a stretch both sides touched. *)
Lemma span_side old new runs k k' i start e c c' : edits old new 0 0 runs -> apart runs -> 0 <= i <= xf_n old -> around runs k i ->
  k = 0%nat \/ i < start -> runs !! k = Some c -> runs !! k' = Some c' -> (k <= k')%nat ->
  i <= start <= ch_old_start c -> old_end c' <= e <= xf_n old -> (forall d, runs !! S k' = Some d -> e < ch_old_start d) ->
  let p := i + shift (take k runs) in
  let p' := e + shift (take (S k') runs) in
  Forall (after start) (drop k runs) /\ old_end c <= e /\
  bgit_map_before runs start = p + (start - i) /\
  (exists d, bgit_delta_over runs (Z.of_nat k) (Z.of_nat k') = Ret d /\ p + (start - i) + (e - start) + d = p') /\
  0 <= p + (start - i) <= p' /\ p' <= xf_n new /\ around runs (S k') e /\ Forall (below e) (drop (S k') runs).
Proof.
  intros He Ha Hi R Hs Ek Ek' Hk Hst Hend Hd p p'.
  assert (Hlow : Forall (after start) (drop k runs)).
  { eapply Forall_impl; [by eapply after_here|]. unfold after. intros x Hx. lia. }
  destruct (past_run _ _ runs k' c' e He Ha Ek' ltac:(lia) Hd) as [P1 P2].
  pose proof (edits_counts _ _ _ _ _ He) as Hc. rewrite Forall_forall in Hc.
  assert (Hin : c' ∈ runs) by (by eapply list_elem_of_lookup_2). pose proof (Hc _ Hin) as (Hc1 & Hc2 & Hc3).
  assert (Hmap : bgit_map_before runs start = start + shift (take k runs)).
  { rewrite <- (take_drop k runs) at 1. apply map_before_ok; [|done]. destruct R as [R _]. apply Forall_forall. intros x Hx.
    rewrite Forall_forall in R. specialize (R x Hx). unfold before in R. split; [|apply Hc; by eapply elem_of_take in Hx as (j & Hx & _); eapply list_elem_of_lookup_2].
    destruct Hs as [->|Hs]; [by apply elem_of_nil in Hx|lia]. }
  assert (Hce : old_end c <= e).
  { destruct (decide (k = k')) as [->|Hne]; [rewrite Ek in Ek'; injection Ek' as ->; lia|]. destruct R as [_ R].
    destruct (runs_later _ _ k' 0 0 c' runs He Ha Ek') as [_ L]. rewrite Forall_forall in L. assert (Hct : c ∈ take k' runs).
    { eapply list_elem_of_lookup_2 with (i := k). rewrite lookup_take_lt by lia. exact Ek. }
    specialize (L c Hct). unfold old_end in *. lia. }
  assert (Hold : 0 <= ch_old_count c) by (apply Hc; by eapply list_elem_of_lookup_2).
  assert (Hrs : around runs k start).
  { split; [|done]. eapply Forall_impl; [by destruct R|]. unfold before. intros x Hx. lia. }
  assert (Hse : start <= e) by (unfold old_end in *; lia).
  pose proof (side_at old new runs k start He ltac:(lia) Hrs) as Es. pose proof (side_at old new runs (S k') e He ltac:(lia) P1) as Ee.
  assert (Hsum : shift (take (S k') runs) = shift (take k runs) + shift (take (S k' - k) (drop k runs))).
  { rewrite <- (take_drop k (take (S k') runs)), shift_app, take_take, Nat.min_l by lia. by rewrite skipn_firstn_comm. }
  assert (Hrk : around (drop k runs) (S k' - k) e).
  { destruct P1 as [P1 P1']. split; [|rewrite drop_drop; by replace (k + (S k' - k))%nat with (S k') by lia].
    rewrite <- skipn_firstn_comm. by apply Forall_drop. }
  pose proof (edits_mono old new (S k' - k) start _ e _ Es ltac:(lia) Hrk) as Hmono.
  destruct (edits_bounds _ _ _ _ _ Es) as [_ B1]. destruct (edits_bounds _ _ _ _ _ Ee) as [_ B2].
  unfold p, p'. split_and!; try done; try lia. eexists. split.
  - replace (Z.of_nat k') with (Z.of_nat (k + (S k' - k)) - 1) by lia. apply delta_over_ok. apply lookup_lt_Some in Ek'. lia.
  - lia.
Qed.

(** Past the last run of either side in a stretch, the next one is below. *)
Lemma next_below old new runs k c e other : edits old new 0 0 runs -> apart runs -> runs !! k = Some c -> e = old_end c \/ e = other ->
  (forall x, runs !! S k = Some x -> other < ch_old_start x) -> forall x, runs !! S k = Some x -> e < ch_old_start x.
Proof.
  intros He Ha E Hor Hn x Ex. specialize (Hn x Ex). destruct (runs_later _ _ k 0 0 c runs He Ha E) as [L _]. rewrite Forall_forall in L.
  specialize (L x). rewrite (drop_S runs x (S k) Ex) in L. specialize (L ltac:(left)). destruct Hor as [->| ->]; lia.
Qed.

Lemma around_start old new runs : edits old new 0 0 runs -> around runs 0 0.
Proof.
  intros He. split; [constructor|]. rewrite drop_0. apply Forall_forall. intros c Hc. apply list_elem_of_lookup in Hc as [k Ek].
  destruct (edits_at _ _ k runs 0 0 c He Ek) as ([? ?] & _). unfold after. lia.
Qed.

Section Regions.
Context (base ours theirs : bgit_xdiff_file) (ra rb : list bgit_xdiff_change).
Hypothesis Ha : edits base ours 0 0 ra.
Hypothesis Hb : edits base theirs 0 0 rb.
Hypothesis Aa : apart ra.
Hypothesis Ab : apart rb.

Lemma agreed_up_to a b i e : 0 <= i <= xf_n base -> around ra a i -> around rb b i -> i <= e <= xf_n base ->
  Forall (after e) (drop a ra) -> Forall (after e) (drop b rb) ->
  agreed base ours theirs i (i + shift (take a ra)) (i + shift (take b rb)) (e - i).
Proof.
  intros Hi Ra Rb He Fa Fb. pose proof (side_at _ _ _ _ _ Ha Hi Ra) as Ea. pose proof (side_at _ _ _ _ _ Hb Hi Rb) as Eb.
  destruct (edits_bounds _ _ _ _ _ Ea) as [_ ?]. destruct (edits_bounds _ _ _ _ _ Eb) as [_ ?].
  destruct (edits_gap _ _ _ _ e _ Ea ltac:(lia) Fa) as (? & ? & _). destruct (edits_gap _ _ _ _ e _ Eb ltac:(lia) Fb) as (? & ? & _).
  unfold agreed. split_and!; done || lia.
Qed.

Lemma in_runs (runs : list bgit_xdiff_change) k c : runs !! k = Some c -> c ∈ runs.
Proof. apply list_elem_of_lookup_2. Qed.

Lemma run_at_nat (runs : list bgit_xdiff_change) (k : nat) c : runs !! k = Some c -> run_at runs (Z.of_nat k) = Ret c.
Proof.
  intros E. destruct (run_at_ok runs (Z.of_nat k)) as (c' & -> & E'); [apply lookup_lt_Some in E; unfold len; lia|].
  rewrite Nat2Z.id in E'. congruence.
Qed.

Lemma only_ours_ok (a b : nat) : (a < length ra \/ b < length rb)%nat -> (b <= length rb)%nat ->
  exists o, only_ours ra rb (Z.of_nat a) (Z.of_nat b) = Ret o /\
    if o : bool then exists c, ra !! a = Some c /\ forall d, rb !! b = Some d -> old_end c < ch_old_start d
    else exists d, rb !! b = Some d /\ forall c, ra !! a = Some c -> ch_old_start d <= old_end c.
Proof.
  intros Hab Hb'. unfold only_ours. destruct (Z.eqb_spec (Z.of_nat b) (len rb)) as [Eb|Eb].
  - exists true. split; [done|]. destruct (lookup_lt_is_Some_2 ra a) as [c Ec]; [unfold len in Eb; lia|].
    exists c. split; [done|]. intros d Ed. apply lookup_lt_Some in Ed. unfold len in Eb. lia.
  - destruct (lookup_lt_is_Some_2 rb b) as [d Ed]; [unfold len in Eb; lia|]. destruct (Z.ltb_spec (Z.of_nat a) (len ra)) as [Ea|Ea].
    + destruct (lookup_lt_is_Some_2 ra a) as [c Ec]; [unfold len in Ea; lia|]. rewrite (run_at_nat ra a c Ec), (run_at_nat rb b d Ed). cbn [obind].
      eexists. split; [done|]. fold (old_end c).
      destruct (Z.ltb_spec (old_end c) (ch_old_start d)); [exists c|exists d]; (split; [done|]); intros x Ex; [congruence|]. assert (x = c) as -> by congruence. lia.
    + exists false. split; [done|]. exists d. split; [done|]. intros c Ec. apply lookup_lt_Some in Ec. unfold len in Ea. lia.
Qed.

Lemma only_theirs_ok (a b : nat) d : (a <= length ra)%nat -> rb !! b = Some d -> (forall c, ra !! a = Some c -> ch_old_start d <= old_end c) ->
  exists o, only_theirs ra rb (Z.of_nat a) (Z.of_nat b) = Ret o /\
    if o : bool then forall c, ra !! a = Some c -> old_end d < ch_old_start c
    else exists c, ra !! a = Some c /\ ch_old_start c <= old_end d /\ ch_old_start d <= old_end c.
Proof.
  intros La Ed Hcd. unfold only_theirs. destruct (Z.eqb_spec (Z.of_nat a) (len ra)) as [Ea|Ea].
  - exists true. split; [done|]. intros c Ec. apply lookup_lt_Some in Ec. unfold len in Ea. lia.
  - destruct (lookup_lt_is_Some_2 ra a) as [c Ec]; [unfold len in Ea; lia|]. rewrite (run_at_nat ra a c Ec), (run_at_nat rb b d Ed). cbn [obind].
    eexists. split; [done|]. fold (old_end d).
    destruct (Z.ltb_spec (old_end d) (ch_old_start c)); [intros x Ex; congruence|]. exists c. split; [done|]. split; [done|]. by apply Hcd.
Qed.

(** Where the merge is: line [i] of the base, past [a] of our changes and [b]
    of theirs, the next ones being below. *)
Definition reached (a b : nat) (i : Z) : Prop :=
  (a <= length ra)%nat /\ (b <= length rb)%nat /\ 0 <= i <= xf_n base /\ around ra a i /\ around rb b i /\
  ((a = 0 /\ b = 0)%nat \/ Forall (below i) (drop a ra) /\ Forall (below i) (drop b rb)).

Notation laid_from a b i := (laid base ours theirs ra rb i (i + shift (take a ra)) (i + shift (take b rb))).

(** The stretch both sides touched, and where the merge is after it. *)
Lemma both_region_ok (a b a' b' : nat) i c d ca cb : reached a b i -> ra !! a = Some c -> rb !! b = Some d ->
  ch_old_start c <= old_end d -> ch_old_start d <= old_end c -> (a <= a')%nat -> (b <= b')%nat -> ra !! a' = Some ca -> rb !! b' = Some cb ->
  (forall x, ra !! S a' = Some x -> old_end cb < ch_old_start x) -> (forall x, rb !! S b' = Some x -> old_end ca < ch_old_start x) ->
  exists r, both_region ours theirs ra rb (Z.of_nat a) (Z.of_nat b) (Z.of_nat a') (Z.of_nat b') = Ret r /\ reached (S a') (S b') (base_end r) /\
    forall rs, laid_from (S a') (S b') (base_end r) rs -> laid_from a b i (r :: rs).
Proof.
  intros (La & Lb & Hi & Ra & Rb & Hs) Ec Ed T1 T2 Haa Hbb Eca Ecb Na Nb. unfold both_region.
  rewrite (run_at_nat ra a c Ec), (run_at_nat rb b d Ed), (run_at_nat ra a' ca Eca), (run_at_nat rb b' cb Ecb). cbn [obind].
  fold (old_end ca) (old_end cb).
  set (start := if ch_old_start c <? ch_old_start d then ch_old_start c else ch_old_start d).
  set (e := if old_end ca >? old_end cb then old_end ca else old_end cb).
  assert (Hst : start <= ch_old_start c /\ start <= ch_old_start d /\ (start = ch_old_start c \/ start = ch_old_start d)).
  { unfold start. destruct (Z.ltb_spec (ch_old_start c) (ch_old_start d)); lia. }
  assert (Hen : old_end ca <= e /\ old_end cb <= e /\ (e = old_end ca \/ e = old_end cb)).
  { unfold e. destruct (Z.gtb_spec (old_end ca) (old_end cb)); lia. }
  assert (Hend : e <= xf_n base).
  { pose proof (edits_counts _ _ _ _ _ Ha) as C1. pose proof (edits_counts _ _ _ _ _ Hb) as C2. rewrite Forall_forall in C1, C2.
    destruct (C1 ca (in_runs _ _ _ Eca)) as (_ & _ & ?). destruct (C2 cb (in_runs _ _ _ Ecb)) as (_ & _ & ?). lia. }
  assert (His : i <= start /\ ((a = 0 /\ b = 0)%nat \/ i < start)).
  { destruct Ra as [_ Ra], Rb as [_ Rb]. rewrite (drop_S ra c a Ec) in *. rewrite (drop_S rb d b Ed) in *. rewrite !Forall_cons in *.
    unfold after, below in *. destruct_and?. split; [lia|]. destruct Hs as [?|?]; [by left|right; lia]. }
  destruct His as [His Hstrict].
  destruct (span_side base ours ra a a' i start e c ca) as (F1 & F2 & F3 & (da & F4 & F5) & F6 & F7 & F8 & F9);
    [done..|destruct Hstrict as [[-> _]|?]; [by left|by right]|done|done|done|lia|lia|eapply (next_below _ _ _ _ _ _ (old_end cb)); [done..|lia|done]|].
  destruct (span_side base theirs rb b b' i start e d cb) as (G1 & G2 & G3 & (db & G4 & G5) & G6 & G7 & G8 & G9);
    [done..|destruct Hstrict as [[_ ->]|?]; [by left|by right]|done|done|done|lia|lia|eapply (next_below _ _ _ _ _ _ (old_end ca)); [done..|lia|done]|].
  rewrite F4, G4. cbn [obind]. rewrite F3, G3, F5, G5. rewrite lines_equal_ok by lia. cbn [obind]. eexists. split; [done|]. cbn [base_end].
  split; [pose proof (lookup_lt_Some _ _ _ Eca); pose proof (lookup_lt_Some _ _ _ Ecb); unfold reached; split_and!; try done; [lia..|by right]|].
  intros rs Hl. assert (Htouch : touched ra rb start e).
  { exists c, d. split; [by eapply in_runs|]. split; [by eapply in_runs|]. lia. }
  apply (laid_region _ _ _ _ _ _ _ _ (start - i) _ (e + shift (take (S a') ra)) (e + shift (take (S b') rb))).
  - apply agreed_up_to; done || lia.
  - cbn. lia.
  - unfold fits. cbn [kind]. case_bool_decide as Eq; cbn beta iota; [split; [|exact Eq]|]; unfold both_sides; cbn [base_start base_end our_start our_end their_start their_end];
      split_and!; done || lia.
  - exact Hl.
Qed.

Lemma regions_loop_ok room : forall (a b : nat) i, reached a b i -> (length ra - a + (length rb - b) < room)%nat ->
  exists rs, regions_loop room ours theirs ra rb (Z.of_nat a) (Z.of_nat b) = Ret rs /\ laid_from a b i rs.
Proof.
  induction room as [|room IH]; intros a b i Hr Hf; [lia|]. cbn [regions_loop]. pose proof Hr as (La & Lb & Hi & Ra & Rb & Hs).
  assert (Hsa : b = 0%nat \/ Forall (below i) (drop a ra)) by tauto. assert (Hsb : a = 0%nat \/ Forall (below i) (drop b rb)) by tauto.
  destruct ((Z.of_nat a <? len ra) || (Z.of_nat b <? len rb)) eqn:Eg.
  2:{ exists []. split; [done|]. apply orb_false_iff in Eg as [E1 E2]. simpl_bool. unfold len in *.
    pose proof (agreed_up_to a b i (xf_n base) Hi Ra Rb ltac:(lia)) as Hag. rewrite !drop_ge in Hag by lia. specialize (Hag ltac:(constructor) ltac:(constructor)).
    pose proof (side_at _ _ _ _ _ Ha Hi Ra) as Ea. pose proof (side_at _ _ _ _ _ Hb Hi Rb) as Eb. rewrite drop_ge in Ea, Eb by lia. cbn [edits] in Ea, Eb.
    apply laid_end; [done|lia|lia]. }
  destruct (only_ours_ok a b) as (o & -> & Ho); [apply orb_true_iff in Eg as [E|E]; simpl_bool; unfold len in *; lia|done|]. cbn [obind]. destruct o.
  { destruct Ho as (c & Ec & Hd). rewrite (run_at_nat ra a c Ec). cbn [obind].
    destruct (one_side base ours theirs ra rb a b i c Ha Aa Hb Ab Hi Ra Rb Hsa Ec Hd) as (F1 & F2 & F3 & F4 & F5 & F6 & F7 & F8 & F9 & F10 & [F11 F12] & [F13 F14]).
    pose proof (lookup_lt_Some _ _ _ Ec) as Hlt. replace (Z.of_nat a + 1) with (Z.of_nat (S a)) by lia.
    destruct (IH (S a) b (old_end c)) as (rs & -> & Hl); [unfold reached; split_and!; try done; [unfold old_end; lia|by right]|lia|]. cbn [obind]. eexists. split; [done|].
    rewrite <- F7 in Hl. unfold old_end in F3. apply (laid_region _ _ _ _ _ _ _ _ (ch_old_start c - i) _ (new_end c) (old_end c + shift (take b rb))).
    - apply agreed_up_to; done || lia.
    - cbn. lia.
    - cbn. exists c. unfold old_end, new_end in *. split_and!; try done; try lia; by eapply in_runs.
    - exact Hl. }
  destruct Ho as (d & Ed & Hcd). destruct (only_theirs_ok a b d La Ed Hcd) as (o & -> & Ho). cbn [obind]. pose proof (lookup_lt_Some _ _ _ Ed) as Hltb. destruct o.
  { rewrite (run_at_nat rb b d Ed). cbn [obind].
    destruct (one_side base theirs ours rb ra b a i d Hb Ab Ha Aa Hi Rb Ra Hsb Ed Ho) as (F1 & F2 & F3 & F4 & F5 & F6 & F7 & F8 & F9 & F10 & [F11 F12] & [F13 F14]).
    replace (Z.of_nat b + 1) with (Z.of_nat (S b)) by lia.
    destruct (IH a (S b) (old_end d)) as (rs & -> & Hl); [unfold reached; split_and!; try done; [unfold old_end; lia|by right]|lia|]. cbn [obind]. eexists. split; [done|].
    rewrite <- F7 in Hl. unfold old_end in F3. apply (laid_region _ _ _ _ _ _ _ _ (ch_old_start d - i) _ (old_end d + shift (take a ra)) (new_end d)).
    - apply agreed_up_to; done || lia.
    - cbn. lia.
    - cbn. exists d. unfold old_end, new_end in *. split_and!; try done; try lia; by eapply in_runs.
    - exact Hl. }
  destruct Ho as (c & Ec & T1 & T2). pose proof (lookup_lt_Some _ _ _ Ec) as Hlta.
  destruct (absorb_ok ra rb (S (length ra + length rb)) a b Hlta Hltb ltac:(lia)) as (a' & b' & ca & cb & -> & Haa & Hbb & Eca & Ecb & Na & Nb). cbn [obind].
  destruct (both_region_ok a b a' b' i c d ca cb) as (r & -> & Hr' & Hl'); try done. cbn [obind].
  replace (Z.of_nat a' + 1) with (Z.of_nat (S a')) by lia. replace (Z.of_nat b' + 1) with (Z.of_nat (S b')) by lia.
  destruct (IH (S a') (S b') (base_end r) Hr') as (rs & -> & Hl); [lia|]. cbn [obind]. eexists. split; [done|]. by apply Hl'.
Qed.
End Regions.

(* ------------------------------------------------------------------ *)
(** ** What is written merges the three files *)

Section Write.
Context `{Qsort} (base ours theirs : bgit_xdiff_file) (ra rb : list bgit_xdiff_change) (ol tl : list Z).
Hypothesis base_ends : xf_missing_newline base = false.
Hypothesis ours_ends : xf_missing_newline ours = false.
Hypothesis theirs_ends : xf_missing_newline theirs = false.
Hypothesis ours_wf : wf_file ours.
Hypothesis theirs_wf : wf_file theirs.
Hypothesis room : refs_overflow (xf_n ours) (xf_n theirs) = false.

Lemma agreed_lines i p q n : agreed base ours theirs i p q n ->
  lines_between ours p (p + n) = lines_between base i (i + n) /\ lines_between theirs q (q + n) = lines_between base i (i + n).
Proof.
  intros (H1 & H2 & H3 & H4 & H5 & H6 & H7 & S1 & S2). split; symmetry; apply same_lines_between; done.
Qed.

(** What one region writes. *)
Lemma region_written text conflicts p q r p' q' : 0 <= base_start r -> 0 <= p -> 0 <= q -> fits base ours theirs ra rb p q r p' q' ->
  exists ps, (match kind r with
      | BGIT_TAKE_OURS | BGIT_TAKE_EITHER =>
          let* text := bgit_text_lines text ours (our_start r) (our_end r) in Ret (text, conflicts)
      | BGIT_TAKE_THEIRS =>
          let* text := bgit_text_lines text theirs (their_start r) (their_end r) in Ret (text, conflicts)
      | BGIT_CONFLICT => bgit_write_conflict text ours theirs r ol tl conflicts
      end) = Ret (text ++ pieces_text ol tl ps, conflicts + disputes ps) /\
    forall rest, merged base ours theirs ra rb (base_end r) p' q' rest -> merged base ours theirs ra rb (base_start r) p q (ps ++ rest).
Proof.
  intros Hi Hp Hq Hf. unfold fits in Hf.
  assert (Hone : forall l, (text ++ lines_text l, conflicts) = (text ++ pieces_text ol tl [Settled l], conflicts + disputes [Settled l])).
  { intros l. unfold pieces_text. cbn. by rewrite app_nil_r, Z.add_0_r. }
  destruct (kind r).
  - destruct Hf as (c & Hc & Hcl & E0 & -> & E1 & E2 & -> & -> & -> & C1 & C2 & C3 & Hs). rewrite E0 in *. rewrite E1, E2, text_lines_ok by done. cbn [obind].
    eexists. split; [by rewrite Hone|]. intros rest Hm. cbn [app]. apply merged_ours; [done|done| |done]. unfold old_end in *. symmetry. apply same_lines_between; done || lia.
  - destruct Hf as (c & Hc & Hcl & E0 & -> & E1 & E2 & -> & -> & -> & C1 & C2 & C3 & Hs). rewrite E0 in *. rewrite E1, E2, text_lines_ok by done. cbn [obind].
    eexists. split; [by rewrite Hone|]. intros rest Hm. cbn [app]. apply merged_theirs; [done|done| |done]. unfold old_end in *. symmetry. apply same_lines_between; done || lia.
  - destruct Hf as [(T & B1 & E1 & E2 & E3 & E4 & B2 & B3 & B4 & B5) Heq]. rewrite E1, E2, text_lines_ok by done. cbn [obind].
    eexists. split; [by rewrite Hone|]. intros rest Hm. cbn [app]. by eapply merged_both.
  - destruct Hf as (T & B1 & E1 & E2 & E3 & E4 & B2 & B3 & B4 & B5).
    destruct (write_conflict_ok text ours theirs r ol tl conflicts) as (ps & E & S1 & S2); [done..|lia|lia|lia|lia|].
    exists ps. split; [exact E|]. intros rest Hm. rewrite E1, E2 in S1. rewrite E3, E4 in S2. by eapply merged_conflict.
Qed.

Lemma written_loop_ok rs : forall text conflicts i p q, laid base ours theirs ra rb i p q rs ->
  exists ps, written_loop rs text conflicts base ours theirs ol tl i = Ret (text ++ pieces_text ol tl ps, conflicts + disputes ps) /\
    merged base ours theirs ra rb i p q ps.
Proof.
  induction rs as [|r rs IH]; intros text conflicts i p q Hl; cbn [written_loop].
  - inversion Hl as [? ? ? Ha E1 E2|]; subst. destruct (agreed_lines _ _ _ _ Ha) as [L1 L2]. destruct Ha as (? & ? & ? & ? & _).
    rewrite text_lines_ok by done. cbn [obind]. exists [Settled (lines_between base i (xf_n base))]. unfold pieces_text. cbn. rewrite app_nil_r, Z.add_0_r.
    split; [done|]. replace (xf_n base) with (i + (xf_n base - i)) at 1 by lia. apply merged_same; [lia|done|done|].
    replace (i + (xf_n base - i)) with (xf_n base) by lia. replace (p + (xf_n base - i)) with (xf_n ours) by lia.
    replace (q + (xf_n base - i)) with (xf_n theirs) by lia. constructor.
  - inversion Hl as [|? ? ? n ? p' q' ? Ha Hs Hf Hr]; subst. destruct (agreed_lines _ _ _ _ Ha) as [L1 L2]. destruct Ha as (? & ? & ? & ? & _).
    rewrite text_lines_ok by done. cbn [obind]. rewrite Hs.
    destruct (region_written (text ++ lines_text (lines_between base i (i + n))) conflicts (p + n) (q + n) r p' q') as (ps & E & Hm); [lia|lia|lia|done|].
    rewrite E. cbn [obind]. destruct (IH ((text ++ lines_text (lines_between base i (i + n))) ++ pieces_text ol tl ps) (conflicts + disputes ps) _ _ _ Hr) as (rest & E' & Hrest).
    rewrite E'. exists (Settled (lines_between base i (i + n)) :: ps ++ rest). split.
    + cbn [disputes]. unfold pieces_text. cbn [map concat piece_text]. fold (pieces_text ol tl (ps ++ rest)). rewrite pieces_text_app, disputes_app, <- !app_assoc. do 2 f_equal. lia.
    + apply merged_same; [lia|done|done|]. rewrite <- Hs. by apply Hm.
Qed.
End Write.

(* ------------------------------------------------------------------ *)
(** ** The merge of three texts *)

(** A text of whole lines: empty, or with a newline at its end. *)
Definition whole_lines (text : list Z) : Prop := match last text with Some c => c = 10 | None => True end.

Lemma whole_no_missing text : text_ok text -> whole_lines text -> xf_missing_newline (bgit_xdiff_load text) = false.
Proof.
  intros Ht Hw. unfold bgit_xdiff_load. rewrite bool_decide_false by done. cbn. unfold whole_lines in Hw. destruct (last text); [by rewrite Hw|done].
Qed.

(* ------------------------------------------------------------------ *)
(** ** A side that did not change *)

Lemma changes_loop_clear old new ca cb fuel : tracked (xf_n old) ca -> tracked (xf_n new) cb ->
  clear ca (count_up 0 (xf_n old)) -> clear cb (count_up 0 (xf_n new)) -> forall i j, 0 <= i -> 0 <= j ->
  changes_loop fuel ca cb (xf_n old) (xf_n new) i j = Ret [].
Proof.
  intros Ta Tb Ca Cb. assert (Hin : forall c n k, tracked n c -> clear c (count_up 0 n) -> 0 <= k -> changed_in c n k = Ret false).
  { intros c n k Ht Hc Hk. rewrite (changed_in_ok c n k Ht Hk). do 2 f_equal. apply negb_false_iff, Z.eqb_eq. destruct (Z_lt_dec k n).
    - unfold clear in Hc. rewrite Forall_forall in Hc. apply Hc. apply list_elem_of_fmap. exists (Z.to_nat k). split; [lia|]. apply elem_of_seq. lia.
    - destruct Ht as (_ & _ & _ & Ht). apply Ht. lia. }
  induction fuel as [|fuel IH]; intros i j Hi Hj; cbn [changes_loop]; [done|]. case_if; [|done].
  rewrite (Hin ca), (Hin cb) by done. cbn [obind negb]. apply IH; lia.
Qed.

Lemma count_changed_clear c n : clear c (count_up 0 n) -> count_changed c n = 0.
Proof.
  intros Hc. unfold count_changed. induction Hc as [|i l Hi _ IH]; [done|]. by rewrite filter_cons_False by (intros Hn; by apply Hn).
Qed.

(** A file does not differ from itself. *)
Lemma same_file_runs `{Qsort} f runs : wf_file f -> refs_overflow (xf_n f) (xf_n f) = false -> compared f f runs -> runs = [].
Proof.
  intros Hw Hov (r & E1 & E2). unfold bgit_xdiff_opts, bgit_xdiff_full in E1.
  destruct (changed_lines_ok f f BGIT_XDIFF_INDENT_HEURISTIC) as (ca & cb & E & _ & _ & Ta & Tb & _ & Hs).
  - split; [done|]. split; [done|]. right. by split; vm_compute.
  - done.
  - destruct Hs as [Ca Cb]; [unfold same_keys; by vm_compute|]. rewrite E in E1. cbn [obind] in E1. change (0 <? 0) with false in E1. cbn iota in E1.
    rewrite !count_changed_clear in E1 by done. cbn in E1. injection E1 as <-. cbn in E2. unfold bgit_xdiff_changes in E2.
    rewrite (changes_loop_clear f f) in E2 by done. by injection E2.
Qed.

(** The lines of a text of whole lines are the text. *)
Lemma lines_all_text rest : forall i start line, match last rest with Some c => c = 10 | None => line = [] end ->
  lines_text (map snd (lines_all rest i start line)) = line ++ rest.
Proof.
  induction rest as [|c rest IH]; intros i start line Hl; cbn [lines_all].
  - cbn in Hl. subst line. done.
  - destruct (Z.eqb_spec c 10) as [->|Hc].
    + cbn [map snd]. change (lines_text (?x :: ?r)) with ((x ++ [10]) ++ lines_text r). rewrite IH; [by rewrite <- app_assoc|].
      destruct rest as [|d rest]; [done|]. change (last (10 :: d :: rest)) with (last (d :: rest)) in Hl.
      destruct (last (d :: rest)) eqn:E; [done|by apply last_None in E].
    + rewrite IH; [by rewrite <- app_assoc|]. destruct rest as [|d rest]; [cbn in Hl; congruence|].
      change (last (c :: d :: rest)) with (last (d :: rest)) in Hl. destruct (last (d :: rest)) eqn:E; [done|by apply last_None in E].
Qed.

Lemma load_lines_text text : text_ok text -> whole_lines text -> lines_text (xf_lines (bgit_xdiff_load text)) = text.
Proof.
  intros Ht Hw. destruct (load_text text Ht) as (_ & _ & _ & _ & ->). rewrite lines_all_text; [done|]. unfold whole_lines in Hw. by destruct (last text).
Qed.

Lemma settled_text ol tl ps : disputes ps = 0 -> pieces_text ol tl ps = lines_text (our_side ps) /\ our_side ps = their_side ps.
Proof.
  assert (Hn : forall ps, 0 <= disputes ps) by (clear; induction ps as [|[l|o t] ps IH]; cbn [disputes]; lia).
  induction ps as [|[l|o t] ps IH]; cbn [disputes]; [done| |intros; specialize (Hn ps); lia].
  intros Hd. destruct (IH Hd) as [IH1 IH2]. unfold pieces_text, our_side, their_side in *. cbn [map concat piece_text]. rewrite lines_text_app, IH1. split; [done|]. by rewrite IH2.
Qed.

Section Sides.
Context (base ours theirs : bgit_xdiff_file) (ra rb : list bgit_xdiff_change).
Hypothesis Ha : edits base ours 0 0 ra.
Hypothesis Hb : edits base theirs 0 0 rb.

Lemma run_bounds old new runs c : edits old new 0 0 runs -> c ∈ runs -> 0 <= ch_old_start c <= old_end c /\ 0 <= ch_new_start c <= new_end c.
Proof.
  intros He Hc. apply list_elem_of_lookup in Hc as [k Ek]. destruct (edits_at _ _ k runs 0 0 c He Ek) as (? & ? & ? & ? & _).
  unfold old_end, new_end. lia.
Qed.

Lemma merged_bounds i p q ps : merged base ours theirs ra rb i p q ps -> p <= xf_n ours /\ q <= xf_n theirs.
Proof.
  induction 1 as [|i p q n ps Hn _ _ _ IH|q c ps Hc _ _ _ IH|p c ps Hc _ _ _ IH|i p q i' p' q' ps _ Hp Hq _ _ _ IH|i p q i' p' q' qs ps _ Hp Hq _ _ _ _ IH]; try lia.
  - pose proof (run_bounds _ _ _ _ Ha Hc). unfold old_end in *. lia.
  - pose proof (run_bounds _ _ _ _ Hb Hc). unfold old_end in *. lia.
Qed.

(** Where nothing is taken from them alone, our side reads as it was. *)
Lemma merged_our_side i p q ps : (forall c, c ∈ rb -> ~ clear_of ra c) -> merged base ours theirs ra rb i p q ps -> 0 <= p ->
  our_side ps = lines_between ours p (xf_n ours).
Proof.
  intros Hno Hm. unfold our_side. induction Hm as [|i p q n ps Hn E1 E2 Hm IH|q c ps Hc Hcl E Hm IH|p c ps Hc Hcl E Hm IH|i p q i' p' q' ps Hi Hp Hq T E Hm IH|i p q i' p' q' qs ps Hi Hp Hq T E1 E2 Hm IH]; intros Hp0.
  - by rewrite lines_between_none by lia.
  - cbn [map concat]. rewrite IH, <- E1 by lia. destruct (merged_bounds _ _ _ _ Hm). by rewrite <- lines_between_split by lia.
  - cbn [map concat]. pose proof (run_bounds _ _ _ _ Ha Hc). rewrite IH by lia. destruct (merged_bounds _ _ _ _ Hm). by rewrite <- lines_between_split by lia.
  - exfalso. by eapply Hno.
  - cbn [map concat]. rewrite IH by lia. destruct (merged_bounds _ _ _ _ Hm). by rewrite <- lines_between_split by lia.
  - rewrite map_app, concat_app, IH by lia. unfold our_side in E1. rewrite E1. destruct (merged_bounds _ _ _ _ Hm). by rewrite <- lines_between_split by lia.
Qed.

Lemma merged_their_side i p q ps : (forall c, c ∈ ra -> ~ clear_of rb c) -> merged base ours theirs ra rb i p q ps -> 0 <= q ->
  their_side ps = lines_between theirs q (xf_n theirs).
Proof.
  intros Hno Hm. unfold their_side. induction Hm as [|i p q n ps Hn E1 E2 Hm IH|q c ps Hc Hcl E Hm IH|p c ps Hc Hcl E Hm IH|i p q i' p' q' ps Hi Hp Hq T E Hm IH|i p q i' p' q' qs ps Hi Hp Hq T E1 E2 Hm IH]; intros Hp0.
  - by rewrite lines_between_none by lia.
  - cbn [map concat]. rewrite IH, <- E2 by lia. destruct (merged_bounds _ _ _ _ Hm). by rewrite <- lines_between_split by lia.
  - exfalso. by eapply Hno.
  - cbn [map concat]. pose proof (run_bounds _ _ _ _ Hb Hc). rewrite IH by lia. destruct (merged_bounds _ _ _ _ Hm). by rewrite <- lines_between_split by lia.
  - cbn [map concat]. rewrite IH, E by lia. destruct (merged_bounds _ _ _ _ Hm). by rewrite <- lines_between_split by lia.
  - rewrite map_app, concat_app, IH by lia. unfold their_side in E2. rewrite E2. destruct (merged_bounds _ _ _ _ Hm). by rewrite <- lines_between_split by lia.
Qed.

Lemma merged_no_dispute i p q ps : ra = [] \/ rb = [] -> merged base ours theirs ra rb i p q ps -> disputes ps = 0.
Proof.
  intros Hor. induction 1 as [| |? ? ? ? ? ? ? IH|? ? ? ? ? ? ? IH| |? ? ? ? ? ? ? ? ? ? ? T]; try done.
  destruct T as (a & b & Ha' & Hb' & _). destruct Hor as [E|E]; [rewrite E in Ha'; by apply elem_of_nil in Ha'|rewrite E in Hb'; by apply elem_of_nil in Hb'].
Qed.
End Sides.

Lemma lines_equal_self f n : forall i b, lines_equal_loop n f i f i = Ret b -> b = true.
Proof.
  induction n as [|n IH]; intros i b; cbn [lines_equal_loop]; [congruence|]. destruct (line_at f i) as [l| |]; try done. cbn [obind].
  rewrite Z.eqb_refl. unfold beq. rewrite bool_decide_true by done. apply IH.
Qed.

(** When both sides are one file, every region is taken from either. *)
Lemma same_sides_regions base ours ra room : edits base ours 0 0 ra -> apart ra -> forall (a : nat) rs,
  regions_loop room ours ours ra ra (Z.of_nat a) (Z.of_nat a) = Ret rs -> Forall (fun r => kind r = BGIT_TAKE_EITHER) rs.
Proof.
  intros He Ha. induction room as [|room IH]; intros a rs; cbn [regions_loop]; [done|].
  destruct (Z.of_nat a <? len ra) eqn:Ea; cbn [orb]; [|by intros [= <-]]. simpl_bool.
  destruct (lookup_lt_is_Some_2 ra a) as [c Ec]; [unfold len in Ea; lia|]. pose proof (edits_counts _ _ _ _ _ He) as Hc. rewrite Forall_forall in Hc.
  destruct (Hc c (in_runs ra a c Ec)) as (Hc1 & _). unfold only_ours, only_theirs. replace (Z.of_nat a =? len ra) with false by (symmetry; solve_false).
  replace (Z.of_nat a <? len ra) with true by (symmetry; solve_true). rewrite (run_at_nat ra a c Ec). cbn [obind].
  replace (ch_old_start c + ch_old_count c <? ch_old_start c) with false by (symmetry; solve_false).
  assert (Habs : absorb_loop (S (length ra + length ra)) ra ra (Z.of_nat a) (Z.of_nat a) = Ret (Z.of_nat a, Z.of_nat a)).
  { cbn [absorb_loop]. rewrite (run_at_nat ra a c Ec). cbn [obind]. replace (Z.of_nat a + 1) with (Z.of_nat (S a)) by lia.
    assert (Hm : (if Z.of_nat (S a) <? len ra then let* d := run_at ra (Z.of_nat (S a)) in Ret (ch_old_start d <=? ch_old_start c + ch_old_count c) else Ret false) = Ret false).
    { destruct (Z.ltb_spec (Z.of_nat (S a)) (len ra)); [|done]. destruct (lookup_lt_is_Some_2 ra (S a)) as [d Ed]; [unfold len in *; lia|].
      rewrite (run_at_nat ra (S a) d Ed). cbn [obind]. destruct (runs_later _ _ a 0 0 c ra He Ha Ec) as [L _]. rewrite (drop_S ra d (S a) Ed) in L.
      apply Forall_cons in L as [L _]. unfold old_end in L. do 2 f_equal. solve_false. }
    rewrite Hm. done. }
  rewrite Habs. cbn [obind]. intros H. apply obind_Ret_inv in H as (r & Hr & H). apply obind_Ret_inv in H as (rest & Hrest & H). injection H as <-.
  replace (Z.of_nat a + 1) with (Z.of_nat (S a)) in Hrest by lia. constructor; [|by eapply IH].
  unfold both_region in Hr. rewrite (run_at_nat ra a c Ec) in Hr. cbn [obind] in Hr. apply obind_Ret_inv in Hr as (d & Hd & Hr). rewrite Hd in Hr. cbn [obind] in Hr.
  apply obind_Ret_inv in Hr as (same & Hs & Hr). injection Hr as <-. cbn [kind]. replace same with true; [done|].
  unfold bgit_lines_equal in Hs. rewrite Z.eqb_refl in Hs. cbn [negb] in Hs. symmetry. by eapply lines_equal_self.
Qed.

Lemma simplify_none rs : Forall (fun r => kind r = BGIT_TAKE_EITHER) rs -> bgit_simplify_conflicts rs = rs.
Proof.
  destruct rs as [|r rs]; [done|]. intros Hf. cbn [bgit_simplify_conflicts]. apply Forall_cons in Hf as [Hr Hf].
  revert r Hr. induction Hf as [|r' rs Hr' _ IH]; intros r Hr; cbn [simplify_loop]; [done|].
  rewrite (bool_decide_false (kind r = _)) by congruence. cbn [andb]. f_equal. by apply IH.
Qed.

Lemma written_loop_either `{Qsort} rs base ours theirs ol tl : Forall (fun r => kind r = BGIT_TAKE_EITHER) rs ->
  forall text conflicts at_ t c, written_loop rs text conflicts base ours theirs ol tl at_ = Ret (t, c) -> c = conflicts.
Proof.
  induction 1 as [|r rs Hr _ IH]; intros text conflicts at_ t c; cbn [written_loop]; intros Hw; apply obind_Ret_inv in Hw as (x & _ & Hw).
  - by injection Hw.
  - rewrite Hr in Hw. apply obind_Ret_inv in Hw as ([t1 c1] & Hx & Hw). apply obind_Ret_inv in Hx as (y & _ & Hx). injection Hx as <- <-. by eapply IH.
Qed.

(* ------------------------------------------------------------------ *)
(** ** What merging promises *)

(** The texts a merge is shown to be right for. *)
Definition mergeable (base_text our_text their_text : list Z) : Prop :=
  let n t := xf_n (bgit_xdiff_load t) in
  Forall text_ok [base_text; our_text; their_text] /\ Forall whole_lines [base_text; our_text; their_text] /\
  refs_overflow (n base_text) (n our_text) = false /\ refs_overflow (n base_text) (n their_text) = false /\
  refs_overflow (n our_text) (n their_text) = false.

(** The regions, and what is written of them. *)
Lemma merge_steps `{Qsort} base_text our_text their_text ol tl : mergeable base_text our_text their_text ->
  let base := bgit_xdiff_load base_text in
  let ours := bgit_xdiff_load our_text in
  let theirs := bgit_xdiff_load their_text in
  exists ra rb ps, compared base ours ra /\ compared base theirs rb /\ edits base ours 0 0 ra /\ edits base theirs 0 0 rb /\
    merged base ours theirs ra rb 0 0 0 ps /\
    bgit_merge_content base_text our_text their_text ol tl = Ret (Some (pieces_text ol tl ps, disputes ps)) /\
    (our_text = their_text -> ra = rb /\ disputes ps = 0).
Proof.
  intros (Ht & Hw & O1 & O2 & O3) base ours theirs. rewrite !Forall_cons in Ht, Hw. destruct Ht as (Tb & To & Tt & _), Hw as (Wb & Wo & Wt & _).
  unfold bgit_merge_content. fold base ours theirs.
  destruct (opts_runs base ours) as (od & ra & Eod & Era & Ha & Aa); [apply load_wf..|done|].
  destruct (opts_runs base theirs) as (td & rb & Etd & Erb & Hb & Ab); [apply load_wf..|done|].
  rewrite Eod, Etd. cbn [obind]. rewrite Era, Erb. cbn [obind].
  destruct (regions_loop_ok base ours theirs ra rb Ha Hb Aa Ab (S (length ra + length rb)) 0 0 0) as (rs & E & Hl).
  { unfold reached. destruct (edits_bounds _ _ _ _ _ Ha). split_and!; first [lia | by eapply around_start]. }
  { lia. }
  change (Z.of_nat 0) with 0 in E. rewrite E. cbn [obind]. apply simplify_conflicts_laid in Hl.
  destruct (written_loop_ok base ours theirs ra rb ol tl) with (rs := bgit_simplify_conflicts rs) (text := @nil Z) (conflicts := 0) (i := 0) (p := 0) (q := 0)
    as (ps & Ew & Hm); try by apply whole_no_missing. 1-2: apply load_wf. 1: done. 1: exact Hl.
  exists ra, rb, ps. split; [by exists od|]. split; [by exists td|]. do 3 (split; [done|]). rewrite Ew. cbn [obind]. split; [done|]. intros Es.
  assert (Et : theirs = ours) by (unfold theirs, ours; by rewrite Es). assert (Er : ra = rb).
  { rewrite Et in Etd, Erb. rewrite Eod in Etd. injection Etd as <-. rewrite Era in Erb. by injection Erb. }
  split; [done|]. rewrite <- Er, Et in E. apply (same_sides_regions base ours ra _ Ha Aa 0) in E. rewrite simplify_none in Ew by done.
  by eapply written_loop_either in Ew.
Qed.


(** A side that did not change takes no part in a merge: when
    theirs is the base the result is ours, when ours is the base it is theirs,
    and when both sides are the same it is that, with no conflict. *)
Theorem merge_unchanged_side `{Qsort} base_text our_text their_text our_label their_label : mergeable base_text our_text their_text ->
  let merge := bgit_merge_content base_text our_text their_text our_label their_label in
  (their_text = base_text \/ their_text = our_text -> merge = Ret (Some (our_text, 0))) /\
  (our_text = base_text -> merge = Ret (Some (their_text, 0))).
Proof.
  intros Hmg merge. destruct (merge_steps base_text our_text their_text our_label their_label Hmg) as (ra & rb & ps & C1 & C2 & Ha & Hb & Hm & E & Hs).
  destruct Hmg as (Ht & Hw & O1 & O2 & O3). rewrite !Forall_cons in Ht, Hw. destruct Ht as (Tb & To & Tt & _), Hw as (Wb & Wo & Wt & _).
  unfold merge. rewrite E. clear E. assert (Hself : forall c runs, c ∈ runs -> edits (bgit_xdiff_load base_text) (bgit_xdiff_load our_text) 0 0 runs -> ~ clear_of runs c).
  { intros c runs Hc He Hcl. unfold clear_of in Hcl. rewrite Forall_forall in Hcl. pose proof (run_bounds _ _ _ _ He Hc). destruct (Hcl c Hc); lia. }
  split.
  - intros Hcase. assert (Hd : disputes ps = 0 /\ forall c, c ∈ rb -> ~ clear_of ra c).
    { destruct Hcase as [->|Eo].
      - apply same_file_runs in C2 as ->; [|apply load_wf|done]. split; [eapply merged_no_dispute; [|exact Hm]; by right|]. intros c Hc. by apply elem_of_nil in Hc.
      - destruct Hs as [-> Hd]; [done|]. split; [done|]. intros c Hc. apply Hself; done. }
    destruct Hd as [Hd Hno]. destruct (settled_text our_label their_label ps Hd) as [-> _]. rewrite Hd.
    rewrite (merged_our_side _ _ _ _ _ Ha Hb 0 0 0 ps Hno Hm) by lia. by rewrite lines_between_all, load_lines_text.
  - intros ->. apply same_file_runs in C1 as ->; [|apply load_wf|done]. assert (Hd : disputes ps = 0) by (eapply merged_no_dispute; [|exact Hm]; by left).
    destruct (settled_text our_label their_label ps Hd) as [-> ->]. rewrite Hd.
    rewrite (merged_their_side _ _ _ _ _ Ha Hb 0 0 0 ps) by (done || lia || (intros c Hc; by apply elem_of_nil in Hc)).
    by rewrite lines_between_all, load_lines_text.
Qed.

(* ------------------------------------------------------------------ *)
(** ** Witnesses *)

(** One line for each character. *)
Definition column (s : string) : list Z := concat (map (fun c => [c; 10]) (str s)).

Ltac solve_mergeable :=
  split; [rewrite !Forall_cons, Forall_nil; split_and!; try exact I; apply text_check; vm_compute; reflexivity|];
  split; [rewrite !Forall_cons, Forall_nil; split_and!; vm_compute; reflexivity || exact I|];
  split_and!; vm_compute; reflexivity.


Theorem merge_unchanged_side_witness :
  mergeable (column "a12") (column "b12c") (column "a12") /\
  let merge := bgit_merge_content (column "a12") (column "b12c") (column "a12") (str "ours") (str "theirs") in
  (column "a12" = column "a12" \/ column "a12" = column "b12c" -> merge = Ret (Some (column "b12c", 0))) /\
  (column "b12c" = column "a12" -> merge = Ret (Some (column "a12", 0))).
Proof.
  assert (Hm : mergeable (column "a12") (column "b12c") (column "a12")) by solve_mergeable.
  split; [exact Hm|]. exact (merge_unchanged_side (column "a12") (column "b12c") (column "a12") (str "ours") (str "theirs") Hm).
Defined.

(** What is changed on one side, on the other, alike on both and differently. *)
Example merge_shown :
  bgit_merge_content (column "a12345b67") (column "c12345d67") (column "a12345e678") (str "A") (str "B") =
    Ret (Some (column "c12345" ++ str "<<<<<<< A" ++ [10] ++ column "d" ++ str "=======" ++ [10] ++ column "e" ++ str ">>>>>>> B" ++ [10] ++ column "678", 1)).
Proof. vm_compute. reflexivity. Qed.

(* ------------------------------------------------------------------ *)
(** ** Cases that go wrong *)

(** Lines added below a last line without a newline run into it: the base's
    last line is written as the base had it. *)
Example merge_joins_lines :
  bgit_merge_content (column "x1234" ++ str "a") (column "x1234ab") (column "y1234" ++ str "a") (str "A") (str "B") =
    Ret (Some (column "y1234" ++ str "ab" ++ [10], 0)).
Proof. vm_compute. reflexivity. Qed.

(** The markers of a conflict run into a last line without a newline. *)
Example merge_joins_markers :
  bgit_merge_content (str "x") (str "z") (str "y") (str "A") (str "B") =
    Ret (Some (str "<<<<<<< A" ++ [10] ++ str "z=======" ++ [10] ++ str "y>>>>>>> B" ++ [10], 1)).
Proof. vm_compute. reflexivity. Qed.

(** A binary file changed on both sides merges to an empty file, without a
    conflict: it has no lines, so none of them differ. *)
Example merge_empties_binary :
  bgit_merge_content [0; 1] [0; 2] [0; 3] (str "A") (str "B") = Ret (Some ([], 0)).
Proof. vm_compute. reflexivity. Qed.
