(* ===== verification/Commit.v ===== *)
(** * The headers of commits and tags (revision.c, merge.c)

    Reading a commit's parents, tree and date and a tag's target out of the
    object's text, and following tags to an object of a wanted type.  Objects
    come from a store, of which only reading is asked here. *)

From stdpp Require Import list.
From S2P Require Import Prelude CLib Odb.

#[local] Open Scope Z_scope.

(* ------------------------------------------------------------------ *)
(** ** Reading objects *)

(** What these functions ask of an object store: the object of an id.  They
    read a store that does not change under them. *)
Class Objects := { bgit_odb_read : list Z -> option (bgit_type * list Z) }.

Definition odb_read `{Objects} (sha : list Z) : outcome (bgit_type * list Z) :=
  match bgit_odb_read (c_text sha) with Some o => Ret o | None => failed end.

(* ------------------------------------------------------------------ *)
(** ** The lines of a header *)

(** The text from each header line on, and the line. *)
Fixpoint header_lines (fuel : nat) (p : list Z) : list (list Z * list Z) :=
  match fuel with
  | O => []
  | S fuel' =>
      if len p =? 0 then []
      else
        let nl := find_byte 10 p in
        let line := match nl with Some k => take k p | None => p end in
        if len line =? 0 then []
        else (p, line) :: match nl with Some k => header_lines fuel' (drop (S k) p) | None => [] end
  end.

Definition header_of (data : list Z) : list (list Z * list Z) := header_lines (S (length data)) data.

(* ------------------------------------------------------------------ *)
(** ** Commits *)

Definition BGIT_MAX_PARENTS : Z := 16.

(** An id longer than 40 bytes is cut; of a shorter one the rest of the array
    is not written. *)
Definition parent_line (max : Z) (parents : list (list Z)) (line : list Z) : list (list Z) :=
  if (len line >? 7) && starts (str "parent ") line && (len parents <? max) then parents ++ [take 40 (drop 7 line)] else parents.

Definition bgit_commit_parents `{Objects} (sha : list Z) (max : Z) : outcome (list (list Z)) :=
  let* o := odb_read sha in
  let '(type, data) := o in
  if negb (bool_decide (type = BGIT_COMMIT)) then failed
  else Ret (foldl (parent_line max) [] (map snd (header_of data))).

(** The id is copied without asking whether there are forty bytes of it. *)
Definition bgit_commit_tree `{Objects} (sha : list Z) : outcome (list Z) :=
  let* o := odb_read sha in
  let '(type, data) := o in
  if negb (bool_decide (type = BGIT_COMMIT)) then failed
  else if (len data >? 5) && starts (str "tree ") data then rdn data 5 40
  else failed.

(** [strtoll] on what is left of a buffer that has no terminator: it reads up
    to the first byte that is no part of a number. *)
Definition strtoll (window : list Z) : outcome Z :=
  let '(_, _, rest, _) := scan_number 10 window in
  if len rest =? 0 then Fault
  else let '(v, _, _) := strtol 10 window in Ret v.

Fixpoint date_loop (lines : list (list Z * list Z)) : outcome Z :=
  match lines with
  | [] => Ret 0
  | (p, line) :: lines' =>
      if (len line >? 10) && starts (str "committer ") line then
        match find_byte 62 line with
        | Some close => strtoll (drop (S close) p)
        | None => Ret 0
        end
      else date_loop lines'
  end.

Definition bgit_commit_date `{Objects} (sha : list Z) : outcome Z :=
  match bgit_odb_read (c_text sha) with
  | None => Ret 0
  | Some (_, data) => date_loop (header_of data)
  end.

(* ------------------------------------------------------------------ *)
(** ** Tags *)

Definition tag_line (found : list Z * list Z) (line : list Z) : list Z * list Z :=
  let '(object, kind) := found in
  if (len line >? 7) && starts (str "object ") line && (len line - 7 >=? 40) then (take 40 (drop 7 line), kind)
  else if (len line >? 5) && starts (str "type ") line then (object, take 31 (drop 5 line))
  else found.

Definition bgit_tag_target `{Objects} (sha : list Z) : outcome (list Z * bgit_type) :=
  let* o := odb_read sha in
  let '(type, data) := o in
  if negb (bool_decide (type = BGIT_TAG)) then failed
  else
    let '(object, kind) := foldl tag_line ([], []) (map snd (header_of data)) in
    match c_text object with
    | [] => failed
    | _ :: _ =>
        let kind := c_text kind in
        Ret (object, if beq kind (str "commit") then BGIT_COMMIT
                     else if beq kind (str "tree") then BGIT_TREE
                     else if beq kind (str "blob") then BGIT_BLOB
                     else if beq kind (str "tag") then BGIT_TAG else BGIT_UNKNOWN)
    end.

Definition bgit_object_type `{Objects} (sha : list Z) : outcome bgit_type :=
  let* o := odb_read sha in Ret (fst o).

Fixpoint peel_loop `{Objects} (steps : nat) (current : list Z) (want : bgit_type) : outcome (list Z) :=
  match steps with
  | O => failed
  | S steps' =>
      let* type := bgit_object_type current in
      if bool_decide (want = BGIT_UNKNOWN) then
        if negb (bool_decide (type = BGIT_TAG)) then Ret current
        else let* t := bgit_tag_target current in Ret (fst t)
      else if bool_decide (type = want) then Ret current
      else if bool_decide (type = BGIT_TAG) then
        let* t := bgit_tag_target current in peel_loop steps' (fst t) want
      else if bool_decide (type = BGIT_COMMIT) && bool_decide (want = BGIT_TREE) then bgit_commit_tree current
      else failed
  end.

Definition bgit_peel_to_type `{Objects} (sha : list Z) (want : bgit_type) : outcome (list Z) := peel_loop 16 sha want.

(* ------------------------------------------------------------------ *)
(** ** Headers as they are written *)

Definition header_line (l : list Z) : Prop := l <> [] /\ Forall (fun c => c <> 10) l.

Definition join_lines (lines : list (list Z)) : list Z := concat (map (fun l => l ++ [10]) lines).

Lemma join_lines_cons l lines : join_lines (l :: lines) = l ++ 10 :: join_lines lines.
Proof. unfold join_lines. cbn [map concat]. by rewrite <- app_assoc. Qed.

Lemma join_lines_app a b : join_lines (a ++ b) = join_lines a ++ join_lines b.
Proof. unfold join_lines. by rewrite map_app, concat_app. Qed.

(** The header ends at an empty line: each line before it is found, with the
    text from it on. *)
Fixpoint suffixes (lines : list (list Z)) (tail : list Z) : list (list Z * list Z) :=
  match lines with
  | [] => []
  | l :: lines' => (join_lines (l :: lines') ++ tail, l) :: suffixes lines' tail
  end.

Lemma header_lines_text lines message : Forall header_line lines -> forall fuel, (length lines < fuel)%nat ->
  header_lines fuel (join_lines lines ++ 10 :: message) = suffixes lines (10 :: message).
Proof.
  induction 1 as [|l lines [Hne Hl] _ IH]; intros [|fuel] Hf; cbn [length] in *; try lia.
  { unfold join_lines. cbn. by case_if. }
  cbn [header_lines suffixes]. rewrite join_lines_cons, <- app_assoc. cbn [app].
  rewrite (find_byte_app 10 l) by done.
  assert (Hpos : len l <> 0) by (destruct l; [done|]; rewrite len_cons; pose proof (len_nonneg l); lia).
  cbn iota. rewrite take_app_length, drop_app_S, IH by lia. replace (len l =? 0) with false by (symmetry; solve_false).
  rewrite len_app, len_cons. pose proof (len_nonneg l). pose proof (len_nonneg (join_lines lines ++ 10 :: message)). by if_false.
Qed.

Lemma length_join_lines lines : (length lines <= length (join_lines lines))%nat.
Proof. induction lines as [|l lines IH]; [done|]. rewrite join_lines_cons, length_app. cbn. lia. Qed.

Lemma header_of_text lines message : Forall header_line lines -> header_of (join_lines lines ++ 10 :: message) = suffixes lines (10 :: message).
Proof.
  intros Hl. apply header_lines_text; [done|]. rewrite length_app. pose proof (length_join_lines lines). lia.
Qed.

Lemma suffixes_lines lines tail : map snd (suffixes lines tail) = lines.
Proof. induction lines as [|l lines IH]; [done|]. cbn. by rewrite IH. Qed.

(** A commit as git writes it. *)
Record commit := {
  cm_tree : list Z;
  cm_parents : list (list Z);
  cm_author : list Z;          (* the author line after "author " *)
  cm_committer : list Z;       (* name and mail, up to the closing bracket *)
  cm_date : Z;
  cm_zone : list Z;
  cm_extra : list (list Z);    (* encoding, signature and the like *)
  cm_message : list Z }.

Definition commit_lines (c : commit) : list (list Z) :=
  [str "tree " ++ cm_tree c] ++ map (app (str "parent ")) (cm_parents c) ++
  [str "author " ++ cm_author c; str "committer " ++ cm_committer c ++ [62; 32] ++ print_dec (cm_date c) ++ [32] ++ cm_zone c] ++ cm_extra c.

Definition commit_text (c : commit) : list Z := join_lines (commit_lines c) ++ 10 :: cm_message c.

Definition one_line (l : list Z) : Prop := Forall (fun c => c <> 10) l.
Definition an_id (l : list Z) : Prop := len l = 40 /\ one_line l.

Definition wf_commit (c : commit) : Prop :=
  an_id (cm_tree c) /\ Forall an_id (cm_parents c) /\ one_line (cm_author c) /\
  one_line (cm_committer c) /\ Forall (fun b => b <> 62) (cm_committer c) /\ 0 <= cm_date c <= LONG_MAX /\ one_line (cm_zone c) /\
  Forall (fun l => header_line l /\ starts (str "parent ") l = false) (cm_extra c).

(* ------------------------------------------------------------------ *)
(** ** What is read back *)

Lemma one_line_app a b : one_line (a ++ b) <-> one_line a /\ one_line b.
Proof. apply Forall_app. Qed.

Lemma one_line_check l : forallb (fun c => negb (c =? 10)) l = true -> one_line l.
Proof. intros H. apply Forall_forall. intros c Hc. rewrite forallb_forall in H. apply list_elem_of_In in Hc. specialize (H c Hc). by simpl_bool. Qed.

Lemma digits_one_line n : 0 <= n -> one_line (print_dec n).
Proof.
  intros Hn. destruct (print_dec_form n Hn) as [Hd _]. eapply Forall_impl; [exact Hd|]. intros c Hc. unfold is_digit in Hc. simpl_bool. lia.
Qed.

Lemma commit_lines_ok c : wf_commit c -> Forall header_line (commit_lines c).
Proof.
  intros ([Lt Ht] & Hp & Ha & Hc & _ & Hd & Hz & He). unfold commit_lines. rewrite !Forall_app, !Forall_cons. split_and!; try constructor; try done.
  - apply one_line_app. split; [by apply one_line_check|done].
  - apply Forall_map. eapply Forall_impl; [exact Hp|]. intros p [_ Hp']. split; [done|]. apply one_line_app. split; [by apply one_line_check|done].
  - apply one_line_app. split; [by apply one_line_check|done].
  - rewrite !one_line_app. split_and!; try done; try by apply one_line_check. apply digits_one_line. lia.
  - eapply Forall_impl; [exact He|]. by intros l [? _].
Qed.

Lemma parent_lines_none max lines : Forall (fun l => starts (str "parent ") l = false) lines -> forall acc, foldl (parent_line max) acc lines = acc.
Proof.
  induction 1 as [|l lines Hl _ IH]; intros acc; [done|]. cbn [foldl]. assert (Hs : parent_line max acc l = acc) by (unfold parent_line; by rewrite Hl, andb_false_r). rewrite Hs. apply IH.
Qed.

Lemma parent_lines_ok max parents : Forall an_id parents -> forall acc, len acc <= max ->
  foldl (parent_line max) acc (map (app (str "parent ")) parents) = acc ++ take (Z.to_nat (max - len acc)) parents.
Proof.
  induction 1 as [|p parents [Lp _] _ IH]; intros acc Hm; cbn [map foldl]; [by rewrite take_nil, app_nil_r|].
  assert (Hstep : parent_line max acc (str "parent " ++ p) = if len acc <? max then acc ++ [p] else acc).
  { unfold parent_line. rewrite starts_app, len_app, Lp. change (len (str "parent ") + 40 >? 7) with true. cbn [andb].
    rewrite drop_app_length' by done. by rewrite take_ge by (unfold len in Lp; lia). }
  rewrite Hstep.
  destruct (Z.ltb_spec (len acc) max).
  - rewrite IH by (rewrite len_app, len_cons, len_nil; lia). rewrite <- app_assoc, len_app, len_cons, len_nil. cbn [app].
    f_equal. replace (Z.to_nat (max - len acc)) with (S (Z.to_nat (max - (len acc + (1 + 0))))) by lia. done.
  - rewrite IH by lia. replace (Z.to_nat (max - len acc)) with 0%nat by lia. done.
Qed.

Lemma scan_digits_form l v acc any tail : Forall (fun c => is_digit c = true) l -> match tail with c :: _ => is_digit c = false | [] => True end ->
  dec_val l acc = v -> l <> [] -> scan_digits 10 (l ++ tail) acc any = (v, tail, true).
Proof.
  intros Hl Ht. revert acc any. induction Hl as [|c l Hc Hl IH]; intros acc any Hv Hne; [done|]. cbn [app scan_digits]. unfold is_digit in Hc. simpl_bool. if_true.
  destruct l as [|d l].
  - cbn in Hv |- *. destruct tail as [|x tail]; cbn [scan_digits]; [by rewrite Hv|]. unfold is_digit in Ht.
    replace ((48 <=? x) && (x <? 48 + 10)) with false; [by rewrite Hv|]. symmetry. apply andb_false_iff in Ht as [Ht|Ht]; simpl_bool; solve_false.
  - apply IH; done.
Qed.

Lemma strtoll_dec n tail : 0 <= n <= LONG_MAX -> tail <> [] -> match tail with c :: _ => is_digit c = false | [] => True end ->
  strtoll (32 :: print_dec n ++ tail) = Ret n.
Proof.
  intros Hn Hne Ht. destruct (print_dec_form n ltac:(lia)) as (Hd & Hv & Hnn & _).
  assert (Hscan : scan_number 10 (32 :: print_dec n ++ tail) = (false, n, tail, true)).
  { unfold scan_number. change (skip_spaces (32 :: print_dec n ++ tail)) with (skip_spaces (print_dec n ++ tail)).
    destruct (print_dec n) as [|d ds] eqn:E; [done|]. pose proof (Forall_inv Hd) as Hd0. unfold is_digit in Hd0. simpl_bool.
    assert (Hs : isspace d = false) by (unfold isspace; solve_false). cbn [app skip_spaces]. rewrite Hs. if_false. if_false.
    change (d :: ds ++ tail) with ((d :: ds) ++ tail). by rewrite (scan_digits_form (d :: ds) n 0 false tail). }
  unfold strtoll, strtol. rewrite Hscan. assert (Hl : len tail <> 0) by (destruct tail; [done|]; rewrite len_cons; pose proof (len_nonneg tail); lia).
  if_false. cbn [negb]. unfold LONG_MIN, LONG_MAX in *. if_false. by if_false.
Qed.

(** The date is read from the first committer line. *)
Lemma date_loop_ok pre who date zone post tail : Forall (fun l => starts (str "committer ") l = false) pre ->
  Forall (fun b => b <> 62) who -> 0 <= date <= LONG_MAX ->
  date_loop (suffixes (pre ++ (str "committer " ++ who ++ [62; 32] ++ print_dec date ++ [32] ++ zone) :: post) tail) = Ret date.
Proof.
  intros Hpre Hw Hd. induction Hpre as [|l pre Hl _ IH]; cbn [app suffixes date_loop].
  - set (line := str "committer " ++ _). assert (Hst : starts (str "committer ") line = true) by apply starts_app. rewrite Hst.
    assert (Hlen : len line >? 10 = true).
    { assert (Hlt : 10 < len line); [|solve_true]. unfold line. rewrite len_app. change (len (str "committer ")) with 10. rewrite len_app, len_cons. len_lia. }
    rewrite Hlen. cbn [andb].
    assert (Hf : find_byte 62 line = Some (length (str "committer " ++ who))).
    { unfold line. rewrite app_assoc. cbn [app]. apply find_byte_app. apply Forall_app. split; [|done]. repeat constructor; done. }
    rewrite Hf. rewrite join_lines_cons. replace ((line ++ 10 :: join_lines post) ++ tail) with
      ((str "committer " ++ who) ++ 62 :: 32 :: print_dec date ++ 32 :: zone ++ (10 :: join_lines post) ++ tail).
    2:{ unfold line. cbn [app]. rewrite <- !app_assoc. cbn [app]. by rewrite <- !app_assoc. }
    rewrite drop_app_S. by apply strtoll_dec.
  - rewrite Hl, andb_false_r. exact IH.
Qed.

Lemma tree_line_ok tree rest : len tree = 40 -> let data := str "tree " ++ tree ++ rest in
  (if (len data >? 5) && starts (str "tree ") data then rdn data 5 40 else failed) = Ret tree.
Proof.
  intros Ht data. assert (Hl : 45 <= len data).
  { unfold data. rewrite !len_app, Ht. change (len (str "tree ")) with 5. pose proof (len_nonneg rest). lia. }
  assert (Hs : starts (str "tree ") data = true) by apply starts_app. rewrite Hs. if_true. cbn [andb]. rewrite rdn_ok by lia. f_equal.
  unfold data. change (Z.to_nat 5) with (length (str "tree ")). rewrite drop_app_length. apply take_app_length'. unfold len in Ht. lia.
Qed.

(** A line that starts otherwise. *)
Ltac solve_starts := unfold starts, beq; apply bool_decide_false; cbn; intros [=].

(** [C28] (roundtrip) A commit as git writes it is read back: its parents in
    order, as many as there is room for, its tree and its date. *)
Theorem commit_read_exact `{Objects} sha c max : bgit_odb_read (c_text sha) = Some (BGIT_COMMIT, commit_text c) -> wf_commit c -> 0 <= max ->
  bgit_commit_parents sha max = Ret (take (Z.to_nat max) (cm_parents c)) /\
  bgit_commit_tree sha = Ret (cm_tree c) /\ bgit_commit_date sha = Ret (cm_date c).
Proof.
  intros Hr Hwf Hm. pose proof (commit_lines_ok c Hwf) as Hl. destruct Hwf as ([Lt Ht] & Hp & Ha & Hc & Hc62 & Hd & Hz & He).
  assert (Hx : Forall (fun l => starts (str "parent ") l = false) (cm_extra c)) by (eapply Forall_impl; [exact He|]; by intros l [_ ?]).
  unfold bgit_commit_parents, bgit_commit_tree, bgit_commit_date, odb_read. rewrite Hr. cbn [obind fst snd]. rewrite bool_decide_true by done. cbn [negb].
  unfold commit_text. rewrite header_of_text, suffixes_lines by done. split_and!.
  - unfold commit_lines. rewrite !foldl_app.
    rewrite (parent_lines_none max [str "tree " ++ cm_tree c]) by (repeat constructor; solve_starts).
    rewrite parent_lines_ok by (done || (rewrite len_nil; lia)). rewrite len_nil, Z.sub_0_r. cbn [app].
    f_equal. rewrite (parent_lines_none max [_; _]) by (repeat constructor; solve_starts). by apply (parent_lines_none max).
  - unfold commit_lines. cbn [app]. rewrite join_lines_cons, <- !app_assoc. by apply tree_line_ok.
  - assert (E : commit_lines c = ([str "tree " ++ cm_tree c] ++ map (app (str "parent ")) (cm_parents c) ++ [str "author " ++ cm_author c]) ++
      (str "committer " ++ cm_committer c ++ [62; 32] ++ print_dec (cm_date c) ++ [32] ++ cm_zone c) :: cm_extra c).
    { unfold commit_lines. by rewrite <- !app_assoc. }
    rewrite E. apply date_loop_ok; [|done|done]. rewrite !Forall_app. split_and!; [repeat constructor; solve_starts| |repeat constructor; solve_starts].
    apply Forall_map, Forall_forall. intros p _. solve_starts.
Qed.

Definition demo_commit : commit := {|
  cm_tree := replicate 40 97; cm_parents := [replicate 40 98; replicate 40 99]; cm_author := str "A <a@b> 5 +0000"; cm_committer := str "B <b@c";
  cm_date := 1700000000; cm_zone := str "+0200"; cm_extra := [str "encoding x"]; cm_message := str "hi" |}.

Theorem commit_read_exact_witness :
  let objects := {| bgit_odb_read := fun sha => if beq sha (replicate 40 100) then Some (BGIT_COMMIT, commit_text demo_commit) else None |} in
  @bgit_commit_parents objects (replicate 40 100) BGIT_MAX_PARENTS = Ret [replicate 40 98; replicate 40 99] /\
  @bgit_commit_tree objects (replicate 40 100) = Ret (replicate 40 97) /\ @bgit_commit_date objects (replicate 40 100) = Ret 1700000000.
Proof.
  intros objects. apply (@commit_read_exact objects (replicate 40 100) demo_commit BGIT_MAX_PARENTS); [by vm_compute| |by vm_compute].
  unfold wf_commit. split_and!; repeat constructor; vm_compute; congruence.
Defined.

(* ------------------------------------------------------------------ *)
(** ** Peeling *)

(** From [sha] one gets to [out], of type [want], through [n] tags; a tree may
    be the tree of the commit arrived at. *)
Inductive peels `{Objects} (want : bgit_type) : nat -> list Z -> list Z -> Prop :=
| peels_here sha : bgit_object_type sha = Ret want -> peels want 0 sha sha
| peels_tag n sha next kind out : want <> BGIT_TAG -> bgit_object_type sha = Ret BGIT_TAG -> bgit_tag_target sha = Ret (next, kind) ->
    peels want n next out -> peels want (S n) sha out
| peels_tree sha out : want = BGIT_TREE -> bgit_object_type sha = Ret BGIT_COMMIT -> bgit_commit_tree sha = Ret out -> peels want 0 sha out.

Lemma peel_loop_exact `{Objects} want out steps : want <> BGIT_UNKNOWN -> forall sha,
  peel_loop steps sha want = Ret out <-> exists n, (n < steps)%nat /\ peels want n sha out.
Proof.
  intros Hw. induction steps as [|steps IH]; intros sha; cbn [peel_loop]; [split; [done|]; intros (n & ? & _); lia|].
  rewrite (bool_decide_false (want = BGIT_UNKNOWN)) by done. split.
  - intros Hp. apply obind_Ret_inv in Hp as (type & Ht & Hp). case_bool_decide as E1.
    { injection Hp as <-. subst. exists O. split; [lia|]. by constructor. }
    case_bool_decide as E2.
    { subst. apply obind_Ret_inv in Hp as ([next kind] & Hn & Hp). apply IH in Hp as (n & Hn' & Hp). exists (S n). split; [lia|]. eapply peels_tag; solve [eauto | congruence]. }
    case_bool_decide as E3; [|done]. case_bool_decide as E4; [|done]. cbn [andb] in Hp. subst. exists O. split; [lia|]. by apply peels_tree.
  - intros (n & Hn & Hp). inversion Hp as [? Ht|m ? next kind ? Ht1 Ht Hg Hr|? ? Hwt Ht Hc]; subst; rewrite Ht; cbn [obind].
    + by rewrite bool_decide_true.
    + rewrite (bool_decide_false (BGIT_TAG = want)) by congruence. rewrite bool_decide_true by done. rewrite Hg. cbn [obind fst]. apply IH. exists m. split; [lia|done].
    + rewrite (bool_decide_false (BGIT_COMMIT = BGIT_TREE)), (bool_decide_false (BGIT_COMMIT = BGIT_TAG)) by done. by rewrite !bool_decide_true.
Qed.

(** Peeling to a type follows up to fifteen tags, and no more. *)
Theorem peel_exact `{Objects} sha want out : want <> BGIT_UNKNOWN ->
  bgit_peel_to_type sha want = Ret out <-> exists n, (n < 16)%nat /\ peels want n sha out.
Proof. intros Hw. by apply peel_loop_exact. Qed.

(* ------------------------------------------------------------------ *)
(** ** Cases that go wrong *)

(** The tree's id is copied from a commit too short to hold it. *)
Example commit_tree_overread :
  @bgit_commit_tree {| bgit_odb_read := fun _ => Some (BGIT_COMMIT, str "tree a") |} (replicate 40 97) = Fault.
Proof. vm_compute. reflexivity. Qed.

(** The date is read past the end of a commit that ends in it. *)
Example commit_date_overread :
  @bgit_commit_date {| bgit_odb_read := fun _ => Some (BGIT_COMMIT, str "committer A <a> 17") |} (replicate 40 97) = Fault.
Proof. vm_compute. reflexivity. Qed.
