(* ===== verification/Marks.v ===== *)
(** * The marks of a walk through history (merge.c)

    An open-addressed table from commit ids to flags: the table is the array
    of the source, found by probing from the id's hash, and grows when half of
    it is used.  The file shows that for any use of it the table is a map: a
    commit's flags are those last given to it, 0 before. *)

From stdpp Require Import list.
From S2P Require Import Prelude CLib.

#[local] Open Scope Z_scope.

(* ------------------------------------------------------------------ *)
(** ** The table *)

(** A used slot. *)
Record bgit_mark := { mark_sha : list Z; mark_flags : Z; mark_date : Z }.

(** [None] is a slot that is not used; the size is the array's length. *)
Record bgit_marks := { slots : list (option bgit_mark); count : Z }.

Definition marks_size (m : bgit_marks) : Z := len (slots m).

(** [memset (&marks, 0, sizeof marks)]. *)
Definition no_marks : bgit_marks := {| slots := []; count := 0 |}.

Definition bgit_mark_hash (sha : list Z) : Z :=
  foldl (fun hash c => u64 (hash * 131 + c)) (1469598103934665603 mod 1000000007) (take 40 (c_text sha)).

(** The slot that has [sha], or the first free one, from [at] on. *)
Fixpoint probe (fuel : nat) (slots : list (option bgit_mark)) (sha : list Z) (at_ : Z) : outcome Z :=
  match fuel with
  | O => Fault
  | S fuel' =>
      match slots !! Z.to_nat at_ with
      | None => Fault
      | Some None => Ret at_
      | Some (Some mark) =>
          if beq (mark_sha mark) sha then Ret at_
          else probe fuel' slots sha (Z.land (at_ + 1) (len slots - 1))
      end
  end.

Definition fresh_mark (sha : list Z) : bgit_mark := {| mark_sha := sha; mark_flags := 0; mark_date := 0 |}.

(** What follows the growing in [bgit_marks_at]: the slot of [sha], taken if it was free. *)
Definition marks_take (m : bgit_marks) (sha : list Z) : outcome (bgit_marks * Z) :=
  let mask := marks_size m - 1 in
  let* at_ := probe (S (length (slots m))) (slots m) sha (Z.land (bgit_mark_hash sha) mask) in
  match slots m !! Z.to_nat at_ with
  | None => Fault
  | Some (Some _) => Ret (m, at_)
  | Some None => Ret ({| slots := <[Z.to_nat at_ := Some (fresh_mark sha)]> (slots m); count := count m + 1 |}, at_)
  end.

(** Each used slot of the old array is put in the new one. *)
Fixpoint rehash (at_op : bgit_marks -> list Z -> outcome (bgit_marks * Z)) (old : list (option bgit_mark)) (m : bgit_marks) : outcome bgit_marks :=
  match old with
  | [] => Ret m
  | None :: old' => rehash at_op old' m
  | Some mark :: old' =>
      let* r := at_op m (mark_sha mark) in
      let '(m, at_) := r in
      rehash at_op old' {| slots := <[Z.to_nat at_ := Some mark]> (slots m); count := count m |}
  end.

Definition marks_grow (at_op : bgit_marks -> list Z -> outcome (bgit_marks * Z)) (m : bgit_marks) : outcome bgit_marks :=
  let next := if marks_size m =? 0 then 256 else marks_size m * 2 in
  rehash at_op (slots m) {| slots := replicate (Z.to_nat next) None; count := 0 |}.

(** [bgit_marks_at] and [bgit_marks_grow] call each other, [depth] times at most. *)
Fixpoint marks_at (depth : nat) (m : bgit_marks) (sha : list Z) : outcome (bgit_marks * Z) :=
  match depth with
  | O => Fault
  | S depth' =>
      let* m := if count m * 2 >=? marks_size m then marks_grow (marks_at depth') m else Ret m in
      marks_take m sha
  end.

(** The ids are compared and copied as 40 bytes. *)
Definition bgit_marks_at (m : bgit_marks) (sha : list Z) : outcome (bgit_marks * Z) :=
  if len sha =? 40 then marks_at 2 m sha else Fault.

(** [mark->flags], and [mark->flags |= bits], of the mark [bgit_marks_at] gave. *)
Definition flags_at (m : bgit_marks) (at_ : Z) : outcome Z :=
  match slots m !! Z.to_nat at_ with Some (Some mark) => Ret (mark_flags mark) | _ => Fault end.

Definition set_flags (m : bgit_marks) (at_ : Z) (bits : Z) : outcome bgit_marks :=
  match slots m !! Z.to_nat at_ with
  | Some (Some mark) =>
      let mark := {| mark_sha := mark_sha mark; mark_flags := Z.lor (mark_flags mark) bits; mark_date := mark_date mark |} in
      Ret {| slots := <[Z.to_nat at_ := Some mark]> (slots m); count := count m |}
  | _ => Fault
  end.

(* ------------------------------------------------------------------ *)
(** ** The table as a map *)

(** The flags of a commit: those of the slot that has it, 0 without one. *)
Fixpoint flags_in (sl : list (option bgit_mark)) (sha : list Z) : Z :=
  match sl with
  | [] => 0
  | None :: sl' => flags_in sl' sha
  | Some mark :: sl' => if beq (mark_sha mark) sha then mark_flags mark else flags_in sl' sha
  end.

Definition flags_of (m : bgit_marks) (sha : list Z) : Z := flags_in (slots m) sha.

(** The ids of the slots. *)
Definition keys (sl : list (option bgit_mark)) : list (option (list Z)) := map (option_map mark_sha) sl.

Fixpoint n_used (ks : list (option (list Z))) : Z :=
  match ks with [] => 0 | Some _ :: ks' => 1 + n_used ks' | None :: ks' => n_used ks' end.

(** The [d]-th slot a probe for [sha] looks at. *)
Definition slot_of (n : Z) (sha : list Z) (d : Z) : Z := (bgit_mark_hash sha + d) mod n.

(** What a probe for [sha] passes before its [d]-th slot. *)
Definition passes (ks : list (option (list Z))) (sha : list Z) (d : Z) : Prop :=
  forall j, 0 <= j < d -> exists other, ks !! Z.to_nat (slot_of (len ks) sha j) = Some (Some other) /\ other <> sha.

(** Every id is where a probe for it stops. *)
Definition chained (ks : list (option (list Z))) : Prop :=
  forall i sha, ks !! i = Some (Some sha) -> exists d, 0 <= d < len ks /\ i = Z.to_nat (slot_of (len ks) sha d) /\ passes ks sha d.

Definition unique (ks : list (option (list Z))) : Prop :=
  forall i j sha, ks !! i = Some (Some sha) -> ks !! j = Some (Some sha) -> i = j.

Definition half_full (m : bgit_marks) : Prop := count m * 2 <= marks_size m.

Definition table (m : bgit_marks) : Prop :=
  (exists k, 0 <= k /\ marks_size m = 2 * 2 ^ k) /\ chained (keys (slots m)) /\ count m = n_used (keys (slots m)).

(** The invariant of the table. *)
Definition marks_ok (m : bgit_marks) : Prop := m = no_marks \/ table m /\ half_full m.

Lemma len_keys sl : len (keys sl) = len sl.
Proof. unfold len, keys. by rewrite length_map. Qed.

Lemma keys_insert sl i mark : keys (<[i := Some mark]> sl) = <[i := Some (mark_sha mark)]> (keys sl).
Proof. exact (list_fmap_insert (option_map mark_sha) sl i (Some mark)). Qed.

Lemma keys_lookup sl i o : keys sl !! i = Some o <-> exists x, sl !! i = Some x /\ o = option_map mark_sha x.
Proof. unfold keys. change (map (option_map mark_sha) sl) with (option_map mark_sha <$> sl). rewrite list_lookup_fmap. destruct (sl !! i) as [x|]; cbn; split; [intros [= <-]; eauto|intros (y & [= <-] & ->); done|done|by intros (y & ? & _)]. Qed.

Lemma n_used_bound ks : 0 <= n_used ks <= len ks.
Proof. induction ks as [|[s|] ks IH]; [done|..]; cbn [n_used]; rewrite len_cons; lia. Qed.

Lemma n_used_insert ks i s : ks !! i = Some None -> n_used (<[i := Some s]> ks) = n_used ks + 1.
Proof.
  revert i. induction ks as [|o ks IH]; intros [|i] Hi; try done; cbn in Hi |- *.
  - injection Hi as ->. lia.
  - rewrite IH by done. destruct o; lia.
Qed.

Lemma free_slot ks : n_used ks < len ks -> exists i, ks !! i = Some None.
Proof.
  induction ks as [|[s|] ks IH]; intros H; cbn [n_used] in H; rewrite ?len_cons in H; [by cbn in H| |by exists O].
  destruct IH as [i Hi]; [lia|]. by exists (S i).
Qed.

Lemma slot_range n sha d : 0 < n -> 0 <= slot_of n sha d < n.
Proof. intros. by apply Z.mod_pos_bound. Qed.

Lemma slot_covers n sha i : 0 <= i < n -> exists d, 0 <= d < n /\ slot_of n sha d = i.
Proof.
  intros Hi. exists ((i - bgit_mark_hash sha) mod n). split; [apply Z.mod_pos_bound; lia|]. unfold slot_of.
  rewrite Zplus_mod_idemp_r. replace (bgit_mark_hash sha + (i - bgit_mark_hash sha)) with i by lia. by apply Z.mod_small.
Qed.

Lemma chained_unique ks : chained ks -> unique ks.
Proof.
  intros Hc i j sha Hi Hj. destruct (Hc _ _ Hi) as (d & Hd & -> & Hp), (Hc _ _ Hj) as (e & He & -> & Hq).
  destruct (Z.lt_trichotomy d e) as [H|[->|H]]; [|done|].
  - destruct (Hq d ltac:(lia)) as (o & Ho & Hne). congruence.
  - destruct (Hp e ltac:(lia)) as (o & Ho & Hne). congruence.
Qed.

Lemma chained_insert ks i sha d : chained ks -> ks !! i = Some None -> 0 <= d < len ks -> i = Z.to_nat (slot_of (len ks) sha d) -> passes ks sha d ->
  chained (<[i := Some sha]> ks).
Proof.
  intros Hc Hi Hd Hpos Hp. unfold chained, passes. replace (len (<[i := Some sha]> ks)) with (len ks) by (unfold len; by rewrite length_insert).
  assert (Hkeep : forall x e, passes ks x e -> forall j, 0 <= j < e -> exists other,
    <[i := Some sha]> ks !! Z.to_nat (slot_of (len ks) x j) = Some (Some other) /\ other <> x).
  { intros x e Hx j Hj. destruct (Hx j Hj) as (o & Ho & Hne). exists o. split; [|done]. rewrite list_lookup_insert_ne; [done|]. intros E. rewrite <- E in Ho. congruence. }
  intros j x Hj. destruct (decide (i = j)) as [<-|Hne].
  - rewrite list_lookup_insert_eq in Hj by (by eapply lookup_lt_Some). injection Hj as <-. exists d. split_and!; [lia|lia|done|]. by apply Hkeep.
  - rewrite list_lookup_insert_ne in Hj by done. destruct (Hc j x Hj) as (e & He & Hj' & Hx). exists e. split_and!; [lia|lia|done|]. by apply Hkeep.
Qed.

(** A probe stops: where the id is, or at the free slot before which it is not. *)
Lemma probe_ok sl sha k : len sl = 2 * 2 ^ k -> 0 <= k -> n_used (keys sl) < len sl -> forall fuel j, 0 <= j -> len sl - j < Z.of_nat fuel ->
  passes (keys sl) sha j -> j < len sl -> exists d, 0 <= d < len sl /\ probe fuel sl sha (slot_of (len sl) sha j) = Ret (slot_of (len sl) sha d) /\
  passes (keys sl) sha d /\ (keys sl !! Z.to_nat (slot_of (len sl) sha d) = Some None \/ keys sl !! Z.to_nat (slot_of (len sl) sha d) = Some (Some sha)).
Proof.
  intros Hn Hk Hfree. assert (Hpos : 0 < 2 ^ k) by (apply Z.pow_pos_nonneg; lia).
  destruct (free_slot (keys sl)) as [i Hi]; [rewrite len_keys; lia|].
  assert (Hil : 0 <= Z.of_nat i < len sl) by (apply lookup_lt_Some in Hi; rewrite <- len_keys; unfold len; lia).
  destruct (slot_covers (len sl) sha (Z.of_nat i) Hil) as (f & Hf & Ef).
  induction fuel as [|fuel IH]; intros j Hj Hfuel Hp Hjn; [lia|]. cbn [probe].
  pose proof (slot_range (len sl) sha j ltac:(lia)) as Hr.
  destruct (sl !! Z.to_nat (slot_of (len sl) sha j)) as [o|] eqn:E.
  2:{ apply lookup_ge_None in E. unfold len in *. lia. }
  assert (Hkey : keys sl !! Z.to_nat (slot_of (len sl) sha j) = Some (option_map mark_sha o)) by (apply keys_lookup; eauto).
  destruct o as [mark|]; cbn [option_map] in Hkey; [|exists j; split_and!; try done; by left].
  destruct (beq (mark_sha mark) sha) eqn:Eb; simpl_bool; [exists j; split_and!; try done; subst; by right|].
  assert (Hp' : passes (keys sl) sha (j + 1)).
  { intros x Hx. destruct (decide (x = j)) as [->|]; [rewrite len_keys; eauto|]. apply Hp. lia. }
  assert (Hstep : Z.land (slot_of (len sl) sha j + 1) (len sl - 1) = slot_of (len sl) sha (j + 1)).
  { rewrite Hn at 2. replace (2 * 2 ^ k - 1) with (2 ^ (k + 1) - 1) by (rewrite Z.pow_add_r by lia; lia). rewrite land_ones_mod by lia.
    replace (2 ^ (k + 1)) with (len sl) by (rewrite Z.pow_add_r by lia; lia). unfold slot_of. rewrite Zplus_mod_idemp_l. f_equal. lia. }
  rewrite Hstep. apply IH; [lia|lia|done|].
  destruct (Z.ltb_spec f (j + 1)) as [Hfj|]; [|lia]. destruct (Hp' f ltac:(lia)) as (o & Ho & _). rewrite len_keys, Ef, Nat2Z.id in Ho. congruence.
Qed.

Lemma flags_in_cases sl sha :
  (exists i mark, sl !! i = Some (Some mark) /\ mark_sha mark = sha /\ flags_in sl sha = mark_flags mark) \/
  ((forall i, keys sl !! i <> Some (Some sha)) /\ flags_in sl sha = 0).
Proof.
  induction sl as [|[mark|] sl IH]; cbn [flags_in]; [by right| |].
  - destruct (beq (mark_sha mark) sha) eqn:E; simpl_bool; [left; exists O, mark; done|].
    destruct IH as [(i & mk & ? & ? & ?)|[Hn ?]]; [left; exists (S i), mk; done|right]. split; [|done]. intros [|i]; [cbn; congruence|apply Hn].
  - destruct IH as [(i & mk & ? & ? & ?)|[Hn ?]]; [left; exists (S i), mk; done|right]. split; [|done]. intros [|i]; [done|apply Hn].
Qed.

Lemma keys_mark sl i mark : sl !! i = Some (Some mark) -> keys sl !! i = Some (Some (mark_sha mark)).
Proof. intros H. apply keys_lookup. by exists (Some mark). Qed.

Lemma flags_in_at sl i mark : unique (keys sl) -> sl !! i = Some (Some mark) -> flags_in sl (mark_sha mark) = mark_flags mark.
Proof.
  intros Hu Hi. destruct (flags_in_cases sl (mark_sha mark)) as [(j & mk & Hj & Hs & ->)|[Hn _]].
  - pose proof (keys_mark _ _ _ Hi) as Ki. pose proof (keys_mark _ _ _ Hj) as Kj. rewrite Hs in Kj. rewrite (Hu _ _ _ Ki Kj) in Hi. congruence.
  - by destruct (Hn i); apply keys_mark.
Qed.

(** Writing a slot of another id. *)
Lemma flags_in_other sl i o mark sha : sl !! i = Some o -> option_map mark_sha o <> Some sha -> mark_sha mark <> sha ->
  flags_in (<[i := Some mark]> sl) sha = flags_in sl sha.
Proof.
  revert i. induction sl as [|x sl IH]; intros [|i] Hi Ho Hm; try done; cbn in Hi |- *.
  - injection Hi as ->. unfold beq. rewrite bool_decide_false by done. destruct o as [mk|]; [|done]. cbn in Ho. rewrite bool_decide_false by congruence. done.
  - by rewrite IH.
Qed.

Lemma flags_in_insert sl i o mark sha : sl !! i = Some o -> option_map mark_sha o <> Some sha \/ sha = mark_sha mark ->
  unique (keys (<[i := Some mark]> sl)) -> flags_in (<[i := Some mark]> sl) sha = if decide (sha = mark_sha mark) then mark_flags mark else flags_in sl sha.
Proof.
  intros Hi Ho Hu. destruct (decide (sha = mark_sha mark)) as [->|Hne].
  - apply (flags_in_at _ i); [done|]. apply list_lookup_insert_eq. by eapply lookup_lt_Some.
  - apply (flags_in_other _ _ o); [done| |done]. by destruct Ho.
Qed.

(** What [bgit_marks_at] and its parts promise: a slot of [sha], and nobody's flags changed. *)
Definition found (m m' : bgit_marks) (sha : list Z) (at_ : Z) : Prop :=
  table m' /\ (exists mark, slots m' !! Z.to_nat at_ = Some (Some mark) /\ mark_sha mark = sha) /\
  (forall s, flags_of m' s = flags_of m s) /\ count m' <= count m + 1 /\ count m' * 2 <= Z.max (count m * 2) (marks_size m').

Lemma marks_take_ok m sha : table m -> count m * 2 < marks_size m ->
  exists m' at_, marks_take m sha = Ret (m', at_) /\ found m m' sha at_ /\ half_full m' /\ marks_size m' = marks_size m.
Proof.
  intros ((k & Hk & Hn) & Hc & Hcount) Hroom. unfold marks_size in *.
  assert (Hpos : 0 < 2 ^ k) by (apply Z.pow_pos_nonneg; lia). pose proof (n_used_bound (keys (slots m))).
  destruct (probe_ok (slots m) sha k Hn Hk ltac:(lia) (S (length (slots m))) 0 ltac:(lia)) as (d & Hd & Hp & Hpass & Hcase);
    [unfold len; lia|intros j Hj; lia|lia|].
  assert (Hhome : Z.land (bgit_mark_hash sha) (len (slots m) - 1) = slot_of (len (slots m)) sha 0).
  { rewrite Hn at 1. replace (2 * 2 ^ k - 1) with (2 ^ (k + 1) - 1) by (rewrite Z.pow_add_r by lia; lia). rewrite land_ones_mod by lia.
    unfold slot_of. rewrite Z.add_0_r. f_equal. rewrite Z.pow_add_r by lia. lia. }
  unfold marks_take, marks_size. rewrite Hhome, Hp. cbn [obind]. set (i := Z.to_nat (slot_of _ _ d)) in *.
  destruct Hcase as [Hfree|Hhas]; [apply keys_lookup in Hfree as (o & Ho & E); destruct o; [done|]|apply keys_lookup in Hhas as (o & Ho & E); destruct o as [mark|]; [|done]; cbn in E]; rewrite Ho.
  - assert (Hfree : keys (slots m) !! i = Some None) by (apply keys_lookup; by exists None).
    assert (Hc' : chained (keys (<[i := Some (fresh_mark sha)]> (slots m)))).
    { rewrite keys_insert. apply (chained_insert _ _ _ d); rewrite ?len_keys; done. }
    assert (Hl : len (<[i := Some (fresh_mark sha)]> (slots m)) = len (slots m)) by (unfold len; by rewrite length_insert).
    eexists _, _. split; [done|]. unfold found, half_full, table, marks_size. cbn [slots count]. rewrite Hl. split_and!; try lia; [eauto|done| | |].
    + rewrite keys_insert, n_used_insert by done. lia.
    + exists (fresh_mark sha). split; [|done]. apply list_lookup_insert_eq. by eapply lookup_lt_Some.
    + intros s. unfold flags_of. cbn [slots]. rewrite (flags_in_insert _ _ None) by (done || (left; done) || by apply chained_unique).
      case_decide as Es; [|done]. cbn [mark_sha mark_flags fresh_mark] in Es |- *. subst s.
      destruct (flags_in_cases (slots m) sha) as [(j & mk & Hj & Hs & _)|[_ ->]]; [|done]. apply keys_mark in Hj as Kj.
      assert (Hold : <[i := Some sha]> (keys (slots m)) !! j = Some (Some sha)).
      { rewrite list_lookup_insert_ne; [congruence|]. intros ->. congruence. }
      assert (Hnew : <[i := Some sha]> (keys (slots m)) !! i = Some (Some sha)) by (apply list_lookup_insert_eq; by eapply lookup_lt_Some).
      rewrite keys_insert in Hc'. rewrite (chained_unique _ Hc' _ _ _ Hold Hnew) in Hj. congruence.
  - eexists _, _. split; [done|]. unfold found, half_full, table, marks_size. split_and!; try lia; try done; [eauto|].
    exists mark. split; [done|congruence].
Qed.

(** Writing over a slot's own mark moves no id. *)
Lemma table_write m at_ old mark : table m -> slots m !! Z.to_nat at_ = Some (Some old) -> mark_sha mark = mark_sha old ->
  let m' := {| slots := <[Z.to_nat at_ := Some mark]> (slots m); count := count m |} in
  table m' /\ marks_size m' = marks_size m /\ forall s, flags_of m' s = if decide (s = mark_sha old) then mark_flags mark else flags_of m s.
Proof.
  intros (Hk & Hc & Hn) Hat Hs m'. assert (Hkeys : keys (slots m') = keys (slots m)).
  { cbn. rewrite keys_insert, Hs. apply list_insert_id. by apply keys_mark. }
  assert (Hsize : marks_size m' = marks_size m) by (unfold marks_size, len; cbn; by rewrite length_insert).
  split_and!; [|done|].
  - unfold table. rewrite Hkeys, Hsize. done.
  - intros s. unfold flags_of. cbn. rewrite (flags_in_insert _ _ (Some old)); [by rewrite Hs|done| |fold (slots m'); change (<[_ := _]> _) with (slots m'); rewrite Hkeys; by apply chained_unique].
    rewrite Hs. cbn. destruct (decide (s = mark_sha old)); [by right|left; congruence].
Qed.

Lemma table_new n : 0 <= n -> table {| slots := replicate (Z.to_nat (2 * 2 ^ n)) None; count := 0 |}.
Proof.
  intros Hn. pose proof (Z.pow_pos_nonneg 2 n). unfold table, marks_size. cbn [slots count]. split_and!.
  - exists n. rewrite len_replicate. split; lia.
  - intros i sha Hi. apply keys_lookup in Hi as (o & Ho & E). apply lookup_replicate_1 in Ho as [-> _]. done.
  - induction (Z.to_nat _) as [|x IH]; [done|exact IH].
Qed.

Lemma flags_new n sha : flags_in (replicate n None) sha = 0.
Proof. by induction n. Qed.

(** Putting the slots of an array in a table, the flags of its ids are its own. *)
Lemma rehash_ok at_op : (forall m sha, table m -> count m * 2 < marks_size m -> at_op m sha = marks_take m sha) ->
  forall old m, table m -> unique (keys old) -> (count m + n_used (keys old)) * 2 <= marks_size m ->
  exists m', rehash at_op old m = Ret m' /\ table m' /\ marks_size m' = marks_size m /\ count m' <= count m + n_used (keys old) /\
  forall s, flags_of m' s = if decide (Some s ∈ keys old) then flags_in old s else flags_of m s.
Proof.
  intros Hop. induction old as [|[mark|] old IH]; intros m Ht Hu Hroom; cbn [rehash].
  - exists m. cbn [keys map n_used] in *. split_and!; try done; try lia.
  - cbn [keys map option_map n_used] in Hroom, Hu |- *. pose proof (n_used_bound (keys old)). fold (keys old) in *.
    rewrite Hop by (done || lia). destruct (marks_take_ok m (mark_sha mark) Ht ltac:(lia)) as (m1 & i & -> & (Ht1 & (mk & Hi & Hs) & Hf1 & Hc1 & _) & _ & Hl1).
    cbn [obind]. destruct (table_write m1 i mk mark Ht1 Hi (eq_sym Hs)) as (Ht2 & Hl2 & Hf2). set (m2 := {| slots := _; count := _ |}) in *.
    assert (Hu' : unique (keys old)) by (intros x y sha Hx Hy; apply (f_equal Nat.pred) with (x := S x) (y := S y); by eapply Hu).
    destruct (IH m2 Ht2 Hu') as (m' & -> & Ht' & Hl' & Hc' & Hf'); [rewrite Hl2, Hl1; cbn; lia|].
    exists m'. split_and!; [done|done|by rewrite Hl', Hl2|cbn in Hc'; lia|].
    intros s. rewrite Hf', Hf2, Hf1, Hs. cbn [flags_in]. unfold beq.
    assert (Hnot : Some (mark_sha mark) ∉ keys old).
    { intros [x Hx]%list_elem_of_lookup_1. by pose proof (Hu 0%nat (S x) _ eq_refl Hx). }
    destruct (decide (s = mark_sha mark)) as [->|Hne].
    + rewrite decide_False by done. rewrite decide_True by apply list_elem_of_here. by rewrite bool_decide_true.
    + rewrite bool_decide_false by done. destruct (decide (Some s ∈ keys old)) as [Hin|Hin].
      * rewrite decide_True by (by apply list_elem_of_further). done.
      * rewrite decide_False; [done|]. rewrite elem_of_cons. intros [[= ->]|?]; done.
  - cbn [keys map option_map n_used] in Hroom, Hu |- *. fold (keys old) in *.
    assert (Hu' : unique (keys old)) by (intros x y sha Hx Hy; apply (f_equal Nat.pred) with (x := S x) (y := S y); by eapply Hu).
    destruct (IH m Ht Hu' Hroom) as (m' & -> & Ht' & Hl' & Hc' & Hf'). exists m'. split_and!; try done. intros s. rewrite Hf'. cbn [flags_in].
    destruct (decide (Some s ∈ keys old)) as [Hin|Hin].
    + rewrite decide_True by (by apply list_elem_of_further). done.
    + rewrite decide_False; [done|]. rewrite elem_of_cons. intros [[=]|?]; done.
Qed.

Lemma marks_at_roomy depth m sha : table m -> count m * 2 < marks_size m -> marks_at (S depth) m sha = marks_take m sha.
Proof. intros _ H. cbn [marks_at]. by if_false. Qed.

Lemma marks_grow_ok m : marks_ok m -> exists m', marks_grow (marks_at 1) m = Ret m' /\ table m' /\ count m' * 2 < marks_size m' /\ count m' <= count m /\
  forall s, flags_of m' s = flags_of m s.
Proof.
  intros Hm. assert (Hnew : exists n, 0 <= n /\ (if marks_size m =? 0 then 256 else marks_size m * 2) = 2 * 2 ^ n /\ n_used (keys (slots m)) * 2 < 2 * 2 ^ n /\
    unique (keys (slots m)) /\ n_used (keys (slots m)) = count m).
  { destruct Hm as [->|[((k & Hk & Hl) & Hc & Hn) Hh]].
    - exists 7. split_and!; try done.
    - pose proof (Z.pow_pos_nonneg 2 k). exists (k + 1). unfold half_full in Hh. rewrite Hl in *. rewrite Z.pow_add_r by lia. if_false. split_and!; try lia. by apply chained_unique. }
  destruct Hnew as (n & Hn & Hnext & Hroom & Hu & Hcount). unfold marks_grow. rewrite Hnext.
  destruct (rehash_ok (marks_at 1) (marks_at_roomy 0) (slots m) _ (table_new n Hn) Hu) as (m' & -> & Ht & Hl & Hc & Hf);
    [unfold marks_size; cbn [slots count]; rewrite len_replicate; lia|].
  unfold marks_size in Hl at 2. cbn [slots count] in Hl, Hc. rewrite len_replicate in Hl.
  exists m'. split_and!; [done|done|lia|lia|]. intros s. rewrite Hf. destruct (decide (Some s ∈ keys (slots m))) as [|Hnot]; [done|].
  unfold flags_of. cbn [slots]. rewrite flags_new. destruct (flags_in_cases (slots m) s) as [(i & mk & Hi & <- & _)|[_ ->]]; [|done].
  destruct Hnot. eapply list_elem_of_lookup_2. by apply keys_mark.
Qed.

(** [bgit_marks_at] on a table that meets the invariant: it ends, within two
    calls of itself, with a slot of the id; nobody's flags change, an id not
    seen before has none, and the invariant holds again. *)
Lemma marks_at_ok m sha : marks_ok m -> len sha = 40 -> exists m' at_, bgit_marks_at m sha = Ret (m', at_) /\ marks_ok m' /\
  flags_at m' at_ = Ret (flags_of m sha) /\ (forall s, flags_of m' s = flags_of m s) /\
  (exists mark, slots m' !! Z.to_nat at_ = Some (Some mark) /\ mark_sha mark = sha).
Proof.
  intros Hm Hlen. unfold bgit_marks_at. rewrite Hlen. cbn [Z.eqb Pos.eqb marks_at].
  assert (Hstep : exists m1, (if count m * 2 >=? marks_size m then marks_grow (marks_at 1) m else Ret m) = Ret m1 /\ table m1 /\ count m1 * 2 < marks_size m1 /\
    forall s, flags_of m1 s = flags_of m s).
  { case_if.
    - destruct (marks_grow_ok m Hm) as (m1 & -> & ? & ? & _ & ?). by exists m1.
    - simpl_bool. destruct Hm as [->|[Ht Hh]]; [by cbn in *|]. exists m. by split_and!. }
  cbn [marks_at] in Hstep. destruct Hstep as (m1 & -> & Ht & Hroom & Hf). cbn [obind].
  destruct (marks_take_ok m1 sha Ht Hroom) as (m' & i & -> & (Ht' & (mark & Hi & Hs) & Hf' & _) & Hh & _). exists m', i. split_and!; [done|by right| | |by exists mark].
  - unfold flags_at. rewrite Hi. f_equal. rewrite <- Hf, <- Hf', <- Hs. symmetry. apply (flags_in_at _ (Z.to_nat i)); [|done]. apply chained_unique, Ht'.
  - intros s. by rewrite Hf', Hf.
Qed.

Lemma set_flags_ok m at_ mark bits : marks_ok m -> slots m !! Z.to_nat at_ = Some (Some mark) ->
  exists m', set_flags m at_ bits = Ret m' /\ marks_ok m' /\ slots m' !! Z.to_nat at_ = Some (Some {| mark_sha := mark_sha mark; mark_flags := Z.lor (mark_flags mark) bits; mark_date := mark_date mark |}) /\
  forall s, flags_of m' s = if decide (s = mark_sha mark) then Z.lor (flags_of m s) bits else flags_of m s.
Proof.
  intros Hm Hat. unfold set_flags. rewrite Hat. destruct Hm as [->|[Ht Hh]]; [done|].
  destruct (table_write m at_ mark {| mark_sha := mark_sha mark; mark_flags := Z.lor (mark_flags mark) bits; mark_date := mark_date mark |} Ht Hat eq_refl) as (Ht' & Hl & Hf).
  eexists. split; [done|]. split_and!.
  - right. split; [done|]. unfold half_full. rewrite Hl. exact Hh.
  - cbn [slots]. apply list_lookup_insert_eq. by eapply lookup_lt_Some.
  - intros s. rewrite Hf. case_decide as Es; [|done]. subst s. cbn [mark_flags]. f_equal. symmetry. apply (flags_in_at _ (Z.to_nat at_)); [|done]. apply chained_unique, Ht.
Qed.

Lemma no_marks_ok : marks_ok no_marks.
Proof. by left. Qed.

(** [mark = bgit_marks_at (…); mark->flags |= bits]. *)
Definition marks_or (m : bgit_marks) (sha : list Z) (bits : Z) : outcome bgit_marks :=
  let* r := bgit_marks_at m sha in let '(m, at_) := r in set_flags m at_ bits.

Lemma marks_or_ok m sha bits : marks_ok m -> len sha = 40 -> exists m', marks_or m sha bits = Ret m' /\ marks_ok m' /\
  forall s, flags_of m' s = if decide (s = sha) then Z.lor (flags_of m s) bits else flags_of m s.
Proof.
  intros Hm Hl. unfold marks_or. destruct (marks_at_ok m sha Hm Hl) as (m1 & i & -> & Hm1 & _ & Hf & (mark & Hi & Hs)). cbn [obind].
  destruct (set_flags_ok m1 i mark bits Hm1 Hi) as (m' & -> & Hm' & _ & Hf'). exists m'. split_and!; [done|done|]. intros s. by rewrite Hf', Hs, !Hf.
Qed.

(** [C32] (refinement) Any sequence of marks put in a table: the table refines a
    map from ids to flags. *)
Theorem marks_exact steps : Forall (fun s => len (fst s) = 40) steps ->
  exists m, foldl (fun m s => let* m := m in marks_or m (fst s) (snd s)) (Ret no_marks) steps = Ret m /\ marks_ok m /\
  forall sha, flags_of m sha = foldl (fun f s => if decide (sha = fst s) then Z.lor f (snd s) else f) 0 steps.
Proof.
  intros Hs. assert (Hgen : forall m0, marks_ok m0 -> exists m, foldl (fun m s => let* m := m in marks_or m (fst s) (snd s)) (Ret m0) steps = Ret m /\ marks_ok m /\
    forall sha, flags_of m sha = foldl (fun f s => if decide (sha = fst s) then Z.lor f (snd s) else f) (flags_of m0 sha) steps).
  { induction Hs as [|s steps Hs _ IH]; intros m0 Hm0; cbn [foldl]; [by exists m0|]. cbn [obind].
    destruct (marks_or_ok m0 (fst s) (snd s) Hm0 Hs) as (m1 & -> & Hm1 & Hf1). destruct (IH m1 Hm1) as (m & -> & Hm & Hf). exists m. split_and!; [done|done|].
    intros sha. by rewrite Hf, Hf1. }
  apply (Hgen no_marks), no_marks_ok.
Qed.

Theorem marks_exact_witness :
  let id c := replicate 40 c in
  exists m, foldl (fun m s => let* m := m in marks_or m (fst s) (snd s)) (Ret no_marks) [(id 97, 1); (id 98, 2); (id 97, 4)] = Ret m /\ marks_ok m /\
  forall sha, flags_of m sha = foldl (fun f s => if decide (sha = fst s) then Z.lor f (snd s) else f) 0 [(id 97, 1); (id 98, 2); (id 97, 4)].
Proof. intros id. apply (marks_exact [(id 97, 1); (id 98, 2); (id 97, 4)]). repeat constructor. Defined.
