(* ===== verification/MergeBase.v ===== *)
(** * Common ancestors (merge.c)

    The walk that paints history down from two sides, with its queue of
    commits and its table of marks, and what is built of it: is one commit an
    ancestor of another, the best common ancestors of commits, of many at
    once, and which of some commits no other reaches.  The answers are shown
    to be those of the history's ancestor relation, whatever the dates. *)

From stdpp Require Import list relations.
From S2P Require Import Prelude CLib Odb Commit Marks.

#[local] Open Scope Z_scope.

Definition BGIT_PARENT1 : Z := 1.
Definition BGIT_PARENT2 : Z := 2.
Definition BGIT_STALE : Z := 4.
Definition BGIT_RESULT : Z := 8.

(* ------------------------------------------------------------------ *)
(** ** The queue *)

Record queued := { q_sha : list Z; q_date : Z; q_counter : Z }.

Record bgit_queue := { items : list queued; next_counter : Z }.

Definition no_queue : bgit_queue := {| items := []; next_counter := 0 |}.

Definition bgit_queue_put (q : bgit_queue) (sha : list Z) (date : Z) : bgit_queue :=
  {| items := items q ++ [{| q_sha := sha; q_date := date; q_counter := next_counter q |}]; next_counter := u64 (next_counter q + 1) |}.

(** Newer, or as new and put earlier. *)
Definition before (a b : queued) : bool := (q_date a >? q_date b) || ((q_date a =? q_date b) && (q_counter a <? q_counter b)).

(** The index of the best item, [b] at [best] being that of the items before the [i]-th. *)
Fixpoint best_loop (rest : list queued) (i best : nat) (b : queued) : nat :=
  match rest with
  | [] => best
  | x :: rest' => if before x b then best_loop rest' (S i) i x else best_loop rest' (S i) best b
  end.

Definition bgit_queue_get (q : bgit_queue) : option (list Z * bgit_queue) :=
  match items q with
  | [] => None
  | x :: rest =>
      let best := best_loop rest 1 0 x in
      match items q !! best with
      | Some b => Some (q_sha b, {| items := delete best (items q); next_counter := next_counter q |})
      | None => None
      end
  end.

(** Is anything left that is not known to be stale?  Asking may grow the table. *)
Fixpoint has_fresh (l : list queued) (marks : bgit_marks) : outcome (bgit_marks * bool) :=
  match l with
  | [] => Ret (marks, false)
  | x :: l' =>
      let* r := bgit_marks_at marks (q_sha x) in
      let '(marks, at_) := r in
      let* flags := flags_at marks at_ in
      if Z.land flags BGIT_STALE =? 0 then Ret (marks, true) else has_fresh l' marks
  end.

Definition bgit_queue_has_fresh (q : bgit_queue) (marks : bgit_marks) : outcome (bgit_marks * bool) := has_fresh (items q) marks.

(* ------------------------------------------------------------------ *)
(** ** The walk *)

Section walk.
Context `{Objects}.

(** Each side's commits are marked and queued. *)
Fixpoint put_all (bit : Z) (l : list (list Z)) (marks : bgit_marks) (q : bgit_queue) : outcome (bgit_marks * bgit_queue) :=
  match l with
  | [] => Ret (marks, q)
  | sha :: l' =>
      let* marks := marks_or marks sha bit in
      let* date := bgit_commit_date sha in
      put_all bit l' marks (bgit_queue_put q sha date)
  end.

(** The flags are passed to the parents; one that gains any is queued. *)
Fixpoint parents_loop (flags : Z) (parents : list (list Z)) (marks : bgit_marks) (q : bgit_queue) : outcome (bgit_marks * bgit_queue) :=
  match parents with
  | [] => Ret (marks, q)
  | parent :: parents' =>
      let* r := bgit_marks_at marks parent in
      let '(marks, at_) := r in
      let* has := flags_at marks at_ in
      if Z.land has flags =? flags then parents_loop flags parents' marks q
      else
        let* marks := set_flags marks at_ flags in
        let* date := bgit_commit_date parent in
        parents_loop flags parents' marks (bgit_queue_put q parent date)
  end.

(** The parents the walk sees: of an object that is no commit, none. *)
Definition walk_parents (sha : list Z) : outcome (list (list Z)) :=
  match bgit_commit_parents sha BGIT_MAX_PARENTS with
  | Fault => Fault
  | Ret parents => Ret parents
  | _ => Ret []
  end.

(** One turn of the loop, [current] being out of the queue. *)
Definition paint_step (current : list Z) (marks : bgit_marks) (q : bgit_queue) (result : list (list Z)) : outcome (bgit_marks * bgit_queue * list (list Z)) :=
  let* r := bgit_marks_at marks current in
  let '(marks, at_) := r in
  let* all := flags_at marks at_ in
  let flags := Z.land all (Z.lor (Z.lor BGIT_PARENT1 BGIT_PARENT2) BGIT_STALE) in
  let* r :=
    if flags =? Z.lor BGIT_PARENT1 BGIT_PARENT2 then
      let* r := if Z.land all BGIT_RESULT =? 0 then let* marks := set_flags marks at_ BGIT_RESULT in Ret (marks, result ++ [current]) else Ret (marks, result) in
      Ret (r, Z.lor flags BGIT_STALE)
    else Ret ((marks, result), flags) in
  let '((marks, result), flags) := r in
  let* parents := walk_parents current in
  let* r := parents_loop flags parents marks q in
  Ret (r, result).

Fixpoint paint_loop (fuel : nat) (marks : bgit_marks) (q : bgit_queue) (result : list (list Z)) : outcome (list (list Z)) :=
  match fuel with
  | O => Fault
  | S fuel' =>
      let* r := bgit_queue_has_fresh q marks in
      let '(marks, fresh) := r in
      if negb fresh then Ret result
      else
        match bgit_queue_get q with
        | None => Ret result
        | Some (current, q) =>
            let* r := paint_step current marks q result in
            let '(marks, q, result) := r in
            paint_loop fuel' marks q result
        end
  end.

Definition bgit_paint_down (fuel : nat) (one : list Z) (twos : list (list Z)) (result : list (list Z)) : outcome (list (list Z)) :=
  let* r := put_all BGIT_PARENT1 [one] no_marks no_queue in
  let* r := put_all BGIT_PARENT2 twos (fst r) (snd r) in
  paint_loop fuel (fst r) (snd r) result.

(* ------------------------------------------------------------------ *)
(** ** What is built of it *)

(** [!memcmp (a, b, 40)]. *)
Definition same_id (a b : list Z) : outcome bool := if (len a =? 40) && (len b =? 40) then Ret (beq a b) else Fault.

Fixpoint any_same (id : list Z) (l : list (list Z)) : outcome bool :=
  match l with
  | [] => Ret false
  | x :: l' => let* same := same_id x id in if same then Ret true else any_same id l'
  end.

Definition bgit_is_ancestor (fuel : nat) (ancestor commit : list Z) : outcome bool :=
  let* same := same_id ancestor commit in
  if same then Ret true
  else let* bases := bgit_paint_down fuel ancestor [commit] [] in any_same ancestor bases.

(** Is [i] to be dropped for one of [js]? *)
Fixpoint drop_for (fuel : nat) (ids : list (list Z)) (i : nat) (js : list nat) (drop : list bool) : outcome (list bool) :=
  match js with
  | [] => Ret drop
  | j :: js' =>
      match ids !! i, ids !! j, drop !! i, drop !! j with
      | Some a, Some b, Some di, Some dj =>
          if bool_decide (i = j) || di || dj then drop_for fuel ids i js' drop
          else
            let* reaches := bgit_is_ancestor fuel a b in
            if reaches : bool then Ret (<[i := true]> drop) else drop_for fuel ids i js' drop
      | _, _, _, _ => Fault
      end
  end.

Fixpoint drop_loop (fuel : nat) (ids : list (list Z)) (from : list nat) (drop : list bool) : outcome (list bool) :=
  match from with
  | [] => Ret drop
  | i :: from' => let* drop := drop_for fuel ids i (seq 0 (length ids)) drop in drop_loop fuel ids from' drop
  end.

Fixpoint keep (ids : list (list Z)) (drop : list bool) : list (list Z) :=
  match ids, drop with
  | id :: ids', d :: drop' => if d : bool then keep ids' drop' else id :: keep ids' drop'
  | _, _ => []
  end.

Definition bgit_remove_redundant (fuel : nat) (ids : list (list Z)) : outcome (list (list Z)) :=
  if len ids <? 2 then Ret ids
  else let* drop := drop_loop fuel ids (seq 0 (length ids)) (replicate (length ids) false) in Ret (keep ids drop).

Definition bgit_merge_bases_many (fuel : nat) (one : list Z) (twos : list (list Z)) : outcome (list (list Z)) :=
  let* same := any_same one twos in
  if same : bool then Ret [one]
  else let* result := bgit_paint_down fuel one twos [] in bgit_remove_redundant fuel result.

(** The bases of [commit] with each commit carried so far. *)
Fixpoint carry (fuel : nat) (commit : list Z) (carried next : list (list Z)) : outcome (list (list Z)) :=
  match carried with
  | [] => Ret next
  | c :: carried' => let* bases := bgit_merge_bases_many fuel commit [c] in carry fuel commit carried' (next ++ bases)
  end.

Fixpoint octopus_loop (fuel : nat) (commits : list (list Z)) (carried : list (list Z)) : outcome (list (list Z)) :=
  match commits with
  | [] => Ret carried
  | commit :: commits' => let* carried := carry fuel commit carried [] in octopus_loop fuel commits' carried
  end.

Definition bgit_merge_bases_octopus (fuel : nat) (commits : list (list Z)) : outcome (list (list Z)) :=
  match commits with
  | [] => Ret []
  | first :: commits' => let* carried := octopus_loop fuel commits' [first] in bgit_remove_redundant fuel carried
  end.

Definition bgit_independent (fuel : nat) (commits : list (list Z)) : outcome (list (list Z)) := bgit_remove_redundant fuel commits.

End walk.

(* ------------------------------------------------------------------ *)
(** ** Flags *)

(** The flags a commit passes on: of a common ancestor, that its own are stale. *)
Definition passed (f : Z) : Z :=
  let f := Z.land f (Z.lor (Z.lor BGIT_PARENT1 BGIT_PARENT2) BGIT_STALE) in
  if f =? Z.lor BGIT_PARENT1 BGIT_PARENT2 then Z.lor f BGIT_STALE else f.

Definition p1 (f : Z) : bool := Z.testbit f 0.
Definition p2 (f : Z) : bool := Z.testbit f 1.
Definition stale (f : Z) : bool := Z.testbit f 2.
Definition chosen (f : Z) : bool := Z.testbit f 3.

Definition covers (g f : Z) : Prop := (p1 f -> p1 g) /\ (p2 f -> p2 g) /\ (stale f -> stale g).

(** How many of the three marks a commit has not. *)
Definition lacks (f : Z) : Z := 3 - (Z.b2z (p1 f) + Z.b2z (p2 f) + Z.b2z (stale f)).

Lemma flags_table (P : Z -> Z -> bool) : forallb (fun g => forallb (P g) (map Z.of_nat (seq 0 16))) (map Z.of_nat (seq 0 16)) = true ->
  forall g f, 0 <= g < 16 -> 0 <= f < 16 -> P g f = true.
Proof.
  intros HP g f Hg Hf. rewrite forallb_forall in HP. assert (Hin : forall z, 0 <= z < 16 -> In z (map Z.of_nat (seq 0 16))).
  { intros z Hz. apply in_map_iff. exists (Z.to_nat z). split; [lia|]. apply in_seq. lia. }
  specialize (HP g (Hin g Hg)). rewrite forallb_forall in HP. apply HP, Hin, Hf.
Qed.

(** What the walk's tests and updates mean, one bit at a time. *)
Lemma passed_bits f : 0 <= f < 16 -> p1 (passed f) = p1 f /\ p2 (passed f) = p2 f /\ stale (passed f) = stale f || (p1 f && p2 f) /\ chosen (passed f) = false /\ 0 <= passed f < 8.
Proof.
  intros Hf. pose proof (flags_table (fun _ f => bool_decide (p1 (passed f) = p1 f /\ p2 (passed f) = p2 f /\ stale (passed f) = stale f || (p1 f && p2 f) /\
    chosen (passed f) = false /\ 0 <= passed f < 8)) eq_refl 0 f ltac:(lia) Hf) as H. by apply bool_decide_eq_true in H.
Qed.

Lemma picked_bits f : 0 <= f < 16 ->
  (Z.land f (Z.lor (Z.lor BGIT_PARENT1 BGIT_PARENT2) BGIT_STALE) =? Z.lor BGIT_PARENT1 BGIT_PARENT2) = p1 f && p2 f && negb (stale f) /\
  (Z.land f BGIT_RESULT =? 0) = negb (chosen f) /\ (Z.land f BGIT_STALE =? 0) = negb (stale f).
Proof.
  intros Hf. pose proof (flags_table (fun _ f => bool_decide ((Z.land f (Z.lor (Z.lor BGIT_PARENT1 BGIT_PARENT2) BGIT_STALE) =? Z.lor BGIT_PARENT1 BGIT_PARENT2) =
    p1 f && p2 f && negb (stale f) /\ (Z.land f BGIT_RESULT =? 0) = negb (chosen f) /\ (Z.land f BGIT_STALE =? 0) = negb (stale f))) eq_refl 0 f ltac:(lia) Hf) as H.
  by apply bool_decide_eq_true in H.
Qed.

Lemma lor_bits g f : 0 <= g < 16 -> 0 <= f < 16 -> 0 <= Z.lor g f < 16 /\
  p1 (Z.lor g f) = p1 g || p1 f /\ p2 (Z.lor g f) = p2 g || p2 f /\ stale (Z.lor g f) = stale g || stale f /\ chosen (Z.lor g f) = chosen g || chosen f /\
  lacks (Z.lor g f) <= lacks g.
Proof.
  intros Hg Hf. split; [apply (lor_lt_pow2 _ _ 4); lia|]. pose proof (flags_table (fun g f => bool_decide (p1 (Z.lor g f) = p1 g || p1 f /\ p2 (Z.lor g f) = p2 g || p2 f /\
    stale (Z.lor g f) = stale g || stale f /\ chosen (Z.lor g f) = chosen g || chosen f /\ lacks (Z.lor g f) <= lacks g)) eq_refl g f Hg Hf) as H.
  by apply bool_decide_eq_true in H.
Qed.

(** A parent either has the flags, and keeps what it has, or lacks one fewer. *)
Lemma gains g f : 0 <= g < 16 -> 0 <= f < 8 -> if Z.land g f =? f then Z.lor g f = g else lacks (Z.lor g f) + 1 <= lacks g.
Proof.
  intros Hg Hf. pose proof (flags_table (fun g f => (8 <=? f) || (if Z.land g f =? f then Z.lor g f =? g else lacks (Z.lor g f) + 1 <=? lacks g)) eq_refl g f Hg ltac:(lia)) as H.
  replace (8 <=? f) with false in H by (symmetry; solve_false). cbn [orb] in H. case_match; simpl_bool; lia.
Qed.

Lemma lacks_bound f : 0 <= lacks f <= 3.
Proof. unfold lacks. destruct (p1 f), (p2 f), (stale f); cbn; lia. Qed.

(* ------------------------------------------------------------------ *)
(** ** The queue *)

Definition waiting (q : bgit_queue) : list (list Z) := map q_sha (items q).

Lemma best_loop_ok all rest i best b : all !! best = Some b -> (exists done, all = done ++ rest /\ length done = i /\ Forall (fun x => x = b \/ before x b = false) done) ->
  exists b', all !! best_loop rest i best b = Some b' /\ Forall (fun x => before x b' = false) all.
Proof.
  assert (Hirr : forall x, before x x = false) by (intros x; unfold before; rewrite !Z.gtb_ltb, !Z.ltb_irrefl; by rewrite andb_false_r).
  revert i best b. induction rest as [|x rest IH]; intros i best b Hb (done & Hall & Hlen & Hd); cbn [best_loop].
  - exists b. split; [done|]. rewrite Hall, app_nil_r. eapply Forall_impl; [exact Hd|]. by intros y [->|?].
  - destruct (before x b) eqn:E.
    + apply IH; [rewrite Hall, lookup_app_r by lia; by rewrite Hlen, Nat.sub_diag|]. exists (done ++ [x]). rewrite <- app_assoc. split_and!; [done|rewrite length_app; cbn; lia|].
      apply Forall_app. split; [|constructor; [by left|constructor]]. eapply Forall_impl; [exact Hd|]. intros y Hy. right. unfold before in *. destruct Hy as [->|Hy]; simpl_bool; lia.
    + apply IH; [done|]. exists (done ++ [x]). rewrite <- app_assoc. split_and!; [done|rewrite length_app; cbn; lia|]. apply Forall_app. split; [done|]. constructor; [by right|constructor].
Qed.

(** A queue that is not empty gives an item than which no other is newer, or as
    new and put before it, and keeps the others in their order. *)
Lemma queue_get_ok q : items q <> [] -> exists b before_it after_it, items q = before_it ++ b :: after_it /\
  bgit_queue_get q = Some (q_sha b, {| items := before_it ++ after_it; next_counter := next_counter q |}) /\ Forall (fun x => before x b = false) (items q).
Proof.
  destruct q as [[|x rest] c]; [done|]. intros _. unfold bgit_queue_get. cbn [items next_counter].
  destruct (best_loop_ok (x :: rest) rest 1 0 x eq_refl) as (b & Hb & Hbest); [exists [x]; repeat constructor; by left|]. rewrite Hb.
  exists b, (take (best_loop rest 1 0 x) (x :: rest)), (drop (S (best_loop rest 1 0 x)) (x :: rest)). split_and!; [by rewrite take_drop_middle| |done].
  by rewrite delete_take_drop.
Qed.

(* ------------------------------------------------------------------ *)
(** ** History *)

Section history.
Context `{Objects} (V : list (list Z)).

Definition parents_of (sha : list Z) : list (list Z) := match walk_parents sha with Ret parents => parents | _ => [] end.
Definition parent_of (p c : list Z) : Prop := p ∈ parents_of c.

(** Is [a] an ancestor of [c], or [c] itself; is it one and not [c]? *)
Definition ancestor : list Z -> list Z -> Prop := rtc parent_of.
Definition proper : list Z -> list Z -> Prop := tc parent_of.

(** The commits [V] with all their ancestors: full ids, no commit its own
    ancestor, and dates that can be read. *)
Record history : Prop := {
  h_ids : forall c, c ∈ V -> len c = 40;
  h_closed : forall c p, c ∈ V -> parent_of p c -> p ∈ V;
  h_dates : forall c, c ∈ V -> exists d, bgit_commit_date c = Ret d;
  h_acyclic : forall c, ~ proper c c }.

Hypothesis Hist : history.

Lemma walk_parents_ok sha : walk_parents sha = Ret (parents_of sha).
Proof.
  assert (Hnf : bgit_commit_parents sha BGIT_MAX_PARENTS <> Fault).
  { unfold bgit_commit_parents, odb_read. destruct (bgit_odb_read _) as [[type data]|]; cbn; [case_match|]; done. }
  unfold parents_of, walk_parents. by destruct (bgit_commit_parents sha BGIT_MAX_PARENTS).
Qed.

Lemma ancestor_in a c : ancestor a c -> c ∈ V -> a ∈ V.
Proof. induction 1 as [|a b c Hab _ IH]; [done|]. intros Hc. eapply h_closed; [done|by apply IH|done]. Qed.

Lemma proper_irreflexive a c : proper a c -> ancestor c a -> False.
Proof. intros Hp Ha. eapply (h_acyclic Hist a). by eapply tc_rtc_r. Qed.

Lemma ancestor_trans a b c : ancestor a b -> ancestor b c -> ancestor a c.
Proof. unfold ancestor. by etrans. Qed.

Lemma ancestor_antisym a c : ancestor a c -> ancestor c a -> a = c.
Proof. intros Ha Hc. apply rtc_tc in Ha as [|Ha]; [done|]. by destruct (proper_irreflexive a c). Qed.

(** Going up from one commit to better ones ends. *)
Lemma upward (P : list Z -> Prop) : (forall c, c ∈ V -> (forall b, b ∈ V -> proper c b -> P b) -> P c) -> forall c, c ∈ V -> P c.
Proof.
  intros Hstep c Hc. pose (R a b := a ∈ V /\ b ∈ V /\ proper a b).
  assert (Htc : forall a b, tc R a b -> R a b).
  { induction 1 as [a b Hab|a b d (? & ? & Hab) _ (? & ? & ?)]; [done|]. split_and!; [done|done|]. by eapply tc_transitive. }
  assert (Hsn : sn R c).
  { apply tc_finite_sn; [intros a Ha; by eapply (h_acyclic Hist a), Htc|]. exists V. intros b Hb. apply (Htc _ _ Hb). }
  induction Hsn as [c _ IH]. apply Hstep; [done|]. intros b Hb Hcb. by apply IH.
Qed.

(* ------------------------------------------------------------------ *)
(** *** What the walk maintains *)

Section walked.
Variables (one : list Z) (twos : list (list Z)).

(** An ancestor of both sides; one that is best. *)
Definition common (x : list Z) : Prop := ancestor x one /\ exists t, t ∈ twos /\ ancestor x t.
Definition best (x : list Z) : Prop := common x /\ forall y, common y -> ~ proper x y.

Record painted (F : list Z -> Z) (Q R : list (list Z)) : Prop := {
  pt_range x : 0 <= F x < 16;
  pt_known x : F x <> 0 -> x ∈ V;
  pt_queue x : x ∈ Q -> x ∈ V;
  pt_one x : p1 (F x) -> ancestor x one;
  pt_two x : p2 (F x) -> exists t, t ∈ twos /\ ancestor x t;
  pt_stale x : stale (F x) -> exists y, common y /\ proper x y;
  pt_result x : x ∈ R <-> chosen (F x);
  pt_nodup : NoDup R;
  pt_both x : chosen (F x) -> p1 (F x) /\ p2 (F x);
  pt_source1 : p1 (F one);
  pt_source2 t : t ∈ twos -> p2 (F t);
  pt_passed x p : x ∉ Q -> parent_of p x -> covers (F p) (passed (F x));
  pt_chosen x : x ∉ Q -> p1 (F x) -> p2 (F x) -> chosen (F x) \/ stale (F x) }.

(** With only stale commits waiting, the best common ancestors have been found. *)
Lemma painted_done F Q R : painted F Q R -> Forall (fun x => stale (F x)) Q -> (forall x, x ∈ R -> common x) /\ (forall x, best x -> x ∈ R).
Proof.
  intros Hp Hq. split.
  - intros x Hx. apply (pt_result _ _ _ Hp) in Hx. destruct (pt_both _ _ _ Hp x Hx). split; [by eapply pt_one|by eapply pt_two].
  - intros x [(Ho & t & Ht & Hx) Hb]. rewrite Forall_forall in Hq.
    assert (Hfresh : forall y, ancestor x y -> ~ stale (F y)).
    { intros y Hy Hs. destruct (pt_stale _ _ _ Hp y Hs) as (b & Hc & Hyb). apply (Hb b Hc). by eapply tc_rtc_l. }
    assert (Hdown : forall (P : Z -> bool), (forall f, P f -> 0 <= f < 16 -> P (passed f)) -> (forall g f, covers g f -> P f -> P g) ->
      forall s, P (F s) -> ancestor x s -> P (F x)).
    { intros P Hpass Hcov s Hs Hxs. revert Hs. refine (rtc_ind_r (fun y => P (F y) -> P (F x)) x _ _ s Hxs); [done|].
      intros y z Hxy Hyz IH Hz. apply IH. eapply Hcov; [eapply (pt_passed _ _ _ Hp z y); [|exact Hyz]|apply Hpass; [done|by eapply pt_range]].
      intros Hin. apply (Hfresh z); [|by apply Hq]. eapply rtc_r; done. }
    assert (H1 : p1 (F x)).
    { apply (Hdown p1) with one; [intros f Hf Hr; by rewrite (proj1 (passed_bits f Hr))|by intros g f (? & _) ?; auto|by eapply pt_source1|done]. }
    assert (H2 : p2 (F x)).
    { apply (Hdown p2) with t; [intros f Hf Hr; by rewrite (proj1 (proj2 (passed_bits f Hr)))|by intros g f (_ & ? & _) ?; auto|by eapply pt_source2|done]. }
    apply (pt_result _ _ _ Hp). destruct (pt_chosen _ _ _ Hp x) as [|Hs]; try done.
    + intros Hin. apply (Hfresh x); [apply rtc_refl|by apply Hq].
    + by destruct (Hfresh x); [apply rtc_refl|].
Qed.

(* ------------------------------------------------------------------ *)
(** *** The loop keeps it *)

Definition weight (F : list Z -> Z) : Z := foldr (fun v n => lacks (F v) + n) 0 V.

Lemma weight_le F G (l : list (list Z)) : (forall v, v ∈ l -> lacks (G v) <= lacks (F v)) -> foldr (fun v n => lacks (G v) + n) 0 l <= foldr (fun v n => lacks (F v) + n) 0 l.
Proof. induction l as [|v l IH]; intros Hl; cbn; [lia|]. pose proof (Hl v (list_elem_of_here _ _)). pose proof (IH (fun w Hw => Hl w (list_elem_of_further _ _ _ Hw))). lia. Qed.

Lemma weight_lt F G (x : list Z) : x ∈ V -> (forall v, lacks (G v) <= lacks (F v)) -> lacks (G x) + 1 <= lacks (F x) -> weight G + 1 <= weight F.
Proof.
  clear Hist. intros Hx Hle Hlt. unfold weight. induction Hx as [v l|v w l Hx IH]; cbn.
  - pose proof (weight_le F G l (fun v _ => Hle v)). lia.
  - specialize (Hle w). specialize (IH Hlt). lia.
Qed.

Lemma weight_bound F : 0 <= weight F <= 3 * len V.
Proof. unfold weight. induction V as [|v l IH]; cbn [foldr]; [done|]. rewrite len_cons. pose proof (lacks_bound (F v)). lia. Qed.

Lemma waiting_put q sha d : waiting (bgit_queue_put q sha d) = waiting q ++ [sha].
Proof. unfold waiting. cbn. by rewrite map_app. Qed.

Definition in_range (F : list Z -> Z) : Prop := forall x, 0 <= F x < 16.

(** Passing flags to some parents: who gains any is put in the queue. *)
Lemma parents_loop_ok flags ps : 0 <= flags < 8 -> forall m q, marks_ok m -> in_range (flags_of m) -> Forall (fun p => p ∈ V) ps ->
  exists m' q', parents_loop flags ps m q = Ret (m', q') /\ marks_ok m' /\
  (forall x, flags_of m' x = if decide (x ∈ ps) then Z.lor (flags_of m x) flags else flags_of m x) /\
  (forall x, x ∈ waiting q -> x ∈ waiting q') /\ (forall x, x ∈ waiting q' -> x ∈ waiting q \/ x ∈ ps) /\
  (forall x, x ∉ waiting q' -> flags_of m' x = flags_of m x) /\
  len (items q') + 2 * weight (flags_of m') <= len (items q) + 2 * weight (flags_of m).
Proof.
  intros Hfl. induction ps as [|p ps IH]; intros m q Hm Hr Hps; cbn [parents_loop].
  { exists m, q. split_and!; auto; lia. }
  apply Forall_cons in Hps as [Hp Hps]. destruct (marks_at_ok m p Hm ltac:(by eapply h_ids)) as (m1 & i & -> & Hm1 & Hfa & Hf1 & (mark & Hi & Hs)). cbn [obind].
  rewrite Hfa. cbn [obind]. pose proof (gains (flags_of m p) flags (Hr p) Hfl) as Hg.
  assert (Hr1 : in_range (flags_of m1)) by (intros x; rewrite Hf1; apply Hr). assert (Hw1 : weight (flags_of m1) = weight (flags_of m)).
  { unfold weight. clear -Hf1. induction V as [|v l IH]; cbn; [done|]. by rewrite Hf1, IH. }
  destruct (Z.land (flags_of m p) flags =? flags) eqn:E.
  - destruct (IH m1 q Hm1 Hr1 Hps) as (m' & q' & -> & Hm' & Hf & Hin & Hout & Hsame & Hw). exists m', q'. split_and!; try done.
    + intros x. rewrite Hf, !Hf1. destruct (decide (x ∈ ps)); [by rewrite decide_True by (by right)|]. destruct (decide (x = p)) as [->|].
      * rewrite decide_True by (by left). by rewrite Hg.
      * rewrite decide_False; [done|]. by rewrite not_elem_of_cons.
    + intros x Hx. destruct (Hout x Hx); [by left|]. right. by right.
    + intros x Hx. by rewrite Hsame, Hf1.
    + lia.
  - destruct (set_flags_ok m1 i mark flags Hm1 Hi) as (m2 & -> & Hm2 & _ & Hf2). cbn [obind]. destruct (h_dates Hist p Hp) as [d ->]. cbn [obind].
    assert (Hf2' : forall x, flags_of m2 x = if decide (x = p) then Z.lor (flags_of m x) flags else flags_of m x) by (intros x; by rewrite Hf2, Hs, !Hf1).
    assert (Hr2 : in_range (flags_of m2)) by (intros x; rewrite Hf2'; case_decide; [apply lor_bits; [apply Hr|lia]|apply Hr]).
    destruct (IH m2 (bgit_queue_put q p d) Hm2 Hr2 Hps) as (m' & q' & -> & Hm' & Hf & Hin & Hout & Hsame & Hw). exists m', q'. rewrite waiting_put in *. split_and!; try done.
    + intros x. rewrite Hf, !Hf2'. destruct (decide (x = p)) as [->|].
      * rewrite (decide_True (P := p ∈ p :: ps)) by (by left). case_decide; [|done]. by rewrite <- Z.lor_assoc, Z.lor_diag.
      * destruct (decide (x ∈ ps)); [by rewrite decide_True by (by right)|]. rewrite decide_False; [done|]. by rewrite not_elem_of_cons.
    + intros x Hx. apply Hin, elem_of_app. by left.
    + intros x Hx. destruct (Hout x Hx) as [[|Hx']%elem_of_app|]; [by left| |right; by right]. right. apply list_elem_of_singleton in Hx' as ->. by left.
    + intros x Hx. rewrite Hsame by done. rewrite Hf2', decide_False; [done|]. intros ->. apply Hx, Hin, elem_of_app. right. by left.
    + assert (Hlt : weight (flags_of m2) + 1 <= weight (flags_of m)); [|cbn [items bgit_queue_put] in Hw; rewrite len_app, len_cons, len_nil in Hw; lia].
      apply (weight_lt _ _ p Hp).
      * intros v. rewrite Hf2'. case_decide; [|lia]. apply lor_bits; [apply Hr|lia].
      * by rewrite Hf2', decide_True.
Qed.

(** The sides are marked and queued. *)
Lemma put_all_ok bit l : 0 <= bit < 8 -> Forall (fun x => x ∈ V) l -> forall m q, marks_ok m -> exists m' q', put_all bit l m q = Ret (m', q') /\ marks_ok m' /\
  (forall x, flags_of m' x = if decide (x ∈ l) then Z.lor (flags_of m x) bit else flags_of m x) /\ waiting q' = waiting q ++ l.
Proof.
  intros Hb Hl. induction Hl as [|p l Hp _ IH]; intros m q Hm; cbn [put_all].
  { exists m, q. by rewrite app_nil_r. }
  destruct (marks_or_ok m p bit Hm ltac:(by eapply h_ids)) as (m1 & -> & Hm1 & Hf1). cbn [obind]. destruct (h_dates Hist p Hp) as [d ->]. cbn [obind].
  destruct (IH m1 (bgit_queue_put q p d) Hm1) as (m' & q' & -> & Hm' & Hf & Hq). exists m', q'. split_and!; try done.
  - intros x. rewrite Hf, Hf1. destruct (decide (x = p)) as [->|].
    + rewrite (decide_True (P := p ∈ p :: l)) by (by left). case_decide; [|done]. by rewrite <- Z.lor_assoc, Z.lor_diag.
    + destruct (decide (x ∈ l)); [by rewrite decide_True by (by right)|]. rewrite decide_False; [done|]. by rewrite not_elem_of_cons.
  - by rewrite Hq, waiting_put, <- app_assoc.
Qed.

Lemma has_fresh_ok l : Forall (fun x => q_sha x ∈ V) l -> forall m, marks_ok m -> in_range (flags_of m) -> exists m' b, has_fresh l m = Ret (m', b) /\ marks_ok m' /\
  (forall x, flags_of m' x = flags_of m x) /\ (if b : bool then l <> [] else Forall (fun x => stale (flags_of m (q_sha x))) l).
Proof.
  induction 1 as [|x l Hx _ IH]; intros m Hm Hr; cbn [has_fresh]; [by exists m, false|].
  destruct (marks_at_ok m (q_sha x) Hm ltac:(by eapply h_ids)) as (m1 & i & -> & Hm1 & Hfa & Hf1 & _). cbn [obind]. rewrite Hfa. cbn [obind].
  destruct (picked_bits (flags_of m (q_sha x)) (Hr _)) as (_ & _ & ->). destruct (stale (flags_of m (q_sha x))) eqn:E; cbn [negb].
  - destruct (IH m1 Hm1) as (m' & b & -> & Hm' & Hf & Hb); [intros y; rewrite Hf1; apply Hr|]. exists m', b. split_and!; [done|done|intros y; by rewrite Hf, Hf1|].
    destruct b; [done|]. constructor; [by rewrite E|]. eapply Forall_impl; [exact Hb|]. intros y Hy. cbn beta in Hy. by rewrite Hf1 in Hy.
  - by exists m1, true.
Qed.

Definition picked (f : Z) : bool := p1 f && p2 f && negb (stale f).

(** The marks after a turn of the loop at [cur]. *)
Definition stepped (F : list Z -> Z) (cur : list Z) (F1 F' : list Z -> Z) : Prop :=
  (forall x, F1 x = if decide (x = cur /\ picked (F cur)) then Z.lor (F x) BGIT_RESULT else F x) /\
  (forall x, F' x = if decide (x ∈ parents_of cur) then Z.lor (F1 x) (passed (F cur)) else F1 x).

Lemma stepped_bits F cur F1 F' : in_range F -> stepped F cur F1 F' -> in_range F1 /\ forall x, 0 <= F' x < 16 /\
  p1 (F1 x) = p1 (F x) /\ p2 (F1 x) = p2 (F x) /\ stale (F1 x) = stale (F x) /\
  (chosen (F' x) <-> chosen (F x) \/ (x = cur /\ picked (F cur))) /\
  (p1 (F' x) <-> p1 (F x) \/ (x ∈ parents_of cur /\ p1 (F cur))) /\ (p2 (F' x) <-> p2 (F x) \/ (x ∈ parents_of cur /\ p2 (F cur))) /\
  (stale (F' x) <-> stale (F x) \/ (x ∈ parents_of cur /\ (stale (F cur) \/ p1 (F cur) /\ p2 (F cur)))).
Proof.
  intros Hr [H1 H2]. assert (Hr1 : in_range F1) by (intros x; rewrite H1; case_decide; [apply lor_bits; [apply Hr|by cbn]|apply Hr]).
  split; [done|]. intros x. destruct (passed_bits (F cur) (Hr cur)) as (P1 & P2 & P3 & P4 & P5).
  assert (Hb1 : p1 (F1 x) = p1 (F x) /\ p2 (F1 x) = p2 (F x) /\ stale (F1 x) = stale (F x) /\ (chosen (F1 x) <-> chosen (F x) \/ (x = cur /\ picked (F cur)))).
  { rewrite H1. case_decide as E.
    - destruct (lor_bits (F x) BGIT_RESULT (Hr x) ltac:(by cbn)) as (_ & -> & -> & -> & -> & _). cbn. rewrite !orb_false_r, orb_true_r. split_and!; try done. split; [by right|done].
    - split_and!; try done. split; [by left|by intros [|]]. }
  destruct Hb1 as (A1 & A2 & A3 & A4). rewrite H2. destruct (decide (x ∈ parents_of cur)) as [Hin|Hin].
  - destruct (lor_bits (F1 x) (passed (F cur)) (Hr1 x) ltac:(lia)) as (Hr' & -> & -> & -> & -> & _). rewrite P1, P2, P3, P4, A1, A2, A3, orb_false_r, A4.
    split_and!; try done; rewrite ?orb_True, ?andb_True; tauto.
  - rewrite A1, A2, A3, A4. split_and!; try done; try apply Hr1; split; try (by left); intros [|[]]; done.
Qed.

Lemma painted_step F F1 F' cur Q Q' R : painted F (cur :: Q) R -> stepped F cur F1 F' -> cur ∈ V ->
  (forall x, x ∈ Q -> x ∈ Q') -> (forall x, x ∈ Q' -> x ∈ Q \/ x ∈ parents_of cur) -> (forall x, x ∉ Q' -> F' x = F1 x) ->
  painted F' Q' (if picked (F cur) && negb (chosen (F cur)) then R ++ [cur] else R).
Proof.
  intros Hp Hs Hcur Hin Hout Hsame. destruct (stepped_bits _ _ _ _ (pt_range _ _ _ Hp) Hs) as [Hr1 Hb].
  assert (Hnp : cur ∉ parents_of cur) by (intros Hc; eapply (h_acyclic Hist cur), tc_once, Hc).
  assert (Hpc : picked (F cur) -> p1 (F cur) /\ p2 (F cur)) by (unfold picked; rewrite !andb_True; tauto).
  assert (Hold : forall x, x ∉ Q' -> x <> cur -> x ∉ cur :: Q /\ F' x = F x).
  { intros x Hx Hne. split; [rewrite not_elem_of_cons; auto|]. rewrite Hsame by done. destruct Hs as [-> _]. by rewrite decide_False by tauto. }
  assert (Hself : forall x, x ∉ Q' -> x = cur -> p1 (F' x) = p1 (F x) /\ p2 (F' x) = p2 (F x) /\ stale (F' x) = stale (F x)).
  { intros x Hx _. rewrite Hsame by done. by destruct (Hb x) as (_ & ? & ? & ? & _). }
  assert (Hcc : p1 (F cur) -> p2 (F cur) -> common cur) by (intros; split; [by eapply pt_one|by eapply pt_two]).
  split.
  - intros x. apply Hb.
  - intros x Hx. destruct (decide (x ∈ parents_of cur)); [by eapply (h_closed Hist cur)|]. destruct (decide (x = cur)) as [->|Hne]; [done|].
    apply (pt_known _ _ _ Hp). destruct Hs as [E1 E2]. rewrite E2, decide_False, E1, decide_False in Hx by tauto. done.
  - intros x [Hx|Hx]%Hout; [apply (pt_queue _ _ _ Hp); by right|by eapply (h_closed Hist cur)].
  - intros x. destruct (Hb x) as (_ & _ & _ & _ & _ & -> & _). intros [Hx|[Hx Hc]]; [by eapply pt_one|]. eapply rtc_l; [exact Hx|by eapply pt_one].
  - intros x. destruct (Hb x) as (_ & _ & _ & _ & _ & _ & -> & _). intros [Hx|[Hx Hc]]; [by eapply pt_two|].
    destruct (pt_two _ _ _ Hp cur Hc) as (t & Ht & Ha). exists t. split; [done|]. by eapply rtc_l.
  - intros x. destruct (Hb x) as (_ & _ & _ & _ & _ & _ & _ & ->). intros [Hx|[Hx [Hc|[Hc1 Hc2]]]]; [by eapply pt_stale| |].
    + destruct (pt_stale _ _ _ Hp cur Hc) as (y & Hy & Hcy). exists y. split; [done|]. by eapply tc_l.
    + exists cur. split; [by apply Hcc|by apply tc_once].
  - intros x. destruct (Hb x) as (_ & _ & _ & _ & -> & _). rewrite <- (pt_result _ _ _ Hp x). destruct (picked (F cur)) eqn:E; cbn [andb].
    + destruct (chosen (F cur)) eqn:Ec; cbn [negb].
      * split; [by left|]. intros [|[-> _]]; [done|]. apply (pt_result _ _ _ Hp). by rewrite Ec.
      * rewrite elem_of_app, list_elem_of_singleton. split; [intros [|]; [by left|by right]|intros [|[]]; [by left|by right]].
    + split; [by left|]. by intros [|[]].
  - destruct (picked (F cur)) eqn:E; [|apply Hp]. destruct (chosen (F cur)) eqn:Ec; cbn [negb andb]; [apply Hp|].
    apply NoDup_app. split_and!; [apply Hp| |apply NoDup_singleton]. intros x Hx. rewrite list_elem_of_singleton. intros ->.
    apply (pt_result _ _ _ Hp) in Hx. by rewrite Ec in Hx.
  - intros x. destruct (Hb x) as (_ & _ & _ & _ & -> & -> & -> & _). intros [Hc|[-> Hc]]; [destruct (pt_both _ _ _ Hp x Hc)|destruct (Hpc Hc)]; tauto.
  - destruct (Hb one) as (_ & _ & _ & _ & _ & -> & _). left. apply (pt_source1 _ _ _ Hp).
  - intros t Ht. destruct (Hb t) as (_ & _ & _ & _ & _ & _ & -> & _). left. by apply (pt_source2 _ _ _ Hp).
  - intros x p Hx Hxp. assert (Hmono : forall f, covers (F p) f -> covers (F' p) f).
    { intros f (C1 & C2 & C3). destruct (Hb p) as (_ & _ & _ & _ & _ & B1 & B2 & B3). unfold covers. rewrite B1, B2, B3. tauto. }
    destruct (decide (x = cur)) as [->|Hne].
    + destruct (Hb p) as (_ & _ & _ & _ & _ & B1 & B2 & B3). destruct (Hself cur Hx eq_refl) as (S1 & S2 & S3).
      destruct (passed_bits (F' cur) ltac:(apply Hb)) as (P1 & P2 & P3 & _). unfold covers. rewrite P1, P2, P3, B1, B2, B3, S1, S2, S3.
      unfold parent_of in Hxp. rewrite orb_True, andb_True. tauto.
    + destruct (Hold x Hx Hne) as [Hq ->]. apply Hmono. by eapply (pt_passed _ _ _ Hp).
  - intros x Hx. destruct (decide (x = cur)) as [->|Hne].
    + destruct (Hself cur Hx eq_refl) as (-> & -> & ->). intros H1 H2. destruct (Hb cur) as (_ & _ & _ & _ & -> & _).
      destruct (stale (F cur)) eqn:E; [by right|]. left. right. split; [done|]. unfold picked. by rewrite E, !andb_True.
    + destruct (Hold x Hx Hne) as [Hq ->]. by apply (pt_chosen _ _ _ Hp).
Qed.

(** The queue matters by what is in it, the marks by their flags. *)
Lemma painted_same F F' Q Q' R : painted F Q R -> (forall x, F' x = F x) -> (forall x, x ∈ Q' <-> x ∈ Q) -> painted F' Q' R.
Proof.
  intros [] HF HQ. split; try (intros x; rewrite ?HF, ?HQ; by auto); rewrite ?HF; try done.
  intros x p. rewrite !HF, HQ. auto.
Qed.

Lemma weight_same F F' : (forall x, F' x = F x) -> weight F' = weight F.
Proof. intros HF. unfold weight. clear -HF. induction V as [|v l IH]; cbn; [done|]. by rewrite HF, IH. Qed.

Lemma paint_step_ok m q cur R : marks_ok m -> painted (flags_of m) (cur :: waiting q) R ->
  exists m' q' R', paint_step cur m q R = Ret (m', q', R') /\ marks_ok m' /\ painted (flags_of m') (waiting q') R' /\
  len (items q') + 2 * weight (flags_of m') <= len (items q) + 2 * weight (flags_of m).
Proof.
  intros Hm Hp. pose proof (pt_queue _ _ _ Hp cur (list_elem_of_here _ _)) as Hcur. pose proof (pt_range _ _ _ Hp) as Hr. unfold paint_step.
  destruct (marks_at_ok m cur Hm ltac:(by eapply h_ids)) as (m1 & i & -> & Hm1 & Hfa & Hf1 & (mark & Hi & Hs)). cbn [obind]. rewrite Hfa. cbn [obind].
  destruct (picked_bits (flags_of m cur) (Hr cur)) as (Hpick & Hres & _). destruct (passed_bits (flags_of m cur) (Hr cur)) as (_ & _ & _ & _ & H8).
  set (f := Z.land (flags_of m cur) _) in *.
  assert (Hchoose : exists m2, (if f =? Z.lor BGIT_PARENT1 BGIT_PARENT2 then
      let* r := if Z.land (flags_of m cur) BGIT_RESULT =? 0 then let* marks := set_flags m1 i BGIT_RESULT in Ret (marks, R ++ [cur]) else Ret (m1, R) in
      Ret (r, Z.lor f BGIT_STALE) else Ret ((m1, R), f)) =
    Ret ((m2, if picked (flags_of m cur) && negb (chosen (flags_of m cur)) then R ++ [cur] else R), passed (flags_of m cur)) /\ marks_ok m2 /\
    forall x, flags_of m2 x = if decide (x = cur /\ picked (flags_of m cur)) then Z.lor (flags_of m x) BGIT_RESULT else flags_of m x).
  { unfold passed. fold f. rewrite Hpick, Hres. fold (picked (flags_of m cur)). destruct (picked (flags_of m cur)) eqn:Ep; cbn [andb].
    - destruct (chosen (flags_of m cur)) eqn:Ec; cbn [negb obind].
      + exists m1. split_and!; [done|done|]. intros x. rewrite Hf1. case_decide as E; [|done]. destruct E as [-> _].
        pose proof (flags_table (fun _ g => negb (chosen g) || (Z.lor g 8 =? g)) eq_refl 0 (flags_of m cur) ltac:(lia) (Hr cur)) as Ht.
        cbn beta in Ht. rewrite Ec in Ht. cbn [negb orb] in Ht. unfold BGIT_RESULT. by simpl_bool.
      + destruct (set_flags_ok m1 i mark BGIT_RESULT Hm1 Hi) as (m2 & -> & Hm2 & _ & Hf2). cbn [obind]. exists m2. split_and!; [done|done|].
        intros x. rewrite Hf2, Hs, !Hf1. destruct (decide (x = cur)) as [->|Hne]; [by rewrite decide_True|by rewrite decide_False by tauto].
    - exists m1. split_and!; [done|done|]. intros x. by rewrite Hf1, decide_False by tauto. }
  destruct Hchoose as (m2 & -> & Hm2 & Hf2). cbn [obind]. rewrite walk_parents_ok. cbn [obind].
  assert (Hr2 : in_range (flags_of m2)) by (intros x; rewrite Hf2; case_decide; [apply lor_bits; [apply Hr|by cbn]|apply Hr]).
  destruct (parents_loop_ok (passed (flags_of m cur)) (parents_of cur) H8 m2 q Hm2 Hr2) as (m' & q' & -> & Hm' & Hf' & Hin & Hout & Hsame & Hw).
  { apply Forall_forall. intros p Hpar. by eapply (h_closed Hist cur). }
  cbn [obind]. eexists _, _, _. split_and!; [done|done| |].
  - eapply painted_step; [exact Hp|split; [exact Hf2|exact Hf']|done|done|done|done].
  - enough (weight (flags_of m2) <= weight (flags_of m)) by lia. apply weight_le. intros v _. rewrite Hf2. case_decide; [|lia]. apply lor_bits; [apply Hr|by cbn].
Qed.

(** The walk ends: each turn takes a commit off the queue, and one is put there
    only with a mark it lacked. *)
Lemma paint_loop_ok fuel : forall m q R, marks_ok m -> painted (flags_of m) (waiting q) R -> len (items q) + 2 * weight (flags_of m) < Z.of_nat fuel ->
  exists R' F Q, paint_loop fuel m q R = Ret R' /\ painted F Q R' /\ Forall (fun x => stale (F x)) Q.
Proof.
  induction fuel as [|fuel IH]; intros m q R Hm Hp Hfuel; [pose proof (weight_bound (flags_of m)); pose proof (len_nonneg (items q)); lia|]. cbn [paint_loop].
  unfold bgit_queue_has_fresh.
  destruct (has_fresh_ok (items q)) with (m := m) as (m1 & b & -> & Hm1 & Hf1 & Hb); [|done|exact (pt_range _ _ _ Hp)|].
  { apply Forall_forall. intros x Hx. apply (pt_queue _ _ _ Hp). unfold waiting. by apply list_elem_of_fmap_2. }
  cbn [obind]. destruct b; cbn [negb].
  2:{ exists R, (flags_of m), (waiting q). split_and!; [done|done|]. by apply Forall_map. }
  destruct (queue_get_ok q Hb) as (x & l1 & l2 & Hq & -> & _).
  set (q0 := {| items := l1 ++ l2; next_counter := _ |}) in *.
  assert (Hp1 : painted (flags_of m1) (q_sha x :: waiting q0) R).
  { eapply painted_same; [exact Hp|done|]. intros y. unfold waiting. rewrite Hq. cbn [items q0]. rewrite !map_app. cbn [map].
    rewrite !elem_of_cons, !elem_of_app, elem_of_cons. tauto. }
  destruct (paint_step_ok m1 q0 (q_sha x) R Hm1 Hp1) as (m2 & q2 & R2 & -> & Hm2 & Hp2 & Hw). cbn [obind]. apply IH; [done|done|].
  rewrite (weight_same _ _ Hf1) in Hw. rewrite Hq in Hfuel. cbn [items q0] in Hw. rewrite !len_app, ?len_cons in *. lia.
Qed.

(** Turns enough for any walk from the two sides. *)
Definition walk_fuel : Z := 6 * len V + len twos + 2.

Lemma paint_down_ok fuel : one ∈ V -> Forall (fun t => t ∈ V) twos -> walk_fuel <= Z.of_nat fuel ->
  exists R, bgit_paint_down fuel one twos [] = Ret R /\ NoDup R /\ (forall x, x ∈ R -> common x) /\ (forall x, best x -> x ∈ R).
Proof.
  intros Ho Ht Hfuel. unfold bgit_paint_down.
  destruct (put_all_ok BGIT_PARENT1 [one] ltac:(by cbn) ltac:(by repeat constructor) no_marks no_queue no_marks_ok) as (m1 & q1 & -> & Hm1 & Hf1 & Hq1). cbn [obind fst snd].
  destruct (put_all_ok BGIT_PARENT2 twos ltac:(by cbn) Ht m1 q1 Hm1) as (m2 & q2 & -> & Hm2 & Hf2 & Hq2). cbn [obind fst snd].
  rewrite Hq1 in Hq2. change (waiting no_queue) with (@nil (list Z)) in Hq2. cbn [app] in Hq2.
  assert (Hf : forall x, flags_of m2 x = Z.lor (if decide (x = one) then 1 else 0) (if decide (x ∈ twos) then 2 else 0)).
  { intros x. rewrite Hf2, Hf1. change (flags_of no_marks x) with 0. destruct (decide (x = one)) as [->|Hne].
    - rewrite (decide_True (P := one ∈ [one])) by (by left). by case_decide.
    - rewrite (decide_False (P := x ∈ [one])) by (by rewrite list_elem_of_singleton). by case_decide. }
  assert (Hp : painted (flags_of m2) (waiting q2) []).
  { rewrite Hq2. split.
    - intros x. rewrite Hf. by repeat case_decide.
    - intros x. rewrite Hf. repeat case_decide; subst; try done; intros _; by eapply (proj1 (Forall_forall _ _) Ht).
    - intros x [->|Hx]%elem_of_cons; [done|]. by eapply (proj1 (Forall_forall _ _) Ht).
    - intros x. rewrite Hf. repeat case_decide; subst; try done; intros _; apply rtc_refl.
    - intros x. rewrite Hf. repeat case_decide; subst; try done; intros _; eexists; (split; [done|apply rtc_refl]).
    - intros x. rewrite Hf. by repeat case_decide.
    - intros x. rewrite Hf. split; [by intros ?%not_elem_of_nil|]. by repeat case_decide.
    - apply NoDup_nil_2.
    - intros x. rewrite Hf. by repeat case_decide.
    - rewrite Hf. rewrite decide_True by done. by case_decide.
    - intros t Ht'. rewrite Hf. rewrite (decide_True (P := t ∈ twos)) by done. by case_decide.
    - intros x p Hx _. rewrite (Hf x). rewrite not_elem_of_cons in Hx. rewrite !decide_False by tauto. done.
    - intros x Hx. rewrite Hf. rewrite not_elem_of_cons in Hx. by rewrite !decide_False by tauto. }
  destruct (paint_loop_ok fuel m2 q2 [] Hm2 Hp) as (R & F & Q & -> & HpR & Hst).
  { pose proof (weight_bound (flags_of m2)). unfold walk_fuel in Hfuel. assert (Hl : len (items q2) = 1 + len twos); [|lia].
    transitivity (len (waiting q2)); [unfold len, waiting; by rewrite length_map|]. by rewrite Hq2, len_cons. }
  exists R. split_and!; [done|apply HpR|by eapply painted_done..].
Qed.

End walked.

(* ------------------------------------------------------------------ *)
(** *** One commit and another *)

Lemma same_id_ok a b : a ∈ V -> b ∈ V -> same_id a b = Ret (bool_decide (a = b)).
Proof. intros Ha Hb. unfold same_id. rewrite (h_ids Hist a Ha), (h_ids Hist b Hb). done. Qed.

Lemma any_same_ok id l : id ∈ V -> Forall (fun x => x ∈ V) l -> any_same id l = Ret (bool_decide (id ∈ l)).
Proof.
  intros Hid. induction 1 as [|x l Hx _ IH]; cbn [any_same]; [done|]. rewrite same_id_ok by done. cbn [obind]. destruct (decide (x = id)) as [->|Hne].
  - rewrite bool_decide_true by done. rewrite bool_decide_true; [done|by left].
  - rewrite bool_decide_false by done. rewrite IH. f_equal. apply bool_decide_ext. rewrite elem_of_cons. split; [by right|by intros [|]].
Qed.

(** Turns enough between any two commits. *)
Definition pair_fuel : Z := 6 * len V + 3.

Lemma walk_fuel_one t : walk_fuel [t] = pair_fuel.
Proof. unfold walk_fuel, pair_fuel. rewrite len_cons, len_nil. lia. Qed.

Lemma is_ancestor_ok fuel a c : a ∈ V -> c ∈ V -> pair_fuel <= Z.of_nat fuel -> exists b : bool, bgit_is_ancestor fuel a c = Ret b /\ (b <-> ancestor a c).
Proof.
  intros Ha Hc Hfuel. unfold bgit_is_ancestor. rewrite same_id_ok by done. cbn [obind]. case_bool_decide as E.
  { exists true. split; [done|]. split; [intros _; subst; apply rtc_refl|done]. }
  destruct (paint_down_ok a [c] fuel) as (R & -> & _ & Hs & Hb); [done|by constructor|by rewrite walk_fuel_one|]. cbn [obind].
  assert (HR : Forall (fun x => x ∈ V) R) by (apply Forall_forall; intros x Hx; eapply ancestor_in; [apply (Hs x Hx)|done]).
  rewrite any_same_ok by done. eexists. split; [done|]. rewrite bool_decide_spec. split.
  - intros Hin. destruct (Hs a Hin) as (_ & t & Ht & Hat). by apply list_elem_of_singleton in Ht as ->.
  - intros Hac. apply Hb. split; [split; [apply rtc_refl|exists c; split; [by left|done]]|]. intros y [Hy _] Hp. by eapply proper_irreflexive.
Qed.

(* ------------------------------------------------------------------ *)
(** *** The best of some commits *)

(** [x] is of the list and is no proper ancestor of another. *)
Definition top (l : list (list Z)) (x : list Z) : Prop := x ∈ l /\ forall y, y ∈ l -> ~ proper x y.

(** The commit at [j] is better than that at [i], or the same and listed later. *)
Definition outdone (ids : list (list Z)) (i j : nat) : Prop :=
  exists a b, ids !! i = Some a /\ ids !! j = Some b /\ (proper a b \/ a = b /\ (i < j)%nat).

Lemma outdone_trans ids i j k : outdone ids i j -> outdone ids j k -> outdone ids i k.
Proof.
  intros (a & b & Ha & Hb & Hab) (b' & c & Hb' & Hc & Hbc). assert (b' = b) as -> by congruence. exists a, c. split_and!; [done|done|].
  destruct Hab as [Hab|[-> Hij]], Hbc as [Hbc|[-> Hjk]]; [left; by eapply tc_transitive|by left|by left|]. right. split; [done|lia].
Qed.

Lemma outdone_upward ids (P : nat -> Prop) : (forall i, (forall j, outdone ids i j -> P j) -> P i) -> forall i, P i.
Proof.
  intros Hstep i. assert (Htc : forall a b, tc (outdone ids) a b -> outdone ids a b).
  { induction 1 as [|a b d Hab _ IH]; [done|]. by eapply outdone_trans. }
  assert (Hsn : sn (outdone ids) i).
  { apply tc_finite_sn.
    - intros a (x & y & Hx & Hy & Hxy)%Htc. assert (y = x) as -> by congruence. destruct Hxy as [Hxy|[_ ?]]; [by eapply (h_acyclic Hist x)|lia].
    - exists (seq 0 (length ids)). intros j (x & y & Hx & Hy & _)%Htc. apply list_elem_of_In, in_seq. apply lookup_lt_Some in Hy. lia. }
  induction Hsn as [j _ IH]. by apply Hstep.
Qed.

(** What one commit's turn decides, those before it having been decided. *)
Definition decided (ids : list (list Z)) (n : nat) (drop : list bool) : Prop :=
  length drop = length ids /\ (forall i, (n <= i < length ids)%nat -> drop !! i = Some false) /\
  (forall i, (i < n)%nat -> (drop !! i = Some true <-> exists j, outdone ids i j)).

Lemma decided_drop ids n drop i : decided ids n drop -> drop !! i = Some true -> exists j, outdone ids i j.
Proof.
  intros (Hl & Hf & Ht) Hi. destruct (decide (i < n)%nat); [by apply Ht|]. apply lookup_lt_Some in Hi as Hlt. rewrite Hf in Hi by lia. done.
Qed.

Lemma drop_for_ok fuel ids drop i : Forall (fun x => x ∈ V) ids -> pair_fuel <= Z.of_nat fuel -> decided ids i drop -> (i < length ids)%nat ->
  forall js, Forall (fun j => j < length ids)%nat js -> exists b : bool, drop_for fuel ids i js drop = Ret (<[i := b]> drop) /\
  (b = true -> exists j, outdone ids i j) /\ (b = false -> forall j, j ∈ js -> outdone ids i j -> drop !! j = Some true).
Proof.
  intros Hids Hfuel Hd Hi. pose proof Hd as (Hl & Hfalse & Htrue). assert (Hdi : drop !! i = Some false) by (apply Hfalse; lia).
  induction 1 as [|j js Hj _ IH]; cbn [drop_for].
  { exists false. split_and!; [by rewrite list_insert_id|done|]. by intros _ j ?%not_elem_of_nil. }
  destruct (lookup_lt_is_Some_2 ids i Hi) as [a Ha], (lookup_lt_is_Some_2 ids j Hj) as [b Hb]. rewrite <- Hl in Hj. destruct (lookup_lt_is_Some_2 drop j Hj) as [dj Hdj].
  rewrite Ha, Hb, Hdi, Hdj. assert (HaV : a ∈ V) by (exact (Forall_lookup_1 _ _ _ _ Hids Ha)). assert (HbV : b ∈ V) by (exact (Forall_lookup_1 _ _ _ _ Hids Hb)).
  assert (Hskip : (bool_decide (i = j) || false || dj = true) \/ ~ outdone ids i j -> exists b0 : bool, drop_for fuel ids i js drop = Ret (<[i := b0]> drop) /\
    (b0 = true -> exists j, outdone ids i j) /\ (b0 = false -> forall k, k ∈ j :: js -> outdone ids i k -> drop !! k = Some true)).
  { intros Hc. destruct IH as (b0 & HR & Ht & Hf). exists b0. split_and!; [done|done|]. intros Hb0 k [->|Hk]%elem_of_cons Hik; [|by apply Hf].
    destruct Hc as [Hc|Hc]; [|done]. case_bool_decide as E; cbn [orb] in Hc; [|congruence]. subst j. destruct Hik as (x & y & Hx & Hy & Hxy).
    assert (y = x) as -> by congruence. destruct Hxy as [Hxy|[_ ?]]; [|lia]. by destruct (h_acyclic Hist x). }
  destruct (bool_decide (i = j) || false || dj) eqn:E; [apply Hskip; by left|]. apply orb_false_iff in E as [E ->]. rewrite orb_false_r in E. apply bool_decide_eq_false in E.
  destruct (is_ancestor_ok fuel a b HaV HbV Hfuel) as (r & -> & Hr). cbn [obind]. destruct r.
  - exists true. split_and!; [done| |done]. intros _. exists j, a, b. split_and!; [done|done|]. destruct (proj1 (rtc_tc a b) (proj1 Hr I)) as [->|]; [|by left].
    right. split; [done|]. destruct (decide (i < j)%nat); [done|]. assert (Hji : drop !! j = Some true); [|congruence].
    apply Htrue; [lia|]. exists i, b, b. split_and!; [done|done|]. right. split; [done|lia].
  - apply Hskip. right. intros (x & y & Hx & Hy & Hxy). assert (x = a) as -> by congruence. assert (y = b) as -> by congruence.
    apply Hr. destruct Hxy as [Hxy|[-> _]]; [by apply tc_rtc|apply rtc_refl].
Qed.

Lemma drop_loop_ok fuel ids : Forall (fun x => x ∈ V) ids -> pair_fuel <= Z.of_nat fuel -> forall k n drop, decided ids n drop -> (n + k = length ids)%nat ->
  exists drop', drop_loop fuel ids (seq n k) drop = Ret drop' /\ decided ids (length ids) drop'.
Proof.
  intros Hids Hfuel. induction k as [|k IH]; intros n drop Hd Hn; cbn [seq drop_loop].
  { exists drop. replace (length ids) with n by lia. done. }
  destruct (drop_for_ok fuel ids drop n Hids Hfuel Hd ltac:(lia) (seq 0 (length ids))) as (b & -> & Ht & Hf).
  { apply Forall_forall. intros j Hj%list_elem_of_In%in_seq. lia. }
  cbn [obind]. apply IH; [|lia]. destruct Hd as (Hl & Hlate & Hearly). split_and!.
  - by rewrite length_insert.
  - intros i Hi. rewrite list_lookup_insert_ne by lia. apply Hlate. lia.
  - intros i Hi. destruct (decide (i = n)) as [->|]; [|rewrite list_lookup_insert_ne by lia; apply Hearly; lia].
    rewrite list_lookup_insert_eq by lia. split; [intros [= ->]; by apply Ht|]. intros [j Hj]. f_equal. destruct b; [done|]. exfalso.
    revert Hj. pattern j. apply (outdone_upward ids). clear j. intros j Hup Hnj.
    assert (Hdj : drop !! j = Some true).
    { apply Hf; [done| |done]. destruct Hnj as (x & y & _ & Hy & _). apply list_elem_of_In, in_seq. apply lookup_lt_Some in Hy. lia. }
    destruct (decided_drop ids n drop j ltac:(done) Hdj) as [j' Hj']. exact (Hup j' Hj' (outdone_trans _ _ _ _ Hnj Hj')).
Qed.

(** [kept] is what is best of [l], each once and in the order of [l]. *)
Definition best_of (l kept : list (list Z)) : Prop := sublist kept l /\ NoDup kept /\ forall x, x ∈ kept <-> top l x.

Lemma keep_sublist ids drop : sublist (keep ids drop) ids.
Proof. revert drop. induction ids as [|id ids IH]; intros [|[] drop]; cbn [keep]; try apply sublist_nil_l; [apply sublist_cons, IH|apply sublist_skip, IH]. Qed.

Lemma keep_elem ids drop x : x ∈ keep ids drop <-> exists i, ids !! i = Some x /\ drop !! i = Some false.
Proof.
  revert drop. induction ids as [|id ids IH]; intros [|d drop]; cbn [keep]; try (split; [by intros ?%not_elem_of_nil|by intros ([|] & ? & ?)]).
  assert (Htail : (exists i, ids !! i = Some x /\ drop !! i = Some false) <-> (exists i, (id :: ids) !! S i = Some x /\ (d :: drop) !! S i = Some false)) by done.
  destruct d.
  - rewrite IH, Htail. split; [intros (i & Hi); by exists (S i)|]. intros ([|i] & Hx & Hd); [done|by exists i].
  - rewrite elem_of_cons, IH, Htail. split; [intros [->|(i & Hi)]; [by exists O|by exists (S i)]|]. intros ([|i] & Hx & Hd); [left; by injection Hx|right; by exists i].
Qed.

Lemma keep_nodup ids drop : (forall i j x, ids !! i = Some x -> ids !! j = Some x -> drop !! i = Some false -> drop !! j = Some false -> i = j) -> NoDup (keep ids drop).
Proof.
  revert drop. induction ids as [|id ids IH]; intros [|d drop] Hu; cbn [keep]; try apply NoDup_nil_2.
  assert (Htail : NoDup (keep ids drop)) by (apply IH; intros i j x ? ? ? ?; apply Nat.succ_inj; by eapply (Hu (S i) (S j) x)).
  destruct d; [done|]. apply NoDup_cons. split; [|done]. intros (i & Hi & Hd)%keep_elem. by pose proof (Hu 0%nat (S i) id eq_refl Hi eq_refl Hd).
Qed.

Lemma remove_redundant_ok fuel ids : Forall (fun x => x ∈ V) ids -> pair_fuel <= Z.of_nat fuel ->
  exists kept, bgit_remove_redundant fuel ids = Ret kept /\ best_of ids kept.
Proof.
  intros Hids Hfuel. unfold bgit_remove_redundant. destruct (Z.ltb_spec (len ids) 2) as [Hshort|_].
  { exists ids. split; [done|]. unfold best_of, top. destruct ids as [|a [|b ids]]; [| |rewrite !len_cons in Hshort; pose proof (len_nonneg ids); lia].
    - split_and!; [done|apply NoDup_nil_2|]. intros x. split; [by intros ?%not_elem_of_nil|by intros [? _]].
    - split_and!; [done|apply NoDup_singleton|]. intros x. split; [|by intros [? _]]. intros ->%list_elem_of_singleton. split; [by left|].
      intros y ->%list_elem_of_singleton. apply (h_acyclic Hist). }
  assert (Hstart : decided ids 0 (replicate (length ids) false)).
  { split_and!; [by rewrite length_replicate| |by intros i ?%Nat.nlt_0_r]. intros i Hi. apply lookup_replicate. split; [done|lia]. }
  destruct (drop_loop_ok fuel ids Hids Hfuel (length ids) 0 _ Hstart eq_refl) as (drop & -> & Hd). cbn [obind]. exists (keep ids drop). split; [done|].
  assert (Hkept : forall i x, ids !! i = Some x -> drop !! i = Some false <-> ~ exists j, outdone ids i j).
  { intros i x Hi. destruct Hd as (Hl & _ & Ht). apply lookup_lt_Some in Hi as Hlt. rewrite <- Ht by done. rewrite <- Hl in Hlt.
    apply lookup_lt_is_Some_2 in Hlt as [[] ->]; split; congruence. }
  unfold best_of. split_and!; [apply keep_sublist| |].
  - apply keep_nodup. intros i j x Hi Hj Ni Nj. destruct (Nat.lt_trichotomy i j) as [Hij|[|Hij]]; [|done|].
    + destruct (proj1 (Hkept i x Hi) Ni). exists j, x, x. split_and!; [done|done|by right].
    + destruct (proj1 (Hkept j x Hj) Nj). exists i, x, x. split_and!; [done|done|by right].
  - intros x. rewrite keep_elem. split.
    + intros (i & Hi & Hf). apply (Hkept i x Hi) in Hf. split; [by eapply list_elem_of_lookup_2|]. intros y [j Hj]%list_elem_of_lookup_1 Hxy.
      apply Hf. exists j, x, y. split_and!; [done|done|by left].
    + intros [[i Hi]%list_elem_of_lookup_1 Htop]. revert Hi. pattern i. apply (outdone_upward ids). clear i. intros i Hup Hi.
      destruct (drop !! i) as [[]|] eqn:E; [| |apply lookup_ge_None in E; apply lookup_lt_Some in Hi; destruct Hd as (? & _); lia].
      * destruct (decided_drop ids _ drop i Hd E) as (j & Hj). apply (Hup j Hj). destruct Hj as (a & b & Ha & Hb & Hab).
        assert (a = x) as -> by congruence. destruct Hab as [Hab|[<- _]]; [|done]. destruct (Htop b); [by eapply list_elem_of_lookup_2|done].
      * by exists i.
Qed.

(** Everything the walk's answer leaves open is settled by dropping what another reaches. *)
Lemma merge_bases_ok fuel one twos : one ∈ V -> Forall (fun t => t ∈ V) twos -> walk_fuel twos + 1 <= Z.of_nat fuel ->
  exists bases, bgit_merge_bases_many fuel one twos = Ret bases /\ NoDup bases /\ forall x, x ∈ bases <-> best one twos x.
Proof.
  intros Ho Ht Hfuel. unfold bgit_merge_bases_many. rewrite any_same_ok by done. cbn [obind]. destruct (decide (one ∈ twos)) as [Hin|Hout].
  { rewrite bool_decide_true by done. exists [one]. split_and!; [done|apply NoDup_singleton|]. intros x. rewrite list_elem_of_singleton. unfold best, common. split.
    - intros ->. split; [split; [apply rtc_refl|exists one; split; [done|apply rtc_refl]]|]. intros y [Hy _] Hp. by eapply proper_irreflexive.
    - intros [[Hx _] Hb]. apply rtc_tc in Hx as [|Hx]; [done|]. destruct (Hb one); [|done]. split; [apply rtc_refl|]. exists one. split; [done|apply rtc_refl]. }
  rewrite bool_decide_false by done. destruct (paint_down_ok one twos fuel Ho Ht ltac:(lia)) as (R & -> & _ & Hs & Hb). cbn [obind].
  assert (HR : Forall (fun x => x ∈ V) R) by (apply Forall_forall; intros x Hx; eapply ancestor_in; [apply (Hs x Hx)|done]).
  destruct (remove_redundant_ok fuel R HR) as (kept & -> & _ & Hnd & Hk); [unfold walk_fuel, pair_fuel in *; pose proof (len_nonneg twos); lia|].
  exists kept. split_and!; [done|done|]. intros x. rewrite Hk. unfold top. split.
  - intros [Hx Htop]. split; [by apply Hs|]. intros y Hy. assert (HyV : y ∈ V) by (by eapply ancestor_in; [apply Hy|]). revert Hy. pattern y.
    refine (upward _ _ y HyV). clear y HyV. intros y HyV Hup Hy Hxy. apply (Htop y); [|done]. apply Hb. split; [done|]. intros b Hcb Hyb.
    eapply (Hup b); [by eapply ancestor_in; [apply Hcb|]|done|done|]. by eapply tc_transitive.
  - intros Hbx. split; [by apply Hb|]. intros y Hy. apply Hbx, Hs, Hy.
Qed.

(* ------------------------------------------------------------------ *)
(** *** Many commits at once *)

(** The walk itself decides who is whose ancestor. *)
Lemma ancestor_dec a c : a ∈ V -> c ∈ V -> ancestor a c \/ ~ ancestor a c.
Proof.
  intros Ha Hc. destruct (is_ancestor_ok (Z.to_nat pair_fuel) a c Ha Hc) as ([] & _ & Hb); [unfold pair_fuel; pose proof (len_nonneg V); lia| |].
  - left. by apply Hb.
  - right. intros H'. by apply Hb in H'.
Qed.

(** Each common ancestor has a best one above it. *)
Lemma best_above one c x : one ∈ V -> c ∈ V -> ancestor x one -> ancestor x c -> exists b, best one [c] b /\ ancestor x b.
Proof.
  intros Ho Hc Hxo Hxc. assert (HxV : x ∈ V) by (by eapply ancestor_in). revert Hxo Hxc. pattern x. refine (upward _ _ x HxV). clear x HxV. intros x HxV Hup Hxo Hxc.
  assert (Hl : forall l, Forall (fun y => y ∈ V) l -> (exists y, y ∈ l /\ ancestor y one /\ ancestor y c /\ proper x y) \/
    (forall y, y ∈ l -> ancestor y one -> ancestor y c -> ~ proper x y)).
  { induction 1 as [|y l Hy _ [(z & Hz & ?)|IH]]; [right; by intros y ?%not_elem_of_nil|left; exists z; split; [by right|done]|].
    destruct (ancestor_dec y one Hy Ho) as [H1|H1]; [|right; intros z [->|Hz]%elem_of_cons; [done|by apply IH]].
    destruct (ancestor_dec y c Hy Hc) as [H2|H2]; [|right; intros z [->|Hz]%elem_of_cons; [done|by apply IH]].
    destruct (ancestor_dec x y HxV Hy) as [[<-|H3]%rtc_tc|H3].
    - right. intros z [->|Hz]%elem_of_cons; [intros _ _; apply (h_acyclic Hist)|by apply IH].
    - left. exists y. split; [by left|done].
    - right. intros z [->|Hz]%elem_of_cons; [intros _ _ Hp; by apply H3, tc_rtc|by apply IH]. }
  destruct (Hl V (proj2 (Forall_forall _ _) (fun y Hy => Hy))) as [(y & Hy & H1 & H2 & H3)|Hnone].
  - destruct (Hup y Hy H3 H1 H2) as (b & Hb & Hyb). exists b. split; [done|]. eapply ancestor_trans; [by apply tc_rtc|done].
  - exists x. split; [|apply rtc_refl]. split; [split; [done|]; exists c; split; [by left|done]|]. intros y [Hyo (t & Ht & Hyt)]. apply list_elem_of_singleton in Ht as ->.
    apply Hnone; [by eapply ancestor_in|done|done].
Qed.

(** The commits below one of [l]. *)
Definition below (l : list (list Z)) (x : list Z) : Prop := exists c, c ∈ l /\ ancestor x c.

Lemma below_app l1 l2 x : below (l1 ++ l2) x <-> below l1 x \/ below l2 x.
Proof.
  unfold below. split.
  - intros (c & [?|?]%elem_of_app & ?); [left|right]; by exists c.
  - intros [(c & ? & ?)|(c & ? & ?)]; exists c; rewrite elem_of_app; auto.
Qed.

Lemma carry_ok fuel commit : commit ∈ V -> pair_fuel + 1 <= Z.of_nat fuel -> forall carried, Forall (fun c => c ∈ V) carried -> forall next, Forall (fun c => c ∈ V) next ->
  exists next', carry fuel commit carried next = Ret next' /\ Forall (fun c => c ∈ V) next' /\
  forall x, below next' x <-> below next x \/ (ancestor x commit /\ below carried x).
Proof.
  intros Hc Hfuel. induction 1 as [|c carried HcV _ IH]; intros next Hn; cbn [carry].
  { exists next. split_and!; [done|done|]. intros x. split; [by left|]. intros [|(_ & c & ?%not_elem_of_nil & _)]; done. }
  destruct (merge_bases_ok fuel commit [c] Hc) as (bases & -> & _ & Hb); [by constructor|by rewrite walk_fuel_one|]. cbn [obind].
  assert (HbV : Forall (fun x => x ∈ V) bases) by (apply Forall_forall; intros x [[Hx _] _]%Hb; by eapply ancestor_in).
  destruct (IH (next ++ bases)) as (next' & -> & HnV & Hx); [by apply Forall_app|]. exists next'. split_and!; [done|done|]. intros x. rewrite Hx, below_app.
  assert (Hbase : below bases x <-> ancestor x commit /\ ancestor x c).
  { split.
    - intros (b & [[H1 (t & Ht & H2)] _]%Hb & Hxb). apply list_elem_of_singleton in Ht as ->. split; by eapply ancestor_trans.
    - intros [H1 H2]. destruct (best_above commit c x Hc HcV H1 H2) as (b & Hbb & Hxb). exists b. split; [by apply Hb|done]. }
  rewrite Hbase. unfold below. split.
  - intros [[?|[? ?]]|(? & d & ? & ?)]; [by left|right; split; [done|]; exists c; split; [by left|done]|right; split; [done|]; exists d; split; [by right|done]].
  - intros [?|(? & d & [->|?]%elem_of_cons & ?)]; [by left; left|by left; right|right; split; [done|]; by exists d].
Qed.

Lemma octopus_loop_ok fuel : pair_fuel + 1 <= Z.of_nat fuel -> forall commits, Forall (fun c => c ∈ V) commits -> forall carried, Forall (fun c => c ∈ V) carried ->
  exists carried', octopus_loop fuel commits carried = Ret carried' /\ Forall (fun c => c ∈ V) carried' /\
  forall x, below carried' x <-> below carried x /\ forall c, c ∈ commits -> ancestor x c.
Proof.
  intros Hfuel. induction 1 as [|c commits Hc _ IH]; intros carried HV; cbn [octopus_loop].
  { exists carried. split_and!; [done|done|]. intros x. split; [|by intros [? _]]. intros Hx. split; [done|]. by intros c ?%not_elem_of_nil. }
  destruct (carry_ok fuel c Hc Hfuel carried HV [] ltac:(constructor)) as (next & -> & HnV & Hn). cbn [obind].
  destruct (IH next HnV) as (carried' & -> & HcV & Hx). exists carried'. split_and!; [done|done|]. intros x. rewrite Hx, Hn. split.
  - intros [[(d & ?%not_elem_of_nil & _)|[Hxc Hb]] Hall]; [done|]. split; [done|]. intros d [->|?]%elem_of_cons; [done|by apply Hall].
  - intros [Hb Hall]. split; [right; split; [|done]; apply Hall; by left|]. intros d Hd. apply Hall. by right.
Qed.

(** Ancestors of all of some commits; the best of those. *)
Definition common_all (commits : list (list Z)) (x : list Z) : Prop := forall c, c ∈ commits -> ancestor x c.
Definition best_all (commits : list (list Z)) (x : list Z) : Prop := common_all commits x /\ forall y, common_all commits y -> ~ proper x y.

Lemma octopus_ok fuel first commits : Forall (fun c => c ∈ V) (first :: commits) -> pair_fuel + 1 <= Z.of_nat fuel ->
  exists bases, bgit_merge_bases_octopus fuel (first :: commits) = Ret bases /\ NoDup bases /\ forall x, x ∈ bases <-> best_all (first :: commits) x.
Proof.
  intros [Hf Hcs]%Forall_cons Hfuel. cbn [bgit_merge_bases_octopus].
  destruct (octopus_loop_ok fuel Hfuel commits Hcs [first] ltac:(by repeat constructor)) as (carried & -> & HcV & Hb). cbn [obind].
  destruct (remove_redundant_ok fuel carried HcV ltac:(lia)) as (kept & -> & _ & Hnd & Hk). exists kept. split_and!; [done|done|]. intros x. rewrite Hk.
  assert (Hall : forall y, below carried y <-> common_all (first :: commits) y).
  { intros y. rewrite Hb. unfold common_all, below. setoid_rewrite list_elem_of_singleton. setoid_rewrite elem_of_cons. split.
    - intros [(d & -> & Hy) Hr] c [->|]; [done|by apply Hr].
    - intros Hy. split; [exists first; split; [done|apply Hy; by left]|]. intros c Hc. apply Hy. by right. }
  assert (Hin : forall y, y ∈ carried -> common_all (first :: commits) y) by (intros y Hy; apply Hall; exists y; split; [done|apply rtc_refl]).
  unfold top, best_all. split.
  - intros [Hx Ht]. split; [by apply Hin|]. intros y (c & Hc & Hyc)%Hall Hxy. eapply (Ht c Hc). by eapply tc_rtc_r.
  - intros [Hx Hm]. split; [|intros y Hy; apply Hm, Hin, Hy]. pose proof Hx as (c & Hc & Hxc)%Hall. apply rtc_tc in Hxc as [->|Hxc]; [done|].
    by destruct (Hm c (Hin c Hc)).
Qed.

End history.

(* ------------------------------------------------------------------ *)
(** ** What the functions answer *)

(** [C30] (termination) The question whether one commit is an ancestor of
    another, or the same, is answered, and rightly, in a number of turns
    linear in the history. *)
Theorem is_ancestor_exact `{Objects} V fuel a c : history V -> a ∈ V -> c ∈ V -> pair_fuel V <= Z.of_nat fuel ->
  exists answer : bool, bgit_is_ancestor fuel a c = Ret answer /\ (answer <-> ancestor a c).
Proof. intros Hh. by apply is_ancestor_ok. Qed.

(** [C29] (functional) The merge bases of a commit and some others are exactly
    the common ancestors of which none is an ancestor of another common one,
    each once, whatever dates the commits have. *)
Theorem merge_bases_exact `{Objects} V fuel one twos : history V -> one ∈ V -> Forall (fun t => t ∈ V) twos -> walk_fuel V twos + 1 <= Z.of_nat fuel ->
  exists bases, bgit_merge_bases_many fuel one twos = Ret bases /\ NoDup bases /\ forall x, x ∈ bases <-> best one twos x.
Proof. intros Hh. by apply merge_bases_ok. Qed.

(** [C31] (functional) The octopus bases of some commits are exactly the best of
    the ancestors that all of them share, each once. *)
Theorem octopus_exact `{Objects} V fuel first commits : history V -> Forall (fun c => c ∈ V) (first :: commits) -> pair_fuel V + 1 <= Z.of_nat fuel ->
  exists bases, bgit_merge_bases_octopus fuel (first :: commits) = Ret bases /\ NoDup bases /\ forall x, x ∈ bases <-> best_all (first :: commits) x.
Proof. intros Hh. by apply octopus_ok. Qed.

(** Of some commits the independent ones are those no other of
    them reaches, each once and in the order they were named. *)
Theorem independent_exact `{Objects} V fuel commits : history V -> Forall (fun c => c ∈ V) commits -> pair_fuel V <= Z.of_nat fuel ->
  exists kept, bgit_independent fuel commits = Ret kept /\ best_of commits kept.
Proof. intros Hh. by apply remove_redundant_ok. Qed.

(* ------------------------------------------------------------------ *)
(** ** A history with two best common ancestors *)

Definition demo_id (c : Z) : list Z := replicate 40 c.

Definition demo_text (date : Z) (parents : list (list Z)) : list Z :=
  commit_text {| cm_tree := demo_id 48; cm_parents := parents; cm_author := str "A <a@b> 5 +0000"; cm_committer := str "B <b@c"; cm_date := date;
    cm_zone := str "+0000"; cm_extra := []; cm_message := [] |}.

(** [r] is the root, [a] and [b] follow it, and [m] and [n] merge both; [n] is
    dated before all. *)
Definition demo_parents (sha : list Z) : option (Z * list (list Z)) :=
  if beq sha (demo_id 114) then Some (100, [])
  else if beq sha (demo_id 97) then Some (200, [demo_id 114])
  else if beq sha (demo_id 98) then Some (300, [demo_id 114])
  else if beq sha (demo_id 109) then Some (400, [demo_id 97; demo_id 98])
  else if beq sha (demo_id 110) then Some (50, [demo_id 98; demo_id 97])
  else None.

Definition demo_objects : Objects :=
  {| bgit_odb_read := fun sha => match demo_parents sha with Some (date, parents) => Some (BGIT_COMMIT, demo_text date parents) | None => None end |}.

Definition demo_V : list (list Z) := map demo_id [109; 110; 97; 98; 114].

Definition demo_rank (sha : list Z) : nat :=
  let sha := c_text sha in
  if beq sha (demo_id 114) then 1 else if beq sha (demo_id 97) || beq sha (demo_id 98) then 2 else 3.

(** Where parents rank lower, no commit is its own ancestor. *)
Lemma ranked_acyclic `{Objects} (rank : list Z -> nat) : (forall c p, parent_of p c -> (rank p < rank c)%nat) -> forall c, ~ proper c c.
Proof.
  intros Hr c Hc. assert (Hlt : forall a b, proper a b -> (rank a < rank b)%nat); [|pose proof (Hlt c c Hc); lia].
  induction 1 as [a b Hab|a b d Hab _ IH]; [by apply Hr|]. specialize (Hr _ _ Hab). lia.
Qed.

Lemma demo_parents_of c p : @parent_of demo_objects p c -> (demo_rank p < demo_rank c)%nat /\ p ∈ demo_V.
Proof.
  unfold parent_of, parents_of, walk_parents, bgit_commit_parents, odb_read, demo_objects, bgit_odb_read, demo_rank. generalize (c_text c). intros s. unfold demo_parents.
  destruct (beq s (demo_id 114)) eqn:E1; [vm_compute; by intros ?%not_elem_of_nil|].
  destruct (beq s (demo_id 97)) eqn:E2; [|destruct (beq s (demo_id 98)) eqn:E3; [|destruct (beq s (demo_id 109)) eqn:E4; [|destruct (beq s (demo_id 110)) eqn:E5]]];
    cbn [orb].
  all: try (cbn [obind]; by intros ?%not_elem_of_nil).
  all: match goal with |- context[demo_text ?d ?ps] =>
    replace (p ∈ _) with (p ∈ ps) by (f_equal; vm_compute; reflexivity) end; intros Hp; repeat (apply elem_of_cons in Hp as [->|Hp]); try by apply not_elem_of_nil in Hp.
  all: split; [vm_compute; lia|unfold demo_V; cbn [map]; rewrite !elem_of_cons; tauto].
Qed.

Lemma demo_history : @history demo_objects demo_V.
Proof.
  split.
  - intros c Hc. revert c Hc. apply Forall_forall. by repeat constructor.
  - intros c p _ Hp. apply (demo_parents_of c p Hp).
  - intros c Hc. revert c Hc. apply Forall_forall. repeat constructor; eexists; vm_compute; reflexivity.
  - apply (@ranked_acyclic demo_objects demo_rank). intros c p Hp. apply (demo_parents_of c p Hp).
Qed.

Ltac demo_in := apply list_elem_of_In; cbn; tauto.

Theorem is_ancestor_exact_witness : exists answer : bool, @bgit_is_ancestor demo_objects 40 (demo_id 114) (demo_id 110) = Ret answer /\
  (answer <-> @ancestor demo_objects (demo_id 114) (demo_id 110)).
Proof. apply (@is_ancestor_exact demo_objects demo_V 40 (demo_id 114) (demo_id 110) demo_history); [demo_in|demo_in|vm_compute; congruence]. Defined.

Theorem merge_bases_exact_witness : exists bases, @bgit_merge_bases_many demo_objects 40 (demo_id 109) [demo_id 110] = Ret bases /\ NoDup bases /\
  forall x, x ∈ bases <-> @best demo_objects (demo_id 109) [demo_id 110] x.
Proof. apply (@merge_bases_exact demo_objects demo_V 40 (demo_id 109) [demo_id 110] demo_history); [demo_in|repeat constructor; demo_in|vm_compute; congruence]. Defined.

Theorem octopus_exact_witness : exists bases, @bgit_merge_bases_octopus demo_objects 40 [demo_id 109; demo_id 110; demo_id 97] = Ret bases /\ NoDup bases /\
  forall x, x ∈ bases <-> @best_all demo_objects [demo_id 109; demo_id 110; demo_id 97] x.
Proof.
  apply (@octopus_exact demo_objects demo_V 40 (demo_id 109) [demo_id 110; demo_id 97] demo_history); [repeat constructor; demo_in|vm_compute; congruence].
Defined.

Theorem independent_exact_witness : exists kept, @bgit_independent demo_objects 40 [demo_id 97; demo_id 109; demo_id 109] = Ret kept /\
  @best_of demo_objects [demo_id 97; demo_id 109; demo_id 109] kept.
Proof.
  apply (@independent_exact demo_objects demo_V 40 [demo_id 97; demo_id 109; demo_id 109] demo_history); [repeat constructor; demo_in|vm_compute; congruence].
Defined.

(** Two best common ancestors are both found, and a commit named twice is kept once. *)
Example demo_bases : @bgit_merge_bases_many demo_objects 40 (demo_id 109) [demo_id 110] = Ret [demo_id 98; demo_id 97] /\
  @bgit_merge_bases_octopus demo_objects 40 [demo_id 109; demo_id 110; demo_id 97] = Ret [demo_id 97] /\
  @bgit_independent demo_objects 40 [demo_id 97; demo_id 109; demo_id 109] = Ret [demo_id 109].
Proof. split_and!; vm_compute; reflexivity. Qed.
