(* ===== verification/Tree.v ===== *)
(** * Trees (tree.c)

    Writing the trees an index describes and reading a tree back into index
    entries.  The writer threads the object store through its writes and its
    recursion over directories; the walk reads a store that does not change
    under it.  What was written is read back as the entries it was written
    from, and a walk ends on any store, since a path has to fit its buffer. *)

From stdpp Require Import list.
From S2P Require Import Prelude Endian CLib Odb Index IndexEdit Commit.

#[local] Open Scope Z_scope.

(* ------------------------------------------------------------------ *)
(** ** A store that can be written *)

(** [bgit_write_object] with its type name and content: the id in hexadecimal,
    and the store after it. *)
Class Store := {
  repo : Type;
  objects_of : repo -> Objects;
  bgit_write_object : repo -> list Z -> list Z -> outcome (list Z) * repo }.

(** What is written can be read, and what could be read still can. *)
Class StoreLaws `{Store} := {
  write_no_fault s type content : fst (bgit_write_object s type content) <> Fault;
  write_hex s type content hex s' : bgit_write_object s type content = (Ret hex, s') -> exists sha, oid sha /\ hex = bgit_sha_to_hex sha;
  write_reads s kind content hex s' : bgit_write_object s (bgit_type_name kind) content = (Ret hex, s') ->
    @bgit_odb_read (objects_of s') hex = Some (kind, content);
  write_keeps s type content r s' x o : bgit_write_object s type content = (r, s') ->
    @bgit_odb_read (objects_of s) x = Some o -> @bgit_odb_read (objects_of s') x = Some o }.

(* ------------------------------------------------------------------ *)
(** ** Writing *)

Record bgit_tree_entry := { te_name : list Z; te_mode : list Z; te_sha : list Z; te_is_dir : bool }.

Definition bgit_tree_entry_cmp (a b : bgit_tree_entry) : Z :=
  let la := len (te_name a) in
  let lb := len (te_name b) in
  let n := Z.min la lb in
  let c := bcmp (take (Z.to_nat n) (te_name a)) (take (Z.to_nat n) (te_name b)) in
  if negb (c =? 0) then c
  else if la =? lb then 0
  else
    let ca := if la >? n then nth (Z.to_nat n) (te_name a) 0 else if te_is_dir a then 47 else 0 in
    let cb := if lb >? n then nth (Z.to_nat n) (te_name b) 0 else if te_is_dir b then 47 else 0 in
    ca - cb.

(** [snprintf] into eight bytes. *)
Definition mode8 (s : list Z) : list Z := take 7 s.

(** ["<mode> <name>\0<20 bytes>"]. *)
Definition tree_entry_bytes (c : bgit_tree_entry) : list Z := te_mode c ++ 32 :: te_name c ++ 0 :: te_sha c.
Definition tree_body (children : list bgit_tree_entry) : list Z := concat (map tree_entry_bytes children).

Section writing.
Context `{Store} `{Qsort}.

(** The end of [bgit_write_tree_at]: the children are sorted and written. *)
Definition finish_tree (s : repo) (children : list bgit_tree_entry) : outcome (list Z) * repo :=
  let children := if len children >? 1 then qsort bgit_tree_entry_cmp children else children in
  bgit_write_object s (str "tree") (tree_body children).

(** The loop of [bgit_write_tree_at]: the children under [prefix], the entries
    it left, and the store.  [fuel] bounds entries and depth together. *)
Fixpoint children_under (fuel : nat) (s : repo) (entries : list bgit_index_entry) (prefix : list Z) (children : list bgit_tree_entry)
    : outcome (list bgit_tree_entry * list bgit_index_entry) * repo :=
  match fuel, entries with
  | O, _ => (Fault, s)
  | _, [] => (Ret (children, []), s)
  | S fuel', entry :: entries' =>
      if negb (starts prefix (e_path entry)) then (Ret (children, entries), s)
      else
        let rest := drop (length prefix) (e_path entry) in
        match find_byte 47 rest with
        | None =>
            let c := {| te_name := rest; te_mode := mode8 (print_oct (mode entry)); te_sha := sha entry; te_is_dir := false |} in
            children_under fuel' s entries' prefix (children ++ [c])
        | Some slash =>
            let dir_len := Z.of_nat slash + 1 in
            if len prefix + dir_len >=? 4096 then (failed, s)
            else
              let sub_prefix := take (Z.to_nat (len prefix + dir_len)) (e_path entry) in
              match children_under fuel' s entries sub_prefix [] with
              | (Ret (sub, entries), s) =>
                  match finish_tree s sub with
                  | (Ret sub_sha, s) =>
                      match bgit_hex_to_sha sub_sha with
                      | Ret binary =>
                          let c := {| te_name := take slash rest; te_mode := mode8 (str "40000"); te_sha := binary; te_is_dir := true |} in
                          children_under fuel' s entries prefix (children ++ [c])
                      | Fail m => (Fail m, s)
                      | Fault => (Fault, s)
                      end
                  | (Fail m, s) => (Fail m, s)
                  | (Fault, s) => (Fault, s)
                  end
              | (Fail m, s) => (Fail m, s)
              | (Fault, s) => (Fault, s)
              end
        end
  end.

Definition write_fuel (entries : list bgit_index_entry) : nat := (length entries * 4098 + 4098)%nat.

Definition bgit_write_tree_at (s : repo) (entries : list bgit_index_entry) (prefix : list Z) : outcome (list Z * list bgit_index_entry) * repo :=
  match children_under (write_fuel entries) s entries prefix [] with
  | (Ret (children, entries), s) =>
      match finish_tree s children with
      | (Ret hex, s) => (Ret (hex, entries), s)
      | (Fail m, s) => (Fail m, s)
      | (Fault, s) => (Fault, s)
      end
  | (Fail m, s) => (Fail m, s)
  | (Fault, s) => (Fault, s)
  end.

Definition bgit_write_tree (s : repo) (entries : list bgit_index_entry) : outcome (list Z) * repo :=
  if existsb (fun e => negb (stage_of e =? 0)) entries then (Fail "%s: unmerged (%s)", s)
  else
    match bgit_write_tree_at s entries [] with
    | (Ret (hex, _), s) => (Ret hex, s)
    | (Fail m, s) => (Fail m, s)
    | (Fault, s) => (Fault, s)
    end.

End writing.

(* ------------------------------------------------------------------ *)
(** ** Reading *)

Definition bgit_tree_type (mode : list Z) : list Z :=
  if beq mode (str "40000") || beq mode (str "040000") then str "tree"
  else if beq mode (str "160000") then str "commit"
  else str "blob".

(** The entry at the front of what is left of a tree: mode, name and id, and
    what follows; none where the walk returns -1. *)
Definition next_entry (rest : list Z) : option (list Z * list Z * list Z * list Z) :=
  match find_byte 32 rest with
  | None => None
  | Some mode_len =>
      if Z.of_nat mode_len >=? 16 then None
      else
        let mode := take mode_len rest in
        let rest := drop (S mode_len) rest in
        match find_byte 0 rest with
        | None => None
        | Some name_len =>
            let name := take name_len rest in
            if negb (bgit_index_path_valid name) || bool_decide (is_Some (find_byte 47 name)) then None
            else
              let rest := drop (S name_len) rest in
              if len rest <? 20 then None else Some (c_text mode, name, take 20 rest, drop 20 rest)
        end
  end.

Section walking.
Context `{Objects} {C : Type}.

(** A visitor: it is shown the mode, the type, the id and the path, and answers 0 to go on. *)
Definition visitor : Type := C -> list Z -> list Z -> list Z -> list Z -> outcome (Z * C).

(** The loop over one tree; [sub] walks a subtree. *)
Fixpoint tree_walk_loop (steps : nat) (sub : list Z -> list Z -> C -> outcome (Z * C)) (recursive show_trees : bool) (fn : visitor)
    (prefix rest : list Z) (ctx : C) : outcome (Z * C) :=
  match steps with
  | O => Fault
  | S steps' =>
      if len rest =? 0 then Ret (0, ctx)
      else
        match next_entry rest with
        | None => Ret (-1, ctx)
        | Some (mode, name, sha, rest') =>
            let hex := bgit_sha_to_hex sha in
            let path := prefix ++ name in
            if len path >=? 4096 then Ret (-1, ctx)
            else
              let kind := bgit_tree_type mode in
              let is_tree := beq kind (str "tree") in
              let* r := if negb is_tree || negb recursive || show_trees then fn ctx mode kind hex path else Ret (0, ctx) in
              let '(rc, ctx) := r in
              if negb (rc =? 0) then Ret (rc, ctx)
              else if is_tree && recursive then
                if len path + 1 >=? 4096 then Ret (-1, ctx)
                else
                  let* r := sub hex (path ++ [47]) ctx in
                  let '(rc, ctx) := r in
                  if negb (rc =? 0) then Ret (rc, ctx) else tree_walk_loop steps' sub recursive show_trees fn prefix rest' ctx
              else tree_walk_loop steps' sub recursive show_trees fn prefix rest' ctx
        end
  end.

Fixpoint walk_at (depth : nat) (tree_sha prefix : list Z) (recursive show_trees : bool) (fn : visitor) (ctx : C) : outcome (Z * C) :=
  match depth with
  | O => Fault
  | S depth' =>
      match bgit_odb_read (c_text tree_sha) with
      | None => Ret (-1, ctx)
      | Some (type, data) =>
          if negb (bool_decide (type = BGIT_TREE)) then Ret (-1, ctx)
          else tree_walk_loop (S (length data)) (fun hex prefix => walk_at depth' hex prefix recursive show_trees fn) recursive show_trees fn prefix data ctx
      end
  end.

(** A path is shorter than 4096 bytes, and each level adds two to it. *)
Definition bgit_tree_walk : list Z -> list Z -> bool -> bool -> visitor -> C -> outcome (Z * C) := walk_at 2049.

End walking.

Section reading.
Context `{Objects} `{Qsort}.

Definition tree_index_entry (mode sha path : list Z) : bgit_index_entry :=
  {| ctime_sec := 0; ctime_nsec := 0; mtime_sec := 0; mtime_nsec := 0; dev := 0; ino := 0;
     Index.mode := u32 (fst (fst (strtoul 8 mode))); uid := 0; gid := 0; size := 0; Index.sha := sha;
     flags := u16 (if len path >? 0xFFF then 0xFFF else len path); flags2 := 0; e_path := path |}.

Definition bgit_read_tree_entry (entries : list bgit_index_entry) (mode type sha path : list Z) : outcome (Z * list bgit_index_entry) :=
  if beq type (str "tree") then Ret (0, entries)
  else
    match bgit_hex_to_sha sha with
    | Ret binary => Ret (0, entries ++ [tree_index_entry mode binary path])
    | Fail _ => Ret (-1, entries)
    | Fault => Fault
    end.

Definition bgit_read_tree (tree_sha : list Z) : outcome (list bgit_index_entry) :=
  let* r := bgit_tree_walk tree_sha [] true false bgit_read_tree_entry [] in
  let '(rc, entries) := r in
  if rc <? 0 then failed
  else Ret (if len entries >? 1 then qsort bgit_index_path_cmp entries else entries).

End reading.

(* ------------------------------------------------------------------ *)
(** ** What a store holds *)

(** What a recursive walk shows of one file. *)
Record leaf := { lf_mode : list Z; lf_kind : list Z; lf_hex : list Z; lf_path : list Z }.

Definition leaf_at (prefix : list Z) (c : bgit_tree_entry) : leaf :=
  {| lf_mode := te_mode c; lf_kind := bgit_tree_type (te_mode c); lf_hex := bgit_sha_to_hex (te_sha c); lf_path := prefix ++ te_name c |}.

(** A child that is written as it will be read. *)
Record child_ok (prefix : list Z) (c : bgit_tree_entry) : Prop := {
  co_mode : Forall (fun b => b <> 32 /\ b <> 0) (te_mode c) /\ len (te_mode c) < 16;
  co_name : Forall (fun b => b <> 0 /\ b <> 47) (te_name c);
  co_valid : bgit_index_path_valid (te_name c) = true;
  co_sha : oid (te_sha c);
  co_path : len (prefix ++ te_name c) < 4096 }.

(** The tree of an id has these leaves, its own children and its subtrees' in order. *)
Inductive tree_at (o : Objects) : list Z -> list Z -> list leaf -> Prop :=
| tree_node hex prefix cs ls : bgit_odb_read (c_text hex) = Some (BGIT_TREE, tree_body cs) -> children_at o prefix cs ls -> tree_at o hex prefix ls
with children_at (o : Objects) : list Z -> list bgit_tree_entry -> list leaf -> Prop :=
| children_none prefix : children_at o prefix [] []
| children_some prefix c cs ls1 ls : child_at o prefix c ls1 -> children_at o prefix cs ls -> children_at o prefix (c :: cs) (ls1 ++ ls)
with child_at (o : Objects) : list Z -> bgit_tree_entry -> list leaf -> Prop :=
| child_file prefix c : child_ok prefix c -> bgit_tree_type (te_mode c) <> str "tree" -> child_at o prefix c [leaf_at prefix c]
| child_dir prefix c ls : child_ok prefix c -> bgit_tree_type (te_mode c) = str "tree" -> len (prefix ++ te_name c) + 1 < 4096 ->
    tree_at o (bgit_sha_to_hex (te_sha c)) ((prefix ++ te_name c) ++ [47]) ls -> child_at o prefix c ls.

Scheme tree_at_mut := Minimality for tree_at Sort Prop
with children_at_mut := Minimality for children_at Sort Prop
with child_at_mut := Minimality for child_at Sort Prop.
Combined Scheme tree_at_ind3 from tree_at_mut, children_at_mut, child_at_mut.

Lemma hex_c_text sha : bytes sha -> c_text (bgit_sha_to_hex sha) = bgit_sha_to_hex sha.
Proof.
  intros Hb. apply c_text_plain. eapply Forall_impl; [apply (sha_to_hex_lower sha Hb)|]. intros c Hc.
  unfold is_digit, is_lower_hex in Hc. destruct (Z.eq_dec c 0) as [->|]; [|done]. cbn in Hc. tauto || (destruct Hc; lia) || done.
Qed.

Lemma next_entry_bytes prefix c rest : child_ok prefix c ->
  next_entry (tree_entry_bytes c ++ rest) = Some (te_mode c, te_name c, te_sha c, rest).
Proof.
  intros [[Hm Hl] Hn Hv [Hs _] _]. unfold next_entry, tree_entry_bytes. rewrite <- !app_assoc. cbn [app].
  rewrite find_byte_app by (eapply Forall_impl; [exact Hm|]; by intros b []). unfold len in Hl. if_false.
  rewrite take_app_length, drop_app_S, <- app_assoc. cbn [app].
  rewrite find_byte_app by (eapply Forall_impl; [exact Hn|]; by intros b []). rewrite take_app_length, drop_app_S, Hv. cbn [negb orb].
  rewrite (proj2 (find_byte_None 47 (te_name c))) by (eapply Forall_impl; [exact Hn|]; by intros b []).
  rewrite bool_decide_false by (by intros [? ?]). rewrite len_app, Hs. pose proof (len_nonneg rest). if_false.
  rewrite c_text_plain by (eapply Forall_impl; [exact Hm|]; by intros b []). unfold len in Hs. by rewrite take_app_length', drop_app_length' by lia.
Qed.

Lemma valid_nonempty name : bgit_index_path_valid name = true -> 1 <= len name.
Proof. destruct name; [done|]. intros _. rewrite len_cons. pose proof (len_nonneg name). lia. Qed.

Lemma body_length cs : (length cs <= length (tree_body cs))%nat.
Proof.
  unfold tree_body. induction cs as [|c cs IH]; cbn [map concat]; [done|]. rewrite length_app. unfold tree_entry_bytes at 1. rewrite length_app. cbn [length]. lia.
Qed.

Section walks.
Context (o : Objects) {C : Type} (fn : visitor (C := C)) (f : C -> leaf -> C).
Hypothesis Hfn : forall ctx l, lf_kind l <> str "tree" -> (exists sha, oid sha /\ lf_hex l = bgit_sha_to_hex sha) -> fn ctx (lf_mode l) (lf_kind l) (lf_hex l) (lf_path l) = Ret (0, f ctx l).

(** A recursive walk shows the leaves of the tree, in order. *)
Lemma walk_leaves :
  (forall hex prefix ls, tree_at o hex prefix ls -> forall depth ctx, len prefix < 4096 -> 4098 <= len prefix + 2 * Z.of_nat depth ->
    walk_at depth hex prefix true false fn ctx = Ret (0, foldl f ctx ls)) /\
  (forall prefix cs ls, children_at o prefix cs ls -> forall depth steps ctx, len prefix < 4096 -> 4096 <= len prefix + 2 * Z.of_nat depth -> (length cs < steps)%nat ->
    tree_walk_loop steps (fun hex prefix => walk_at depth hex prefix true false fn) true false fn prefix (tree_body cs) ctx = Ret (0, foldl f ctx ls)) /\
  (forall prefix c ls, child_at o prefix c ls -> forall depth steps rest ctx ctx', len prefix < 4096 -> 4096 <= len prefix + 2 * Z.of_nat depth ->
    tree_walk_loop steps (fun hex prefix => walk_at depth hex prefix true false fn) true false fn prefix rest (foldl f ctx ls) = ctx' ->
    tree_walk_loop (S steps) (fun hex prefix => walk_at depth hex prefix true false fn) true false fn prefix (tree_entry_bytes c ++ rest) ctx = ctx').
Proof.
  assert (Hpos : forall c rest, len (tree_entry_bytes c ++ rest) <> 0).
  { intros c rest. unfold tree_entry_bytes. rewrite !len_app, len_cons. pose proof (len_nonneg (te_mode c)).
    pose proof (len_nonneg (te_name c ++ 0 :: te_sha c)). pose proof (len_nonneg rest). lia. }
  apply (tree_at_ind3 o (fun hex prefix ls => forall depth ctx, _) (fun prefix cs ls => forall depth steps ctx, _) (fun prefix c ls => forall depth steps rest ctx ctx', _)).
  - intros hex prefix cs ls Hr _ IH depth ctx Hp Hd. destruct depth as [|depth]; [lia|]. cbn [walk_at]. rewrite Hr. rewrite bool_decide_true by done. cbn [negb].
    apply IH; [done|lia|]. pose proof (body_length cs). lia.
  - intros prefix depth steps ctx _ _ Hs. destruct steps as [|steps]; [lia|]. done.
  - intros prefix c cs ls1 ls _ IH1 _ IH2 depth steps ctx Hp Hd Hs. destruct steps as [|steps]; [cbn in Hs; lia|]. unfold tree_body. cbn [map concat]. fold (tree_body cs).
    apply IH1; [done|done|]. rewrite foldl_app. apply IH2; [done|done|]. cbn in Hs. lia.
  - intros prefix c Hc Hk depth steps rest ctx ctx' Hp Hd Hrest. cbn [tree_walk_loop]. rewrite (proj2 (Z.eqb_neq _ 0) (Hpos c rest)).
    rewrite (next_entry_bytes prefix c rest Hc). pose proof (co_path _ _ Hc). if_false. rewrite (proj2 (bool_decide_eq_false _) Hk : beq _ _ = false). cbn [negb orb andb].
    pose proof (Hfn ctx (leaf_at prefix c) Hk (ex_intro _ _ (conj (co_sha _ _ Hc) eq_refl))) as E. cbn [lf_mode lf_kind lf_hex lf_path leaf_at] in E. rewrite E. cbn [obind Z.eqb negb]. exact Hrest.
  - intros prefix c ls Hc Hk Hlen _ IH depth steps rest ctx ctx' Hp Hd Hrest. cbn [tree_walk_loop]. rewrite (proj2 (Z.eqb_neq _ 0) (Hpos c rest)).
    rewrite (next_entry_bytes prefix c rest Hc). pose proof (co_path _ _ Hc). if_false. rewrite (proj2 (bool_decide_eq_true _) Hk : beq _ _ = true). cbn [negb orb andb obind Z.eqb].
    if_false. pose proof (valid_nonempty _ (co_valid _ _ Hc)). rewrite len_app in Hlen. rewrite IH.
    + cbn [obind Z.eqb negb]. exact Hrest.
    + rewrite !len_app, len_cons, len_nil. lia.
    + rewrite !len_app, len_cons, len_nil. lia.
Qed.

End walks.

Definition leaf_entry (l : leaf) : bgit_index_entry :=
  tree_index_entry (lf_mode l) (match bgit_hex_to_sha (lf_hex l) with Ret binary => binary | _ => [] end) (lf_path l).

Lemma foldl_snoc {A B} (g : A -> B) l acc : foldl (fun acc x => acc ++ [g x]) acc l = acc ++ map g l.
Proof. revert acc. induction l as [|x l IH]; intros acc; cbn; [by rewrite app_nil_r|]. by rewrite IH, <- app_assoc. Qed.

Lemma tree_entry_stage m id p : stage_of (tree_index_entry m id p) = 0.
Proof.
  unfold stage_of, tree_index_entry. cbn [flags]. pose proof (len_nonneg p) as Hp. assert (Hr : 0 <= (if len p >? 4095 then 4095 else len p) < 2 ^ 12) by (case_match; simpl_bool; lia).
  rewrite u16_id by lia. rewrite Z.shiftr_div_pow2 by lia. rewrite Z.div_small by lia. done.
Qed.

Section reads.
Context (o : Objects) `{Qsort}.

(** A tree is read as its leaves, sorted by path. *)
Lemma read_tree_at hex ls want : tree_at o hex [] ls -> map leaf_entry ls ≡ₚ want -> StronglySorted (fun a b => bcmp (e_path a) (e_path b) < 0) want ->
  bgit_read_tree hex = Ret want.
Proof.
  intros Ht Hperm Hsort. unfold bgit_read_tree, bgit_tree_walk.
  destruct (walk_leaves o bgit_read_tree_entry (fun es l => es ++ [leaf_entry l])) as [Hwalk _].
  { intros es l Hk (sha & Hs & Hh). unfold bgit_read_tree_entry, leaf_entry. rewrite (proj2 (bool_decide_eq_false _) Hk : beq _ _ = false).
    rewrite Hh. by destruct (sha_hex_roundtrip sha Hs) as (_ & _ & ->). }
  rewrite (Hwalk hex [] ls Ht 2049%nat []) by (done || (rewrite len_nil; lia)). cbn [obind]. rewrite foldl_snoc. cbn [app]. if_false.
  assert (Hstage : Forall (fun e => stage_of e = 0) (map leaf_entry ls)) by (apply Forall_map, Forall_true; intros l; apply tree_entry_stage).
  assert (Hws : StronglySorted (fun a b => bgit_index_path_cmp a b <= 0) want).
  { eapply StronglySorted_weaken; [|exact Hsort]. intros a b Hab. cbn beta in Hab. unfold bgit_index_path_cmp. cbn zeta. rewrite (proj2 (Z.eqb_neq _ 0)) by lia. cbn. lia. }
  assert (Heq : forall l, l ≡ₚ map leaf_entry ls -> StronglySorted (fun a b => bgit_index_path_cmp a b <= 0) l -> l = want).
  { intros l Hl Hs. apply (sorted_unique bgit_index_path_cmp); [|done|done|by rewrite Hl]. intros a b H1 H2 Ha Hb. destruct (path_cmp_equal a b H1 H2) as [Hp _].
    rewrite Hl, Hperm in Ha, Hb. clear -Hsort Ha Hb Hp. induction Hsort as [|x want _ IH Hx]; [by apply not_elem_of_nil in Ha|]. rewrite Forall_forall in Hx.
    apply elem_of_cons in Ha as [->|Ha], Hb as [->|Hb]; [done| | |by apply IH]; specialize (Hx _ ltac:(eassumption)); cbn beta in Hx; rewrite Hp, bcmp_refl in Hx; lia. }
  f_equal. case_match eqn:E.
  - apply Heq; [apply qsort_perm|apply qsort_sorted, path_cmp_preorder].
  - simpl_bool. apply Heq; [done|]. destruct (map leaf_entry ls) as [|x [|y l]]; [constructor|by repeat constructor|rewrite !len_cons in E; pose proof (len_nonneg l); lia].
Qed.

(** A walk ends: a path has no room for more than 2048 levels. *)
Lemma walk_total {C} (fn : visitor (C := C)) recursive show : (forall ctx m k h p, fn ctx m k h p <> Fault) -> forall depth hex prefix ctx, 
  len prefix < 4096 -> 4098 <= len prefix + 2 * Z.of_nat depth -> walk_at depth hex prefix recursive show fn ctx <> Fault.
Proof.
  intros Hfn. induction depth as [|depth IH]; intros hex prefix ctx Hp Hd; [lia|]. cbn [walk_at].
  destruct (bgit_odb_read (c_text hex)) as [[type data]|]; [|done]. destruct (negb _); [done|].
  assert (Hloop : forall steps rest ctx, (length rest < steps)%nat ->
    tree_walk_loop steps (fun hex prefix => walk_at depth hex prefix recursive show fn) recursive show fn prefix rest ctx <> Fault); [|apply Hloop; lia].
  induction steps as [|steps IHs]; intros rest c Hs; [lia|]. cbn [tree_walk_loop]. destruct (Z.eqb_spec (len rest) 0); [done|].
  destruct (next_entry rest) as [[[[m name] id] rest']|] eqn:E; [|done].
  assert (Hn : bgit_index_path_valid name = true /\ (length rest' < length rest)%nat).
  { unfold next_entry in E. destruct (find_byte 32 rest) as [k|]; [|done]. destruct (_ >=? 16); [done|]. destruct (find_byte 0 (drop (S k) rest)) as [j|]; [|done].
    destruct (bgit_index_path_valid (take j (drop (S k) rest))) eqn:Ev; [|done]. cbn [negb orb] in E. destruct (bool_decide _); [done|]. destruct (_ <? 20); [done|].
    injection E as <- <- <- <-. split; [done|]. rewrite !length_drop. unfold len in *. lia. }
  destruct Hn as [Hv Hr]. pose proof (valid_nonempty name Hv). destruct (len (prefix ++ name) >=? 4096); [done|].
  set (r := if _ || _ then _ else _). assert (Hr' : r <> Fault) by (unfold r; destruct (_ || _); [apply Hfn|done]). destruct r as [[rc c']|msg|]; cbn [obind]; [|done|done].
  destruct (rc =? 0); cbn [negb]; [|done]. destruct (beq (bgit_tree_type m) (str "tree") && recursive); [|apply IHs; lia].
  case_match eqn:E2; [done|]. simpl_bool. rewrite len_app in E2.
  specialize (IH (bgit_sha_to_hex id) ((prefix ++ name) ++ [47]) c'). rewrite !len_app, len_cons, len_nil in IH. specialize (IH ltac:(lia) ltac:(lia)).
  destruct (walk_at _ _ _ _ _ _ _) as [[rc2 c2]|msg|]; cbn [obind]; [|done|done]. destruct (rc2 =? 0); cbn [negb]; [|done]. apply IHs. lia.
Qed.

End reads.

(* ------------------------------------------------------------------ *)
(** ** Paths and modes as they are cut up *)

Lemma join_split comps : comps <> [] -> Forall good_component comps -> forall a b, join comps = a ++ 47 :: b ->
  exists ca cb, ca <> [] /\ cb <> [] /\ Forall good_component ca /\ Forall good_component cb /\ a = join ca /\ b = join cb.
Proof.
  induction comps as [|c comps IH]; [done|]. intros _ Hg a b Hj. apply Forall_cons in Hg as [Hc Hg]. destruct comps as [|d comps].
  { cbn in Hj. destruct Hc as [Hc _]. rewrite Hj in Hc. apply Forall_app in Hc as [_ Hc]. by apply Forall_inv in Hc. }
  change (join (c :: d :: comps)) with (c ++ 47 :: join (d :: comps)) in Hj. destruct (find_byte 47 a) as [k|] eqn:E.
  - apply find_byte_Some in E as (a1 & a2 & -> & _ & Ha1). rewrite <- app_assoc in Hj. cbn [app] in Hj.
    apply first_component in Hj as [-> Hj]; [|apply Hc|done].
    destruct (IH ltac:(done) Hg _ _ Hj) as (ca & cb & Hca & Hcb & Ga & Gb & -> & ->). exists (a1 :: ca), cb. split_and!; try done.
    + by constructor.
    + by destruct ca.
  - apply find_byte_None in E. apply first_component in Hj as [-> <-]; [|apply Hc|done]. exists [a], (d :: comps). split_and!; try done. by apply Forall_singleton.
Qed.

Lemma valid_split a b : bgit_index_path_valid (a ++ 47 :: b) = true -> bgit_index_path_valid a = true /\ bgit_index_path_valid b = true.
Proof.
  intros (comps & Hne & Hj & Hg)%path_valid_exact. destruct (join_split comps Hne Hg a b (eq_sym Hj)) as (ca & cb & ? & ? & ? & ? & -> & ->).
  split; apply path_valid_exact; eauto.
Qed.

Lemma oct_loop_short k : forall fuel n acc, 0 <= n < 8 ^ Z.of_nat k -> (0 < k <= fuel)%nat -> (length (oct_loop fuel n acc) <= k + length acc)%nat.
Proof.
  induction k as [|k IH]; intros fuel n acc Hn Hk; [lia|]. destruct fuel as [|fuel]; [lia|]. cbn [oct_loop]. case_if; [cbn; lia|]. simpl_bool.
  rewrite Nat2Z.inj_succ, Z.pow_succ_r in Hn by lia. destruct k as [|k]; [cbn in Hn; lia|].
  pose proof (IH fuel (n / 8) ((48 + n mod 8) :: acc) ltac:(dlia) ltac:(lia)) as H. cbn [length] in H. lia.
Qed.

(** A mode that fits and is not a directory's. *)
Definition file_mode (m : Z) : Prop := 0 <= m < 8 ^ 7 /\ m <> 16384.

Lemma print_oct_mode m : file_mode m -> mode8 (print_oct m) = print_oct m /\ Forall (fun b => b <> 32 /\ b <> 0) (print_oct m) /\ len (print_oct m) < 16 /\
  bgit_tree_type (print_oct m) <> str "tree" /\ u32 (fst (fst (strtoul 8 (print_oct m)))) = m.
Proof.
  intros [Hm Hd]. pose proof (oct_loop_short 7 11 m [] ltac:(lia) ltac:(lia)) as Hl. cbn [length] in Hl. fold (print_oct m) in Hl.
  pose proof (oct_loop_digits 11 m [] (Forall_nil_2 _) ltac:(lia)) as Hdig. fold (print_oct m) in Hdig.
  pose proof (parse_mode_oct m ltac:(lia)) as Hp. split_and!.
  - unfold mode8. apply take_ge. lia.
  - eapply Forall_impl; [exact Hdig|]. intros c Hc. unfold is_octal in Hc. lia.
  - unfold len. lia.
  - unfold bgit_tree_type. assert (Hne : forall s, bgit_index_parse_mode s = Ret 16384 -> beq (print_oct m) s = false).
    { intros s Hs. apply bool_decide_eq_false. intros E. rewrite E in Hp. congruence. }
    rewrite !Hne by (by vm_compute). cbn [orb]. by case_match.
  - unfold bgit_index_parse_mode in Hp. destruct (print_oct m) as [|c s]; [done|]. destruct (strtoul 8 (c :: s)) as [[v rest] e]. case_match; [done|]. by injection Hp.
Qed.

(* ------------------------------------------------------------------ *)
(** ** Trees through changes of the store and of the order *)

Definition grows (o o' : Objects) : Prop := forall x ob, @bgit_odb_read o x = Some ob -> @bgit_odb_read o' x = Some ob.

Lemma store_grows_refl o : grows o o.
Proof. by intros x ob. Qed.

Lemma store_grows_trans a b c : grows a b -> grows b c -> grows a c.
Proof. intros H1 H2 x ob Hx. by apply H2, H1. Qed.

Lemma tree_grows o o' : grows o o' -> (forall hex prefix ls, tree_at o hex prefix ls -> tree_at o' hex prefix ls) /\
  (forall prefix cs ls, children_at o prefix cs ls -> children_at o' prefix cs ls) /\ (forall prefix c ls, child_at o prefix c ls -> child_at o' prefix c ls).
Proof.
  intros Hg. apply (tree_at_ind3 o (tree_at o') (children_at o') (child_at o')).
  - intros hex prefix cs ls Hr _ Hc. econstructor; [by apply Hg|done].
  - constructor.
  - intros prefix c cs ls1 ls _ H1 _ H2. by constructor.
  - by constructor.
  - intros. by apply child_dir.
Qed.

Lemma children_perm o prefix cs cs' : cs ≡ₚ cs' -> forall ls, children_at o prefix cs ls -> exists ls', ls ≡ₚ ls' /\ children_at o prefix cs' ls'.
Proof.
  induction 1 as [|c cs cs' _ IH|c d cs|cs cs1 cs2 _ IH1 _ IH2]; intros ls Hls.
  - by exists ls.
  - inversion Hls as [|? ? ? ls1 ls2 H1 H2]; subst. destruct (IH ls2 H2) as (ls' & Hp & Hc). exists (ls1 ++ ls'). split; [by rewrite Hp|by constructor].
  - inversion Hls as [|? ? ? ls1 ls2 H1 H2]; subst. inversion H2 as [|? ? ? ls3 ls4 H3 H4]; subst. exists (ls3 ++ ls1 ++ ls4).
    split; [by rewrite !app_assoc, (Permutation_app_comm ls1)|]. constructor; [done|]. by constructor.
  - destruct (IH1 ls Hls) as (ls1 & Hp1 & H1). destruct (IH2 ls1 H1) as (ls2 & Hp2 & H2). exists ls2. split; [by rewrite Hp1|done].
Qed.

Lemma children_app o prefix cs1 ls1 cs2 ls2 : children_at o prefix cs1 ls1 -> children_at o prefix cs2 ls2 -> children_at o prefix (cs1 ++ cs2) (ls1 ++ ls2).
Proof.
  intros H1 H2. induction cs1 as [|c cs1 IH] in ls1, H1 |- *; inversion H1; subst; [done|]. cbn [app]. rewrite <- app_assoc. constructor; [done|]. by apply IH.
Qed.

(* ------------------------------------------------------------------ *)
(** ** What the writer stores *)

(** An index entry that has a place in a tree. *)
Record tree_wf (e : bgit_index_entry) : Prop := {
  tw_valid : bgit_index_path_valid (e_path e) = true;
  tw_path : cstring (e_path e) /\ len (e_path e) < 4096;
  tw_mode : file_mode (mode e);
  tw_sha : oid (sha e) }.

Definition entry_leaf (e : bgit_index_entry) : leaf :=
  {| lf_mode := print_oct (mode e); lf_kind := bgit_tree_type (print_oct (mode e)); lf_hex := bgit_sha_to_hex (sha e); lf_path := e_path e |}.

Section written.
Context `{StoreLaws} `{Qsort}.

(** Writing stops only where the store refuses a tree. *)
Definition refuses (m : string) : Prop := exists s content, fst (bgit_write_object s (str "tree") content) = Fail m.

Lemma finish_tree_ok s prefix children ls : children_at (objects_of s) prefix children ls ->
  match finish_tree s children with
  | (Ret hex, s') => (exists sha, oid sha /\ hex = bgit_sha_to_hex sha) /\ grows (objects_of s) (objects_of s') /\ exists ls', ls ≡ₚ ls' /\ tree_at (objects_of s') hex prefix ls'
  | (Fail m, s') => refuses m /\ grows (objects_of s) (objects_of s')
  | (Fault, _) => False
  end.
Proof.
  intros Hc. unfold finish_tree. set (cs := if len children >? 1 then qsort bgit_tree_entry_cmp children else children).
  assert (Hp : children ≡ₚ cs) by (unfold cs; case_match; [by rewrite qsort_perm|done]).
  destruct (children_perm _ _ _ _ Hp ls Hc) as (ls' & Hls & Hcs). clearbody cs.
  destruct (bgit_write_object s (str "tree") (tree_body cs)) as [[hex|m|] s'] eqn:E.
  - destruct (write_hex _ _ _ _ _ E) as (id & Hid & ->). assert (Hg : grows (objects_of s) (objects_of s')) by (intros x ob; by eapply write_keeps).
    split_and!; [by exists id|done|]. exists ls'. split; [done|]. econstructor; [|by eapply (tree_grows _ _ Hg)].
    rewrite hex_c_text by apply Hid. by eapply (write_reads _ BGIT_TREE).
  - split; [exists s, (tree_body cs); by rewrite E|]. intros x ob. by eapply write_keeps.
  - by destruct (write_no_fault s (str "tree") (tree_body cs)); rewrite E.
Qed.

(** A prefix is empty or ends in a slash. *)
Definition dir_prefix (prefix : list Z) : Prop := prefix = [] \/ exists d, prefix = d ++ [47].

Lemma under_prefix prefix e : dir_prefix prefix -> tree_wf e -> starts prefix (e_path e) = true ->
  let rest := drop (length prefix) (e_path e) in e_path e = prefix ++ rest /\ bgit_index_path_valid rest = true.
Proof.
  intros Hd He Hs rest. unfold starts, beq in Hs. apply bool_decide_eq_true in Hs.
  assert (E : e_path e = prefix ++ rest) by (transitivity (take (length prefix) (e_path e) ++ rest); [unfold rest; by rewrite take_drop|by rewrite Hs]).
  split; [done|]. pose proof (tw_valid e He) as Hv. destruct Hd as [->|[d ->]]; [by rewrite E in Hv|]. rewrite E, <- app_assoc in Hv. cbn [app] in Hv. by apply valid_split in Hv as [_ Hv].
Qed.

Definition need (entries : list bgit_index_entry) (prefix : list Z) : Z := len entries * 4098 + (4097 - len prefix).

(** A file's child is read as the entry it was made from. *)
Lemma file_child o prefix e : dir_prefix prefix -> tree_wf e -> starts prefix (e_path e) = true ->
  let rest := drop (length prefix) (e_path e) in find_byte 47 rest = None ->
  child_at o prefix {| te_name := rest; te_mode := mode8 (print_oct (mode e)); te_sha := sha e; te_is_dir := false |} [entry_leaf e].
Proof.
  intros Hd He Hs rest Hf. destruct (under_prefix prefix e Hd He Hs) as [Ep Hv]. fold rest in Ep, Hv. destruct He as [_ [Hc Hl] Hm Hsha].
  destruct (print_oct_mode (mode e) Hm) as (Hm8 & Hmb & Hml & Hk & _). rewrite Hm8. set (c := Build_bgit_tree_entry _ _ _ _).
  replace (entry_leaf e) with (leaf_at prefix c) by (unfold entry_leaf, leaf_at; cbn; by rewrite <- Ep). apply child_file; [|done].
  apply find_byte_None in Hf. split; cbn; [done| |done|done|by rewrite <- Ep]. rewrite Ep in Hc. apply Forall_app in Hc as [_ Hc].
  apply Forall_forall. intros b Hb. rewrite Forall_forall in Hf, Hc. specialize (Hf b Hb). specialize (Hc b Hb). unfold is_char in Hc. lia.
Qed.

(** A directory's child is read as what is below it. *)
Lemma dir_child o prefix e k id ls : dir_prefix prefix -> tree_wf e -> starts prefix (e_path e) = true ->
  let rest := drop (length prefix) (e_path e) in find_byte 47 rest = Some k -> oid id ->
  tree_at o (bgit_sha_to_hex id) (take (Z.to_nat (len prefix + (Z.of_nat k + 1))) (e_path e)) ls ->
  child_at o prefix {| te_name := take k rest; te_mode := mode8 (str "40000"); te_sha := id; te_is_dir := true |} ls.
Proof.
  intros Hd He Hs rest Hf Hid Ht. destruct (under_prefix prefix e Hd He Hs) as [Ep Hv]. fold rest in Ep, Hv. destruct He as [_ [Hc Hl] _ _].
  apply find_byte_Some in Hf as (a & b & E & Ek & Ha). rewrite E in *. rewrite <- Ek, take_app_length in *. pose proof Hv as [Hva _]%valid_split.
  assert (Hsub : take (Z.to_nat (len prefix + (Z.of_nat (length a) + 1))) (e_path e) = (prefix ++ a) ++ [47]).
  { rewrite Ep. replace (prefix ++ a ++ 47 :: b) with (((prefix ++ a) ++ [47]) ++ b) by (by rewrite <- !app_assoc). apply take_app_length'.
    rewrite !length_app. cbn [length]. unfold len. lia. }
  rewrite Hsub in Ht. rewrite Ep, !len_app, len_cons in Hl. pose proof (len_nonneg b).
  apply child_dir; cbn; [|done|rewrite len_app; lia|done]. split; cbn.
  - split; [apply Forall_forall; intros x Hx; repeat (apply elem_of_cons in Hx as [->|Hx]; [lia|]); by apply not_elem_of_nil in Hx|done].
  - rewrite Ep in Hc. apply Forall_app in Hc as [_ Hc]. apply Forall_app in Hc as [Hc _]. apply Forall_forall. intros x Hx. rewrite Forall_forall in Ha, Hc.
    specialize (Ha x Hx). specialize (Hc x Hx). unfold is_char in Hc. lia.
  - done.
  - done.
  - rewrite len_app. lia.
Qed.

(** What is below a prefix is gathered, its subtrees written first. *)
Lemma children_under_ok fuel : forall s es prefix children ls0, children_at (objects_of s) prefix children ls0 -> dir_prefix prefix -> len prefix < 4096 ->
  Forall tree_wf es -> need es prefix < Z.of_nat fuel ->
  match children_under fuel s es prefix children with
  | (Ret (cs, es'), s') => grows (objects_of s) (objects_of s') /\ exists taken ls, es = taken ++ es' /\ ls ≡ₚ ls0 ++ map entry_leaf taken /\
      children_at (objects_of s') prefix cs ls /\ (prefix = [] -> es' = []) /\
      (forall e, head es = Some e -> starts prefix (e_path e) = true -> taken <> [])
  | (Fail m, s') => refuses m /\ grows (objects_of s) (objects_of s')
  | (Fault, _) => False
  end.
Proof.
  induction fuel as [|fuel IH]; intros s es prefix children ls0 Hch Hd Hl Hwf Hfuel.
  { unfold need in Hfuel. pose proof (len_nonneg es). lia. }
  destruct es as [|e es]; cbn [children_under].
  { split; [apply store_grows_refl|]. exists [], ls0. cbn [map app head]. rewrite app_nil_r. split_and!; done. }
  apply Forall_cons in Hwf as Hwf'. destruct Hwf' as [He Hes]. unfold need in Hfuel. rewrite len_cons in Hfuel.
  destruct (starts prefix (e_path e)) eqn:Es; cbn [negb].
  2:{ split; [apply store_grows_refl|]. exists [], ls0. cbn [map app head]. rewrite app_nil_r. split_and!; try done; [intros ->; done|]. intros e' [= <-]. congruence. }
  destruct (under_prefix prefix e Hd He Es) as [Ep Hv]. destruct (find_byte 47 (drop (length prefix) (e_path e))) as [k|] eqn:Ef.
  - pose proof Ef as (a & b & Ea & Ek & Hna)%find_byte_Some.
    assert (Hplen : len prefix + (Z.of_nat k + 1) < 4096).
    { destruct He as [_ [_ Hl'] _ _]. rewrite Ep, len_app, Ea, len_app, len_cons in Hl'. unfold len in *. lia. }
    if_false. set (sub_prefix := take _ (e_path e)).
    assert (Esub : sub_prefix = (prefix ++ a) ++ [47]).
    { unfold sub_prefix. rewrite Ep, Ea. replace (prefix ++ a ++ 47 :: b) with (((prefix ++ a) ++ [47]) ++ b) by (by rewrite <- !app_assoc). apply take_app_length'.
      rewrite !length_app. cbn [length]. unfold len. lia. }
    assert (Hsl : len sub_prefix = len prefix + (Z.of_nat k + 1)) by (rewrite Esub, !len_app, len_cons, len_nil; unfold len; lia).
    assert (Hst : starts sub_prefix (e_path e) = true).
    { rewrite Ep, Ea. replace (prefix ++ a ++ 47 :: b) with (sub_prefix ++ b) by (rewrite Esub; by rewrite <- !app_assoc). apply starts_app. }
    pose proof (IH s (e :: es) sub_prefix [] [] (children_none _ _) (or_intror (ex_intro _ _ Esub)) ltac:(lia) Hwf) as Hsub.
    unfold need in Hsub. rewrite len_cons in Hsub. specialize (Hsub ltac:(lia)).
    destruct (children_under fuel s (e :: es) sub_prefix []) as [[[sub es1]|m|] s1]; [|done|done].
    destruct Hsub as (Hg1 & taken & ls & Htk & Hls & Hcs & _ & Hne). specialize (Hne e eq_refl Hst). cbn [app] in Hls.
    pose proof (finish_tree_ok s1 sub_prefix sub ls Hcs) as Hfin. destruct (finish_tree s1 sub) as [[hex|m|] s2]; [| |done].
    2:{ destruct Hfin as [? ?]. split; [done|by eapply store_grows_trans]. }
    destruct Hfin as ((id & Hid & ->) & Hg2 & ls' & Hls' & Htree). destruct (sha_hex_roundtrip id Hid) as (_ & _ & ->).
    pose proof (store_grows_trans _ _ _ Hg1 Hg2) as Hg. rewrite Htk in Hwf. apply Forall_app in Hwf as [_ Hwf1].
    pose proof (IH s2 es1 prefix (children ++ [_]) (ls0 ++ ls') (children_app _ _ _ _ _ _ (proj1 (proj2 (tree_grows _ _ Hg)) _ _ _ Hch)
      (eq_rect _ (children_at _ prefix _) (children_some _ _ _ _ _ _ (dir_child _ prefix e k id ls' Hd He Es Ef Hid Htree) (children_none _ _)) _ (app_nil_r ls'))) Hd Hl Hwf1) as Hrest.
    apply (f_equal len) in Htk as Hlen. rewrite len_cons, len_app in Hlen. assert (1 <= len taken) by (destruct taken; [done|rewrite len_cons; pose proof (len_nonneg taken); lia]).
    unfold need in Hrest. specialize (Hrest ltac:(lia)).
    destruct (children_under fuel s2 es1 prefix _) as [[[cs es2]|m|] s3]; [| |done].
    2:{ destruct Hrest as [? ?]. split; [done|by eapply store_grows_trans]. }
    destruct Hrest as (Hg3 & taken2 & lsr & Htk2 & Hlsr & Hcsr & Hend & _). split; [by eapply store_grows_trans|]. exists (taken ++ taken2), lsr.
    split_and!; [by rewrite Htk, Htk2, app_assoc| |done|done|by destruct taken]. by rewrite Hlsr, map_app, <- Hls', Hls, <- app_assoc.
  - pose proof (IH s es prefix (children ++ [_]) (ls0 ++ [entry_leaf e]) (children_app _ _ _ _ _ _ Hch
      (children_some _ _ _ _ _ _ (file_child _ prefix e Hd He Es Ef) (children_none _ _))) Hd Hl Hes) as Hrest.
    unfold need in Hrest. specialize (Hrest ltac:(lia)). destruct (children_under fuel s es prefix _) as [[[cs es2]|m|] s3]; [|done|done].
    destruct Hrest as (Hg3 & taken & lsr & Htk & Hlsr & Hcsr & Hend & _). split; [done|]. exists (e :: taken), lsr.
    split_and!; [by rewrite Htk| |done|done|done]. rewrite Hlsr, <- app_assoc. done.
Qed.

End written.

(* ------------------------------------------------------------------ *)
(** ** Theorems *)

(** What a tree keeps of an index entry. *)
Definition as_tree (e : bgit_index_entry) : bgit_index_entry :=
  {| ctime_sec := 0; ctime_nsec := 0; mtime_sec := 0; mtime_nsec := 0; dev := 0; ino := 0; mode := mode e; uid := 0; gid := 0; size := 0;
     sha := sha e; flags := Z.min (len (e_path e)) 0xFFF; flags2 := 0; e_path := e_path e |}.

Lemma leaf_as_tree e : tree_wf e -> leaf_entry (entry_leaf e) = as_tree e.
Proof.
  intros [_ _ Hm Hs]. unfold leaf_entry, entry_leaf, tree_index_entry, as_tree. cbn [lf_mode lf_hex lf_path]. destruct (print_oct_mode _ Hm) as (_ & _ & _ & _ & ->).
  destruct (sha_hex_roundtrip _ Hs) as (_ & _ & ->). f_equal. pose proof (len_nonneg (e_path e)). rewrite u16_id; case_match; simpl_bool; lia.
Qed.

(** [C33] (roundtrip) The trees written for an index without conflicts are read
    back as its entries, in its order, with mode, id and path; writing ends,
    fails only where the store refuses a tree, and loses no object. *)
Theorem tree_write_read `{StoreLaws} `{Qsort} s es : Forall tree_wf es -> Forall (fun e => stage_of e = 0) es ->
  StronglySorted (fun a b => bcmp (e_path a) (e_path b) < 0) es ->
  match bgit_write_tree s es with
  | (Ret hex, s') => grows (objects_of s) (objects_of s') /\ @bgit_read_tree (objects_of s') _ hex = Ret (map as_tree es)
  | (Fail m, s') => refuses m /\ grows (objects_of s) (objects_of s')
  | (Fault, _) => False
  end.
Proof.
  intros Hwf Hst Hsort. unfold bgit_write_tree, bgit_write_tree_at.
  assert (Hex : existsb (fun e => negb (stage_of e =? 0)) es = false).
  { clear -Hst. induction Hst as [|e es He _ IH]; [done|]. cbn. by rewrite He, IH. }
  rewrite Hex. pose proof (children_under_ok (write_fuel es) s es [] [] [] (children_none _ _) (or_introl eq_refl) ltac:(done) Hwf) as Hc.
  unfold need in Hc. rewrite len_nil in Hc. specialize (Hc ltac:(unfold write_fuel, len; lia)).
  destruct (children_under (write_fuel es) s es [] []) as [[[cs es']|m|] s1]; [|done|done].
  destruct Hc as (Hg1 & taken & ls & Htk & Hls & Hcs & Hend & _). specialize (Hend eq_refl) as ->. rewrite app_nil_r in Htk. subst taken. cbn [app] in Hls.
  pose proof (finish_tree_ok s1 [] cs ls Hcs) as Hf. destruct (finish_tree s1 cs) as [[hex|m|] s2]; [| |done].
  - destruct Hf as (_ & Hg2 & ls' & Hls' & Ht). split; [by eapply store_grows_trans|]. apply (read_tree_at _ hex ls'); [done| |].
    + rewrite <- Hls', Hls, map_map. clear -Hwf. induction Hwf as [|e es He _ IH]; [done|]. cbn. by rewrite leaf_as_tree, IH.
    + clear -Hsort. induction Hsort as [|e es _ IH He]; constructor; [done|]. by apply Forall_map.
  - destruct Hf as [? ?]. split; [done|by eapply store_grows_trans].
Qed.

Lemma hex_loop_no_fault n : forall hex, (length hex <= n)%nat -> hex_loop hex <> Fault.
Proof.
  induction n as [|n IH]; intros [|h [|l hex]] Hl; cbn [length hex_loop] in *; try done; [lia|]. destruct (_ || _); [done|].
  specialize (IH hex ltac:(lia)). by destruct (hex_loop hex).
Qed.

(** [C34] (termination) Reading a tree ends, with entries or an error, whatever
    objects the store has: a path that no longer fits its buffer ends the walk,
    even of a tree that contains itself. *)
Theorem read_tree_ends `{Objects} `{Qsort} hex : bgit_read_tree hex <> Fault.
Proof.
  unfold bgit_read_tree, bgit_tree_walk. pose proof (walk_total _ bgit_read_tree_entry true false) as Hw.
  assert (Hfn : forall ctx m k h p, bgit_read_tree_entry ctx m k h p <> Fault).
  { intros ctx m k h p. unfold bgit_read_tree_entry. destruct (beq k (str "tree")); [done|]. destruct (bgit_hex_to_sha h) eqn:E; try done.
    unfold bgit_hex_to_sha in E. destruct (negb _); [done|]. by apply (hex_loop_no_fault _ h (le_n _)) in E. }
  specialize (Hw Hfn 2049%nat hex [] [] ltac:(done) ltac:(rewrite len_nil; lia)).
  destruct (walk_at _ _ _ _ _ _ _) as [[rc es]|m|]; cbn [obind]; [by case_match|done|done].
Qed.

(** What git orders the entries of a tree by: a directory's name as if it ended in a slash. *)
Definition order_key (c : bgit_tree_entry) : list Z := te_name c ++ if te_is_dir c then [47] else [].

(** [bgit_tree_entry_cmp] of two names. *)
Definition name_cmp (s : list Z) (ds : bool) (t : list Z) (dt : bool) : Z :=
  bgit_tree_entry_cmp {| te_name := s; te_mode := []; te_sha := []; te_is_dir := ds |} {| te_name := t; te_mode := []; te_sha := []; te_is_dir := dt |}.

Lemma name_cmp_cons x s ds y t dt : name_cmp (x :: s) ds (y :: t) dt = if x <? y then -1 else if y <? x then 1 else name_cmp s ds t dt.
Proof.
  unfold name_cmp, bgit_tree_entry_cmp. cbn [te_name te_is_dir]. rewrite !len_cons. pose proof (len_nonneg s). pose proof (len_nonneg t).
  rewrite Z.add_min_distr_l. replace (Z.to_nat (1 + Z.min (len s) (len t))) with (S (Z.to_nat (Z.min (len s) (len t)))) by lia. cbn [take bcmp nth].
  case_if; [done|]. case_if; [done|]. simpl_bool. replace y with x by lia.
  replace (1 + len s =? 1 + len t) with (len s =? len t) by (destruct (Z.eqb_spec (len s) (len t)); symmetry; [solve_true|solve_false]).
  rewrite !Z.gtb_ltb. replace (1 + Z.min (len s) (len t) <? 1 + len s) with (Z.min (len s) (len t) <? len s) by (destruct (Z.ltb_spec (Z.min (len s) (len t)) (len s)); symmetry; [solve_true|solve_false]).
  replace (1 + Z.min (len s) (len t) <? 1 + len t) with (Z.min (len s) (len t) <? len t) by (destruct (Z.ltb_spec (Z.min (len s) (len t)) (len t)); symmetry; [solve_true|solve_false]).
  done.
Qed.

Lemma tree_cmp_key a b : Forall (fun x => 0 < x /\ x <> 47) (te_name a) -> Forall (fun x => 0 < x /\ x <> 47) (te_name b) -> te_name a <> te_name b ->
  (bgit_tree_entry_cmp a b <= 0 <-> bcmp (order_key a) (order_key b) < 0).
Proof.
  change (bgit_tree_entry_cmp a b) with (name_cmp (te_name a) (te_is_dir a) (te_name b) (te_is_dir b)). unfold order_key.
  generalize (te_is_dir a) as ds, (te_is_dir b) as dt, (te_name a) as s, (te_name b) as t. intros ds dt s t Hs. revert t.
  assert (Hnil : forall x l ds dt, 0 < x -> name_cmp [] ds (x :: l) dt = (if ds then 47 else 0) - x /\ name_cmp (x :: l) ds [] dt = x - if dt then 47 else 0).
  { intros x l d1 d2 _. unfold name_cmp, bgit_tree_entry_cmp. cbn [te_name te_is_dir]. change (len (@nil Z)) with 0. rewrite len_cons. pose proof (len_nonneg l).
    rewrite (Z.min_l 0), (Z.min_r _ 0) by lia. change (Z.to_nat 0) with 0%nat. cbn [take bcmp nth]. change (0 =? 0) with true. cbn [negb].
    replace (0 =? 1 + len l) with false by (symmetry; solve_false). replace (1 + len l =? 0) with false by (symmetry; solve_false).
    replace (1 + len l >? 0) with true by (symmetry; rewrite Z.gtb_ltb; solve_true). done. }
  induction Hs as [|x s [Hx Hx'] Hs IH]; intros t Ht Hne; destruct Ht as [|y t [Hy Hy'] Ht]; [done|..].
  - destruct (Hnil y t ds dt Hy) as [-> _]. cbn [app]. destruct ds; cbn [bcmp]; repeat case_if; simpl_bool; lia.
  - destruct (Hnil x s ds dt Hx) as [_ ->]. cbn [app]. destruct dt; cbn [bcmp]; repeat case_if; simpl_bool; lia.
  - rewrite name_cmp_cons. cbn [app bcmp]. case_if; [lia|]. case_if; [lia|]. simpl_bool. apply IH; [done|]. intros ->. apply Hne. f_equal. lia.
Qed.

(** The children of a tree, no two of one name, are written in
    git's one order: by name, a directory's as if it ended in a slash; so the
    same files have the same id whatever order they were added in. *)
Theorem tree_order_canonical `{Qsort} cs : NoDup (map te_name cs) -> Forall (fun c => Forall (fun x => 0 < x /\ x <> 47) (te_name c)) cs ->
  Permutation (qsort bgit_tree_entry_cmp cs) cs /\ StronglySorted (fun a b => bcmp (order_key a) (order_key b) < 0) (qsort bgit_tree_entry_cmp cs).
Proof.
  intros Hnd Hn. split; [apply qsort_perm|]. rewrite Forall_forall in Hn.
  assert (Huniq : forall a b, a ∈ cs -> b ∈ cs -> te_name a = te_name b -> a = b).
  { intros a b [i Hi]%list_elem_of_lookup_1 [j Hj]%list_elem_of_lookup_1 E. assert (i = j) as ->; [|congruence].
    eapply NoDup_lookup; [exact Hnd| |]; change (map te_name cs) with (te_name <$> cs); rewrite list_lookup_fmap; [by rewrite Hi|by rewrite Hj, E]. }
  assert (Hself : forall a, bgit_tree_entry_cmp a a = 0) by (intros a; unfold bgit_tree_entry_cmp; rewrite bcmp_refl; change (0 =? 0) with true; cbn [negb]; by rewrite Z.eqb_refl).
  assert (Hcmp : forall a b, a ∈ cs -> b ∈ cs -> (bgit_tree_entry_cmp a b <= 0 <-> bcmp (order_key a) (order_key b) <= 0)).
  { intros a b Ha Hb. destruct (decide (te_name a = te_name b)) as [E|E].
    - rewrite (Huniq a b Ha Hb E), Hself, bcmp_refl. done.
    - rewrite (tree_cmp_key a b) by auto. split; [lia|]. intros Hle. destruct (Z.eq_dec (bcmp (order_key a) (order_key b)) 0) as [E0|]; [|lia]. exfalso.
      apply bcmp_eq in E0. unfold order_key in E0. destruct (te_is_dir a), (te_is_dir b); rewrite ?app_nil_r in E0; [by apply app_inj_tail in E0 as [E0 _]| | |done].
      + specialize (Hn b Hb). rewrite <- E0 in Hn. apply Forall_app in Hn as [_ Hn]. apply Forall_inv in Hn. lia.
      + specialize (Hn a Ha). rewrite E0 in Hn. apply Forall_app in Hn as [_ Hn]. apply Forall_inv in Hn. lia. }
  assert (Hs : StronglySorted (fun a b => bgit_tree_entry_cmp a b <= 0) (qsort bgit_tree_entry_cmp cs)).
  { apply (qsort_sorted_on _ (fun c => c ∈ cs)); [|by apply Forall_forall]. split.
    - intros a b Ha Hb. rewrite !Hcmp, (bcmp_antisym (order_key a)) by done. lia.
    - intros a b c Ha Hb Hc. rewrite !Hcmp by done. apply bcmp_le_trans. }
  assert (Hin : forall l, l ≡ₚ cs -> Forall (fun c => c ∈ cs) l /\ NoDup (map te_name l)) by (intros l Hl; split; [apply Forall_forall; intros c; by rewrite Hl|by rewrite Hl]).
  destruct (Hin _ (qsort_perm _ bgit_tree_entry_cmp cs)) as [Hall Hnd']. clear -Hs Hall Hnd' Hn.
  induction Hs as [|a l _ IH Ha]; [constructor|]. apply Forall_cons in Hall as [Hac Hl]. apply NoDup_cons in Hnd' as [Hna Hnd']. constructor; [by apply IH|].
  rewrite Forall_forall in Ha, Hl |- *. intros b Hb. apply tree_cmp_key; [by apply Hn|by apply Hn, Hl|intros E; apply Hna; rewrite E; by apply list_elem_of_fmap_2|by apply Ha].
Qed.

(* ------------------------------------------------------------------ *)
(** ** A store *)

(** A store that numbers its objects. *)
Definition numbered_id (n : Z) : list Z := replicate 16 0 ++ bgit_put_be32 n.

Definition numbered_read (s : list (bgit_type * list Z)) (hex : list Z) : option (bgit_type * list Z) :=
  match bgit_hex_to_sha hex with
  | Ret sha => match bgit_be32 sha 16 with Ret n => s !! Z.to_nat n | _ => None end
  | _ => None
  end.

Definition numbered_write (s : list (bgit_type * list Z)) (type content : list Z) : outcome (list Z) * list (bgit_type * list Z) :=
  match header_type type with
  | Ret kind => if len s <? 2 ^ 32 then (Ret (bgit_sha_to_hex (numbered_id (len s))), s ++ [(kind, content)]) else (failed, s)
  | _ => (failed, s)
  end.

#[export] Instance numbered_store : Store :=
  {| repo := list (bgit_type * list Z); objects_of s := {| bgit_odb_read := numbered_read s |}; bgit_write_object := numbered_write |}.

Lemma numbered_oid n : oid (numbered_id n).
Proof.
  unfold oid, numbered_id. rewrite len_app, len_put_be32. split; [done|]. apply Forall_app. split; [by repeat constructor|apply put_be32_bytes].
Qed.

#[export] Instance numbered_laws : StoreLaws.
Proof.
  split; cbn [bgit_write_object objects_of bgit_odb_read numbered_store]; unfold numbered_write.
  - intros s type content. destruct (header_type type); try done. by destruct (_ <? _).
  - intros s type content hex s'. destruct (header_type type); try done. destruct (_ <? _); [|done].
    intros [<-%Ret_inj _]%pair_equal_spec. eexists. split; [apply numbered_oid|reflexivity].
  - intros s kind content hex s'. destruct (header_type (bgit_type_name kind)) as [k| |] eqn:E; try done. destruct (Z.ltb_spec (len s) (2 ^ 32)); [|done].
    intros [<-%Ret_inj <-]%pair_equal_spec. unfold numbered_read. destruct (sha_hex_roundtrip _ (numbered_oid (len s))) as (_ & _ & ->). unfold numbered_id.
    pose proof (len_nonneg s). rewrite <- (app_nil_r (bgit_put_be32 (len s))). rewrite (be32_put (replicate 16 0) (len s) [] 16 eq_refl ltac:(lia)). unfold len at 1. rewrite Nat2Z.id, lookup_app_r, Nat.sub_diag by done.
    cbn. do 2 f_equal. destruct kind; vm_compute in E; congruence.
  - intros s type content r s' x o Hw Hr. assert (Hs : s' = s \/ exists y, s' = s ++ [y]).
    { destruct (header_type type); [destruct (_ <? _)|..]; apply pair_equal_spec in Hw as [_ <-]; eauto. }
    destruct Hs as [->|[y ->]]; [done|]. unfold numbered_read in *. destruct (bgit_hex_to_sha x); try done. destruct (bgit_be32 _ _); try done. by apply lookup_app_l_Some.
Qed.

Definition demo_entry (m : Z) (p : string) : bgit_index_entry :=
  {| ctime_sec := 7; ctime_nsec := 0; mtime_sec := 7; mtime_nsec := 0; dev := 1; ino := 2; mode := m; uid := 3; gid := 4; size := 5;
     sha := demo_oid; flags := len (str p); flags2 := 0; e_path := str p |}.

Definition demo_index : list bgit_index_entry := [demo_entry 33188 "a-b"; demo_entry 33261 "a/b/c"; demo_entry 57344 "a/d"; demo_entry 33188 "a0"].

Theorem tree_write_read_witness :
  match bgit_write_tree (H := numbered_store) [] demo_index with
  | (Ret hex, s') => grows (@objects_of numbered_store []) (@objects_of numbered_store s') /\ @bgit_read_tree (@objects_of numbered_store s') _ hex = Ret (map as_tree demo_index)
  | (Fail m, s') => refuses m /\ grows (@objects_of numbered_store []) (@objects_of numbered_store s')
  | (Fault, _) => False
  end.
Proof.
  apply (tree_write_read (H := numbered_store) [] demo_index).
  - repeat constructor; vm_compute; congruence.
  - by repeat constructor.
  - repeat constructor; vm_compute; congruence.
Defined.

(** Three trees are written, and the directory [a] comes after [a-b]. *)
Example demo_trees : exists hex s', bgit_write_tree (H := numbered_store) [] demo_index = (Ret hex, s') /\ len s' = 3.
Proof. eexists _, _. split; vm_compute; reflexivity. Qed.

Theorem tree_order_canonical_witness :
  let c name dir := {| te_name := name; te_mode := []; te_sha := []; te_is_dir := dir |} in let cs := [c (str "a") true; c (str "a0") false; c (str "a-b") false] in
  Permutation (qsort bgit_tree_entry_cmp cs) cs /\ StronglySorted (fun a b => bcmp (order_key a) (order_key b) < 0) (qsort bgit_tree_entry_cmp cs).
Proof.
  intros c cs. apply (tree_order_canonical cs).
  - apply (bool_decide_unpack _). vm_compute. exact I.
  - repeat constructor; vm_compute; congruence.
Defined.

(** A file and a directory of one name compare as equal, and a name between
    them is after the one and before the other: the comparison is then no order. *)
Example tree_cmp_inconsistent :
  let c dir name := {| te_name := name; te_mode := []; te_sha := []; te_is_dir := dir |} in
  bgit_tree_entry_cmp (c false (str "a")) (c true (str "a")) = 0 /\
  bgit_tree_entry_cmp (c false (str "a")) (c false (str "a-")) < 0 /\ bgit_tree_entry_cmp (c false (str "a-")) (c true (str "a")) < 0.
Proof. split_and!; vm_compute; reflexivity. Qed.
