(* ===== verification/MergeTrees.v ===== *)
(** * Merging two trees over their base (merge.c)

    The three trees are read into index entries and walked together, path by
    path; a path both sides changed has its lines merged, and a merge without
    conflict is written to the store.  Each path of the three trees is settled
    once, in order, by the rules of a three-way merge. *)

From stdpp Require Import list.
From S2P Require Import Prelude CLib Odb Index Commit XLines XHunks MergeText Tree.

#[local] Open Scope Z_scope.

(* ------------------------------------------------------------------ *)
(** ** Data *)

Inductive bgit_merge_kind : Type :=
| BGIT_MERGE_CLEAN | BGIT_MERGE_AUTO | BGIT_MERGE_CONTENT | BGIT_MERGE_ADD_ADD | BGIT_MERGE_MODIFY_DELETE.

#[export] Instance bgit_merge_kind_eq_dec : EqDecision bgit_merge_kind.
Proof. solve_decision. Defined.

(** A side's mode and id; 0 and the empty string where it has no such path. *)
Definition side : Type := Z * list Z.

Record bgit_merge_path := {
  mp_path : list Z; mp_kind : bgit_merge_kind; mp_settled : side; mp_text : option (list Z);
  mp_base : side; mp_ours : side; mp_theirs : side; mp_deleted_in_ours : bool }.

(* ------------------------------------------------------------------ *)
(** ** Operations *)

(** The first entry with exactly this path. *)
Fixpoint bgit_entry_for_path (entries : list bgit_index_entry) (path : list Z) : option bgit_index_entry :=
  match entries with
  | [] => None
  | e :: entries' => if bcmp (e_path e) path =? 0 then Some e else bgit_entry_for_path entries' path
  end.

Definition bgit_same_entry (a b : option bgit_index_entry) : bool :=
  match a, b with
  | None, None => true
  | Some a, Some b => (mode a =? mode b) && beq (sha a) (sha b)
  | _, _ => false
  end.

Definition bgit_fill_side (e : option bgit_index_entry) : side :=
  match e with None => (0, []) | Some e => (mode e, bgit_sha_to_hex (sha e)) end.

Definition bgit_blob_text (o : Objects) (e : option bgit_index_entry) : outcome (list Z) :=
  match e with
  | None => Ret []
  | Some e => let* r := @odb_read o (bgit_sha_to_hex (sha e)) in Ret (snd r)
  end.

Section merging.
Context `{Store} `{Qsort} (our_label their_label : list Z).

(** What the loop does with one path: its result, and the store after it. *)
Definition merge_path (s : repo) (path : list Z) (base ours theirs : option bgit_index_entry) : outcome bgit_merge_path * repo :=
  let result kind settled text deleted :=
    {| mp_path := path; mp_kind := kind; mp_settled := settled; mp_text := text; mp_base := bgit_fill_side base;
       mp_ours := bgit_fill_side ours; mp_theirs := bgit_fill_side theirs; mp_deleted_in_ours := deleted |} in
  if bgit_same_entry ours theirs then (Ret (result BGIT_MERGE_CLEAN (bgit_fill_side ours) None false), s)
  else if bgit_same_entry base ours then (Ret (result BGIT_MERGE_CLEAN (bgit_fill_side theirs) None false), s)
  else if bgit_same_entry base theirs then (Ret (result BGIT_MERGE_CLEAN (bgit_fill_side ours) None false), s)
  else
    match ours, theirs with
    | Some our_entry, Some their_entry =>
        let texts :=
          let* base_text := bgit_blob_text (objects_of s) base in
          let* our_text := bgit_blob_text (objects_of s) ours in
          let* their_text := bgit_blob_text (objects_of s) theirs in
          bgit_merge_content base_text our_text their_text our_label their_label in
        match texts with
        | Fault => (Fault, s)
        | Fail m => (Fail m, s)
        | Ret None => (failed, s)
        | Ret (Some (text, conflicts)) =>
            let mode := match base with Some b => if mode our_entry =? mode b then mode their_entry else mode our_entry | None => mode our_entry end in
            if negb (conflicts =? 0) then
              (Ret (result (if base then BGIT_MERGE_CONTENT else BGIT_MERGE_ADD_ADD) (mode, []) (Some text) false), s)
            else
              match bgit_write_object s (str "blob") text with
              | (Ret hex, s) => (Ret (result BGIT_MERGE_AUTO (mode, hex) None false), s)
              | (Fail m, s) => (Fail m, s)
              | (Fault, s) => (Fault, s)
              end
        end
    | None, kept => (Ret (result BGIT_MERGE_MODIFY_DELETE (bgit_fill_side kept) None true), s)
    | kept, None => (Ret (result BGIT_MERGE_MODIFY_DELETE (bgit_fill_side kept) None false), s)
    end.

(** The earliest path at the front of the three lists. *)
Definition earlier (a b : option (list Z)) : option (list Z) :=
  match a, b with
  | Some a, Some b => if bcmp b a <? 0 then Some b else Some a
  | Some a, None => Some a
  | None, b => b
  end.

Definition front (l : list bgit_index_entry) : option (list Z) := match l with [] => None | e :: _ => Some (e_path e) end.

Definition pass (l : list bgit_index_entry) (path : list Z) : list bgit_index_entry :=
  match l with e :: l' => if bcmp (e_path e) path =? 0 then l' else l | [] => [] end.

(** The loop over the paths: what is left of each list from [i], [j] and [k] on. *)
Fixpoint paths_loop (fuel : nat) (s : repo) (base ours theirs : list bgit_index_entry) (rest_ours rest_theirs rest_base : list bgit_index_entry)
    : outcome (list bgit_merge_path) * repo :=
  match fuel with
  | O => (Fault, s)
  | S fuel' =>
      match earlier (earlier (front rest_ours) (front rest_theirs)) (front rest_base) with
      | None => (Ret [], s)
      | Some candidate =>
          match merge_path s candidate (bgit_entry_for_path base candidate) (bgit_entry_for_path ours candidate) (bgit_entry_for_path theirs candidate) with
          | (Ret result, s) =>
              match paths_loop fuel' s base ours theirs (pass rest_ours candidate) (pass rest_theirs candidate) (pass rest_base candidate) with
              | (Ret results, s) => (Ret (result :: results), s)
              | r => r
              end
          | (Fail m, s) => (Fail m, s)
          | (Fault, s) => (Fault, s)
          end
      end
  end.

(** Each tree may be missing. *)
Definition read_side (s : repo) (tree : option (list Z)) : outcome (list bgit_index_entry) :=
  match tree with None => Ret [] | Some hex => @bgit_read_tree (objects_of s) _ hex end.

Definition bgit_merge_trees (s : repo) (base_tree our_tree their_tree : option (list Z)) : outcome (list bgit_merge_path) * repo :=
  let trees :=
    let* base := read_side s base_tree in
    let* ours := read_side s our_tree in
    let* theirs := read_side s their_tree in
    Ret (base, ours, theirs) in
  match trees with
  | Ret (base, ours, theirs) => paths_loop (S (length base + length ours + length theirs)) s base ours theirs ours theirs base
  | Fail m => (Fail m, s)
  | Fault => (Fault, s)
  end.

End merging.

(* ------------------------------------------------------------------ *)
(** ** Three-way merge of one path *)

(** The same content and mode, or no such path in either. *)
Definition alike (a b : option bgit_index_entry) : Prop := bgit_fill_side a = bgit_fill_side b.

(** The mode of the side that changed it; ours where both did. *)
Definition merged_mode (base : option bgit_index_entry) (ours theirs : bgit_index_entry) : Z :=
  match base with Some b => if mode ours =? mode b then mode theirs else mode ours | None => mode ours end.

Definition sides_of (base ours theirs : option bgit_index_entry) (r : bgit_merge_path) : Prop :=
  mp_base r = bgit_fill_side base /\ mp_ours r = bgit_fill_side ours /\ mp_theirs r = bgit_fill_side theirs.

Definition clean (r : bgit_merge_path) (e : option bgit_index_entry) : Prop :=
  mp_kind r = BGIT_MERGE_CLEAN /\ mp_settled r = bgit_fill_side e /\ mp_text r = None /\ mp_deleted_in_ours r = false.

(** How a path has to be settled, in a store that holds what was written. *)
Inductive settled `{Qsort} (o : Objects) (our_label their_label : list Z) (base ours theirs : option bgit_index_entry) (r : bgit_merge_path) : Prop :=
| settled_agreed : alike ours theirs -> clean r ours -> settled o our_label their_label base ours theirs r
| settled_theirs : ~ alike ours theirs -> alike base ours -> clean r theirs -> settled o our_label their_label base ours theirs r
| settled_ours : ~ alike ours theirs -> ~ alike base ours -> alike base theirs -> clean r ours -> settled o our_label their_label base ours theirs r
| settled_deleted : ~ alike ours theirs -> ~ alike base ours -> ~ alike base theirs ->
    (ours = None /\ mp_settled r = bgit_fill_side theirs /\ mp_deleted_in_ours r = true \/ theirs = None /\ mp_settled r = bgit_fill_side ours /\ mp_deleted_in_ours r = false) ->
    mp_kind r = BGIT_MERGE_MODIFY_DELETE -> mp_text r = None -> settled o our_label their_label base ours theirs r
| settled_lines a b bt ot tt text conflicts : ~ alike ours theirs -> ~ alike base ours -> ~ alike base theirs -> ours = Some a -> theirs = Some b ->
    bgit_blob_text o base = Ret bt -> bgit_blob_text o ours = Ret ot -> bgit_blob_text o theirs = Ret tt ->
    bgit_merge_content bt ot tt our_label their_label = Ret (Some (text, conflicts)) ->
    (if conflicts =? 0 then mp_kind r = BGIT_MERGE_AUTO /\ mp_text r = None /\ (exists hex, mp_settled r = (merged_mode base a b, hex) /\ @odb_read o hex = Ret (BGIT_BLOB, text))
     else mp_kind r = (if base then BGIT_MERGE_CONTENT else BGIT_MERGE_ADD_ADD) /\ mp_text r = Some text /\ mp_settled r = (merged_mode base a b, [])) ->
    settled o our_label their_label base ours theirs r.

Definition ids_ok (l : list bgit_index_entry) : Prop := Forall (fun e => oid (sha e)) l.
Definition id_ok (e : option bgit_index_entry) : Prop := match e with Some e => oid (sha e) | None => True end.

Lemma same_entry_alike a b : id_ok a -> id_ok b -> bgit_same_entry a b = true <-> alike a b.
Proof.
  unfold alike, bgit_fill_side. destruct a as [a|], b as [b|]; cbn; intros Ha Hb.
  - rewrite andb_true_iff, Z.eqb_eq. unfold beq. rewrite bool_decide_eq_true. split; [by intros [-> ->]|]. intros [= Hm Hs].
    split; [done|]. destruct (sha_hex_roundtrip _ Ha) as (_ & _ & E1), (sha_hex_roundtrip _ Hb) as (_ & _ & E2). rewrite Hs in E1. congruence.
  - split; [done|]. intros [= _ E]. destruct Ha as [Hl Hb']. pose proof (sha_to_hex_len _ Hb') as Hh. rewrite E, len_nil in Hh. lia.
  - split; [done|]. intros [= _ E]. destruct Hb as [Hl Hb']. pose proof (sha_to_hex_len _ Hb') as Hh. rewrite <- E, len_nil in Hh. lia.
  - done.
Qed.

Lemma same_entry_false a b : id_ok a -> id_ok b -> bgit_same_entry a b = false -> ~ alike a b.
Proof. intros Ha Hb E Hab. apply same_entry_alike in Hab; [congruence|done|done]. Qed.

Lemma blob_text_grows o o' e t : grows o o' -> bgit_blob_text o e = Ret t -> bgit_blob_text o' e = Ret t.
Proof.
  intros Hg. destruct e as [e|]; cbn; [|done]. unfold odb_read. destruct (bgit_odb_read (c_text (bgit_sha_to_hex (sha e)))) as [ob|] eqn:E; [|done].
  by rewrite (Hg _ _ E).
Qed.

Lemma settled_grows `{Qsort} o o' ol tl b u t r : grows o o' -> settled o ol tl b u t r -> settled o' ol tl b u t r.
Proof.
  intros Hg Hs. destruct Hs as [| | | |x y bt ot tt text n N1 N2 N3 -> -> Hb Ho Ht Hm Hr].
  - by apply settled_agreed.
  - by apply settled_theirs.
  - by apply settled_ours.
  - by apply settled_deleted.
  - apply (settled_lines _ _ _ _ _ _ _ x y bt ot tt text n); try done; try (apply (blob_text_grows _ _ _ _ Hg); assumption).
    destruct (n =? 0); [|done]. destruct Hr as (Hk & Htx & hex & Hset & Hread). split_and!; [done|done|]. exists hex. split; [done|].
    unfold odb_read in *. destruct (bgit_odb_read (c_text hex)) as [ob|] eqn:E; [|done]. by rewrite (Hg _ _ E).
Qed.

Section merged.
Context `{StoreLaws} `{Qsort} (our_label their_label : list Z).

(** Merging stops only where the store refuses a blob. *)
Definition refuses_blob (m : string) : Prop := exists s content, fst (bgit_write_object s (str "blob") content) = Fail m.

(** Both sides have the path, and each changed it its own way. *)
Definition contested (base ours theirs : option bgit_index_entry) : Prop :=
  ~ alike ours theirs /\ ~ alike base ours /\ ~ alike base theirs /\ is_Some ours /\ is_Some theirs.

(** The texts of such a path can be read and compared. *)
Definition texts_ok (o : Objects) (base ours theirs : option bgit_index_entry) : Prop :=
  contested base ours theirs -> exists bt ot tt, bgit_blob_text o base = Ret bt /\ bgit_blob_text o ours = Ret ot /\ bgit_blob_text o theirs = Ret tt /\ mergeable bt ot tt.

Lemma texts_grow o o' b u t : grows o o' -> texts_ok o b u t -> texts_ok o' b u t.
Proof.
  intros Hg Ht Hc. destruct (Ht Hc) as (bt & ot & tt & H1' & H2' & H3' & Hm). exists bt, ot, tt. split_and!; try done; apply (blob_text_grows _ _ _ _ Hg); assumption.
Qed.

Lemma merge_path_ok s path base ours theirs : id_ok base -> id_ok ours -> id_ok theirs -> texts_ok (objects_of s) base ours theirs ->
  match merge_path our_label their_label s path base ours theirs with
  | (Ret r, s') => grows (objects_of s) (objects_of s') /\ mp_path r = path /\ sides_of base ours theirs r /\ settled (objects_of s') our_label their_label base ours theirs r
  | (Fail m, s') => refuses_blob m /\ contested base ours theirs /\ grows (objects_of s) (objects_of s')
  | (Fault, _) => False
  end.
Proof.
  intros Ib Io It Htx. unfold merge_path. pose proof (store_grows_refl (objects_of s)) as Hrefl.
  destruct (bgit_same_entry ours theirs) eqn:E1; [split_and!; try done; apply settled_agreed; [by apply same_entry_alike|done]|]. apply same_entry_false in E1; [|done|done].
  destruct (bgit_same_entry base ours) eqn:E2; [split_and!; try done; apply settled_theirs; [done|by apply same_entry_alike|done]|]. apply same_entry_false in E2; [|done|done].
  destruct (bgit_same_entry base theirs) eqn:E3; [split_and!; try done; apply settled_ours; [done|done|by apply same_entry_alike|done]|]. apply same_entry_false in E3; [|done|done].
  destruct ours as [a|], theirs as [b|].
  - assert (Hcon : contested base (Some a) (Some b)) by (by split_and!). destruct (Htx Hcon) as (bt & ot & tt & Hb & Ho & Ht & Hm). rewrite Hb, Ho, Ht. cbn [obind].
    destruct (merge_steps bt ot tt our_label their_label Hm) as (ra & rb & ps & _ & _ & _ & _ & _ & Hc & _). rewrite Hc.
    set (text := pieces_text _ _ ps) in *. set (n := disputes ps) in *. clearbody text n. fold (merged_mode base a b). destruct (n =? 0) eqn:En; cbn [negb].
    + destruct (bgit_write_object s (str "blob") text) as [[hex|m|] s'] eqn:Ew.
      * assert (Hg : grows (objects_of s) (objects_of s')) by (intros x ob; by eapply write_keeps). split_and!; [done|done|done|].
        apply (settled_lines _ _ _ _ _ _ _ a b bt ot tt text n); try done; try (apply (blob_text_grows _ _ _ _ Hg); assumption). rewrite En. split_and!; [done|done|]. exists hex. split; [done|].
        destruct (write_hex _ _ _ _ _ Ew) as (id & Hid & ->). unfold odb_read. rewrite hex_c_text by apply Hid. by rewrite (write_reads _ BGIT_BLOB _ _ _ Ew).
      * split_and!; [exists s, text; by rewrite Ew|done|]. intros x ob. by eapply write_keeps.
      * by destruct (write_no_fault s (str "blob") text); rewrite Ew.
    + split_and!; [done|done|done|]. apply (settled_lines _ _ _ _ _ _ _ a b bt ot tt text n); try done. by rewrite En.
  - split_and!; try done. apply settled_deleted; try done. by right.
  - split_and!; try done. apply settled_deleted; try done. by left.
  - by destruct E1.
Qed.

(* ------------------------------------------------------------------ *)
(** ** Three sorted lists walked as one *)

Definition strictly (l : list bgit_index_entry) : Prop := StronglySorted (fun a b => bcmp (e_path a) (e_path b) < 0) l.
Definition paths (l : list bgit_index_entry) : list (list Z) := map e_path l.
Definition after (c : list Z) (l : list bgit_index_entry) : Prop := Forall (fun e => bcmp c (e_path e) < 0) l.

Lemma earlier_none a b : earlier a b = None -> a = None /\ b = None.
Proof. destruct a as [a|], b as [b|]; cbn; try case_match; done. Qed.

Lemma earlier_some a b c : earlier a b = Some c -> (a = Some c \/ b = Some c) /\ forall x, a = Some x \/ b = Some x -> bcmp c x <= 0.
Proof.
  destruct a as [a|], b as [b|]; cbn; intros E; [case_match eqn:Eb; simpl_bool| | |done]; injection E as <-.
  - split; [by right|]. intros x [[= <-]|[= <-]]; [lia|rewrite bcmp_refl; lia].
  - split; [by left|]. intros x [[= <-]|[= <-]]; [rewrite bcmp_refl; lia|]. rewrite bcmp_antisym. lia.
  - split; [by left|]. intros x [[= <-]|]; [rewrite bcmp_refl; lia|done].
  - split; [by right|]. intros x [|[= <-]]; [done|rewrite bcmp_refl; lia].
Qed.

Lemma advance_ok l c : strictly l -> (forall x, front l = Some x -> bcmp c x <= 0) ->
  strictly (pass l c) /\ after c (pass l c) /\ (forall p, p ∈ paths l <-> p ∈ paths (pass l c) \/ (p = c /\ front l = Some c)) /\
  (length (pass l c) <= length l)%nat /\ (front l = Some c -> length (pass l c) < length l)%nat.
Proof.
  intros Hs Hf. destruct l as [|e l]; cbn [pass front paths map length] in *.
  { split_and!; try done; [constructor|]. intros p. split; [by left|by intros [|[_ ?]]]. }
  apply StronglySorted_inv in Hs as [Hs He]. specialize (Hf _ eq_refl). destruct (Z.eqb_spec (bcmp (e_path e) c) 0) as [E|E].
  - apply bcmp_eq in E. subst c. split_and!; [done|done| |lia|lia]. intros p. rewrite elem_of_cons. split; [intros [->|]; [by right|by left]|intros [|[-> _]]; [by right|by left]].
  - assert (Hlt : bcmp c (e_path e) < 0).
    { pose proof (bcmp_antisym c (e_path e)). lia. }
    split_and!; [by constructor| | |done|intros [= Ex]; rewrite Ex, bcmp_refl in Hlt; lia].
    + constructor; [done|]. eapply Forall_impl; [exact He|]. intros x Hx. cbn beta in Hx. by eapply bcmp_lt_trans.
    + intros p. cbn [map]. split; [by left|]. intros [|[_ [= Ex]]]; [done|rewrite Ex, bcmp_refl in Hlt; lia].
Qed.

Lemma entry_for_path_in l p e : bgit_entry_for_path l p = Some e -> e ∈ l /\ e_path e = p.
Proof.
  induction l as [|x l IH]; cbn; [done|]. destruct (Z.eqb_spec (bcmp (e_path x) p) 0) as [E|E]; [intros [= <-]; split; [by left|by apply bcmp_eq]|].
  intros H'. destruct (IH H'). split; [by right|done].
Qed.

Lemma lookup_id l p : ids_ok l -> id_ok (bgit_entry_for_path l p).
Proof. intros Hl. destruct (bgit_entry_for_path l p) as [e|] eqn:E; [|done]. apply entry_for_path_in in E as [Hin _]. by eapply (proj1 (Forall_forall _ _) Hl). Qed.

Section loop.
Variables base ours theirs : list bgit_index_entry.
Hypotheses (Hbase : ids_ok base) (Hours : ids_ok ours) (Htheirs : ids_ok theirs).

(** The texts of every path that has to be merged can be. *)
Definition all_texts (o : Objects) : Prop :=
  forall p, texts_ok o (bgit_entry_for_path base p) (bgit_entry_for_path ours p) (bgit_entry_for_path theirs p).

Definition contested_at (p : list Z) : Prop := contested (bgit_entry_for_path base p) (bgit_entry_for_path ours p) (bgit_entry_for_path theirs p).

(** A result is right for its path. *)
Definition path_settled (o : Objects) (r : bgit_merge_path) : Prop :=
  let b := bgit_entry_for_path base (mp_path r) in let u := bgit_entry_for_path ours (mp_path r) in let t := bgit_entry_for_path theirs (mp_path r) in
  sides_of b u t r /\ settled o our_label their_label b u t r.

Lemma paths_loop_ok fuel : forall s ro rt rb, strictly ro -> strictly rt -> strictly rb -> all_texts (objects_of s) ->
  (length ro + length rt + length rb < fuel)%nat ->
  match paths_loop our_label their_label fuel s base ours theirs ro rt rb with
  | (Ret rs, s') => grows (objects_of s) (objects_of s') /\ StronglySorted (fun a b => bcmp a b < 0) (map mp_path rs) /\
      (forall p, p ∈ map mp_path rs <-> p ∈ paths ro \/ p ∈ paths rt \/ p ∈ paths rb) /\ Forall (path_settled (objects_of s')) rs
  | (Fail m, s') => refuses_blob m /\ (exists p, contested_at p) /\ grows (objects_of s) (objects_of s')
  | (Fault, _) => False
  end.
Proof.
  induction fuel as [|fuel IH]; intros s ro rt rb So St Sb Htx Hfuel; [lia|]. cbn [paths_loop].
  destruct (earlier (earlier (front ro) (front rt)) (front rb)) as [c|] eqn:Ec.
  2:{ apply earlier_none in Ec as [[Eo Et]%earlier_none Eb]. destruct ro, rt, rb; try done. cbn [map paths]. split_and!; [apply store_grows_refl|constructor| |constructor].
      intros p. rewrite !elem_of_nil. tauto. }
  apply earlier_some in Ec as [Hc Hmin].
  assert (Hco : forall x, front ro = Some x \/ front rt = Some x -> bcmp c x <= 0).
  { intros x Hx. destruct (earlier (front ro) (front rt)) as [d|] eqn:Ed; [|apply earlier_none in Ed as [Eo Et]; rewrite Eo, Et in Hx; by destruct Hx].
    apply earlier_some in Ed as [_ Hd]. specialize (Hd x Hx). specialize (Hmin d (or_introl eq_refl)). by eapply bcmp_le_trans. }
  assert (Hfront : front ro = Some c \/ front rt = Some c \/ front rb = Some c).
  { destruct Hc as [Hc|Hc]; [|by right; right]. apply earlier_some in Hc as [[|] _]; [by left|by right; left]. }
  destruct (advance_ok ro c So (fun x Hx => Hco x (or_introl Hx))) as (So' & Ao & Po & Lo & Lo').
  destruct (advance_ok rt c St (fun x Hx => Hco x (or_intror Hx))) as (St' & At & Pt & Lt & Lt').
  destruct (advance_ok rb c Sb (fun x Hx => Hmin x (or_intror Hx))) as (Sb' & Ab & Pb & Lb & Lb').
  pose proof (merge_path_ok s c _ _ _ (lookup_id base c Hbase) (lookup_id ours c Hours) (lookup_id theirs c Htheirs) (Htx c)) as Hpath.
  destruct (merge_path _ _ _ _ _ _ _) as [[r|m|] s1]; [|destruct Hpath as (? & ? & ?); split_and!; [done|by exists c|done]|done]. destruct Hpath as (Hg1 & Hrp & Hsides & Hset).
  assert (Hlen : (length (pass ro c) + length (pass rt c) + length (pass rb c) < fuel)%nat).
  { destruct Hfront as [F|[F|F]]; [specialize (Lo' F)|specialize (Lt' F)|specialize (Lb' F)]; lia. }
  specialize (IH s1 (pass ro c) (pass rt c) (pass rb c) So' St' Sb' (fun p => texts_grow _ _ _ _ _ Hg1 (Htx p)) Hlen).
  destruct (paths_loop _ _ _ _ _ _ _ _ _ _) as [[rs|m|] s2]; [| |done].
  2:{ destruct IH as (? & ? & Hg2). split_and!; [done|done|by eapply store_grows_trans]. }
  destruct IH as (Hg2 & Hsort & Hin & Hall). cbn [map]. rewrite Hrp. split_and!.
  - by eapply store_grows_trans.
  - constructor; [done|]. apply Forall_forall. intros p Hp. apply Hin in Hp. unfold after in Ao, At, Ab.
    assert (Hgen : forall l, Forall (fun e => bcmp c (e_path e) < 0) l -> p ∈ paths l -> bcmp c p < 0).
    { intros l Hl (e & -> & He)%list_elem_of_fmap. by eapply (proj1 (Forall_forall _ _) Hl). }
    destruct Hp as [Hp|[Hp|Hp]]; [exact (Hgen _ Ao Hp)|exact (Hgen _ At Hp)|exact (Hgen _ Ab Hp)].
  - intros p. rewrite elem_of_cons, Hin, Po, Pt, Pb. split; [|tauto]. intros [->|?]; [|tauto]. destruct Hfront as [F|[F|F]]; tauto.
  - constructor; [|done]. unfold path_settled. rewrite Hrp. split; [done|]. by eapply settled_grows.
Qed.

End loop.
End merged.

(* ------------------------------------------------------------------ *)
(** ** Theorems *)

(** A tree's entries as they are read: in strict order, with whole ids. *)
Definition tree_read `{Store} `{Qsort} (s : repo) (tree : option (list Z)) (l : list bgit_index_entry) : Prop :=
  read_side s tree = Ret l /\ strictly l /\ ids_ok l.

Lemma merge_trees_ok `{StoreLaws} `{Qsort} ol tl s bt ot tt base ours theirs :
  tree_read s bt base -> tree_read s ot ours -> tree_read s tt theirs -> all_texts base ours theirs (objects_of s) ->
  match bgit_merge_trees ol tl s bt ot tt with
  | (Ret rs, s') => grows (objects_of s) (objects_of s') /\ StronglySorted (fun a b => bcmp a b < 0) (map mp_path rs) /\
      (forall p, p ∈ map mp_path rs <-> p ∈ paths ours \/ p ∈ paths theirs \/ p ∈ paths base) /\ Forall (path_settled ol tl base ours theirs (objects_of s')) rs
  | (Fail m, s') => refuses_blob m /\ (exists p, contested_at base ours theirs p) /\ grows (objects_of s) (objects_of s')
  | (Fault, _) => False
  end.
Proof.
  intros (Rb & Sb & Ib) (Ro & So & Io) (Rt & St & It) Htx. unfold bgit_merge_trees. rewrite Rb, Ro, Rt. cbn [obind].
  apply paths_loop_ok; try done. lia.
Qed.


(** The paths a merge leaves, with mode and id. *)
Definition merged_tree (rs : list bgit_merge_path) : list (list Z * side) :=
  map (fun r => (mp_path r, mp_settled r)) (List.filter (fun r => negb (beq (snd (mp_settled r)) [])) rs).

Definition tree_sides (l : list bgit_index_entry) : list (list Z * side) := map (fun e => (e_path e, bgit_fill_side (Some e))) l.

Lemma sorted_same (l1 l2 : list (list Z * side)) : StronglySorted (fun a b => bcmp (fst a) (fst b) < 0) l1 -> StronglySorted (fun a b => bcmp (fst a) (fst b) < 0) l2 ->
  (forall x, x ∈ l1 <-> x ∈ l2) -> l1 = l2.
Proof.
  intros H1. revert l2. induction H1 as [|x l1 Hs1 IH Hx]; intros l2 H2 Heq.
  - destruct l2 as [|y l2]; [done|]. assert (Hy : y ∈ []) by (apply Heq; left). by apply elem_of_nil in Hy.
  - destruct H2 as [|y l2 Hs2 Hy]; [assert (Hx' : x ∈ []) by (apply Heq; left); by apply elem_of_nil in Hx'|]. rewrite Forall_forall in Hx, Hy.
    assert (x = y) as ->.
    { assert (H3 : x ∈ y :: l2) by (apply Heq; left). assert (H4 : y ∈ x :: l1) by (apply Heq; left). apply elem_of_cons in H3 as [|H3], H4 as [|H4]; try done.
      specialize (Hx y H4). specialize (Hy x H3). cbn beta in Hx, Hy. rewrite bcmp_antisym in Hy. lia. }
    f_equal. apply IH; [done|]. intros z. specialize (Heq z). rewrite !elem_of_cons in Heq. split; intros Hz.
    + destruct (proj1 Heq (or_intror Hz)) as [->|]; [|done]. specialize (Hx y Hz). cbn beta in Hx. rewrite bcmp_refl in Hx. lia.
    + destruct (proj2 Heq (or_intror Hz)) as [->|]; [|done]. specialize (Hy y Hz). cbn beta in Hy. rewrite bcmp_refl in Hy. lia.
Qed.

Lemma entry_for_path_strict l e : strictly l -> e ∈ l -> bgit_entry_for_path l (e_path e) = Some e.
Proof.
  induction 1 as [|x l _ IH Hx]; intros He; [by apply elem_of_nil in He|]. cbn. rewrite Forall_forall in Hx. apply elem_of_cons in He as [->|He].
  - by rewrite bcmp_refl.
  - specialize (Hx e He). cbn beta in Hx. rewrite (proj2 (Z.eqb_neq _ 0)) by lia. by apply IH.
Qed.

Lemma fill_side_some e : oid (sha e) -> beq (snd (bgit_fill_side (Some e))) [] = false.
Proof.
  intros [Hl Hb]. apply bool_decide_eq_false. cbn. intros E. pose proof (sha_to_hex_len _ Hb) as Hh. rewrite E, len_nil in Hh. lia.
Qed.

(** [C36] (equivalence) When ours is the base, the merge is theirs: it succeeds,
    settles every path cleanly and leaves exactly the entries of their tree. *)
Theorem merge_trees_unchanged `{StoreLaws} `{Qsort} ol tl s bt ot tt base theirs :
  tree_read s bt base -> tree_read s ot base -> tree_read s tt theirs ->
  match bgit_merge_trees ol tl s bt ot tt with
  | (Ret rs, s') => grows (objects_of s) (objects_of s') /\ Forall (fun r => mp_kind r = BGIT_MERGE_CLEAN) rs /\ merged_tree rs = tree_sides theirs
  | _ => False
  end.
Proof.
  intros Hb Ho Ht. assert (Hnot : forall p, ~ contested_at base base theirs p) by (intros p (_ & Hc & _); by apply Hc).
  pose proof (merge_trees_ok ol tl s bt ot tt base base theirs Hb Ho Ht (fun p Hc => False_ind _ (Hnot p Hc))) as Hm.
  destruct (bgit_merge_trees ol tl s bt ot tt) as [[rs|m|] s']; [|destruct Hm as (_ & (p & Hp) & _); by destruct (Hnot p)|done].
  destruct Hm as (Hg & Hsort & Hin & Hall). destruct Ht as (_ & Hst & Hid).
  assert (Hclean : forall r, r ∈ rs -> mp_kind r = BGIT_MERGE_CLEAN /\ mp_settled r = bgit_fill_side (bgit_entry_for_path theirs (mp_path r))).
  { intros r Hr. apply (proj1 (Forall_forall _ _) Hall) in Hr as [_ Hs].
    destruct Hs as [Ha (Hk & Hset & _)|_ _ (Hk & Hset & _)|_ Hn _ _|_ Hn _ _ _ _|? ? ? ? ? ? ? _ Hn _ _ _ _ _ _ _ _]; try (by destruct Hn); split; try done. by rewrite Hset. }
  split_and!; [done|by apply Forall_forall; intros r Hr; apply Hclean|].
  assert (Hsr : StronglySorted (fun a b => bcmp (fst a) (fst b) < 0) (merged_tree rs)).
  { clear -Hsort. unfold merged_tree. induction rs as [|r rs IH]; [constructor|]. apply StronglySorted_inv in Hsort as [Hs Hr]. cbn [List.filter]. destruct (negb _); cbn [map]; [|by apply IH].
    constructor; [by apply IH|]. apply Forall_map, Forall_forall. intros x Hx. apply list_elem_of_In, filter_In in Hx as [Hx _]. rewrite Forall_forall in Hr. cbn. by apply Hr, list_elem_of_fmap_2, list_elem_of_In. }
  apply sorted_same; [done| |].
  - clear -Hst. unfold tree_sides. induction Hst as [|e l _ IH He]; [constructor|]. constructor; [done|]. by apply Forall_map.
  - intros [p sd]. unfold merged_tree, tree_sides. rewrite !list_elem_of_In, !in_map_iff. setoid_rewrite filter_In. setoid_rewrite <- list_elem_of_In. split.
    + intros (r & [= <- <-] & Hr & Hne). destruct (Hclean r Hr) as [_ Hset]. rewrite Hset in Hne |- *. destruct (bgit_entry_for_path theirs (mp_path r)) as [e|] eqn:E; [|done].
      apply entry_for_path_in in E as [He Hp]. exists e. by rewrite Hp.
    + intros (e & [= <- <-] & He). assert (Hp : e_path e ∈ map mp_path rs) by (apply Hin; right; left; by apply list_elem_of_fmap_2).
      apply list_elem_of_fmap in Hp as (r & Ep & Hr). destruct (Hclean r Hr) as [_ Hset]. rewrite <- Ep, (entry_for_path_strict theirs e Hst He) in Hset. exists r.
      rewrite Hset, Ep, (fill_side_some e) by (by eapply (proj1 (Forall_forall _ _) Hid)). done.
Qed.

(* ------------------------------------------------------------------ *)
(** ** A merge *)

(** Three versions of a file, and of the tree that has it with another file
    that theirs removes. *)
Definition demo_blobs : list (list Z) := [column "a12345b67"; column "c12345d67"; column "a12345e678"].

Definition demo_repo : @repo numbered_store := map (fun text => (BGIT_BLOB, text)) demo_blobs.

Definition demo_file (n : Z) (p : string) : bgit_index_entry :=
  {| ctime_sec := 0; ctime_nsec := 0; mtime_sec := 0; mtime_nsec := 0; dev := 0; ino := 0; mode := 33188; uid := 0; gid := 0; size := 0;
     sha := numbered_id n; flags := len (str p); flags2 := 0; e_path := str p |}.

Definition demo_base : list bgit_index_entry := [demo_file 0 "d/f"; demo_file 1 "g"].
Definition demo_ours : list bgit_index_entry := [demo_file 1 "d/f"; demo_file 1 "g"; demo_file 2 "new"].
Definition demo_theirs : list bgit_index_entry := [demo_file 2 "d/f"].

(** Each tree takes two objects. *)
Definition demo_all : @repo numbered_store :=
  let write s es := snd (@bgit_write_tree numbered_store _ s es) in write (write (write demo_repo demo_base) demo_ours) demo_theirs.

Definition demo_hex (n : Z) : option (list Z) := Some (bgit_sha_to_hex (numbered_id n)).

Ltac solve_read := split_and!; [vm_compute; reflexivity|repeat constructor; vm_compute; congruence|repeat (apply Forall_cons; split; [apply numbered_oid|]); apply Forall_nil; exact I].

Lemma demo_texts : all_texts demo_base demo_ours demo_theirs (@objects_of numbered_store demo_all).
Proof.
  intros p (_ & _ & _ & _ & [e He]). apply entry_for_path_in in He as [He Hp]. apply list_elem_of_singleton in He as ->. subst p.
  exists (column "a12345b67"), (column "c12345d67"), (column "a12345e678"). split_and!; [vm_compute; reflexivity..|solve_mergeable].
Qed.


Theorem merge_trees_unchanged_witness :
  match @bgit_merge_trees numbered_store _ (str "A") (str "B") demo_all (demo_hex 4) (demo_hex 4) (demo_hex 8) with
  | (Ret rs, s') => grows (@objects_of numbered_store demo_all) (@objects_of numbered_store s') /\ Forall (fun r => mp_kind r = BGIT_MERGE_CLEAN) rs /\ merged_tree rs = tree_sides demo_theirs
  | _ => False
  end.
Proof. apply (@merge_trees_unchanged numbered_store numbered_laws _ (str "A") (str "B") demo_all _ _ _ demo_base demo_theirs); solve_read. Defined.

(** The file is merged with a conflict, the removed one was not changed by us, and the new one is kept. *)
Example demo_merge :
  match @bgit_merge_trees numbered_store _ (str "A") (str "B") demo_all (demo_hex 4) (demo_hex 6) (demo_hex 8) with
  | (Ret rs, _) => map (fun r => (mp_path r, mp_kind r, fst (mp_settled r))) rs = [(str "d/f", BGIT_MERGE_CONTENT, 33188); (str "g", BGIT_MERGE_CLEAN, 0); (str "new", BGIT_MERGE_CLEAN, 33188)]
  | _ => False
  end.
Proof. vm_compute. reflexivity. Qed.

(** A mode both sides changed differently is settled as ours without a conflict. *)
Example mode_conflict_unseen :
  let e m := Some {| ctime_sec := 0; ctime_nsec := 0; mtime_sec := 0; mtime_nsec := 0; dev := 0; ino := 0; mode := m; uid := 0; gid := 0; size := 0;
     sha := numbered_id 0; flags := 1; flags2 := 0; e_path := str "f" |} in
  match @merge_path numbered_store _ (str "A") (str "B") demo_repo (str "f") (e 33188) (e 33261) (e 40960) with
  | (Ret r, _) => mp_kind r = BGIT_MERGE_AUTO /\ fst (mp_settled r) = 33261
  | _ => False
  end.
Proof. vm_compute. split; reflexivity. Qed.
